(* ===== verification/_CoqProject ===== *)
-Q . S2P
Prelude.v
CircularList.v
ListFamily.v
Bitops.v
Buddy.v
BuddyTiling.v
BuddyTheory.v
BuddyAlloc.v
BuddyRegions.v
BuddyInit.v
BuddyCorrect.v
PageSource.v
Slab.v
SlabTheory.v
Malloc.v
MallocTheory.v
MallocCorrect.v
Badgelib.v
IntRoutines.v
NumToStr.v
Threads.v
Spinlock.v
Mutex.v
Blockdev.v
BlkdevRam.v
BlockdevCorrect.v
Ramfs.v
RamfsTheory.v
RamfsCorrect.v
Pmp.v
PmpTheory.v
PmpCorrect.v
ProcMemmap.v
ProcMemmapCorrect.v
Vfs.v
VfsCorrect.v
VfsDir.v
Containers.v
Sched.v
SchedTheory.v
SchedOps.v
SchedCorrect.v
PageTable.v
PageTableTheory.v
PageTableMap.v
PageTableCorrect.v
Vmm.v
StringRoutines.v
Housekeeping.v
Timer.v
Process.v
ProcessCorrect.v
FormatStr.v
FormatStrCorrect.v
Dtb.v
DtbTheory.v
DtbCorrect.v
VfsPath.v
VfsPathCorrect.v
Fat.v
VfsMount.v
