(* ===== verification/Prelude.v ===== *)
(** * BadgerOS: a verification library for the kernel

    BadgerOS is a kernel for RISC-V boards.  This library models its core in
    Rocq and proves what makes it correct.  Paths are relative to src/kernel.

    ** The program and its model

    Memory.  src/malloc/static-buddy.c hands out pages from registered pools;
    slab-alloc.c cuts pages into small slots; malloc.c is the heap over both,
    and src/page_alloc.c the page allocator for processes.
    - [CircularList], [ListFamily]: the intrusive circular lists, as pointer
      structures and as the sequences they stand for.
    - [Buddy]: pools, blocks, splitting, merging, all entry points.
      [BuddyTiling], [BuddyTheory], [BuddyAlloc], [BuddyRegions], [BuddyInit]
      relate a pool to a tiling of its pages by blocks; [BuddyCorrect] has the
      theorems.
    - [PageSource]: the page allocator as an interface, with the buddy
      allocator as its instance.  [Slab] and [SlabTheory] are the slab
      allocator over it, [Malloc] and [MallocTheory] the heap,
      [MallocCorrect] their theorems.
    - [Bitops]: src/malloc/bitops.h, both variants of every function.
    Processes and memory protection.  src/process/proc_memmap.c keeps the
    regions of a process, and the PMP driver turns them into protection
    registers.
    - [Pmp]: cpu/riscv/src/memprotect/riscv_pmp.c and the ESP32-C6 port
      (port/esp32c6/src/memprotect.c) over a model of the registers;
      [PmpTheory] has the encodings, [PmpCorrect] the theorems.
    - [ProcMemmap], [ProcMemmapCorrect]: memory maps, the memory system calls
      and kernel access to user memory.
    Virtual memory.  port/generic/src/memprotect.c builds page tables in the
    format of cpu/riscv/include/cpu/mmu.h.
    - [PageTable]: entries, walking, mapping, splitting, contexts;
      [PageTableTheory]: tables as trees and the walk over them; [PageTableMap]:
      what mapping does to a tree; [PageTableCorrect]: theorems.
    - [Vmm]: the ranges of kernel addresses.
    Process table.  src/process/process.c keeps the processes, sighandler.c
    their signals, syscall_impl.c the system calls.
    - [Process]: the table over threads and memory as an interface;
      [ProcessCorrect]: the tree of processes, exit and wait.
    Tasks.  [Housekeeping]: src/housekeeping.c; [Timer]: src/time.c.
    Synchronisation.  [Threads] has interleavings of atomic steps; [Spinlock]
    and [Mutex] are src/badgelib/spinlock.c and mutex.c.
    Storage.  src/blockdevice/blockdevice.c is a block cache over a driver.
    - [Blockdev]: the cache over the driver table as a class; [BlkdevRam]: the
      RAM driver and the contract of a driver; [BlockdevCorrect]: theorems.
    - [Ramfs], [RamfsTheory], [RamfsCorrect]: src/filesystem/vfs_ramfs.c.
    - [Vfs]: the tables of open files and handles over the RAM file system
      (src/filesystem/vfs_internal.c, filesystem.c); [VfsCorrect]: reading,
      writing, seeking and closing; [VfsDir]: listing a directory; [VfsPath],
      [VfsPathCorrect]: the walk along a path and opening; [VfsMount]:
      detecting, mounting and unmounting, with theorems.
    - [Fat]: src/filesystem/vfs_fat.c, the boot sector of a FAT file system over
      the block devices.
    Devices.  port/generic/src/dtb.c reads the device tree that describes the
    board, and dtparse.c looks for drivers in it.
    - [Dtb]: the parser, references, queries and the search; [DtbTheory]: the
      format and its trees; [DtbCorrect]: theorems.
    Scheduling.  src/scheduler/scheduler.c gives each CPU a run queue.
    - [Containers]: the lists and arrays of the badgelib submodule as classes.
    - [Sched]: threads, run queues, switches, load balancing, the life of a
      thread, entry into and return from the kernel; [SchedTheory]: the
      invariant and the parts of a switch; [SchedOps]: each operation;
      [SchedCorrect]: the transition system and the theorems.
    Support.  [StringRoutines]: src/freestanding/string.c; [IntRoutines]:
    src/freestanding/int_routines.c; [NumToStr]:
    src/badgelib/num_to_str.c; [FormatStr], [FormatStrCorrect]:
    src/badgelib/badge_format_str.c; [Badgelib]: the functions of the badgelib
    submodule that other components use, as classes with their laws.

    ** Conventions

    A C function is a Rocq function of the same name that takes the state it
    reads and returns the state it writes, in the monad [outcome]: a value,
    undefined behaviour, a panic, or exhausted fuel.  Structures are records,
    pointers are addresses or indices, integers are [Z] with the wrap-around
    written out.  The width is that of the 64-bit build, but 32 bits for the
    PMP ports.  Concurrent components are step functions on a state shared by
    threads, with one step per atomic access; operations that hold the mutex
    of their component are single steps.  Code outside the repository is a
    class or an argument with its documented behaviour as laws.

    ** What the theorems show

    - Buddy allocator, slabs, heap: each operation refines the abstract store
      of disjoint regions or objects, on every branch; allocation fails only
      when no block fits; a pool without live regions is one block again.
    - PMP and memory maps: user code has exactly the permissions of the regions
      of its process and none to those of another; mapping, unmapping and exit
      keep the invariant of all memory maps and never fail their assertions.
    - Page tables: mapping changes the translation of exactly the range it is
      given, in one context only; a new context shares the kernel half.  Kernel
      addresses: free and allocated ranges stay disjoint and lose no page.
    - Locks: mutual exclusion in every interleaving, and progress of the
      spinlock; two executions show where the mutex fails to make progress.
    - Block devices: reads and whole writes through the cache act on an array of
      blocks, one block at a time.  It is the block that was asked for, but when
      an expired entry of another block is chosen for replacement it is that
      block, which the theorems say; errors change nothing; the RAM device
      composes with the cache.
    - RAM file system: directories as lists of entries under creation, removal
      and listing; file contents under reads, writes and resizing; errors.
    - Open files: the tables stay consistent under reading, writing and seeking,
      data written through a handle are read back, closing removes one handle, a
      directory is listed in order; errors change nothing.
    - Paths and mounting: cleaning a path keeps its names; opening a file of the
      root directory gives a handle that reads its contents; mounting takes the
      first free slot and is undone by unmounting; a medium is mounted as FAT
      exactly if its boot sector is one, with the geometry that it describes.
    - Device tree: opening a flattened tree gives the tree back with its
      references; queries find the first match; every device gets the first
      driver that knows its most specific name.
    - Format strings: text and well-formed specifiers print what a reference
      definition, written from the documentation, gives; the values that are
      printed otherwise are excluded and shown.
    - Scheduler of one CPU: in every reachable state a thread is queued once
      exactly if it can run, the running thread is queued, and all operations
      return; a switch selects the first thread that may run; as long as nothing
      but switches happens no thread starves; a new thread runs next when asked;
      joined threads are freed.
    - Processes: as long as no process ends while it has children, the table
      stays sorted, its links form a tree and all operations return; the exit
      code of a process without children reaches the parent that waits.
    - Tasks: a round of housekeeping ends and runs what came due in the order of
      time; timer tasks run once, not early, and not when cancelled, unless an
      interrupt meets the lock that time_add_async_task holds with interrupts on,
      which is a deadlock.
    - Memory, arithmetic and formatting routines compute what their names say.
    Each file with such theorems ends with instances at concrete inputs, and
    with executions where the code does something else than it means to.

    ** Fuel

    Loops that are not structural take fuel, and a lemma shows that it is
    enough: 32 for merging and 256 for splitting (orders fit in a byte), the
    number of list nodes for scans, the word width for division, 64 doublings
    of a capacity, 32 shifts of the PMP granule, the length of a directory or
    of a list of regions (every round leaves an element behind), the number of
    pages to map, the time a queue of tasks is behind, the length of a path, of a
    format string or of a device tree.

    ** Not modelled

    The scheduler theorems are for one CPU: with more, load balancing loses
    threads (see [SchedCorrect]).  Theorems on opening are for files of the root
    directory that are not open, with memory for the handles and room in the
    table: in the other cases [VfsPathCorrect] has executions in which the code
    uses handles that it has lost.  Operations on open files are single steps,
    though two handles of one file have different mutexes; the callbacks of
    housekeeping tasks are recorded and taken to return.  Interfaces between
    components of the kernel have laws: those of the page source of the heap
    are proved of the buddy allocator; those of physical pages in [ProcMemmap] and
    of the thread and memory services in [Process] are assumptions, which concrete
    instances satisfy, and are not derived from the models of page_alloc.c, which
    can hand out a block that runs past the end of its pool, and of the scheduler.
    Left out: the mutexes of the file system
    layer; the functions of the FAT driver that are declared but not written;
    logs, console output and the dump of a device tree, which only print; trap
    entry and context switches, which are assembly; drivers and boot code, which
    only access registers; ELF loading, which is a submodule. *)

From stdpp Require Import base numbers option list gmap.
From stdpp Require Export base numbers option list gmap.

(** ** Scope and notations *)

Declare Scope badger_scope.
Delimit Scope badger_scope with badger.
#[global] Open Scope Z_scope.

(** ** Machine integers

    A [w]-bit unsigned C integer is a [Z] in [0, 2^w); every operation that
    can leave the range is followed by [wrap w].  A signed value is obtained
    from its representation with [signed w].  The model fixes the 64-bit
    build: [size_t], pointers and [long] are 64 bits, [int] is 32 bits. *)

Definition wrap (w x : Z) : Z := x mod 2 ^ w.
Definition signed (w x : Z) : Z :=
  let u := x mod 2 ^ w in if u <? 2 ^ (w - 1) then u else u - 2 ^ w.

Abbreviation u8 := (wrap 8).
Abbreviation u16 := (wrap 16).
Abbreviation u32 := (wrap 32).
Abbreviation u64 := (wrap 64).

(** [x] is representable in [w] unsigned bits. *)
Definition fits (w x : Z) : Prop := 0 <= x < 2 ^ w.

Lemma signed_range w x : 0 < w → - 2 ^ (w - 1) <= x < 2 ^ (w - 1) → signed w x = x.
Proof.
  intros Hw Hx. unfold signed. assert (2 ^ w = 2 * 2 ^ (w - 1)) as E by (rewrite <-Z.pow_succ_r by lia; f_equal; lia).
  destruct (decide (0 <= x)).
  - rewrite Z.mod_small by lia. cbv zeta. by rewrite (proj2 (Z.ltb_lt _ _)) by lia.
  - rewrite <-(Z.mod_add x 1) by lia. rewrite Z.mod_small by lia. cbv zeta. rewrite (proj2 (Z.ltb_ge _ _)) by lia. lia.
Qed.

(** Bitwise complement of a [w]-bit word. *)
Definition wnot (w x : Z) : Z := wrap w (Z.lnot x).

(** ** Outcomes

    A C computation either returns a value, has undefined behaviour (an access
    outside the object it is meant for, a null dereference, an invalid shift),
    stops the kernel through [panic_abort] or a failing assertion, or, in the
    model only, exhausts the fuel of a loop. *)

Inductive outcome (A : Type) : Type :=
  | Done (a : A)
  | Undef
  | Panic
  | Fuel.
Arguments Done {A} a.
Arguments Undef {A}.
Arguments Panic {A}.
Arguments Fuel {A}.

#[global] Instance outcome_ret : MRet outcome := λ A a, Done a.
#[global] Instance outcome_bind : MBind outcome := λ A B f m,
  match m with
  | Done a => f a
  | Undef => Undef
  | Panic => Panic
  | Fuel => Fuel
  end.

(** A memory access that must hit an existing object. *)
Definition deref {A} (o : option A) : outcome A :=
  match o with Some a => Done a | None => Undef end.

(** [assert_always] / [assert_dev_drop]. *)
Definition assert_or_panic (b : bool) : outcome unit := if b then Done () else Panic.

Lemma bind_Done {A B} (m : outcome A) (f : A → outcome B) b :
  (m ≫= f) = Done b ↔ ∃ a, m = Done a ∧ f a = Done b.
Proof. destruct m; naive_solver. Qed.

Lemma deref_Done {A} (o : option A) a : deref o = Done a ↔ o = Some a.
Proof. destruct o; naive_solver. Qed.

(** Decompose a successful monadic computation in the hypotheses. *)
Ltac inv_outcome :=
  repeat match goal with
  | H : (_ ≫= _) = Done _ |- _ =>
      let a := fresh "a" in let Ha := fresh "Ha" in
      apply bind_Done in H; destruct H as (a & Ha & H)
  | H : deref _ = Done _ |- _ => apply deref_Done in H
  | H : Done _ = Done _ |- _ => injection H as H; subst
  | H : mret _ = Done _ |- _ => unfold mret, outcome_ret in H
  | H : Undef = Done _ |- _ => discriminate H
  | H : Panic = Done _ |- _ => discriminate H
  | H : Fuel = Done _ |- _ => discriminate H
  end.

(** Rewrite the scrutinee of the first bind of the goal. *)
Ltac bind_step E := rewrite E; cbn [mbind outcome_bind deref].

(** Settle the [decide]s of the goal whose proposition the context decides. *)
Ltac resolve_decide :=
  repeat first
    [ rewrite decide_True by first [done | congruence | lia]
    | rewrite decide_False by first [done | congruence | lia] ].

(** ** Byte-addressed memory *)

Definition memory : Type := Z → Z.

(** [memcpy] between areas that do not overlap. *)
Definition memcpy (dst src len : Z) (m : memory) : memory := λ a,
  if (dst <=? a) && (a <? dst + len) then m (src + (a - dst)) else m a.

(** [memset]. *)
Definition memfill (dst v len : Z) (m : memory) : memory := λ a,
  if (dst <=? a) && (a <? dst + len) then v else m a.

Lemma memcpy_inside dst src len m i : 0 <= i < len → memcpy dst src len m (dst + i) = m (src + i).
Proof.
  intros Hi. unfold memcpy. rewrite (proj2 (Z.leb_le _ _)), (proj2 (Z.ltb_lt _ _)) by lia. simpl.
  f_equal. lia.
Qed.

Lemma memcpy_outside dst src len m x : x < dst ∨ dst + len <= x → memcpy dst src len m x = m x.
Proof. intros Hx. unfold memcpy. destruct (Z.leb_spec dst x), (Z.ltb_spec x (dst + len)); simpl; try done; lia. Qed.

Lemma memfill_inside dst v len m i : 0 <= i < len → memfill dst v len m (dst + i) = v.
Proof.
  intros Hi. unfold memfill. by rewrite (proj2 (Z.leb_le _ _)), (proj2 (Z.ltb_lt _ _)) by lia.
Qed.

Lemma memfill_outside dst v len m x : x < dst ∨ dst + len <= x → memfill dst v len m x = m x.
Proof. intros Hx. unfold memfill. destruct (Z.leb_spec dst x), (Z.ltb_spec x (dst + len)); simpl; try done; lia. Qed.

(** ** Arithmetic shared by the components *)

Create HintDb badger.

Lemma pow2_pos n : 0 <= n → 0 < 2 ^ n.
Proof. intros; lia. Qed.

Lemma pow2_succ n : 0 <= n → 2 ^ (n + 1) = 2 * 2 ^ n.
Proof. intros. rewrite Z.pow_add_r by lia. lia. Qed.

Lemma pow2_pred n : 0 < n → 2 ^ n = 2 * 2 ^ (n - 1).
Proof. intros. rewrite <-pow2_succ by lia. f_equal; lia. Qed.

Lemma pow2_le a b : 0 <= a <= b → 2 ^ a <= 2 ^ b.
Proof. intros. apply Z.pow_le_mono_r; lia. Qed.

Lemma pow2_lt a b : 0 <= a < b → 2 * 2 ^ a <= 2 ^ b.
Proof. intros. rewrite <-pow2_succ by lia. apply pow2_le; lia. Qed.

Lemma pow2_divide a b : 0 <= a <= b → (2 ^ a | 2 ^ b).
Proof.
  intros. exists (2 ^ (b - a)). rewrite <-Z.pow_add_r by lia. f_equal; lia.
Qed.

Lemma wrap_small w x : fits w x → wrap w x = x.
Proof. unfold wrap, fits. apply Z.mod_small. Qed.

Lemma wrap_fits w x : 0 <= w → fits w (wrap w x).
Proof. intros. apply Z.mod_pos_bound. lia. Qed.

Lemma testbit_above w x n : fits w x → 0 <= w <= n → Z.testbit x n = false.
Proof.
  intros [Hx Hw] Hn. destruct (decide (x = 0)) as [->|]; [apply Z.bits_0|].
  assert (Z.log2 x < w) by (apply Z.log2_lt_pow2; lia). apply Z.bits_above_log2; lia.
Qed.

(** Masking with the complement of [2 ^ k - 1] rounds down. *)
Lemma lor_shiftl_add a b k : 0 <= k → 0 <= a < 2 ^ k → Z.lor a (Z.shiftl b k) = a + b * 2 ^ k.
Proof.
  intros Hk Ha. rewrite <-Z.shiftl_mul_pow2 by done.
  assert (Z.land a (Z.shiftl b k) = 0) as Hd.
  { apply Z.bits_inj'; intros n Hn. rewrite Z.land_spec, Z.bits_0. destruct (decide (n < k)).
    - rewrite Z.shiftl_spec_low by lia. apply andb_false_r.
    - by rewrite (testbit_above k a n) by (unfold fits; lia). }
  by rewrite <-Z.lxor_lor, <-Z.add_nocarry_lxor.
Qed.

Lemma land_align w k x :
  0 <= k → fits w x → 0 <= w → Z.land x (wnot w (2 ^ k - 1)) = x / 2 ^ k * 2 ^ k.
Proof.
  intros Hk Hx Hw. rewrite <-Z.shiftr_div_pow2, <-Z.shiftl_mul_pow2, <-Z.ldiff_ones_r by done.
  rewrite Z.ones_equiv. apply Z.bits_inj'; intros n Hn. rewrite Z.land_spec, Z.ldiff_spec.
  unfold wnot, wrap, Z.pred. destruct (decide (n < w)).
  - by rewrite Z.mod_pow2_bits_low, Z.lnot_spec by lia.
  - by rewrite (testbit_above w x n) by (done || lia).
Qed.

#[export] Hint Resolve pow2_pos wrap_fits : badger.
