(* ===== verification/CircularList.v ===== *)
(** * Intrusive circular doubly linked lists

    Both kernel allocators keep their free lists as circular lists whose links
    are embedded in the listed structures ([buddy_block_t] in
    kernel/src/malloc/static-buddy.c, [slab_header_t] in
    kernel/src/malloc/slab-alloc.c).  The four list functions have the same
    text in both files, so they are modelled once, over a store of structures
    [gmap K V] and an interface [Links] that says where the links are.  The
    predicate [dll] relates a list head in the store to the sequence of its
    entries; the lemmas show that each operation acts on that sequence. *)

From S2P Require Import Prelude.

(** Where a structure [V] keeps its links, and what the rest of it is. *)
Class Links (K V P : Type) := {
  lnext : V → K;
  lprev : V → K;
  set_next : K → V → V;
  set_prev : K → V → V;
  payload : V → P;
}.

Class LinksLaws (K V P : Type) `{Links K V P} := {
  lnext_set_next k v : lnext (set_next k v) = k;
  lprev_set_next k v : lprev (set_next k v) = lprev v;
  lnext_set_prev k v : lnext (set_prev k v) = lnext v;
  lprev_set_prev k v : lprev (set_prev k v) = k;
  payload_set_next k v : payload (set_next k v) = payload v;
  payload_set_prev k v : payload (set_prev k v) = payload v;
}.

Section ops.
Context {K V P : Type} `{Countable K} `{Links K V P}.
Implicit Types (h : gmap K V) (k x list entry : K).

(** [k->next = x] and [k->prev = x]. *)
Definition put_next k x h : outcome (gmap K V) :=
  v ← deref (h !! k); Done (<[k := set_next x v]> h).
Definition put_prev k x h : outcome (gmap K V) :=
  v ← deref (h !! k); Done (<[k := set_prev x v]> h).

Definition list_init list h : outcome (gmap K V) :=
  h ← put_prev list list h;
  put_next list list h.

Definition list_push_back list entry h : outcome (gmap K V) :=
  l ← deref (h !! list);
  let prev := lprev l in
  h ← put_prev entry prev h;
  h ← put_next entry list h;
  h ← put_next prev entry h;
  put_prev list entry h.

Definition list_remove entry h : outcome (gmap K V) :=
  e ← deref (h !! entry);
  let prev := lprev e in
  let next := lnext e in
  h ← put_next prev next h;
  put_prev next prev h.

Definition list_empty list h : outcome bool :=
  l ← deref (h !! list);
  Done (bool_decide (lprev l = list)).
End ops.

(** ** The abstraction: a head and the sequence of its entries *)
Section dll.
Context {K V P : Type} `{Countable K} `{LinksLaws K V P}.
Implicit Types (h : gmap K V) (a b x e l : K) (xs ys : list K).

Definition next_of h a : option K := lnext <$> h !! a.
Definition prev_of h a : option K := lprev <$> h !! a.

(** [a] is linked through the nodes [xs] to [b]. *)
Fixpoint lseg h a xs b : Prop :=
  match xs with
  | [] => next_of h a = Some b ∧ prev_of h b = Some a
  | x :: xs => next_of h a = Some x ∧ prev_of h x = Some a ∧ lseg h x xs b
  end.

Definition dll h l xs : Prop := lseg h l xs l ∧ NoDup (l :: xs).

Lemma lseg_app h a xs x ys b :
  lseg h a (xs ++ x :: ys) b ↔ lseg h a xs x ∧ lseg h x ys b.
Proof.
  revert a; induction xs as [|y xs IH]; intros a; simpl; [naive_solver|].
  rewrite IH. naive_solver.
Qed.

(** A segment only depends on the forward links of its nodes but the last
    and on the backward links of its nodes but the first. *)
Lemma lseg_frame h h' a xs b :
  (∀ j, j = a ∨ j ∈ xs → next_of h' j = next_of h j) →
  (∀ j, j = b ∨ j ∈ xs → prev_of h' j = prev_of h j) →
  lseg h a xs b → lseg h' a xs b.
Proof.
  revert a; induction xs as [|x xs IH]; intros a Hn Hp; simpl.
  - intros [??]. rewrite Hn, Hp by auto. done.
  - intros (?&?&?). rewrite Hn, Hp by set_solver. split_and!; [done..|].
    apply IH; [set_solver..|done].
Qed.

Lemma dll_frame h h' l xs :
  (∀ j, j ∈ l :: xs → h' !! j = h !! j) → dll h l xs → dll h' l xs.
Proof.
  intros Hf [Hs Hd]; split; [|done].
  apply (lseg_frame h); [| |done]; intros j Hj; unfold next_of, prev_of;
    rewrite Hf; set_solver.
Qed.

Lemma lseg_dom h a xs b : lseg h a xs b → is_Some (h !! a) ∧ is_Some (h !! b).
Proof.
  revert a; induction xs as [|x xs IH]; intros a; simpl; unfold next_of, prev_of.
  - destruct (h !! a), (h !! b); naive_solver.
  - intros (?&?&[_ ?]%IH). destruct (h !! a); naive_solver.
Qed.

Lemma dll_dom h l xs j : dll h l xs → j ∈ l :: xs → is_Some (h !! j).
Proof.
  intros [Hs _] [->|Hj]%elem_of_cons; [by apply lseg_dom in Hs as [??]|].
  apply list_elem_of_split in Hj as (ys&zs&->).
  apply lseg_app in Hs as [_ [??]%lseg_dom]. done.
Qed.

(** ** Effect of the link writes *)

(** [h'] is [h] with the forward (backward) link of [k] set to [x]. *)
Record next_set k x h h' : Prop := {
  ns_next j : next_of h' j = if decide (j = k) then Some x else next_of h j;
  ns_prev j : prev_of h' j = prev_of h j;
  ns_payload : payload <$> h' = payload <$> h;
  ns_other j : j ≠ k → h' !! j = h !! j }.
Record prev_set k x h h' : Prop := {
  ps_next j : next_of h' j = next_of h j;
  ps_prev j : prev_of h' j = if decide (j = k) then Some x else prev_of h j;
  ps_payload : payload <$> h' = payload <$> h;
  ps_other j : j ≠ k → h' !! j = h !! j }.

Lemma put_next_spec k x h :
  is_Some (h !! k) → ∃ h', put_next k x h = Done h' ∧ next_set k x h h'.
Proof.
  intros [v Hv]. unfold put_next. rewrite Hv. eexists; split; [done|].
  split; unfold next_of, prev_of.
  - intros j. rewrite lookup_insert. repeat case_decide; simplify_eq; [|done].
    by simpl; rewrite lnext_set_next.
  - intros j. rewrite lookup_insert. case_decide; simplify_eq; [|done].
    by rewrite Hv; simpl; rewrite lprev_set_next.
  - rewrite fmap_insert, payload_set_next. apply insert_id.
    by rewrite lookup_fmap, Hv.
  - intros j ?. by rewrite lookup_insert_ne.
Qed.

Lemma put_prev_spec k x h :
  is_Some (h !! k) → ∃ h', put_prev k x h = Done h' ∧ prev_set k x h h'.
Proof.
  intros [v Hv]. unfold put_prev. rewrite Hv. eexists; split; [done|].
  split; unfold next_of, prev_of.
  - intros j. rewrite lookup_insert. case_decide; simplify_eq; [|done].
    by rewrite Hv; simpl; rewrite lnext_set_prev.
  - intros j. rewrite lookup_insert. repeat case_decide; simplify_eq; [|done].
    by simpl; rewrite lprev_set_prev.
  - rewrite fmap_insert, payload_set_prev. apply insert_id.
    by rewrite lookup_fmap, Hv.
  - intros j ?. by rewrite lookup_insert_ne.
Qed.

Lemma payload_eq_dom h h' j :
  payload <$> h' = payload <$> h → is_Some (h !! j) → is_Some (h' !! j).
Proof.
  intros Hp%(f_equal (lookup j)) Hj. rewrite !lookup_fmap in Hp.
  destruct (h !! j), (h' !! j); naive_solver.
Qed.

Lemma payload_eq_lookup h h' j v :
  payload <$> h' = payload <$> h → h !! j = Some v →
  ∃ v', h' !! j = Some v' ∧ payload v' = payload v.
Proof.
  intros Hp%(f_equal (lookup j)) Hj. rewrite !lookup_fmap, Hj in Hp.
  destruct (h' !! j); naive_solver.
Qed.

(** ** The operations on the abstract sequence *)

Lemma list_init_spec l h :
  is_Some (h !! l) →
  ∃ h', list_init l h = Done h' ∧ dll h' l [] ∧
    payload <$> h' = payload <$> h ∧ (∀ j, j ≠ l → h' !! j = h !! j).
Proof.
  intros Hl. unfold list_init.
  destruct (put_prev_spec l l h) as (h1&E1&[N1 P1 F1 O1]); [done|].
  destruct (put_next_spec l l h1) as (h2&E2&[N2 P2 F2 O2]);
    [by eapply payload_eq_dom|].
  bind_step E1. rewrite E2. exists h2; split_and!; [done| |congruence|].
  - split; [|repeat constructor; set_solver]. simpl.
    rewrite N2, P2, P1, !decide_True; done.
  - intros j ?. rewrite O2, O1; done.
Qed.

Lemma lseg_last h a xs b :
  lseg h a xs b → prev_of h b = Some (default a (last xs)).
Proof.
  destruct xs as [|x xs _] using rev_ind; [by intros [??]|].
  rewrite last_snoc, lseg_app. simpl. naive_solver.
Qed.

Lemma lseg_head h a xs b :
  lseg h a xs b → next_of h a = Some (default b (head xs)).
Proof. destruct xs; simpl; naive_solver. Qed.

Lemma default_last_elem a (xs : list K) : default a (last xs) ∈ a :: xs.
Proof.
  destruct xs as [|x xs _] using rev_ind; [set_solver|].
  rewrite last_snoc. set_solver.
Qed.

Lemma list_push_back_spec l e xs h :
  dll h l xs → e ∉ l :: xs → is_Some (h !! e) →
  ∃ h', list_push_back l e h = Done h' ∧ dll h' l (xs ++ [e]) ∧
    payload <$> h' = payload <$> h ∧
    (∀ j, j ∉ l :: e :: xs → h' !! j = h !! j).
Proof.
  intros Hd He Hs. pose proof Hd as [Hl Hnd].
  pose proof (lseg_last _ _ _ _ Hl) as Hp. unfold list_push_back.
  destruct (dll_dom _ _ _ l Hd) as [vl Hvl]; [set_solver|].
  unfold prev_of in Hp. rewrite Hvl in Hp. simpl in Hp. injection Hp as Hp.
  pose proof (default_last_elem l xs) as Hpin. rewrite <-Hp in Hpin.
  bind_step Hvl. set (p := lprev vl) in *.
  destruct (put_prev_spec e p h) as (h1&E1&[N1 P1 F1 O1]); [done|].
  destruct (put_next_spec e l h1) as (h2&E2&[N2 P2 F2 O2]);
    [by eapply payload_eq_dom|].
  destruct (put_next_spec p e h2) as (h3&E3&[N3 P3 F3 O3]).
  { eapply payload_eq_dom, dll_dom; [|done|done]. congruence. }
  destruct (put_prev_spec l e h3) as (h4&E4&[N4 P4 F4 O4]).
  { eapply (payload_eq_dom h); [congruence|eauto]. }
  bind_step E1. bind_step E2. bind_step E3. rewrite E4.
  exists h4; split_and!; [done| |congruence|].
  - assert (e ≠ l ∧ e ≠ p) as [Hel Hep] by set_solver.
    assert (Hnext : ∀ j, next_of h4 j =
      if decide (j = p) then Some e else if decide (j = e) then Some l else next_of h j).
    { intros j. rewrite N4, N3, N2, N1. done. }
    assert (Hprev : ∀ j, prev_of h4 j =
      if decide (j = l) then Some e else if decide (j = e) then Some p else prev_of h j).
    { intros j. rewrite P4, P3, P2, P1. done. }
    split; [|rewrite app_comm_cons; apply NoDup_app; split_and!;
             [done|set_solver|apply NoDup_singleton]].
    apply lseg_app; split; [|simpl; rewrite Hnext, Hprev; by resolve_decide].
    destruct xs as [|z xs _] using rev_ind; simpl in *; subst p.
    + rewrite Hnext, Hprev. resolve_decide. split; congruence.
    + rewrite last_snoc in Hp. simpl in Hp. subst z.
      apply lseg_app in Hl as [Hl _]. apply lseg_app; split.
      * revert Hl. apply NoDup_cons in Hnd as [Hnl Hnd].
        apply NoDup_app in Hnd as (_&Hz&_).
        apply lseg_frame; intros j Hj; [rewrite Hnext|rewrite Hprev];
          rewrite !decide_False; set_solver.
      * simpl. rewrite Hnext, Hprev. by resolve_decide.
  - intros j Hj. rewrite O4, O3, O2, O1; set_solver.
Qed.

Lemma list_remove_spec l e ys zs h :
  dll h l (ys ++ e :: zs) →
  ∃ h', list_remove e h = Done h' ∧ dll h' l (ys ++ zs) ∧
    payload <$> h' = payload <$> h ∧
    (∀ j, j ∉ l :: ys ++ zs → h' !! j = h !! j).
Proof.
  intros Hd. pose proof Hd as [[Hb Hf]%lseg_app Hnd].
  pose proof (lseg_last _ _ _ _ Hb) as Hp. pose proof (lseg_head _ _ _ _ Hf) as Hn.
  pose proof (default_last_elem l ys) as Hpi.
  assert (default l (head zs) ∈ l :: zs) as Hni by (destruct zs; set_solver).
  unfold list_remove.
  destruct (dll_dom _ _ _ e Hd) as [ve Hve]; [set_solver|].
  unfold prev_of, next_of in Hp, Hn. rewrite Hve in Hp, Hn. simpl in Hp, Hn.
  injection Hp as Hp. injection Hn as Hn. rewrite <-Hp in Hpi. rewrite <-Hn in Hni.
  bind_step Hve. set (p := lprev ve) in *. set (n := lnext ve) in *.
  destruct (put_next_spec p n h) as (h1&E1&[N1 P1 F1 O1]).
  { eapply dll_dom; [done|]. set_solver. }
  destruct (put_prev_spec n p h1) as (h2&E2&[N2 P2 F2 O2]).
  { eapply payload_eq_dom, dll_dom; [done|done|]. set_solver. }
  bind_step E1. rewrite E2. exists h2; split_and!; [done| |congruence|].
  - assert (NoDup (l :: ys ++ zs)) as Hnd'.
    { rewrite app_comm_cons in *. apply NoDup_app in Hnd as (?&?&[??]%NoDup_cons).
      apply NoDup_app. set_solver. }
    split; [|done].
    assert (Hnext : ∀ j, next_of h2 j = if decide (j = p) then Some n else next_of h j).
    { intros j. rewrite N2, N1. done. }
    assert (Hprev : ∀ j, prev_of h2 j = if decide (j = n) then Some p else prev_of h j).
    { intros j. rewrite P2, P1. done. }
    clear E1 E2 N1 N2 P1 P2 F1 F2 O1 O2 Hve Hd Hnd Hpi Hni.
    assert (Hpre : ∀ b, (b = n ∧ (b = l ∨ b ∉ ys)) → lseg h2 l ys b).
    { intros b [-> Hbn]. destruct ys as [|y ys _] using rev_ind; simpl in *.
      - subst p. rewrite Hnext, Hprev. resolve_decide. by rewrite Hp.
      - rewrite last_snoc in Hp. simpl in Hp. subst y.
        apply lseg_app; split; [|simpl; rewrite Hnext, Hprev; by resolve_decide].
        apply lseg_app in Hb as [Hb _]. revert Hb. apply NoDup_cons in Hnd' as [Hnl Hnd'].
        apply NoDup_app in Hnd' as (Hnd'&Hyz&_). apply NoDup_app in Hnd' as (_&Hyp&_).
        apply lseg_frame; intros j Hj; [rewrite Hnext|rewrite Hprev];
          rewrite decide_False; set_solver. }
    destruct zs as [|z zs]; simpl in *.
    + rewrite app_nil_r. apply Hpre; auto.
    + apply lseg_app. subst z. apply NoDup_cons in Hnd' as [Hnl Hnd'].
      apply NoDup_app in Hnd' as (_&Hyz&[Hnz _]%NoDup_cons). split.
      { apply Hpre. split; [done|]. right. set_solver. }
      destruct Hf as (_&_&Hf). revert Hf.
      assert (p ∈ l :: ys) by (rewrite Hp; apply default_last_elem).
      apply lseg_frame; intros j Hj; [rewrite Hnext|rewrite Hprev];
        rewrite decide_False; set_solver.
  - intros j Hj. rewrite O2, O1; set_solver.
Qed.

Lemma list_empty_spec l xs h :
  dll h l xs → list_empty l h = Done (bool_decide (xs = [])).
Proof.
  intros Hd. pose proof Hd as [Hl Hnd]. apply lseg_last in Hl.
  destruct (dll_dom _ _ _ l Hd) as [v Hv]; [set_solver|].
  unfold prev_of in Hl. unfold list_empty. rewrite Hv in *. simpl in *. injection Hl as ->.
  f_equal. apply bool_decide_ext.
  destruct xs as [|x xs _] using rev_ind; [done|]. rewrite last_snoc. simpl.
  apply NoDup_cons in Hnd as [? _]. split; [set_solver|].
  intros Hx%(f_equal length). rewrite length_app in Hx. simpl in Hx. lia.
Qed.
End dll.
