(* ===== verification/ListFamily.v ===== *)
(** * Several circular lists in one store

    The slab allocator keeps its pages in twenty lists that share one store.
    [family] says which list every node is in; the lemmas lift the list
    operations of CircularList.v to the whole family. *)

From S2P Require Import Prelude CircularList.

Section family.
Context `{Countable K} {V P : Type} `{!Links K V P} `{!LinksLaws K V P}.
Context (is_head : K → Prop).
Implicit Types (h : gmap K V) (f : K → option K).

(** [f x] is the head of the list that holds [x], if any. *)
Definition family h f : Prop :=
  (∀ hd, is_head hd → ∃ xs, dll h hd xs ∧ ∀ x, x ∈ xs ↔ f x = Some hd) ∧
  (∀ x hd, f x = Some hd → is_head hd ∧ ¬ is_head x).

(** [f] after node [e] has moved to [d]. *)
Definition moved e (d : option K) f : K → option K := λ x, if decide (x = e) then d else f x.

(** Lists other than [hd] do not see an operation confined to [hd] and to
    nodes of [hd] or of no list. *)
Lemma family_other h h' f f' hd (touched : list K) :
  family h f → is_head hd →
  (∀ x, f' x ≠ f x → f x = None ∨ f x = Some hd) →
  (∀ x, f' x ≠ f x → f' x = None ∨ f' x = Some hd) →
  (∀ x, x ∈ touched → ¬ is_head x ∧ (f x = None ∨ f x = Some hd)) →
  (∀ k, k ∉ hd :: touched → h' !! k = h !! k) →
  ∀ hd', is_head hd' → hd' ≠ hd → ∃ xs, dll h' hd' xs ∧ ∀ x, x ∈ xs ↔ f' x = Some hd'.
Proof.
  intros [HL Hd] Hhd Hf Hf' Ht Hfr hd' Hh Hne. destruct (HL hd' Hh) as (xs&Hx&Hin).
  exists xs; split.
  - apply (dll_frame h); [|done]. intros k Hk. apply Hfr. intros [->|Hkt]%elem_of_cons.
    + apply elem_of_cons in Hk as [?|Hk]; [congruence|]. apply Hin, Hd in Hk as [_ ?]. done.
    + destruct (Ht k Hkt) as [Hnh Hk']. apply elem_of_cons in Hk as [->|Hk]; [done|].
      apply Hin in Hk. destruct Hk'; congruence.
  - intros x. rewrite Hin. destruct (decide (f' x = f x)) as [->|Hn]; [done|].
    destruct (Hf x Hn), (Hf' x Hn); naive_solver.
Qed.

Lemma family_push h f e hd :
  family h f → is_head hd → ¬ is_head e → f e = None → is_Some (h !! e) →
  ∃ h', list_push_back hd e h = Done h' ∧ family h' (moved e (Some hd) f) ∧
    payload <$> h' = payload <$> h.
Proof.
  intros HF Hh He Hfe Hs. pose proof HF as [HL Hd]. destruct (HL hd Hh) as (xs&Hx&Hin).
  assert (e ∉ xs) by (rewrite Hin; congruence).
  destruct (list_push_back_spec hd e xs h) as (h'&E&Hx'&Hp&Hfr); [done|set_solver|done|].
  exists h'; split_and!; [done| |done]. split.
  - intros hd' Hh'. destruct (decide (hd' = hd)) as [->|Hne].
    + exists (xs ++ [e]). split; [done|]. intros x. unfold moved.
      rewrite elem_of_app, Hin, list_elem_of_singleton. case_decide; naive_solver.
    + apply (family_other h h' f (moved e (Some hd) f) hd (e :: xs)); try done.
      * intros x. unfold moved. case_decide; naive_solver.
      * intros x. unfold moved. case_decide; naive_solver.
      * intros x [->|Hxx]%elem_of_cons; [naive_solver|]. apply Hin in Hxx.
        split; [by apply Hd in Hxx as [_ ?]|by right].
  - intros x hd'. unfold moved. case_decide; naive_solver.
Qed.

Lemma family_remove h f e hd :
  family h f → f e = Some hd →
  ∃ h', list_remove e h = Done h' ∧ family h' (moved e None f) ∧ payload <$> h' = payload <$> h.
Proof.
  intros HF Hfe. pose proof HF as [HL Hd]. destruct (Hd e hd Hfe) as [Hh Hne'].
  destruct (HL hd Hh) as (xs&Hx&Hin).
  assert (e ∈ xs) as Hex by by apply Hin. apply list_elem_of_split in Hex as (ys&zs&->).
  destruct (list_remove_spec hd e ys zs h Hx) as (h'&E&Hx'&Hp&Hfr).
  destruct Hx as [_ [_ (_&Hy&Hz)%NoDup_app]%NoDup_cons]. apply NoDup_cons in Hz as [Hz _].
  exists h'; split_and!; [done| |done]. split.
  - intros hd' Hh'. destruct (decide (hd' = hd)) as [->|Hne].
    + exists (ys ++ zs). split; [done|]. intros x. unfold moved. specialize (Hin x).
      rewrite elem_of_app, elem_of_cons in Hin. rewrite elem_of_app. case_decide; [|naive_solver].
      subst. split; [|done]. intros [Hxy|?]; [|done]. exfalso. apply (Hy e Hxy). set_solver.
    + apply (family_other h h' f (moved e None f) hd (ys ++ zs)); try done.
      * intros x. unfold moved. case_decide; naive_solver.
      * intros x. unfold moved. case_decide; naive_solver.
      * intros x Hx. assert (f x = Some hd) as Hfx by (apply Hin; set_solver).
        split; [by apply Hd in Hfx as [_ ?]|by right].
  - intros x hd'. unfold moved. case_decide; naive_solver.
Qed.

(** [list_empty], and the last entry of a list that is not empty. *)
Lemma family_empty h f hd : family h f → is_head hd →
  (list_empty hd h = Done true ∧ ∀ x, f x ≠ Some hd) ∨
  (list_empty hd h = Done false ∧ ∃ v, h !! hd = Some v ∧ f (lprev v) = Some hd).
Proof.
  intros [HL _] Hh. destruct (HL hd Hh) as (xs&Hx&Hin). rewrite (list_empty_spec _ _ _ Hx).
  destruct xs as [|y ys _] using rev_ind.
  - left. split; [done|]. intros x Hfx%Hin. by apply elem_of_nil in Hfx.
  - right. split; [by rewrite bool_decide_false by (by destruct ys)|].
    destruct (dll_dom _ _ _ hd Hx) as [v Hv]; [set_solver|]. exists v. split; [done|].
    destruct Hx as [Hl _]. apply lseg_last in Hl. unfold prev_of in Hl. rewrite Hv in Hl.
    injection Hl as ->. rewrite last_snoc. apply Hin. set_solver.
Qed.

(** A write that keeps the links. *)
Lemma family_data h f k v v' :
  family h f → h !! k = Some v → lnext v' = lnext v → lprev v' = lprev v → family (<[k := v']> h) f.
Proof.
  intros [HL Hd] Hv Hn Hp. split; [|done]. intros hd Hh. destruct (HL hd Hh) as (xs&[Hs Hnd]&Hin).
  exists xs; split; [|done]. split; [|done]. revert Hs.
  apply lseg_frame; intros j _; unfold next_of, prev_of; rewrite lookup_insert; case_decide;
    simplify_eq; try done; rewrite Hv; simpl; congruence.
Qed.

(** A write to a node that is in no list. *)
Lemma family_fresh h f k v : family h f → f k = None → ¬ is_head k → family (<[k := v]> h) f.
Proof.
  intros [HL Hd] Hf Hk. split; [|done]. intros hd Hh. destruct (HL hd Hh) as (xs&Hx&Hin).
  exists xs; split; [|done]. apply (dll_frame h); [|done]. intros j Hj.
  rewrite lookup_insert_ne; [done|]. intros <-.
  apply elem_of_cons in Hj as [->|Hj]; [done|]. apply Hin in Hj. congruence.
Qed.

(** Dropping a node that is in no list. *)
Lemma family_delete h f k : family h f → f k = None → ¬ is_head k → family (delete k h) f.
Proof.
  intros [HL Hd] Hf Hk. split; [|done]. intros hd Hh. destruct (HL hd Hh) as (xs&Hx&Hin).
  exists xs; split; [|done]. apply (dll_frame h); [|done]. intros j Hj.
  rewrite lookup_delete_ne; [done|]. intros <-.
  apply elem_of_cons in Hj as [->|Hj]; [done|]. apply Hin in Hj. congruence.
Qed.

Lemma family_ext h f f' : (∀ x, f' x = f x) → family h f → family h f'.
Proof.
  intros Hf [HL Hd]. split; [|intros x hd; rewrite Hf; apply Hd].
  intros hd Hh. destruct (HL hd Hh) as (xs&?&Hin). exists xs. split; [done|]. intros x. by rewrite Hf.
Qed.
End family.
