(* ===== verification/Bitops.v ===== *)
(** * Bit operations

    kernel/src/malloc/bitops.h: leading/trailing zero counts, find-first-set,
    population count, each with the compiler builtin ([__builtin_clz] and
    friends, modelled by their documented meaning) and the portable fallback
    selected by [SOFTBIT].  The theorems show that every fallback computes the
    same value as the builtin on the whole range of its argument, and that the
    bit smearing of [next_power_of_two] and of the [__clz*] routines yields a
    mask of all bits up to the most significant one. *)

From S2P Require Import Prelude.

(** ** Builtins *)

(** Number of trailing zero bits of a positive number. *)
Fixpoint pos_ctz (p : positive) : Z :=
  match p with xO q => 1 + pos_ctz q | _ => 0 end.

Definition builtin_ctz (x : Z) : Z := match x with Zpos p => pos_ctz p | _ => 0 end.
Definition builtin_clz (w x : Z) : Z := w - 1 - Z.log2 x.
Definition builtin_ffs (x : Z) : Z := if x =? 0 then 0 else builtin_ctz x + 1.

Fixpoint pos_popcount (p : positive) : Z :=
  match p with xH => 1 | xO q => pos_popcount q | xI q => 1 + pos_popcount q end.
Definition builtin_popcount (x : Z) : Z :=
  match x with Zpos p => pos_popcount p | _ => 0 end.

(** ** bitops.h, builtin variants *)

Definition clz32 (x : Z) : Z := if x =? 0 then 32 else builtin_clz 32 x.
Definition ctz32 (x : Z) : Z := if x =? 0 then 32 else builtin_ctz x.
Definition popcount32 (x : Z) : Z := builtin_popcount x.
Definition ffs32 (x : Z) : Z := builtin_ffs x.
Definition clz64 (x : Z) : Z := if x =? 0 then 64 else builtin_clz 64 x.
Definition ctz64 (x : Z) : Z := if x =? 0 then 64 else builtin_ctz x.
Definition popcount64 (x : Z) : Z := builtin_popcount x.
Definition ffs64 (x : Z) : Z := builtin_ffs x.

(** ** bitops.h, portable variants *)

(** One [if (x <= bound) { n += k; x <<= k; }] of the binary search. *)
Definition clz_step (w bound k : Z) (st : Z * Z) : Z * Z :=
  let '(n, x) := st in
  if x <=? bound then (n + k, wrap w (Z.shiftl x k)) else (n, x).

Definition clz32_soft (x : Z) : Z :=
  if x =? 0 then 32 else
  let st := (0, x) in
  let st := clz_step 32 0x0000FFFF 16 st in
  let st := clz_step 32 0x00FFFFFF 8 st in
  let st := clz_step 32 0x0FFFFFFF 4 st in
  let st := clz_step 32 0x3FFFFFFF 2 st in
  let '(n, x) := st in
  if x <=? 0x7FFFFFFF then n + 1 else n.

Definition clz64_soft (x : Z) : Z :=
  if x =? 0 then 64 else
  let st := (0, x) in
  let st := clz_step 64 0x00000000FFFFFFFF 32 st in
  let st := clz_step 64 0x0000FFFFFFFFFFFF 16 st in
  let st := clz_step 64 0x00FFFFFFFFFFFFFF 8 st in
  let st := clz_step 64 0x0FFFFFFFFFFFFFFF 4 st in
  let st := clz_step 64 0x3FFFFFFFFFFFFFFF 2 st in
  let '(n, x) := st in
  if x <=? 0x7FFFFFFFFFFFFFFF then n + 1 else n.

Definition ctz32_bitpositions : list Z :=
  [0; 1; 28; 2; 29; 14; 24; 3; 30; 22; 20; 15; 25; 17; 4; 8;
   31; 27; 13; 23; 21; 19; 16; 7; 26; 12; 18; 6; 11; 5; 10; 9].

Definition ctz32_soft (x : Z) : Z :=
  if x =? 0 then 32 else
  let isolated := Z.land x (wrap 32 (- x)) in
  nth (Z.to_nat (Z.shiftr (wrap 32 (isolated * 0x077CB531)) 27)) ctz32_bitpositions 0.

Definition ctz64_bitpositions : list Z :=
  [0; 1; 2; 53; 3; 7; 54; 27; 4; 38; 41; 8; 34; 55; 48; 28;
   62; 5; 39; 46; 44; 42; 22; 9; 24; 35; 59; 56; 49; 18; 29; 11;
   63; 52; 6; 26; 37; 40; 33; 47; 61; 45; 43; 21; 23; 58; 17; 10;
   51; 25; 36; 32; 60; 20; 57; 16; 50; 31; 19; 15; 30; 14; 13; 12].

Definition ctz64_soft (x : Z) : Z :=
  if x =? 0 then 64 else
  let isolated := Z.land x (wrap 64 (- x)) in
  nth (Z.to_nat (Z.shiftr (wrap 64 (isolated * 0x022FDD63CC95386D)) 58)) ctz64_bitpositions 0.

Definition popcount32_soft (x : Z) : Z :=
  let x := wrap 32 (x - Z.land (Z.shiftr x 1) 0x55555555) in
  let x := wrap 32 (Z.land x 0x33333333 + Z.land (Z.shiftr x 2) 0x33333333) in
  let x := Z.land (wrap 32 (x + Z.shiftr x 4)) 0x0F0F0F0F in
  let x := wrap 32 (x + Z.shiftr x 8) in
  let x := wrap 32 (x + Z.shiftr x 16) in
  Z.land x 0x3F.

Definition popcount64_soft (x : Z) : Z :=
  let x := wrap 64 (x - Z.land (Z.shiftr x 1) 0x5555555555555555) in
  let x := wrap 64 (Z.land x 0x3333333333333333 + Z.land (Z.shiftr x 2) 0x3333333333333333) in
  let x := Z.land (wrap 64 (x + Z.shiftr x 4)) 0x0F0F0F0F0F0F0F0F in
  let x := wrap 64 (x + Z.shiftr x 8) in
  let x := wrap 64 (x + Z.shiftr x 16) in
  let x := wrap 64 (x + Z.shiftr x 32) in
  Z.land x 0x7F.

(** The scanning loop of the portable [ffs32]/[ffs64]; a [w]-bit word needs at
    most [w] iterations. *)
Fixpoint ffs_loop (fuel : nat) (x position : Z) : option Z :=
  match fuel with
  | O => None
  | S fuel =>
      if x =? 0 then Some 0
      else if Z.odd x then Some position
      else ffs_loop fuel (Z.shiftr x 1) (position + 1)
  end.
Definition ffs32_soft (x : Z) : option Z := if x =? 0 then Some 0 else ffs_loop 33 x 1.
Definition ffs64_soft (x : Z) : option Z := if x =? 0 then Some 0 else ffs_loop 65 x 1.

(** ** The named wrappers used by the allocators *)

Definition count_set_bits64 (word : Z) : Z := u32 (popcount64 word).
Definition count_trailing_set_bits64 (word : Z) : Z := u32 (ctz64 (wnot 64 word)).
Definition count_trailing_unset_bits64 (word : Z) : Z := u32 (ctz64 word).
Definition count_leading_set_bits64 (word : Z) : Z := u32 (clz64 (wnot 64 word)).
Definition count_leading_unset_bits64 (word : Z) : Z := u32 (clz64 word).
Definition find_first_trailing_set_bit64 (word : Z) : Z := u32 (ffs64 word - 1).
Definition count_set_bits32 (word : Z) : Z := u32 (popcount32 word).
Definition count_trailing_set_bits32 (word : Z) : Z := u32 (ctz32 (wnot 32 word)).
Definition count_trailing_unset_bits32 (word : Z) : Z := u32 (ctz32 word).
Definition count_leading_set_bits32 (word : Z) : Z := u32 (clz32 (wnot 32 word)).
Definition count_leading_unset_bits32 (word : Z) : Z := u32 (clz32 word).
Definition find_first_trailing_set_bit32 (word : Z) : Z := u32 (ffs32 (u32 word) - 1).

(** ** Trailing zeros *)

Lemma pos_ctz_spec p :
  0 <= pos_ctz p ∧ Z.testbit (Zpos p) (pos_ctz p) = true ∧
  (∀ i, i < pos_ctz p → Z.testbit (Zpos p) i = false).
Proof.
  induction p as [p _|p (IH0&IHt&IHf)|]; cbn [pos_ctz].
  - split_and!; [done..|]. intros i ?. by apply Z.testbit_neg_r.
  - rewrite (Pos2Z.inj_xO p). split_and!; [lia| |].
    + by rewrite Z.add_1_l, Z.testbit_even_succ.
    + intros i Hi. destruct (decide (i < 0)); [by apply Z.testbit_neg_r|].
      destruct (decide (i = 0)) as [->|]; [apply Z.testbit_even_0|].
      replace i with (Z.succ (i - 1)) by lia.
      rewrite Z.testbit_even_succ by lia. apply IHf. lia.
  - split_and!; [done..|]. intros i ?. by apply Z.testbit_neg_r.
Qed.

Lemma builtin_ctz_spec x : 0 < x →
  0 <= builtin_ctz x ∧ Z.testbit x (builtin_ctz x) = true ∧
  (∀ i, i < builtin_ctz x → Z.testbit x i = false).
Proof. destruct x; intros; [lia| |lia]. apply pos_ctz_spec. Qed.

Lemma builtin_ctz_lt w x : 0 < x → fits w x → builtin_ctz x < w.
Proof.
  intros Hx [_ Hw]. destruct (builtin_ctz_spec x Hx) as (H0&Ht&_).
  apply Z.nle_gt; intros Hle.
  rewrite Z.bits_above_log2 in Ht; [done|lia|]. eapply Z.lt_le_trans; [|done].
  by apply Z.log2_lt_pow2.
Qed.

Lemma pos_ctz_divide p : (2 ^ pos_ctz p | Zpos p) ∧ Z.odd (Zpos p / 2 ^ pos_ctz p) = true.
Proof.
  induction p as [p _|p [[q Hq] Ho]|]; cbn [pos_ctz];
    [by rewrite Z.pow_0_r, Z.div_1_r; split; [apply Z.divide_1_l|]| |by split; [exists 1|]].
  pose proof (proj1 (pos_ctz_spec p)).
  rewrite Z.pow_add_r, Z.pow_1_r, (Pos2Z.inj_xO p) by lia. split.
  - exists q. rewrite Hq at 1. ring.
  - by rewrite Z.div_mul_cancel_l by lia.
Qed.

(** [x & -x] isolates the least significant set bit. *)
Lemma land_opp_isolates w x :
  0 < x → fits w x → Z.land x (wrap w (- x)) = 2 ^ builtin_ctz x.
Proof.
  intros Hx Hw. pose proof (builtin_ctz_lt w x Hx Hw) as Hlt.
  destruct (builtin_ctz_spec x Hx) as (H0&Ht&Hf).
  assert (Hx1 : ∀ i, 0 <= i → Z.testbit (x - 1) i =
    if i <? builtin_ctz x then true else if i =? builtin_ctz x then false else Z.testbit x i).
  { destruct x as [|p|]; [lia| |lia]. cbn [builtin_ctz] in *.
    destruct (pos_ctz_divide p) as [[q Hq] Ho].
    set (t := pos_ctz p) in *.
    rewrite Hq in Ho. rewrite Z.div_mul in Ho by lia.
    apply Z.odd_spec in Ho as [r Hr].
    assert (Z.pos p - 1 = 2 * r * 2 ^ t + (2 ^ t - 1)) as Hp1 by nia.
    assert (Z.pos p = 2 * r * 2 ^ t + 2 ^ t) as Hp by nia.
    intros i Hi. rewrite Hp1, Hp.
    destruct (Z.ltb_spec i t).
    - rewrite <-(Z.mod_pow2_bits_low _ t) by lia.
      rewrite Z.add_comm, Z.mod_add by lia. rewrite Z.mod_small by lia.
      rewrite Z.sub_1_r, <-Z.ones_equiv. apply Z.ones_spec_low. lia.
    - replace i with ((i - t) + t) by lia.
      rewrite <-!Z.div_pow2_bits by lia.
      rewrite Z.div_add_l by lia.
      replace (2 * r * 2 ^ t + 2 ^ t) with ((2 * r + 1) * 2 ^ t) by lia.
      rewrite Z.div_mul, Z.div_small, Z.add_0_r by lia.
      destruct (Z.eqb_spec (i - t + t) t).
      + replace (i - t) with 0 by lia. apply Z.testbit_even_0.
      + replace (i - t) with (Z.succ (i - t - 1)) by lia.
        by rewrite Z.testbit_even_succ, Z.testbit_odd_succ by lia. }
  apply Z.bits_inj'; intros i Hi. unfold wrap.
  rewrite Z.land_spec, Z.pow2_bits_eqb by lia.
  destruct (decide (i < w)).
  - rewrite Z.mod_pow2_bits_low by lia.
    replace (- x) with (Z.lnot (x - 1)) by (unfold Z.lnot; lia).
    rewrite Z.lnot_spec, Hx1 by lia.
    destruct (Z.ltb_spec i (builtin_ctz x)), (Z.eqb_spec i (builtin_ctz x)), (Z.eqb_spec (builtin_ctz x) i);
      subst; rewrite ?Ht, ?Hf by lia; try done; try lia.
    by destruct (Z.testbit x i).
  - rewrite Z.mod_pow2_bits_high by lia. rewrite andb_false_r.
    symmetry. apply Z.eqb_neq. lia.
Qed.

(** ** Bit smearing

    [n] steps of [x |= x >> (1 << k)], for k = 0 .. n-1. *)
Fixpoint smear (n : nat) (x : Z) : Z :=
  match n with
  | O => x
  | S n => let y := smear n x in Z.lor y (Z.shiftr y (2 ^ Z.of_nat n))
  end.

Lemma smear_spec n x i : 0 <= i →
  Z.testbit (smear n x) i = true ↔ ∃ j, i <= j < i + 2 ^ Z.of_nat n ∧ Z.testbit x j = true.
Proof.
  revert i; induction n as [|n IH]; intros i Hi; cbn [smear].
  - change (2 ^ Z.of_nat 0) with 1. split; [exists i; split; [lia|done]|].
    intros (j&?&?). by replace i with j by lia.
  - rewrite Z.lor_spec, orb_true_iff, Z.shiftr_spec, !IH by lia.
    replace (Z.of_nat (S n)) with (Z.of_nat n + 1) by lia. rewrite pow2_succ by lia.
    split.
    + intros [(j&?&?)|(j&?&?)]; exists j; split; auto; lia.
    + intros (j&?&?). destruct (decide (j < i + 2 ^ Z.of_nat n)); [left|right];
        exists j; split; auto; lia.
Qed.

(** Enough steps turn a word into the mask of all bits up to its top bit. *)
Lemma smear_ones n x :
  0 < x → fits (2 ^ Z.of_nat n) x → smear n x = Z.ones (Z.log2 x + 1).
Proof.
  intros Hx [_ Hw]. apply Z.log2_lt_pow2 in Hw; [|done]. pose proof (Z.log2_nonneg x).
  apply Z.bits_inj'; intros i Hi. rewrite Z.testbit_ones_nonneg by lia.
  apply eq_true_iff_eq. rewrite smear_spec, Z.ltb_lt by lia. split.
  - intros (j&Hj&Ht). apply Z.nle_gt; intros ?.
    rewrite Z.bits_above_log2 in Ht; [done|lia|lia].
  - intros. exists (Z.log2 x). split; [lia|]. by apply Z.bit_log2.
Qed.

(** ** Leading zeros *)

Lemma clz_step_spec w k n x :
  0 < k < w → 0 < x → fits w x → Z.log2 x >= w - 2 * k →
  let '(n', x') := clz_step w (2 ^ (w - k) - 1) k (n, x) in
  0 < x' ∧ fits w x' ∧ w - 1 - Z.log2 x + n = w - 1 - Z.log2 x' + n' ∧ Z.log2 x' >= w - k.
Proof.
  intros Hk Hx Hf Hl. unfold clz_step. destruct (Z.leb_spec x (2 ^ (w - k) - 1)).
  - rewrite Z.shiftl_mul_pow2 by lia.
    assert (x * 2 ^ k < 2 ^ w) as Hlt.
    { replace (2 ^ w) with (2 ^ (w - k) * 2 ^ k) by (rewrite <-Z.pow_add_r by lia; f_equal; lia).
      nia. }
    assert (fits w (x * 2 ^ k)) by (split; [nia|done]).
    rewrite wrap_small by done. rewrite Z.log2_mul_pow2 by lia. split_and!; [nia|done|lia|lia].
  - assert (w - k <= Z.log2 x) by (apply Z.log2_le_pow2; lia). split_and!; [done..|lia].
Qed.

Lemma log2_lt_width w x : 0 < x → fits w x → Z.log2 x < w.
Proof. intros ? [??]. by apply Z.log2_lt_pow2. Qed.

(** Advance through the first search step of the goal, of shift [k]. *)
Ltac clz_advance w k :=
  match goal with
  | H0 : 0 < ?x, Hf : fits w ?x |- context [clz_step w ?c k (?n, ?x)] =>
      let H := fresh "H" in
      pose proof (clz_step_spec w k n x ltac:(lia) H0 Hf ltac:(lia)) as H;
      change (2 ^ (w - k) - 1) with c in H;
      let n' := fresh "n" in let x' := fresh "x" in
      destruct (clz_step w c k (n, x)) as [n' x']; destruct H as (?&?&?&?)
  end.

Ltac clz_finish w :=
  match goal with
  | H0 : 0 < ?x, Hf : fits w ?x |- (if ?x <=? ?c then ?n + 1 else ?n) = _ =>
      let H := fresh "H" in
      pose proof (clz_step_spec w 1 n x ltac:(lia) H0 Hf ltac:(lia)) as H;
      change (2 ^ (w - 1) - 1) with c in H; unfold clz_step in H;
      destruct (x <=? c); destruct H as (?&?&?&?);
      match goal with H1 : 0 < ?y, H2 : fits w ?y, _ : Z.log2 ?y >= w - 1 |- _ =>
        pose proof (log2_lt_width w y H1 H2) end; lia
  end.

(** the portable binary search for leading zeros returns the builtin's
    count for every 32-bit word. *)
Lemma clz32_soft_correct x : fits 32 x → clz32_soft x = clz32 x.
Proof.
  intros Hf. unfold clz32_soft, clz32, builtin_clz.
  destruct (Z.eqb_spec x 0) as [->|Hx]; [done|].
  assert (0 < x) as Hp by (destruct Hf; lia).
  pose proof (Z.log2_nonneg x). cbv zeta.
  clz_advance 32 16. clz_advance 32 8. clz_advance 32 4. clz_advance 32 2.
  clz_finish 32.
Qed.

Lemma clz64_soft_correct x : fits 64 x → clz64_soft x = clz64 x.
Proof.
  intros Hf. unfold clz64_soft, clz64, builtin_clz.
  destruct (Z.eqb_spec x 0) as [->|Hx]; [done|].
  assert (0 < x) as Hp by (destruct Hf; lia).
  pose proof (Z.log2_nonneg x). cbv zeta.
  clz_advance 64 32. clz_advance 64 16. clz_advance 64 8. clz_advance 64 4. clz_advance 64 2.
  clz_finish 64.
Qed.

(** ** Trailing zeros: the de Bruijn tables *)

Definition ctz_table_ok (w shift db : Z) (table : list Z) : bool :=
  forallb (λ t, nth (Z.to_nat (Z.shiftr (wrap w (2 ^ t * db)) shift)) table 0 =? t)
    (map Z.of_nat (seq 0 (Z.to_nat w))).

Lemma ctz_table_lookup w shift db table t :
  ctz_table_ok w shift db table = true → 0 <= t < w →
  nth (Z.to_nat (Z.shiftr (wrap w (2 ^ t * db)) shift)) table 0 = t.
Proof.
  intros Hok Ht. unfold ctz_table_ok in Hok. rewrite forallb_forall in Hok.
  specialize (Hok t). rewrite in_map_iff in Hok.
  apply Z.eqb_eq, Hok. exists (Z.to_nat t). rewrite in_seq. lia.
Qed.

Lemma ctz32_soft_correct x : fits 32 x → ctz32_soft x = ctz32 x.
Proof.
  intros Hf. unfold ctz32_soft, ctz32. destruct (Z.eqb_spec x 0) as [|Hx]; [done|].
  assert (0 < x) as Hp by (destruct Hf; lia).
  rewrite land_opp_isolates by done.
  apply ctz_table_lookup; [vm_compute; reflexivity|].
  split; [by apply builtin_ctz_spec|by apply builtin_ctz_lt].
Qed.

Lemma ctz64_soft_correct x : fits 64 x → ctz64_soft x = ctz64 x.
Proof.
  intros Hf. unfold ctz64_soft, ctz64. destruct (Z.eqb_spec x 0) as [|Hx]; [done|].
  assert (0 < x) as Hp by (destruct Hf; lia).
  rewrite land_opp_isolates by done.
  apply ctz_table_lookup; [vm_compute; reflexivity|].
  split; [by apply builtin_ctz_spec|by apply builtin_ctz_lt].
Qed.

(** ** Find first set *)

Lemma ffs_loop_spec fuel x pos :
  0 < x → builtin_ctz x < Z.of_nat fuel →
  ffs_loop fuel x pos = Some (pos + builtin_ctz x).
Proof.
  revert x pos; induction fuel as [|fuel IH]; intros x pos Hx Hlt.
  { pose proof (proj1 (builtin_ctz_spec x Hx)). lia. }
  cbn [ffs_loop]. destruct (Z.eqb_spec x 0); [lia|].
  destruct x as [|[p|p|]|]; try lia; cbn [Z.odd builtin_ctz pos_ctz] in *;
    [f_equal; lia| |f_equal; lia].
  change (Z.shiftr (Z.pos p~0) 1) with (Z.pos p).
  rewrite IH; cbn [builtin_ctz]; [f_equal; lia|lia|lia].
Qed.

(** The scanning loops always terminate with the builtin's answer. *)
Lemma ffs32_soft_correct x : fits 32 x → ffs32_soft x = Some (ffs32 x).
Proof.
  intros Hf. unfold ffs32_soft, ffs32, builtin_ffs. destruct (Z.eqb_spec x 0); [done|].
  assert (0 < x) as Hp by (destruct Hf; lia).
  rewrite ffs_loop_spec; [f_equal; lia|done|]. pose proof (builtin_ctz_lt 32 x Hp Hf). lia.
Qed.

Lemma ffs64_soft_correct x : fits 64 x → ffs64_soft x = Some (ffs64 x).
Proof.
  intros Hf. unfold ffs64_soft, ffs64, builtin_ffs. destruct (Z.eqb_spec x 0); [done|].
  assert (0 < x) as Hp by (destruct Hf; lia).
  rewrite ffs_loop_spec; [f_equal; lia|done|]. pose proof (builtin_ctz_lt 64 x Hp Hf). lia.
Qed.

(** ** Population count

    The first three steps of the portable variant work on each byte by itself,
    the others add the bytes up. *)

Lemma builtin_popcount_double x : 0 <= x → builtin_popcount (2 * x) = builtin_popcount x ∧ builtin_popcount (2 * x + 1) = 1 + builtin_popcount x.
Proof. destruct x as [|p|p]; done. Qed.

Lemma builtin_popcount_app k : ∀ lo hi, 0 <= lo < 2 ^ Z.of_nat k → 0 <= hi → builtin_popcount (lo + 2 ^ Z.of_nat k * hi) = builtin_popcount lo + builtin_popcount hi.
Proof.
  induction k as [|k IH]; intros lo hi Hlo Hhi.
  - assert (lo = 0) as -> by (cbn in Hlo; lia). change (2 ^ Z.of_nat 0) with 1. by rewrite Z.mul_1_l.
  - rewrite Nat2Z.inj_succ, Z.pow_succ_r in * by lia. pose proof (Z.div_mod lo 2 ltac:(lia)) as E. pose proof (Z.mod_pos_bound lo 2 ltac:(lia)).
    assert (0 <= lo / 2 < 2 ^ Z.of_nat k) as Hl by (split; [apply Z.div_pos; lia|apply Z.div_lt_upper_bound; lia]).
    specialize (IH (lo / 2) hi Hl Hhi). assert (0 <= 2 ^ Z.of_nat k * hi) by (apply Z.mul_nonneg_nonneg; lia).
    destruct (builtin_popcount_double (lo / 2)) as [E0 E1]; [lia|]. destruct (builtin_popcount_double (lo / 2 + 2 ^ Z.of_nat k * hi)) as [F0 F1]; [lia|].
    assert (lo mod 2 = 0 ∨ lo mod 2 = 1) as [Hm|Hm] by lia; rewrite Hm in E.
    + replace (lo + 2 * 2 ^ Z.of_nat k * hi) with (2 * (lo / 2 + 2 ^ Z.of_nat k * hi)) by lia. replace lo with (2 * (lo / 2)) at 2 by lia. lia.
    + replace (lo + 2 * 2 ^ Z.of_nat k * hi) with (2 * (lo / 2 + 2 ^ Z.of_nat k * hi) + 1) by lia. replace lo with (2 * (lo / 2) + 1) at 2 by lia. lia.
Qed.

(** A byte in front of a word. *)
Lemma land_bytes lo hi m mm : 0 <= lo < 256 → 0 <= m < 256 → Z.land (lo + 256 * hi) (m + 256 * mm) = Z.land lo m + 256 * Z.land hi mm.
Proof.
  intros Hl Hm. assert (0 <= Z.land lo m < 2 ^ 8) as Hlm.
  { assert (Z.land lo m = Z.land lo m mod 2 ^ 8) as ->; [|apply Z.mod_pos_bound; lia].
    rewrite <-Z.land_ones, <-Z.land_assoc, Z.land_ones, (Z.mod_small m) by lia. done. }
  replace (lo + 256 * hi) with (lo + hi * 2 ^ 8) by lia. replace (m + 256 * mm) with (m + mm * 2 ^ 8) by lia. replace (Z.land lo m + 256 * Z.land hi mm) with (Z.land lo m + Z.land hi mm * 2 ^ 8) by lia.
  rewrite <-!lor_shiftl_add by lia. apply Z.bits_inj'; intros n Hn. rewrite Z.land_spec, !Z.lor_spec, Z.land_spec. destruct (decide (n < 8)).
  - rewrite !Z.shiftl_spec_low, !orb_false_r by lia. done.
  - rewrite (testbit_above 8 lo n), (testbit_above 8 m n), !Z.shiftl_spec, Z.land_spec by (unfold fits; lia). done.
Qed.

(** The byte [m], [n] times. *)
Fixpoint byte_mask (m : Z) (n : nat) : Z := match n with O => 0 | S n => m + 256 * byte_mask m n end.

(** The steps before the bytes are added up. *)
Definition swar_pairs (n : nat) (x : Z) : Z := x - Z.land (Z.shiftr x 1) (byte_mask 0x55 n).
Definition swar_nibbles (n : nat) (x : Z) : Z := Z.land (swar_pairs n x) (byte_mask 0x33 n) + Z.land (Z.shiftr (swar_pairs n x) 2) (byte_mask 0x33 n).
Definition swar_bytes (n : nat) (x : Z) : Z := Z.land (swar_nibbles n x + Z.shiftr (swar_nibbles n x) 4) (byte_mask 0x0F n).

(** Every byte and every value that is shifted into it. *)
Lemma check_bytes (P : Z → Z → bool) : forallb (λ a, forallb (λ c, P (Z.of_nat a) (Z.of_nat c)) (seq 0 16)) (seq 0 256) = true →
  ∀ lo c, 0 <= lo < 256 → 0 <= c < 16 → P lo c = true.
Proof.
  intros Hall lo c Hlo Hc. rewrite forallb_forall in Hall. specialize (Hall (Z.to_nat lo) ltac:(apply in_seq; lia)). rewrite forallb_forall in Hall.
  specialize (Hall (Z.to_nat c) ltac:(apply in_seq; lia)). by rewrite !Z2Nat.id in Hall by lia.
Qed.

(** A shift moves the lower bits of the rest into the byte. *)
Lemma shiftr_bytes k lo hi : 0 <= lo < 256 → 0 <= k <= 8 → Z.shiftr (lo + 256 * hi) k = Z.shiftr lo k + 2 ^ (8 - k) * (hi mod 2 ^ k) + 256 * Z.shiftr hi k.
Proof.
  intros Hlo Hk. rewrite !Z.shiftr_div_pow2 by lia. pose proof (Z.div_mod hi (2 ^ k) ltac:(lia)) as E. pose proof (pow2_pos k ltac:(lia)).
  assert (256 = 2 ^ (8 - k) * 2 ^ k) as E8 by (rewrite <-Z.pow_add_r by lia; by replace (8 - k + k) with 8 by lia).
  replace (lo + 256 * hi) with (lo + (2 ^ (8 - k) * hi) * 2 ^ k) by (rewrite E8; ring). rewrite Z.div_add by lia.
  rewrite E at 1. rewrite E8. ring.
Qed.

Lemma pairs_bytes n lo hi : 0 <= lo < 256 → 0 <= hi → swar_pairs (S n) (lo + 256 * hi) = swar_pairs 1 lo + 256 * swar_pairs n hi ∧ 0 <= swar_pairs 1 lo < 256.
Proof.
  intros Hlo Hhi. unfold swar_pairs. cbn [byte_mask]. rewrite shiftr_bytes by lia. change (2 ^ (8 - 1)) with 128. change (2 ^ 1) with 2. pose proof (Z.mod_pos_bound hi 2 ltac:(lia)).
  assert (0 <= Z.shiftr lo 1 < 128) by (rewrite Z.shiftr_div_pow2 by lia; split; [apply Z.div_pos; lia|apply Z.div_lt_upper_bound; lia]).
  rewrite land_bytes by lia.
  pose proof (check_bytes (λ lo c, (Z.land (Z.shiftr lo 1 + 128 * (c mod 2)) 0x55 =? Z.land (Z.shiftr lo 1) (0x55 + 256 * 0)) && (0 <=? lo - Z.land (Z.shiftr lo 1) (0x55 + 256 * 0)) && (lo - Z.land (Z.shiftr lo 1) (0x55 + 256 * 0) <? 256)) ltac:(by vm_compute) lo (hi mod 2) ltac:(lia) ltac:(lia)) as Hc.
  cbv beta in Hc. rewrite Z.mod_mod in Hc by lia. lia.
Qed.

Lemma nibbles_bytes n lo hi : 0 <= lo < 256 → 0 <= hi → swar_nibbles (S n) (lo + 256 * hi) = swar_nibbles 1 lo + 256 * swar_nibbles n hi ∧ 0 <= swar_nibbles 1 lo <= 0x44 ∧ swar_nibbles 1 lo mod 16 <= 4.
Proof.
  intros Hlo Hhi. destruct (pairs_bytes n lo hi Hlo Hhi) as [E Ha]. split.
  - unfold swar_nibbles. rewrite E. set (a := swar_pairs 1 lo) in *. set (p := swar_pairs n hi). rewrite shiftr_bytes by lia. change (2 ^ (8 - 2)) with 64. change (2 ^ 2) with 4.
    pose proof (Z.mod_pos_bound p 4 ltac:(lia)). assert (0 <= Z.shiftr a 2 < 64) by (rewrite Z.shiftr_div_pow2 by lia; split; [apply Z.div_pos; lia|apply Z.div_lt_upper_bound; lia]).
    cbn [byte_mask]. rewrite !land_bytes by lia.
    pose proof (check_bytes (λ a c, (Z.land (Z.shiftr a 2 + 64 * (c mod 4)) 0x33 =? Z.land (Z.shiftr a 2) (0x33 + 256 * 0)) && (Z.land a 0x33 =? Z.land a (0x33 + 256 * 0))) ltac:(by vm_compute) a (p mod 4) ltac:(lia) ltac:(lia)) as Hc.
    cbv beta in Hc. rewrite Z.mod_mod in Hc by lia. lia.
  - pose proof (check_bytes (λ lo c, (0 <=? swar_nibbles 1 lo) && (swar_nibbles 1 lo <=? 0x44) && (swar_nibbles 1 lo mod 16 <=? 4)) ltac:(by vm_compute) lo 0 ltac:(lia) ltac:(lia)) as Hc. cbv beta in Hc. lia.
Qed.

Lemma nibbles_low n hi : 0 <= hi → 0 <= swar_nibbles n hi mod 16 <= 4.
Proof.
  intros Hhi. split; [apply Z.mod_pos_bound; lia|]. destruct n as [|n]; [unfold swar_nibbles; cbn [byte_mask]; by rewrite !Z.land_0_r|].
  pose proof (Z.div_mod hi 256 ltac:(lia)) as E. destruct (nibbles_bytes n (hi mod 256) (hi / 256)) as (E2&_&Hm); [apply Z.mod_pos_bound; lia|apply Z.div_pos; lia|].
  rewrite (Z.add_comm (hi mod 256)), <-E in E2. rewrite E2. replace (swar_nibbles 1 (hi mod 256) + 256 * swar_nibbles n (hi / 256)) with (swar_nibbles 1 (hi mod 256) + (16 * swar_nibbles n (hi / 256)) * 16) by lia. by rewrite Z.mod_add.
Qed.

(** The counts of the bytes. *)
Lemma bytes_bytes n lo hi : 0 <= lo < 256 → 0 <= hi → swar_bytes (S n) (lo + 256 * hi) = builtin_popcount lo + 256 * swar_bytes n hi ∧ 0 <= builtin_popcount lo <= 8.
Proof.
  intros Hlo Hhi. destruct (nibbles_bytes n lo hi Hlo Hhi) as (E&Hb&_). pose proof (nibbles_low n hi Hhi) as Hq. unfold swar_bytes. rewrite E. set (q := swar_nibbles n hi) in *.
  rewrite shiftr_bytes by lia. change (2 ^ (8 - 4)) with 16. change (2 ^ 4) with 16.
  pose proof (check_bytes (λ lo c, (negb (c <=? 4) || ((Z.land (swar_nibbles 1 lo + Z.shiftr (swar_nibbles 1 lo) 4 + 16 * c) 0x0F =? builtin_popcount lo) && (0 <=? swar_nibbles 1 lo + Z.shiftr (swar_nibbles 1 lo) 4) && (swar_nibbles 1 lo + Z.shiftr (swar_nibbles 1 lo) 4 + 16 * c <? 256))) && (0 <=? builtin_popcount lo) && (builtin_popcount lo <=? 8)) ltac:(by vm_compute) lo (q mod 16) ltac:(lia) ltac:(lia)) as Hc.
  cbv beta in Hc. cbn [byte_mask]. set (b := swar_nibbles 1 lo) in *.
  replace (b + 256 * q + (Z.shiftr b 4 + 16 * (q mod 16) + 256 * Z.shiftr q 4)) with (b + Z.shiftr b 4 + 16 * (q mod 16) + 256 * (q + Z.shiftr q 4)) by lia.
  rewrite land_bytes by lia. lia.
Qed.

(** A byte at a time. *)
Fixpoint byte_counts (n : nat) (x : Z) : list Z := match n with O => [] | S n => builtin_popcount (x mod 256) :: byte_counts n (x / 256) end.
Fixpoint base256 (l : list Z) : Z := match l with [] => 0 | x :: l => x + 256 * base256 l end.
Fixpoint byte_sum (l : list Z) : Z := match l with [] => 0 | x :: l => x + byte_sum l end.

Lemma byte_counts_spec n : ∀ x, 0 <= x < 256 ^ Z.of_nat n → swar_bytes n x = base256 (byte_counts n x) ∧ builtin_popcount x = byte_sum (byte_counts n x) ∧ Forall (λ c, 0 <= c <= 8) (byte_counts n x).
Proof.
  induction n as [|n IH]; intros x Hx.
  - assert (x = 0) as -> by (cbn in Hx; lia). split_and!; [by vm_compute|done|constructor].
  - rewrite Nat2Z.inj_succ, Z.pow_succ_r in Hx by lia. pose proof (Z.mod_pos_bound x 256 ltac:(lia)) as Hlo. pose proof (Z.div_mod x 256 ltac:(lia)) as E.
    assert (0 <= x / 256 < 256 ^ Z.of_nat n) as Hhi by (split; [apply Z.div_pos; lia|apply Z.div_lt_upper_bound; lia]).
    destruct (IH _ Hhi) as (E1&E2&Hall). destruct (bytes_bytes n (x mod 256) (x / 256) Hlo ltac:(lia)) as [E3 Hc].
    pose proof (builtin_popcount_app 8 (x mod 256) (x / 256) ltac:(simpl; lia) ltac:(lia)) as E4. change (2 ^ Z.of_nat 8) with 256 in E4. rewrite (Z.add_comm (x mod 256)), <-E in E3, E4.
    cbn [byte_counts base256 byte_sum]. rewrite <-E1, <-E2. split_and!; [done|done|by constructor].
Qed.

(** The steps stay in the word. *)
Lemma steps_range n : ∀ x, 0 <= x < 256 ^ Z.of_nat n → 0 <= swar_pairs n x <= byte_mask 0xFF n ∧ 0 <= swar_nibbles n x <= byte_mask 0x44 n.
Proof.
  induction n as [|n IH]; intros x Hx.
  - assert (x = 0) as -> by (cbn in Hx; lia). by vm_compute.
  - rewrite Nat2Z.inj_succ, Z.pow_succ_r in Hx by lia. pose proof (Z.mod_pos_bound x 256 ltac:(lia)) as Hlo. pose proof (Z.div_mod x 256 ltac:(lia)) as E.
    assert (0 <= x / 256 < 256 ^ Z.of_nat n) as Hhi by (split; [apply Z.div_pos; lia|apply Z.div_lt_upper_bound; lia]). destruct (IH _ Hhi) as [Hp Hq].
    destruct (pairs_bytes n (x mod 256) (x / 256) Hlo ltac:(lia)) as [E1 Ha]. destruct (nibbles_bytes n (x mod 256) (x / 256) Hlo ltac:(lia)) as (E2&Hb&_).
    rewrite (Z.add_comm (x mod 256)), <-E in E1, E2. cbn [byte_mask]. lia.
Qed.

Lemma bytes_range n x : 0 <= x < 256 ^ Z.of_nat n → 0 <= swar_nibbles n x + Z.shiftr (swar_nibbles n x) 4 <= 2 * byte_mask 0x44 n.
Proof.
  intros Hx. destruct (steps_range n x Hx) as [_ Hq]. rewrite Z.shiftr_div_pow2 by lia. change (2 ^ 4) with 16.
  assert (0 <= swar_nibbles n x / 16) by (apply Z.div_pos; lia). pose proof (Z.div_le_upper_bound (swar_nibbles n x) 16 (swar_nibbles n x) ltac:(lia) ltac:(lia)). lia.
Qed.

Lemma div_field q r d : 0 <= r < d → (r + d * q) / d = q.
Proof. intros Hr. symmetry. apply (Z.div_unique _ _ q r); lia. Qed.

(** The bytes of a word are added up in its lowest byte. *)
Lemma add_bytes32 c0 c1 c2 c3 : 0 <= c0 <= 8 → 0 <= c1 <= 8 → 0 <= c2 <= 8 → 0 <= c3 <= 8 → let x := base256 [c0; c1; c2; c3] in
  let x := wrap 32 (x + Z.shiftr x 8) in let x := wrap 32 (x + Z.shiftr x 16) in Z.land x 0x3F = c0 + c1 + c2 + c3.
Proof.
  intros H0 H1 H2 H3. cbv zeta. cbn [base256]. change 0x3F with (Z.ones 6). rewrite Z.land_ones, !Z.shiftr_div_pow2 by lia. change (2 ^ 8) with 256. change (2 ^ 16) with 65536. change (2 ^ 6) with 64.
  rewrite (div_field _ c0 256) by lia. rewrite (wrap_small 32 (_ + (c1 + _))) by (split; lia).
  set (y := c0 + _ + _). replace y with (c0 + c1 + 256 * (c1 + c2) + 65536 * (c2 + c3 + 256 * c3)) by (unfold y; lia). clear y.
  rewrite (div_field _ (c0 + c1 + 256 * (c1 + c2)) 65536) by lia. rewrite wrap_small by (split; lia). symmetry. apply (Z.mod_unique _ _ (4 * (c1 + c2) + 1024 * (c2 + c3 + 256 * c3) + 4 * c3)); lia.
Qed.

Lemma add_bytes64 c0 c1 c2 c3 c4 c5 c6 c7 : Forall (λ c, 0 <= c <= 8) [c0; c1; c2; c3; c4; c5; c6; c7] → let x := base256 [c0; c1; c2; c3; c4; c5; c6; c7] in
  let x := wrap 64 (x + Z.shiftr x 8) in let x := wrap 64 (x + Z.shiftr x 16) in let x := wrap 64 (x + Z.shiftr x 32) in
  Z.land x 0x7F = c0 + c1 + c2 + c3 + c4 + c5 + c6 + c7.
Proof.
  rewrite !Forall_cons. intros (H0&H1&H2&H3&H4&H5&H6&H7&_). cbv zeta. cbn [base256]. change 0x7F with (Z.ones 7). rewrite Z.land_ones, !Z.shiftr_div_pow2 by lia. change (2 ^ 8) with 256. change (2 ^ 16) with 65536. change (2 ^ 7) with 128. change (2 ^ 32) with 4294967296.
  rewrite (div_field _ c0 256) by lia. rewrite (wrap_small 64 (_ + (c1 + _))) by (split; lia).
  set (y := c0 + _ + _). replace y with (c0 + c1 + 256 * (c1 + c2) + 65536 * (c2 + c3 + 256 * (c3 + c4 + 256 * (c4 + c5 + 256 * (c5 + c6 + 256 * (c6 + c7 + 256 * c7)))))) by (unfold y; lia). clear y.
  rewrite (div_field _ (c0 + c1 + 256 * (c1 + c2)) 65536) by lia. rewrite (wrap_small 64 (_ + (c2 + _ + _))) by (split; lia).
  set (y := c0 + _ + _ + _ + _). replace y with (c0 + c1 + c2 + c3 + 256 * (c1 + c2 + c3 + c4 + 256 * (c2 + c3 + c4 + c5 + 256 * (c3 + c4 + c5 + c6))) + 4294967296 * (c4 + c5 + c6 + c7 + 256 * (c5 + c6 + c7 + 256 * (c6 + c7 + 256 * c7)))) by (unfold y; lia). clear y.
  rewrite (div_field _ (c0 + c1 + c2 + c3 + 256 * (c1 + c2 + c3 + c4 + 256 * (c2 + c3 + c4 + c5 + 256 * (c3 + c4 + c5 + c6)))) 4294967296) by lia. rewrite wrap_small by (split; lia).
  symmetry. apply (Z.mod_unique _ _ (2 * (c1 + c2 + c3 + c4 + 256 * (c2 + c3 + c4 + c5 + 256 * (c3 + c4 + c5 + c6))) + 33554432 * (c4 + c5 + c6 + c7 + 256 * (c5 + c6 + c7 + 256 * (c6 + c7 + 256 * c7))) + 2 * (c5 + c6 + c7 + 256 * (c6 + c7 + 256 * c7)))); lia.
Qed.

Lemma popcount32_soft_correct x : fits 32 x → popcount32_soft x = popcount32 x.
Proof.
  intros Hx. assert (0 <= x < 256 ^ Z.of_nat 4) as Hr by (unfold fits in Hx; simpl; lia). destruct (steps_range 4 x Hr) as [Hp Hq]. pose proof (bytes_range 4 x Hr) as Hy.
  destruct (byte_counts_spec 4 x Hr) as (Eb&Ec&Hall). unfold popcount32_soft, popcount32. cbv zeta. rewrite Ec.
  change 0x55555555 with (byte_mask 0x55 4). change 0x33333333 with (byte_mask 0x33 4). change 0x0F0F0F0F with (byte_mask 0x0F 4).
  change (byte_mask 255 4) with 0xFFFFFFFF in Hp. change (byte_mask 68 4) with 0x44444444 in Hq, Hy.
  fold (swar_pairs 4 x). rewrite (wrap_small 32 (swar_pairs 4 x)) by (split; lia). fold (swar_nibbles 4 x). rewrite (wrap_small 32 (swar_nibbles 4 x)), (wrap_small 32 (swar_nibbles 4 x + _)) by (split; lia). fold (swar_bytes 4 x). rewrite Eb.
  cbn [byte_counts byte_sum] in *. rewrite !Forall_cons in Hall. rewrite add_bytes32 by tauto. lia.
Qed.

Lemma popcount64_soft_correct x : fits 64 x → popcount64_soft x = popcount64 x.
Proof.
  intros Hx. assert (0 <= x < 256 ^ Z.of_nat 8) as Hr by (unfold fits in Hx; simpl; lia). destruct (steps_range 8 x Hr) as [Hp Hq]. pose proof (bytes_range 8 x Hr) as Hy.
  destruct (byte_counts_spec 8 x Hr) as (Eb&Ec&Hall). unfold popcount64_soft, popcount64. cbv zeta. rewrite Ec.
  change 0x5555555555555555 with (byte_mask 0x55 8). change 0x3333333333333333 with (byte_mask 0x33 8). change 0x0F0F0F0F0F0F0F0F with (byte_mask 0x0F 8).
  change (byte_mask 255 8) with 0xFFFFFFFFFFFFFFFF in Hp. change (byte_mask 68 8) with 0x4444444444444444 in Hq, Hy.
  fold (swar_pairs 8 x). rewrite (wrap_small 64 (swar_pairs 8 x)) by (split; lia). fold (swar_nibbles 8 x). rewrite (wrap_small 64 (swar_nibbles 8 x)), (wrap_small 64 (swar_nibbles 8 x + _)) by (split; lia). fold (swar_bytes 8 x). rewrite Eb.
  cbn [byte_counts byte_sum] in *. rewrite add_bytes64 by done. lia.
Qed.

(** C31: The portable variants of bitops.h (binary search for leading zeros, de
    Bruijn multiplication for trailing zeros, a shift loop for the first set
    bit, sums of bit fields for the population count) compute the same numbers as the compiler builtins, on every 32-bit and
    64-bit word. *)
Theorem bitops_portable_correct x y :
  fits 32 x → fits 64 y →
  (clz32_soft x = clz32 x ∧ ctz32_soft x = ctz32 x ∧ ffs32_soft x = Some (ffs32 x) ∧ popcount32_soft x = popcount32 x) ∧
  (clz64_soft y = clz64 y ∧ ctz64_soft y = ctz64 y ∧ ffs64_soft y = Some (ffs64 y) ∧ popcount64_soft y = popcount64 y).
Proof.
  intros Hx Hy. split; (split_and!).
  - exact (clz32_soft_correct x Hx).
  - exact (ctz32_soft_correct x Hx).
  - exact (ffs32_soft_correct x Hx).
  - exact (popcount32_soft_correct x Hx).
  - exact (clz64_soft_correct y Hy).
  - exact (ctz64_soft_correct y Hy).
  - exact (ffs64_soft_correct y Hy).
  - exact (popcount64_soft_correct y Hy).
Qed.

Lemma bitops_portable_correct_witness :
  clz32_soft 0x00F0 = 24 ∧ ctz64_soft (2 ^ 40) = 40 ∧ popcount32_soft 0x00F0 = 4.
Proof.
  destruct (bitops_portable_correct 0x00F0 (2 ^ 40)) as [(H1&_&_&H3) (_&H2&_)]; [split; lia|split; lia|].
  rewrite H1, H2, H3. split_and!; reflexivity.
Defined.
