(* ===== verification/Buddy.v ===== *)
(** * The buddy page allocator

    kernel/src/malloc/static-buddy.c and kernel/include/badgelib/static-buddy.h. *)

From S2P Require Import Prelude CircularList Bitops.

(** ** Constants of static-buddy.h *)

Definition PAGE_SIZE : Z := 4096.
Definition MAX_MEMORY_POOLS : nat := 16.
Definition MAX_SLAB_SIZE : Z := 256.
(** [sizeof(buddy_block_t)]: four bytes, an enum, two pointers. *)
Definition SIZEOF_BUDDY_BLOCK : Z := 24.

Definition ALIGN_UP (x y : Z) : Z := Z.land (u64 (x + (y - 1))) (wnot 64 (y - 1)).
Definition ALIGN_DOWN (x y : Z) : Z := Z.land (u64 x) (wnot 64 (y - 1)).
Definition ALIGN_PAGE_UP (x : Z) : Z := ALIGN_UP x PAGE_SIZE.
Definition ALIGN_PAGE_DOWN (x : Z) : Z := ALIGN_DOWN x PAGE_SIZE.

(** ** Data *)

Inductive block_type :=
  | BLOCK_TYPE_FREE | BLOCK_TYPE_USER | BLOCK_TYPE_PAGE | BLOCK_TYPE_SLAB | BLOCK_TYPE_ERROR.

(** A [buddy_block_t *]: null, the pool's waste list head, the head of a free
    list, or an entry of the [blocks] array. *)
Inductive node := Null | WasteList | FreeList (order : Z) | Block (index : Z).

#[global] Instance block_type_eq_dec : EqDecision block_type.
Proof. solve_decision. Defined.
#[global] Instance node_eq_dec : EqDecision node.
Proof. solve_decision. Defined.
#[global] Instance node_countable : Countable node.
Proof.
  refine (inj_countable'
    (λ n, match n with Null => inl false | WasteList => inl true
                     | FreeList o => inr (inl o) | Block i => inr (inr i) end)
    (λ x, match x with inl false => Null | inl true => WasteList
                     | inr (inl o) => FreeList o | inr (inr i) => Block i end) _).
  by intros [].
Defined.

Record buddy_block := BuddyBlock {
  pid : Z;
  order : Z;
  in_list : bool;
  is_waste : bool;
  btype : block_type;
  next : node;
  prev : node;
}.

Definition set_order (o : Z) (b : buddy_block) : buddy_block :=
  BuddyBlock (pid b) o (in_list b) (is_waste b) (btype b) (next b) (prev b).
Definition set_in_list (v : bool) (b : buddy_block) : buddy_block :=
  BuddyBlock (pid b) (order b) v (is_waste b) (btype b) (next b) (prev b).
Definition set_is_waste (v : bool) (b : buddy_block) : buddy_block :=
  BuddyBlock (pid b) (order b) (in_list b) v (btype b) (next b) (prev b).
Definition set_type (t : block_type) (b : buddy_block) : buddy_block :=
  BuddyBlock (pid b) (order b) (in_list b) (is_waste b) t (next b) (prev b).

#[global] Instance buddy_links :
    Links node buddy_block (Z * Z * bool * bool * block_type) := {
  lnext := next;
  lprev := prev;
  set_next k b := BuddyBlock (pid b) (order b) (in_list b) (is_waste b) (btype b) k (prev b);
  set_prev k b := BuddyBlock (pid b) (order b) (in_list b) (is_waste b) (btype b) (next b) k;
  payload b := (pid b, order b, in_list b, is_waste b, btype b);
}.
#[global] Instance buddy_links_laws :
  LinksLaws node buddy_block (Z * Z * bool * bool * block_type).
Proof. by split. Qed.

(** The three block containers of [memory_pool_t] ([waste_list], [free_lists],
    [blocks]) are the store [nodes]. *)
Record memory_pool := MemoryPool {
  flags : Z;
  start : Z;
  end_ : Z;
  pages_start : Z;
  pages_end : Z;
  pages : Z;
  free_pages : Z;
  max_order : Z;
  max_order_free : Z;
  max_order_waste : Z;
  nodes : gmap node buddy_block;
}.

Definition set_nodes (h : gmap node buddy_block) (p : memory_pool) : memory_pool :=
  MemoryPool (flags p) (start p) (end_ p) (pages_start p) (pages_end p) (pages p)
    (free_pages p) (max_order p) (max_order_free p) (max_order_waste p) h.
Definition set_free_pages (n : Z) (p : memory_pool) : memory_pool :=
  MemoryPool (flags p) (start p) (end_ p) (pages_start p) (pages_end p) (pages p)
    n (max_order p) (max_order_free p) (max_order_waste p) (nodes p).
Definition set_max_order_free (o : Z) (p : memory_pool) : memory_pool :=
  MemoryPool (flags p) (start p) (end_ p) (pages_start p) (pages_end p) (pages p)
    (free_pages p) (max_order p) o (max_order_waste p) (nodes p).

(** ** Helpers *)

(** [1 << o] on a 32-bit [int]. *)
Definition one_shl (o : Z) : outcome Z :=
  if bool_decide (0 <= o < 31) then Done (2 ^ o) else Undef.

(** Multiplication of two 32-bit [int]s. *)
Definition int_mul (a b : Z) : outcome Z :=
  if bool_decide (- 2 ^ 31 <= a * b < 2 ^ 31) then Done (a * b) else Undef.

(** Index of the first pool from [i] on that satisfies [P]. *)
Fixpoint first_pool (P : memory_pool → bool) (i : nat) (ps : list memory_pool) : option nat :=
  match ps with
  | [] => None
  | p :: ps => if P p then Some i else first_pool P (S i) ps
  end.

Definition ptr_to_pool (pools : list memory_pool) (ptr : Z) : option nat :=
  first_pool (λ p, (pages_start p <=? ptr) && (ptr <? pages_end p)) 0 pools.

Definition find_pool (start_pool : nat) (ord alloc_size : Z) (pools : list memory_pool) : option nat :=
  first_pool (λ p, (ord <=? max_order_free p) && (alloc_size <=? free_pages p))
    start_pool (drop start_pool pools).

Definition block_to_address (p : memory_pool) (index : Z) : Z :=
  u64 (pages_start p + index * PAGE_SIZE).
Definition address_to_block (p : memory_pool) (ptr : Z) : Z :=
  u64 (ptr - pages_start p) / PAGE_SIZE.

Definition next_power_of_two (x : Z) : Z :=
  if x <=? 1 then 1 else u64 (smear 6 (x - 1) + 1).

Definition get_order (size : Z) : Z :=
  let size := next_power_of_two size in
  if 0 <? size then u8 (u32 (63 - count_leading_unset_bits64 size)) else 0.

(** Update the fields of a block. *)
Definition modify (k : node) (f : buddy_block → buddy_block) (h : gmap node buddy_block)
    : outcome (gmap node buddy_block) :=
  b ← deref (h !! k); Done (<[k := f b]> h).

Definition buddy_list_push_back (list entry : node) (h : gmap node buddy_block)
    : outcome (gmap node buddy_block) :=
  h ← modify entry (set_in_list true) h;
  list_push_back list entry h.

Definition buddy_list_remove (entry : node) (h : gmap node buddy_block)
    : outcome (gmap node buddy_block) :=
  h ← modify entry (set_in_list false) h;
  list_remove entry h.

(** ** Splitting and merging *)

Definition split_block (index : Z) (h : gmap node buddy_block) : outcome (gmap node buddy_block) :=
  h ← modify (Block index) (λ b, set_order (u8 (order b - 1)) b) h;
  block ← deref (h !! Block index);
  bit ← one_shl (order block);
  let buddy_index := Z.lxor index bit in
  h ← modify (Block buddy_index) (set_order (order block)) h;
  new_block ← deref (h !! Block buddy_index);
  if negb (is_waste new_block)
  then buddy_list_push_back (FreeList (order new_block)) (Block buddy_index) h
  else buddy_list_push_back WasteList (Block buddy_index) h.

Definition try_merge_buddy (p : memory_pool) (index : Z) (h : gmap node buddy_block)
    : outcome (option Z * gmap node buddy_block) :=
  block ← deref (h !! Block index);
  bit ← one_shl (order block);
  let buddy_index := Z.lxor index bit in
  if u64 (pages p + max_order_waste p) <? buddy_index then Done (None, h) else
  buddy ← deref (h !! Block buddy_index);
  if (order buddy =? order block) && in_list buddy then
    h ← buddy_list_remove (Block buddy_index) h;
    let merged := if index <=? buddy_index then index else buddy_index in
    h ← modify (Block merged) (λ b, set_order (u8 (order b + 1)) b) h;
    Done (Some merged, h)
  else Done (None, h).

(** The [while] of [free_block].  Every iteration raises an order that
    [one_shl] requires to be below 31, so 32 iterations are never exceeded. *)
Fixpoint merge_loop (fuel : nat) (p : memory_pool) (index : Z) (h : gmap node buddy_block)
    : outcome (Z * gmap node buddy_block) :=
  match fuel with
  | O => Fuel
  | S fuel =>
      '(r, h) ← try_merge_buddy p index h;
      match r with
      | Some merged => merge_loop fuel p merged h
      | None => Done (index, h)
      end
  end.

Definition free_block (p : memory_pool) (index : Z) : outcome memory_pool :=
  '(fb, h) ← merge_loop 32 p index (nodes p);
  b ← deref (h !! Block fb);
  if negb (is_waste b) then
    h ← buddy_list_push_back (FreeList (order b)) (Block fb) h;
    Done (set_nodes h (set_max_order_free (Z.max (max_order_free p) (order b)) p))
  else
    h ← buddy_list_push_back WasteList (Block fb) h;
    Done (set_nodes h p).

(** ** Initialisation *)

Definition zero_block : buddy_block := BuddyBlock 0 0 false false BLOCK_TYPE_FREE Null Null.

(** Apply [f] for [i] in [from, from + n). *)
Fixpoint for_each (f : Z → gmap node buddy_block → outcome (gmap node buddy_block))
    (from : Z) (n : nat) (h : gmap node buddy_block) : outcome (gmap node buddy_block) :=
  match n with
  | O => Done h
  | S n => h ← f from h; for_each f (from + 1) n h
  end.

(** The store right after the metadata has been cleared: the waste list head
    of the (static) pool structure, [orders + 1] free list heads and as many
    blocks as fit between [blocks] and [pages_start]. *)
Definition zero_store (orders meta_len : Z) : gmap node buddy_block :=
  list_to_map ((WasteList, zero_block) ::
    map (λ o, (FreeList o, zero_block)) (seqZ 0 (orders + 1)) ++
    map (λ i, (Block i, zero_block)) (seqZ 0 meta_len)).

Definition init_pool (mem_start mem_end fl : Z) (pools : list memory_pool)
    : outcome (list memory_pool) :=
  if bool_decide (MAX_MEMORY_POOLS <= length pools)%nat then Done pools else
  let total_pages := u64 (Z.quot (mem_end - mem_start) PAGE_SIZE) in
  let orders := get_order total_pages in
  let metadata_block_size := u64 (SIZEOF_BUDDY_BLOCK * total_pages) in
  let metadata_free_lists_size := u64 (SIZEOF_BUDDY_BLOCK * (orders + 1)) in
  let free_lists := mem_start in
  (* pointer arithmetic on [buddy_block_t *] scales the byte size once more *)
  let blocks := ALIGN_UP (free_lists + metadata_free_lists_size * SIZEOF_BUDDY_BLOCK) 8 in
  let pages_start := ALIGN_PAGE_UP (blocks + metadata_block_size) in
  let pages_end := ALIGN_PAGE_DOWN mem_end in
  let pages := u64 (pages_end - pages_start) / PAGE_SIZE in
  bit ← one_shl orders;
  let max_order_waste := u32 (bit - pages) in
  if mem_end <? pages_start then Undef else
  let h := zero_store orders ((pages_start - blocks) / SIZEOF_BUDDY_BLOCK) in
  h ← for_each (λ i h, list_init (FreeList i) h) 0 (Z.to_nat (orders + 1)) h;
  h ← list_init WasteList h;
  let waste_start := u64 (pages - max_order_waste) in
  h ← for_each (λ i h, modify (Block i) (set_is_waste true) h)
        waste_start (Z.to_nat (total_pages - waste_start)) h;
  h ← modify (Block 0) (set_order orders) h;
  h ← put_next (Block 0) (Block 0) h;
  h ← put_prev (Block 0) (Block 0) h;
  h ← buddy_list_push_back (FreeList orders) (Block 0) h;
  Done (pools ++ [MemoryPool fl mem_start mem_end pages_start pages_end pages pages
                    orders orders max_order_waste h]).

(** ** Allocation *)

(** Walk one free list backwards from [cur].  A list never has more entries
    than the store has blocks, which bounds the walk. *)
Fixpoint scan_list (fuel : nat) (list cur : node) (n : Z) (h : gmap node buddy_block)
    : outcome (option Z) :=
  match fuel with
  | O => Fuel
  | S fuel =>
      b ← deref (h !! cur);
      if bool_decide (prev b = list) then Done None else
      match prev b with
      | Block i =>
          last_block ← deref (h !! Block (u64 (i + n - 1)));
          if negb (is_waste last_block) then Done (Some i)
          else scan_list fuel list (Block i) n h
      | _ => Undef
      end
  end.

(** Orders [a], [a+1], ..., [k] of them. *)
Fixpoint pool_find_block_from (k : nat) (a n : Z) (h : gmap node buddy_block)
    : outcome (option Z * gmap node buddy_block) :=
  match k with
  | O => Done (None, h)
  | S k =>
      r ← scan_list (S (size h)) (FreeList a) (FreeList a) n h;
      match r with
      | Some i => h ← buddy_list_remove (Block i) h; Done (Some i, h)
      | None => pool_find_block_from k (a + 1) n h
      end
  end.

Definition pool_find_block (p : memory_pool) (allocation_order n : Z)
    : outcome (option Z * gmap node buddy_block) :=
  pool_find_block_from (Z.to_nat (max_order p + 1 - allocation_order)) allocation_order n (nodes p).

(** The pool search of [buddy_allocate], from pool number [i]. *)
Fixpoint find_block_loop (k i : nat) (size allocation_order n : Z) (pools : list memory_pool)
    : outcome (option (nat * Z) * list memory_pool) :=
  match k with
  | O => Done (None, pools)
  | S k =>
      match find_pool i allocation_order n pools with
      | None => Done (None, pools)
      | Some pi =>
          p ← deref (pools !! pi);
          too_large ←
            (if allocation_order =? max_order p then
               bit ← one_shl allocation_order;
               (* [int - uint32_t] is computed in 32 bits *)
               Done (u32 (bit - max_order_waste p) <? size)
             else Done false);
          if (too_large : bool) then find_block_loop k (S i) size allocation_order n pools else
          '(r, h) ← pool_find_block p allocation_order n;
          match r with
          | Some b => Done (Some (pi, b), <[pi := set_nodes h p]> pools)
          | None => find_block_loop k (S i) size allocation_order n (<[pi := set_nodes h p]> pools)
          end
      end
  end.

(** [while (block->order > original_allocation_order) split_block(pool, block)]:
    at most 255 splits, since an order is a [uint8_t]. *)
Fixpoint split_loop (fuel : nat) (index ord : Z) (h : gmap node buddy_block)
    : outcome (gmap node buddy_block) :=
  match fuel with
  | O => Fuel
  | S fuel =>
      b ← deref (h !! Block index);
      if ord <? order b then
        h ← split_block index h;
        split_loop fuel index ord h
      else Done h
  end.

(** [while (max_order_free && list_empty(&free_lists[max_order_free])) --max_order_free] *)
Fixpoint lower_max_order (fuel : nat) (o : Z) (h : gmap node buddy_block) : outcome Z :=
  match fuel with
  | O => Fuel
  | S fuel =>
      if o =? 0 then Done o else
      e ← list_empty (FreeList o) h;
      if (e : bool) then lower_max_order fuel (o - 1) h else Done o
  end.

Definition buddy_allocate (size : Z) (ty : block_type) (pools : list memory_pool)
    : outcome (option Z * list memory_pool) :=
  if size =? 0 then Done (None, pools) else
  let n := u64 (size + (PAGE_SIZE - 1)) / PAGE_SIZE in
  let allocation_order := get_order n in
  '(found, pools) ← find_block_loop (length pools) 0 size allocation_order n pools;
  match found with
  | None => Done (None, pools)
  | Some (pi, index) =>
      p ← deref (pools !! pi);
      h ← split_loop 256 index allocation_order (nodes p);
      mof ← lower_max_order 256 (max_order_free p) h;
      b ← deref (h !! Block index);
      bit ← one_shl (order b);
      h ← modify (Block index) (set_type ty) h;
      let p := set_nodes h (set_free_pages (u64 (free_pages p - bit)) (set_max_order_free mof p)) in
      Done (Some (block_to_address p index), <[pi := p]> pools)
  end.

(** ** Lookup and deallocation *)

Definition buddy_get_block (ptr : Z) (pools : list memory_pool)
    : outcome (option (nat * Z)) :=
  if ptr =? 0 then Done None else
  if negb (ALIGN_PAGE_DOWN ptr =? ptr) then Panic else
  match ptr_to_pool pools ptr with
  | None => Panic
  | Some pi => p ← deref (pools !! pi); Done (Some (pi, address_to_block p ptr))
  end.

Definition buddy_deallocate (ptr : Z) (pools : list memory_pool) : outcome (list memory_pool) :=
  r ← buddy_get_block ptr pools;
  match r with
  | None => Done pools
  | Some (pi, index) =>
      p ← deref (pools !! pi);
      b ← deref (nodes p !! Block index);
      bit ← one_shl (order b);
      h ← modify (Block index) (set_type BLOCK_TYPE_FREE) (nodes p);
      p ← free_block (set_nodes h (set_free_pages (u64 (free_pages p + bit)) p)) index;
      Done (<[pi := p]> pools)
  end.

Definition buddy_get_type (ptr : Z) (pools : list memory_pool) : outcome block_type :=
  r ← buddy_get_block ptr pools;
  match r with
  | None => Done BLOCK_TYPE_ERROR
  | Some (pi, index) =>
      p ← deref (pools !! pi);
      b ← deref (nodes p !! Block index);
      Done (btype b)
  end.

Definition buddy_get_size (ptr : Z) (pools : list memory_pool) : outcome Z :=
  r ← buddy_get_block ptr pools;
  match r with
  | None => Done 0
  | Some (pi, index) =>
      p ← deref (pools !! pi);
      b ← deref (nodes p !! Block index);
      bit ← one_shl (order b);
      int_mul bit PAGE_SIZE
  end.

Definition buddy_reallocate (ptr size : Z) (pools : list memory_pool) (m : memory)
    : outcome (option Z * list memory_pool * memory) :=
  r ← buddy_get_block ptr pools;
  match r with
  | None => Done (None, pools, m)
  | Some (pi, index) =>
      p ← deref (pools !! pi);
      b ← deref (nodes p !! Block index);
      let n := u64 (size + (PAGE_SIZE - 1)) / PAGE_SIZE in
      let allocation_order := get_order n in
      bit ← one_shl (order b);
      old_size ← int_mul bit PAGE_SIZE;
      if order b =? allocation_order then Done (Some ptr, pools, m) else
      '(new_block, pools) ← buddy_allocate size (btype b) pools;
      match new_block with
      | None => Done (None, pools, m)
      | Some nb =>
          let copy_size := if old_size <? size then old_size else size in
          let m := memcpy nb ptr copy_size m in
          pools ← buddy_deallocate ptr pools;
          Done (Some nb, pools, m)
      end
  end.
