(* ===== verification/BuddyTiling.v ===== *)
(** * Buddy tilings

    The abstract state of a buddy pool of order [M]: a finite map [B] from the
    index of the first page of a tile to the order of the tile.  A tiling cuts
    [0, 2^M) into disjoint, naturally aligned power-of-two tiles.  Splitting
    and merging with the [xor] buddy preserve tilings; these are the facts of
    binary arithmetic the allocator rests on. *)

From S2P Require Import Prelude.

Definition tile_ok (M i o : Z) : Prop :=
  0 <= o <= M ∧ 0 <= i ∧ (2 ^ o | i) ∧ i + 2 ^ o <= 2 ^ M.

Record tiling (M : Z) (B : gmap Z Z) : Prop := {
  t_ok i o : B !! i = Some o → tile_ok M i o;
  t_disj i o j o' : B !! i = Some o → B !! j = Some o' → i ≠ j →
    i + 2 ^ o <= j ∨ j + 2 ^ o' <= i;
  t_cover x : 0 <= x < 2 ^ M → ∃ i o, B !! i = Some o ∧ i <= x < i + 2 ^ o }.

(** Buddy index at order [o], as the C code computes it. *)
Definition buddy_of (i o : Z) : Z := Z.lxor i (2 ^ o).

Definition split_tile (i o : Z) (B : gmap Z Z) : gmap Z Z :=
  <[i + 2 ^ (o - 1) := o - 1]> (<[i := o - 1]> B).

Definition merge_tile (i o : Z) (B : gmap Z Z) : gmap Z Z :=
  <[Z.min i (buddy_of i o) := o + 1]> (delete (Z.max i (buddy_of i o)) B).

(** ** The xor buddy *)

Lemma buddy_of_cases i o : 0 <= o → 0 <= i → (2 ^ o | i) →
  (buddy_of i o = i + 2 ^ o ∧ (2 ^ (o + 1) | i)) ∨
  (buddy_of i o = i - 2 ^ o ∧ (2 ^ (o + 1) | i - 2 ^ o) ∧ 2 ^ o <= i).
Proof.
  intros Ho Hi [q ->]. unfold buddy_of.
  assert (0 <= q) by nia.
  assert (Z.lxor (q * 2 ^ o) (2 ^ o) = Z.lxor q 1 * 2 ^ o) as ->.
  { rewrite <-!(Z.shiftl_mul_pow2 _ o) by lia.
    rewrite <-(Z.mul_1_l (2 ^ o)), <-Z.shiftl_mul_pow2 by lia.
    by rewrite Z.shiftl_lxor. }
  rewrite pow2_succ by lia.
  destruct (Z.Even_or_Odd q) as [[r ->]|[r ->]]; [left|right].
  - replace (Z.lxor (2 * r) 1) with (2 * r + 1).
    2:{ symmetry. rewrite Z.add_nocarry_lxor; [done|].
        apply Z.bits_inj'; intros n Hn. rewrite Z.land_spec, Z.bits_0.
        destruct (decide (n = 0)) as [->|]; [by rewrite Z.testbit_even_0|].
        rewrite (Z.bits_above_log2 1), andb_false_r by (simpl; lia). done. }
    split; [lia|]. exists r. lia.
  - replace (Z.lxor (2 * r + 1) 1) with (2 * r).
    2:{ symmetry. apply Z.bits_inj'; intros n Hn. rewrite Z.lxor_spec.
        destruct (decide (n = 0)) as [->|].
        - by rewrite Z.testbit_even_0, Z.testbit_odd_0.
        - replace n with (Z.succ (n - 1)) by lia.
          rewrite Z.testbit_even_succ, Z.testbit_odd_succ by lia.
          rewrite (Z.bits_above_log2 1), xorb_false_r by (simpl; lia). done. }
    assert (0 < 2 ^ o) by lia. assert (0 <= r) by lia.
    split_and!; [lia|exists r; lia|].
    rewrite <-(Z.mul_1_l (2 ^ o)) at 1. apply Z.mul_le_mono_nonneg_r; lia.
Qed.

(** Two multiples of [d] are equal or at least [d] apart. *)
Lemma multiples_apart d x y : 0 < d → (d | x) → (d | y) → x < y → x + d <= y.
Proof.
  intros ? [p ->] [q ->] Hlt%Z.mul_lt_mono_pos_r; [|done].
  replace (p * d + d) with ((p + 1) * d) by ring. apply Z.mul_le_mono_nonneg_r; lia.
Qed.

Section tiling.
Context {M : Z} {B : gmap Z Z} (HB : tiling M B).

Lemma tile_pos i o : B !! i = Some o → 0 < 2 ^ o.
Proof. intros [(?&_) _]%HB. lia. Qed.

(** The tile that covers the buddy of a tile starts exactly at the buddy and
    is not larger: the [order] and [in_list] fields read by
    [try_merge_buddy] are always those of a live tile. *)
Lemma buddy_is_tile i o : B !! i = Some o → o < M →
  0 <= buddy_of i o < 2 ^ M ∧ ∃ o', B !! buddy_of i o = Some o' ∧ o' <= o.
Proof.
  intros Hi HoM. pose proof (t_ok _ _ HB _ _ Hi) as ((Ho&_)&Hi0&Hdiv&Hle).
  assert (Hm : (2 ^ (o + 1) | 2 ^ M)) by (apply pow2_divide; lia).
  assert (Hs : 2 ^ (o + 1) = 2 * 2 ^ o) by (apply pow2_succ; lia).
  assert (0 < 2 ^ o) by lia.
  set (b := buddy_of i o).
  assert (0 <= b < 2 ^ M ∧ (2 ^ o | b)) as [Hb Hbdiv].
  { unfold b. destruct (buddy_of_cases i o) as [[-> Hd]|(->&Hd&?)]; try done.
    - split; [|by apply Z.divide_add_r; [|exists 1; lia]].
      assert (i + 2 ^ (o + 1) <= 2 ^ M); [|lia].
      apply multiples_apart; [lia|done|done|lia].
    - split; [lia|]. by apply Z.divide_sub_r; [|exists 1; lia]. }
  split; [done|].
  destruct (t_cover _ _ HB b Hb) as (j&o'&Hj&Hjb).
  pose proof (t_ok _ _ HB _ _ Hj) as ((Ho'&_)&_&Hdiv'&_).
  destruct (decide (o' <= o)) as [Hle'|Hgt].
  - assert (j = b) as ->; [|eauto].
    destruct (decide (j = b)); [done|]. exfalso.
    assert (2 ^ o' | b) by (etrans; [apply pow2_divide|done]; lia).
    pose proof (multiples_apart (2 ^ o') j b ltac:(lia) ltac:(done) ltac:(done)). lia.
  - exfalso. assert (i ≠ j) as Hij by (intros ->; simplify_eq; lia).
    assert ((2 ^ (o + 1) | j)) by (etrans; [apply pow2_divide|done]; lia).
    assert (2 * 2 ^ o <= 2 ^ o') by (apply pow2_lt; lia).
    assert ((2 ^ (o + 1) | j + 2 ^ o'))
      by (apply Z.divide_add_r; [done|apply pow2_divide; lia]).
    destruct (t_disj _ _ HB _ _ _ _ Hi Hj Hij) as [Hd|Hd];
      destruct (buddy_of_cases i o) as [[Hbi Hdi]|(Hbi&Hdi&?)]; try done; fold b in Hbi; try lia.
    + pose proof (multiples_apart (2 ^ (o + 1)) i j ltac:(lia) ltac:(done) ltac:(done)). lia.
    + pose proof (multiples_apart (2 ^ (o + 1)) (i - 2 ^ o) (j + 2 ^ o') ltac:(lia) ltac:(done) ltac:(done)). lia.
Qed.

Lemma split_tile_fresh i o : B !! i = Some o → 0 < o → B !! (i + 2 ^ (o - 1)) = None.
Proof.
  intros Hi Ho. destruct (B !! (i + 2 ^ (o - 1))) as [o'|] eqn:Hj; [|done]. exfalso.
  pose proof (pow2_pred o Ho). assert (0 < 2 ^ (o - 1)) by lia.
  pose proof (tile_pos _ _ Hj).
  destruct (t_disj _ _ HB _ _ _ _ Hi Hj); lia.
Qed.

Lemma split_tile_buddy i o : B !! i = Some o → 0 < o → buddy_of i (o - 1) = i + 2 ^ (o - 1).
Proof.
  intros Hi Ho. pose proof (t_ok _ _ HB _ _ Hi) as (?&?&Hdiv&?).
  assert (0 < 2 ^ (o - 1)) by lia.
  destruct (buddy_of_cases i (o - 1)) as [[? _]|(_&[q Hq]&_)]; [lia|done| |done|].
  - etrans; [apply pow2_divide|done]. lia.
  - exfalso. destruct Hdiv as [r Hr]. replace (o - 1 + 1) with o in Hq by lia.
    rewrite (pow2_pred o Ho) in Hq, Hr.
    assert ((2 * r - 2 * q - 1) * 2 ^ (o - 1) = 0) as [|]%Z.mul_eq_0 by lia; lia.
Qed.

Lemma split_tiling i o : B !! i = Some o → 0 < o → tiling M (split_tile i o B).
Proof.
  intros Hi Ho. pose proof (t_ok _ _ HB _ _ Hi) as (HoM&Hi0&Hdiv&Hle).
  pose proof (pow2_pred o Ho) as Hp. assert (0 < 2 ^ (o - 1)) by lia.
  assert (Hd1 : (2 ^ (o - 1) | i)) by (etrans; [apply pow2_divide|done]; lia).
  assert (Hlk : ∀ j o', split_tile i o B !! j = Some o' →
    (j = i + 2 ^ (o - 1) ∧ o' = o - 1) ∨ (j = i ∧ o' = o - 1) ∨ (j ≠ i ∧ B !! j = Some o')).
  { unfold split_tile. intros j o'. rewrite !lookup_insert. repeat case_decide; naive_solver. }
  split.
  - intros j o' [[-> ->]|[[-> ->]|[? Hj]]]%Hlk; [| |by apply HB].
    + repeat split; try lia. apply Z.divide_add_r; [done|]. by exists 1; lia.
    + repeat split; try lia. done.
  - intros j1 o1 j2 o2 H1%Hlk H2%Hlk Hne.
    assert (∀ j o', j ≠ i → B !! j = Some o' → i + 2 ^ o <= j ∨ j + 2 ^ o' <= i).
    { intros. eapply t_disj; eauto. }
    destruct H1 as [[-> ->]|[[-> ->]|[? ?]]], H2 as [[-> ->]|[[-> ->]|[? ?]]]; try lia;
      try (match goal with H : B !! ?j = Some ?o' |- _ =>
        match goal with Hx : j ≠ i |- _ => destruct (H0 j o' Hx H); lia end end).
    eapply t_disj; eauto.
  - intros x Hx. destruct (t_cover _ _ HB x Hx) as (j&o'&Hj&Hjx).
    unfold split_tile. destruct (decide (j = i)) as [->|].
    + replace o' with o in * by congruence.
      destruct (decide (x < i + 2 ^ (o - 1))).
      * exists i, (o - 1). rewrite lookup_insert_ne, lookup_insert_eq by lia. split; [done|lia].
      * exists (i + 2 ^ (o - 1)), (o - 1). rewrite lookup_insert_eq. split; [done|lia].
    + exists j, o'. rewrite lookup_insert_ne, lookup_insert_ne; [done|done|].
      intros <-. by rewrite (split_tile_fresh i o) in Hj.
Qed.

Lemma merge_tiling i o :
  B !! i = Some o → B !! buddy_of i o = Some o → o < M → tiling M (merge_tile i o B).
Proof.
  intros Hi Hb HoM. pose proof (t_ok _ _ HB _ _ Hi) as ((Ho&_)&Hi0&Hdiv&Hle).
  pose proof (t_ok _ _ HB _ _ Hb) as (_&Hb0&_&Hble).
  assert (Hs : 2 ^ (o + 1) = 2 * 2 ^ o) by (apply pow2_succ; lia).
  assert (0 < 2 ^ o) by lia.
  unfold merge_tile. set (m := Z.min i (buddy_of i o)). set (x := Z.max i (buddy_of i o)).
  assert (x = m + 2 ^ o ∧ (2 ^ (o + 1) | m) ∧ B !! m = Some o ∧ B !! x = Some o ∧ 0 <= m)
    as (Hx&Hdm&Hm&Hxo&Hm0).
  { subst m x. destruct (buddy_of_cases i o) as [[E Hd]|(E&Hd&?)]; try done; rewrite E in *.
    - rewrite Z.min_l, Z.max_r by lia. done.
    - rewrite Z.min_r, Z.max_l by lia. split_and!; try done; lia. }
  assert (x + 2 ^ o <= 2 ^ M) by (by apply HB in Hxo as (_&_&_&?)).
  clearbody m x. subst x.
  assert (Hlk : ∀ j o', <[m := o + 1]> (delete (m + 2 ^ o) B) !! j = Some o' →
    (j = m ∧ o' = o + 1) ∨ (j ≠ m ∧ j ≠ m + 2 ^ o ∧ B !! j = Some o')).
  { intros j o'. rewrite lookup_insert, lookup_delete. repeat case_decide; naive_solver. }
  assert (Hout : ∀ j o', j ≠ m → j ≠ m + 2 ^ o → B !! j = Some o' →
    m + 2 ^ (o + 1) <= j ∨ j + 2 ^ o' <= m).
  { intros j o' ?? Hj. pose proof (tile_pos _ _ Hj).
    destruct (t_disj _ _ HB _ _ _ _ Hm Hj), (t_disj _ _ HB _ _ _ _ Hxo Hj); lia. }
  split.
  - intros j o' [[-> ->]|(?&?&?)]%Hlk; [|by apply HB]. repeat split; try lia. done.
  - intros j1 o1 j2 o2 [[-> ->]|(?&?&?)]%Hlk [[-> ->]|(?&?&?)]%Hlk Hne; [done| | |].
    + by apply Hout.
    + destruct (Hout j1 o1); auto.
    + eapply t_disj; eauto.
  - intros y Hy. destruct (t_cover _ _ HB y Hy) as (j&o'&Hj&Hjy).
    destruct (decide (j = m)) as [->|]; [|destruct (decide (j = m + 2 ^ o)) as [->|]].
    + exists m, (o + 1). rewrite lookup_insert_eq. split; [done|].
      replace o' with o in * by congruence. lia.
    + exists m, (o + 1). rewrite lookup_insert_eq. split; [done|].
      replace o' with o in * by congruence. lia.
    + exists j, o'. rewrite lookup_insert_ne, lookup_delete_ne by done. done.
Qed.

(** A pool that is a single tile of the full order has no other tile. *)
Lemma full_tile_unique i : B !! i = Some M → 0 <= M → B = {[0 := M]}.
Proof.
  intros Hi HM. pose proof (t_ok _ _ HB _ _ Hi) as (_&?&_&?).
  assert (i = 0) as -> by lia.
  apply map_eq; intros j. rewrite lookup_singleton. case_decide as Hj; [by subst|].
  destruct (B !! j) as [o|] eqn:Hjo; [|done]. exfalso.
  pose proof (t_ok _ _ HB _ _ Hjo) as (?&?&_&?).
  destruct (t_disj _ _ HB _ _ _ _ Hi Hjo); lia.
Qed.
End tiling.

Lemma single_tiling M : 0 <= M → tiling M {[0 := M]}.
Proof.
  intros HM. split.
  - intros i o [<- <-]%lookup_singleton_Some. repeat split; try lia. by exists 0.
  - intros i o j o' [<- <-]%lookup_singleton_Some [<- <-]%lookup_singleton_Some. done.
  - intros x Hx. exists 0, M. rewrite lookup_singleton_eq. split; [done|lia].
Qed.

#[export] Hint Resolve split_tiling merge_tiling single_tiling : badger.
