(* ===== verification/BuddyTheory.v ===== *)
(** * Correctness of the buddy allocator

    The pool invariant relates the block store of static-buddy.c to a tiling
    (BuddyTiling.v): the free lists and the waste list hold exactly the tiles
    that are not allocated, and the [order], [in_list] and [is_waste] fields of
    every tile are accurate.  Each step of allocation and deallocation is shown
    to succeed and to act on the tiling as a split, a merge, or a move of one
    tile between the allocated set and the lists. *)

From S2P Require Import Prelude CircularList Bitops Buddy BuddyTiling.

(** ** The linked lists of a pool *)

Definition is_head (M : Z) (hd : node) : Prop :=
  hd = WasteList ∨ ∃ o, hd = FreeList o ∧ 0 <= o <= M.

(** [f i] is the head of the list that holds block [i], if any. *)
Definition lists (M : Z) (h : gmap node buddy_block) (f : Z → option node) : Prop :=
  ∀ hd, is_head M hd → ∃ xs, dll h hd (Block <$> xs) ∧ ∀ i, i ∈ xs ↔ f i = Some hd.

(** The data fields of [h'] are those of [h] with [g] applied to block [i]. *)
Definition fields_upd (i : Z) (g : buddy_block → buddy_block) (h h' : gmap node buddy_block) : Prop :=
  ∀ k, payload <$> h' !! k = payload <$> (if decide (k = Block i) then g <$> h !! k else h !! k).

Lemma is_head_not_block M hd i : is_head M hd → hd ≠ Block i.
Proof. intros [->|(o&->&_)]; done. Qed.

Lemma fields_upd_lookup i g h h' j b :
  fields_upd i g h h' → h !! Block j = Some b →
  ∃ b', h' !! Block j = Some b' ∧ payload b' = payload (if decide (j = i) then g b else b).
Proof.
  intros Hu Hj. specialize (Hu (Block j)). rewrite Hj in Hu.
  destruct (h' !! Block j) as [b'|]; [exists b'; split; [done|]|];
    destruct (decide (Block j = Block i)), (decide (j = i)); simpl in *; congruence.
Qed.

Lemma modify_spec k f h b : h !! k = Some b → modify k f h = Done (<[k := f b]> h).
Proof. intros E. unfold modify. by bind_step E. Qed.

Lemma fields_upd_insert i g h b :
  h !! Block i = Some b → fields_upd i g h (<[Block i := g b]> h).
Proof.
  intros Hb k. rewrite lookup_insert. repeat case_decide; simplify_eq; try done.
  by rewrite Hb.
Qed.

(** A write to the data fields keeps every list. *)
Lemma dll_data_write h k (g : buddy_block → buddy_block) b l (xs : list node) :
  h !! k = Some b → next (g b) = next b → prev (g b) = prev b →
  dll h l xs → dll (<[k := g b]> h) l xs.
Proof.
  intros Hb Hn Hp [Hs Hd]; split; [|done]. revert Hs.
  apply lseg_frame; intros j _; unfold next_of, prev_of; rewrite lookup_insert;
    case_decide; simplify_eq; try done; rewrite Hb; simpl; congruence.
Qed.

Lemma lists_data_write M h f i (g : buddy_block → buddy_block) b :
  h !! Block i = Some b → next (g b) = next b → prev (g b) = prev b →
  lists M h f → lists M (<[Block i := g b]> h) f.
Proof.
  intros ??? HL hd Hh. destruct (HL hd Hh) as (xs&Hd&Hx). exists xs; split; [|done].
  by apply dll_data_write.
Qed.

Lemma lists_ext M h f f' : (∀ j, f' j = f j) → lists M h f → lists M h f'.
Proof.
  intros Hf HL hd Hh. destruct (HL hd Hh) as (xs&?&Hx). exists xs; split; [done|].
  intros i. by rewrite Hf.
Qed.

(** Lists other than [hd] do not see an operation confined to the nodes of [hd]. *)
Lemma lists_other M h h' f f' hd (touched : list Z) :
  lists M h f → is_head M hd →
  (∀ j, f' j ≠ f j → f j = None ∨ f j = Some hd) →
  (∀ j, f' j ≠ f j → f' j = None ∨ f' j = Some hd) →
  (∀ j, j ∈ touched → f j = None ∨ f j = Some hd) →
  (∀ k, k ∉ hd :: (Block <$> touched) → h' !! k = h !! k) →
  ∀ hd', is_head M hd' → hd' ≠ hd →
    ∃ xs, dll h' hd' (Block <$> xs) ∧ ∀ i, i ∈ xs ↔ f' i = Some hd'.
Proof.
  intros HL Hhd Hf Hf' Ht Hfr hd' Hh Hne. destruct (HL hd' Hh) as (xs&Hd&Hx).
  exists xs; split.
  - apply (dll_frame h); [|done]. intros k Hk. apply Hfr. intros Hin.
    apply elem_of_cons in Hin as [->|(j&->&Hj)%list_elem_of_fmap].
    + apply elem_of_cons in Hk as [?|(j&?&_)%list_elem_of_fmap]; [congruence|].
      by apply (is_head_not_block M hd j).
    + apply elem_of_cons in Hk as [Hk|(j'&Hk&Hj')%list_elem_of_fmap].
      * by apply (is_head_not_block M hd' j).
      * simplify_eq. apply Hx in Hj'. destruct (Ht _ Hj); congruence.
  - intros i. rewrite Hx. destruct (decide (f' i = f i)) as [->|Hn]; [done|].
    destruct (Hf i Hn), (Hf' i Hn); naive_solver.
Qed.

Lemma NoDup_block_fmap hd M (xs : list Z) i :
  is_head M hd → i ∉ xs → Block i ∉ hd :: (Block <$> xs).
Proof.
  intros Hh Hi [E|(j&[= ->]&Hj)%list_elem_of_fmap]%elem_of_cons; [|done].
  by apply (is_head_not_block M hd i).
Qed.

Lemma payload_fmap_lookup (h h' : gmap node buddy_block) k :
  payload <$> h' = payload <$> h → payload <$> h' !! k = payload <$> h !! k.
Proof. intros E%(f_equal (lookup k)). by rewrite !lookup_fmap in E. Qed.

Lemma lists_push M h f f' i hd :
  lists M h f → is_head M hd → f i = None → is_Some (h !! Block i) →
  (∀ j, f' j = if decide (j = i) then Some hd else f j) →
  ∃ h', buddy_list_push_back hd (Block i) h = Done h' ∧ lists M h' f' ∧
    fields_upd i (set_in_list true) h h'.
Proof.
  intros HL Hh Hi [b Hb] Hf'. unfold buddy_list_push_back.
  rewrite (modify_spec _ _ _ _ Hb). cbn [mbind outcome_bind].
  apply (lists_data_write _ _ _ _ (set_in_list true) _ Hb) in HL; [|done..].
  pose proof (fields_upd_insert i (set_in_list true) h b Hb) as Hu.
  set (h1 := <[Block i := set_in_list true b]> h) in *.
  destruct (HL hd Hh) as (xs&Hd&Hx).
  assert (i ∉ xs) as Hni by (rewrite Hx; congruence).
  destruct (list_push_back_spec hd (Block i) (Block <$> xs) h1) as (h2&E&Hd2&Hp&Hfr).
  { done. } { by eapply NoDup_block_fmap. } { subst h1. rewrite lookup_insert_eq. done. }
  exists h2; split_and!; [done| |].
  - intros hd' Hh'. destruct (decide (hd' = hd)) as [->|Hne].
    + exists (xs ++ [i]). rewrite fmap_app. split; [done|]. intros j.
      rewrite elem_of_app, Hx, Hf', list_elem_of_singleton. case_decide; naive_solver.
    + apply (lists_other M h1 h2 f f' hd (i :: xs)); try done.
      * intros j. rewrite Hf'. case_decide; naive_solver.
      * intros j. rewrite Hf'. case_decide; naive_solver.
      * intros j [->|Hj]%elem_of_cons; [by left|right; by apply Hx].
  - intros k. rewrite (payload_fmap_lookup _ _ _ Hp). apply Hu.
Qed.

Lemma lists_remove M h f f' i hd :
  lists M h f → is_head M hd → f i = Some hd →
  (∀ j, f' j = if decide (j = i) then None else f j) →
  ∃ h', buddy_list_remove (Block i) h = Done h' ∧ lists M h' f' ∧
    fields_upd i (set_in_list false) h h'.
Proof.
  intros HL Hh Hi Hf'. unfold buddy_list_remove.
  destruct (HL hd Hh) as (xs&Hd&Hx).
  assert (i ∈ xs) as Hin by by apply Hx.
  destruct (dll_dom _ _ _ (Block i) Hd) as [b Hb].
  { apply elem_of_cons; right. by apply list_elem_of_fmap_2. }
  rewrite (modify_spec _ _ _ _ Hb). cbn [mbind outcome_bind].
  pose proof (lists_data_write _ _ _ _ (set_in_list false) _ Hb eq_refl eq_refl HL) as HL1.
  pose proof (fields_upd_insert i (set_in_list false) h b Hb) as Hu.
  apply (dll_data_write _ _ (set_in_list false) _ _ _ Hb eq_refl eq_refl) in Hd.
  set (h1 := <[Block i := set_in_list false b]> h) in *.
  apply list_elem_of_split in Hin as (ys&zs&->).
  rewrite fmap_app, fmap_cons in Hd. pose proof Hd as [_ Hnd].
  destruct (list_remove_spec hd (Block i) (Block <$> ys) (Block <$> zs) h1 Hd)
    as (h2&E&Hd2&Hp&Hfr).
  exists h2; split_and!; [done| |].
  - intros hd' Hh'. destruct (decide (hd' = hd)) as [->|Hne].
    + exists (ys ++ zs). rewrite fmap_app. split; [done|]. intros j.
      rewrite Hf'. setoid_rewrite elem_of_app in Hx. setoid_rewrite elem_of_cons in Hx.
      assert (i ∉ ys ∧ i ∉ zs).
      { rewrite <-fmap_cons, <-fmap_app in Hnd.
        apply NoDup_cons in Hnd as [_ Hnd%NoDup_fmap_1].
        apply NoDup_app in Hnd as (_&?&[? _]%NoDup_cons). set_solver. }
      rewrite elem_of_app. case_decide; naive_solver.
    + apply (lists_other M h1 h2 f f' hd (ys ++ zs)); try done.
      * intros j. rewrite Hf'. case_decide; naive_solver.
      * intros j. rewrite Hf'. case_decide; naive_solver.
      * intros j Hj. right. apply Hx. set_solver.
      * intros k Hk. apply Hfr. by rewrite <-fmap_app.
  - intros k. rewrite (payload_fmap_lookup _ _ _ Hp). apply Hu.
Qed.

(** ** The invariant of the block store

    [M] is the order of the pool, [w] the first waste page, [B] the tiling and
    [A] the set of tiles that are in no list (allocated or in flight). *)

Definition head_of (w i o : Z) : node := if i <? w then FreeList o else WasteList.

Definition location (w : Z) (B : gmap Z Z) (A : gset Z) (i : Z) : option node :=
  match B !! i with
  | Some o => if decide (i ∈ A) then None else Some (head_of w i o)
  | None => None
  end.

Definition block_ok (M w : Z) (B : gmap Z Z) (A : gset Z) (i : Z) (b : buddy_block) : Prop :=
  (i < 2 ^ M → is_waste b = (w <=? i)) ∧
  in_list b = bool_decide (i ∈ dom B ∖ A) ∧
  (∀ o, B !! i = Some o → order b = o).

Definition fields (M w : Z) (h : gmap node buddy_block) (B : gmap Z Z) (A : gset Z) : Prop :=
  ∀ i, 0 <= i <= 2 ^ M → ∃ b, h !! Block i = Some b ∧ block_ok M w B A i b.

Record core (M w : Z) (h : gmap node buddy_block) (B : gmap Z Z) (A : gset Z) : Prop := {
  c_order : 0 <= M < 31;
  c_tiling : tiling M B;
  c_alloc : A ⊆ dom B;
  c_fields : fields M w h B A;
  c_lists : lists M h (location w B A) }.

Lemma block_ok_payload M w B A i b b' :
  payload b' = payload b → block_ok M w B A i b → block_ok M w B A i b'.
Proof. unfold block_ok. intros [= Hp Ho Hl Hw Ht]. by rewrite Ho, Hl, Hw. Qed.

Lemma fields_step M w h h' B B' A A' i g :
  fields_upd i g h h' →
  (∀ j b, 0 <= j <= 2 ^ M → block_ok M w B A j b →
    block_ok M w B' A' j (if decide (j = i) then g b else b)) →
  fields M w h B A → fields M w h' B' A'.
Proof.
  intros Hu Hok HF j Hj. destruct (HF j Hj) as (b&Hb&Hbo).
  destruct (fields_upd_lookup _ _ _ _ _ _ Hu Hb) as (b'&Hb'&Hp).
  exists b'; split; [done|]. eapply block_ok_payload; eauto.
Qed.

Lemma head_of_is_head M w i o : 0 <= o <= M → is_head M (head_of w i o).
Proof. unfold head_of, is_head. destruct (i <? w); eauto. Qed.

Lemma one_shl_ok o : 0 <= o < 31 → one_shl o = Done (2 ^ o).
Proof. intros. unfold one_shl. by rewrite bool_decide_true. Qed.

Lemma u8_small o : 0 <= o < 256 → u8 o = o.
Proof. intros. apply wrap_small. done. Qed.

Section core.
Context {M w : Z} {h : gmap node buddy_block} {B : gmap Z Z} {A : gset Z}.
Context (HC : core M w h B A).

Lemma core_tile i o : B !! i = Some o →
  0 <= o <= M ∧ 0 <= i < 2 ^ M ∧ i + 2 ^ o <= 2 ^ M.
Proof.
  intros Hi. destruct (t_ok _ _ (c_tiling _ _ _ _ _ HC) _ _ Hi) as (?&?&_&?).
  assert (0 < 2 ^ o) by lia. lia.
Qed.

Lemma core_tile_lt i o : B !! i = Some o → i ≠ 2 ^ M.
Proof. intros ?%core_tile. lia. Qed.

Lemma core_lookup i o : B !! i = Some o →
  ∃ b, h !! Block i = Some b ∧ order b = o ∧ in_list b = bool_decide (i ∉ A) ∧
    is_waste b = (w <=? i).
Proof.
  intros Hi. pose proof (core_tile _ _ Hi).
  destruct (c_fields _ _ _ _ _ HC i) as (b&Hb&Hw&Hl&Ho); [lia|].
  exists b. rewrite Hl, Hw by lia. split_and!; auto.
  apply bool_decide_ext. rewrite elem_of_difference, elem_of_dom, Hi. naive_solver.
Qed.

(** Taking a listed tile out of its list. *)
Lemma core_take i o : B !! i = Some o → i ∉ A →
  ∃ h', buddy_list_remove (Block i) h = Done h' ∧ core M w h' B ({[i]} ∪ A).
Proof.
  intros Hi HA. destruct HC as [HM HT Hal HF HL].
  destruct (lists_remove M h (location w B A) (location w B ({[i]} ∪ A)) i (head_of w i o))
    as (h'&E&HL'&Hu).
  - done.
  - eapply head_of_is_head, core_tile; done.
  - unfold location. rewrite Hi. by resolve_decide.
  - intros j. unfold location. destruct (decide (j = i)) as [->|];
      [rewrite Hi; case_decide; set_solver|].
    destruct (B !! j); [|done]. repeat case_decide; set_solver.
  - exists h'; split; [done|]. split; try done.
    + apply union_subseteq; split; [|done]. apply singleton_subseteq_l, elem_of_dom. eauto.
    + eapply fields_step; [done| |done]. intros j b Hj (Hw&Hs&Ho).
      destruct (decide (j = i)) as [->|]; split_and!; try done; simpl.
      * symmetry. apply bool_decide_eq_false. set_solver.
      * rewrite Hs. apply bool_decide_ext. set_solver.
Qed.

(** Putting a tile back into the list it belongs to. *)
Lemma core_give i o : B !! i = Some o → i ∈ A →
  ∃ h', buddy_list_push_back (head_of w i o) (Block i) h = Done h' ∧ core M w h' B (A ∖ {[i]}).
Proof.
  intros Hi HA. destruct (core_lookup _ _ Hi) as (b&Hb&_). pose proof (core_tile_lt _ _ Hi).
  destruct (core_tile _ _ Hi) as [Ho _]. destruct HC as [HM HT Hal HF HL].
  destruct (lists_push M h (location w B A) (location w B (A ∖ {[i]})) i (head_of w i o))
    as (h'&E&HL'&Hu); [done|by apply head_of_is_head| |eauto| |].
  - unfold location. rewrite Hi. by resolve_decide.
  - intros j. unfold location. destruct (decide (j = i)) as [->|];
      [rewrite Hi; case_decide; set_solver|].
    destruct (B !! j); [|done]. repeat case_decide; set_solver.
  - exists h'; split; [done|]. split; try done; [set_solver|].
    eapply fields_step; [done| |done]. intros j b' Hj (Hw&Hs&Hb').
    destruct (decide (j = i)) as [->|]; split_and!; try done; simpl.
    * symmetry. apply bool_decide_eq_true. apply elem_of_difference.
      rewrite elem_of_dom, Hi. set_solver.
    * rewrite Hs. apply bool_decide_ext. set_solver.
Qed.

Lemma core_block i : 0 <= i <= 2 ^ M → ∃ b, h !! Block i = Some b ∧ block_ok M w B A i b.
Proof. apply HC. Qed.
End core.

(** Changing only the tiling: the tiles that are in lists stay the same. *)
Lemma location_retile w B B' A A' :
  (∀ j, j ∉ A → j ∉ A' → B' !! j = B !! j) →
  (∀ j, j ∈ A → B' !! j = None ∨ j ∈ A') →
  (∀ j, j ∈ A' → B !! j = None ∨ j ∈ A) →
  ∀ j, location w B' A' j = location w B A j.
Proof.
  intros H1 H2 H3 j. unfold location.
  destruct (decide (j ∈ A)) as [HA|HA], (decide (j ∈ A')) as [HA'|HA'].
  - by destruct (B !! j), (B' !! j).
  - destruct (H2 j HA) as [->|]; [|done]. by destruct (B !! j).
  - destruct (H3 j HA') as [->|]; [|done]. by destruct (B' !! j).
  - by rewrite H1.
Qed.

(** One [split_block] on a tile that is out of the lists. *)
Lemma core_split M w h B A i o :
  core M w h B A → B !! i = Some o → i ∈ A → 0 < o →
  ∃ h', split_block i h = Done h' ∧ core M w h' (split_tile i o B) A.
Proof.
  intros HC Hi HA Ho.
  destruct (core_lookup HC i o Hi) as (b&Hb&Hbo&Hbl&Hbw).
  destruct (core_tile HC i o Hi) as (HoM&Hi0&Hle).
  pose proof (c_order _ _ _ _ _ HC) as HM. pose proof (c_tiling _ _ _ _ _ HC) as HT.
  pose proof (pow2_pred o Ho) as Hp. assert (0 < 2 ^ (o - 1)) by lia.
  set (n := i + 2 ^ (o - 1)) in *.
  assert (B !! n = None) as Hn by by eapply split_tile_fresh.
  destruct (core_block HC n) as (bn&Hbn&Hbnw&Hbnl&_); [lia|].
  unfold split_block. rewrite (modify_spec _ _ _ _ Hb). cbn [mbind outcome_bind].
  rewrite lookup_insert_eq. cbn [deref mbind outcome_bind order set_order].
  rewrite Hbo, u8_small, one_shl_ok by lia. cbn [mbind outcome_bind].
  change (Z.lxor i (2 ^ (o - 1))) with (buddy_of i (o - 1)).
  rewrite (split_tile_buddy HT i o) by done. fold n.
  set (h1 := <[Block i := set_order (o - 1) b]> h).
  assert (Hbn1 : h1 !! Block n = Some bn).
  { subst h1. rewrite lookup_insert_ne; [done|]. intros [= E]. lia. }
  rewrite (modify_spec _ _ _ _ Hbn1). cbn [mbind outcome_bind].
  rewrite lookup_insert_eq. cbn [deref mbind outcome_bind order set_order is_waste].
  set (h2 := <[Block n := set_order (o - 1) bn]> h1).
  assert (HC2 : core M w h2 (split_tile i o B) ({[n]} ∪ A)).
  { split; [done|by apply split_tiling| | |].
    - unfold split_tile. fold n. rewrite !dom_insert. pose proof (c_alloc _ _ _ _ _ HC). set_solver.
    - intros j Hj. destruct (core_block HC j Hj) as (bj&Hbj&Hwj&Hlj&Hoj). subst h2 h1.
      unfold block_ok, split_tile. fold n.
      destruct (decide (j = n)) as [->|]; [|destruct (decide (j = i)) as [->|]].
      + exists (set_order (o - 1) bn). rewrite lookup_insert_eq. simpl. split_and!; [done|done| |].
        * rewrite Hbnl. apply bool_decide_ext. rewrite !dom_insert. rewrite elem_of_difference, elem_of_dom, Hn. set_solver.
        * intros o'. rewrite lookup_insert_eq. congruence.
      + exists (set_order (o - 1) b). rewrite lookup_insert_ne, lookup_insert_eq by congruence.
        simpl. split_and!; [done|by auto| |].
        * rewrite Hbl. apply bool_decide_ext. set_solver.
        * intros o'. rewrite lookup_insert_ne, lookup_insert_eq by done. congruence.
      + exists bj. rewrite !lookup_insert_ne by congruence. split_and!; [done|done| |].
        * rewrite Hlj. apply bool_decide_ext. rewrite !dom_insert. set_solver.
        * done.
    - eapply lists_ext; [|eapply lists_data_write; [done|done|done|];
        eapply lists_data_write; [done|done|done|apply HC]].
      apply location_retile; unfold split_tile; fold n; [|set_solver|set_solver].
      intros j ??. rewrite !lookup_insert_ne by set_solver. done. }
  destruct (core_give HC2 n (o - 1)) as (h3&E3&HC3).
  { unfold split_tile. fold n. by rewrite lookup_insert_eq. } { set_solver. }
  exists h3. replace (({[n]} ∪ A) ∖ {[n]}) with A in HC3.
  2:{ assert (n ∉ A); [|set_solver]. intros [? ?]%(c_alloc _ _ _ _ _ HC n)%elem_of_dom. congruence. }
  split; [|done]. rewrite <-E3. unfold head_of.
  rewrite Hbnw by lia. destruct (Z.ltb_spec n w), (Z.leb_spec w n); try lia; done.
Qed.

(** The order field of a merged pair of tiles that are both out of the lists. *)
Lemma core_merge_pair M w h B A i o b :
  core M w h B A → B !! i = Some o → B !! buddy_of i o = Some o → o < M →
  i ∈ A → buddy_of i o ∈ A → h !! Block (Z.min i (buddy_of i o)) = Some b →
  core M w (<[Block (Z.min i (buddy_of i o)) := set_order (o + 1) b]> h) (merge_tile i o B)
    ({[Z.min i (buddy_of i o)]} ∪ A ∖ {[i; buddy_of i o]}).
Proof.
  intros HC Hi Hb HoM HAi HAb Hm. destruct (core_tile HC i o Hi) as (?&?&?).
  destruct HC as [HM HT Hal HF HL]. pose proof (merge_tiling HT i o Hi Hb HoM) as HT'.
  unfold merge_tile in *. set (m := Z.min i (buddy_of i o)) in *.
  set (x := Z.max i (buddy_of i o)) in *.
  assert (m ≠ x ∧ {[i; buddy_of i o]} = ({[m; x]} : gset Z) ∧ m ∈ A ∧ x ∈ A ∧ B !! m = Some o)
    as (Hmx&Hset&HmA&HxA&Hmo).
  { assert (0 < 2 ^ o) by lia.
    pose proof (t_ok _ _ HT _ _ Hi) as (_&?&?&_).
    destruct (buddy_of_cases i o) as [[E _]|(E&_&_)]; try done; try lia; subst m x.
    - rewrite Z.min_l, Z.max_r by lia. split_and!; [lia|set_solver|done..].
    - rewrite Z.min_r, Z.max_l by lia. split_and!; [lia|set_solver|done..]. }
  rewrite Hset. split; [done|done| | |].
  - rewrite dom_insert, dom_delete. set_solver.
  - intros j Hj. destruct (HF j Hj) as (bj&Hbj&Hw&Hl&Hoj). unfold block_ok.
    destruct (decide (j = m)) as [->|Hjm].
    + replace bj with b in * by congruence. exists (set_order (o + 1) b).
      rewrite !lookup_insert_eq. split_and!; [done|done| |by intros o' [= <-]].
      simpl. rewrite Hl. apply bool_decide_ext. set_solver.
    + exists bj. rewrite !lookup_insert_ne by congruence. split_and!; [done|done| |].
      * rewrite Hl. apply bool_decide_ext. rewrite dom_insert, dom_delete. set_solver.
      * intros o' Ho'. apply lookup_delete_Some in Ho' as [_ ?]. auto.
  - eapply lists_ext; [|by eapply lists_data_write].
    apply location_retile.
    + intros j Hj1 Hj2. rewrite lookup_insert_ne, lookup_delete_ne; set_solver.
    + intros j HjA. destruct (decide (j = x)) as [->|].
      * left. by rewrite lookup_insert_ne, lookup_delete_eq.
      * right. destruct (decide (j = m)); set_solver.
    + intros j Hj. right. set_solver.
Qed.

(** [try_merge_buddy] merges exactly when the buddy is a listed tile of the
    same order, and otherwise changes nothing.  At the full order it reads the
    block one past the last one, which is never in a list. *)
Lemma core_try_merge M w p h B A i o :
  core M w h B A → u64 (pages p + max_order_waste p) = 2 ^ M →
  B !! i = Some o → i ∈ A →
  (o < M ∧ B !! buddy_of i o = Some o ∧ buddy_of i o ∉ A ∧
     ∃ h', try_merge_buddy p i h = Done (Some (Z.min i (buddy_of i o)), h') ∧
       core M w h' (merge_tile i o B) ({[Z.min i (buddy_of i o)]} ∪ A ∖ {[i]})) ∨
  ((o = M ∨ B !! buddy_of i o ≠ Some o ∨ buddy_of i o ∈ A) ∧
     try_merge_buddy p i h = Done (None, h)).
Proof.
  intros HC Hpg Hi HA. pose proof (c_order _ _ _ _ _ HC).
  pose proof (c_tiling _ _ _ _ _ HC) as HT.
  destruct (core_lookup HC i o Hi) as (b&Hb&Hbo&_&_).
  destruct (core_tile HC i o Hi) as (Ho&Hi0&Hle).
  unfold try_merge_buddy. bind_step Hb. rewrite Hbo, one_shl_ok by lia.
  cbn [mbind outcome_bind]. rewrite Hpg.
  change (Z.lxor i (2 ^ o)) with (buddy_of i o).
  destruct (decide (o = M)) as [->|HoM].
  - right. split; [by left|]. assert (i = 0) as -> by lia.
    unfold buddy_of. rewrite Z.lxor_0_l, Z.ltb_irrefl.
    destruct (core_block HC (2 ^ M)) as (bs&Hbs&_&Hl&_); [lia|]. bind_step Hbs.
    rewrite Hl, bool_decide_false, andb_false_r; [done|].
    rewrite elem_of_difference, elem_of_dom. intros [[o' Ho'] _].
    apply (core_tile_lt HC) in Ho'. done.
  - destruct (buddy_is_tile HT i o Hi) as (Hbr&o'&Hbo'&Hlo); [lia|].
    destruct (core_lookup HC _ _ Hbo') as (bb&Hbb&Hbbo&Hbbl&_).
    rewrite (proj2 (Z.ltb_ge _ _)) by lia. bind_step Hbb. rewrite Hbbo, Hbbl.
    destruct (decide (o' = o ∧ buddy_of i o ∉ A)) as [[-> HbA]|Hno].
    + left. split_and!; [lia|done|done|].
      rewrite Z.eqb_refl, bool_decide_true by done. simpl.
      destruct (core_take HC _ _ Hbo' HbA) as (h1&E1&HC1). bind_step E1.
      set (mi := if i <=? buddy_of i o then i else buddy_of i o).
      assert (mi = Z.min i (buddy_of i o)) as ->.
      { subst mi. destruct (Z.leb_spec i (buddy_of i o)); lia. }
      assert (B !! Z.min i (buddy_of i o) = Some o) as Hmo.
      { destruct (Z.min_spec i (buddy_of i o)) as [[_ ->]|[_ ->]]; done. }
      destruct (core_lookup HC1 _ _ Hmo) as (bm&Hbm&Hbmo&_).
      rewrite (modify_spec _ _ _ _ Hbm). cbn [mbind outcome_bind].
      rewrite Hbmo, u8_small by lia. eexists; split; [done|].
      apply (core_merge_pair _ _ _ _ _ i o bm) in HC1; [|done|done|lia|set_solver|set_solver|done].
      replace (({[buddy_of i o]} ∪ A) ∖ {[i; buddy_of i o]}) with (A ∖ {[i]}) in HC1 by set_solver.
      done.
    + right. assert ((o' =? o) && bool_decide (buddy_of i o ∉ A) = false) as ->.
      { apply andb_false_iff. rewrite Z.eqb_neq, bool_decide_eq_false. destruct (decide (o' = o)); tauto. }
      split; [|done]. right. destruct (decide (o' = o)) as [->|].
      * right. destruct (decide (buddy_of i o ∈ A)); tauto.
      * left. congruence.
Qed.

(** ** The pool invariant *)

(** First page that [init_pool] marks as waste. *)
Definition waste_start (p : memory_pool) : Z := pages p - max_order_waste p.

(** Numbers of pages and addresses of an initialised pool.  The waste pages do
    not underflow, and the pages end before the end of the address space. *)
Record geometry (p : memory_pool) : Prop := {
  g_pages : pages p + max_order_waste p = 2 ^ max_order p;
  g_waste : 0 <= max_order_waste p < pages p;
  g_start : 0 < pages_start p ∧ (PAGE_SIZE | pages_start p);
  g_end : pages_end p = pages_start p + pages p * PAGE_SIZE ∧ pages_end p < 2 ^ 64 }.

(** No listed tile has a listed buddy of the same order. *)
Definition coalesced (M : Z) (B : gmap Z Z) (A : gset Z) : Prop :=
  ∀ i o, B !! i = Some o → o < M → i ∉ A → B !! buddy_of i o = Some o → buddy_of i o ∈ A.

(** Pages of the tiles in [A]. *)
Definition tile_pages (B : gmap Z Z) (i : Z) : Z := 2 ^ default 0 (B !! i).
Definition allocated_pages (B : gmap Z Z) (A : gset Z) : Z :=
  foldr Z.add 0 (tile_pages B <$> elements A).

Record pool_inv (p : memory_pool) (B : gmap Z Z) (A : gset Z) : Prop := {
  pi_geom : geometry p;
  pi_core : core (max_order p) (waste_start p) (nodes p) B A;
  pi_usable i : i ∈ A → i < waste_start p;
  pi_coalesced : coalesced (max_order p) B A;
  pi_max_free : 0 <= max_order_free p <= max_order p ∧
    ∀ i o, B !! i = Some o → i ∉ A → i < waste_start p → o <= max_order_free p;
  pi_count : free_pages p = u64 (pages p - allocated_pages B A) }.

Lemma foldr_add_perm (xs ys : list Z) : xs ≡ₚ ys → foldr Z.add 0 xs = foldr Z.add 0 ys.
Proof. induction 1; simpl; lia. Qed.

Lemma allocated_pages_insert B A i :
  i ∉ A → allocated_pages B ({[i]} ∪ A) = tile_pages B i + allocated_pages B A.
Proof.
  intros Hi. unfold allocated_pages.
  rewrite (foldr_add_perm _ (tile_pages B <$> (i :: elements A))); [done|].
  by rewrite elements_union_singleton.
Qed.

Lemma allocated_pages_ext B B' A :
  (∀ i, i ∈ A → B' !! i = B !! i) → allocated_pages B' A = allocated_pages B A.
Proof.
  intros HB. unfold allocated_pages. f_equal. apply list_fmap_ext.
  intros k i Hk. unfold tile_pages. rewrite HB; [done|].
  apply elem_of_elements, list_elem_of_lookup. eauto.
Qed.

Lemma allocated_pages_remove B A i :
  i ∈ A → allocated_pages B A = tile_pages B i + allocated_pages B (A ∖ {[i]}).
Proof.
  intros Hi. rewrite <-allocated_pages_insert by set_solver. f_equal.
  apply set_eq. intros j. destruct (decide (j = i)); set_solver.
Qed.

Lemma u64_shift x y z : u64 x = u64 y → u64 (x + z) = u64 (y + z).
Proof. unfold wrap. intros E. rewrite <-Zplus_mod_idemp_l, E. apply Zplus_mod_idemp_l. Qed.

(** ** Deallocation *)

Lemma merge_tile_other i o B j oj :
  j ≠ Z.min i (buddy_of i o) → merge_tile i o B !! j = Some oj →
  B !! j = Some oj ∧ j ≠ i ∧ j ≠ buddy_of i o.
Proof.
  unfold merge_tile. intros ?. rewrite lookup_insert_ne by done.
  intros [? ?]%lookup_delete_Some. split; [done|lia].
Qed.

Lemma buddy_of_involutive i o : 0 <= o → buddy_of (buddy_of i o) o = i.
Proof. intros. unfold buddy_of. by rewrite Z.lxor_assoc, Z.lxor_nilpotent, Z.lxor_0_r. Qed.

Lemma merge_coalesced M B A i o :
  tiling M B → B !! i = Some o → o < M → buddy_of i o ∉ A → i ∈ A →
  coalesced M B A →
  coalesced M (merge_tile i o B) ({[Z.min i (buddy_of i o)]} ∪ A ∖ {[i]}).
Proof.
  intros HT Hi HoM HbA HiA Hco j oj Hj HojM HjA Hbj.
  destruct (decide (buddy_of j oj = Z.min i (buddy_of i o))) as [->|Hne]; [set_solver|].
  apply merge_tile_other in Hj as (Hj&Hji&Hjb); [|set_solver].
  apply merge_tile_other in Hbj as (Hbj&Hbji&_); [|done].
  assert (j ∉ A) by set_solver.
  pose proof (Hco j oj Hj HojM ltac:(done) Hbj). set_solver.
Qed.

(** The state between two merges: tile [i] of order [o] is in flight, every
    other tile is a tile of the original tiling [B0]. *)
Record in_flight (M w : Z) (h : gmap node buddy_block) (B0 B : gmap Z Z) (A : gset Z)
    (i0 i o : Z) : Prop := {
  if_core : core M w h B ({[i]} ∪ A);
  if_coalesced : coalesced M B ({[i]} ∪ A);
  if_fresh : i ∉ A;
  if_tile : B !! i = Some o;
  if_cover : i <= i0 < i + 2 ^ o;
  if_old j oj : j ≠ i → B !! j = Some oj → B0 !! j = Some oj;
  if_keep j : j ∈ A → B !! j = B0 !! j }.

Lemma in_flight_merge M w p h B0 B A i0 i o :
  in_flight M w h B0 B A i0 i o → u64 (pages p + max_order_waste p) = 2 ^ M →
  (o < M ∧ ∃ i' h' B', try_merge_buddy p i h = Done (Some i', h') ∧
     in_flight M w h' B0 B' A i0 i' (o + 1)) ∨
  ((o = M ∨ B !! buddy_of i o ≠ Some o ∨ buddy_of i o ∈ A) ∧
     try_merge_buddy p i h = Done (None, h)).
Proof.
  intros [HC Hco Hfr Hi Hcov Hold Hkeep] Hpg.
  destruct (core_tile HC i o Hi) as (Ho&Hi0&_).
  pose proof (c_tiling _ _ _ _ _ HC) as HT.
  destruct (t_ok _ _ HT _ _ Hi) as (_&_&Hdiv&_). assert (0 < 2 ^ o) by lia.
  destruct (core_try_merge M w p h B ({[i]} ∪ A) i o HC Hpg Hi) as [(HoM&Hb&HbA&h'&E&HC')|[Hno E]];
    [set_solver| |].
  - left. split; [done|]. exists (Z.min i (buddy_of i o)), h', (merge_tile i o B).
    split; [done|].
    assert (HA : {[Z.min i (buddy_of i o)]} ∪ ({[i]} ∪ A) ∖ {[i]} =
      {[Z.min i (buddy_of i o)]} ∪ A) by set_solver.
    split.
    + by rewrite <-HA.
    + rewrite <-HA. apply merge_coalesced; try done. set_solver.
    + destruct (Z.min_spec i (buddy_of i o)) as [[_ ->]|[_ ->]]; set_solver.
    + unfold merge_tile. by rewrite lookup_insert_eq.
    + rewrite pow2_succ by lia.
      destruct (buddy_of_cases i o) as [[-> _]|(->&_&_)]; try done; lia.
    + intros j oj Hj Hbj. apply merge_tile_other in Hbj as (Hbj&Hji&_); auto.
    + intros j Hj. unfold merge_tile. rewrite lookup_insert_ne, lookup_delete_ne; [by apply Hkeep|..].
      * destruct (Z.max_spec i (buddy_of i o)) as [[_ ->]|[_ ->]]; set_solver.
      * destruct (Z.min_spec i (buddy_of i o)) as [[_ ->]|[_ ->]]; set_solver.
  - right. split; [|done]. destruct Hno as [?|[?|Hin]]; [by left|by right; left|].
    right; right. apply elem_of_union in Hin as [Hin%elem_of_singleton|?]; [|done].
    destruct (buddy_of_cases i o) as [[E' _]|(E'&_&_)]; try done; lia.
Qed.

(** The merge loop terminates within its 32 iterations and stops at a tile
    that cannot be merged further. *)
Lemma merge_loop_spec M w p B0 A i0 fuel :
  ∀ h B i o, in_flight M w h B0 B A i0 i o → u64 (pages p + max_order_waste p) = 2 ^ M →
  M - o < Z.of_nat fuel →
  ∃ i' o' h' B', merge_loop fuel p i h = Done (i', h') ∧ in_flight M w h' B0 B' A i0 i' o' ∧
    (o' = M ∨ B' !! buddy_of i' o' ≠ Some o' ∨ buddy_of i' o' ∈ A).
Proof.
  induction fuel as [|fuel IH]; intros h B i o HI Hpg Hf.
  { destruct (core_tile (if_core _ _ _ _ _ _ _ _ _ HI) i o) as (?&_); [apply HI|]. lia. }
  cbn [merge_loop].
  destruct (in_flight_merge _ _ _ _ _ _ _ _ _ _ HI Hpg) as [(HoM&i'&h'&B'&E&HI')|[Hno E]].
  - bind_step E. apply (IH _ _ _ _ HI' Hpg). lia.
  - bind_step E. exists i, o, h, B. done.
Qed.

Lemma geometry_merge_bound p : geometry p → 0 <= max_order p < 31 →
  u64 (pages p + max_order_waste p) = 2 ^ max_order p.
Proof.
  intros HG HM. rewrite (g_pages _ HG). apply wrap_small. split; [lia|].
  apply Z.pow_lt_mono_r; lia.
Qed.

Lemma free_block_spec p B A i o :
  geometry p → core (max_order p) (waste_start p) (nodes p) B A →
  coalesced (max_order p) B A → B !! i = Some o → i ∈ A → i < waste_start p →
  0 <= max_order_free p <= max_order p →
  (∀ j oj, B !! j = Some oj → j ∉ A → j < waste_start p → oj <= max_order_free p) →
  ∃ h' mof B', free_block p i = Done (set_nodes h' (set_max_order_free mof p)) ∧
    core (max_order p) (waste_start p) h' B' (A ∖ {[i]}) ∧
    coalesced (max_order p) B' (A ∖ {[i]}) ∧
    0 <= mof <= max_order p ∧
    (∀ j oj, B' !! j = Some oj → j ∉ A ∖ {[i]} → j < waste_start p → oj <= mof) ∧
    (∀ j, j ∈ A ∖ {[i]} → B' !! j = B !! j).
Proof.
  intros HG HC Hco Hi HA Hw Hmof Hmax.
  pose proof (c_order _ _ _ _ _ HC) as HM.
  pose proof (geometry_merge_bound p HG HM) as Hpg.
  destruct (core_tile HC i o Hi) as (Ho&_&_). assert (0 < 2 ^ o) by lia.
  assert (HA' : {[i]} ∪ A ∖ {[i]} = A).
  { apply set_eq. intros j. destruct (decide (j = i)); set_solver. }
  destruct (merge_loop_spec (max_order p) (waste_start p) p B (A ∖ {[i]}) i 32 (nodes p) B i o)
    as (i'&o'&h1&B'&E1&[HC1 Hco1 Hfr Hi' Hcov Hold Hkeep]&Hend); [|done|lia|].
  { split; rewrite ?HA'; try done; [set_solver|lia]. }
  unfold free_block. bind_step E1.
  destruct (core_lookup HC1 i' o' Hi') as (b&Hb&Hbo&_&Hbw). bind_step Hb.
  destruct (core_give HC1 i' o' Hi') as (h2&E2&HC2); [set_solver|].
  destruct (core_tile HC1 i' o' Hi') as (Ho'&_&_).
  assert (i' < waste_start p) as Hiw by lia.
  replace (negb (is_waste b)) with true
    by (rewrite Hbw; destruct (Z.leb_spec (waste_start p) i'); [lia|done]).
  unfold head_of in E2. rewrite (proj2 (Z.ltb_lt _ _) Hiw) in E2. rewrite Hbo. bind_step E2.
  exists h2, (Z.max (max_order_free p) o'), B'.
  replace (({[i']} ∪ A ∖ {[i]}) ∖ {[i']}) with (A ∖ {[i]}) in HC2 by set_solver.
  split_and!; [done|done| |lia|lia| |done].
  - intros j oj Hj HojM HjA Hbj. destruct (decide (j = i')) as [->|Hji'].
    + assert (oj = o') as -> by congruence. destruct Hend as [?|[?|?]]; [lia|done|done].
    + destruct (decide (buddy_of j oj = i')) as [Hji|Hbi].
      * assert (oj = o') as -> by congruence.
        assert (buddy_of i' o' = j) as Hbb by (rewrite <-Hji; apply buddy_of_involutive; lia).
        rewrite Hbb in Hend. destruct Hend as [?|[?|?]]; [lia|done|done].
      * pose proof (Hco1 j oj Hj HojM ltac:(set_solver) Hbj). set_solver.
  - intros j oj Hj HjA Hjw. destruct (decide (j = i')) as [->|Hji'].
    + assert (oj = o') as -> by congruence. lia.
    + pose proof (Hold j oj Hji' Hj) as HBj. assert (j ≠ i).
      { intros ->. assert (i' ≠ i) by done.
        pose proof (t_disj _ _ (c_tiling _ _ _ _ _ HC1) _ _ _ _ Hi' Hj ltac:(done)).
        pose proof (tile_pos (c_tiling _ _ _ _ _ HC1) _ _ Hj). lia. }
      pose proof (Hmax j oj HBj ltac:(set_solver) Hjw). lia.
Qed.

(** ** Addresses *)

Lemma block_address p i : geometry p → 0 <= i < pages p →
  block_to_address p i = pages_start p + i * PAGE_SIZE ∧
  pages_start p <= block_to_address p i < pages_end p ∧
  address_to_block p (block_to_address p i) = i ∧
  ALIGN_PAGE_DOWN (block_to_address p i) = block_to_address p i.
Proof.
  intros [_ _ [Hs [q Hq]] [He Hlt]] Hi. unfold PAGE_SIZE in *.
  assert (E : block_to_address p i = pages_start p + i * 4096).
  { unfold block_to_address, PAGE_SIZE. apply wrap_small. split; lia. }
  rewrite E. split_and!; [done|lia|lia| |].
  - unfold address_to_block, PAGE_SIZE.
    replace (pages_start p + i * 4096 - pages_start p) with (i * 4096) by lia.
    rewrite wrap_small by (split; lia). apply Z.div_mul. done.
  - unfold ALIGN_PAGE_DOWN, ALIGN_DOWN, PAGE_SIZE. rewrite wrap_small by (split; lia).
    change (4096 - 1) with (2 ^ 12 - 1). rewrite land_align by (unfold fits; lia). rewrite Hq.
    change (2 ^ 12) with 4096. replace (q * 4096 + i * 4096) with ((q + i) * 4096) by lia.
    by rewrite Z.div_mul.
Qed.
