(* ===== verification/BuddyAlloc.v ===== *)
(** * Allocation and deallocation over the registered pools

    The operations of static-buddy.c on the global array of pools, proved
    against the pool invariant of BuddyTheory.v: allocation carves a fresh tile
    out of a free one, never takes a waste page, fails only when no usable tile
    is left, and deallocation is its inverse. *)

From S2P Require Import Prelude CircularList Bitops Buddy BuddyTiling BuddyTheory.

(** ** The order of a request *)

Lemma next_power_of_two_spec x : 1 <= x <= 2 ^ 63 → next_power_of_two x = 2 ^ Z.log2_up x.
Proof.
  intros Hx. unfold next_power_of_two. destruct (Z.leb_spec x 1).
  { by replace x with 1 by lia. }
  rewrite (smear_ones 6) by (unfold fits; simpl; lia).
  rewrite Z.ones_equiv, Z.log2_up_eqn by lia. unfold Z.pred, Z.succ.
  pose proof (Z.log2_nonneg (x + -1)).
  rewrite wrap_small; [replace (x - 1) with (x + -1) by lia; lia|].
  assert (Z.log2 (x - 1) < 63) by (apply Z.log2_lt_pow2; lia).
  pose proof (Z.log2_nonneg (x - 1)).
  assert (2 ^ (Z.log2 (x - 1) + 1) <= 2 ^ 63) by (apply Z.pow_le_mono_r; lia).
  split; lia.
Qed.

Lemma get_order_spec n : 1 <= n <= 2 ^ 63 → get_order n = Z.log2_up n.
Proof.
  intros Hn. unfold get_order. rewrite next_power_of_two_spec by done.
  pose proof (Z.log2_up_nonneg n).
  assert (Z.log2_up n <= 63).
  { change 63 with (Z.log2_up (2 ^ 63)). apply Z.log2_up_le_mono. lia. }
  rewrite (proj2 (Z.ltb_lt _ _)) by lia.
  unfold count_leading_unset_bits64, clz64, builtin_clz.
  rewrite (proj2 (Z.eqb_neq _ _)) by lia. rewrite Z.log2_pow2 by done.
  set (o := Z.log2_up n) in *.
  rewrite (wrap_small 32 (64 - 1 - o)) by (unfold fits; lia).
  replace (63 - (64 - 1 - o)) with o by lia.
  rewrite (wrap_small 32) by (unfold fits; lia). by apply wrap_small; unfold fits; lia.
Qed.

(** A request of [n] pages fits in a tile of its order. *)
Lemma get_order_bound n : 1 <= n <= 2 ^ 63 → 0 <= get_order n ∧ n <= 2 ^ get_order n.
Proof.
  intros Hn. rewrite get_order_spec by done. split; [apply Z.log2_up_nonneg|].
  destruct (decide (n = 1)) as [->|]; [done|]. apply Z.log2_up_spec. lia.
Qed.

(** ** Searching a free list *)

(** The last requested block of tile [i] is usable. *)
Definition fitting (w n i : Z) : Prop := i + n <= w.

#[global] Instance fitting_dec w n i : Decision (fitting w n i).
Proof. unfold fitting. apply _. Defined.

Lemma scan_list_spec M w h B A a n ys :
  core M w h B A → 0 <= a → 1 <= n <= 2 ^ a →
  (∀ i, i ∈ ys → B !! i = Some a) → ∀ zs fuel,
  lseg h (FreeList a) (Block <$> ys) (default (FreeList a) (head (Block <$> zs))) →
  (length ys < fuel)%nat →
  (∃ i, scan_list fuel (FreeList a) (default (FreeList a) (head (Block <$> zs))) n h = Done (Some i) ∧
     i ∈ ys ∧ fitting w n i) ∨
  (scan_list fuel (FreeList a) (default (FreeList a) (head (Block <$> zs))) n h = Done None ∧
     ∀ i, i ∈ ys → ¬ fitting w n i).
Proof.
  intros HC Ha Hn. induction ys as [|i ys IH] using rev_ind; intros Hys zs fuel Hl Hf.
  - destruct fuel as [|fuel]; [simpl in Hf; lia|]. right. split; [|set_solver].
    cbn [scan_list]. apply lseg_last in Hl. unfold prev_of in Hl.
    apply fmap_Some in Hl as (b&Hb&Hp). bind_step Hb.
    simpl in Hp. by rewrite bool_decide_true.
  - rewrite fmap_app in Hl. simpl in Hl. rewrite lseg_app in Hl. destruct Hl as [Hl Hi].
    rewrite length_app in Hf. simpl in Hf. destruct fuel as [|fuel]; [lia|].
    cbn [scan_list]. destruct Hi as [_ Hp]. unfold prev_of in Hp.
    apply fmap_Some in Hp as (b&Hb&Hp). bind_step Hb. simpl in Hp. rewrite <-Hp.
    rewrite bool_decide_false by done.
    assert (B !! i = Some a) as Hia by (apply Hys; set_solver).
    destruct (core_tile HC i a Hia) as (Ho&Hi0&Hle). pose proof (c_order _ _ _ _ _ HC).
    assert (2 ^ M < 2 ^ 31) by (apply Z.pow_lt_mono_r; lia).
    rewrite wrap_small by (split; lia).
    destruct (core_block HC (i + n - 1)) as (lb&Hlb&Hw&_); [lia|]. bind_step Hlb.
    rewrite Hw by lia. destruct (Z.leb_spec w (i + n - 1)); simpl.
    + destruct (IH ltac:(set_solver) (i :: zs) fuel Hl ltac:(lia)) as [(j&E&Hj&?)|[E Hno]].
      * left. exists j. split_and!; [done|set_solver|done].
      * right. split; [done|]. intros j [Hj| ->%list_elem_of_singleton]%elem_of_app; [by apply Hno|].
        unfold fitting. lia.
    + left. exists i. split_and!; [done|set_solver|]. unfold fitting. lia.
Qed.

Lemma location_free w B A i a :
  location w B A i = Some (FreeList a) ↔ B !! i = Some a ∧ i ∉ A ∧ i < w.
Proof.
  unfold location, head_of. destruct (B !! i) as [o|]; [|naive_solver].
  case_decide; [naive_solver|]. destruct (Z.ltb_spec i w); naive_solver lia.
Qed.

Lemma dll_length (h : gmap node buddy_block) l xs : dll h l xs → (length xs < S (size h))%nat.
Proof.
  intros Hd. pose proof Hd as [_ [_ Hnd]%NoDup_cons].
  rewrite <-size_dom, <-(size_list_to_set (C := gset node)) by done.
  apply Nat.lt_succ_r, subseteq_size. intros x Hx%elem_of_list_to_set.
  apply elem_of_dom, (dll_dom _ _ _ _ Hd). set_solver.
Qed.

(** Outcome of a search among tiles of order at least [a]: a fitting free tile
    taken out of its list, or nothing when there is none. *)
Definition search_result (M w : Z) (B : gmap Z Z) (A : gset Z) (a n : Z) (h : gmap node buddy_block)
    (r : outcome (option Z * gmap node buddy_block)) : Prop :=
  (∃ i o h', r = Done (Some i, h') ∧ B !! i = Some o ∧ i ∉ A ∧ a <= o ∧ fitting w n i ∧
     core M w h' B ({[i]} ∪ A)) ∨
  (r = Done (None, h) ∧ ∀ i o, B !! i = Some o → i ∉ A → a <= o → ¬ fitting w n i).

Lemma pool_find_block_from_spec M w h B A n k a :
  core M w h B A → 0 <= a → 1 <= n <= 2 ^ a → a + Z.of_nat k = M + 1 →
  search_result M w B A a n h (pool_find_block_from k a n h).
Proof.
  intros HC. revert a; induction k as [|k IH]; intros a Ha Hn Hk.
  { right. split; [done|]. intros i o Hi. destruct (core_tile HC i o Hi). lia. }
  cbn [pool_find_block_from].
  destruct (c_lists _ _ _ _ _ HC (FreeList a)) as (xs&Hd&Hx); [right; exists a; split; [done|lia]|].
  assert (Hxs : ∀ i, i ∈ xs ↔ B !! i = Some a ∧ i ∉ A ∧ i < w).
  { intros i. by rewrite Hx, location_free. }
  pose proof (dll_length _ _ _ Hd) as Hlen. rewrite length_fmap in Hlen.
  destruct (scan_list_spec M w h B A a n xs HC Ha Hn ltac:(intros i Hi; by apply Hxs) [] (S (size h)))
    as [(i&E&Hi&Hfit)|[E Hno]]; [apply Hd|done| |]; cbn [fmap list_fmap head from_option] in E; bind_step E.
  - apply Hxs in Hi as (Hi&HiA&_). destruct (core_take HC i a Hi HiA) as (h'&E'&HC'). bind_step E'.
    left. exists i, a, h'. split_and!; try done; lia.
  - destruct (IH (a + 1)) as [(i&o&h'&?&?&?&?&?&?)|[E' Hno']]; [lia| |lia| |].
    + rewrite pow2_succ by done. lia.
    + left. exists i, o, h'. split_and!; try done; lia.
    + right. split; [done|]. intros i o Hi HiA Hao Hfit.
      destruct (decide (o = a)) as [->|]; [|apply (Hno' i o); try done; lia].
      apply (Hno i); [|done]. apply Hxs. unfold fitting in Hfit. split_and!; try done; lia.
Qed.

Lemma pool_find_block_spec p B A a n :
  core (max_order p) (waste_start p) (nodes p) B A → 0 <= a <= max_order p → 1 <= n <= 2 ^ a →
  search_result (max_order p) (waste_start p) B A a n (nodes p) (pool_find_block p a n).
Proof. intros HC Ha Hn. apply pool_find_block_from_spec; try done; lia. Qed.

(** ** Carving the request out of a tile *)

(** [split_loop] cuts tile [i] down to order [a]; every tile it creates is
    free and not mergeable, and the other tiles are untouched. *)
Lemma split_loop_spec M w A i a : 0 <= a → ∀ fuel h B o,
  core M w h B A → B !! i = Some o → i ∈ A → a <= o → o - a < Z.of_nat fuel →
  coalesced M B A →
  ∃ h' B', split_loop fuel i a h = Done h' ∧ core M w h' B' A ∧ B' !! i = Some a ∧
    coalesced M B' A ∧
    (∀ j oj, j ≠ i → B' !! j = Some oj → B !! j = Some oj ∨ (j ∉ A ∧ oj < o)) ∧
    (∀ j, j ≠ i → j ∈ A → B' !! j = B !! j).
Proof.
  intros Ha. induction fuel as [|fuel IH]; intros h B o HC Hi HiA Hao Hf Hco; [lia|].
  cbn [split_loop]. destruct (core_lookup HC i o Hi) as (b&Hb&Hbo&_). bind_step Hb. rewrite Hbo.
  destruct (Z.ltb_spec a o) as [Hlt|]; cycle 1.
  { exists h, B. replace a with o by lia. split_and!; auto. }
  destruct (core_split _ _ _ _ _ _ _ HC Hi HiA) as (h1&E1&HC1); [lia|]. bind_step E1.
  pose proof (c_tiling _ _ _ _ _ HC) as HT. pose proof (c_alloc _ _ _ _ _ HC) as HA.
  assert (B !! (i + 2 ^ (o - 1)) = None) as Hfresh by (apply (split_tile_fresh HT); [done|lia]).
  assert (0 < 2 ^ (o - 1)) by lia.
  assert (i + 2 ^ (o - 1) ∉ A) as HnA.
  { intros [? Hx]%HA%elem_of_dom. congruence. }
  assert (Hlk : ∀ j, split_tile i o B !! j =
    if decide (j = i + 2 ^ (o - 1)) then Some (o - 1) else if decide (j = i) then Some (o - 1) else B !! j).
  { intros j. unfold split_tile. rewrite !lookup_insert. repeat case_decide; congruence. }
  destruct (IH h1 (split_tile i o B) (o - 1) HC1) as (h'&B'&E'&HC'&Hi'&Hco'&Hold&Hkeep).
  - rewrite Hlk. resolve_decide. by repeat case_decide.
  - done.
  - lia.
  - lia.
  - intros j oj Hj HojM HjA Hbj. rewrite Hlk in Hj, Hbj.
    destruct (decide (j = i + 2 ^ (o - 1))) as [->|Hjn].
    + injection Hj as <-. replace (buddy_of (i + 2 ^ (o - 1)) (o - 1)) with i; [done|].
      rewrite <-(split_tile_buddy HT i o), buddy_of_involutive by (done || lia). done.
    + destruct (decide (j = i)) as [->|]; [done|].
      destruct (decide (buddy_of j oj = i + 2 ^ (o - 1))) as [Hbe|].
      * injection Hbj as <-. exfalso. apply Hjn.
        assert (j = i) as ->; [|done].
        rewrite <-(buddy_of_involutive j (o - 1)), Hbe by lia.
        rewrite <-(split_tile_buddy HT i o), buddy_of_involutive by (done || lia). done.
      * destruct (decide (buddy_of j oj = i)) as [->|]; [done|]. by apply (Hco j oj).
  - exists h', B'. split_and!; try done.
    + intros j oj Hji Hj. destruct (Hold j oj Hji Hj) as [Hs|[? ?]]; [|right; split; [done|lia]].
      rewrite Hlk in Hs. destruct (decide (j = i + 2 ^ (o - 1))) as [->|].
      * right. injection Hs as <-. split; [done|lia].
      * destruct (decide (j = i)); [done|]. by left.
    + intros j Hji HjA. rewrite Hkeep, Hlk by done. by resolve_decide.
Qed.

(** ** The bookkeeping of a pool *)

Definition free_bound (w : Z) (B : gmap Z Z) (A : gset Z) (m : Z) : Prop :=
  ∀ i o, B !! i = Some o → i ∉ A → i < w → o <= m.

Lemma lower_max_order_spec M w h B A : core M w h B A → ∀ fuel m,
  0 <= m <= M → m < Z.of_nat fuel → free_bound w B A m →
  ∃ m', lower_max_order fuel m h = Done m' ∧ 0 <= m' <= m ∧ free_bound w B A m'.
Proof.
  intros HC. induction fuel as [|fuel IH]; intros m Hm Hf Hb; [lia|]. cbn [lower_max_order].
  destruct (Z.eqb_spec m 0) as [->|]; [eauto with lia|].
  destruct (c_lists _ _ _ _ _ HC (FreeList m)) as (xs&Hd&Hx); [right; exists m; split; [done|lia]|].
  rewrite (list_empty_spec _ _ _ Hd). cbn [mbind outcome_bind].
  case_bool_decide as Hnil; [|eauto with lia].
  apply fmap_nil_inv in Hnil as ->.
  destruct (IH (m - 1)) as (m'&E&?&Hb'); [lia|lia| |exists m'; split_and!; try done; lia].
  intros i o Hi HiA Hw. pose proof (Hb i o Hi HiA Hw).
  destruct (decide (o = m)) as [->|]; [|lia]. exfalso.
  assert (i ∈ []) as Hin by (apply Hx, location_free; done). by apply elem_of_nil in Hin.
Qed.

Lemma core_set_type M w h B A i t b :
  core M w h B A → h !! Block i = Some b → core M w (<[Block i := set_type t b]> h) B A.
Proof.
  intros [HM HT HA HF HL] Hb. split; try done.
  - eapply fields_step; [by apply (fields_upd_insert i (set_type t))| |done].
    intros j b' _ Hok. by case_decide.
  - by apply (lists_data_write _ _ _ _ (set_type t)).
Qed.

Lemma coalesced_take M B A i : coalesced M B A → coalesced M B ({[i]} ∪ A).
Proof. intros Hco j oj Hj Ho HjA Hb. pose proof (Hco j oj Hj Ho ltac:(set_solver) Hb). set_solver. Qed.

Lemma geometry_update p h n m : geometry p → geometry (set_nodes h (set_free_pages n (set_max_order_free m p))).
Proof. by intros []. Qed.

Lemma waste_start_update p h n m :
  waste_start (set_nodes h (set_free_pages n (set_max_order_free m p))) = waste_start p.
Proof. done. Qed.

(** The part of [buddy_allocate] that follows a successful search. *)
Lemma pool_carve (fuel : nat) p B A h i o a n ty :
  (31 < fuel)%nat → pool_inv p B A → B !! i = Some o → i ∉ A → 0 <= a <= o → 1 <= n → fitting (waste_start p) n i →
  core (max_order p) (waste_start p) h B ({[i]} ∪ A) →
  ∃ h' m b B', split_loop fuel i a h = Done h' ∧
    lower_max_order fuel (max_order_free p) h' = Done m ∧
    h' !! Block i = Some b ∧ order b = a ∧ one_shl a = Done (2 ^ a) ∧
    pool_inv (set_nodes (<[Block i := set_type ty b]> h')
      (set_free_pages (u64 (free_pages p - 2 ^ a)) (set_max_order_free m p))) B' ({[i]} ∪ A) ∧
    B' !! i = Some a ∧ (∀ j, j ∈ A → B' !! j = B !! j).
Proof.
  intros Hfuel [HG _ Hus Hco [Hm0 Hm] Hcnt] Hi HiA Ha Hn Hfit HC. unfold fitting in Hfit.
  pose proof (c_order _ _ _ _ _ HC). destruct (core_tile HC i o Hi) as (Ho&_&_).
  destruct (split_loop_spec _ _ _ i a ltac:(lia) fuel h B o HC Hi)
    as (h'&B'&E1&HC'&Hi'&Hco'&Hold&Hkeep'); [set_solver|lia|lia|by apply coalesced_take|].
  assert (Hkeep : ∀ j, j ∈ A → B' !! j = B !! j).
  { intros j Hj. apply Hkeep'; [congruence|set_solver]. }
  assert (Hfb : free_bound (waste_start p) B' ({[i]} ∪ A) (max_order_free p)).
  { intros j oj Hj [Hji HjA]%not_elem_of_union Hjw. rewrite not_elem_of_singleton in Hji.
    destruct (Hold j oj) as [Hb|[_ Hlt]]; [done|done| |].
    - by apply (Hm j oj).
    - assert (o <= max_order_free p) by (apply (Hm i o); [done|done|lia]). lia. }
  destruct (lower_max_order_spec _ _ _ _ _ HC' fuel (max_order_free p)) as (m&E2&Hm'&Hfb'); [lia|lia|done|].
  destruct (core_lookup HC' i a Hi') as (b&Hb&Hbo&_).
  exists h', m, b, B'. split_and!; try done; [by apply one_shl_ok; lia|].
  - split; rewrite ?waste_start_update; cbn [max_order nodes set_nodes set_free_pages set_max_order_free].
    + by apply geometry_update.
    + by apply core_set_type.
    + intros j [->%elem_of_singleton|?]%elem_of_union; [lia|by apply Hus].
    + done.
    + split; [simpl; lia|done].
    + simpl. rewrite allocated_pages_insert by done. unfold tile_pages at 1. rewrite Hi'. simpl.
      rewrite (allocated_pages_ext B B') by done.
      rewrite Hcnt. unfold wrap. rewrite Zminus_mod_idemp_l. f_equal. lia.
Qed.

(** ** All pools *)

(** The specification state of a pool: its tiling and its allocated tiles. *)
Abbreviation pool_state := (gmap Z Z * gset Z)%type.

Record pools_inv (pools : list memory_pool) (gs : list pool_state) : Prop := {
  ps_pools : Forall2 (λ p g, pool_inv p g.1 g.2) pools gs;
  ps_apart j k p q : pools !! j = Some p → pools !! k = Some q → j ≠ k →
    pages_end p <= pages_start q ∨ pages_end q <= pages_start p }.

Lemma pools_inv_lookup pools gs k p :
  pools_inv pools gs → pools !! k = Some p → ∃ B A, gs !! k = Some (B, A) ∧ pool_inv p B A.
Proof.
  intros [HF _] Hp. eapply Forall2_lookup_l in HF as ([B A]&?&?); [|done]. eauto.
Qed.

Lemma pools_inv_update pools gs k p p' B' A' :
  pools_inv pools gs → pools !! k = Some p → pool_inv p' B' A' →
  pages_start p' = pages_start p → pages_end p' = pages_end p →
  pools_inv (<[k := p']> pools) (<[k := (B', A')]> gs).
Proof.
  intros [HF Hap] Hp Hinv Hs He. split; [by apply Forall2_insert|].
  assert (Hlk : ∀ j q, <[k := p']> pools !! j = Some q → ∃ q', pools !! j = Some q' ∧
    pages_start q = pages_start q' ∧ pages_end q = pages_end q').
  { intros j q Hq. destruct (decide (j = k)) as [->|].
    - rewrite list_lookup_insert_eq in Hq by (by eapply lookup_lt_Some). simplify_eq. eauto.
    - rewrite list_lookup_insert_ne in Hq by done. eauto. }
  intros j j' q q' (q1&Hq1&->&->)%Hlk (q2&Hq2&->&->)%Hlk Hne. by eapply Hap.
Qed.

Lemma first_pool_spec P l : ∀ s,
  match first_pool P s l with
  | Some k => ∃ p j, k = (s + j)%nat ∧ l !! j = Some p ∧ P p = true ∧
      ∀ j' q, (j' < j)%nat → l !! j' = Some q → P q = false
  | None => ∀ j q, l !! j = Some q → P q = false
  end.
Proof.
  induction l as [|p l IH]; intros s; simpl; [done|]. destruct (P p) eqn:HP.
  - exists p, 0%nat. split_and!; [lia|done|done|]. intros; lia.
  - specialize (IH (S s)). destruct (first_pool P (S s) l) as [k|].
    + destruct IH as (q&j&->&Hj&Hq&Hno). exists q, (S j). split_and!; [lia|done|done|].
      intros [|j'] q' ?; simpl; [naive_solver|]. apply Hno. lia.
    + intros [|j] q; simpl; [naive_solver|apply IH].
Qed.

(** A pool [buddy_allocate] considers for a request of [n] pages. *)
Definition eligible (p : memory_pool) (size a n : Z) : Prop :=
  a <= max_order_free p ∧ n <= free_pages p ∧
  ¬ (a = max_order p ∧ u32 (2 ^ a - max_order_waste p) < size).

Definition search_failed (size a n : Z) (from : nat) (pools : list memory_pool) (gs : list pool_state) : Prop :=
  ∀ k p B A i o, (from <= k)%nat → pools !! k = Some p → gs !! k = Some (B, A) →
    eligible p size a n → B !! i = Some o → i ∉ A → a <= o → ¬ fitting (waste_start p) n i.

Lemma find_pool_spec from a n pools :
  match find_pool from a n pools with
  | Some k => ∃ p, (from <= k)%nat ∧ pools !! k = Some p ∧ a <= max_order_free p ∧ n <= free_pages p ∧
      ∀ j q, (from <= j < k)%nat → pools !! j = Some q → ¬ (a <= max_order_free q ∧ n <= free_pages q)
  | None => ∀ j q, (from <= j)%nat → pools !! j = Some q → ¬ (a <= max_order_free q ∧ n <= free_pages q)
  end.
Proof.
  unfold find_pool.
  pose proof (first_pool_spec (λ p, (a <=? max_order_free p) && (n <=? free_pages p))
    (drop from pools) from) as HF.
  assert (Hf : ∀ q, (a <=? max_order_free q) && (n <=? free_pages q) = false →
    ¬ (a <= max_order_free q ∧ n <= free_pages q)).
  { intros q E%andb_false_iff [??]. rewrite !Z.leb_gt in E. lia. }
  destruct (first_pool _ _ _) as [k|].
  - destruct HF as (p&j&->&Hp&HP&Hno). rewrite lookup_drop in Hp. apply andb_true_iff in HP as [??].
    rewrite !Z.leb_le in *. exists p. split_and!; try done; [lia|].
    intros j' q Hj Hq. apply Hf, (Hno (j' - from)%nat); [lia|]. rewrite lookup_drop.
    rewrite <-Hq. f_equal. lia.
  - intros j q Hj Hq. apply Hf, (HF (j - from)%nat). rewrite lookup_drop.
    rewrite <-Hq. f_equal. lia.
Qed.

Lemma set_nodes_id p : set_nodes (nodes p) p = p.
Proof. by destruct p. Qed.

Lemma search_failed_weaken size a n from k pools gs :
  search_failed size a n (S from) pools gs →
  (∀ j q, (from <= j < k)%nat → pools !! j = Some q → ¬ (a <= max_order_free q ∧ n <= free_pages q)) →
  (k = from → ∀ p B A i o, pools !! k = Some p → gs !! k = Some (B, A) → eligible p size a n →
     B !! i = Some o → i ∉ A → a <= o → ¬ fitting (waste_start p) n i) →
  (from <= k)%nat →
  search_failed size a n from pools gs.
Proof.
  intros Hf Hlt Heq Hle j p B A i o Hj Hp Hg Hel. destruct (decide (S from <= j)%nat); [by eapply Hf|].
  assert (j = from) as -> by lia. destruct (decide (k = from)) as [->|]; [by eapply Heq|].
  destruct (Hlt from p); [lia|done|]. split; apply Hel.
Qed.

Lemma find_block_loop_spec size a n pools gs :
  pools_inv pools gs → 0 <= a → 1 <= n <= 2 ^ a → ∀ k from,
  (from + k = length pools)%nat →
  (∃ pi p B A i o h, find_block_loop k from size a n pools = Done (Some (pi, i), <[pi := set_nodes h p]> pools) ∧
     pools !! pi = Some p ∧ gs !! pi = Some (B, A) ∧ pool_inv p B A ∧
     B !! i = Some o ∧ i ∉ A ∧ a <= o ∧ fitting (waste_start p) n i ∧
     core (max_order p) (waste_start p) h B ({[i]} ∪ A) ∧ pool_find_block p a n = Done (Some i, h)) ∨
  (find_block_loop k from size a n pools = Done (None, pools) ∧ search_failed size a n from pools gs).
Proof.
  intros HI Ha Hn. induction k as [|k IH]; intros from Hk; cbn [find_block_loop].
  { right. split; [done|]. intros j p B A i o ? ?%lookup_lt_Some. lia. }
  pose proof (find_pool_spec from a n pools) as Hfp. destruct (find_pool from a n pools) as [pi|].
  2:{ right. split; [done|]. intros j p B A i o Hj Hp _ [Hm [Hfree _]] _ _ _.
      exfalso. by apply (Hfp j p). }
  destruct Hfp as (p&Hfrom&Hp&Hm&Hfree&Hno). bind_step Hp.
  destruct (pools_inv_lookup _ _ _ _ HI Hp) as (B&A&Hg&Hinv).
  pose proof (pi_core _ _ _ Hinv) as HC. pose proof (c_order _ _ _ _ _ HC).
  pose proof (proj1 (pi_max_free _ _ _ Hinv)).
  assert (Hel : (if a =? max_order p then bit ← one_shl a; Done (u32 (bit - max_order_waste p) <? size)
      else Done false) = Done (bool_decide (a = max_order p ∧ u32 (2 ^ a - max_order_waste p) < size))).
  { destruct (Z.eqb_spec a (max_order p)) as [E|].
    - rewrite one_shl_ok by lia. cbn [mbind outcome_bind]. f_equal.
      destruct (Z.ltb_spec (u32 (2 ^ a - max_order_waste p)) size); symmetry;
        [by apply bool_decide_true|apply bool_decide_false; lia].
    - by rewrite bool_decide_false by naive_solver. }
  bind_step Hel. case_bool_decide as Htl.
  - destruct (IH (S from)) as [?|[E Hf]]; [lia|by left|]. right. split; [done|].
    eapply search_failed_weaken; eauto. intros -> p' B' A' i o Hp' _ [_ [_ Hn']]. simplify_eq. done.
  - destruct (pool_find_block_spec p B A a n HC) as [(i&o&h&E&Hi&HiA&Ho&Hfit&HC')|[E Hno']]; [lia|done| |];
      rewrite E; cbn [mbind outcome_bind].
    + left. by exists pi, p, B, A, i, o, h.
    + rewrite set_nodes_id, list_insert_id by done.
      destruct (IH (S from)) as [?|[E' Hf]]; [lia|by left|]. right. split; [done|].
      eapply search_failed_weaken; eauto. intros -> p' B' A' i o Hp' Hg' _. simplify_eq. apply Hno'.
Qed.
