(* ===== verification/BuddyRegions.v ===== *)
(** * The buddy allocator as a store of disjoint regions

    The abstract state of the page allocator is a finite map from addresses to
    live regions.  [represents] relates it to the pools of static-buddy.c; the
    theorems at the end show that every operation of the C code refines the
    corresponding operation on the map. *)

From S2P Require Import Prelude CircularList Bitops Buddy BuddyTiling BuddyTheory BuddyAlloc.

(** ** The [type] field is only changed where the code assigns it *)

Definition same_types (h h' : gmap node buddy_block) : Prop :=
  ∀ k, btype <$> h' !! k = btype <$> h !! k.

#[global] Instance same_types_preorder : PreOrder same_types.
Proof.
  split; [by intros h k|]. intros h1 h2 h3 H1 H2 k. by rewrite H2.
Qed.

Lemma same_types_insert k b b' h :
  h !! k = Some b → btype b' = btype b → same_types h (<[k := b']> h).
Proof.
  intros Hb Ht j. rewrite lookup_insert. case_decide; subst; [|done]. rewrite Hb. simpl. by rewrite Ht.
Qed.

Lemma modify_types k f h h' :
  (∀ b, btype (f b) = btype b) → modify k f h = Done h' → same_types h h'.
Proof. intros Hf E. unfold modify in E. inv_outcome. by eapply same_types_insert. Qed.

Lemma put_next_types k x h h' : put_next k x h = Done h' → same_types h h'.
Proof. unfold put_next. intros E. inv_outcome. by eapply same_types_insert. Qed.

Lemma put_prev_types k x h h' : put_prev k x h = Done h' → same_types h h'.
Proof. unfold put_prev. intros E. inv_outcome. by eapply same_types_insert. Qed.

(** Turn every step of a successful computation into a [same_types] fact and
    chain the facts. *)
Ltac step_types :=
  repeat match goal with
  | H : put_next _ _ _ = Done _ |- _ => apply put_next_types in H
  | H : put_prev _ _ _ = Done _ |- _ => apply put_prev_types in H
  | H : modify _ _ _ = Done _ |- _ => apply modify_types in H; [|done]
  end;
  repeat match goal with
  | H : same_types ?a _ |- same_types ?a _ => first [exact H | etransitivity; [exact H|]]
  end.

Lemma push_back_types l e h h' : buddy_list_push_back l e h = Done h' → same_types h h'.
Proof.
  unfold buddy_list_push_back, list_push_back. intros E. inv_outcome. step_types.
Qed.

Lemma remove_types e h h' : buddy_list_remove e h = Done h' → same_types h h'.
Proof.
  unfold buddy_list_remove, list_remove. intros E. inv_outcome. step_types.
Qed.

Ltac list_types :=
  repeat match goal with
  | H : buddy_list_push_back _ _ _ = Done _ |- _ => apply push_back_types in H
  | H : buddy_list_remove _ _ = Done _ |- _ => apply remove_types in H
  end; step_types.

Lemma split_block_types i h h' : split_block i h = Done h' → same_types h h'.
Proof.
  unfold split_block. intros E. inv_outcome. destruct (negb _); list_types.
Qed.

Lemma split_loop_types fuel i a : ∀ h h', split_loop fuel i a h = Done h' → same_types h h'.
Proof.
  induction fuel as [|fuel IH]; intros h h' E; cbn [split_loop] in E; [done|].
  inv_outcome. destruct (a <? _); inv_outcome; [|done].
  etrans; [by eapply split_block_types|by apply IH].
Qed.

Lemma try_merge_types p i h r h' : try_merge_buddy p i h = Done (r, h') → same_types h h'.
Proof.
  unfold try_merge_buddy. intros E. inv_outcome. destruct (_ <? _); inv_outcome; [by simplify_eq|].
  destruct (_ && _); inv_outcome; simplify_eq; [list_types|done].
Qed.

Lemma merge_loop_types fuel p : ∀ i h i' h', merge_loop fuel p i h = Done (i', h') → same_types h h'.
Proof.
  induction fuel as [|fuel IH]; intros i h i' h' E; cbn [merge_loop] in E; [done|].
  inv_outcome. destruct a as [[m|] h1]; simplify_eq; [|by eapply try_merge_types].
  etrans; [by eapply try_merge_types|by eapply IH].
Qed.

Lemma free_block_types p i p' : free_block p i = Done p' → same_types (nodes p) (nodes p').
Proof.
  unfold free_block. intros E. inv_outcome. destruct a as [fb h]. inv_outcome.
  apply merge_loop_types in Ha. destruct (negb _); inv_outcome; list_types.
Qed.

(** ** Live regions *)

Record region := Region { rg_order : Z; rg_len : Z; rg_type : block_type }.

#[global] Instance region_eq_dec : EqDecision region.
Proof. solve_decision. Defined.

(** The region of allocated tile [i]: [rg_len] is the part of the tile that
    lies inside the pool, in bytes. *)
Definition pool_live (p : memory_pool) (B : gmap Z Z) (A : gset Z) (a : Z) (r : region) : Prop :=
  ∃ i, i ∈ A ∧ B !! i = Some (rg_order r) ∧ a = pages_start p + i * PAGE_SIZE ∧
    rg_len r = Z.min (2 ^ rg_order r) (pages p - i) * PAGE_SIZE ∧
    btype <$> nodes p !! Block i = Some (rg_type r).

Definition live (pools : list memory_pool) (gs : list pool_state) (a : Z) (r : region) : Prop :=
  ∃ k p B A, pools !! k = Some p ∧ gs !! k = Some (B, A) ∧ pool_live p B A a r.

Definition apart (a l a' l' : Z) : Prop := a + l <= a' ∨ a' + l' <= a.

(** The pools hold exactly the regions of [L]. *)
Definition represents (pools : list memory_pool) (L : gmap Z region) : Prop :=
  ∃ gs, pools_inv pools gs ∧ ∀ a r, L !! a = Some r ↔ live pools gs a r.

Lemma pool_live_range p B A a r : pool_inv p B A → pool_live p B A a r →
  pages_start p <= a ∧ a + rg_len r <= pages_end p ∧ 0 < rg_len r ∧ ALIGN_PAGE_DOWN a = a ∧
  0 <= rg_order r <= max_order p ∧ 0 < a.
Proof.
  intros [HG HC Hus _ _ _] (i&Hi&Ho&->&Hl&_). destruct (core_tile HC _ _ Ho) as (HoM&Hi0&Hle).
  pose proof (Hus i Hi) as Hw. unfold waste_start in Hw. pose proof (g_waste _ HG).
  destruct (block_address p i HG ltac:(lia)) as (E&_&_&Hal). rewrite E in Hal.
  destruct HG as [_ _ [? _] [-> _]]. unfold PAGE_SIZE in *. lia.
Qed.

Lemma pool_live_apart p B A a r a' r' : pool_inv p B A →
  pool_live p B A a r → pool_live p B A a' r' → a ≠ a' → apart a (rg_len r) a' (rg_len r').
Proof.
  intros [HG HC _ _ _ _] (i&Hi&Ho&->&Hl&_) (j&Hj&Ho'&->&Hl'&_) Hne.
  assert (i ≠ j) by congruence. unfold apart, PAGE_SIZE in *.
  destruct (t_disj _ _ (c_tiling _ _ _ _ _ HC) _ _ _ _ Ho Ho'); [done|lia..].
Qed.

Lemma live_apart pools gs a r a' r' : pools_inv pools gs →
  live pools gs a r → live pools gs a' r' → a ≠ a' → apart a (rg_len r) a' (rg_len r').
Proof.
  intros HI (k&p&B&A&Hp&Hg&Hl) (k'&p'&B'&A'&Hp'&Hg'&Hl') Hne.
  destruct (pools_inv_lookup _ _ _ _ HI Hp) as (?&?&?&HP).
  destruct (pools_inv_lookup _ _ _ _ HI Hp') as (?&?&?&HP'). simplify_eq.
  destruct (decide (k = k')) as [->|Hk]; [simplify_eq; by eapply pool_live_apart|].
  pose proof (pool_live_range _ _ _ _ _ HP Hl). pose proof (pool_live_range _ _ _ _ _ HP' Hl').
  unfold apart. destruct (ps_apart _ _ HI _ _ _ _ Hp Hp' Hk); lia.
Qed.

Definition live_at (pools : list memory_pool) (gs : list pool_state) (k : nat) (a : Z) (r : region) : Prop :=
  ∃ p B A, pools !! k = Some p ∧ gs !! k = Some (B, A) ∧ pool_live p B A a r.

(** An address lies in at most one pool. *)
Lemma live_at_pool pools gs k a r k' q : pools_inv pools gs →
  live_at pools gs k a r → pools !! k' = Some q → pages_start q <= a < pages_end q → k' = k.
Proof.
  intros HI (p&B&A&Hp&Hg&Hl) Hq Hr. destruct (pools_inv_lookup _ _ _ _ HI Hp) as (?&?&?&HP).
  simplify_eq. pose proof (pool_live_range _ _ _ _ _ HP Hl).
  destruct (decide (k' = k)) as [|Hk]; [done|].
  destruct (ps_apart _ _ HI _ _ _ _ Hp Hq ltac:(done)); lia.
Qed.

Lemma pool_live_functional p B A a r r' :
  pool_live p B A a r → pool_live p B A a r' → r = r'.
Proof.
  intros (i&_&Ho&->&Hl&Ht) (j&_&Ho'&E&Hl'&Ht'). unfold PAGE_SIZE in *.
  assert (j = i) as -> by (clear -E; lia). destruct r, r'; simpl in *. congruence.
Qed.

(** Replacing pool [k] changes only the regions of that pool. *)
Lemma live_insert pools gs k p p' B' A' a r :
  pools !! k = Some p → (length gs = length pools) →
  live (<[k := p']> pools) (<[k := (B', A')]> gs) a r ↔
  pool_live p' B' A' a r ∨ ∃ k', k' ≠ k ∧ live_at pools gs k' a r.
Proof.
  intros Hp%lookup_lt_Some Hlen. split.
  - intros (j&q&B&A&Hq&Hg&Hl). destruct (decide (j = k)) as [->|].
    + rewrite list_lookup_insert_eq in Hq by done. rewrite list_lookup_insert_eq in Hg by (by rewrite Hlen).
      simplify_eq. by left.
    + rewrite list_lookup_insert_ne in Hq by done. rewrite list_lookup_insert_ne in Hg by done. right. exists j. split; [done|].
      by exists q, B, A.
  - intros [Hl|(j&Hj&q&B&A&Hq&Hg&Hl)].
    + exists k, p', B', A'. rewrite !list_lookup_insert_eq by (by rewrite ?Hlen). done.
    + exists j, q, B, A. by rewrite !list_lookup_insert_ne by done.
Qed.

Lemma live_split pools gs k p B A a r :
  pools !! k = Some p → gs !! k = Some (B, A) →
  live pools gs a r ↔ pool_live p B A a r ∨ ∃ k', k' ≠ k ∧ live_at pools gs k' a r.
Proof.
  intros Hp Hg. split.
  - intros (j&q&B'&A'&Hq&Hg'&Hl). destruct (decide (j = k)) as [->|]; [simplify_eq; by left|].
    right. exists j. split; [done|]. by exists q, B', A'.
  - intros [Hl|(j&_&q&B'&A'&?)]; [by exists k, p, B, A|by exists j, q, B', A'].
Qed.

Lemma pools_inv_length pools gs : pools_inv pools gs → length gs = length pools.
Proof. intros [HF%Forall2_length _]. done. Qed.

(** One pool gains a region. *)
Lemma represents_add pools L gs k p p' B A B' A' a r :
  pools_inv pools gs → (∀ a r, L !! a = Some r ↔ live pools gs a r) →
  pools !! k = Some p → gs !! k = Some (B, A) → pool_inv p' B' A' →
  pages_start p' = pages_start p → pages_end p' = pages_end p →
  (∀ a' r', pool_live p' B' A' a' r' ↔ pool_live p B A a' r' ∨ (a' = a ∧ r' = r)) →
  (∀ r', ¬ pool_live p B A a r') →
  represents (<[k := p']> pools) (<[a := r]> L) ∧ L !! a = None ∧
  ∀ a' r', L !! a' = Some r' → apart a (rg_len r) a' (rg_len r').
Proof.
  intros HI HL Hp Hg HP Hs He Hlive Hnew.
  pose proof (pools_inv_update _ _ _ _ _ _ _ HI Hp HP Hs He) as HI'.
  pose proof (pools_inv_length _ _ HI) as Hlen.
  assert (Hl : ∀ a' r', live (<[k := p']> pools) (<[k := (B', A')]> gs) a' r' ↔
    live pools gs a' r' ∨ (a' = a ∧ r' = r)).
  { intros a' r'. rewrite (live_insert _ _ _ p), (live_split _ _ k p B A), Hlive by done. tauto. }
  assert (Ha : pool_live p' B' A' a r) by (apply Hlive; by right).
  assert (HLa : L !! a = None).
  { apply eq_None_not_Some. intros [r0 Hr0]. apply HL, (live_split _ _ k p B A) in Hr0; [|done..].
    destruct Hr0 as [?|(k'&Hk'&Hat)]; [by eapply Hnew|]. apply Hk'. symmetry.
    pose proof (pool_live_range _ _ _ _ _ HP Ha).
    eapply (live_at_pool _ _ _ _ _ k p HI Hat Hp). lia. }
  split_and!; [|done|].
  - exists (<[k := (B', A')]> gs). split; [done|]. intros a' r'.
    rewrite lookup_insert_Some, Hl, <-HL. naive_solver.
  - intros a' r' Hr'. apply (live_apart _ _ _ _ _ _ HI').
    + apply Hl. by right.
    + apply Hl. left. by apply HL.
    + congruence.
Qed.

(** One pool loses a region. *)
Lemma represents_remove pools L gs k p p' B A B' A' a :
  pools_inv pools gs → (∀ a r, L !! a = Some r ↔ live pools gs a r) →
  pools !! k = Some p → gs !! k = Some (B, A) → pool_inv p' B' A' →
  pages_start p' = pages_start p → pages_end p' = pages_end p →
  pages_start p <= a < pages_end p →
  (∀ a' r', pool_live p' B' A' a' r' ↔ pool_live p B A a' r' ∧ a' ≠ a) →
  represents (<[k := p']> pools) (delete a L).
Proof.
  intros HI HL Hp Hg HP Hs He Ha Hlive.
  pose proof (pools_inv_update _ _ _ _ _ _ _ HI Hp HP Hs He) as HI'.
  exists (<[k := (B', A')]> gs). split; [done|]. intros a' r'.
  rewrite lookup_delete_Some, HL, (live_split _ _ k p B A) by done.
  rewrite (live_insert _ _ _ p) by (done || by apply pools_inv_length). rewrite Hlive.
  split; [naive_solver|]. intros [[? ?]|(k'&Hk'&Hat)]; [naive_solver|].
  split; [|right; by exists k']. intros ->. apply Hk'. symmetry.
  by eapply (live_at_pool _ _ _ _ _ k p HI Hat Hp).
Qed.

(** Pages of a request of [size] bytes. *)
Definition request_pages (size : Z) : Z := u64 (size + (PAGE_SIZE - 1)) / PAGE_SIZE.

Lemma request_pages_bounds size : 0 < size → size + (PAGE_SIZE - 1) < 2 ^ 64 →
  1 <= request_pages size <= 2 ^ 63 ∧ size <= request_pages size * PAGE_SIZE.
Proof.
  unfold request_pages, PAGE_SIZE. intros. rewrite wrap_small by (unfold fits; lia).
  pose proof (Z.div_mod (size + (4096 - 1)) 4096). pose proof (Z.mod_pos_bound (size + (4096 - 1)) 4096).
  lia.
Qed.

Lemma same_types_lookup h h' i t :
  same_types h h' → btype <$> h' !! Block i = Some t ↔ btype <$> h !! Block i = Some t.
Proof. intros E. by rewrite E. Qed.

(** The regions of a pool after an allocation. *)
Lemma pool_live_alloc p p' B A B' i a ty h b :
  pages_start p' = pages_start p → pages p' = pages p →
  nodes p' = <[Block i := set_type ty b]> h → same_types (nodes p) h →
  i ∉ A → B' !! i = Some a → (∀ j, j ∈ A → B' !! j = B !! j) →
  ∀ a' r', pool_live p' B' ({[i]} ∪ A) a' r' ↔ pool_live p B A a' r' ∨
    (a' = pages_start p + i * PAGE_SIZE ∧
     r' = Region a (Z.min (2 ^ a) (pages p - i) * PAGE_SIZE) ty).
Proof.
  intros Hs Hpg Hn Hty HiA Hi Hkeep a' [o' l' t']. unfold pool_live. rewrite Hs, Hpg, Hn. simpl. split.
  - intros (j&[->%elem_of_singleton|Hj]%elem_of_union&Ho&->&->&Ht).
    + rewrite lookup_insert_eq in Ht. simpl in Ht. right. split; [done|]. congruence.
    + left. exists j. rewrite lookup_insert_ne, Hty in Ht by congruence.
      rewrite <-Hkeep by done. done.
  - intros [(j&Hj&Ho&->&->&Ht)|[-> [= -> -> ->]]].
    + exists j. rewrite Hkeep, lookup_insert_ne, Hty by congruence. set_solver.
    + exists i. rewrite lookup_insert_eq, Hi. set_solver.
Qed.

Lemma pool_find_types k : ∀ a n h r h',
  pool_find_block_from k a n h = Done (r, h') → same_types h h'.
Proof.
  induction k as [|k IH]; intros a n h r h' E; cbn [pool_find_block_from] in E; [by simplify_eq|].
  inv_outcome. destruct a0 as [i|]; [|by eapply IH]. inv_outcome. simplify_eq. by eapply remove_types.
Qed.

(** ** Refinement *)

(** What a successful allocation of [size] bytes guarantees. *)
Definition alloc_post (L : gmap Z region) (size : Z) (ty : block_type) (a : Z) (r : region) : Prop :=
  L !! a = None ∧ rg_type r = ty ∧ rg_order r = Z.log2_up (request_pages size) ∧
  size <= rg_len r ∧ 0 < a ∧ a + rg_len r < 2 ^ 64 ∧ ALIGN_PAGE_DOWN a = a ∧
  ∀ a' r', L !! a' = Some r' → apart a (rg_len r) a' (rg_len r').

(** Marking tile [i] of pool [k] as allocated adds one region. *)
Lemma alloc_regions pools gs L k p B A B' i size ty h b fp m :
  let a := Z.log2_up (request_pages size) in
  let r := Region a (Z.min (2 ^ a) (pages p - i) * PAGE_SIZE) ty in
  let p' := set_nodes (<[Block i := set_type ty b]> h) (set_free_pages fp (set_max_order_free m p)) in
  pools_inv pools gs → (∀ a r, L !! a = Some r ↔ live pools gs a r) →
  0 < size → size + (PAGE_SIZE - 1) < 2 ^ 64 →
  pools !! k = Some p → gs !! k = Some (B, A) → pool_inv p B A → i ∉ A → 0 <= i →
  fitting (waste_start p) (request_pages size) i → same_types (nodes p) h →
  pool_inv p' B' ({[i]} ∪ A) → B' !! i = Some a → (∀ j, j ∈ A → B' !! j = B !! j) →
  represents (<[k := p']> pools) (<[block_to_address p' i := r]> L) ∧
  alloc_post L size ty (block_to_address p' i) r.
Proof.
  intros a r p' HI HL Hs0 Hs Hp Hg HP HiA Hi0 Hfit Hty HP' Hi' Hkeep.
  destruct (request_pages_bounds size Hs0 Hs) as [Hn Hns].
  destruct (get_order_bound _ Hn) as [_ Hno]. rewrite get_order_spec in Hno by done.
  unfold fitting, waste_start in Hfit. pose proof (pi_geom _ _ _ HP) as HG. pose proof (g_waste _ HG).
  destruct (block_address p i HG) as (Eaddr&_); [lia|].
  change (block_to_address p' i) with (block_to_address p i). rewrite Eaddr.
  pose proof (pool_live_alloc p p' B A B' i a ty h b eq_refl eq_refl eq_refl Hty HiA Hi' Hkeep) as Hlive.
  fold r in Hlive.
  assert (Ha : pool_live p' B' ({[i]} ∪ A) (pages_start p + i * PAGE_SIZE) r) by (apply Hlive; by right).
  pose proof (pool_live_range _ _ _ _ _ HP' Ha) as (?&Hend&Hlen&Hal&_&Hpos).
  destruct (represents_add pools L gs k p p' B A B' ({[i]} ∪ A) (pages_start p + i * PAGE_SIZE) r)
    as (HR&Hnone&Hap); try done.
  { intros r' (j&Hj&_&E'&_). unfold PAGE_SIZE in E'. assert (j = i) by lia. congruence. }
  split; [done|]. split_and!; try done.
  - fold a in Hno. subst r. cbn [rg_len]. etrans; [apply Hns|].
    apply Z.mul_le_mono_nonneg_r; [unfold PAGE_SIZE|]; lia.
  - destruct HG as [_ _ _ [? ?]]. change (pages_end p') with (pages_end p) in Hend. lia.
Qed.

(** The two ways [buddy_allocate] returns. *)
Lemma buddy_allocate_cases size ty pools gs :
  let n := request_pages size in let a := Z.log2_up n in
  pools_inv pools gs → 0 < size → size + (PAGE_SIZE - 1) < 2 ^ 64 →
  (∃ k p B A B' i h b fp m,
     let p' := set_nodes (<[Block i := set_type ty b]> h) (set_free_pages fp (set_max_order_free m p)) in
     buddy_allocate size ty pools = Done (Some (block_to_address p' i), <[k := p']> pools) ∧
     pools !! k = Some p ∧ gs !! k = Some (B, A) ∧ pool_inv p B A ∧ i ∉ A ∧ 0 <= i ∧
     fitting (waste_start p) n i ∧ same_types (nodes p) h ∧
     pool_inv p' B' ({[i]} ∪ A) ∧ B' !! i = Some a ∧ (∀ j, j ∈ A → B' !! j = B !! j)) ∨
  (buddy_allocate size ty pools = Done (None, pools) ∧ search_failed size a n 0 pools gs).
Proof.
  intros n a HI Hs0 Hs. destruct (request_pages_bounds size Hs0 Hs) as [Hn Hns].
  destruct (get_order_bound _ Hn) as [Ho0 Hno].
  unfold buddy_allocate. rewrite (proj2 (Z.eqb_neq size 0)) by lia.
  fold (request_pages size). rewrite get_order_spec in Ho0, Hno |- * by done. fold n a in Ho0, Hno |- *.
  destruct (find_block_loop_spec size a n pools gs HI Ho0 ltac:(lia) (length pools) 0 ltac:(lia))
    as [(pi&p&B&A&i&o&h&E&Hp&Hg&HP&Hi&HiA&Hao&Hfit&HC&Hfind)|[E Hf]]; rewrite E; cbn [mbind outcome_bind];
    [left|by right].
  rewrite list_lookup_insert_eq by (by eapply lookup_lt_Some). cbn [deref mbind outcome_bind].
  destruct (core_tile HC i o Hi) as (_&Hi0&_).
  destruct (pool_carve 256 p B A h i o a n ty) as (h'&m&b&B'&E1&E2&Hb&Hbo&E3&HP'&Hi'&Hkeep);
    [lia|done..|lia|lia|done|done|].
  cbn [nodes set_nodes max_order_free]. rewrite E1. cbn [mbind outcome_bind]. rewrite E2.
  cbn [mbind outcome_bind]. bind_step Hb. rewrite Hbo, E3. cbn [mbind outcome_bind].
  rewrite (modify_spec _ _ _ _ Hb). cbn [mbind outcome_bind].
  rewrite list_insert_insert_eq. cbn [free_pages set_nodes].
  pose proof (pool_find_types _ _ _ _ _ _ Hfind) as T1. pose proof (split_loop_types _ _ _ _ _ E1) as T2.
  exists pi, p, B, A, B', i, h', b, (u64 (free_pages p - 2 ^ a)), m.
  split_and!; try done; [lia|by etrans].
Qed.

Lemma ptr_to_pool_spec pools gs k p a : pools_inv pools gs → pools !! k = Some p →
  pages_start p <= a < pages_end p → ptr_to_pool pools a = Some k.
Proof.
  intros HI Hp Hr. unfold ptr_to_pool.
  pose proof (first_pool_spec (λ p, (pages_start p <=? a) && (a <? pages_end p)) pools 0) as HF.
  assert (Hin : ∀ q, (pages_start q <=? a) && (a <? pages_end q) = true ↔ pages_start q <= a < pages_end q).
  { intros q. rewrite andb_true_iff, Z.leb_le, Z.ltb_lt. done. }
  destruct (first_pool _ _ _) as [k'|].
  - destruct HF as (q&j&->&Hq&HP&_). simpl in *. apply Hin in HP. f_equal.
    destruct (decide (j = k)) as [|Hne]; [done|].
    destruct (ps_apart _ _ HI _ _ _ _ Hq Hp Hne); lia.
  - specialize (HF k p Hp). apply Hin in Hr. congruence.
Qed.

(** [buddy_get_block] finds the block of an address inside a pool. *)
Lemma buddy_get_block_spec pools gs k p B A i : pools_inv pools gs → pools !! k = Some p →
  pool_inv p B A → 0 <= i < pages p →
  buddy_get_block (pages_start p + i * PAGE_SIZE) pools = Done (Some (k, i)).
Proof.
  intros HI Hp [HG _ _ _ _ _] Hi. destruct (block_address p i HG Hi) as (E&Hr&Hinv&Hal).
  rewrite E in Hr, Hinv, Hal. unfold buddy_get_block.
  pose proof (g_start _ HG) as [? _]. unfold PAGE_SIZE in *.
  rewrite (proj2 (Z.eqb_neq _ _)) by lia. rewrite Hal, Z.eqb_refl. simpl.
  rewrite (ptr_to_pool_spec _ _ _ _ _ HI Hp Hr). bind_step Hp. by rewrite Hinv.
Qed.

(** Decomposition of a live region. *)
Lemma live_block pools gs a r : pools_inv pools gs → live pools gs a r →
  ∃ k p B A i b, pools !! k = Some p ∧ gs !! k = Some (B, A) ∧ pool_inv p B A ∧ i ∈ A ∧
    B !! i = Some (rg_order r) ∧ a = pages_start p + i * PAGE_SIZE ∧ 0 <= i < pages p ∧
    nodes p !! Block i = Some b ∧ order b = rg_order r ∧ btype b = rg_type r ∧
    buddy_get_block a pools = Done (Some (k, i)) ∧ one_shl (order b) = Done (2 ^ rg_order r).
Proof.
  intros HI (k&p&B&A&Hp&Hg&i&Hi&Ho&->&_&Ht). destruct (pools_inv_lookup _ _ _ _ HI Hp) as (?&?&?&HP).
  simplify_eq. pose proof HP as [HG HC Hus _ _ _]. pose proof (Hus i Hi) as Hw.
  unfold waste_start in Hw. pose proof (g_waste _ HG).
  destruct (core_tile HC _ _ Ho) as (HoM&Hi0&_). pose proof (c_order _ _ _ _ _ HC).
  destruct (core_lookup HC _ _ Ho) as (b&Hb&Hbo&_). rewrite Hb in Ht. injection Ht as Ht.
  exists k, p, B, A, i, b. split_and!; try done; [lia|lia| |].
  - eapply buddy_get_block_spec; try done. lia.
  - rewrite Hbo. apply one_shl_ok. lia.
Qed.

Lemma pool_live_free p p' B A B' i h :
  pages_start p' = pages_start p → pages p' = pages p → same_types h (nodes p') →
  (∀ j, j ≠ i → h !! Block j = nodes p !! Block j) →
  (∀ j, j ∈ A ∖ {[i]} → B' !! j = B !! j) →
  ∀ a' r', pool_live p' B' (A ∖ {[i]}) a' r' ↔
    pool_live p B A a' r' ∧ a' ≠ pages_start p + i * PAGE_SIZE.
Proof.
  intros Hs Hpg Hty Hfr Hkeep a' r'. unfold pool_live. rewrite Hs, Hpg. split.
  - intros (j&Hj&Ho&->&Hl&Ht). pose proof Hj as [HjA Hji]%elem_of_difference.
    rewrite not_elem_of_singleton in Hji. rewrite Hty, Hfr in Ht by done.
    rewrite Hkeep in Ho by done. split; [by exists j|]. unfold PAGE_SIZE. lia.
  - intros [(j&Hj&Ho&->&Hl&Ht) Hne]. assert (j ≠ i) by congruence.
    exists j. rewrite Hty, Hfr, Hkeep by set_solver. set_solver.
Qed.

(** Deallocation within one pool. *)
Lemma pool_release p B A i o b :
  pool_inv p B A → i ∈ A → B !! i = Some o → nodes p !! Block i = Some b →
  let h := <[Block i := set_type BLOCK_TYPE_FREE b]> (nodes p) in
  let p1 := set_nodes h (set_free_pages (u64 (free_pages p + 2 ^ o)) p) in
  ∃ p' B', free_block p1 i = Done p' ∧ pool_inv p' B' (A ∖ {[i]}) ∧
    pages_start p' = pages_start p ∧ pages_end p' = pages_end p ∧ pages p' = pages p ∧
    (∀ j, j ∈ A ∖ {[i]} → B' !! j = B !! j).
Proof.
  intros [HG HC Hus Hco [Hm0 Hm] Hcnt] Hi Ho Hb h p1.
  destruct (free_block_spec p1 B A i o) as (h'&m&B'&E&HC'&Hco'&Hm'&Hb'&Hkeep); try done.
  { by destruct HG. }
  { by apply core_set_type. }
  { by apply Hus. }
  exists (set_nodes h' (set_max_order_free m p1)), B'. split_and!; try done.
  split; try done.
  - by destruct HG.
  - intros j [Hj _]%elem_of_difference. by apply Hus.
  - simpl. rewrite (allocated_pages_ext B) by done. rewrite Hcnt.
    rewrite (allocated_pages_remove B A i Hi). unfold tile_pages at 1. rewrite Ho. simpl.
    unfold wrap. rewrite Zplus_mod_idemp_l. f_equal. lia.
Qed.

Lemma buddy_deallocate_cases pools gs L a r :
  pools_inv pools gs → (∀ a r, L !! a = Some r ↔ live pools gs a r) → L !! a = Some r →
  ∃ pools', buddy_deallocate a pools = Done pools' ∧ represents pools' (delete a L).
Proof.
  intros HI HL Ha. pose proof Ha as Hl. apply HL in Hl.
  destruct (live_block _ _ _ _ HI Hl) as (k&p&B&A&i&b&Hp&Hg&HP&Hi&Ho&Haddr&Hir&Hb&Hbo&_&Eget&Ebit).
  unfold buddy_deallocate. rewrite Eget. cbn [mbind outcome_bind]. bind_step Hp. bind_step Hb.
  rewrite Ebit. cbn [mbind outcome_bind]. rewrite (modify_spec _ _ _ _ Hb). cbn [mbind outcome_bind].
  destruct (pool_release p B A i _ b HP Hi Ho Hb) as (p'&B'&E&HP'&Hs&He&Hpg&Hkeep).
  rewrite E. cbn [mbind outcome_bind]. eexists; split; [done|].
  apply free_block_types in E. cbn [nodes set_nodes] in E.
  pose proof (pi_geom _ _ _ HP) as HG. destruct (block_address p i HG Hir) as (Eaddr&Hrange&_).
  eapply (represents_remove pools L gs k p p' B A B'); try done.
  - rewrite Haddr, <-Eaddr. done.
  - rewrite Haddr. eapply pool_live_free; try done. intros j Hj. by rewrite lookup_insert_ne by congruence.
Qed.

Lemma allocate_represents size ty pools L :
  represents pools L → 0 < size → size + (PAGE_SIZE - 1) < 2 ^ 64 →
  buddy_allocate size ty pools = Done (None, pools) ∨
  ∃ a r pools', buddy_allocate size ty pools = Done (Some a, pools') ∧
    represents pools' (<[a := r]> L) ∧ alloc_post L size ty a r.
Proof.
  intros (gs&HI&HL) Hs0 Hs.
  destruct (buddy_allocate_cases size ty pools gs HI Hs0 Hs)
    as [(k&p&B&A&B'&i&h&b&fp&m&E&Hp&Hg&HP&HiA&Hi0&Hfit&Hty&HP'&Hi'&Hkeep)|[? _]]; [right|by left].
  eexists _, _, _. split; [exact E|]. by eapply alloc_regions.
Qed.

Lemma deallocate_represents pools L a r :
  represents pools L → L !! a = Some r →
  ∃ pools', buddy_deallocate a pools = Done pools' ∧ represents pools' (delete a L).
Proof. intros (gs&HI&HL). by eapply buddy_deallocate_cases. Qed.

Lemma queries_represents pools L a r :
  represents pools L → L !! a = Some r →
  buddy_get_type a pools = Done (rg_type r) ∧
  buddy_get_size a pools = (if bool_decide (2 ^ rg_order r * PAGE_SIZE < 2 ^ 31)
    then Done (2 ^ rg_order r * PAGE_SIZE) else Undef).
Proof.
  intros (gs&HI&HL) Hl%HL.
  destruct (live_block _ _ _ _ HI Hl) as (k&p&B&A&i&b&Hp&Hg&HP&Hi&Ho&Haddr&Hir&Hb&Hbo&Hbt&Eget&Ebit).
  destruct (core_tile (pi_core _ _ _ HP) _ _ Ho) as (?&_). assert (0 < 2 ^ rg_order r) by lia.
  unfold buddy_get_type, buddy_get_size. rewrite Eget. cbn [mbind outcome_bind].
  bind_step Hp. bind_step Hb. rewrite Ebit. cbn [mbind outcome_bind]. split; [by rewrite Hbt|].
  unfold int_mul, PAGE_SIZE. repeat case_bool_decide; try done; lia.
Qed.

Lemma reallocate_represents pools L a r size m :
  represents pools L → L !! a = Some r → 2 ^ rg_order r * PAGE_SIZE < 2 ^ 31 →
  0 < size → size + (PAGE_SIZE - 1) < 2 ^ 64 →
  (rg_order r = Z.log2_up (request_pages size) ∧
     buddy_reallocate a size pools m = Done (Some a, pools, m)) ∨
  (buddy_allocate size (rg_type r) pools = Done (None, pools) ∧ buddy_reallocate a size pools m = Done (None, pools, m)) ∨
  ∃ a' r' pools' m', buddy_reallocate a size pools m = Done (Some a', pools', m') ∧
    represents pools' (<[a' := r']> (delete a L)) ∧ alloc_post L size (rg_type r) a' r' ∧
    (∀ i, 0 <= i < size → i < rg_len r → m' (a' + i) = m (a + i)) ∧
    (∀ x rx i, delete a L !! x = Some rx → 0 <= i < rg_len rx → m' (x + i) = m (x + i)).
Proof.
  intros HR Ha Hov Hs0 Hs. pose proof HR as (gs&HI&HL). pose proof Ha as Hl%HL.
  destruct (live_block _ _ _ _ HI Hl) as (k&p&B&A&i&b&Hp&Hg&HP&Hi&Ho&Haddr&Hir&Hb&Hbo&Hbt&Eget&Ebit).
  destruct (core_tile (pi_core _ _ _ HP) _ _ Ho) as (?&_). assert (0 < 2 ^ rg_order r) by lia.
  destruct (request_pages_bounds size Hs0 Hs) as [Hn _].
  unfold buddy_reallocate. rewrite Eget. cbn [mbind outcome_bind]. bind_step Hp. bind_step Hb.
  rewrite Ebit. cbn [mbind outcome_bind]. fold (request_pages size). rewrite get_order_spec by done.
  assert (int_mul (2 ^ rg_order r) PAGE_SIZE = Done (2 ^ rg_order r * PAGE_SIZE)) as ->.
  { unfold int_mul, PAGE_SIZE in *. rewrite bool_decide_true by lia. done. }
  cbn [mbind outcome_bind]. rewrite Hbo, Hbt.
  destruct (Z.eqb_spec (rg_order r) (Z.log2_up (request_pages size))); [by left|right].
  destruct (allocate_represents size (rg_type r) pools L HR Hs0 Hs) as [E|(a'&r'&pools'&E&HR'&Hpost)];
    rewrite E; cbn [mbind outcome_bind]; [left; by split|right].
  pose proof Hpost as (Hnone&_&_&Hfit&_&_&_&Hap).
  destruct (deallocate_represents pools' (<[a' := r']> L) a r HR') as (pools''&E'&HR'').
  { rewrite lookup_insert_ne by congruence. done. }
  rewrite E'. cbn [mbind outcome_bind]. eexists _, _, _, _. split; [done|].
  rewrite delete_insert_ne in HR'' by congruence. split_and!; [done|done| |].
  - intros j Hj Hjr. apply memcpy_inside. destruct (Z.ltb_spec (2 ^ rg_order r * PAGE_SIZE) size); [|lia].
    destruct Hl as (k'&p'&B'&A'&_&_&j'&_&_&_&Hlen&_). unfold PAGE_SIZE in *. lia.
  - intros x rx j [_ Hx]%lookup_delete_Some Hj. apply memcpy_outside.
    destruct (Hap x rx Hx), (Z.ltb_spec (2 ^ rg_order r * PAGE_SIZE) size); lia.
Qed.
