(* ===== verification/BuddyInit.v ===== *)
(** * Initialisation of a buddy pool

    [init_pool] on a page-aligned memory range of [2 ^ M] pages builds a pool
    that satisfies the invariant of BuddyTheory.v, with one free tile that
    covers the whole range. *)

From S2P Require Import Prelude CircularList Bitops Buddy BuddyTiling BuddyTheory BuddyAlloc BuddyRegions.

(** ** Loops *)

Lemma for_each_inv (P : Z → gmap node buddy_block → Prop) f from n :
  (∀ i h, from <= i < from + Z.of_nat n → P i h → ∃ h', f i h = Done h' ∧ P (i + 1) h') →
  ∀ h, P from h → ∃ h', for_each f from n h = Done h' ∧ P (from + Z.of_nat n) h'.
Proof.
  revert from; induction n as [|n IH]; intros from Hstep h HP; cbn [for_each].
  - exists h. by rewrite Z.add_0_r.
  - destruct (Hstep from h) as (h1&E&HP1); [lia|done|]. bind_step E.
    destruct (IH (from + 1) ltac:(intros; apply Hstep; [lia|done]) h1 HP1) as (h2&E2&HP2).
    exists h2. split; [done|]. by replace (from + Z.of_nat (S n)) with (from + 1 + Z.of_nat n) by lia.
Qed.

(** ** The cleared metadata *)

Definition zero_key (M len : Z) (k : node) : Prop :=
  match k with
  | Null => False
  | WasteList => True
  | FreeList o => 0 <= o <= M
  | Block i => 0 <= i < len
  end.

Lemma zero_store_lookup M len k : zero_key M len k → zero_store M len !! k = Some zero_block.
Proof.
  intros Hk. unfold zero_store. set (kv := _ :: _).
  assert (Hall : ∀ k v, (k, v) ∈ kv → v = zero_block).
  { intros k' v. subst kv. rewrite elem_of_cons, elem_of_app. intros [?|[Hin|Hin]]; [naive_solver| |];
      apply list_elem_of_In, in_map_iff in Hin as (?&?&_); naive_solver. }
  destruct (list_to_map kv !! k) as [v|] eqn:E.
  - apply elem_of_list_to_map_2 in E. by rewrite (Hall _ _ E).
  - exfalso. apply not_elem_of_list_to_map in E. apply E.
    assert ((k, zero_block) ∈ kv) as Hin; [|by apply (list_elem_of_fmap_2 fst) in Hin].
    subst kv. destruct k as [| |o|i]; simpl in Hk; [done|set_solver| |];
      rewrite elem_of_cons, elem_of_app; right; [left|right];
      apply list_elem_of_In, in_map_iff; eexists; (split; [reflexivity|]);
      apply list_elem_of_In, elem_of_seqZ; lia.
Qed.

(** Every list of the pool is empty. *)
Definition all_empty (M : Z) (h : gmap node buddy_block) : Prop :=
  ∀ hd, is_head M hd → dll h hd [].

Lemma init_lists M len : 0 <= M →
  let h0 := zero_store M len in
  ∃ h1 h2, for_each (λ i h, list_init (FreeList i) h) 0 (Z.to_nat (M + 1)) h0 = Done h1 ∧
    list_init WasteList h1 = Done h2 ∧ all_empty M h2 ∧ payload <$> h2 = payload <$> h0.
Proof.
  intros HM h0. pose (P := λ i h, (∀ o, 0 <= o < i → dll h (FreeList o) []) ∧ payload <$> h = payload <$> h0).
  destruct (for_each_inv P (λ i h, list_init (FreeList i) h) 0 (Z.to_nat (M + 1))) with (h := h0)
    as (h1&E1&Hd1&Hp1).
  - intros i h Hi [Hd Hp]. destruct (list_init_spec (FreeList i) h) as (h'&E&Hd'&Hp'&Hfr).
    { eapply payload_eq_dom; [done|]. subst h0. rewrite zero_store_lookup; [done|simpl; lia]. }
    exists h'. split; [done|]. split; [|congruence]. intros o Ho.
    destruct (decide (o = i)) as [->|]; [done|]. apply (dll_frame h); [|apply Hd; lia].
    intros j ->%list_elem_of_singleton. apply Hfr. congruence.
  - split; [intros; lia|done].
  - destruct (list_init_spec WasteList h1) as (h2&E2&Hd2&Hp2&Hfr).
    { eapply payload_eq_dom; [done|]. subst h0. by rewrite zero_store_lookup. }
    exists h1, h2. split_and!; [done|done| |congruence].
    intros hd [->|(o&->&Ho)]; [done|]. apply (dll_frame h1); [|apply Hd1; lia].
    intros j ->%list_elem_of_singleton. by apply Hfr.
Qed.

(** State of the marking loop before block [i]. *)
Definition marked (M w len i : Z) (h : gmap node buddy_block) : Prop :=
  all_empty M h ∧ ∀ j, 0 <= j < len → ∃ b, h !! Block j = Some b ∧
    order b = 0 ∧ in_list b = false ∧ is_waste b = (w <=? j) && (j <? i).

Lemma mark_step M w len i h : 0 <= w <= i → i < len → marked M w len i h →
  ∃ h', modify (Block i) (set_is_waste true) h = Done h' ∧ marked M w len (i + 1) h'.
Proof.
  intros Hw Hi [He Hm]. destruct (Hm i) as (b&Hb&Ho&Hl&_); [lia|].
  rewrite (modify_spec _ _ _ _ Hb). eexists; split; [done|]. split.
  - intros hd Hhd. by apply (dll_data_write _ _ (set_is_waste true)), He.
  - intros j Hj. destruct (decide (j = i)) as [->|].
    + exists (set_is_waste true b). rewrite lookup_insert_eq. split_and!; try done.
      symmetry. apply andb_true_iff. rewrite Z.leb_le, Z.ltb_lt. lia.
    + destruct (Hm j Hj) as (b'&Hb'&?&?&Hw'). exists b'. rewrite lookup_insert_ne by congruence.
      split_and!; try done. rewrite Hw'. f_equal. destruct (Z.ltb_spec j i), (Z.ltb_spec j (i + 1)); lia.
Qed.

Lemma mark_waste M len w h : 0 <= M → 0 < w <= 2 ^ M → 2 ^ M < len →
  all_empty M h → payload <$> h = payload <$> zero_store M len →
  ∃ h', for_each (λ i h, modify (Block i) (set_is_waste true) h) w (Z.to_nat (2 ^ M - w)) h = Done h' ∧
    marked M w len (2 ^ M) h'.
Proof.
  intros HM Hw Hlen He Hp.
  destruct (for_each_inv (λ i h, w <= i <= 2 ^ M ∧ marked M w len i h)
    (λ i h, modify (Block i) (set_is_waste true) h) w (Z.to_nat (2 ^ M - w))) with (h := h)
    as (h'&E&_&Hm).
  - intros i h' Hi [_ Hm]. destruct (mark_step M w len i h') as (h''&E&Hm'); [lia|lia|done|].
    exists h''. split_and!; [done|lia|lia|done].
  - split; [lia|]. split; [done|]. intros j Hj.
    destruct (payload_eq_lookup _ _ (Block j) zero_block Hp) as (b&Hb&[= ? Ho Hl Hwa ?]);
      [by apply zero_store_lookup|].
    exists b. rewrite Ho, Hl, Hwa. split_and!; try done.
    destruct (Z.leb_spec w j), (Z.ltb_spec j w); try done; lia.
  - exists h'. split; [done|]. by replace (w + Z.of_nat (Z.to_nat (2 ^ M - w))) with (2 ^ M) in Hm by lia.
Qed.

(** The first block, of order [M], is the only tile; it is not yet listed. *)
Lemma init_core M w len h b : 0 <= M < 31 → 2 ^ M < len → marked M w len (2 ^ M) h →
  order b = M → in_list b = false → is_waste b = (w <=? 0) →
  core M w (<[Block 0 := b]> h) {[0 := M]} {[0]}.
Proof.
  intros HM Hlen [He Hm] Ho Hl Hw. split; [done|by apply single_tiling; lia|set_solver| |].
  - intros i Hi. destruct (decide (i = 0)) as [->|].
    + exists b. rewrite lookup_insert_eq. split; [done|]. split_and!; [done| |].
      * rewrite Hl. symmetry. apply bool_decide_eq_false. set_solver.
      * intros o [_ <-]%lookup_singleton_Some. done.
    + destruct (Hm i) as (b'&Hb'&_&Hl'&Hw'); [lia|]. exists b'. rewrite lookup_insert_ne by congruence.
      split; [done|]. split_and!.
      * intros Hlt. rewrite Hw'. apply Z.ltb_lt in Hlt as ->. apply andb_true_r.
      * rewrite Hl'. symmetry. apply bool_decide_eq_false. set_solver.
      * intros o [? _]%lookup_singleton_Some. done.
  - intros hd Hhd. exists []. split.
    + simpl. apply (dll_frame h); [|by apply He]. intros j ->%list_elem_of_singleton.
      rewrite lookup_insert_ne; [done|]. intros <-. by eapply is_head_not_block.
    + intros i. unfold location. destruct (decide (i = 0)) as [->|].
      * rewrite lookup_singleton_eq. case_decide; set_solver.
      * rewrite lookup_singleton_ne by done. set_solver.
Qed.

(** ** The layout of a pool of [2 ^ M] pages *)

(** Pages taken by the metadata. *)
Definition overhead (M : Z) : Z := (576 * (M + 1) + 24 * 2 ^ M + 4095) / 4096.

Definition layout_ok (M : Z) : bool :=
  (0 <? overhead M) && (2 * overhead M <? 2 ^ M) &&
  (2 ^ M <? (4096 * overhead M - 576 * (M + 1)) / 24).

Lemma layout M : 4 <= M < 31 →
  0 < overhead M ∧ 2 * overhead M < 2 ^ M ∧ 2 ^ M < (4096 * overhead M - 576 * (M + 1)) / 24.
Proof.
  intros HM. assert (Hall : forallb layout_ok (seqZ 4 27) = true) by by vm_compute.
  rewrite forallb_forall in Hall.
  specialize (Hall M ltac:(apply list_elem_of_In, elem_of_seqZ; lia)).
  unfold layout_ok in Hall. rewrite !andb_true_iff, !Z.ltb_lt in Hall. tauto.
Qed.

Lemma align_up_value k x : 0 <= k <= 32 → 0 <= x → x + (2 ^ k - 1) < 2 ^ 64 →
  ALIGN_UP x (2 ^ k) = (x + (2 ^ k - 1)) / 2 ^ k * 2 ^ k.
Proof.
  intros Hk Hx Hlt. assert (0 < 2 ^ k) by lia. unfold ALIGN_UP.
  rewrite wrap_small by (unfold fits; lia). apply land_align; unfold fits; lia.
Qed.

(** The pool [init_pool] builds, as a function of its block store. *)
Definition initial_pool (mem_start mem_end fl M : Z) (h : gmap node buddy_block) : memory_pool :=
  MemoryPool fl mem_start mem_end (mem_start + overhead M * PAGE_SIZE) mem_end
    (2 ^ M - overhead M) (2 ^ M - overhead M) M M (overhead M) h.

Lemma initial_geometry q fl M h : 0 < q → 4 <= M < 31 → (q + 2 ^ M) * PAGE_SIZE < 2 ^ 64 →
  geometry (initial_pool (q * PAGE_SIZE) ((q + 2 ^ M) * PAGE_SIZE) fl M h).
Proof.
  intros Hq HM Hend. pose proof (layout M HM). unfold PAGE_SIZE in *.
  split; simpl; unfold PAGE_SIZE; [lia|lia| |lia].
  split; [lia|]. exists (q + overhead M). lia.
Qed.

Lemma init_pow M : 4 <= M < 31 → 2 ^ 4 <= 2 ^ M < 2 ^ 31.
Proof. intros. split; [apply Z.pow_le_mono_r|apply Z.pow_lt_mono_r]; lia. Qed.

Section init.
Context (q fl M : Z) (pools : list memory_pool).
Context (Hq : 0 < q) (HM : 4 <= M < 31) (Hend : (q + 2 ^ M) * PAGE_SIZE < 2 ^ 64).
Context (Hroom : (length pools < MAX_MEMORY_POOLS)%nat).

Lemma init_total : u64 (Z.quot ((q + 2 ^ M) * PAGE_SIZE - q * PAGE_SIZE) PAGE_SIZE) = 2 ^ M.
Proof.
  replace ((q + 2 ^ M) * PAGE_SIZE - q * PAGE_SIZE) with (2 ^ M * PAGE_SIZE) by lia.
  rewrite Z.quot_mul by done. pose proof (init_pow M HM).
  apply wrap_small. unfold fits. lia.
Qed.

Lemma init_orders : get_order (2 ^ M) = M.
Proof.
  pose proof (init_pow M HM).
  rewrite get_order_spec by lia. apply Z.log2_up_pow2. lia.
Qed.

Lemma init_blocks_start :
  ALIGN_UP (q * PAGE_SIZE + u64 (SIZEOF_BUDDY_BLOCK * (M + 1)) * SIZEOF_BUDDY_BLOCK) 8 =
  q * PAGE_SIZE + 576 * (M + 1).
Proof.
  pose proof (init_pow M HM). unfold SIZEOF_BUDDY_BLOCK. rewrite wrap_small by (unfold fits; lia).
  unfold PAGE_SIZE in *. change 8 with (2 ^ 3). rewrite align_up_value by lia.
  change (2 ^ 3) with 8. 
  replace (q * 4096 + 24 * (M + 1) * 24 + (8 - 1)) with ((q * 512 + 72 * (M + 1)) * 8 + 7) by lia.
  rewrite Z.div_add_l by lia. change (7 / 8) with 0. lia.
Qed.

Lemma init_pages_start :
  ALIGN_PAGE_UP (q * PAGE_SIZE + 576 * (M + 1) + u64 (SIZEOF_BUDDY_BLOCK * 2 ^ M)) =
  q * PAGE_SIZE + overhead M * PAGE_SIZE.
Proof.
  pose proof (init_pow M HM). pose proof (layout M HM).
  unfold SIZEOF_BUDDY_BLOCK. rewrite wrap_small by (unfold fits; lia).
  unfold ALIGN_PAGE_UP, PAGE_SIZE in *. change 4096 with (2 ^ 12) at 2.
  rewrite align_up_value by lia. change (2 ^ 12) with 4096. unfold overhead.
  replace (q * 4096 + 576 * (M + 1) + 24 * 2 ^ M + (4096 - 1))
    with (q * 4096 + (576 * (M + 1) + 24 * 2 ^ M + 4095)) by lia.
  rewrite Z.div_add_l by lia. lia.
Qed.

Lemma init_pages_end : ALIGN_PAGE_DOWN ((q + 2 ^ M) * PAGE_SIZE) = (q + 2 ^ M) * PAGE_SIZE.
Proof.
  unfold ALIGN_PAGE_DOWN, ALIGN_DOWN, PAGE_SIZE in *. rewrite wrap_small by (unfold fits; lia).
  change (4096 - 1) with (2 ^ 12 - 1). rewrite land_align by (unfold fits; lia).
  change (2 ^ 12) with 4096. by rewrite Z.div_mul.
Qed.

Lemma init_pool_spec :
  ∃ h, init_pool (q * PAGE_SIZE) ((q + 2 ^ M) * PAGE_SIZE) fl pools =
      Done (pools ++ [initial_pool (q * PAGE_SIZE) ((q + 2 ^ M) * PAGE_SIZE) fl M h]) ∧
    core M (2 ^ M - 2 * overhead M) h {[0 := M]} ∅.
Proof.
  pose proof (init_pow M HM). pose proof (layout M HM) as (?&?&Hlen).
  unfold init_pool. rewrite bool_decide_false by lia. rewrite init_total, init_orders.
  rewrite init_blocks_start, init_pages_start, init_pages_end, one_shl_ok by lia.
  cbn [mbind outcome_bind].
  replace (u64 ((q + 2 ^ M) * PAGE_SIZE - (q * PAGE_SIZE + overhead M * PAGE_SIZE)) / PAGE_SIZE)
    with (2 ^ M - overhead M).
  2:{ unfold PAGE_SIZE in *. rewrite wrap_small by (unfold fits; lia).
      replace ((q + 2 ^ M) * 4096 - (q * 4096 + overhead M * 4096)) with ((2 ^ M - overhead M) * 4096) by lia.
      by rewrite Z.div_mul. }
  replace (2 ^ M - (2 ^ M - overhead M)) with (overhead M) by lia.
  rewrite (wrap_small 32) by (unfold fits; lia).
  replace (2 ^ M - overhead M - overhead M) with (2 ^ M - 2 * overhead M) by lia.
  rewrite (wrap_small 64) by (unfold fits; lia).
  rewrite (proj2 (Z.ltb_ge _ _)) by (unfold PAGE_SIZE; lia).
  replace ((q * PAGE_SIZE + overhead M * PAGE_SIZE - (q * PAGE_SIZE + 576 * (M + 1))) / SIZEOF_BUDDY_BLOCK)
    with ((4096 * overhead M - 576 * (M + 1)) / 24)
    by (unfold PAGE_SIZE, SIZEOF_BUDDY_BLOCK; f_equal; lia).
  set (len := (4096 * overhead M - 576 * (M + 1)) / 24) in *.
  destruct (init_lists M len) as (h1&h2&E1&E2&He&Hp); [lia|]. bind_step E1. bind_step E2.
  destruct (mark_waste M len (2 ^ M - 2 * overhead M) h2) as (h3&E3&Hm); [lia|lia|done|done|done|].
  bind_step E3. destruct (proj2 Hm 0) as (b&Hb&_&Hl&Hw); [lia|].
  rewrite (modify_spec _ _ _ _ Hb). cbn [mbind outcome_bind].
  unfold put_next at 1, put_prev at 1. rewrite lookup_insert_eq. cbn [deref mbind outcome_bind].
  rewrite insert_insert_eq, lookup_insert_eq. cbn [deref mbind outcome_bind]. rewrite insert_insert_eq.
  match goal with |- context [<[Block 0 := ?b']> h3] => set (b0 := b') end.
  assert (HC : core M (2 ^ M - 2 * overhead M) (<[Block 0 := b0]> h3) {[0 := M]} {[0]}).
  { apply (init_core _ _ len); try done; [lia|]. change (is_waste b0) with (is_waste b).
    rewrite Hw, (proj2 (Z.ltb_lt 0 (2 ^ M))) by lia. apply andb_true_r. }
  destruct (core_give HC 0 M) as (h'&E'&HC'); [by rewrite lookup_singleton_eq|set_solver|].
  unfold head_of in E'. rewrite (proj2 (Z.ltb_lt _ _)) in E' by lia.
  rewrite E'. cbn [mbind outcome_bind]. exists h'. split; [done|].
  by replace ({[0]} ∖ {[0]}) with (∅ : gset Z) in HC' by set_solver.
Qed.

End init.

(** Registering one more pool. *)
Lemma pools_inv_snoc pools gs p B A : pools_inv pools gs → pool_inv p B A →
  (∀ k p', pools !! k = Some p' → pages_end p' <= pages_start p ∨ pages_end p <= pages_start p') →
  pools_inv (pools ++ [p]) (gs ++ [(B, A)]).
Proof.
  intros HI HP Hnew. split.
  - apply Forall2_app; [apply HI|]. by constructor.
  - intros j k p1 p2 Hj Hk Hne.
    apply lookup_app_Some in Hj as [Hj|[? Hj]], Hk as [Hk|[? Hk]];
      rewrite ?list_lookup_singleton_Some in *.
    + by eapply (ps_apart _ _ HI).
    + destruct Hk as [? <-]. by eapply Hnew.
    + destruct Hj as [? <-]. destruct (Hnew _ _ Hk); auto.
    + lia.
Qed.

Lemma live_snoc pools gs p B a r : length gs = length pools →
  live (pools ++ [p]) (gs ++ [(B, ∅)]) a r ↔ live pools gs a r.
Proof.
  intros Hlen. split; intros (k&p'&B'&A'&Hp&Hg&Hl).
  - apply lookup_app_Some in Hp as [Hp|[Hk Hp]].
    + rewrite lookup_app_l in Hg by (rewrite Hlen; by eapply lookup_lt_Some). by exists k, p', B', A'.
    + rewrite lookup_app_r in Hg by lia. apply list_lookup_singleton_Some in Hg as [_ [= <- <-]].
      destruct Hl as (i&Hi&_). set_solver.
  - exists k, p', B', A'. rewrite !lookup_app_l by (eapply lookup_lt_Some; eauto). done.
Qed.

Lemma initial_pool_inv q fl M h : 0 < q → 4 <= M < 31 → (q + 2 ^ M) * PAGE_SIZE < 2 ^ 64 →
  core M (2 ^ M - 2 * overhead M) h {[0 := M]} ∅ →
  pool_inv (initial_pool (q * PAGE_SIZE) ((q + 2 ^ M) * PAGE_SIZE) fl M h) {[0 := M]} ∅.
Proof.
  intros Hq HM Hend HC. pose proof (layout M HM). pose proof (init_pow M HM). split; simpl.
  - by apply initial_geometry.
  - by replace (waste_start _) with (2 ^ M - 2 * overhead M) by (unfold waste_start; simpl; lia).
  - set_solver.
  - intros i o [<- <-]%lookup_singleton_Some. lia.
  - split; [lia|]. intros i o [<- <-]%lookup_singleton_Some. done.
  - unfold allocated_pages. rewrite elements_empty. simpl. rewrite Z.sub_0_r. symmetry. apply wrap_small. unfold fits. lia.
Qed.

(** ** Idle pools *)

(** Without allocated tiles, a tile below the maximal order has a smaller one next to it. *)
Lemma idle_smaller M B i o : tiling M B → coalesced M B ∅ → B !! i = Some o → o < M →
  ∃ i' o', B !! i' = Some o' ∧ 0 <= o' < o.
Proof.
  intros HT Hco Hi Ho. destruct (buddy_is_tile HT i o Hi Ho) as (_&o'&Hb&Hle).
  pose proof (t_ok _ _ HT _ _ Hb) as ([? _]&_). exists (buddy_of i o), o'. split; [done|].
  destruct (decide (o' = o)) as [->|]; [|lia].
  pose proof (Hco i o Hi Ho ltac:(set_solver) Hb). set_solver.
Qed.

Lemma idle_single M B : tiling M B → coalesced M B ∅ → 0 <= M → B = {[0 := M]}.
Proof.
  intros HT Hco HM.
  assert (Hmin : ∀ n : nat, ∀ i o, B !! i = Some o → o <= Z.of_nat n → ∃ i', B !! i' = Some M).
  { induction n as [|n IH]; intros i o Hi Hn; pose proof (t_ok _ _ HT _ _ Hi) as (Ho&_);
      (destruct (decide (o = M)) as [->|]; [by eauto|]);
      destruct (idle_smaller M B i o) as (i'&o'&Hi'&?); try done; try lia.
    apply (IH i' o' Hi'). lia. }
  destruct (t_cover _ _ HT 0) as (i&o&Hi&_); [lia|].
  pose proof (t_ok _ _ HT _ _ Hi) as (Ho&_).
  destruct (Hmin (Z.to_nat o) i o Hi) as (i'&Hi'); [lia|]. by eapply full_tile_unique.
Qed.

Lemma represents_empty pools gs k p B A : pools_inv pools gs → (∀ a r, ¬ live pools gs a r) →
  pools !! k = Some p → gs !! k = Some (B, A) → pool_inv p B A → A = ∅.
Proof.
  intros HI HL Hp Hg [_ HC _ _ _ _]. apply set_eq. intros i. split; [|set_solver]. intros Hi.
  pose proof (c_alloc _ _ _ _ _ HC i Hi) as [o Ho]%elem_of_dom.
  destruct (core_lookup HC i o Ho) as (b&Hb&_). exfalso.
  apply (HL (pages_start p + i * PAGE_SIZE) (Region o (Z.min (2 ^ o) (pages p - i) * PAGE_SIZE) (btype b))).
  exists k, p, B, A. split_and!; [done|done|]. exists i. rewrite Hb. done.
Qed.

Lemma singleton_list {X} (xs : list X) x : NoDup xs → (∀ y, y ∈ xs ↔ y = x) → xs = [x].
Proof.
  intros Hnd Hx. apply Permutation_singleton_r, NoDup_Permutation; [done|apply NoDup_singleton|].
  intros y. by rewrite Hx, list_elem_of_singleton.
Qed.
