(* ===== verification/BuddyCorrect.v ===== *)
(** * The page allocator: specification

    The theorems that make static-buddy.c a correct page allocator, stated
    against the map of live regions of BuddyRegions.v, with a small pool on
    which every operation is run. *)

From S2P Require Import Prelude CircularList Bitops Buddy BuddyTiling BuddyTheory BuddyAlloc BuddyRegions BuddyInit.

(** [init_pool] on a page-aligned range of [2 ^ M] pages (4 <= M < 31) that
    does not meet the registered pools succeeds without touching memory outside
    its metadata, registers one pool whose usable pages are the range minus the
    metadata, and changes no live region. *)
Theorem init_pool_refines q fl M pools L :
  0 < q → 4 <= M < 31 → (q + 2 ^ M) * PAGE_SIZE < 2 ^ 64 → (length pools < MAX_MEMORY_POOLS)%nat →
  represents pools L →
  (∀ k p, pools !! k = Some p → pages_end p <= q * PAGE_SIZE ∨ (q + 2 ^ M) * PAGE_SIZE <= pages_start p) →
  ∃ p, init_pool (q * PAGE_SIZE) ((q + 2 ^ M) * PAGE_SIZE) fl pools = Done (pools ++ [p]) ∧
    represents (pools ++ [p]) L ∧
    pages_start p = q * PAGE_SIZE + overhead M * PAGE_SIZE ∧ pages_end p = (q + 2 ^ M) * PAGE_SIZE ∧
    free_pages p = 2 ^ M - overhead M ∧ max_order_free p = M.
Proof.
  intros Hq HM Hend Hroom (gs&HI&HL) Hap.
  destruct (init_pool_spec q fl M pools Hq HM Hend Hroom) as (h&E&HC).
  eexists; split_and!; [done| |done..].
  exists (gs ++ [({[0 := M]}, ∅)]). split.
  - apply pools_inv_snoc; [done|by apply initial_pool_inv|]. intros k p Hk. specialize (Hap _ _ Hk).
    pose proof (layout M HM). simpl. unfold PAGE_SIZE in *. lia.
  - intros a r. rewrite HL. by rewrite live_snoc by by apply pools_inv_length.
Qed.

(** C1: [buddy_allocate] refines allocation in a store of disjoint regions.
    On pools that represent the live regions [L], a request of [size > 0] bytes
    never panics, leaves the list structure intact and either returns null
    without changing the pools, or returns a page-aligned address of a fresh
    region of at least [size] bytes inside a pool, of the smallest order that
    fits, that does not overlap any live region and is the only change to
    [L]. *)
Theorem buddy_allocate_refines size ty pools L :
  represents pools L → 0 < size → size + (PAGE_SIZE - 1) < 2 ^ 64 →
  buddy_allocate size ty pools = Done (None, pools) ∨
  ∃ a r pools', buddy_allocate size ty pools = Done (Some a, pools') ∧
    represents pools' (<[a := r]> L) ∧ alloc_post L size ty a r.
Proof. apply allocate_represents. Qed.

(** [buddy_allocate] is complete: when it returns null, no pool that passes
    the order, free-page and size tests of the code has a free tile of
    sufficient order whose first [n] pages are usable, [n] being the number of
    pages of the request. *)
Theorem buddy_allocate_complete size ty pools gs pools' :
  pools_inv pools gs → 0 < size → size + (PAGE_SIZE - 1) < 2 ^ 64 →
  buddy_allocate size ty pools = Done (None, pools') →
  ∀ k p B A i o, pools !! k = Some p → gs !! k = Some (B, A) →
    eligible p size (Z.log2_up (request_pages size)) (request_pages size) →
    B !! i = Some o → i ∉ A → Z.log2_up (request_pages size) <= o →
    waste_start p < i + request_pages size.
Proof.
  intros HI Hs0 Hs E k p B A i o Hp Hg Hel Hi HiA Ho.
  destruct (buddy_allocate_cases size ty pools gs HI Hs0 Hs)
    as [(k'&p'&B1&A1&B'&i'&h&b&fp&m&E'&_)|[_ Hf]]; [congruence|].
  pose proof (Hf k p B A i o ltac:(lia) Hp Hg Hel Hi HiA Ho) as Hn. unfold fitting in Hn. lia.
Qed.

(** C10: [buddy_deallocate] of the address of any live region succeeds, removes
    exactly that region and preserves the representation, whatever merges with
    free buddies it performs. *)
Theorem buddy_deallocate_refines pools L a r :
  represents pools L → L !! a = Some r →
  ∃ pools', buddy_deallocate a pools = Done pools' ∧ represents pools' (delete a L).
Proof. apply deallocate_represents. Qed.


(** On a live region, [buddy_get_type] reports the type it was allocated
    with and [buddy_get_size] the size of its block, [2 ^ order] pages, as long
    as that size is representable in an [int]. *)
Theorem buddy_queries pools L a r :
  represents pools L → L !! a = Some r →
  buddy_get_type a pools = Done (rg_type r) ∧
  buddy_get_size a pools = (if bool_decide (2 ^ rg_order r * PAGE_SIZE < 2 ^ 31)
    then Done (2 ^ rg_order r * PAGE_SIZE) else Undef).
Proof. apply queries_represents. Qed.

(** [buddy_reallocate] of a live region keeps its contents.  It returns the
    same address when the order does not change, null (and the old region) when
    the new block cannot be allocated, and otherwise the address of a fresh
    region that replaces the old one and starts with the bytes of the old one;
    no byte of any other live region is written. *)
Theorem buddy_reallocate_refines pools L a r size m :
  represents pools L → L !! a = Some r → 2 ^ rg_order r * PAGE_SIZE < 2 ^ 31 →
  0 < size → size + (PAGE_SIZE - 1) < 2 ^ 64 →
  (rg_order r = Z.log2_up (request_pages size) ∧
     buddy_reallocate a size pools m = Done (Some a, pools, m)) ∨
  (buddy_allocate size (rg_type r) pools = Done (None, pools) ∧ buddy_reallocate a size pools m = Done (None, pools, m)) ∨
  ∃ a' r' pools' m', buddy_reallocate a size pools m = Done (Some a', pools', m') ∧
    represents pools' (<[a' := r']> (delete a L)) ∧ alloc_post L size (rg_type r) a' r' ∧
    (∀ i, 0 <= i < size → i < rg_len r → m' (a' + i) = m (a + i)) ∧
    (∀ x rx i, delete a L !! x = Some rx → 0 <= i < rg_len rx → m' (x + i) = m (x + i)).
Proof. apply reallocate_represents. Qed.

(** ** A pool of 16 pages at 0x80000000 *)

Definition demo_pools : list memory_pool :=
  match init_pool (0x80000 * PAGE_SIZE) ((0x80000 + 2 ^ 4) * PAGE_SIZE) 0 [] with
  | Done pools => pools
  | _ => []
  end.

Lemma represents_nil : represents [] ∅.
Proof. exists []. split; [split; [constructor|done]|]. intros a r. split; [done|]. by intros (k&p&B&A&?&_). Qed.

(** A single freshly initialised pool holds no region. *)
Lemma initial_represents q fl M h : 0 < q → 4 <= M < 31 → (q + 2 ^ M) * PAGE_SIZE < 2 ^ 64 →
  core M (2 ^ M - 2 * overhead M) h {[0 := M]} ∅ →
  represents [initial_pool (q * PAGE_SIZE) ((q + 2 ^ M) * PAGE_SIZE) fl M h] ∅.
Proof.
  intros. exists [({[0 := M]}, ∅)]. split.
  - apply (pools_inv_snoc [] []); [split; [constructor|done]|by apply initial_pool_inv|done].
  - intros a r. etrans; [|symmetry; apply (live_snoc [] []); done].
    split; [done|]. by intros (k&p&B&A&?&_).
Qed.

Lemma demo_represents : represents demo_pools ∅.
Proof.
  destruct (init_pool_spec 0x80000 0 4 []) as (h&E&HC); [done|done|done|unfold MAX_MEMORY_POOLS; simpl; lia|].
  unfold demo_pools. rewrite E. cbn [app].
  refine (initial_represents 0x80000 0 4 h _ _ _ HC); [lia|lia|unfold PAGE_SIZE; lia].
Qed.

(** The same pool with two of its pages allocated. *)
Definition demo_address : Z := 0x80001 * PAGE_SIZE.
Definition demo_pools1 : list memory_pool :=
  match buddy_allocate 5000 BLOCK_TYPE_PAGE demo_pools with
  | Done (Some _, pools) => pools
  | _ => []
  end.

(** The address returned by an allocation. *)
Definition returned (o : outcome (option Z * list memory_pool)) : option Z :=
  match o with Done (r, _) => r | _ => None end.

Lemma demo_returns : returned (buddy_allocate 5000 BLOCK_TYPE_PAGE demo_pools) = Some demo_address.
Proof. vm_compute. reflexivity. Qed.

Lemma demo_allocated : ∃ r, represents demo_pools1 {[demo_address := r]} ∧ rg_order r = 1 ∧ 5000 <= rg_len r.
Proof.
  destruct (allocate_represents 5000 BLOCK_TYPE_PAGE demo_pools ∅ demo_represents) as [E|(a&r&ps&E&HR&Hp)];
    [done|done| |]; pose proof demo_returns as Ha; rewrite E in Ha; [done|].
  injection Ha as Ha. rewrite <-Ha.
  exists r. unfold demo_pools1. rewrite E. split; [exact HR|].
  destruct Hp as (_&_&Ho&Hl&_). split; [rewrite Ho; reflexivity|exact Hl].
Qed.

Lemma init_pool_refines_witness :
  ∃ p, init_pool (0x80000 * PAGE_SIZE) ((0x80000 + 2 ^ 4) * PAGE_SIZE) 0 [] = Done [p] ∧
    represents [p] ∅ ∧ free_pages p = 15.
Proof.
  destruct (init_pool_refines 0x80000 0 4 [] ∅) as (p&E&HR&_&_&Hf&_); [done|done|done| |
    apply represents_nil|done|].
  - unfold MAX_MEMORY_POOLS. simpl. lia.
  - exists p. split_and!; [exact E|exact HR|by rewrite Hf].
Defined.

Lemma buddy_allocate_refines_witness :
  ∃ a r pools', buddy_allocate 5000 BLOCK_TYPE_PAGE demo_pools = Done (Some a, pools') ∧
    represents pools' {[a := r]} ∧ alloc_post ∅ 5000 BLOCK_TYPE_PAGE a r.
Proof.
  destruct (buddy_allocate_refines 5000 BLOCK_TYPE_PAGE demo_pools ∅ demo_represents) as [E|H];
    [done|done| |exact H].
  pose proof demo_returns as Ha. rewrite E in Ha. discriminate Ha.
Defined.

(** A request of 16 pages is refused: only 14 pages of the pool are usable. *)
Lemma buddy_allocate_complete_witness :
  ∃ gs, pools_inv demo_pools gs ∧ buddy_allocate 65536 BLOCK_TYPE_PAGE demo_pools = Done (None, demo_pools) ∧
  ∀ k p B A i o, demo_pools !! k = Some p → gs !! k = Some (B, A) → eligible p 65536 4 16 →
    B !! i = Some o → i ∉ A → 4 <= o → waste_start p < i + 16.
Proof.
  destruct demo_represents as (gs&HI&_). exists gs. split; [exact HI|].
  assert (E : buddy_allocate 65536 BLOCK_TYPE_PAGE demo_pools = Done (None, demo_pools)).
  { vm_compute. reflexivity. }
  split; [exact E|]. exact (buddy_allocate_complete 65536 BLOCK_TYPE_PAGE demo_pools gs demo_pools HI eq_refl eq_refl E).
Defined.

Lemma buddy_deallocate_refines_witness :
  ∃ pools', buddy_deallocate demo_address demo_pools1 = Done pools' ∧ represents pools' ∅.
Proof.
  destruct demo_allocated as (r&HR&_).
  destruct (buddy_deallocate_refines demo_pools1 {[demo_address := r]} demo_address r HR) as (pools'&E'&HR').
  - apply lookup_singleton_eq.
  - exists pools'. split; [exact E'|]. by rewrite delete_singleton_eq in HR'.
Defined.


Lemma buddy_queries_witness : buddy_get_size demo_address demo_pools1 = Done 8192.
Proof.
  destruct demo_allocated as (r&HR&Ho&_).
  destruct (buddy_queries demo_pools1 {[demo_address := r]} demo_address r HR) as [_ Hs];
    [apply lookup_singleton_eq|].
  rewrite Hs, Ho. reflexivity.
Defined.

Lemma buddy_reallocate_refines_witness :
  ∃ a' pools' m', buddy_reallocate demo_address 10000 demo_pools1 (λ x, x mod 256) = Done (Some a', pools', m') ∧
    ∀ i, 0 <= i < 5000 → m' (a' + i) = (demo_address + i) mod 256.
Proof.
  destruct demo_allocated as (r&HR&Ho&Hl).
  destruct (buddy_reallocate_refines demo_pools1 {[demo_address := r]} demo_address r 10000 (λ x, x mod 256) HR)
    as [[E _]|[[_ E]|(a'&r'&pools'&m'&E&_&_&Hm&_)]].
  - apply lookup_singleton_eq.
  - rewrite Ho. reflexivity.
  - reflexivity.
  - reflexivity.
  - rewrite Ho in E. vm_compute in E. discriminate.
  - apply (f_equal (λ o, match o with Done (x, _, _) => x | _ => None end)) in E.
    vm_compute in E. discriminate.
  - exists a', pools', m'. split; [exact E|]. intros i Hi. apply Hm; lia.
Defined.

(** ** Limits of the implementation *)

(** A pool of 30 pages, whose size is not a power of two: [init_pool] marks
    waste pages up to the number of pages of the range only, so the blocks
    between there and [2 ^ max_order] look usable, and an allocation can run
    past the end of the pool. *)
Example allocation_past_pool_end :
  match init_pool (0x80000 * PAGE_SIZE) ((0x80000 + 30) * PAGE_SIZE) 0 [] with
  | Done pools =>
      match buddy_allocate PAGE_SIZE BLOCK_TYPE_PAGE pools with
      | Done (Some _, pools) =>
          match buddy_allocate (15 * PAGE_SIZE) BLOCK_TYPE_PAGE pools with
          | Done (Some a, [p]) => pages_end p < a + 15 * PAGE_SIZE
          | _ => False
          end
      | _ => False
      end
  | _ => False
  end.
Proof. by vm_compute. Qed.

(** The size of a request is rounded up modulo [2 ^ 64]: the largest requests
    become requests for zero pages, which are served with a single page. *)
Example huge_request_gets_one_page :
  match buddy_allocate (2 ^ 64 - 1) BLOCK_TYPE_PAGE demo_pools1 with
  | Done (Some _, [p]) => free_pages p = 12
  | _ => False
  end.
Proof. by vm_compute. Qed.
