(* ===== verification/PageSource.v ===== *)
(** * The page allocator as an interface

    What slab-alloc.c, malloc.c and page_alloc.c use of static-buddy.c.  The
    clients are modelled over [PageSource] and proved against the laws of
    [PageSourceSpec]; the instances at the end show that the buddy allocator
    satisfies them. *)

From S2P Require Import Prelude CircularList Bitops Buddy BuddyTiling BuddyTheory BuddyAlloc BuddyRegions BuddyInit.

(** The operations of static-buddy.h. *)
Class PageSource (S : Type) := {
  page_allocate : Z → block_type → S → outcome (option Z * S);
  page_deallocate : Z → S → outcome S;
  page_get_type : Z → S → outcome block_type;
  page_get_size : Z → S → outcome Z;
  page_reallocate : Z → Z → S → memory → outcome (option Z * S * memory);
}.

(** The regions of a page source are page-aligned, inside the address space
    and pairwise disjoint. *)
Definition region_ok (a : Z) (r : region) : Prop :=
  0 < a ∧ ALIGN_PAGE_DOWN a = a ∧ 0 < rg_len r <= 2 ^ rg_order r * PAGE_SIZE ∧
  a + rg_len r < 2 ^ 64 ∧ 0 <= rg_order r.

Class PageSourceSpec (S : Type) `{!PageSource S} := {
  holds : S → gmap Z region → Prop;
  holds_ok s L a r : holds s L → L !! a = Some r → region_ok a r;
  holds_apart s L a r a' r' : holds s L → L !! a = Some r → L !! a' = Some r' → a ≠ a' →
    apart a (rg_len r) a' (rg_len r');
  allocate_law size ty s L : holds s L → 0 < size → size + (PAGE_SIZE - 1) < 2 ^ 64 →
    page_allocate size ty s = Done (None, s) ∨
    ∃ a r s', page_allocate size ty s = Done (Some a, s') ∧ holds s' (<[a := r]> L) ∧
      alloc_post L size ty a r;
  deallocate_law s L a r : holds s L → L !! a = Some r →
    ∃ s', page_deallocate a s = Done s' ∧ holds s' (delete a L);
  get_type_law s L a r : holds s L → L !! a = Some r → page_get_type a s = Done (rg_type r);
  get_size_law s L a r : holds s L → L !! a = Some r →
    page_get_size a s = (if bool_decide (2 ^ rg_order r * PAGE_SIZE < 2 ^ 31)
      then Done (2 ^ rg_order r * PAGE_SIZE) else Undef);
  reallocate_law s L a r size m :
    holds s L → L !! a = Some r → 2 ^ rg_order r * PAGE_SIZE < 2 ^ 31 →
    0 < size → size + (PAGE_SIZE - 1) < 2 ^ 64 →
    (rg_order r = Z.log2_up (request_pages size) ∧
       page_reallocate a size s m = Done (Some a, s, m)) ∨
    (page_allocate size (rg_type r) s = Done (None, s) ∧ page_reallocate a size s m = Done (None, s, m)) ∨
    ∃ a' r' s' m', page_reallocate a size s m = Done (Some a', s', m') ∧
      holds s' (<[a' := r']> (delete a L)) ∧ alloc_post L size (rg_type r) a' r' ∧
      (∀ i, 0 <= i < size → i < rg_len r → m' (a' + i) = m (a + i)) ∧
      (∀ x rx i, delete a L !! x = Some rx → 0 <= i < rg_len rx → m' (x + i) = m (x + i));
}.

(** ** The buddy allocator is a page source *)

#[global] Instance buddy_source : PageSource (list memory_pool) := {
  page_allocate := buddy_allocate;
  page_deallocate := buddy_deallocate;
  page_get_type := buddy_get_type;
  page_get_size := buddy_get_size;
  page_reallocate := buddy_reallocate;
}.

Lemma represents_region_ok pools L a r : represents pools L → L !! a = Some r → region_ok a r.
Proof.
  intros (gs&HI&HL) (k&p&B&A&Hp&Hg&Hl)%HL. destruct (pools_inv_lookup _ _ _ _ HI Hp) as (?&?&?&HP).
  simplify_eq. destruct (pool_live_range _ _ _ _ _ HP Hl) as (?&?&?&?&?&?).
  pose proof (g_end _ (pi_geom _ _ _ HP)). destruct Hl as (i&_&_&_&Hlen&_).
  unfold region_ok. split_and!; try done; try lia. rewrite Hlen. apply Z.mul_le_mono_nonneg_r; [done|lia].
Qed.

#[global] Instance buddy_source_spec : PageSourceSpec (list memory_pool).
Proof.
  refine {| holds := represents |}.
  - apply represents_region_ok.
  - intros pools L a r a' r' (gs&HI&HL) Ha%HL Ha'%HL. by apply (live_apart pools gs).
  - intros size ty pools L. apply allocate_represents.
  - apply deallocate_represents.
  - intros pools L a r HR Ha. apply (queries_represents _ _ _ _ HR Ha).
  - intros pools L a r HR Ha. apply (queries_represents _ _ _ _ HR Ha).
  - apply reallocate_represents.
Defined.
