(* ===== verification/Slab.v ===== *)
(** * The slab allocator

    kernel/src/malloc/slab-alloc.c.  Pages of 32, 64, 128 or 256 byte slots,
    each with a header at its start; the headers are kept in four times five
    lists, by slot size and by how full the page is. *)

From S2P Require Import Prelude CircularList ListFamily Bitops Buddy BuddyRegions PageSource.

Definition BITMAP_WORDS : nat := 4.
Definition DATA_OFFSET : Z := 64.

Definition SLAB_SIZE_32 : nat := 0.
Definition SLAB_SIZE_64 : nat := 1.
Definition SLAB_SIZE_128 : nat := 2.
Definition SLAB_SIZE_256 : nat := 3.

Definition SLAB_USE_FULL : nat := 4.
Definition SLAB_USE_NEAR_FULL : nat := 3.
Definition SLAB_USE_ALMOST_EMPTY : nat := 1.
Definition SLAB_USE_EMPTY : nat := 0.

Definition slab_bytes : list Z := [32; 64; 128; 256].
Definition slab_tresholds : list (list Z) :=
  [[0; 32; 64; 126]; [0; 16; 32; 63]; [0; 8; 16; 31]; [0; 4; 8; 15]].
Definition UINT32_MAX : Z := 0xFFFFFFFF.
Definition slab_empty : list (list Z) :=
  [[UINT32_MAX; UINT32_MAX; UINT32_MAX; 0x3FFFFFFF];
   [UINT32_MAX; 0x7FFFFFFF; 0; 0];
   [0x7FFFFFFF; 0; 0; 0];
   [0x00007FFF; 0; 0; 0]].

(** A [slab_header_t *]: an entry of the static [slabs] array or the start of
    a slab page. *)
Inductive snode := Head (size use : nat) | Page (addr : Z).

#[global] Instance snode_eq_dec : EqDecision snode.
Proof. solve_decision. Defined.
#[global] Instance snode_countable : Countable snode.
Proof.
  refine (inj_countable'
    (λ n, match n with Head s u => inl (s, u) | Page a => inr a end)
    (λ x, match x with inl (s, u) => Head s u | inr a => Page a end) _).
  by intros [].
Defined.

Record slab_header := SlabHeader {
  size_class : nat;
  use_count : Z;
  sprev : snode;
  snext : snode;
  slab_use : nat;
  bitmap : list Z;
}.

Definition set_use_count (n : Z) (h : slab_header) : slab_header :=
  SlabHeader (size_class h) n (sprev h) (snext h) (slab_use h) (bitmap h).
Definition set_slab_use (u : nat) (h : slab_header) : slab_header :=
  SlabHeader (size_class h) (use_count h) (sprev h) (snext h) u (bitmap h).
Definition set_bitmap (i : nat) (w : Z) (h : slab_header) : slab_header :=
  SlabHeader (size_class h) (use_count h) (sprev h) (snext h) (slab_use h) (<[i := w]> (bitmap h)).

#[global] Instance slab_links : Links snode slab_header (nat * Z * nat * list Z) := {
  lnext := snext;
  lprev := sprev;
  set_next k h := SlabHeader (size_class h) (use_count h) (sprev h) k (slab_use h) (bitmap h);
  set_prev k h := SlabHeader (size_class h) (use_count h) k (snext h) (slab_use h) (bitmap h);
  payload h := (size_class h, use_count h, slab_use h, bitmap h);
}.
#[global] Instance slab_links_laws : LinksLaws snode slab_header (nat * Z * nat * list Z).
Proof. by split. Qed.

Abbreviation headers := (gmap snode slab_header).

(** The static lists and the page headers, and the allocator the pages come from. *)
Record slab_state (PS : Type) := SlabState { store : headers; source : PS }.
Arguments SlabState {PS} store source.
Arguments store {PS}.
Arguments source {PS}.

Definition bitmap_clear_bit (word bit_index : Z) : outcome Z :=
  if 31 <? bit_index then Panic else Done (Z.land word (wnot 32 (Z.shiftl 1 bit_index))).
Definition bitmap_set_bit (word bit_index : Z) : outcome Z :=
  if 31 <? bit_index then Panic else Done (Z.lor word (Z.shiftl 1 bit_index)).

Definition update (k : snode) (f : slab_header → slab_header) (h : headers) : outcome headers :=
  b ← deref (h !! k); Done (<[k := f b]> h).

(** [init_slab] does not write the links. *)
Definition init_slab (size : nat) (old : slab_header) : outcome slab_header :=
  words ← deref (slab_empty !! size);
  Done (SlabHeader size 1 (sprev old) (snext old) SLAB_USE_ALMOST_EMPTY words).

(** A page that has never held a slab. *)
Definition blank_header : slab_header := SlabHeader 0 0 (Head 0 0) (Head 0 0) 0 [].

Definition threshold (size i : nat) : outcome Z :=
  row ← deref (slab_tresholds !! size); deref (row !! i).

(** The search of [get_slab] through the lists [i], [i - 1], ..., [0]. *)
Fixpoint find_slab (i : nat) (size : nat) (h : headers) : outcome (option snode * headers) :=
  empty ← list_empty (Head size i) h;
  if (empty : bool) then
    match i with O => Done (None, h) | S i' => find_slab i' size h end
  else
    head ← deref (h !! Head size i);
    let slab := sprev head in
    h ← update slab (λ s, set_use_count (u8 (use_count s + 1)) s) h;
    s ← deref (h !! slab);
    t ← threshold size i;
    if t <=? use_count s then
      h ← list_remove slab h;
      h ← list_push_back (Head size (i + 1)) slab h;
      h ← update slab (λ s, set_slab_use (slab_use s + 1) s) h;
      Done (Some slab, h)
    else Done (Some slab, h).

Section slab.
Context {PS : Type} `{!PageSource PS}.

Definition get_slab (size : nat) (st : slab_state PS) : outcome (option snode * slab_state PS) :=
  '(found, h) ← find_slab SLAB_USE_NEAR_FULL size (store st);
  match found with
  | Some slab => Done (Some slab, SlabState h (source st))
  | None =>
      '(allocation, src) ← page_allocate (1 * PAGE_SIZE) BLOCK_TYPE_SLAB (source st);
      match allocation with
      | None => Done (None, SlabState h src)
      | Some a =>
          s ← init_slab size (default blank_header (h !! Page a));
          h ← list_push_back (Head size SLAB_USE_ALMOST_EMPTY) (Page a) (<[Page a := s]> h);
          Done (Some (Page a), SlabState h src)
      end
  end.

(** Clear the first set bit among words [i], [i + 1], ..., [3]. *)
Fixpoint take_slot (k i : nat) (page : snode) (h : headers) : outcome (option Z * headers) :=
  match k with
  | O => Done (None, h)
  | S k =>
      p ← deref (h !! page);
      word ← deref (bitmap p !! i);
      if word =? 0 then take_slot k (i + 1) page h else
      let bit_index := find_first_trailing_set_bit32 word in
      word ← bitmap_clear_bit word bit_index;
      h ← update page (set_bitmap i word) h;
      Done (Some (Z.of_nat i * 32 + bit_index), h)
  end.

Definition class_of (size : Z) : nat :=
  if 128 <? size then SLAB_SIZE_256
  else if 64 <? size then SLAB_SIZE_128
  else if 32 <? size then SLAB_SIZE_64
  else SLAB_SIZE_32.

Definition slab_allocate (size : Z) (st : slab_state PS) : outcome (option Z * slab_state PS) :=
  if 256 <? size then Done (None, st) else
  let slab_type := class_of size in
  '(page, st) ← get_slab slab_type st;
  match page with
  | None => Done (None, st)
  | Some (Head _ _) => Undef
  | Some (Page a) =>
      '(slot, h) ← take_slot BITMAP_WORDS 0 (Page a) (store st);
      let st := SlabState h (source st) in
      match slot with
      | None => Done (None, st)
      | Some index =>
          bytes ← deref (slab_bytes !! slab_type);
          Done (Some (u64 (a + DATA_OFFSET + index * bytes)), st)
      end
  end.

Definition slab_deallocate (ptr : Z) (st : slab_state PS) : outcome (slab_state PS) :=
  if ptr =? 0 then Done st else
  let header := ALIGN_PAGE_DOWN ptr in
  let offset := u64 (u64 (ptr - header) - DATA_OFFSET) in
  hd ← deref (store st !! Page header);
  bytes ← deref (slab_bytes !! size_class hd);
  let total_bit_index := u32 (offset / bytes) in
  let word_index := Z.to_nat (total_bit_index / 32) in
  let bit_index := total_bit_index mod 32 in
  word ← deref (bitmap hd !! word_index);
  new_bitmap ← bitmap_set_bit word bit_index;
  if word =? new_bitmap then Done st else
  h ← update (Page header) (set_bitmap word_index new_bitmap) (store st);
  h ← update (Page header) (λ s, set_use_count (u8 (use_count s - 1)) s) h;
  hd ← deref (h !! Page header);
  (* [slab_use] is unsigned: for an empty page the index wraps out of the row *)
  t ← match slab_use hd with O => Undef | S u => threshold (size_class hd) u end;
  if use_count hd <=? t then
    h ← update (Page header) (λ s, set_slab_use (slab_use s - 1) s) h;
    h ← list_remove (Page header) h;
    hd ← deref (h !! Page header);
    empty ← (if bool_decide (SLAB_USE_EMPTY < slab_use hd)%nat then Done true
             else list_empty (Head (size_class hd) (slab_use hd)) h);
    if (empty : bool) then
      h ← list_push_back (Head (size_class hd) (slab_use hd)) (Page header) h;
      Done (SlabState h (source st))
    else
      src ← page_deallocate header (source st);
      Done (SlabState h src)
  else Done (SlabState h (source st)).

Definition slab_get_size (ptr : Z) (st : slab_state PS) : outcome Z :=
  if ptr =? 0 then Done 0 else
  hd ← deref (store st !! Page (ALIGN_PAGE_DOWN ptr));
  deref (slab_bytes !! size_class hd).
End slab.

(** The heads of the twenty lists, before and after [init_kernel_slabs]. *)
Definition all_heads : list snode :=
  flat_map (λ s, map (Head s) (seq 0 5)) (seq 0 4).

Fixpoint init_heads (heads : list snode) (h : headers) : outcome headers :=
  match heads with
  | [] => Done h
  | hd :: heads => h ← list_init hd h; init_heads heads h
  end.

(** Static storage is cleared. *)
Definition boot_headers : headers := list_to_map (map (λ hd, (hd, blank_header)) all_heads).

Definition init_kernel_slabs (h : headers) : outcome headers := init_heads all_heads h.
