(* ===== verification/SlabTheory.v ===== *)
(** * Correctness of the slab allocator

    The invariant of slab-alloc.c: every slab page is in the list of its size
    and use class, its use count is the number of its allocated slots, its use
    class is the one the thresholds prescribe, and its bitmap has a bit set for
    every free slot and no other. *)

From S2P Require Import Prelude CircularList ListFamily Bitops Buddy BuddyRegions PageSource Slab.

(** ** Size and use classes *)

Definition bytes_of (s : nat) : Z := nth s slab_bytes 0.
Definition thr (s i : nat) : Z := nth i (nth s slab_tresholds []) 0.
(** Slots of a page. *)
Definition slots_of (s : nat) : Z := thr s 3.

(** Use class [u] of a page of class [s] with [n] allocated slots. *)
Definition use_ok (s u : nat) (n : Z) : Prop :=
  match u with
  | 0%nat => n = 0
  | 1%nat => 1 <= n <= thr s 1
  | 2%nat => thr s 1 <= n <= thr s 2
  | 3%nat => thr s 2 <= n < thr s 3
  | 4%nat => n = thr s 3
  | _ => False
  end.

(** Case analysis on a size class. *)
Ltac classes s := destruct s as [|[|[|[|s]]]]; [| | | |exfalso; lia].

Lemma class_values s : (s < 4)%nat →
  slab_bytes !! s = Some (bytes_of s) ∧ 0 < bytes_of s ∧ 15 <= slots_of s <= 126 ∧
  DATA_OFFSET + slots_of s * bytes_of s <= PAGE_SIZE ∧
  (∀ i, (i < 4)%nat → threshold s i = Done (thr s i)).
Proof.
  intros Hs. classes s; (split_and!; [reflexivity|done|done|done|done|]);
    intros i Hi; classes i; reflexivity.
Qed.

(** One more allocated slot, as [get_slab] accounts for it. *)
Lemma use_up s u n : (s < 4)%nat → (u < 4)%nat → use_ok s u n →
  n < slots_of s ∧ use_ok s (if thr s u <=? n + 1 then u + 1 else u) (n + 1).
Proof.
  intros Hs Hu. unfold slots_of. classes s; classes u; unfold thr; cbn -[Z.add Z.leb Z.le Z.lt];
    intros ?; split; try lia;
    match goal with |- context [?a <=? ?b] => destruct (Z.leb_spec a b) end; cbn -[Z.add Z.le Z.lt]; lia.
Qed.

Lemma use_bound s u n : (s < 4)%nat → use_ok s u n → n <= slots_of s.
Proof.
  intros Hs. destruct u as [|[|[|[|[|u]]]]]; [..|done];
    classes s; unfold slots_of, thr; cbn -[Z.le Z.lt]; lia.
Qed.

(** One slot less, as [slab_deallocate] accounts for it. *)
Lemma use_down s u n : (s < 4)%nat → use_ok s u n → 1 <= n →
  ∃ u', u = S u' ∧ (u' < 4)%nat ∧ use_ok s (if n - 1 <=? thr s u' then u' else u) (n - 1).
Proof.
  intros Hs Hu Hn. destruct u as [|u]; [simpl in Hu; lia|]. exists u. split; [done|].
  assert (u < 4)%nat by (destruct u as [|[|[|[|u]]]]; [lia..|done]). split; [done|].
  revert Hu. classes s; classes u; unfold thr; cbn -[Z.sub Z.leb Z.le Z.lt]; intros ?;
    match goal with |- context [?a <=? ?b] => destruct (Z.leb_spec a b) end; cbn -[Z.sub Z.le Z.lt]; lia.
Qed.

(** ** Bitmaps *)

Definition bit_at (ws : list Z) (i : Z) : bool :=
  match ws !! Z.to_nat (i / 32) with Some w => Z.testbit w (i mod 32) | None => false end.

Lemma bit_at_word ws (k : nat) w b : ws !! k = Some w → 0 <= b < 32 →
  bit_at ws (Z.of_nat k * 32 + b) = Z.testbit w b.
Proof.
  intros Hw Hb. unfold bit_at. rewrite Z.div_add_l, (Z.div_small b 32), Z.add_0_r, Nat2Z.id, Hw by lia.
  rewrite Z.add_comm, Z.mod_add, Z.mod_small by lia. done.
Qed.

Lemma bit_split i : 0 <= i < 128 →
  i = Z.of_nat (Z.to_nat (i / 32)) * 32 + i mod 32 ∧ (Z.to_nat (i / 32) < 4)%nat ∧ 0 <= i mod 32 < 32.
Proof.
  intros Hi. pose proof (Z.div_mod i 32). pose proof (Z.mod_pos_bound i 32).
  rewrite Z2Nat.id by (apply Z.div_pos; lia). split_and!; lia.
Qed.

(** Writing bit [b] of word [k]. *)
Lemma bit_at_insert ws (k : nat) w w' b v : ws !! k = Some w → 0 <= b < 32 →
  (∀ n, 0 <= n < 32 → Z.testbit w' n = if decide (n = b) then v else Z.testbit w n) →
  ∀ i, 0 <= i < 128 →
  bit_at (<[k := w']> ws) i = if decide (i = Z.of_nat k * 32 + b) then v else bit_at ws i.
Proof.
  intros Hw Hb Hw' i Hi. destruct (bit_split i Hi) as (Ei&Hk&Hm).
  unfold bit_at. destruct (decide (Z.to_nat (i / 32) = k)) as [E|Hne].
  - rewrite E, list_lookup_insert_eq, Hw, Hw' by (done || by eapply lookup_lt_Some).
    destruct (decide (i mod 32 = b)), (decide (i = Z.of_nat k * 32 + b)); try done; lia.
  - rewrite list_lookup_insert_ne by done. resolve_decide. done.
Qed.

(** ** The invariant *)

(** A slab page: its size class, its use class and its allocated slots. *)
Record slab_page := SlabPage { pg_class : nat; pg_use : nat; pg_slots : gset Z }.

Implicit Types (G : gmap Z slab_page).

Definition count (U : gset Z) : Z := Z.of_nat (size U).

Definition is_slab_head (x : snode) : Prop :=
  match x with Head s u => (s < 4)%nat ∧ (u < 5)%nat | Page _ => False end.

Definition in_list_of (G : gmap Z slab_page) (x : snode) : option snode :=
  match x with
  | Head _ _ => None
  | Page a => (λ pg, Head (pg_class pg) (pg_use pg)) <$> G !! a
  end.

(** The header [hd] of a page; its use count is ahead by [d] of the bitmap. *)
Record page_ok (d : Z) (hd : slab_header) (pg : slab_page) : Prop := {
  po_class : size_class hd = pg_class pg;
  po_range : (pg_class pg < 4)%nat;
  po_use : slab_use hd = pg_use pg;
  po_count : use_count hd = count (pg_slots pg) + d;
  po_bucket : use_ok (pg_class pg) (pg_use pg) (count (pg_slots pg) + d);
  po_words : length (bitmap hd) = BITMAP_WORDS ∧ Forall (fits 32) (bitmap hd);
  po_slots i : i ∈ pg_slots pg → 0 <= i < slots_of (pg_class pg);
  po_bits i : 0 <= i < 128 →
    bit_at (bitmap hd) i = bool_decide (i < slots_of (pg_class pg) ∧ i ∉ pg_slots pg) }.

(** [fl] is the page that has been picked by [get_slab] and has not given out
    its slot yet. *)
Definition ahead (fl : option Z) (a : Z) : Z := if decide (fl = Some a) then 1 else 0.

Record slab_core (h : headers) (G : gmap Z slab_page) (fl : option Z) : Prop := {
  sc_family : family is_slab_head h (in_list_of G);
  sc_pages a pg : G !! a = Some pg → ∃ hd, h !! Page a = Some hd ∧ page_ok (ahead fl a) hd pg }.

Lemma in_list_of_page G x hd : in_list_of G x = Some hd →
  ∃ a pg, x = Page a ∧ G !! a = Some pg ∧ hd = Head (pg_class pg) (pg_use pg).
Proof.
  destruct x as [|a]; [done|]. simpl. intros (pg&?&->)%fmap_Some. eauto.
Qed.

Lemma page_ok_payload d hd hd' pg : payload hd' = payload hd → page_ok d hd pg → page_ok d hd' pg.
Proof. intros [= E1 E2 E3 E4] [? ? ? ? ? ? ? ?]. split; rewrite ?E1, ?E2, ?E3, ?E4; done. Qed.

(** Link changes keep the pages. *)
Lemma pages_payload (h h' : headers) G fl :
  payload <$> h' = payload <$> h →
  (∀ a pg, G !! a = Some pg → ∃ hd, h !! Page a = Some hd ∧ page_ok (ahead fl a) hd pg) →
  ∀ a pg, G !! a = Some pg → ∃ hd, h' !! Page a = Some hd ∧ page_ok (ahead fl a) hd pg.
Proof.
  intros Hp HP a pg Ha. destruct (HP a pg Ha) as (hd&Hd&Hok).
  destruct (payload_eq_lookup _ _ _ _ Hp Hd) as (hd'&Hd'&Hpl). exists hd'. split; [done|].
  by eapply page_ok_payload.
Qed.

(** Rewriting the header of one page. *)
Lemma pages_update (h : headers) G fl fl' a hd' pg' :
  (∀ b, b ≠ a → ahead fl' b = ahead fl b) →
  (∀ b pg, G !! b = Some pg → ∃ hd, h !! Page b = Some hd ∧ page_ok (ahead fl b) hd pg) →
  page_ok (ahead fl' a) hd' pg' →
  ∀ b pg, <[a := pg']> G !! b = Some pg → ∃ hd, <[Page a := hd']> h !! Page b = Some hd ∧ page_ok (ahead fl' b) hd pg.
Proof.
  intros Hfl HP Hok b pg Hb. destruct (decide (b = a)) as [->|Hne].
  - rewrite lookup_insert_eq in Hb. simplify_eq. exists hd'. by rewrite lookup_insert_eq.
  - rewrite lookup_insert_ne in Hb by done. rewrite lookup_insert_ne by congruence.
    rewrite Hfl by done. by apply HP.
Qed.

Lemma in_list_of_insert G a pg : ∀ x,
  in_list_of (<[a := pg]> G) x = moved (Page a) (Some (Head (pg_class pg) (pg_use pg))) (in_list_of G) x.
Proof.
  intros [s u|b]; unfold moved; cbn [in_list_of]; [by rewrite decide_False by done|].
  destruct (decide (Page b = Page a)) as [[= ->]|]; [by rewrite lookup_insert_eq|].
  by rewrite lookup_insert_ne by congruence.
Qed.

Lemma in_list_of_delete G a : ∀ x,
  in_list_of (delete a G) x = moved (Page a) None (in_list_of G) x.
Proof.
  intros [s u|b]; unfold moved; cbn [in_list_of]; [by rewrite decide_False by done|].
  destruct (decide (Page b = Page a)) as [[= ->]|]; [by rewrite lookup_delete_eq|].
  by rewrite lookup_delete_ne by congruence.
Qed.

Lemma update_spec k f (h : headers) b : h !! k = Some b → update k f h = Done (<[k := f b]> h).
Proof. intros E. unfold update. by bind_step E. Qed.

Lemma ahead_none a : ahead None a = 0.
Proof. done. Qed.
Lemma ahead_self a : ahead (Some a) a = 1.
Proof. unfold ahead. by resolve_decide. Qed.
Lemma ahead_other a b : b ≠ a → ahead (Some a) b = 0.
Proof. intros. unfold ahead. by rewrite decide_False by congruence. Qed.

(** ** Picking a page *)

(** Moving a page to list [u'] and setting its use class. *)
Lemma core_move (h : headers) G fl a hd pg u' : (u' < 5)%nat →
  family is_slab_head h (in_list_of G) → G !! a = Some pg → h !! Page a = Some hd →
  page_ok (ahead fl a) (set_slab_use u' hd) (SlabPage (pg_class pg) u' (pg_slots pg)) →
  (∀ b pb, b ≠ a → G !! b = Some pb → ∃ hb, h !! Page b = Some hb ∧ page_ok (ahead fl b) hb pb) →
  ∃ h1 h2 hd2, list_remove (Page a) h = Done h1 ∧
    list_push_back (Head (pg_class pg) u') (Page a) h1 = Done h2 ∧
    h2 !! Page a = Some hd2 ∧ payload hd2 = payload hd ∧ payload <$> h1 = payload <$> h ∧
    slab_core (<[Page a := set_slab_use u' hd2]> h2) (<[a := SlabPage (pg_class pg) u' (pg_slots pg)]> G) fl.
Proof.
  intros Hu HF Ha Hd Hok Hoth.
  assert (Hin : in_list_of G (Page a) = Some (Head (pg_class pg) (pg_use pg))) by (simpl; by rewrite Ha).
  destruct (family_remove is_slab_head h _ _ _ HF Hin) as (h1&E1&HF1&Hp1).
  destruct (payload_eq_lookup _ _ _ _ Hp1 Hd) as (hd1&Hd1&_).
  destruct (family_push is_slab_head h1 _ (Page a) (Head (pg_class pg) u') HF1) as (h2&E2&HF2&Hp2).
  { split; [apply Hok|done]. } { by intros []. } { unfold moved. by resolve_decide. } { done. }
  assert (Hp : payload <$> h2 = payload <$> h) by congruence.
  destruct (payload_eq_lookup _ _ _ _ Hp Hd) as (hd2&Hd2&Hpl2).
  exists h1, h2, hd2. split_and!; try done. split.
  - apply (family_data is_slab_head h2 _ _ hd2); [|done..]. eapply family_ext; [|exact HF2].
    intros x. rewrite in_list_of_insert. unfold moved. by destruct (decide (x = Page a)).
  - intros b pb Hb. destruct (decide (b = a)) as [->|Hne].
    + rewrite lookup_insert_eq in Hb. simplify_eq. rewrite lookup_insert_eq. eexists; split; [done|].
      eapply page_ok_payload; [|done]. simpl in *. congruence.
    + rewrite lookup_insert_ne in Hb by done. rewrite lookup_insert_ne by congruence.
      destruct (Hoth b pb Hne Hb) as (hb&Hhb&Hokb).
      destruct (payload_eq_lookup _ _ _ _ Hp Hhb) as (hb'&Hhb'&Hplb). exists hb'. split; [done|].
      by eapply page_ok_payload.
Qed.

Lemma count_nonneg U : 0 <= count U.
Proof. unfold count. lia. Qed.

(** The body of the loop of [get_slab] on a list that is not empty. *)
Lemma find_slab_hit (h : headers) G s i a U :
  slab_core h G None → (s < 4)%nat → (i < 4)%nat → G !! a = Some (SlabPage s i U) →
  ∃ u' h', (h ← update (Page a) (λ s, set_use_count (u8 (use_count s + 1)) s) h;
     sl ← deref (h !! Page a);
     t ← threshold s i;
     if t <=? use_count sl then
       h ← list_remove (Page a) h;
       h ← list_push_back (Head s (i + 1)) (Page a) h;
       h ← update (Page a) (λ s, set_slab_use (slab_use s + 1) s) h;
       Done (Some (Page a), h)
     else Done (Some (Page a), h)) = Done (Some (Page a), h') ∧
    slab_core h' (<[a := SlabPage s u' U]> G) (Some a) ∧ count U < slots_of s.
Proof.
  intros [HF HP] Hs Hi Ha. destruct (class_values s Hs) as (_&_&Hsl&_&Hthr).
  destruct (HP a _ Ha) as (hd&Hd&Hok). rewrite ahead_none in Hok. pose proof (count_nonneg U).
  pose proof Hok as [H1 H2 H3 H4 H5 H6 H7 H8]. cbn [pg_class pg_use pg_slots] in *.
  rewrite Z.add_0_r in H4, H5. destruct (use_up s i _ Hs Hi H5) as [Hlt Hup].
  rewrite (update_spec _ _ _ _ Hd). cbn [mbind outcome_bind]. rewrite lookup_insert_eq.
  cbn [deref mbind outcome_bind use_count set_use_count]. rewrite Hthr by done. cbn [mbind outcome_bind].
  rewrite H4, wrap_small by (unfold fits; lia).
  set (hd1 := set_use_count (count U + 1) hd). set (h1 := <[Page a := hd1]> h).
  assert (HF1 : family is_slab_head h1 (in_list_of G)) by by apply (family_data is_slab_head h _ _ hd).
  assert (Hd1 : h1 !! Page a = Some hd1) by apply lookup_insert_eq.
  assert (Hoth : ∀ b pb, b ≠ a → G !! b = Some pb → ∃ hb, h1 !! Page b = Some hb ∧ page_ok (ahead (Some a) b) hb pb).
  { intros b pb Hne Hb. subst h1. rewrite lookup_insert_ne, ahead_other by congruence. by apply HP. }
  destruct (Z.leb_spec (thr s i) (count U + 1)).
  - destruct (core_move h1 G (Some a) a hd1 _ (i + 1) ltac:(lia) HF1 Ha Hd1) as (h2&h3&hd3&E2&E3&Hd3&Hpl&_&HC);
      [|done|].
    { rewrite ahead_self. by split. }
    exists (i + 1)%nat, (<[Page a := set_slab_use (i + 1) hd3]> h3). cbn [pg_class pg_slots] in *.
    bind_step E2. bind_step E3. rewrite (update_spec _ _ _ _ Hd3). cbn [mbind outcome_bind].
    assert (slab_use hd3 = i) as -> by (simpl in Hpl; congruence). done.
  - exists i, h1. split_and!; [done| |done]. rewrite insert_id by done. split; [done|].
    intros b pb Hb. destruct (decide (b = a)) as [->|Hne]; [|by apply Hoth].
    simplify_eq. exists hd1. split; [done|]. rewrite ahead_self. by split.
Qed.

Lemma find_slab_spec (h : headers) G s i : slab_core h G None → (s < 4)%nat → (i < 4)%nat →
  (∃ a u u' U h', find_slab i s h = Done (Some (Page a), h') ∧ G !! a = Some (SlabPage s u U) ∧
     slab_core h' (<[a := SlabPage s u' U]> G) (Some a) ∧ count U < slots_of s) ∨
  (find_slab i s h = Done (None, h) ∧
     ∀ a pg, G !! a = Some pg → pg_class pg = s → (i < pg_use pg)%nat).
Proof.
  intros HC Hs. pose proof (sc_family _ _ _ HC) as HF.
  assert (Hno : ∀ a pg j, (∀ x, in_list_of G x ≠ Some (Head s j)) → G !! a = Some pg →
    pg_class pg = s → pg_use pg ≠ j).
  { intros a [s' u U] j He Ha <- <-. apply (He (Page a)). simpl. by rewrite Ha. }
  induction i as [|i IH]; intros Hi; cbn [find_slab];
    match goal with |- context [list_empty (Head s ?j) h] =>
      destruct (family_empty is_slab_head h (in_list_of G) (Head s j) HF) as [[Ee He]|(Ee&v&Hv&Hlast)];
      [split; lia| |]; rewrite Ee; cbn [mbind outcome_bind]
    end.
  2,4: left; bind_step Hv; apply in_list_of_page in Hlast as (a&[s' u U]&Ea&Ha&[= <- <-]);
    change (lprev v) with (sprev v) in Ea; rewrite Ea;
    destruct (find_slab_hit h G s _ a U HC Hs Hi Ha) as (u'&h'&E&HC'&Hlt); eauto 10.
  - right. split; [done|]. intros a pg Ha Hc. pose proof (Hno a pg 0%nat He Ha Hc). lia.
  - destruct IH as [Hyes|[E Hnone]]; [lia|by left|]. right. split; [done|].
    intros a pg Ha Hc. pose proof (Hno a pg (S i) He Ha Hc). pose proof (Hnone a pg Ha Hc). lia.
Qed.

(** ** Taking and returning a slot *)

Lemma free_slot_exists (U : gset Z) n : count U < n → ∃ i, 0 <= i < n ∧ i ∉ U.
Proof.
  intros Hlt. pose (D := (list_to_set (seqZ 0 n) : gset Z)).
  destruct (set_choose_or_empty (D ∖ U)) as [[i Hi]|He].
  - exists i. subst D. rewrite elem_of_difference, elem_of_list_to_set, elem_of_seqZ in Hi.
    split; [lia|]. by destruct Hi.
  - exfalso. assert (D ⊆ U) as Hsub by (intros i Hi; destruct (decide (i ∈ U)); set_solver).
    apply subseteq_size in Hsub. subst D. pose proof (count_nonneg U).
    rewrite size_list_to_set, length_seqZ in Hsub by apply NoDup_seqZ. unfold count in *. lia.
Qed.

Lemma testbit_one b n : 0 <= b → 0 <= n → Z.testbit (Z.shiftl 1 b) n = bool_decide (n = b).
Proof.
  intros. rewrite Z.shiftl_1_l, Z.pow2_bits_eqb by done. case_bool_decide; lia.
Qed.

Lemma land_fits w x y : fits w x → 0 <= w → fits w (Z.land x y).
Proof.
  intros Hx Hw. rewrite <-(Z.mod_small x (2 ^ w)) by done. rewrite <-Z.land_ones, <-Z.land_assoc by done.
  rewrite (Z.land_comm _ y), Z.land_assoc, Z.land_ones by done. by apply wrap_fits.
Qed.

Lemma lor_fits w x y : fits w x → fits w y → 0 <= w → fits w (Z.lor x y).
Proof.
  intros Hx Hy Hw. assert (Z.lor x y = Z.lor x y mod 2 ^ w) as ->; [|by apply wrap_fits].
  symmetry. apply Z.bits_inj'; intros n Hn. destruct (decide (n < w)).
  - by rewrite Z.mod_pow2_bits_low by lia.
  - rewrite Z.mod_pow2_bits_high, Z.lor_spec, !(testbit_above w) by (done || lia). done.
Qed.

Lemma clear_bit_bits w b : fits 32 w → 0 <= b < 32 →
  let w' := Z.land w (wnot 32 (Z.shiftl 1 b)) in
  fits 32 w' ∧ ∀ n, 0 <= n < 32 → Z.testbit w' n = if decide (n = b) then false else Z.testbit w n.
Proof.
  intros Hw Hb w'. split; [by apply land_fits|]. intros n Hn. subst w'. unfold wnot, wrap.
  rewrite Z.land_spec, Z.mod_pow2_bits_low, Z.lnot_spec, testbit_one by lia.
  case_bool_decide; case_decide; try done; [apply andb_false_r|apply andb_true_r].
Qed.

Lemma set_bit_bits w b : fits 32 w → 0 <= b < 32 →
  let w' := Z.lor w (Z.shiftl 1 b) in
  fits 32 w' ∧ (∀ n, 0 <= n < 32 → Z.testbit w' n = if decide (n = b) then true else Z.testbit w n) ∧
  (w = w' ↔ Z.testbit w b = true).
Proof.
  intros Hw Hb w'. assert (Hbits : ∀ n, 0 <= n → Z.testbit w' n = Z.testbit w n || bool_decide (n = b)).
  { intros n Hn. subst w'. by rewrite Z.lor_spec, testbit_one by lia. }
  split_and!.
  - apply lor_fits; [done| |lia]. rewrite Z.shiftl_1_l. split; [lia|]. apply Z.pow_lt_mono_r; lia.
  - intros n Hn. rewrite Hbits by lia. case_bool_decide; case_decide; try done;
      [apply orb_true_r|apply orb_false_r].
  - split.
    + intros E. rewrite E, Hbits, bool_decide_true, orb_true_r by lia. done.
    + intros E. apply Z.bits_inj'; intros n Hn. rewrite Hbits by done. case_bool_decide; subst;
        [by rewrite E|by rewrite orb_false_r].
Qed.

Lemma first_set_bit w : fits 32 w → w ≠ 0 →
  let b := find_first_trailing_set_bit32 w in 0 <= b < 32 ∧ Z.testbit w b = true.
Proof.
  intros Hw Hne b. assert (0 < w) as Hp by (destruct Hw; lia).
  destruct (builtin_ctz_spec w Hp) as (H0&Ht&_). pose proof (builtin_ctz_lt 32 w Hp Hw).
  assert (b = builtin_ctz w) as ->; [|split; [lia|done]].
  subst b. unfold find_first_trailing_set_bit32, ffs32, builtin_ffs.
  rewrite (wrap_small 32 w) by done. rewrite (proj2 (Z.eqb_neq w 0)) by done.
  rewrite wrap_small by (unfold fits; lia). lia.
Qed.

Lemma take_slot_spec (h : headers) a hd : h !! Page a = Some hd →
  length (bitmap hd) = BITMAP_WORDS → Forall (fits 32) (bitmap hd) →
  ∀ k i, (i + k = BITMAP_WORDS)%nat →
  (∃ j, Z.of_nat i * 32 <= j < 128 ∧ bit_at (bitmap hd) j = true) →
  ∃ j w b, bitmap hd !! j = Some w ∧ fits 32 w ∧ 0 <= b < 32 ∧ Z.testbit w b = true ∧
    take_slot k i (Page a) h = Done (Some (Z.of_nat j * 32 + b),
      <[Page a := set_bitmap j (Z.land w (wnot 32 (Z.shiftl 1 b))) hd]> h).
Proof.
  intros Hd Hlen Hall k. induction k as [|k IH]; intros i Hi (j&Hj&Hbit); unfold BITMAP_WORDS in *; [lia|].
  cbn [take_slot]. bind_step Hd.
  destruct (lookup_lt_is_Some_2 (bitmap hd) i) as [w Hw]; [lia|]. bind_step Hw.
  pose proof (Forall_lookup_1 _ _ _ _ Hall Hw) as Hfw.
  destruct (Z.eqb_spec w 0) as [->|Hne].
  - apply IH; [lia|]. exists j. split; [|done].
    destruct (decide (j < (Z.of_nat i + 1) * 32)); [|lia]. exfalso.
    replace j with (Z.of_nat i * 32 + (j - Z.of_nat i * 32)) in Hbit by lia.
    rewrite (bit_at_word _ _ _ _ Hw), Z.bits_0 in Hbit by lia. done.
  - destruct (first_set_bit w Hfw Hne) as [Hb Ht]. unfold bitmap_clear_bit.
    rewrite (proj2 (Z.ltb_ge 31 _)) by lia. cbn [mbind outcome_bind].
    rewrite (update_spec _ _ _ _ Hd). cbn [mbind outcome_bind]. by eexists i, w, _.
Qed.

Lemma count_insert i U : i ∉ U → count ({[i]} ∪ U) = count U + 1.
Proof. intros Hi. unfold count. rewrite size_union, size_singleton by set_solver. lia. Qed.

Lemma count_remove i U : i ∈ U → count (U ∖ {[i]}) + 1 = count U.
Proof.
  intros Hi. rewrite <-(count_insert i) by set_solver. f_equal.
  apply set_eq. intros j. destruct (decide (j = i)); set_solver.
Qed.

Lemma words_insert ws (j : nat) w : length ws = BITMAP_WORDS ∧ Forall (fits 32) ws → fits 32 w →
  length (<[j := w]> ws) = BITMAP_WORDS ∧ Forall (fits 32) (<[j := w]> ws).
Proof. intros [Hl Hf] Hw. split; [by rewrite length_insert|by apply Forall_insert]. Qed.

(** Clearing the bit of a free slot allocates it. *)
Lemma page_take hd pg j w b : page_ok 1 hd pg → bitmap hd !! j = Some w → fits 32 w → 0 <= b < 32 →
  Z.testbit w b = true →
  let i := Z.of_nat j * 32 + b in
  0 <= i < slots_of (pg_class pg) ∧ i ∉ pg_slots pg ∧
  page_ok 0 (set_bitmap j (Z.land w (wnot 32 (Z.shiftl 1 b))) hd)
    (SlabPage (pg_class pg) (pg_use pg) ({[i]} ∪ pg_slots pg)).
Proof.
  intros [H1 H2 H3 H4 H5 H6 H7 H8] Hw Hfw Hb Ht i.
  assert (j < 4)%nat by (apply lookup_lt_Some in Hw; destruct H6 as [H6 _]; unfold BITMAP_WORDS in *; lia).
  pose proof (bit_at_word _ _ _ _ Hw Hb) as Hbit. rewrite Ht, H8 in Hbit by lia.
  apply bool_decide_eq_true in Hbit as [Hlt HiU]. fold i in Hlt, HiU.
  destruct (clear_bit_bits w b Hfw Hb) as [Hf' Hbits].
  split_and!; [lia|done|done|]. split; cbn [pg_class pg_use pg_slots set_bitmap size_class use_count slab_use bitmap];
    rewrite ?count_insert, ?Z.add_0_r by done; try done.
  - by apply words_insert.
  - intros x [->%elem_of_singleton|?]%elem_of_union; [lia|by apply H7].
  - intros x Hx. rewrite (bit_at_insert _ _ _ _ _ false Hw Hb Hbits) by done. fold i.
    destruct (decide (x = i)) as [->|]; [symmetry; apply bool_decide_eq_false; set_solver|].
    rewrite H8 by done. apply bool_decide_ext. set_solver.
Qed.

(** Setting the bit of an allocated slot frees it. *)
Lemma page_give hd pg i w : page_ok 0 hd pg → i ∈ pg_slots pg → bitmap hd !! Z.to_nat (i / 32) = Some w →
  page_ok 1 (set_bitmap (Z.to_nat (i / 32)) (Z.lor w (Z.shiftl 1 (i mod 32))) hd)
    (SlabPage (pg_class pg) (pg_use pg) (pg_slots pg ∖ {[i]})).
Proof.
  intros [H1 H2 H3 H4 H5 H6 H7 H8] Hi Hw. destruct (class_values _ H2) as (_&_&Hsl&_&_).
  pose proof (H7 i Hi) as Hir. destruct (bit_split i ltac:(lia)) as (Ei&_&Hm).
  pose proof (Forall_lookup_1 _ _ _ _ (proj2 H6) Hw) as Hfw.
  destruct (set_bit_bits w (i mod 32) Hfw Hm) as (Hf'&Hbits&_).
  split; cbn [pg_class pg_use pg_slots set_bitmap size_class use_count slab_use bitmap];
    rewrite ?count_remove, ?Z.add_0_r in * by done; try done.
  - by apply words_insert.
  - intros x [? _]%elem_of_difference. by apply H7.
  - intros x Hx. rewrite (bit_at_insert _ _ _ _ _ true Hw Hm Hbits) by done. rewrite <-Ei.
    destruct (decide (x = i)) as [->|]; [symmetry; apply bool_decide_eq_true; set_solver|].
    rewrite H8 by done. apply bool_decide_ext. set_solver.
Qed.

(** The page picked by [get_slab] gives out one of its free slots. *)
Lemma core_take_slot (h : headers) G a pg :
  slab_core h G (Some a) → G !! a = Some pg → count (pg_slots pg) < slots_of (pg_class pg) →
  ∃ i h', take_slot BITMAP_WORDS 0 (Page a) h = Done (Some i, h') ∧
    0 <= i < slots_of (pg_class pg) ∧ i ∉ pg_slots pg ∧
    slab_core h' (<[a := SlabPage (pg_class pg) (pg_use pg) ({[i]} ∪ pg_slots pg)]> G) None.
Proof.
  intros [HF HP] Ha Hlt. destruct (HP a pg Ha) as (hd&Hd&Hok). rewrite ahead_self in Hok.
  pose proof (po_words _ _ _ Hok) as [Hl Hf]. destruct (class_values _ (po_range _ _ _ Hok)) as (_&_&Hsl&_&_).
  destruct (free_slot_exists _ _ Hlt) as (i0&Hi0&HiU).
  destruct (take_slot_spec h a hd Hd Hl Hf BITMAP_WORDS 0 eq_refl) as (j&w&b&Hw&Hfw&Hb&Ht&E).
  { exists i0. split; [lia|]. rewrite (po_bits _ _ _ Hok) by lia. apply bool_decide_eq_true. split; [lia|done]. }
  destruct (page_take hd pg j w b Hok Hw Hfw Hb Ht) as (Hr&Hn&Hok').
  eexists _, _. split_and!; [exact E|lia|lia|done|]. split.
  - apply (family_data is_slab_head h _ _ hd); [|done..].
    eapply family_ext; [|exact HF]. intros x. rewrite in_list_of_insert. unfold moved.
    destruct (decide (x = Page a)) as [->|]; [|done]. simpl. by rewrite Ha.
  - eapply (pages_update _ _ (Some a)); [|exact HP|by rewrite ahead_none].
    intros c Hc. by rewrite ahead_none, ahead_other.
Qed.

(** The initial bitmap of every class has exactly the bits of its slots. *)
Lemma slab_empty_bits s words i : slab_empty !! s = Some words → (s < 4)%nat → 0 <= i < 128 →
  bit_at words i = (i <? slots_of s).
Proof.
  intros Hw Hs Hi.
  assert (Hall : forallb (λ i, Bool.eqb (bit_at words i) (i <? slots_of s)) (seqZ 0 128) = true).
  { classes s; injection Hw as <-; vm_compute; reflexivity. }
  rewrite forallb_forall in Hall. specialize (Hall i ltac:(apply list_elem_of_In, elem_of_seqZ; lia)).
  by apply eqb_prop in Hall.
Qed.

Lemma slab_empty_ok s old : (s < 4)%nat → ∃ hd, init_slab s old = Done hd ∧
  page_ok 1 hd (SlabPage s SLAB_USE_ALMOST_EMPTY ∅).
Proof.
  intros Hs. destruct (slab_empty !! s) as [words|] eqn:Hw; [|classes s; done].
  unfold init_slab. rewrite Hw. eexists; split; [done|].
  split; cbn [pg_class pg_use pg_slots size_class use_count slab_use bitmap]; try done.
  - change (count ∅ + 1) with 1. classes s; by vm_compute.
  - classes s; injection Hw as <-; split; try done; repeat constructor; done.
  - intros i Hi. rewrite (slab_empty_bits s) by done. destruct (Z.ltb_spec i (slots_of s)); symmetry;
      [apply bool_decide_eq_true|apply bool_decide_eq_false]; [split; [done|set_solver]|lia].
Qed.

(** Taking a page whose header already has its new use class out of its list,
    and either putting it into its new list or giving it up. *)
Lemma core_demote (h : headers) G a hd pg pg' :
  family is_slab_head h (in_list_of G) → G !! a = Some pg → h !! Page a = Some hd → page_ok 0 hd pg' →
  (pg_use pg' < 5)%nat →
  (∀ b pb, b ≠ a → G !! b = Some pb → ∃ hb, h !! Page b = Some hb ∧ page_ok 0 hb pb) →
  ∃ h1, list_remove (Page a) h = Done h1 ∧ (∃ hd1, h1 !! Page a = Some hd1 ∧ payload hd1 = payload hd) ∧
    family is_slab_head h1 (moved (Page a) None (in_list_of G)) ∧
    slab_core h1 (delete a G) None ∧
    ∃ h2, list_push_back (Head (pg_class pg') (pg_use pg')) (Page a) h1 = Done h2 ∧
      slab_core h2 (<[a := pg']> G) None.
Proof.
  intros HF Ha Hd Hok Hu Hoth.
  assert (Hin : in_list_of G (Page a) = Some (Head (pg_class pg) (pg_use pg))) by (simpl; by rewrite Ha).
  destruct (family_remove is_slab_head h _ _ _ HF Hin) as (h1&E1&HF1&Hp1).
  destruct (payload_eq_lookup _ _ _ _ Hp1 Hd) as (hd1&Hd1&Hpl1).
  destruct (family_push is_slab_head h1 _ (Page a) (Head (pg_class pg') (pg_use pg')) HF1) as (h2&E2&HF2&Hp2).
  { split; [apply Hok|done]. } { by intros []. } { unfold moved. by resolve_decide. } { done. }
  assert (Hpg : ∀ b pb, b ≠ a → G !! b = Some pb → ∃ hb, h1 !! Page b = Some hb ∧ page_ok (ahead None b) hb pb).
  { intros b pb Hne Hb. destruct (Hoth b pb Hne Hb) as (hb&Hhb&Hokb).
    destruct (payload_eq_lookup _ _ _ _ Hp1 Hhb) as (hb'&?&?). exists hb'. split; [done|].
    by eapply page_ok_payload. }
  exists h1. split_and!; [done|by exists hd1|done| |].
  - split; [eapply family_ext; [apply in_list_of_delete|done]|].
    intros b pb [Hne Hb]%lookup_delete_Some. by apply Hpg.
  - exists h2. split; [done|]. split.
    + eapply family_ext; [|exact HF2]. intros x. rewrite in_list_of_insert. unfold moved.
      by destruct (decide (x = Page a)).
    + eapply pages_payload; [exact Hp2|]. intros b pb [[<- <-]|[Hne Hb]]%lookup_insert_Some; [|by apply Hpg].
      exists hd1. split; [done|]. rewrite ahead_none. by eapply page_ok_payload.
Qed.

Section slab_spec.
Context {PS : Type} `{!PageSource PS, !PageSourceSpec PS}.
Implicit Types (st : slab_state PS) (L : gmap Z region).

Record slab_inv st L G : Prop := {
  si_source : holds (source st) L;
  si_core : slab_core (store st) G None;
  si_pages a pg : G !! a = Some pg → ∃ r, L !! a = Some r ∧ rg_type r = BLOCK_TYPE_SLAB ∧ PAGE_SIZE <= rg_len r;
  si_slabs a r : L !! a = Some r → rg_type r = BLOCK_TYPE_SLAB → is_Some (G !! a) }.

(** The regions that do not belong to the slab allocator are the same. *)
Definition same_others L L' : Prop :=
  ∀ x r, rg_type r ≠ BLOCK_TYPE_SLAB → L' !! x = Some r ↔ L !! x = Some r.

(** Address of slot [i] of the page at [a]. *)
Definition slot_address (a : Z) (s : nat) (i : Z) : Z := a + DATA_OFFSET + i * bytes_of s.

(** The allocated slots, with their sizes. *)
Definition slab_object G (ptr n : Z) : Prop :=
  ∃ a pg i, G !! a = Some pg ∧ i ∈ pg_slots pg ∧ ptr = slot_address a (pg_class pg) i ∧ n = bytes_of (pg_class pg).

Lemma get_slab_spec st L G s : slab_inv st L G → (s < 4)%nat →
  get_slab s st = Done (None, st) ∨
  ∃ a pg st' L', get_slab s st = Done (Some (Page a), st') ∧ pg_class pg = s ∧
    count (pg_slots pg) < slots_of s ∧ holds (source st') L' ∧ same_others L L' ∧
    slab_core (store st') (<[a := pg]> G) (Some a) ∧
    (L' = L ∧ (∃ u, G !! a = Some (SlabPage s u (pg_slots pg))) ∨
     ∃ r, L' = <[a := r]> L ∧ L !! a = None ∧ rg_type r = BLOCK_TYPE_SLAB ∧ PAGE_SIZE <= rg_len r ∧
       G !! a = None ∧ pg_slots pg = ∅).
Proof.
  intros [Hsrc HC HG HS] Hs. unfold get_slab.
  destruct (find_slab_spec _ _ s SLAB_USE_NEAR_FULL HC Hs) as [(a&u&u'&U&h'&E&Ha&HC'&Hlt)|[E Hnone]];
    [unfold SLAB_USE_NEAR_FULL; lia| |]; rewrite E; cbn [mbind outcome_bind].
  { right. exists a, (SlabPage s u' U), (SlabState h' (source st)), L.
    split_and!; try done. left. eauto. }
  destruct (allocate_law (1 * PAGE_SIZE) BLOCK_TYPE_SLAB _ L Hsrc) as [Ea|(a&r&src&Ea&Hsrc'&Hpost)];
    [done|done| |]; rewrite Ea; cbn [mbind outcome_bind]; [left; by destruct st|right].
  destruct Hpost as (Hnew&Hty&_&Hlen&_).
  assert (G !! a = None) as HGa.
  { apply eq_None_not_Some. intros [pg Hpg]. apply HG in Hpg as (r'&Hr'&_). congruence. }
  destruct (slab_empty_ok s (default blank_header (store st !! Page a)) Hs) as (hd&Ei&Hok). bind_step Ei.
  destruct HC as [HF HP].
  destruct (family_push is_slab_head (<[Page a := hd]> (store st)) (in_list_of G) (Page a)
    (Head s SLAB_USE_ALMOST_EMPTY)) as (h'&Ep&HF'&Hp').
  { apply family_fresh; [done| |by intros []]. simpl. by rewrite HGa. }
  { split; [done|unfold SLAB_USE_ALMOST_EMPTY; lia]. } { by intros []. }
  { simpl. by rewrite HGa. } { by rewrite lookup_insert_eq. }
  bind_step Ep. exists a, (SlabPage s SLAB_USE_ALMOST_EMPTY ∅), (SlabState h' src), (<[a := r]> L).
  destruct (class_values s Hs) as (_&_&Hsl&_).
  split_and!; try done.
  - cbn [pg_slots]. change (count ∅) with 0. lia.
  - intros x rx Hx. rewrite lookup_insert_Some. naive_solver.
  - split; [eapply family_ext; [|exact HF']; apply in_list_of_insert|]. simpl.
    eapply pages_payload; [exact Hp'|]. eapply (pages_update _ _ None); [|exact HP|by rewrite ahead_self].
    intros b Hb. by rewrite ahead_none, ahead_other.
  - right. exists r. rewrite Z.mul_1_l in Hlen. done.
Qed.

(** Every slot lies in the data area of its page. *)
Lemma slot_in_page (s : nat) i : (s < 4)%nat → 0 <= i < slots_of s →
  DATA_OFFSET <= DATA_OFFSET + i * bytes_of s ∧ DATA_OFFSET + i * bytes_of s + bytes_of s <= PAGE_SIZE.
Proof.
  intros Hs Hi. destruct (class_values s Hs) as (_&Hb&_&Hfit&_).
  assert ((i + 1) * bytes_of s <= slots_of s * bytes_of s) by (apply Z.mul_le_mono_nonneg_r; lia).
  assert (0 <= i * bytes_of s) by (apply Z.mul_nonneg_nonneg; lia). lia.
Qed.

Lemma object_in_region st L G p n : slab_inv st L G → slab_object G p n →
  ∃ a r, L !! a = Some r ∧ rg_type r = BLOCK_TYPE_SLAB ∧ region_ok a r ∧
    a + DATA_OFFSET <= p ∧ p + n <= a + PAGE_SIZE ∧ PAGE_SIZE <= rg_len r ∧ 0 < n.
Proof.
  intros [Hsrc [_ HP] HG _] (a&pg&i&Ha&Hi&->&->). destruct (HP a pg Ha) as (hd&_&Hok).
  destruct (HG a pg Ha) as (r&Hr&Hty&Hlen). exists a, r.
  pose proof (slot_in_page _ i (po_range _ _ _ Hok) (po_slots _ _ _ Hok i Hi)).
  destruct (class_values _ (po_range _ _ _ Hok)) as (_&Hb&_).
  unfold slot_address. split_and!; try done; try lia. by eapply holds_ok.
Qed.

Lemma object_apart st L G p n p' n' : slab_inv st L G → slab_object G p n → slab_object G p' n' →
  p ≠ p' → apart p n p' n'.
Proof.
  intros HI Ho Ho' Hne. pose proof HI as [Hsrc [_ HP] HG _].
  destruct Ho as (a&pg&i&Ha&Hi&->&->), Ho' as (a'&pg'&i'&Ha'&Hi'&->&->).
  destruct (HP _ _ Ha) as (hd&_&Hok), (HP _ _ Ha') as (hd'&_&Hok').
  pose proof (slot_in_page _ i (po_range _ _ _ Hok) (po_slots _ _ _ Hok i Hi)).
  pose proof (slot_in_page _ i' (po_range _ _ _ Hok') (po_slots _ _ _ Hok' i' Hi')).
  destruct (HG _ _ Ha) as (r&Hr&_&Hlen), (HG _ _ Ha') as (r'&Hr'&_&Hlen').
  unfold slot_address, apart in *. destruct (decide (a = a')) as [<-|Hna].
  - simplify_eq. destruct (class_values _ (po_range _ _ _ Hok)) as (_&Hb&_).
    assert (i ≠ i') by congruence.
    destruct (decide (i < i')); [left|right].
    + assert ((i + 1) * bytes_of (pg_class pg) <= i' * bytes_of (pg_class pg))
        by (apply Z.mul_le_mono_nonneg_r; lia). lia.
    + assert ((i' + 1) * bytes_of (pg_class pg) <= i * bytes_of (pg_class pg))
        by (apply Z.mul_le_mono_nonneg_r; lia). lia.
  - destruct (holds_apart _ _ _ _ _ _ Hsrc Hr Hr' Hna); unfold apart, DATA_OFFSET in *; lia.
Qed.

Lemma class_of_spec size : 0 <= size <= 256 → (class_of size < 4)%nat ∧ size <= bytes_of (class_of size).
Proof.
  intros Hs. unfold class_of.
  destruct (Z.ltb_spec 128 size), (Z.ltb_spec 64 size), (Z.ltb_spec 32 size);
    unfold bytes_of, slab_bytes, SLAB_SIZE_256, SLAB_SIZE_128, SLAB_SIZE_64, SLAB_SIZE_32; cbn [nth]; lia.
Qed.

(** What changes when slot [i] of page [a] is allocated. *)
Lemma objects_insert G a pg i :
  (∀ u, G !! a = Some u → pg_class u = pg_class pg ∧ pg_slots u = pg_slots pg) →
  (G !! a = None → pg_slots pg = ∅) → ∀ u p n,
  slab_object (<[a := SlabPage (pg_class pg) u ({[i]} ∪ pg_slots pg)]> G) p n ↔
  slab_object G p n ∨ (p = slot_address a (pg_class pg) i ∧ n = bytes_of (pg_class pg)).
Proof.
  intros Hold Hnew u p n. unfold slab_object. split.
  - intros (b&pb&j&Hb&Hj&->&->). apply lookup_insert_Some in Hb as [[<- <-]|[Hne Hb]]; [|left; by exists b, pb, j].
    apply elem_of_union in Hj as [->%elem_of_singleton|Hj]; [by right|left].
    destruct (G !! a) as [pg0|] eqn:E; [|rewrite Hnew in Hj by done; set_solver].
    destruct (Hold pg0 eq_refl) as [Hc Hs]. exists a, pg0, j. rewrite Hc, Hs. done.
  - intros [(b&pb&j&Hb&Hj&->&->)|[-> ->]].
    + destruct (decide (b = a)) as [->|Hne].
      * destruct (Hold pb Hb) as [Hc Hs]. eexists a, _, j. rewrite lookup_insert_eq.
        split_and!; [done|simpl; rewrite <-Hs; set_solver|simpl; congruence|simpl; congruence].
      * exists b, pb, j. by rewrite lookup_insert_ne.
    + eexists a, _, i. rewrite lookup_insert_eq. split_and!; [done|set_solver|done|done].
Qed.

(** The outcome of a successful slab allocation: one new object, disjoint from
    the others by [object_apart], and possibly one new slab region. *)
Definition slab_gain L G (size : Z) (ptr : Z) st' L' G' : Prop :=
  slab_inv st' L' G' ∧ same_others L L' ∧ size <= bytes_of (class_of size) ∧
  (∀ p n, slab_object G' p n ↔ slab_object G p n ∨ (p = ptr ∧ n = bytes_of (class_of size))) ∧
  (∀ n, ¬ slab_object G ptr n).

(** The page that [get_slab] picked: either a page of the allocator or a new one. *)
Definition picked L L' G a pg : Prop :=
  (L' = L ∧ (∃ u, G !! a = Some (SlabPage (pg_class pg) u (pg_slots pg)))) ∨
  (∃ r, L' = <[a := r]> L ∧ L !! a = None ∧ rg_type r = BLOCK_TYPE_SLAB ∧ PAGE_SIZE <= rg_len r ∧
     G !! a = None ∧ pg_slots pg = ∅).

Lemma picked_inv st L L' G a pg pg' h src : slab_inv st L G → picked L L' G a pg →
  holds src L' → slab_core h (<[a := pg']> G) None → slab_inv (SlabState h src) L' (<[a := pg']> G).
Proof.
  intros HI Hcase Hsrc HC. split; [done|done| |].
  - intros b pb [[<- _]|[Hne Hb]]%lookup_insert_Some.
    + destruct Hcase as [[-> [u Hu]]|(r&->&_&Hty&Hlen&_)]; [by apply (si_pages _ _ _ HI) in Hu|].
      exists r. by rewrite lookup_insert_eq.
    + destruct (si_pages _ _ _ HI b pb Hb) as (r&Hr&?).
      destruct Hcase as [[-> _]|(r'&->&_)]; exists r; [done|]. by rewrite lookup_insert_ne.
  - intros b r Hb Hty. destruct (decide (b = a)) as [->|Hne]; [by rewrite lookup_insert_eq|].
    rewrite lookup_insert_ne by done. destruct Hcase as [[-> _]|(r'&->&_)];
      [by eapply (si_slabs _ _ _ HI)|]. rewrite lookup_insert_ne in Hb by done. by eapply (si_slabs _ _ _ HI).
Qed.

(** A free slot of the picked page is not an object yet. *)
Lemma picked_fresh st L L' G src a pg i n : slab_inv st L G → picked L L' G a pg → holds src L' →
  (pg_class pg < 4)%nat → 0 <= i < slots_of (pg_class pg) → i ∉ pg_slots pg →
  ¬ slab_object G (slot_address a (pg_class pg) i) n.
Proof.
  intros HI Hcase Hsrc' Hs Hi HiU (b&pb&j&Hb&Hj&E&->). pose proof HI as [Hsrc [_ HP] HG _].
  destruct (HP b pb Hb) as (hd&_&Hok). destruct (HG b pb Hb) as (r&Hr&_&Hlen).
  pose proof (slot_in_page _ j (po_range _ _ _ Hok) (po_slots _ _ _ Hok j Hj)).
  pose proof (slot_in_page _ i Hs Hi). destruct (class_values _ Hs) as (_&Hb0&_).
  destruct (class_values _ (po_range _ _ _ Hok)) as (_&Hbp&_).
  assert (Hra : ∃ ra, L' !! a = Some ra ∧ PAGE_SIZE <= rg_len ra ∧ (b ≠ a → L' !! b = Some r)).
  { destruct Hcase as [[-> [u Hu]]|(ra&->&_&_&Hla&_)].
    - destruct (HG a _ Hu) as (ra&?&_&?). eauto.
    - exists ra. rewrite lookup_insert_eq. split_and!; try done. intros. by rewrite lookup_insert_ne. }
  destruct Hra as (ra&Hra&Hla&Hrb). unfold slot_address in E.
  destruct (decide (b = a)) as [->|Hne].
  - destruct Hcase as [[_ [u Hu]]|(?&_&_&_&_&Hu&_)]; [|congruence].
    rewrite Hb in Hu. injection Hu as ->. cbn [pg_class pg_slots] in *.
    assert (i * bytes_of (pg_class pg) = j * bytes_of (pg_class pg)) as ->%Z.mul_reg_r by lia; [done|lia].
  - destruct (holds_apart _ _ _ _ _ _ Hsrc' Hra (Hrb Hne) ltac:(done)); unfold DATA_OFFSET in *; lia.
Qed.

Lemma slab_allocate_cases st L G size : slab_inv st L G → 0 <= size <= 256 →
  slab_allocate size st = Done (None, st) ∨
  ∃ ptr st' L' G', slab_allocate size st = Done (Some ptr, st') ∧ slab_gain L G size ptr st' L' G'.
Proof.
  intros HI Hsize. destruct (class_of_spec size Hsize) as [Hs Hfit].
  unfold slab_allocate. rewrite (proj2 (Z.ltb_ge 256 size)) by lia.
  destruct (get_slab_spec st L G _ HI Hs) as [E|(a&pg&st1&L'&E&Hc&Hlt&Hsrc&Hoth&HC&Hcase)];
    rewrite E; cbn [mbind outcome_bind]; [by left|right].
  rewrite <-Hc in *. fold (picked L L' G a pg) in Hcase.
  destruct (core_take_slot _ _ a pg HC) as (i&h'&E'&Hi&HiU&HC'); [apply lookup_insert_eq|done|].
  rewrite E'. cbn [mbind outcome_bind]. destruct (class_values _ Hs) as (Hb&Hb0&_&_&_). rewrite Hb.
  cbn [deref mbind outcome_bind]. rewrite insert_insert_eq in HC'.
  pose proof (picked_inv st L L' G a pg _ h' _ HI Hcase Hsrc HC') as HI'.
  destruct (si_pages _ _ _ HI' a _ (lookup_insert_eq _ _ _)) as (r&Hr&_&Hlen).
  pose proof (holds_ok _ _ _ _ Hsrc Hr) as (?&_&_&Hend&_).
  pose proof (slot_in_page _ i Hs Hi). unfold DATA_OFFSET in *.
  rewrite wrap_small by (unfold fits; lia). fold DATA_OFFSET (slot_address a (pg_class pg) i).
  eexists _, _, L', _. split; [reflexivity|]. split_and!; [exact HI'|done|by rewrite <-Hc| |].
  - rewrite <-Hc. apply objects_insert;
      destruct Hcase as [[_ [u Hu]]|(?&_&_&_&_&Hu&?)]; rewrite Hu; naive_solver.
  - intros n. by eapply (picked_fresh st L L' G (source st1)).
Qed.

(** ** Deallocation *)

Lemma align_down_in_page a r x : region_ok a r → a <= x < a + PAGE_SIZE → x < 2 ^ 64 → ALIGN_PAGE_DOWN x = a.
Proof.
  intros (Ha&Hal&_) Hx Hlt. unfold ALIGN_PAGE_DOWN, ALIGN_DOWN, PAGE_SIZE in *.
  change (4096 - 1) with (2 ^ 12 - 1) in *. rewrite (wrap_small 64 a) in Hal by (unfold fits; lia).
  rewrite (wrap_small 64 x) by (unfold fits; lia).
  rewrite land_align in Hal |- * by (unfold fits; lia). change (2 ^ 12) with 4096 in *.
  pose proof (Z.div_mod x 4096). pose proof (Z.mod_pos_bound x 4096).
  assert (x / 4096 = a / 4096) as ->; [|done].
  symmetry. apply (Z.div_unique_pos _ _ _ (x - a)); lia.
Qed.

(** What [slab_deallocate] computes from the address of a slot. *)
Lemma slot_decode st L G a pg i : slab_inv st L G → G !! a = Some pg → 0 <= i < slots_of (pg_class pg) →
  let ptr := slot_address a (pg_class pg) i in
  ptr ≠ 0 ∧ ALIGN_PAGE_DOWN ptr = a ∧
  u32 (u64 (u64 (ptr - a) - DATA_OFFSET) / bytes_of (pg_class pg)) = i.
Proof.
  intros [Hsrc [_ HP] HG _] Ha Hi ptr. destruct (HP a pg Ha) as (hd&_&Hok).
  destruct (HG a pg Ha) as (r&Hr&_&Hlen). pose proof (holds_ok _ _ _ _ Hsrc Hr) as Hreg.
  pose proof (slot_in_page _ i (po_range _ _ _ Hok) Hi) as Hp.
  destruct (class_values _ (po_range _ _ _ Hok)) as (_&Hb&Hsl&_). pose proof Hreg as (?&_&_&?&_).
  subst ptr. unfold slot_address, DATA_OFFSET in *. split_and!; [lia| |].
  - apply (align_down_in_page a r); [done|lia|lia].
  - unfold PAGE_SIZE in *. rewrite (wrap_small 64 (_ - a)) by (unfold fits; lia).
    replace (a + 64 + i * bytes_of (pg_class pg) - a - 64) with (i * bytes_of (pg_class pg)) by lia.
    rewrite (wrap_small 64) by (unfold fits; lia). rewrite Z.div_mul by lia.
    apply wrap_small. unfold fits. lia.
Qed.

Lemma object_unique st L G a pg i b pb j : slab_inv st L G →
  G !! a = Some pg → i ∈ pg_slots pg → G !! b = Some pb → j ∈ pg_slots pb →
  slot_address a (pg_class pg) i = slot_address b (pg_class pb) j → a = b ∧ i = j.
Proof.
  intros HI Ha Hi Hb Hj E. pose proof HI as [Hsrc [_ HP] HG _].
  destruct (HP a pg Ha) as (hd&_&Hok), (HP b pb Hb) as (hd'&_&Hok').
  pose proof (slot_in_page _ i (po_range _ _ _ Hok) (po_slots _ _ _ Hok i Hi)).
  pose proof (slot_in_page _ j (po_range _ _ _ Hok') (po_slots _ _ _ Hok' j Hj)).
  destruct (class_values _ (po_range _ _ _ Hok)) as (_&Hbp&_), (class_values _ (po_range _ _ _ Hok')) as (_&Hbp'&_).
  destruct (HG a pg Ha) as (r&Hr&_&Hlen), (HG b pb Hb) as (r'&Hr'&_&Hlen'). unfold slot_address in E.
  destruct (decide (a = b)) as [<-|Hne].
  - split; [done|]. rewrite Ha in Hb. injection Hb as <-.
    apply (Z.mul_reg_r _ _ (bytes_of (pg_class pg))); lia.
  - destruct (holds_apart _ _ _ _ _ _ Hsrc Hr Hr' Hne); unfold DATA_OFFSET in *; lia.
Qed.

(** What changes when slot [i] of page [a] is freed; [G'] is the new set of pages. *)
Lemma objects_remove st L G G' a pg i : slab_inv st L G → G !! a = Some pg → i ∈ pg_slots pg →
  (∀ b, b ≠ a → G' !! b = G !! b) →
  (∀ pb, G' !! a = Some pb → pg_class pb = pg_class pg ∧ pg_slots pb = pg_slots pg ∖ {[i]}) →
  (G' !! a = None → pg_slots pg ∖ {[i]} = ∅) → ∀ p n,
  slab_object G' p n ↔ slab_object G p n ∧ p ≠ slot_address a (pg_class pg) i.
Proof.
  intros HI Ha Hi Hoth Hsame Hgone p n. split.
  - intros (b&pb&j&Hb&Hj&->&->). destruct (decide (b = a)) as [->|Hne].
    + destruct (Hsame pb Hb) as [Hc Hs]. rewrite Hs in Hj. apply elem_of_difference in Hj as [Hj Hji].
      rewrite Hc. split; [by exists a, pg, j|].
      intros E. edestruct (object_unique st L G a pg j a pg i) as [_ ?]; [done..|]. set_solver.
    + rewrite Hoth in Hb by done. split; [by exists b, pb, j|].
      intros E. edestruct (object_unique st L G b pb j a pg i) as [? _]; [done..|]. done.
  - intros [(b&pb&j&Hb&Hj&->&->) Hne]. destruct (decide (b = a)) as [->|Hba].
    + rewrite Ha in Hb. injection Hb as <-. assert (j ≠ i) by congruence.
      destruct (G' !! a) as [pb|] eqn:E; [|specialize (Hgone eq_refl); set_solver].
      destruct (Hsame pb eq_refl) as [Hc Hs]. exists a, pb, j. rewrite Hc, Hs. set_solver.
    + exists b, pb, j. by rewrite Hoth.
Qed.

(** The state after the bitmap and the use count of slot [i] have been updated. *)
Lemma core_release (h : headers) G a pg i w hd :
  slab_core h G None → G !! a = Some pg → i ∈ pg_slots pg → h !! Page a = Some hd →
  bitmap hd !! Z.to_nat (i / 32) = Some w →
  let hd' := set_use_count (count (pg_slots pg ∖ {[i]}))
    (set_bitmap (Z.to_nat (i / 32)) (Z.lor w (Z.shiftl 1 (i mod 32))) hd) in
  let h' := <[Page a := hd']> h in
  family is_slab_head h' (in_list_of G) ∧
  (∀ b pb, b ≠ a → G !! b = Some pb → ∃ hb, h' !! Page b = Some hb ∧ page_ok 0 hb pb) ∧
  (∀ u, use_ok (pg_class pg) u (count (pg_slots pg ∖ {[i]})) →
    page_ok 0 (set_slab_use u hd') (SlabPage (pg_class pg) u (pg_slots pg ∖ {[i]}))).
Proof.
  intros [HF HP] Ha Hi Hd Hw hd' h'. destruct (HP a pg Ha) as (hd0&Hd0&Hok). rewrite Hd in Hd0. injection Hd0 as <-.
  rewrite ahead_none in Hok.
  split_and!; [by apply (family_data is_slab_head h _ _ hd)| |].
  - intros b pb Hne Hb. subst h'. rewrite lookup_insert_ne by congruence.
    destruct (HP b pb Hb) as (hb&?&?). eauto.
  - intros u Hu. destruct (page_give hd pg i w Hok Hi Hw) as [H1 H2 H3 H4 H5 H6 H7 H8].
    split; cbn [pg_class pg_use pg_slots] in *; try done; cbn; rewrite Z.add_0_r; done.
Qed.

(** How [slab_deallocate] leaves the page at [a], whose slots are now [U]: it
    stays a slab page, or it was empty and went back to the page source. *)
Definition rebucketed L G a (s : nat) (U : gset Z) (o : outcome (slab_state PS)) : Prop :=
  ∃ st' L' G', o = Done st' ∧ holds (source st') L' ∧ slab_core (store st') G' None ∧
    (∀ b, b ≠ a → L' !! b = L !! b ∧ G' !! b = G !! b) ∧
    ((L' = L ∧ ∃ u, G' !! a = Some (SlabPage s u U)) ∨
     (L' = delete a L ∧ G' !! a = None ∧ U = ∅)).

(** Moving the page to list [u], whose use class its header already has. *)
Lemma slab_demote st L G a pg u U hd' : slab_inv st L G → G !! a = Some pg →
  family is_slab_head (<[Page a := hd']> (store st)) (in_list_of G) →
  page_ok 0 (set_slab_use u hd') (SlabPage (pg_class pg) u U) → (u < 4)%nat →
  (∀ b pb, b ≠ a → G !! b = Some pb → ∃ hb, <[Page a := hd']> (store st) !! Page b = Some hb ∧ page_ok 0 hb pb) →
  rebucketed L G a (pg_class pg) U
    (h ← list_remove (Page a) (<[Page a := set_slab_use u hd']> (store st));
     hd ← deref (h !! Page a);
     empty ← (if bool_decide (SLAB_USE_EMPTY < slab_use hd)%nat then Done true
              else list_empty (Head (size_class hd) (slab_use hd)) h);
     if (empty : bool) then
       h ← list_push_back (Head (size_class hd) (slab_use hd)) (Page a) h;
       Done (SlabState h (source st))
     else
       src ← page_deallocate a (source st);
       Done (SlabState h src)).
Proof.
  intros [Hsrc HC HG HS] Ha HF Hok Hu Hoth. set (h1 := <[Page a := set_slab_use u hd']> (store st)).
  destruct (core_demote h1 G a (set_slab_use u hd') pg (SlabPage (pg_class pg) u U))
    as (h2&E2&(hd2&Hd2&Hpl)&HF2&HCd&h3&E3&HC3); [|done|apply lookup_insert_eq|done|cbn; lia| |].
  { subst h1. rewrite <-(insert_insert_eq (store st) (Page a) (set_slab_use u hd') hd').
    apply (family_data is_slab_head _ _ _ hd'); [done|apply lookup_insert_eq|done..]. }
  { intros b pb Hne Hb. destruct (Hoth b pb Hne Hb) as (hb&Hhb&?). exists hb. split; [|done].
    subst h1. rewrite lookup_insert_ne in Hhb |- * by congruence. done. }
  cbn [pg_class pg_use] in E3. bind_step E2. bind_step Hd2.
  assert (slab_use hd2 = u ∧ size_class hd2 = pg_class pg) as [-> ->].
  { pose proof (po_class _ _ _ Hok) as Hc. cbn in Hpl, Hc. injection Hpl as ? _ ? _. split; congruence. }
  assert (Hpush : rebucketed L G a (pg_class pg) U (h ← list_push_back (Head (pg_class pg) u) (Page a) h2;
    Done (SlabState h (source st)))).
  { bind_step E3. eexists _, L, _. split_and!; [reflexivity|done|exact HC3| |].
    - intros b Hb. by rewrite lookup_insert_ne.
    - left. split; [done|]. exists u. apply lookup_insert_eq. }
  unfold SLAB_USE_EMPTY. case_bool_decide as Hu0; [exact Hpush|].
  destruct (family_empty is_slab_head h2 _ (Head (pg_class pg) u) HF2) as [[Ee _]|[Ee _]];
    [split; [apply Hok|lia]| |]; rewrite Ee; cbn [mbind outcome_bind]; [exact Hpush|].
  destruct (HG a pg Ha) as (r&Hr&_). destruct (deallocate_law _ _ _ _ Hsrc Hr) as (src&Es&Hsrc').
  bind_step Es. eexists _, _, _. split_and!; [reflexivity|exact Hsrc'|exact HCd| |].
  - intros b Hb. by rewrite !lookup_delete_ne.
  - right. split_and!; [done|apply lookup_delete_eq|]. assert (u = 0%nat) as -> by lia.
    pose proof (po_bucket _ _ _ Hok) as Hz. cbn in Hz. unfold count in Hz.
    apply leibniz_equiv, size_empty_iff. lia.
Qed.

(** The rest of [slab_deallocate] once the slot is marked free. *)
Lemma slab_rebucket st L G a pg i w hd : slab_inv st L G → G !! a = Some pg → i ∈ pg_slots pg →
  store st !! Page a = Some hd → bitmap hd !! Z.to_nat (i / 32) = Some w → page_ok 0 hd pg →
  let U := pg_slots pg ∖ {[i]} in
  let hd' := set_use_count (count U) (set_bitmap (Z.to_nat (i / 32)) (Z.lor w (Z.shiftl 1 (i mod 32))) hd) in
  rebucketed L G a (pg_class pg) U
    (t ← match slab_use hd' with O => Undef | S u => threshold (size_class hd') u end;
     if use_count hd' <=? t then
       h ← update (Page a) (λ s, set_slab_use (slab_use s - 1) s) (<[Page a := hd']> (store st));
       h ← list_remove (Page a) h;
       hd ← deref (h !! Page a);
       empty ← (if bool_decide (SLAB_USE_EMPTY < slab_use hd)%nat then Done true
                else list_empty (Head (size_class hd) (slab_use hd)) h);
       if (empty : bool) then
         h ← list_push_back (Head (size_class hd) (slab_use hd)) (Page a) h;
         Done (SlabState h (source st))
       else
         src ← page_deallocate a (source st);
         Done (SlabState h src)
     else Done (SlabState (<[Page a := hd']> (store st)) (source st))).
Proof.
  intros HI Ha Hi Hd Hw Hok U hd'. pose proof HI as [Hsrc HC HG HS].
  destruct (core_release _ _ a pg i w hd HC Ha Hi Hd Hw) as (HF&Hoth&Hnew). fold U hd' in HF, Hoth, Hnew.
  pose proof Hok as [H1 H2 H3 H4 H5 _ _ _]. rewrite Z.add_0_r in H5.
  pose proof (count_remove i _ Hi) as Hcnt. fold U in Hcnt. pose proof (count_nonneg U).
  destruct (use_down _ _ _ H2 H5) as (u&Eu&Hu4&Hdown); [lia|].
  destruct (class_values _ H2) as (_&_&_&_&Hthr). replace (count (pg_slots pg) - 1) with (count U) in Hdown by lia.
  assert (slab_use hd' = S u) as Esu by (subst hd'; cbn; congruence).
  assert (size_class hd' = pg_class pg) as Esc by (subst hd'; cbn; congruence).
  rewrite Esu, Esc, Hthr by done. cbn [mbind outcome_bind]. change (use_count hd') with (count U).
  revert Hdown. destruct (Z.leb_spec (count U) (thr (pg_class pg) u)); intros Hdown.
  - rewrite (update_spec _ _ _ hd') by apply lookup_insert_eq. cbn [mbind outcome_bind].
    rewrite Esu, insert_insert_eq. replace (S u - 1)%nat with u by lia.
    by apply slab_demote; auto.
  - exists (SlabState (<[Page a := hd']> (store st)) (source st)), L, (<[a := SlabPage (pg_class pg) (pg_use pg) U]> G).
    split_and!; [done|done| |by intros b Hb; rewrite lookup_insert_ne|
      left; split; [done|]; exists (pg_use pg); apply lookup_insert_eq].
    split.
    + eapply family_ext; [|exact HF]. intros x. rewrite in_list_of_insert. unfold moved.
      destruct (decide (x = Page a)) as [->|]; [|done]. cbn. by rewrite Ha.
    + intros b pb [[<- <-]|[Hne Hb]]%lookup_insert_Some; [|by apply Hoth].
      exists hd'. split; [apply lookup_insert_eq|].
      eapply page_ok_payload; [|by apply (Hnew (pg_use pg))]. cbn. by rewrite Eu, <-Esu.
Qed.

Lemma rebucketed_inv st L G a pg i o : slab_inv st L G → G !! a = Some pg → i ∈ pg_slots pg →
  rebucketed L G a (pg_class pg) (pg_slots pg ∖ {[i]}) o →
  ∃ st' L' G', o = Done st' ∧ slab_inv st' L' G' ∧ same_others L L' ∧
    ∀ p n, slab_object G' p n ↔ slab_object G p n ∧ p ≠ slot_address a (pg_class pg) i.
Proof.
  intros HI Ha Hi (st'&L'&G'&E&Hsrc'&HC'&Hoth&Hcase). exists st', L', G'.
  pose proof HI as [Hsrc HC HG HS]. destruct (HG a pg Ha) as (r&Hr&Hty&Hlen).
  split_and!; [done| | |].
  - split; [done|done| |].
    + intros b pb Hb. destruct (decide (b = a)) as [->|Hne].
      * destruct Hcase as [[-> _]|(_&Hn&_)]; [eauto|congruence].
      * destruct (Hoth b Hne) as [-> E']. rewrite E' in Hb. by eapply HG.
    + intros b rb Hb Htb. destruct (decide (b = a)) as [->|Hne].
      * destruct Hcase as [[_ [u Hu]]|(->&_)]; [by rewrite Hu|]. by rewrite lookup_delete_eq in Hb.
      * destruct (Hoth b Hne) as [E' ->]. rewrite E' in Hb. by eapply HS.
  - intros x rx Hx. destruct (decide (x = a)) as [->|Hne]; [|by destruct (Hoth x Hne) as [-> _]].
    destruct Hcase as [[-> _]|(->&_)]; [done|]. rewrite lookup_delete_eq. split; [done|congruence].
  - apply (objects_remove st L G G' a pg i); try done.
    + intros b Hb. by destruct (Hoth b Hb).
    + intros pb Hpb. destruct Hcase as [[_ [u Hu]]|(_&?&_)]; [|congruence]. by simplify_eq.
    + intros Hn. destruct Hcase as [[_ [u Hu]]|(_&_&?)]; [congruence|done].
Qed.

Lemma slab_deallocate_cases st L G a pg i : slab_inv st L G → G !! a = Some pg →
  0 <= i < slots_of (pg_class pg) →
  if decide (i ∈ pg_slots pg) then
    ∃ st' L' G', slab_deallocate (slot_address a (pg_class pg) i) st = Done st' ∧
      slab_inv st' L' G' ∧ same_others L L' ∧
      ∀ p n, slab_object G' p n ↔ slab_object G p n ∧ p ≠ slot_address a (pg_class pg) i
  else slab_deallocate (slot_address a (pg_class pg) i) st = Done st.
Proof.
  intros HI Ha Hi. destruct (slot_decode st L G a pg i HI Ha Hi) as (Hnz&Hal&Hdec).
  pose proof HI as [Hsrc [HF HP] HG HS]. destruct (HP a pg Ha) as (hd&Hd&Hok). rewrite ahead_none in Hok.
  pose proof Hok as [H1 H2 H3 H4 H5 [H6 H6'] H7 H8]. destruct (class_values _ H2) as (Hb&_&Hsl&_&_).
  destruct (bit_split i ltac:(lia)) as (Ei&Hk&Hm).
  destruct (lookup_lt_is_Some_2 (bitmap hd) (Z.to_nat (i / 32))) as [w Hw]; [by rewrite H6|].
  pose proof (Forall_lookup_1 _ _ _ _ H6' Hw) as Hfw.
  destruct (set_bit_bits w (i mod 32) Hfw Hm) as (_&_&Hsame).
  pose proof (bit_at_word _ _ _ _ Hw Hm) as Hbit. rewrite <-Ei, H8 in Hbit by lia.
  unfold slab_deallocate. rewrite (proj2 (Z.eqb_neq _ 0)) by done. rewrite Hal. bind_step Hd.
  rewrite H1, Hb. cbn [deref mbind outcome_bind]. rewrite Hdec. bind_step Hw.
  unfold bitmap_set_bit. rewrite (proj2 (Z.ltb_ge 31 _)) by lia. cbn [mbind outcome_bind].
  destruct (decide (i ∈ pg_slots pg)) as [HiU|HiU].
  - rewrite (proj2 (Z.eqb_neq _ _)); cycle 1.
    { intros E%Hsame. rewrite E in Hbit. apply bool_decide_eq_true in Hbit as [_ Hn]. by apply Hn. }
    rewrite (update_spec _ _ _ _ Hd). cbn [mbind outcome_bind].
    erewrite update_spec by apply lookup_insert_eq. cbn [mbind outcome_bind]. rewrite insert_insert_eq.
    rewrite lookup_insert_eq. cbn [deref mbind outcome_bind].
    cbn [use_count set_bitmap]. pose proof (count_remove i _ HiU). pose proof (count_nonneg (pg_slots pg ∖ {[i]})).
    pose proof (use_bound _ _ _ H2 H5).
    replace (u8 (use_count hd - 1)) with (count (pg_slots pg ∖ {[i]}))
      by (rewrite H4, wrap_small by (unfold fits; lia); lia).
    eapply rebucketed_inv; [done..|]. by apply slab_rebucket.
  - rewrite (proj2 (Z.eqb_eq _ _)); [done|]. apply Hsame. rewrite <-Hbit.
    apply bool_decide_eq_true. split; [lia|done].
Qed.
End slab_spec.

(** ** Initialisation *)

Lemma init_heads_spec heads : ∀ h : headers, (∀ hd, hd ∈ heads → is_Some (h !! hd)) →
  ∃ h', init_heads heads h = Done h' ∧ (∀ hd, hd ∈ heads ∨ dll h hd [] → dll h' hd []).
Proof.
  induction heads as [|hd heads IH]; intros h Hh; cbn [init_heads].
  - exists h. split; [done|]. set_solver.
  - destruct (list_init_spec hd h) as (h1&E1&Hd1&Hp1&Hfr); [apply Hh; set_solver|]. bind_step E1.
    destruct (IH h1) as (h2&E2&Hd2).
    { intros x Hx. eapply payload_eq_dom; [exact Hp1|]. apply Hh. set_solver. }
    exists h2. split; [done|]. intros x Hx. apply Hd2.
    destruct (decide (x = hd)) as [->|Hne]; [by right|].
    destruct Hx as [[?|?]%elem_of_cons|Hx]; [done|by left|right].
    apply (dll_frame h); [|done]. intros j ->%list_elem_of_singleton. by apply Hfr.
Qed.

Lemma all_heads_spec x : x ∈ all_heads ↔ is_slab_head x.
Proof.
  unfold all_heads. rewrite list_elem_of_In, in_flat_map. setoid_rewrite in_map_iff. setoid_rewrite in_seq.
  split.
  - intros (s&Hs&u&<-&Hu). simpl. lia.
  - destruct x as [s u|]; [|by intros []]. intros [Hs Hu]. exists s. split; [lia|]. exists u. split; [done|lia].
Qed.

Lemma init_kernel_slabs_core : ∃ h, init_kernel_slabs boot_headers = Done h ∧ slab_core h ∅ None.
Proof.
  destruct (init_heads_spec all_heads boot_headers) as (h&E&Hd).
  { intros hd Hhd. unfold boot_headers. destruct (list_to_map _ !! hd) eqn:E; [done|].
    apply not_elem_of_list_to_map in E. exfalso. apply E.
    apply (list_elem_of_fmap_2 fst _ (hd, blank_header)), list_elem_of_In, in_map_iff.
    exists hd. split; [done|]. by apply list_elem_of_In. }
  exists h. split; [done|]. split; [split|].
  - intros hd Hhd. exists []. split; [apply Hd; left; by apply all_heads_spec|].
    intros x. split; [by intros ?%elem_of_nil|]. destruct x; simpl; by rewrite ?lookup_empty.
  - intros [|] hd; simpl; [done|]. by rewrite lookup_empty.
  - intros a pg. by rewrite lookup_empty.
Qed.
