(* ===== verification/Malloc.v ===== *)
(** * The kernel heap

    kernel/src/malloc/malloc.c on top of the slab allocator and a page source,
    and kernel/src/page_alloc.c.  Every entry point of malloc.c runs with the
    heap lock held (Spinlock.v), so the operations are modelled as sequential
    steps on the allocator state.  Functions that write to the allocated
    memory also transform the byte memory. *)

From S2P Require Import Prelude CircularList ListFamily Bitops Buddy BuddyRegions PageSource Slab SlabTheory.

Definition MEMMAP_PAGE_SIZE : Z := 4096.

Section malloc.
Context {PS : Type} `{!PageSource PS}.
Implicit Types (st : slab_state PS) (m : memory).

(** Run a page-source operation on the state. *)
Definition on_source {A} (f : PS → outcome (A * PS)) st : outcome (A * slab_state PS) :=
  '(x, src) ← f (source st); Done (x, SlabState (store st) src).

Definition _malloc (size : Z) st : outcome (option Z * slab_state PS) :=
  let size := if size =? 0 then 1 else size in
  if size <=? MAX_SLAB_SIZE then slab_allocate size st
  else on_source (page_allocate size BLOCK_TYPE_PAGE) st.

Definition malloc (size : Z) st : outcome (option Z * slab_state PS) := _malloc size st.

Definition aligned_alloc (alignment size : Z) st : outcome (option Z * slab_state PS) := _malloc size st.

(** The pointer stored in [*memptr], and the return value. *)
Definition posix_memalign (alignment size : Z) st : outcome (option Z * Z * slab_state PS) :=
  '(ptr, st) ← _malloc size st; Done (ptr, 0, st).

Definition calloc (nmemb size : Z) st m : outcome (option Z * slab_state PS * memory) :=
  '(ptr, st) ← _malloc (u64 (nmemb * size)) st;
  match ptr with
  | Some p => Done (Some p, st, memfill p 0 (u64 (nmemb * size)) m)
  | None => Done (None, st, m)
  end.

Definition page_release (ptr : Z) st : outcome (slab_state PS) :=
  src ← page_deallocate ptr (source st); Done (SlabState (store st) src).

Definition _free (ptr : Z) st : outcome (slab_state PS) :=
  if ptr =? 0 then Done st else
  type ← page_get_type (ALIGN_PAGE_DOWN ptr) (source st);
  match type with
  | BLOCK_TYPE_PAGE => page_release ptr st
  | BLOCK_TYPE_SLAB => slab_deallocate ptr st
  | _ => Done st
  end.

Definition free (ptr : Z) st : outcome (slab_state PS) := _free ptr st.

Definition realloc (ptr size : Z) st m : outcome (option Z * slab_state PS * memory) :=
  if ptr =? 0 then '(r, st) ← malloc size st; Done (r, st, m) else
  if size =? 0 then st ← free ptr st; Done (None, st, m) else
  type ← page_get_type (ALIGN_PAGE_DOWN ptr) (source st);
  known ← match type with
          | BLOCK_TYPE_PAGE => n ← page_get_size ptr (source st); Done (Some n)
          | BLOCK_TYPE_SLAB => n ← slab_get_size ptr st; Done (Some n)
          | _ => Done None
          end;
  match (known : option Z) with
  | None => Done (Some ptr, st, m)
  | Some old_size =>
      if (size <=? old_size) && (MAX_SLAB_SIZE <? old_size) && (MAX_SLAB_SIZE <? size) then
        '(r, src, m) ← page_reallocate ptr size (source st) m;
        Done (r, SlabState (store st) src, m)
      else
        '(r, st) ← _malloc size st;
        match r with
        | None => Done (None, st, m)
        | Some new_ptr =>
            let copy_size := if old_size <? size then old_size else size in
            let m := memcpy new_ptr ptr copy_size m in
            st ← match type with
                 | BLOCK_TYPE_PAGE => page_release ptr st
                 | BLOCK_TYPE_SLAB => slab_deallocate ptr st
                 | _ => Done st
                 end;
            Done (Some new_ptr, st, m)
        end
  end.

Definition reallocarray (ptr nmemb size : Z) st m : outcome (option Z * slab_state PS * memory) :=
  realloc ptr (u64 (nmemb * size)) st m.

(** ** page_alloc.c

    [hhdm] is [mmu_hhdm_vaddr], 0 on targets without virtual memory; 0 is also
    what the functions return for failure.  [mem_set dst byte size] is the
    function of badge_strings.h. *)

Definition phys_page_alloc (mem_set : Z → Z → Z → memory → memory) (hhdm page_count : Z) (for_user : bool) (src : PS) m
    : outcome (Z * PS * memory) :=
  '(mem, src) ← page_allocate (u64 (page_count * MEMMAP_PAGE_SIZE))
    (if for_user then BLOCK_TYPE_USER else BLOCK_TYPE_PAGE) src;
  match mem with
  | None => Done (0, src, m)
  | Some a =>
      Done (u64 (a - hhdm) / MEMMAP_PAGE_SIZE, src,
            mem_set a 0 (u64 (page_count * MEMMAP_PAGE_SIZE)) m)
  end.

Definition phys_page_size (hhdm ppn : Z) (src : PS) : outcome Z :=
  n ← page_get_size (u64 (ppn * MEMMAP_PAGE_SIZE + hhdm)) src; Done (n / MEMMAP_PAGE_SIZE).

Definition phys_page_free (hhdm ppn : Z) (src : PS) : outcome PS :=
  page_deallocate (u64 (ppn * MEMMAP_PAGE_SIZE + hhdm)) src.
End malloc.

(** [kernel_heap_init]; [sram] is the range given by the linker on targets that
    do not detect their memory at run time. *)
Definition kernel_heap_init (sram : option (Z * Z)) (pools : list memory_pool) (h : headers)
    : outcome (slab_state (list memory_pool)) :=
  pools ← match sram with Some (a, b) => init_pool a b 0 pools | None => Done pools end;
  h ← init_kernel_slabs h;
  Done (SlabState h pools).
