(* ===== verification/MallocTheory.v ===== *)
(** * Correctness of the kernel heap

    The abstract heap is a map from the addresses of live objects to their
    usable sizes.  Slab slots and page regions both appear in it as plain
    objects; the theorems of MallocCorrect.v do not mention how an object is
    backed. *)

From S2P Require Import Prelude CircularList ListFamily Bitops Buddy BuddyRegions PageSource Slab SlabTheory Malloc.

(** Page numbers relative to a page-aligned base. *)
Lemma page_number_round_trip a q hhdm : ALIGN_PAGE_DOWN a = a → 0 < a < 2 ^ 64 → hhdm = q * 4096 →
  u64 (u64 (a - hhdm) / 4096 * 4096 + hhdm) = a.
Proof.
  intros Hal Ha ->. unfold ALIGN_PAGE_DOWN, ALIGN_DOWN, PAGE_SIZE in Hal.
  rewrite wrap_small in Hal by (unfold fits; lia). change (4096 - 1) with (2 ^ 12 - 1) in Hal.
  rewrite land_align in Hal by (unfold fits; lia). change (2 ^ 12) with 4096 in Hal.
  unfold wrap. rewrite <-Hal. replace (a / 4096 * 4096 - q * 4096) with ((a / 4096 - q) * 4096) by lia.
  change (2 ^ 64) with (2 ^ 52 * 4096). rewrite Z.mul_mod_distr_r, Z.div_mul by lia.
  rewrite <-Z.mul_add_distr_r, Z.mul_mod_distr_r by lia. f_equal.
  rewrite Zplus_mod_idemp_l. replace (a / 4096 - q + q) with (a / 4096) by lia.
  apply Z.mod_small. split; [apply Z.div_pos; lia|]. apply Z.div_lt_upper_bound; lia.
Qed.

Section heap.
Context {PS : Type} `{!PageSource PS, !PageSourceSpec PS}.
Implicit Types (st : slab_state PS) (L : gmap Z region) (G : gmap Z slab_page) (H : gmap Z Z).

Definition page_object L (p n : Z) : Prop :=
  ∃ r, L !! p = Some r ∧ rg_type r = BLOCK_TYPE_PAGE ∧ n = rg_len r.

Definition heap_object L G (p n : Z) : Prop := slab_object G p n ∨ page_object L p n.

Definition heap st H : Prop := ∃ L G, slab_inv st L G ∧ ∀ p n, H !! p = Some n ↔ heap_object L G p n.

Lemma page_object_others L L' p n : same_others L L' → page_object L' p n ↔ page_object L p n.
Proof. intros Hs. unfold page_object. split; intros (r&Hr&Ht&?); exists r; (split; [|done]); apply Hs in Hr; done || congruence. Qed.

Lemma slab_page_apart st L G p n p' n' : slab_inv st L G → slab_object G p n → page_object L p' n' →
  apart p n p' n' ∧ p ≠ p'.
Proof.
  intros HI Ho (r'&Hr'&Ht'&->). destruct (object_in_region _ _ _ _ _ HI Ho) as (a&r&Hr&Ht&_&?&?&?&?).
  assert (a ≠ p') as Hne by congruence. pose proof (holds_ok _ _ _ _ (si_source _ _ _ HI) Hr') as (_&_&?&_).
  destruct (holds_apart _ _ _ _ _ _ (si_source _ _ _ HI) Hr Hr' Hne); unfold apart, DATA_OFFSET in *; lia.
Qed.

Lemma heap_apart st L G p n p' n' : slab_inv st L G → heap_object L G p n → heap_object L G p' n' →
  p ≠ p' → apart p n p' n'.
Proof.
  intros HI [Ho|Ho] [Ho'|Ho'] Hne.
  - by eapply object_apart.
  - by eapply slab_page_apart.
  - destruct (slab_page_apart _ _ _ _ _ _ _ HI Ho' Ho) as [[?|?] _]; unfold apart; lia.
  - destruct Ho as (r&Hr&_&->), Ho' as (r'&Hr'&_&->). eapply holds_apart; try done. apply HI.
Qed.

Lemma heap_range st L G p n : slab_inv st L G → heap_object L G p n → 0 < p ∧ 0 < n ∧ p + n < 2 ^ 64.
Proof.
  intros HI [Ho|(r&Hr&_&->)].
  - destruct (object_in_region _ _ _ _ _ HI Ho) as (a&r&Hr&Ht&(?&_&_&?&_)&?&?&?&?).
    unfold DATA_OFFSET in *. lia.
  - pose proof (holds_ok _ _ _ _ (si_source _ _ _ HI) Hr) as (?&_&?&?&_). lia.
Qed.

(** What a successful allocation of [size] bytes guarantees. *)
Definition fresh_object H (size p n : Z) : Prop :=
  H !! p = None ∧ Z.max 1 size <= n ∧ 0 < p ∧ p + n < 2 ^ 64 ∧
  ∀ p' n', H !! p' = Some n' → apart p n p' n'.

(** One object more. *)
Lemma heap_gain st' L L' G G' H p n size : slab_inv st' L' G' →
  (∀ p n, H !! p = Some n ↔ heap_object L G p n) →
  (∀ p' n', heap_object L' G' p' n' ↔ heap_object L G p' n' ∨ (p' = p ∧ n' = n)) →
  (∀ n', ¬ heap_object L G p n') → Z.max 1 size <= n →
  heap st' (<[p := n]> H) ∧ fresh_object H size p n.
Proof.
  intros HI HH Hobj Hnew Hn.
  assert (H !! p = None) as Hp by (apply eq_None_not_Some; intros [n' Hn']; by apply HH, Hnew in Hn').
  assert (Hpo : heap_object L' G' p n) by (apply Hobj; by right).
  split.
  - exists L', G'. split; [done|]. intros p' n'. rewrite lookup_insert_Some, Hobj, HH.
    split; [naive_solver|]. intros [Ho|[-> ->]]; [right|by left]. split; [|done].
    intros <-. by eapply Hnew.
  - destruct (heap_range _ _ _ _ _ HI Hpo) as (?&?&?). split_and!; try done.
    intros p' n' Hp'. eapply heap_apart; [done|done|apply Hobj; left; by apply HH|congruence].
Qed.

(** One object less. *)
Lemma heap_loss st' L L' G G' H p : slab_inv st' L' G' →
  (∀ p n, H !! p = Some n ↔ heap_object L G p n) →
  (∀ p' n', heap_object L' G' p' n' ↔ heap_object L G p' n' ∧ p' ≠ p) →
  heap st' (delete p H).
Proof.
  intros HI HH Hobj. exists L', G'. split; [done|]. intros p' n'.
  rewrite lookup_delete_Some, Hobj, HH. naive_solver.
Qed.

(** Regions that are not slab pages come and go without the slab allocator
    noticing. *)
Lemma slab_inv_others st L L' G src : slab_inv st L G → holds src L' →
  (∀ b r, rg_type r = BLOCK_TYPE_SLAB → L' !! b = Some r ↔ L !! b = Some r) →
  slab_inv (SlabState (store st) src) L' G.
Proof.
  intros [Hsrc HC HG HS] Hsrc' Hsame. split; [done|done| |].
  - intros b pg Hb. destruct (HG b pg Hb) as (r&Hr&Ht&?). exists r. by rewrite Hsame.
  - intros b r Hb Ht. apply Hsame in Hb; [|done]. by eapply HS.
Qed.

Lemma slab_inv_add st L G a r src : slab_inv st L G → L !! a = None → rg_type r ≠ BLOCK_TYPE_SLAB →
  holds src (<[a := r]> L) → slab_inv (SlabState (store st) src) (<[a := r]> L) G.
Proof.
  intros HI Ha Ht Hsrc. apply (slab_inv_others st L); try done. intros b rb Hb.
  rewrite lookup_insert_Some. naive_solver.
Qed.

Lemma slab_inv_drop st L G a r src : slab_inv st L G → L !! a = Some r → rg_type r ≠ BLOCK_TYPE_SLAB →
  holds src (delete a L) → slab_inv (SlabState (store st) src) (delete a L) G.
Proof.
  intros HI Ha Ht Hsrc. apply (slab_inv_others st L); try done. intros b rb Hb.
  rewrite lookup_delete_Some. naive_solver.
Qed.

Lemma page_object_insert L a r : L !! a = None → rg_type r = BLOCK_TYPE_PAGE → ∀ p n,
  page_object (<[a := r]> L) p n ↔ page_object L p n ∨ (p = a ∧ n = rg_len r).
Proof.
  intros Ha Ht p n. unfold page_object. setoid_rewrite lookup_insert_Some. split.
  - intros (r'&[[<- <-]|[? ?]]&?&?); naive_solver.
  - intros [(r'&Hr'&?&?)|[-> ->]]; [exists r'|exists r]; naive_solver.
Qed.

Lemma page_object_delete L a p n : page_object (delete a L) p n ↔ page_object L p n ∧ p ≠ a.
Proof. unfold page_object. setoid_rewrite lookup_delete_Some. naive_solver. Qed.

(** The type of the page an object lives on tells how it is backed. *)
Lemma slab_object_type st L G p n : slab_inv st L G → slab_object G p n →
  page_get_type (ALIGN_PAGE_DOWN p) (source st) = Done BLOCK_TYPE_SLAB.
Proof.
  intros HI (a&pg&i&Ha&Hi&->&->). pose proof HI as [Hsrc [_ HP] HG _].
  destruct (HP a pg Ha) as (hd&Hd&Hok).
  destruct (slot_decode _ _ _ _ _ _ HI Ha (po_slots _ _ _ Hok i Hi)) as (_&Hal&_).
  destruct (HG a pg Ha) as (r&Hr&Ht&_). by rewrite Hal, (get_type_law _ _ _ _ Hsrc Hr), Ht.
Qed.

Lemma page_object_type st L G p n : slab_inv st L G → page_object L p n →
  page_get_type (ALIGN_PAGE_DOWN p) (source st) = Done BLOCK_TYPE_PAGE.
Proof.
  intros HI (r&Hr&Ht&_). pose proof (si_source _ _ _ HI) as Hsrc.
  pose proof (holds_ok _ _ _ _ Hsrc Hr) as (_&Hal&_). by rewrite Hal, (get_type_law _ _ _ _ Hsrc Hr), Ht.
Qed.

(** The objects of [H] are backed the same way in both states. *)
Definition same_backing st st' H : Prop := ∀ p n, H !! p = Some n →
  page_get_type (ALIGN_PAGE_DOWN p) (source st') = page_get_type (ALIGN_PAGE_DOWN p) (source st).

Lemma same_backing_intro st st' L L' G G' H : slab_inv st L G → slab_inv st' L' G' →
  (∀ p n, H !! p = Some n ↔ heap_object L G p n) →
  (∀ p n, slab_object G p n → slab_object G' p n) → (∀ p n, page_object L p n → page_object L' p n) →
  same_backing st st' H.
Proof.
  intros HI HI' HH HG HL p n [Ho|Ho]%HH.
  - by rewrite (slab_object_type st L G p n HI Ho), (slab_object_type st' L' G' p n HI' (HG _ _ Ho)).
  - by rewrite (page_object_type st L G p n HI Ho), (page_object_type st' L' G' p n HI' (HL _ _ Ho)).
Qed.

Lemma malloc_cases st H size : heap st H → 0 <= size → size + (PAGE_SIZE - 1) < 2 ^ 64 →
  _malloc size st = Done (None, st) ∨
  ∃ p n st', _malloc size st = Done (Some p, st') ∧
    (heap st' (<[p := n]> H) ∧ fresh_object H size p n) ∧ same_backing st st' H.
Proof.
  intros (L&G&HI&HH) Hs0 Hs. unfold _malloc.
  assert (Hmax : (if size =? 0 then 1 else size) = Z.max 1 size) by (destruct (Z.eqb_spec size 0); lia).
  rewrite Hmax. unfold MAX_SLAB_SIZE. destruct (Z.leb_spec (Z.max 1 size) 256).
  - destruct (slab_allocate_cases st L G (Z.max 1 size) HI) as [E|(p&st'&L'&G'&E&HI'&Hoth&Hfit&Hobj&Hnew)];
      [lia|by left|right].
    exists p, (bytes_of (class_of (Z.max 1 size))), st'. split; [done|]. split.
    2:{ eapply (same_backing_intro st st' L L' G G'); try done; [intros; apply Hobj; by left|].
        intros p' n'. by apply page_object_others. }
    apply (heap_gain st' L L' G G'); try done.
    + intros p' n'. unfold heap_object. rewrite Hobj, (page_object_others L L') by done. tauto.
    + intros n' [Ho|Ho]; [by eapply Hnew|]. apply (page_object_others L L') in Ho; [|done].
      edestruct (slab_page_apart st' L' G') as [_ Hne]; [done|apply Hobj; by right|exact Ho|]. done.
  - unfold on_source.
    destruct (allocate_law (Z.max 1 size) BLOCK_TYPE_PAGE _ L (si_source _ _ _ HI)) as [E|(a&r&src&E&Hsrc&Hpost)];
      [lia|unfold PAGE_SIZE in *; lia| |]; rewrite E; cbn [mbind outcome_bind]; [left; by destruct st|right].
    destruct Hpost as (Hnone&Ht&_&Hlen&_). exists a, (rg_len r), (SlabState (store st) src).
    assert (HI' : slab_inv (SlabState (store st) src) (<[a := r]> L) G) by (apply slab_inv_add; try done; congruence).
    split; [done|]. split.
    2:{ eapply (same_backing_intro st _ L (<[a := r]> L) G G); try done.
        intros p' n' ?. apply page_object_insert; auto. }
    apply (heap_gain _ L (<[a := r]> L) G G); try done.
    + intros p' n'. unfold heap_object. rewrite (page_object_insert L a r) by done. tauto.
    + intros n' [Ho|(r'&Hr'&_)]; [|congruence].
      edestruct (slab_page_apart (SlabState (store st) src) (<[a := r]> L) G) as [_ Hne];
        [done|exact Ho|by exists r; rewrite lookup_insert_eq|]. done.
Qed.

(** Releasing an object, by the type of its page. *)
Lemma release_cases st H p n : heap st H → H !! p = Some n →
  p ≠ 0 ∧ ∃ t, page_get_type (ALIGN_PAGE_DOWN p) (source st) = Done t ∧
  (t = BLOCK_TYPE_PAGE ∧ (∃ st', page_release p st = Done st' ∧ heap st' (delete p H)) ∧
     (page_get_size p (source st) ≠ Undef →
       ∃ old, page_get_size p (source st) = Done old ∧ n <= old ∧ MAX_SLAB_SIZE < old) ∨
   t = BLOCK_TYPE_SLAB ∧ (∃ st', slab_deallocate p st = Done st' ∧ heap st' (delete p H)) ∧
     slab_get_size p st = Done n ∧ n <= 256).
Proof.
  intros (L&G&HI&HH) Hp. pose proof Hp as Ho. apply HH in Ho.
  destruct (heap_range _ _ _ _ _ HI Ho) as (?&?&?). split; [lia|].
  destruct Ho as [Ho|(r&Hr&Ht&->)].
  - pose proof Ho as (a&pg&i&Ha&Hi&->&->). pose proof HI as [Hsrc [_ HP] HG _].
    destruct (HP a pg Ha) as (hd&Hd&Hok). pose proof (po_slots _ _ _ Hok i Hi) as Hir.
    destruct (slot_decode _ _ _ _ _ _ HI Ha Hir) as (_&Hal&_). destruct (HG a pg Ha) as (r&Hr&Ht&_).
    exists BLOCK_TYPE_SLAB. rewrite Hal, (get_type_law _ _ _ _ Hsrc Hr), Ht. split; [done|]. right.
    destruct (class_values _ (po_range _ _ _ Hok)) as (Hb&_&Hsl&Hfit&_).
    split_and!; [done| | |].
    + pose proof (slab_deallocate_cases st L G a pg i HI Ha Hir) as Hdel. rewrite decide_True in Hdel by done.
      destruct Hdel as (st'&L'&G'&E&HI'&Hoth&Hobj). exists st'. split; [done|].
      apply (heap_loss st' L L' G G'); try done. intros p' n'. unfold heap_object.
      rewrite Hobj, (page_object_others L L') by done. split; [|tauto].
      intros [?|Hpo]; [tauto|]. split; [tauto|]. intros ->.
      by edestruct (slab_page_apart st L G) as [_ Hne]; [done|exact Ho|exact Hpo|].
    + unfold slab_get_size. rewrite (proj2 (Z.eqb_neq _ 0)) by lia. rewrite Hal. bind_step Hd.
      by rewrite (po_class _ _ _ Hok), Hb.
    + pose proof (po_range _ _ _ Hok) as Hc. destruct (pg_class pg) as [|[|[|[|?]]]]; cbn; lia.
  - pose proof (si_source _ _ _ HI) as Hsrc. pose proof (holds_ok _ _ _ _ Hsrc Hr) as (_&Hal&Hlen&_&_).
    exists BLOCK_TYPE_PAGE. rewrite Hal, (get_type_law _ _ _ _ Hsrc Hr), Ht. split; [done|]. left.
    split_and!; [done| |].
    + destruct (deallocate_law _ _ _ _ Hsrc Hr) as (src&E&Hsrc'). unfold page_release. bind_step E.
      eexists; split; [done|]. apply (heap_loss _ L (delete p L) G G); [|done|].
      * eapply slab_inv_drop; try done. congruence.
      * intros p' n'. unfold heap_object. rewrite page_object_delete. split; [|tauto].
        intros [Hso|?]; [|tauto]. split; [tauto|]. intros ->.
        edestruct (slab_page_apart st L G) as [_ Hne]; [done|exact Hso|by exists r|]. done.
    + rewrite (get_size_law _ _ _ _ Hsrc Hr). case_bool_decide; [|done]. intros _. eexists; split; [done|].
      unfold MAX_SLAB_SIZE, PAGE_SIZE in *. lia.
Qed.

(** Outcome of a reallocation that does not keep the address: object [p] of
    size [n] is replaced by a new one that starts with its bytes, and the bytes
    of the other objects are untouched. *)
Definition replaced H (p n size : Z) (m : memory) (p' : Z) st' (m' : memory) : Prop :=
  ∃ n', heap st' (<[p' := n']> (delete p H)) ∧ fresh_object H size p' n' ∧
    (∀ i, 0 <= i < Z.min n size → m' (p' + i) = m (p + i)) ∧
    (∀ x nx i, delete p H !! x = Some nx → 0 <= i < nx → m' (x + i) = m (x + i)).

(** Outcome of a reallocation that keeps the address: the block of the object has
    the size that the request needs. *)
Definition kept st (p n size : Z) : Prop :=
  let k := 2 ^ Z.log2_up (request_pages size) * PAGE_SIZE in page_get_size p (source st) = Done k ∧ MAX_SLAB_SIZE < size <= k ∧ n <= k.

(** Copying into a fresh object. *)
Lemma copy_fresh H p n size p' n' c m : fresh_object H size p' n' → 0 < size →
  Z.min n size <= c <= size →
  (∀ i, 0 <= i < Z.min n size → memcpy p' p c m (p' + i) = m (p + i)) ∧
  (∀ x nx i, delete p H !! x = Some nx → 0 <= i < nx → memcpy p' p c m (x + i) = m (x + i)).
Proof.
  intros (_&Hn'&_&_&Hap) Hs Hc. split.
  - intros i Hi. apply memcpy_inside. lia.
  - intros x nx i [_ Hx]%lookup_delete_Some Hi. apply memcpy_outside. destruct (Hap x nx Hx); lia.
Qed.

(** The [page_reallocate] branch of [realloc]. *)
Lemma page_realloc_cases st H p n size m : heap st H → H !! p = Some n →
  page_get_type (ALIGN_PAGE_DOWN p) (source st) = Done BLOCK_TYPE_PAGE → page_get_size p (source st) ≠ Undef →
  MAX_SLAB_SIZE < size → size + (PAGE_SIZE - 1) < 2 ^ 64 →
  (kept st p n size ∧ page_reallocate p size (source st) m = Done (Some p, source st, m)) ∨
  (malloc size st = Done (None, st) ∧ page_reallocate p size (source st) m = Done (None, source st, m)) ∨
  ∃ p' src m', page_reallocate p size (source st) m = Done (Some p', src, m') ∧
    replaced H p n size m p' (SlabState (store st) src) m'.
Proof.
  intros (L&G&HI&HH) Hp Hty Hsz Hs0 Hs. pose proof Hp as Ho. apply HH in Ho.
  pose proof (si_source _ _ _ HI) as Hsrc. unfold MAX_SLAB_SIZE in *.
  destruct Ho as [(a&pg&i&Ha&Hi&->&->)|(r&Hr&Ht&->)].
  { exfalso. destruct (sc_pages _ _ _ (si_core _ _ _ HI) a pg Ha) as (hd&Hd&Hok).
    destruct (slot_decode _ _ _ _ _ _ HI Ha (po_slots _ _ _ Hok i Hi)) as (_&Hal&_).
    destruct (si_pages _ _ _ HI a pg Ha) as (r&Hr&Ht&_).
    rewrite Hal, (get_type_law _ _ _ _ Hsrc Hr), Ht in Hty. done. }
  pose proof (get_size_law _ _ _ _ Hsrc Hr) as Hgs. rewrite Hgs in Hsz. case_bool_decide as Hsmall; [|done].
  destruct (reallocate_law _ _ _ _ size m Hsrc Hr Hsmall) as [[Ho E]|[[Ea E]|(p'&r'&src&m'&E&Hsrc'&Hpost&Hcopy&Hkeep)]];
    [lia|done| | |right; right].
  { left. split; [|done]. destruct (request_pages_bounds size) as [? ?]; [lia|done|]. destruct (holds_ok _ _ _ _ Hsrc Hr) as (_&_&Hlen&_).
    assert (request_pages size <= 2 ^ Z.log2_up (request_pages size)).
    { destruct (decide (request_pages size = 1)) as [->|]; [done|]. apply Z.log2_up_spec. lia. }
    unfold kept. cbv zeta. rewrite <-Ho in *. unfold MAX_SLAB_SIZE, PAGE_SIZE in *. split_and!; [done|lia|nia|lia]. }
  { right; left. split; [|done]. unfold malloc, _malloc. rewrite (proj2 (Z.eqb_neq size 0)), (proj2 (Z.leb_gt size MAX_SLAB_SIZE)) by (unfold MAX_SLAB_SIZE; lia). unfold on_source. rewrite Ht in Ea. rewrite Ea. cbn [mbind outcome_bind]. by destruct st. }
  exists p', src, m'. split; [done|]. exists (rg_len r').
  destruct Hpost as (Hnone&Ht'&_&Hlen&?&?&_&Hap). rewrite Ht in Ht'.
  assert (p' ≠ p) as Hne by congruence.
  assert (HI' : slab_inv (SlabState (store st) src) (<[p' := r']> (delete p L)) G).
  { apply (slab_inv_others st L); try done. intros b rb Hb.
    rewrite lookup_insert_Some, lookup_delete_Some. split.
    - intros [[<- <-]|(_&_&?)]; [congruence|done].
    - intros Hlb. right. split_and!; [congruence|congruence|done]. }
  assert (Hslab : ∀ n', ¬ slab_object G p' n').
  { intros n' Hso. edestruct (slab_page_apart _ _ _ p' n' p' (rg_len r') HI' Hso) as [_ ?]; [|done].
    exists r'. by rewrite lookup_insert_eq. }
  destruct (heap_gain (SlabState (store st) src) (delete p L) _ G G (delete p H) p' (rg_len r') size HI')
    as (Hheap&Hf&Hn&_&_&Hap'); [| | |lia|].
  { intros x nx. rewrite lookup_delete_Some, HH. unfold heap_object. rewrite page_object_delete.
    split; [intros [? [?|?]]; auto|]. intros [Hso|[? ?]]; [|auto]. split; [|by left]. intros <-.
    edestruct (slab_page_apart _ _ _ p nx p (rg_len r) HI Hso) as [_ ?]; [by exists r|done]. }
  { intros x nx. unfold heap_object. rewrite (page_object_insert _ p' r'); [tauto|by rewrite lookup_delete_ne|done]. }
  { intros n' [?|(r0&Hr0&_)]; [by eapply Hslab|]. rewrite lookup_delete_ne in Hr0 by done. congruence. }
  split_and!; [done| | |].
  - split_and!; try done; [by rewrite lookup_delete_ne in Hf|]. intros x nx Hx.
    destruct (decide (x = p)) as [->|Hxp]; [|apply Hap'; by rewrite lookup_delete_ne].
    apply HH in Hx as [Hso|(r0&Hr0&_&->)]; [|by apply Hap].
    edestruct (slab_page_apart _ _ _ p nx p (rg_len r) HI Hso) as [_ ?]; [by exists r|done].
  - intros i Hi. apply Hcopy; lia.
  - intros x nx i [Hxp Hx]%lookup_delete_Some Hi. apply HH in Hx as [Hso|(r0&Hr0&_&->)].
    + destruct (object_in_region _ _ _ _ _ HI Hso) as (a&ra&Hra&Hta&_&?&?&?&?). unfold DATA_OFFSET in *.
      replace (x + i) with (a + (x + i - a)) by lia. apply (Hkeep a ra); [|lia].
      rewrite lookup_delete_ne by congruence. done.
    + apply (Hkeep x r0); [by rewrite lookup_delete_ne|done].
Qed.

(** The branch of [realloc] that allocates, copies and releases. *)
Lemma move_cases st H p n size old t m : heap st H → H !! p = Some n → 0 < size →
  size + (PAGE_SIZE - 1) < 2 ^ 64 → n <= old →
  page_get_type (ALIGN_PAGE_DOWN p) (source st) = Done t → (t = BLOCK_TYPE_PAGE ∨ t = BLOCK_TYPE_SLAB) →
  let o := '(r, st) ← _malloc size st;
    match r with
    | None => Done (None, st, m)
    | Some new_ptr =>
        st ← match t with
             | BLOCK_TYPE_PAGE => page_release p st
             | BLOCK_TYPE_SLAB => slab_deallocate p st
             | _ => Done st
             end;
        Done (Some new_ptr, st, memcpy new_ptr p (if old <? size then old else size) m)
    end in
  (malloc size st = Done (None, st) ∧ o = Done (None, st, m)) ∨ ∃ p' st' m', o = Done (Some p', st', m') ∧ replaced H p n size m p' st' m'.
Proof.
  intros Hh Hp Hs0 Hs Hold Et Ht o. subst o.
  destruct (malloc_cases st H size Hh) as [E|(p'&n'&st1&E&[Hh1 Hf]&Hsame)]; [lia|done|..];
    rewrite ?E; cbn [mbind outcome_bind]; [by left|right].
  assert (p' ≠ p) as Hne by (destruct Hf as (?&_); congruence).
  assert (Hp1 : <[p' := n']> H !! p = Some n) by (by rewrite lookup_insert_ne).
  destruct (release_cases st1 _ p n Hh1 Hp1) as (_&t1&Et1&Hcase).
  rewrite (Hsame p n Hp), Et in Et1. injection Et1 as <-.
  assert (Hrel : ∃ st2, match t with BLOCK_TYPE_PAGE => page_release p st1
    | BLOCK_TYPE_SLAB => slab_deallocate p st1 | _ => Done st1 end = Done st2 ∧ heap st2 (delete p (<[p' := n']> H))).
  { destruct Hcase as [(->&Hr&_)|(->&Hr&_)]; exact Hr. }
  destruct Hrel as (st2&E2&Hh2). rewrite E2. cbn [mbind outcome_bind]. eexists p', st2, _. split; [done|].
  exists n'. rewrite delete_insert_ne in Hh2 by done.
  destruct (copy_fresh H p n size p' n' (if old <? size then old else size) m Hf Hs0) as [H1 H2]; [|done].
  destruct (Z.ltb_spec old size); lia.
Qed.

Lemma empty_heap (src : PS) h : holds src ∅ → slab_core h ∅ None →
  slab_inv (SlabState h src) ∅ ∅ ∧ heap (SlabState h src) ∅.
Proof.
  intros Hsrc HC. assert (HI : slab_inv (SlabState h src) ∅ ∅).
  { split; [done|done| |]; intros ? ? ?; by rewrite lookup_empty in *. }
  split; [done|]. exists ∅, ∅. split; [done|]. intros p n. rewrite lookup_empty. split; [done|].
  intros [(a&pg&i&Ha&_)|(r&Hr&_)]; by rewrite lookup_empty in *.
Qed.
End heap.
