(* ===== verification/MallocCorrect.v ===== *)
(** * The kernel heap: specification

    The theorems that make malloc.c, slab-alloc.c and page_alloc.c correct, for
    every page source that satisfies the laws of PageSource.v, and their
    instances on the buddy allocator. *)

From S2P Require Import Prelude CircularList ListFamily Bitops Buddy BuddyTiling BuddyTheory BuddyAlloc BuddyRegions BuddyInit BuddyCorrect PageSource Slab SlabTheory Malloc MallocTheory.

Section correct.
Context {PS : Type} `{!PageSource PS, !PageSourceSpec PS}.
Implicit Types (st : slab_state PS) (L : gmap Z region) (G : gmap Z slab_page) (H : gmap Z Z).

(** [slab_allocate] preserves the slab invariant (use counts, use classes,
    bitmaps and lists agree).  It returns null only without changing anything,
    never finds a picked page without a free slot, and otherwise returns one
    new slot, large enough for the request and distinct from every slot in
    use. *)
Theorem slab_allocate_correct st L G size :
  slab_inv st L G → 0 <= size <= 256 →
  slab_allocate size st = Done (None, st) ∨
  ∃ ptr st' L' G', slab_allocate size st = Done (Some ptr, st') ∧
    slab_inv st' L' G' ∧ same_others L L' ∧ size <= bytes_of (class_of size) ∧
    (∀ p n, slab_object G' p n ↔ slab_object G p n ∨ (p = ptr ∧ n = bytes_of (class_of size))) ∧
    (∀ p n, slab_object G p n → apart ptr (bytes_of (class_of size)) p n).
Proof.
  intros HI Hs. destruct (slab_allocate_cases st L G size HI Hs) as [E|(p&st'&L'&G'&E&HI'&?&?&Hobj&Hnew)];
    [by left|right].
  exists p, st', L', G'. split_and!; try done. intros p' n' Ho.
  apply (object_apart st' L' G'); [done|apply Hobj; by right|apply Hobj; by left|].
  intros <-. by eapply Hnew.
Qed.

(** [slab_deallocate] of the address of a slot: an allocated slot is freed
    and nothing else changes, the page being moved to an emptier list or
    returned to the page allocator; freeing a slot that is already free is
    detected and leaves the state unchanged. *)
Theorem slab_deallocate_correct st L G a pg i :
  slab_inv st L G → G !! a = Some pg → 0 <= i < slots_of (pg_class pg) →
  if decide (i ∈ pg_slots pg) then
    ∃ st' L' G', slab_deallocate (slot_address a (pg_class pg) i) st = Done st' ∧
      slab_inv st' L' G' ∧ same_others L L' ∧
      ∀ p n, slab_object G' p n ↔ slab_object G p n ∧ p ≠ slot_address a (pg_class pg) i
  else slab_deallocate (slot_address a (pg_class pg) i) st = Done st.
Proof. apply slab_deallocate_cases. Qed.

(** C9: [malloc] on a heap with live objects [H] returns null and leaves the
    heap unchanged, or returns a new object of at least [size] bytes (one byte
    for a request of zero) that does not overlap any live object; every live
    object stays live with its size. *)
Theorem malloc_correct st H size :
  heap st H → 0 <= size → size + (PAGE_SIZE - 1) < 2 ^ 64 →
  malloc size st = Done (None, st) ∨
  ∃ p n st', malloc size st = Done (Some p, st') ∧ heap st' (<[p := n]> H) ∧ fresh_object H size p n.
Proof.
  intros Hh Hs0 Hs. destruct (malloc_cases st H size Hh Hs0 Hs) as [?|(p&n&st'&E&[? ?]&_)]; [by left|right].
  by exists p, n, st'.
Qed.

(** C23: [free] of the address of a live object, whether it is backed by a slab
    slot or by pages, succeeds and removes exactly that object. *)
Theorem free_correct st H p n :
  heap st H → H !! p = Some n → ∃ st', free p st = Done st' ∧ heap st' (delete p H).
Proof.
  intros Hh Hp. destruct (release_cases st H p n Hh Hp) as (Hnz&t&Et&Hcase).
  unfold free, _free. rewrite (proj2 (Z.eqb_neq p 0)) by done. bind_step Et.
  destruct Hcase as [(->&Hex&_)|(->&Hex&_)]; exact Hex.
Qed.

(** [calloc] returns memory that is all zero and large enough for [nmemb]
    times [size] bytes whenever that product does not overflow, and writes to
    no other object. *)
Theorem calloc_correct st H nmemb size m :
  heap st H → 0 <= nmemb → 0 <= size → nmemb * size + (PAGE_SIZE - 1) < 2 ^ 64 →
  calloc nmemb size st m = Done (None, st, m) ∨
  ∃ p n st' m', calloc nmemb size st m = Done (Some p, st', m') ∧
    heap st' (<[p := n]> H) ∧ fresh_object H (nmemb * size) p n ∧
    (∀ i, 0 <= i < nmemb * size → m' (p + i) = 0) ∧
    (∀ x nx i, H !! x = Some nx → 0 <= i < nx → m' (x + i) = m (x + i)).
Proof.
  intros Hh Hn Hs Hov. unfold calloc, PAGE_SIZE in *. assert (0 <= nmemb * size) by (by apply Z.mul_nonneg_nonneg).
  rewrite wrap_small by (unfold fits; lia).
  destruct (malloc_cases st H (nmemb * size) Hh) as [E|(p&n&st'&E&[Hh' Hf]&_)]; [done|unfold PAGE_SIZE; lia|..];
    rewrite E; cbn [mbind outcome_bind]; [by left|right].
  eexists p, n, st', _. split_and!; [done|done|done| |].
  - intros i Hi. apply memfill_inside. lia.
  - intros x nx i Hx Hi. apply memfill_outside. destruct Hf as (_&?&_&_&Hap). destruct (Hap x nx Hx); lia.
Qed.

(** C22: [realloc] of a live object keeps its contents: it replaces the object by a
    new one of at least [size] bytes that starts with the first [min n size] bytes
    of the old one, without writing to any other live object; or [malloc] of that
    size fails, and so does [realloc], with the heap as it was; or the object stays
    where it is, but only when its block is exactly the one that the request needs.
    The block is then large enough; the object fills it, unless the block runs past
    the end of its pool.  (The hypothesis excludes blocks
    of 2 GiB and more, whose size [buddy_get_size] cannot represent.) *)
Theorem realloc_correct st H p n size m :
  heap st H → H !! p = Some n → page_get_size p (source st) ≠ Undef →
  0 < size → size + (PAGE_SIZE - 1) < 2 ^ 64 →
  (kept st p n size ∧ realloc p size st m = Done (Some p, st, m)) ∨ (malloc size st = Done (None, st) ∧ realloc p size st m = Done (None, st, m)) ∨
  ∃ p' st' m', realloc p size st m = Done (Some p', st', m') ∧ replaced H p n size m p' st' m'.
Proof.
  intros Hh Hp Hsz Hs0 Hs. destruct (release_cases st H p n Hh Hp) as (Hnz&t&Et&Hcase).
  unfold realloc. rewrite (proj2 (Z.eqb_neq p 0)), (proj2 (Z.eqb_neq size 0)) by lia. bind_step Et.
  assert (Hmove : ∀ old, n <= old → (* allocate, copy and release *)
    let o := '(r, st) ← _malloc size st;
      match r with
      | None => Done (None, st, m)
      | Some new_ptr =>
          st ← match t with
               | BLOCK_TYPE_PAGE => page_release p st
               | BLOCK_TYPE_SLAB => slab_deallocate p st
               | _ => Done st
               end;
          Done (Some new_ptr, st, memcpy new_ptr p (if old <? size then old else size) m)
      end in
    (malloc size st = Done (None, st) ∧ o = Done (None, st, m)) ∨ ∃ p' st' m', o = Done (Some p', st', m') ∧ replaced H p n size m p' st' m').
  { intros old Hold. apply move_cases; try done. by destruct Hcase as [(?&_)|(?&_)]; [left|right]. }
  destruct Hcase as [(->&_&Hget)|(->&_&Hget&Hn)].
  - destruct (Hget Hsz) as (old&Eo&Hno&Hbig). rewrite Eo. cbn [mbind outcome_bind].
    destruct ((size <=? old) && (MAX_SLAB_SIZE <? old) && (MAX_SLAB_SIZE <? size)) eqn:Ebr;
      [|destruct (Hmove old Hno); auto].
    rewrite !andb_true_iff, !Z.ltb_lt, Z.leb_le in Ebr.
    destruct (page_realloc_cases st H p n size m) as [[Hk E]|[[Hm E]|(p'&src&m'&E&Hr)]]; [done..|apply Ebr|done| | |];
      rewrite E; cbn [mbind outcome_bind]; [left; split; [done|]; by destruct st|right; left; split; [done|]; by destruct st|right; right].
    by exists p', (SlabState (store st) src), m'.
  - rewrite Hget. cbn [mbind outcome_bind]. unfold MAX_SLAB_SIZE.
    rewrite (proj2 (Z.ltb_ge 256 n)), andb_false_r by lia. simpl. destruct (Hmove n); [lia|auto..].
Qed.

(** [phys_page_alloc] and [phys_page_free] are inverse to each other
    through the physical page number: the pages returned are zeroed, at least
    as many as requested, and freeing the returned number gives back exactly
    the allocated region, wherever the direct map [hhdm] starts. *)
Theorem phys_page_round_trip (mem_set : Z → Z → Z → memory → memory) (src : PS) L hhdm page_count for_user m :
  (∀ a v n m i, 0 <= i < n → mem_set a v n m (a + i) = v) →
  holds src L → 0 < page_count → page_count * MEMMAP_PAGE_SIZE + (PAGE_SIZE - 1) < 2 ^ 64 →
  (MEMMAP_PAGE_SIZE | hhdm) →
  phys_page_alloc mem_set hhdm page_count for_user src m = Done (0, src, m) ∨
  ∃ ppn src' m' a r, phys_page_alloc mem_set hhdm page_count for_user src m = Done (ppn, src', m') ∧
    holds src' (<[a := r]> L) ∧ page_count * MEMMAP_PAGE_SIZE <= rg_len r ∧
    (∀ i, 0 <= i < page_count * MEMMAP_PAGE_SIZE → m' (a + i) = 0) ∧
    ∃ src'', phys_page_free hhdm ppn src' = Done src'' ∧ holds src'' L.
Proof.
  intros Hset Hsrc Hn Hov [q Hq]. unfold phys_page_alloc, phys_page_free, MEMMAP_PAGE_SIZE, PAGE_SIZE in *.
  rewrite wrap_small by (unfold fits; lia).
  set (ty := if for_user then BLOCK_TYPE_USER else BLOCK_TYPE_PAGE).
  destruct (allocate_law (page_count * 4096) ty src L Hsrc) as [E|(a&r&src'&E&Hsrc'&Hnone&_&_&Hlen&Ha&Hend&Hal&_)];
    [lia|unfold PAGE_SIZE; lia|..]; rewrite E; cbn [mbind outcome_bind]; [by left|right].
  assert (Hra : <[a := r]> L !! a = Some r) by apply lookup_insert_eq.
  pose proof (holds_ok _ _ _ _ Hsrc' Hra) as Hreg.
  eexists _, _, _, a, r. split; [reflexivity|].
  split_and!; [done|done|by intros i Hi; apply Hset|].
  assert (u64 (u64 (a - hhdm) / 4096 * 4096 + hhdm) = a) as ->; [|].
  { apply (page_number_round_trip a q); [done|destruct Hreg as (_&_&?&?&_); lia|done]. }
  destruct (deallocate_law _ _ _ _ Hsrc' Hra) as (src''&E'&Hsrc''). exists src''. split; [done|].
  by rewrite delete_insert_id in Hsrc''.
Qed.
End correct.

(** [kernel_heap_init] on registered pools without live regions yields an
    empty heap: the twenty slab lists are empty and the slab invariant holds. *)
Theorem kernel_heap_init_correct pools :
  represents pools ∅ →
  ∃ st, kernel_heap_init None pools boot_headers = Done st ∧ source st = pools ∧
    slab_inv st ∅ ∅ ∧ heap st ∅.
Proof.
  intros HR. destruct init_kernel_slabs_core as (h&E&HC). unfold kernel_heap_init.
  cbn [mbind outcome_bind]. rewrite E. eexists; split; [done|]. split; [done|].
  by apply empty_heap.
Qed.

(** ** The heap on the 16-page pool *)

Definition demo_heap : slab_state (list memory_pool) :=
  match kernel_heap_init None demo_pools boot_headers with
  | Done st => st
  | _ => SlabState ∅ []
  end.

Lemma demo_heap_inv : slab_inv demo_heap ∅ ∅ ∧ heap demo_heap ∅.
Proof.
  destruct init_kernel_slabs_core as (h&E&HC). unfold demo_heap, kernel_heap_init.
  cbn [mbind outcome_bind]. rewrite E. apply empty_heap; [exact demo_represents|done].
Qed.

(** One 100-byte object. *)
Definition demo_ptr : Z := 0x80001 * PAGE_SIZE + 64.
Definition demo_heap1 : slab_state (list memory_pool) :=
  match malloc 100 demo_heap with Done (Some _, st) => st | _ => demo_heap end.

(** The pointer part of a result. *)
Definition pointer {A} (o : outcome (option Z * A)) : option Z :=
  match o with Done (r, _) => r | _ => None end.

Lemma demo_malloc_returns : pointer (malloc 100 demo_heap) = Some demo_ptr.
Proof. vm_compute. reflexivity. Qed.

Lemma demo_object : ∃ n, heap demo_heap1 {[demo_ptr := n]} ∧ 100 <= n.
Proof.
  destruct (malloc_cases demo_heap ∅ 100 (proj2 demo_heap_inv)) as [E|(p&n&st'&E&[Hh Hf]&_)]; [lia|done| |];
    pose proof demo_malloc_returns as Hp; unfold malloc in Hp; rewrite E in Hp; [done|].
  injection Hp as ->. exists n. unfold demo_heap1, malloc. rewrite E. split; [done|].
  destruct Hf as (_&Hn&_). lia.
Qed.

Lemma kernel_heap_init_correct_witness :
  ∃ st, kernel_heap_init None demo_pools boot_headers = Done st ∧ heap st ∅.
Proof.
  destruct (kernel_heap_init_correct demo_pools demo_represents) as (st&E&_&_&Hh). exists st. by split.
Defined.

Lemma malloc_correct_witness :
  ∃ n st', malloc 100 demo_heap = Done (Some demo_ptr, st') ∧ heap st' {[demo_ptr := n]} ∧ 100 <= n.
Proof.
  destruct (malloc_correct demo_heap ∅ 100 (proj2 demo_heap_inv)) as [E|(p&n&st'&E&Hh&Hf)]; [lia|done| |];
    pose proof demo_malloc_returns as Hp; rewrite E in Hp; [discriminate Hp|].
  injection Hp as ->. exists n, st'. destruct Hf as (_&Hn&_). split; [exact E|]. split; [exact Hh|lia].
Defined.

Lemma free_correct_witness : ∃ st', free demo_ptr demo_heap1 = Done st' ∧ heap st' ∅.
Proof.
  destruct demo_object as (n&Hh&_).
  destruct (free_correct demo_heap1 {[demo_ptr := n]} demo_ptr n Hh) as (st'&E&Hh'); [apply lookup_singleton_eq|].
  exists st'. split; [exact E|]. by rewrite delete_singleton_eq in Hh'.
Defined.

Lemma calloc_correct_witness :
  ∃ p st' m', calloc 10 20 demo_heap (λ _, 255) = Done (Some p, st', m') ∧ ∀ i, 0 <= i < 200 → m' (p + i) = 0.
Proof.
  destruct (calloc_correct demo_heap ∅ 10 20 (λ _, 255) (proj2 demo_heap_inv)) as [E|(p&n&st'&m'&E&_&_&Hz&_)];
    [lia|lia|done| |].
  - apply (f_equal (λ o, match o with Done (r, _, _) => r | _ => None end)) in E. vm_compute in E. discriminate.
  - exists p, st', m'. split; [exact E|exact Hz].
Defined.

Lemma realloc_correct_witness :
  ∃ p' st' m', realloc demo_ptr 5000 demo_heap1 (λ x, x mod 256) = Done (Some p', st', m') ∧
    ∀ i, 0 <= i < 100 → m' (p' + i) = (demo_ptr + i) mod 256.
Proof.
  destruct demo_object as (n&Hh&Hn).
  destruct (realloc_correct demo_heap1 {[demo_ptr := n]} demo_ptr n 5000 (λ x, x mod 256) Hh)
    as [[_ E]|[[_ E]|(p'&st'&m'&E&n'&_&_&Hm&_)]]; [apply lookup_singleton_eq| |lia|done| | |].
  - vm_compute. discriminate.
  - apply (f_equal (λ o, match o with Done (r, _, _) => r | _ => None end)) in E. vm_compute in E. discriminate.
  - apply (f_equal (λ o, match o with Done (r, _, _) => r | _ => None end)) in E. vm_compute in E. discriminate.
  - exists p', st', m'. split; [exact E|]. intros i Hi. apply Hm. lia.
Defined.

Lemma slab_allocate_correct_witness :
  ∃ ptr st' L' G', slab_allocate 40 demo_heap = Done (Some ptr, st') ∧ slab_inv st' L' G' ∧ slab_object G' ptr 64.
Proof.
  destruct (slab_allocate_correct demo_heap ∅ ∅ 40 (proj1 demo_heap_inv))
    as [E|(ptr&st'&L'&G'&E&HI&_&_&Ho&_)]; [lia| |].
  - apply (f_equal pointer) in E. vm_compute in E. discriminate.
  - exists ptr, st', L', G'. split; [exact E|]. split; [exact HI|]. apply Ho. right. split; reflexivity.
Defined.

Lemma slab_deallocate_correct_witness :
  ∃ st L G a pg i st', slab_inv st L G ∧ G !! a = Some pg ∧ i ∈ pg_slots pg ∧
    slab_deallocate (slot_address a (pg_class pg) i) st = Done st'.
Proof.
  destruct (slab_allocate_cases demo_heap ∅ ∅ 40 (proj1 demo_heap_inv)) as [E|(ptr&st'&L'&G'&E&HI&_&_&Ho&_)]; [lia| |].
  - apply (f_equal pointer) in E. vm_compute in E. discriminate.
  - destruct (proj2 (Ho ptr (bytes_of (class_of 40)))) as (a&pg&i&Ha&Hi&_&_); [right; split; reflexivity|].
    clear E Ho.
    destruct (sc_pages _ _ _ (si_core _ _ _ HI) a pg Ha) as (hd&_&Hok).
    pose proof (slab_deallocate_correct st' L' G' a pg i HI Ha (po_slots _ _ _ Hok i Hi)) as Hd.
    rewrite decide_True in Hd by exact Hi. destruct Hd as (st2&_&_&E2&_).
    exists st', L', G', a, pg, i, st2. split; [exact HI|]. split; [exact Ha|]. split; [exact Hi|exact E2].
Defined.

Lemma phys_page_round_trip_witness :
  ∃ ppn src' m' src'', phys_page_alloc memfill 0xFFFF000000000000 2 true demo_pools (λ _, 7) = Done (ppn, src', m') ∧
    phys_page_free 0xFFFF000000000000 ppn src' = Done src'' ∧ represents src'' ∅.
Proof.
  destruct (phys_page_round_trip memfill demo_pools ∅ 0xFFFF000000000000 2 true (λ _, 7))
    as [E|(ppn&src'&m'&a&r&E&_&_&_&src''&E'&Hr)].
  - intros. by apply memfill_inside.
  - exact demo_represents.
  - lia.
  - reflexivity.
  - exists 0xFFFF000000000. reflexivity.
  - apply (f_equal (λ o, match o with Done (r, _, _) => r | _ => 1 end)) in E. vm_compute in E. discriminate.
  - exists ppn, src', m', src''. split; [exact E|]. split; [exact E'|exact Hr].
Defined.

(** ** Limits of the implementation *)

(** The size of a [calloc] is computed modulo [2 ^ 64]. *)
Example calloc_overflow :
  match calloc (2 ^ 32) (2 ^ 32) demo_heap (λ _, 0) with
  | Done (Some p, st, _) => slab_get_size p st = Done 32
  | _ => False
  end.
Proof. vm_compute. reflexivity. Qed.

(** The second of two objects of six pages has a block of eight, of which seven lie
    in the pool: growing it to eight pages leaves it where it is, and it ends
    behind the pool. *)
Example realloc_past_pool :
  ('(_, st) ← malloc 24576 demo_heap; '(p, st) ← malloc 24576 st; p ← deref p; '(r, _, _) ← realloc p 32768 st (λ _, 0); r ← deref r;
   pool ← deref (source st !! 0%nat); Done (bool_decide (r = p), r + 32768 - pages_end pool)) = Done (true, PAGE_SIZE).
Proof. by vm_compute. Qed.
