(* ===== verification/Badgelib.v ===== *)
(** * What the kernel uses of badgelib

    The error codes, and the memory and string functions of badge_strings.h as
    an interface: their documented behaviour is the class [BadgeStringsSpec],
    against which the client components are verified. *)

From S2P Require Import Prelude.

(** Error causes.  [ELOC_*] locations, which no code inspects, are left out. *)
Inductive badge_cause :=
  | ECAUSE_OK | ECAUSE_PARAM | ECAUSE_RANGE | ECAUSE_READONLY | ECAUSE_NOMEM | ECAUSE_NOTFOUND | ECAUSE_EXISTS
  | ECAUSE_NOSPACE | ECAUSE_TOOLONG | ECAUSE_NOTEMPTY | ECAUSE_IS_DIR | ECAUSE_IS_FILE | ECAUSE_PERM
  | ECAUSE_UNAVAIL | ECAUSE_INUSE | ECAUSE_UNSUPPORTED | ECAUSE_UNKNOWN | ECAUSE_TIMEOUT | ECAUSE_ILLEGAL
  | ECAUSE_STATE | ECAUSE_FORMAT.

#[global] Instance badge_cause_eq : EqDecision badge_cause.
Proof. solve_decision. Defined.

(** [badge_err_is_ok]. *)
Definition is_ok (c : badge_cause) : bool := match c with ECAUSE_OK => true | _ => false end.

(** [mem_copy(&dst[off], &src[from], n)] copies [n] bytes. *)
Definition mem_copy_law (mem_copy : list Z → nat → list Z → nat → nat → list Z) : Prop :=
  ∀ dst off src from n, (off + n <= length dst)%nat → (from + n <= length src)%nat →
    mem_copy dst off src from n = take off dst ++ take n (drop from src) ++ drop (off + n) dst.

Class BadgeStrings := {
  mem_copy : list Z → nat → list Z → nat → nat → list Z;
  mem_set : list Z → nat → Z → nat → list Z;         (* [mem_set(&dst[off], v, n)] *)
  cstr_equals : list Z → list Z → bool;
  cstr_length_upto : list Z → nat → nat;
}.

(** Strings are lists of nonzero characters, without the terminator. *)
Class BadgeStringsSpec `{BadgeStrings} := {
  mem_copy_spec : mem_copy_law mem_copy;
  mem_set_spec dst off v n : (off + n <= length dst)%nat →
    mem_set dst off v n = take off dst ++ replicate n v ++ drop (off + n) dst;
  cstr_equals_spec a b : cstr_equals a b = bool_decide (a = b);
  cstr_length_upto_spec s n : cstr_length_upto s n = Nat.min (length s) n;
}.

Section strings.
Context `{BadgeStringsSpec}.

Lemma mem_copy_length dst off src from n : (off + n <= length dst)%nat → (from + n <= length src)%nat →
  length (mem_copy dst off src from n) = length dst.
Proof. intros Hd Hs. rewrite mem_copy_spec by done. rewrite !length_app, !length_take, !length_drop. lia. Qed.

(** Overwriting a whole buffer. *)
Lemma mem_copy_all dst src n : length dst = n → length src = n → mem_copy dst 0 src 0 n = src.
Proof.
  intros Hd Hs. rewrite mem_copy_spec by lia. rewrite drop_0, (take_ge src), (drop_ge dst) by lia.
  by rewrite app_nil_r.
Qed.

Lemma mem_set_all dst v n : length dst = n → mem_set dst 0 v n = replicate n v.
Proof. intros Hd. rewrite mem_set_spec, (drop_ge dst) by lia. by rewrite app_nil_r. Qed.

Lemma mem_set_length dst off v n : (off + n <= length dst)%nat → length (mem_set dst off v n) = length dst.
Proof. intros Hd. rewrite mem_set_spec by done. rewrite !length_app, length_take, length_replicate, length_drop. lia. Qed.
End strings.

(** An implementation that satisfies the interface. *)
Definition demo_strings : BadgeStrings := {|
  mem_copy dst off src from n := take off dst ++ take n (drop from src) ++ drop (off + n) dst;
  mem_set dst off v n := take off dst ++ replicate n v ++ drop (off + n) dst;
  cstr_equals a b := bool_decide (a = b);
  cstr_length_upto s n := Nat.min (length s) n;
|}.

Lemma demo_strings_spec : @BadgeStringsSpec demo_strings.
Proof. by split. Qed.
