(* ===== verification/IntRoutines.v ===== *)
(** * Compiler support routines for integers

    kernel/src/freestanding/int_routines.c.  The [DIVMOD_IMPL], [DIVMOD_FUNCS],
    [FAKE_OPER] and [BSWP_FUNC] macros are definitions parameterised by the
    width [w] of the type (32, 64 and 128 bits); a value of a signed type is
    represented by its two's complement bits and read with [signed w]. *)

From S2P Require Import Prelude Bitops.

(** ** Division *)

(** [while (!(divisor & msb)) { divisor <<= 1; shift++; }]; a nonzero divisor
    is shifted fewer than [w] times. *)
Fixpoint normalise (fuel : nat) (w divisor shift : Z) : outcome (Z * Z) :=
  match fuel with
  | O => Fuel
  | S fuel =>
      if Z.land divisor (2 ^ (w - 1)) =? 0
      then normalise fuel w (wrap w (Z.shiftl divisor 1)) (shift + 1)
      else Done (divisor, shift)
  end.

(** The [for] loop of [divmod], [n] being the number of iterations left, so
    that [shift - i] is [n - 1].  [1ull << (shift - i)] is a 64-bit shift. *)
Fixpoint divide_loop (n : nat) (w remainder divisor result : Z) : outcome (Z * Z) :=
  match n with
  | O => Done (remainder, result)
  | S n =>
      if divisor <=? remainder then
        if 64 <=? Z.of_nat n then Undef else
        divide_loop n w (wrap w (remainder - divisor)) (Z.shiftr divisor 1)
          (wrap w (Z.lor result (Z.shiftl 1 (Z.of_nat n))))
      else divide_loop n w remainder (Z.shiftr divisor 1) result
  end.

(** Remainder and quotient. *)
Definition divmod (w remainder divisor : Z) : outcome (Z * Z) :=
  '(divisor, shift) ← normalise (Z.to_nat w) w divisor 0;
  divide_loop (Z.to_nat (shift + 1)) w remainder divisor 0.

Definition minus_one (w : Z) : Z := 2 ^ w - 1.

(** [-a] on a signed type. *)
Definition sneg (w a : Z) : outcome Z :=
  if signed w a =? - 2 ^ (w - 1) then Undef else Done (wrap w (- a)).

Definition udivmod4 (w a b : Z) : outcome (Z * Z) :=
  if b =? 0 then Done (minus_one w, a) else
  '(r, q) ← divmod w a b; Done (q, r).

Definition udiv3 (w a b : Z) : outcome Z :=
  if b =? 0 then Done (minus_one w) else '(_, q) ← divmod w a b; Done q.

Definition umod3 (w a b : Z) : outcome Z :=
  if b =? 0 then Done a else '(r, _) ← divmod w a b; Done r.

(** [__divmod*4] passes its signed arguments to the unsigned division as they are. *)
Definition divmod4 (w a b : Z) : outcome (Z * Z) :=
  if b =? 0 then Done (minus_one w, a) else
  let div_sign := xorb (signed w a <? 0) (signed w b <? 0) in
  let mod_sign := signed w a <? signed w b in
  '(r, q) ← divmod w a b;
  Done (if div_sign then wrap w (- q) else q, if mod_sign then wrap w (- r) else r).

Definition absolute (w a : Z) : outcome Z := if signed w a <? 0 then sneg w a else Done a.

Definition div3 (w a b : Z) : outcome Z :=
  if b =? 0 then Done (minus_one w) else
  let sign := xorb (signed w a <? 0) (signed w b <? 0) in
  a ← absolute w a;
  b ← absolute w b;
  '(_, q) ← divmod w a b;
  Done (if sign then wrap w (- q) else q).

Definition mod3 (w a b : Z) : outcome Z :=
  if b =? 0 then Done a else
  let sign := signed w a <? 0 in
  a ← absolute w a;
  b ← absolute w b;
  '(r, _) ← divmod w a b;
  Done (if sign then wrap w (- r) else r).

(** ** Shifts and multiplication *)

(** [b & (sizeof(type) * 8 - 1)]. *)
Definition oper_mask (w b : Z) : Z := Z.land b (w - 1).

Definition ashl3 (w a b : Z) : Z := wrap w (Z.shiftl a (oper_mask w b)).
Definition ashr3 (w a b : Z) : Z := wrap w (Z.shiftr (signed w a) (oper_mask w b)).
(** Declared with a signed type, like [ashr3]. *)
Definition lshr3 (w a b : Z) : Z := wrap w (Z.shiftr (signed w a) (oper_mask w b)).
(** [__muldi3] and [__multi3], generated by the same macro. *)
Definition mul3 (w a b : Z) : Z := wrap w (signed w a * oper_mask w b).

Fixpoint mul_loop (n : nat) (res a b : Z) : Z :=
  match n with
  | O => res
  | S n =>
      let res := if Z.odd b then u32 (res + a) else res in
      mul_loop n res (u32 (Z.shiftl a 1)) (u32 (Z.shiftr (signed 32 b) 1))
  end.

Definition mulsi3 (a b : Z) : Z := mul_loop 32 0 a b.

(** ** Byte order *)

(** The [n] bytes of a value in memory, least significant first. *)
Fixpoint to_bytes (n : nat) (x : Z) : list Z :=
  match n with O => [] | S n => u8 x :: to_bytes n (Z.shiftr x 8) end.
Fixpoint of_bytes (bs : list Z) : Z :=
  match bs with [] => 0 | b :: bs => b + 256 * of_bytes bs end.

(** [out.arr[n - i - 1] = in.arr[i]] for every [i]. *)
Fixpoint bswap_loop (k i : nat) (inp out : list Z) : list Z :=
  match k with
  | O => out
  | S k => bswap_loop k (i + 1) inp (<[(length inp - i - 1)%nat := nth i inp 0]> out)
  end.

Definition bswap2 (n : nat) (a : Z) : Z :=
  let inp := to_bytes n a in
  of_bytes (bswap_loop n 0 inp (replicate n 0)).

(** ** Counting zeros

    The number is reduced to a single bit, whose product with a de Bruijn
    sequence has a unique index into a table in its top bits. *)

Definition table_get (table : list Z) (i : Z) : outcome Z := deref (table !! Z.to_nat i).

Definition clzsi2_table : list Z :=
  [0; 31; 9; 30; 3; 8; 13; 29; 2; 5; 7; 21; 12; 24; 28; 19; 1; 10; 4; 14; 6; 22; 25; 20; 11; 15;
   23; 26; 16; 27; 17; 18].

Definition clzdi2_table : list Z :=
  [0; 63; 62; 57; 61; 51; 56; 45; 60; 39; 50; 36; 55; 30; 44; 24; 59; 47; 38; 26; 49; 18; 35; 16;
   54; 33; 29; 10; 43; 14; 23; 7; 1; 58; 52; 46; 40; 37; 31; 25; 48; 27; 19; 17; 34; 11; 15; 8;
   2; 53; 41; 32; 28; 20; 12; 9; 3; 42; 21; 13; 4; 22; 5; 6].

Definition clzti2_table : list Z :=
  [0; 127; 126; 120; 125; 113; 119; 106; 124; 99; 112; 92; 118; 85; 105; 78; 123; 95; 98; 71;
   111; 64; 91; 57; 117; 68; 84; 50; 104; 43; 77; 36; 122; 108; 94; 80; 97; 59; 70; 38; 110; 61;
   63; 29; 90; 27; 56; 22; 116; 88; 67; 46; 83; 25; 49; 15; 103; 54; 42; 12; 76; 20; 35; 8; 1;
   121; 114; 107; 100; 93; 86; 79; 96; 72; 65; 58; 69; 51; 44; 37; 109; 81; 60; 39; 62; 30; 28;
   23; 89; 47; 26; 16; 55; 13; 21; 9; 2; 115; 101; 87; 73; 66; 52; 45; 82; 40; 31; 24; 48; 17;
   14; 10; 3; 102; 74; 53; 41; 32; 18; 11; 4; 75; 33; 19; 5; 34; 6; 7].

Definition ctzsi2_table : list Z :=
  [0; 1; 23; 2; 29; 24; 19; 3; 30; 27; 25; 11; 20; 8; 4; 13; 31; 22; 28; 18; 26; 10; 7; 12; 21;
   17; 9; 6; 16; 5; 15; 14].

Definition ctzdi2_table : list Z :=
  [0; 1; 2; 7; 3; 13; 8; 19; 4; 25; 14; 28; 9; 34; 20; 40; 5; 17; 26; 38; 15; 46; 29; 48; 10; 31;
   35; 54; 21; 50; 41; 57; 63; 6; 12; 18; 24; 27; 33; 39; 16; 37; 45; 47; 30; 53; 49; 56; 62; 11;
   23; 32; 36; 44; 52; 55; 61; 22; 43; 51; 60; 42; 59; 58].

Definition ctzti2_table : list Z :=
  [0; 1; 2; 8; 3; 15; 9; 22; 4; 29; 16; 36; 10; 43; 23; 50; 5; 33; 30; 57; 17; 64; 37; 71; 11;
   60; 44; 78; 24; 85; 51; 92; 6; 20; 34; 48; 31; 69; 58; 90; 18; 67; 65; 99; 38; 101; 72; 106;
   12; 40; 61; 82; 45; 103; 79; 113; 25; 74; 86; 116; 52; 108; 93; 120; 127; 7; 14; 21; 28; 35;
   42; 49; 32; 56; 63; 70; 59; 77; 84; 91; 19; 47; 68; 89; 66; 98; 100; 105; 39; 81; 102; 112;
   73; 115; 107; 119; 126; 13; 27; 41; 55; 62; 76; 83; 46; 88; 97; 104; 80; 111; 114; 118; 125;
   26; 54; 75; 87; 96; 110; 117; 124; 53; 95; 109; 123; 94; 122; 121].

Definition de_bruijn32 : Z := 0x076be629.
Definition de_bruijn64 : Z := 0x0218a392cd3d5dbf.
Definition de_bruijn128 : Z := Z.lor (Z.shiftl 0x0106143891634793 64) 0x2a5cd9d3ead7b77f.

(** [k] rounds of [a |= a >> i], [i] being 1, 2, 4, ..., then [a++]. *)
Definition clz_by_table (w k shift db : Z) (table : list Z) (a : Z) : outcome Z :=
  let a := wrap w (smear (Z.to_nat k) a + 1) in
  table_get table (Z.shiftr (wrap w (a * db)) shift).

Definition clzsi2 (a : Z) : outcome Z := clz_by_table 32 5 27 de_bruijn32 clzsi2_table a.
Definition clzdi2 (a : Z) : outcome Z := clz_by_table 64 6 58 de_bruijn64 clzdi2_table a.
Definition clzti2 (a : Z) : outcome Z := clz_by_table 128 7 121 de_bruijn128 clzti2_table a.

(** [a &= ~(a - 1)] isolates the lowest set bit. *)
Definition ctz_by_table (w shift db : Z) (table : list Z) (a : Z) : outcome Z :=
  let a := Z.land a (wnot w (wrap w (a - 1))) in
  table_get table (Z.shiftr (wrap w (a * db)) shift).

Definition ctzsi2 (a : Z) : outcome Z := ctz_by_table 32 27 de_bruijn32 ctzsi2_table a.
Definition ctzdi2 (a : Z) : outcome Z := ctz_by_table 64 58 de_bruijn64 ctzdi2_table a.
Definition ctzti2 (a : Z) : outcome Z := ctz_by_table 128 121 de_bruijn128 ctzti2_table a.

(** ** Correctness of the division *)

Lemma normalise_spec w d : 0 < w → 0 < d → fits w d → ∀ fuel s,
  w - 1 - Z.log2 d < Z.of_nat fuel →
  normalise fuel w d s = Done (d * 2 ^ (w - 1 - Z.log2 d), s + (w - 1 - Z.log2 d)).
Proof.
  intros Hw Hd Hf fuel. revert d Hd Hf. induction fuel as [|fuel IH]; intros d Hd Hf s Hfuel.
  { pose proof (log2_lt_width w d Hd Hf). lia. }
  pose proof (log2_lt_width w d Hd Hf) as Hlog. pose proof (Z.log2_nonneg d). cbn [normalise].
  assert (Hbit : (Z.land d (2 ^ (w - 1)) =? 0) = negb (bool_decide (Z.log2 d = w - 1))).
  { case_bool_decide as E; simpl.
    - apply Z.eqb_neq. intros E0. assert (Z.testbit (Z.land d (2 ^ (w - 1))) (w - 1) = true) as Ht.
      { rewrite Z.land_spec, Z.pow2_bits_true, andb_true_r by lia. rewrite <-E. by apply Z.bit_log2. }
      by rewrite E0, Z.bits_0 in Ht.
    - apply Z.eqb_eq, Z.bits_inj'; intros n Hn. rewrite Z.land_spec, Z.bits_0.
      destruct (decide (n = w - 1)) as [->|]; [rewrite Z.bits_above_log2; [done|lia|lia]|].
      rewrite Z.pow2_bits_false, andb_false_r by lia. done. }
  rewrite Hbit. case_bool_decide as E; simpl.
  - rewrite E. by rewrite Z.sub_diag, Z.pow_0_r, Z.mul_1_r, Z.add_0_r.
  - rewrite Z.shiftl_mul_pow2, Z.pow_1_r by lia.
    assert (d * 2 < 2 ^ w).
    { assert (2 ^ (Z.log2 d + 2) <= 2 ^ w) by (apply Z.pow_le_mono_r; lia).
      pose proof (Z.log2_spec d Hd) as [_ Hup]. unfold Z.succ in Hup.
      replace (Z.log2 d + 2) with (Z.log2 d + 1 + 1) in * by lia. rewrite (pow2_succ (Z.log2 d + 1)) in * by lia. lia. }
    rewrite wrap_small by (unfold fits; lia).
    assert (Z.log2 (d * 2) = Z.log2 d + 1) as Hl by (rewrite Z.mul_comm, Z.log2_double by done; lia).
    rewrite (IH (d * 2)) by (unfold fits; lia). rewrite Hl. f_equal. f_equal; [|lia].
    replace (w - 1 - Z.log2 d) with (w - 1 - (Z.log2 d + 1) + 1) by lia. rewrite pow2_succ by lia. lia.
Qed.

Lemma lor_disjoint_pow r n : 0 <= n → 0 <= r → (2 ^ (n + 1) | r) → Z.lor r (Z.shiftl 1 n) = r + 2 ^ n.
Proof.
  intros Hn Hr [q ->]. rewrite Z.shiftl_1_l.
  assert (Hland : Z.land (q * 2 ^ (n + 1)) (2 ^ n) = 0).
  { apply Z.bits_inj'; intros k Hk. rewrite Z.land_spec, Z.bits_0. destruct (decide (k = n)) as [->|].
    - by rewrite Z.mul_pow2_bits_low by lia.
    - by rewrite Z.pow2_bits_false, andb_false_r by lia. }
  rewrite <-Z.lxor_lor by done. symmetry. by apply Z.add_nocarry_lxor.
Qed.

(** Before the iteration for bit [n - 1], [divisor] is [d * 2 ^ (n - 1)] and
    the remainder is below [d * 2 ^ n]. *)
Lemma divide_loop_spec w d : 0 < d → 0 <= w → ∀ n r q,
  0 <= r < d * 2 ^ Z.of_nat n → fits w r → 0 <= q → (2 ^ Z.of_nat n | q) →
  q + r / d < 2 ^ Z.min w 64 →
  divide_loop n w r (if decide (n = 0%nat) then d / 2 else d * 2 ^ (Z.of_nat n - 1)) q =
    Done (r mod d, q + r / d).
Proof.
  intros Hd Hw n. induction n as [|n IH]; intros r q Hr Hfr Hq0 Hq Hb; cbn [divide_loop].
  { simpl in Hr. rewrite Z.mul_1_r in Hr. rewrite Z.mod_small, Z.div_small by done. f_equal. f_equal. lia. }
  rewrite decide_False by done. replace (Z.of_nat (S n) - 1) with (Z.of_nat n) by lia.
  assert (Hsh : Z.shiftr (d * 2 ^ Z.of_nat n) 1 =
    if decide (n = 0%nat) then d / 2 else d * 2 ^ (Z.of_nat n - 1)).
  { rewrite Z.shiftr_div_pow2, Z.pow_1_r by lia. case_decide as E; [subst; by rewrite Z.mul_1_r|].
    rewrite (pow2_pred (Z.of_nat n)) by lia.
    replace (d * (2 * 2 ^ (Z.of_nat n - 1))) with (d * 2 ^ (Z.of_nat n - 1) * 2) by lia. by rewrite Z.div_mul. }
  rewrite Hsh. replace (Z.of_nat (S n)) with (Z.of_nat n + 1) in * by lia.
  rewrite pow2_succ in Hr by lia. assert (0 < 2 ^ Z.of_nat n) by lia.
  assert (Hdiv : (2 ^ Z.of_nat n | q)) by (etrans; [apply pow2_divide|exact Hq]; lia).
  destruct (Z.leb_spec (d * 2 ^ Z.of_nat n) r) as [Hle|Hgt]; [|apply IH; try done; lia].
  assert (Hrd : r / d = (r - d * 2 ^ Z.of_nat n) / d + 2 ^ Z.of_nat n).
  { rewrite <-Z.div_add by lia. f_equal. lia. }
  assert (0 <= (r - d * 2 ^ Z.of_nat n) / d) by (apply Z.div_pos; lia).
  assert (Hn64 : Z.of_nat n < Z.min w 64) by (apply (Z.pow_lt_mono_r_iff 2); lia).
  rewrite (proj2 (Z.leb_gt 64 _)) by lia. rewrite lor_disjoint_pow by (done || lia).
  assert (0 < d * 2 ^ Z.of_nat n) by (apply Z.mul_pos_pos; lia).
  assert (2 ^ Z.min w 64 <= 2 ^ w) by (apply Z.pow_le_mono_r; lia). unfold fits in *.
  rewrite !wrap_small by (unfold fits; lia). rewrite IH; [|lia|lia|lia| |lia].
  - f_equal. f_equal; [|lia]. rewrite <-(Z.mod_add (r - d * 2 ^ Z.of_nat n) (2 ^ Z.of_nat n)) by lia. f_equal. lia.
  - apply Z.divide_add_r; [done|reflexivity].
Qed.

Lemma divmod_spec w a b : 0 < w → fits w a → fits w b → 0 < b → a / b < 2 ^ 64 →
  divmod w a b = Done (a mod b, a / b).
Proof.
  intros Hw Ha Hb Hb0 Hq. unfold divmod. pose proof (log2_lt_width w b Hb0 Hb). pose proof (Z.log2_nonneg b).
  rewrite (normalise_spec w b) by (done || lia). cbn [mbind outcome_bind]. rewrite Z.add_0_l.
  set (s := w - 1 - Z.log2 b).
  pose proof (divide_loop_spec w b Hb0 ltac:(lia) (Z.to_nat (s + 1)) a 0) as HL.
  rewrite decide_False in HL by lia. rewrite Z2Nat.id in HL by lia.
  replace (s + 1 - 1) with s in HL by lia. rewrite HL; [done| |done|lia|apply Z.divide_0_r|].
  - unfold fits in Ha. split; [lia|]. eapply Z.lt_le_trans; [apply Ha|].
    pose proof (Z.log2_spec b Hb0) as [Hlo _].
    replace w with (Z.log2 b + (s + 1)) at 1 by lia. rewrite Z.pow_add_r by lia.
    apply Z.mul_le_mono_nonneg_r; lia.
  - assert (a / b < 2 ^ w) by (apply Z.div_lt_upper_bound; [lia|]; unfold fits in Ha; nia).
    rewrite Z.add_0_l. destruct (Z.min_spec w 64) as [[_ ->]|[_ ->]]; lia.
Qed.

(** ** Signed values *)

Definition in_signed (w x : Z) : Prop := - 2 ^ (w - 1) < x < 2 ^ (w - 1).

Lemma signed_wrap w x : 0 < w → in_signed w x → signed w (wrap w x) = x.
Proof.
  intros Hw [Hl Hu]. unfold signed, wrap. rewrite Z.mod_mod by lia.
  rewrite (pow2_pred w) in * by done. assert (0 < 2 ^ (w - 1)) by lia.
  destruct (decide (0 <= x)).
  - rewrite Z.mod_small by lia. by rewrite (proj2 (Z.ltb_lt _ _)) by lia.
  - rewrite <-(Z.mod_add x 1), Z.mod_small by lia. rewrite (proj2 (Z.ltb_ge _ _)) by lia. lia.
Qed.

Lemma absolute_spec w x : 0 < w → in_signed w x → absolute w (wrap w x) = Done (Z.abs x).
Proof.
  intros Hw Hx. pose proof (signed_wrap w x Hw Hx) as Es. destruct Hx as [Hl Hu].
  unfold absolute, sneg. rewrite Es.
  destruct (Z.ltb_spec x 0).
  - rewrite (proj2 (Z.eqb_neq _ _)) by lia. f_equal. unfold wrap. rewrite (pow2_pred w) by done.
    rewrite <-(Z.mod_add x 1), (Z.mod_small (x + _)) by lia.
    replace (- (x + 1 * (2 * 2 ^ (w - 1)))) with (- x + (-1) * (2 * 2 ^ (w - 1))) by lia.
    rewrite Z.mod_add, Z.mod_small by lia. lia.
  - f_equal. unfold wrap. rewrite (pow2_pred w), Z.mod_small by lia. lia.
Qed.

Lemma wrap_eq0 w x : 0 < w → in_signed w x → wrap w x = 0 ↔ x = 0.
Proof.
  intros Hw Hx. split; [|by intros ->].
  intros E. rewrite <-(signed_wrap w x Hw Hx), E. unfold signed. rewrite Z.mod_0_l by lia.
  by rewrite (proj2 (Z.ltb_lt _ _)) by lia.
Qed.

(** The unsigned division inside the signed routines. *)
Lemma signed_divmod w x y : 0 < w <= 64 → in_signed w x → in_signed w y → y ≠ 0 →
  divmod w (Z.abs x) (Z.abs y) = Done (Z.abs x mod Z.abs y, Z.abs x / Z.abs y).
Proof.
  intros Hw [??] [??] Hy.
  apply divmod_spec; [lia|unfold fits; rewrite (pow2_pred w); lia..|lia|].
  assert (2 ^ (w - 1) <= 2 ^ 63) by (apply Z.pow_le_mono_r; lia).
  assert (Z.abs x / Z.abs y <= Z.abs x) by (apply Z.div_le_upper_bound; nia). lia.
Qed.

(** ** Multiplication *)

Lemma asr_low b n : fits 32 b → 0 <= n <= 31 → u32 (Z.shiftr (signed 32 b) 1) mod 2 ^ n = (b / 2) mod 2 ^ n.
Proof.
  intros Hb Hn. unfold signed, wrap. rewrite (Z.mod_small b) by done. rewrite Z.shiftr_div_pow2, Z.pow_1_r by lia.
  assert (Hm : ∀ z, (z mod 2 ^ 32) mod 2 ^ n = z mod 2 ^ n).
  { intros z. apply Z.mod_mod_divide. apply pow2_divide. lia. }
  rewrite Hm. destruct (b <? 2 ^ (32 - 1)); [done|].
  replace (b - 2 ^ 32) with (b + (- 2 ^ 31) * 2) by lia. rewrite Z.div_add by lia.
  replace (2 ^ 31) with (2 ^ (31 - n) * 2 ^ n) by (rewrite <-Z.pow_add_r by lia; f_equal; lia).
  rewrite <-Z.mul_opp_l. apply Z.mod_add. lia.
Qed.

Lemma mul_loop_spec n : (n <= 32)%nat → ∀ res a b, fits 32 b →
  mul_loop n res a b mod 2 ^ 32 = (res + a * (b mod 2 ^ Z.of_nat n)) mod 2 ^ 32.
Proof.
  intros Hn. induction n as [|n IH]; intros res a b Hb; cbn [mul_loop].
  { rewrite Z.mod_1_r, Z.mul_0_r, Z.add_0_r. done. }
  rewrite IH by (lia || by apply wrap_fits). rewrite asr_low by (done || lia).
  rewrite Z.shiftl_mul_pow2, Z.pow_1_r by lia.
  assert (E : b mod 2 ^ Z.of_nat (S n) = (if Z.odd b then 1 else 0) + 2 * ((b / 2) mod 2 ^ Z.of_nat n)).
  { replace (Z.of_nat (S n)) with (Z.of_nat n + 1) by lia. rewrite pow2_succ by lia.
    rewrite Z.rem_mul_r by lia. rewrite Zmod_odd. done. }
  rewrite E. set (h := (b / 2) mod 2 ^ Z.of_nat n). unfold wrap.
  destruct (Z.odd b).
  - rewrite <-Zplus_mod_idemp_l, <-(Zplus_mod_idemp_r _ ((res + a) mod _ mod _)), Zmult_mod_idemp_l, Z.mod_mod by lia.
    rewrite Zplus_mod_idemp_l, Zplus_mod_idemp_r. f_equal. lia.
  - rewrite <-Zplus_mod_idemp_r, Zmult_mod_idemp_l, Zplus_mod_idemp_r. f_equal. lia.
Qed.

(** ** Byte order *)

Lemma length_to_bytes n x : length (to_bytes n x) = n.
Proof. revert x; induction n as [|n IH]; intros x; simpl; [done|]. by rewrite IH. Qed.

Lemma of_to_bytes n x : fits (8 * Z.of_nat n) x → of_bytes (to_bytes n x) = x.
Proof.
  revert x; induction n as [|n IH]; intros x Hx; simpl.
  - unfold fits in Hx. replace (8 * Z.of_nat 0) with 0 in Hx by lia. lia.
  - rewrite Z.shiftr_div_pow2 by lia. change (2 ^ 8) with 256.
    rewrite IH.
    + unfold wrap. change (2 ^ 8) with 256. pose proof (Z.div_mod x 256). lia.
    + unfold fits in *. replace (8 * Z.of_nat (S n)) with (8 * Z.of_nat n + 8) in Hx by lia.
      rewrite Z.pow_add_r in Hx by lia. change (2 ^ 8) with 256 in Hx.
      split; [apply Z.div_pos; lia|apply Z.div_lt_upper_bound; lia].
Qed.

Lemma to_of_bytes bs : Forall (fits 8) bs → to_bytes (length bs) (of_bytes bs) = bs.
Proof.
  induction bs as [|b bs IH]; intros Hf; simpl; [done|].
  apply Forall_cons in Hf as [Hb Hf]. unfold fits in Hb. change (2 ^ 8) with 256 in Hb.
  rewrite Z.shiftr_div_pow2 by lia. unfold wrap. change (2 ^ 8) with 256.
  rewrite (Z.mul_comm 256). rewrite Z.mod_add, Z.mod_small, Z.div_add, Z.div_small by lia.
  by rewrite Z.add_0_l, IH.
Qed.

Lemma to_bytes_fits n x : Forall (fits 8) (to_bytes n x).
Proof. revert x; induction n as [|n IH]; intros x; simpl; constructor; auto. by apply wrap_fits. Qed.

Lemma bswap_loop_spec inp : ∀ k i out, (i + k = length inp)%nat → length out = length inp →
  length (bswap_loop k i inp out) = length inp ∧
  ∀ j, (j < length inp)%nat → bswap_loop k i inp out !! j =
    if decide (j < length inp - i)%nat then Some (nth (length inp - j - 1) inp 0) else out !! j.
Proof.
  intros k. induction k as [|k IH]; intros i out Hi Ho; cbn [bswap_loop].
  { split; [done|]. intros j Hj. by rewrite decide_False by lia. }
  destruct (IH (i + 1)%nat (<[(length inp - i - 1)%nat := nth i inp 0]> out)) as [Hl Hlk];
    [lia|by rewrite length_insert|]. split; [done|]. intros j Hj. rewrite Hlk by done.
  destruct (decide (j = (length inp - i - 1)%nat)) as [->|Hne].
  - rewrite decide_False, list_lookup_insert_eq, decide_True by lia.
    f_equal. f_equal. lia.
  - rewrite list_lookup_insert_ne by done. do 2 case_decide; try done; lia.
Qed.

Lemma bswap2_rev n a : bswap2 n a = of_bytes (reverse (to_bytes n a)).
Proof.
  unfold bswap2. f_equal. pose proof (length_to_bytes n a) as Hlen. set (inp := to_bytes n a) in *.
  destruct (bswap_loop_spec inp n 0 (replicate n 0)) as [Hl Hlk]; [lia|by rewrite length_replicate|].
  apply (list_eq_same_length _ _ n); [by rewrite length_reverse|by rewrite Hl|].
  intros j x y Hj Hx Hy. rewrite Hlk in Hx by lia. rewrite decide_True in Hx by lia. injection Hx as <-.
  apply reverse_lookup_Some in Hy as [Hy _]. rewrite Hlen in *.
  replace (n - j - 1)%nat with (n - S j)%nat by lia. by apply nth_lookup_Some.
Qed.

(** ** Zero counting by table *)

Definition table_ok (w shift db : Z) (table : list Z) (f : Z → Z) : bool :=
  forallb (λ t, match table_get table (Z.shiftr (wrap w (wrap w (2 ^ t) * db)) shift) with
                | Done v => v =? f t
                | _ => false
                end) (seqZ 0 (w + 1)).

Lemma table_ok_lookup w shift db table f t : table_ok w shift db table f = true → 0 <= t <= w →
  table_get table (Z.shiftr (wrap w (wrap w (2 ^ t) * db)) shift) = Done (f t).
Proof.
  intros Hok Ht. unfold table_ok in Hok. rewrite forallb_forall in Hok.
  specialize (Hok t ltac:(apply list_elem_of_In, elem_of_seqZ; lia)). simpl in Hok.
  destruct (table_get _ _); try done. by apply Z.eqb_eq in Hok as ->.
Qed.

(** Entry for a number whose smeared form is [2 ^ t - 1] with [t > 0]. *)
Definition clz_entry (w t : Z) : Z := if t =? 0 then 0 else w - t.
Definition ctz_entry (w t : Z) : Z := if t =? w then 0 else t.

Lemma clz_by_table_spec k shift db table a : let w := 2 ^ Z.of_nat k in
  table_ok w shift db table (clz_entry w) = true → 0 < a → fits w a →
  clz_by_table w (Z.of_nat k) shift db table a = Done (w - 1 - Z.log2 a).
Proof.
  intros w Hok Ha Hf. unfold clz_by_table. rewrite Nat2Z.id, (smear_ones k) by done.
  pose proof (log2_lt_width w a Ha Hf). pose proof (Z.log2_nonneg a).
  rewrite Z.ones_equiv. replace (Z.pred (2 ^ (Z.log2 a + 1)) + 1) with (2 ^ (Z.log2 a + 1)) by lia.
  rewrite (table_ok_lookup _ _ _ _ _ _ Hok) by lia. unfold clz_entry.
  rewrite (proj2 (Z.eqb_neq _ _)) by lia. f_equal. lia.
Qed.

Lemma ctz_by_table_spec w shift db table a :
  table_ok w shift db table (ctz_entry w) = true → 0 < a → fits w a → 0 < w →
  ctz_by_table w shift db table a = Done (builtin_ctz a).
Proof.
  intros Hok Ha Hf Hw. unfold ctz_by_table. pose proof (builtin_ctz_lt w a Ha Hf).
  pose proof (proj1 (builtin_ctz_spec a Ha)).
  assert (Z.land a (wnot w (wrap w (a - 1))) = wrap w (2 ^ builtin_ctz a)) as ->.
  { rewrite (wrap_small w (a - 1)) by (unfold fits in *; lia). unfold wnot.
    replace (Z.lnot (a - 1)) with (- a) by (unfold Z.lnot; lia). rewrite land_opp_isolates by done.
    symmetry. apply wrap_small. split; [lia|]. apply Z.pow_lt_mono_r; lia. }
  rewrite (table_ok_lookup _ _ _ _ _ _ Hok) by lia. unfold ctz_entry. by rewrite (proj2 (Z.eqb_neq _ _)) by lia.
Qed.

(** ** Specification *)

(** The unsigned division routines compute quotient and remainder for every
    width, with the documented results for a zero divisor, as long as the
    quotient fits in 64 bits (the quotient bits are produced by a 64-bit
    shift), which is always the case for the 32-bit and 64-bit routines. *)
Theorem unsigned_division_correct w a b :
  0 < w → fits w a → fits w b → (w <= 64 ∨ a / b < 2 ^ 64) →
  udivmod4 w a b = Done (if b =? 0 then (2 ^ w - 1, a) else (a / b, a mod b)) ∧
  udiv3 w a b = Done (if b =? 0 then 2 ^ w - 1 else a / b) ∧
  umod3 w a b = Done (if b =? 0 then a else a mod b).
Proof.
  intros Hw Ha Hb Hq. unfold udivmod4, udiv3, umod3. destruct (Z.eqb_spec b 0); [done|].
  unfold fits in *. assert (a / b <= a) by (apply Z.div_le_upper_bound; nia).
  assert (a / b < 2 ^ 64).
  { destruct Hq as [Hw64|]; [|done]. assert (2 ^ w <= 2 ^ 64) by (apply Z.pow_le_mono_r; lia). lia. }
  rewrite divmod_spec by (done || unfold fits; lia). done.
Qed.

Lemma unsigned_division_correct_witness :
  udiv3 32 1000000007 97 = Done (1000000007 / 97) ∧ umod3 64 (2 ^ 64 - 1) 10 = Done 5 ∧
  udivmod4 128 (2 ^ 100) (2 ^ 50) = Done (2 ^ 50, 0).
Proof.
  split; [|split].
  - apply (unsigned_division_correct 32 1000000007 97); [lia|split; lia|split; lia|left; lia].
  - apply (unsigned_division_correct 64 (2 ^ 64 - 1) 10); [lia|split; lia|split; lia|left; lia].
  - apply (unsigned_division_correct 128 (2 ^ 100) (2 ^ 50)); [lia|split; lia|split; lia|right; reflexivity].
Defined.

(** [__divsi3]/[__divdi3] and [__modsi3]/[__moddi3] truncate towards zero
    and give the remainder the sign of the dividend, for all operands but the
    most negative value, whose negation overflows. *)
Theorem signed_division_correct w x y :
  0 < w <= 64 → in_signed w x → in_signed w y → y ≠ 0 →
  div3 w (wrap w x) (wrap w y) = Done (wrap w (Z.quot x y)) ∧
  mod3 w (wrap w x) (wrap w y) = Done (wrap w (Z.rem x y)).
Proof.
  intros Hw Hx Hy Hy0. unfold div3, mod3.
  rewrite (proj2 (Z.eqb_neq (wrap w y) 0)) by (rewrite wrap_eq0 by (done || lia); done).
  rewrite !signed_wrap, !absolute_spec by (done || lia). cbn [mbind outcome_bind].
  rewrite signed_divmod by done. cbn [mbind outcome_bind].
  rewrite Z.quot_div, Z.rem_mod by done.
  split; f_equal.
  - assert (0 <= Z.abs x / Z.abs y) by (apply Z.div_pos; lia).
    assert (Hs : wrap w (Z.abs x / Z.abs y) = Z.abs x / Z.abs y).
    { apply wrap_small. unfold fits. destruct Hx, Hy. rewrite (pow2_pred w) by lia.
      assert (Z.abs x / Z.abs y <= Z.abs x) by (apply Z.div_le_upper_bound; nia). lia. }
    destruct (Z.ltb_spec x 0), (Z.ltb_spec y 0); cbn [xorb]; rewrite ?Hs.
    + rewrite !Z.sgn_neg by done. by replace (-1 * -1 * (Z.abs x / Z.abs y)) with (Z.abs x / Z.abs y) by lia.
    + rewrite Z.sgn_neg, (Z.sgn_pos y) by lia. f_equal; lia.
    + destruct (decide (x = 0)) as [->|]; [by rewrite Z.div_0_l by lia|].
      rewrite (Z.sgn_pos x), Z.sgn_neg by lia. f_equal; lia.
    + destruct (decide (x = 0)) as [->|]; [by rewrite Z.div_0_l by lia|].
      rewrite !Z.sgn_pos by lia. by replace (1 * 1 * (Z.abs x / Z.abs y)) with (Z.abs x / Z.abs y) by lia.
  - pose proof (Z.mod_pos_bound (Z.abs x) (Z.abs y) ltac:(lia)).
    destruct (Z.ltb_spec x 0); [rewrite Z.sgn_neg by done; f_equal; lia|].
    destruct (decide (x = 0)) as [->|]; [by rewrite Z.mod_0_l by lia|].
    rewrite Z.sgn_pos, Z.mul_1_l by lia. symmetry. apply wrap_small. unfold fits. destruct Hy.
    rewrite (pow2_pred w) by lia. lia.
Qed.

Lemma signed_division_correct_witness :
  div3 32 (u32 (-17)) 5 = Done (u32 (-3)) ∧ mod3 32 (u32 (-17)) 5 = Done (u32 (-2)).
Proof. apply (signed_division_correct 32 (-17) 5); [lia|split; simpl; lia|split; simpl; lia|lia]. Defined.

(** [__mulsi3] multiplies modulo [2 ^ 32], for signed and unsigned operands
    alike. *)
Theorem mulsi3_correct a b : fits 32 a → fits 32 b → u32 (mulsi3 a b) = u32 (a * b).
Proof.
  intros Ha Hb. unfold mulsi3, wrap. rewrite mul_loop_spec by (done || lia).
  change (Z.of_nat 32) with 32. by rewrite (Z.mod_small b) by done.
Qed.

Lemma mulsi3_correct_witness : u32 (mulsi3 (u32 (-7)) 6) = u32 (-42).
Proof. rewrite (mulsi3_correct (u32 (-7)) 6); [reflexivity|apply wrap_fits; lia|split; lia]. Defined.

(** The byte swap of an [n]-byte value reverses its bytes in memory and is
    its own inverse. *)
Theorem bswap_correct n a : fits (8 * Z.of_nat n) a →
  to_bytes n (bswap2 n a) = reverse (to_bytes n a) ∧ bswap2 n (bswap2 n a) = a.
Proof.
  intros Ha. assert (Hb : to_bytes n (bswap2 n a) = reverse (to_bytes n a)).
  { rewrite bswap2_rev. rewrite <-(length_to_bytes n a) at 1. rewrite <-length_reverse.
    apply to_of_bytes. apply Forall_reverse, to_bytes_fits. }
  split; [done|]. rewrite (bswap2_rev n (bswap2 n a)), Hb, reverse_involutive. by apply of_to_bytes.
Qed.

Lemma bswap_correct_witness : bswap2 4 (bswap2 4 0x12345678) = 0x12345678.
Proof. apply (bswap_correct 4 0x12345678). split; reflexivity || lia. Defined.

(** The count-leading-zeros and count-trailing-zeros routines return the
    right count for every nonzero 32-bit, 64-bit and 128-bit argument: the de
    Bruijn sequences and the tables match. *)
Theorem zero_count_routines_correct a b c :
  0 < a → fits 32 a → 0 < b → fits 64 b → 0 < c → fits 128 c →
  (clzsi2 a = Done (31 - Z.log2 a) ∧ ctzsi2 a = Done (builtin_ctz a)) ∧
  (clzdi2 b = Done (63 - Z.log2 b) ∧ ctzdi2 b = Done (builtin_ctz b)) ∧
  (clzti2 c = Done (127 - Z.log2 c) ∧ ctzti2 c = Done (builtin_ctz c)).
Proof.
  intros Ha Hfa Hb Hfb Hc Hfc. split_and!.
  - apply (clz_by_table_spec 5); [vm_compute; reflexivity|exact Ha|exact Hfa].
  - apply ctz_by_table_spec; [vm_compute; reflexivity|exact Ha|exact Hfa|lia].
  - apply (clz_by_table_spec 6); [vm_compute; reflexivity|exact Hb|exact Hfb].
  - apply ctz_by_table_spec; [vm_compute; reflexivity|exact Hb|exact Hfb|lia].
  - apply (clz_by_table_spec 7); [vm_compute; reflexivity|exact Hc|exact Hfc].
  - apply ctz_by_table_spec; [vm_compute; reflexivity|exact Hc|exact Hfc|lia].
Qed.

Lemma zero_count_routines_correct_witness :
  clzsi2 0xF0 = Done 24 ∧ ctzdi2 (2 ^ 40) = Done 40 ∧ clzti2 (2 ^ 100) = Done 27.
Proof.
  destruct (zero_count_routines_correct 0xF0 (2 ^ 40) (2 ^ 100)) as ((H1&_)&(_&H2)&(H3&_));
    [lia|split; lia|lia|split; lia|lia|split; lia|].
  rewrite H1, H2, H3. split; [|split]; reflexivity.
Defined.

(** ** Deviations *)

(** [__divmodsi4] negates the remainder whenever the dividend is smaller than
    the divisor, and divides negative operands as unsigned ones. *)
Example divmodsi4_wrong :
  divmod4 32 1 2 = Done (0, u32 (-1)) ∧ divmod4 32 (u32 (-6)) (u32 (-3)) = Done (0, 6).
Proof. by vm_compute. Qed.

(** [__muldi3] masks its second operand as if it were a shift count. *)
Example muldi3_wrong : mul3 64 3 64 = 0.
Proof. by vm_compute. Qed.

(** The logical right shifts replicate the sign bit. *)
Example lshrsi3_wrong : lshr3 32 0x80000000 4 = 0xF8000000.
Proof. by vm_compute. Qed.

(** The 128-bit division shifts a 64-bit one too far once the quotient has more
    than 64 bits. *)
Example udivti3_undefined : udiv3 128 (2 ^ 100) 1 = Undef.
Proof. by vm_compute. Qed.
