(* ===== verification/NumToStr.v ===== *)
(** * Binary to decimal conversion

    kernel/src/badgelib/num_to_str.c.  The three fixed-width conversions are
    double dabble on packed decimal digits; characters are their codes. *)

From S2P Require Import Prelude Badgelib Bitops.

Definition char_zero : Z := 48.
Definition char_minus : Z := 45.

(** ** The fixed-width conversions *)

(** Bit 0 of every nibble of [dabble_mask buf] says whether the nibble is 5 or more. *)
Definition dabble_mask (buf : Z) : Z :=
  Z.lor (Z.land (Z.lor buf (Z.shiftr buf 1)) (Z.shiftr buf 2)) (Z.shiftr buf 3).

(** One iteration on a [bw]-bit buffer whose nibbles are selected by [ones];
    [val] has [w] bits. *)
Definition dabble_step (bw w ones : Z) (st : Z * Z) : Z * Z :=
  let '(buf, val) := st in
  let buf := wrap bw (buf + wrap bw (Z.land (dabble_mask buf) ones * 3)) in
  let buf := wrap bw (Z.shiftl buf 1) in
  (Z.lor buf (Z.shiftr val (w - 1)), wrap w (Z.shiftl val 1)).

(** [outbuf[n - 1 - i] = '0' + ((buf >> (4 * i)) & 15)] for [i < n]. *)
Definition nibbles_to_str (n : nat) (buf : Z) : list Z :=
  map (λ i, char_zero + Z.land (Z.shiftr buf (4 * Z.of_nat (n - 1 - i))) 15) (seq 0 n).

Definition num_uint16_to_str (val : Z) : list Z :=
  let buf := Z.shiftr val 13 in
  let val := u16 (Z.shiftl val 3) in
  nibbles_to_str 5 (fst (Nat.iter 13 (dabble_step 32 16 0x11111) (buf, val))).

Definition num_uint32_to_str (val : Z) : list Z :=
  let buf := Z.shiftr val 29 in
  let val := u32 (Z.shiftl val 3) in
  nibbles_to_str 10 (fst (Nat.iter 29 (dabble_step 64 32 0x1111111111) (buf, val))).

(** One iteration of the 64-bit conversion, whose buffer is split. *)
Definition dabble_step64 (st : Z * Z * Z) : Z * Z * Z :=
  let '(buf_lo, buf_hi, val) := st in
  let buf_lo := u64 (buf_lo + u64 (Z.land (dabble_mask buf_lo) 0x1111111111111111 * 3)) in
  let buf_hi := u16 (buf_hi + Z.land (dabble_mask buf_hi) 0x1111 * 3) in
  let buf_hi := u16 (Z.shiftl buf_hi 1) in
  let buf_hi := Z.lor buf_hi (u16 (Z.shiftr buf_lo 63)) in
  let buf_lo := u64 (Z.shiftl buf_lo 1) in
  let buf_lo := Z.lor buf_lo (Z.shiftr val 63) in
  (buf_lo, buf_hi, u64 (Z.shiftl val 1)).

Definition num_uint64_to_str (val : Z) : list Z :=
  let '(buf_lo, buf_hi, _) := Nat.iter 61 dabble_step64 (Z.shiftr val 61, 0, u64 (Z.shiftl val 3)) in
  nibbles_to_str 4 buf_hi ++ nibbles_to_str 16 buf_lo.

(** [while (buf_digits && outbuf[20 - buf_digits] == '0') buf_digits--]. *)
Fixpoint count_digits (buf_digits : nat) (outbuf : list Z) : nat :=
  match buf_digits with
  | O => O
  | S n => if nth (20 - buf_digits) outbuf 0 =? char_zero then count_digits n outbuf else buf_digits
  end.

(** The 20-character buffer and the number of significant digits. *)
Definition num_uint_to_str (val : Z) : list Z * nat :=
  let '(outbuf, buf_digits) :=
    if Z.land val 0xffffffffffff0000 =? 0 then
      (replicate 15 char_zero ++ num_uint16_to_str (u16 val), 5%nat)
    else if Z.land val 0xffffffff00000000 =? 0 then
      (replicate 10 char_zero ++ num_uint32_to_str (u32 val), 10%nat)
    else (num_uint64_to_str val, 20%nat) in
  (outbuf, count_digits buf_digits outbuf).

(** ** C strings

    [outbuf] is the destination, [None] for a null pointer; [mem_copy dst off
    src from n] is the function of badge_strings.h applied to [&dst[off]],
    [&src[from]] and [n].  The functions return the buffer and the length. *)

Definition decimal_digits (val : Z) : list Z * nat :=
  let '(buf, digits) := num_uint_to_str val in
  (buf, if decide (digits = 0%nat) then 1%nat else digits).

(** A store to [buf[i]]. *)
Definition put (buf : list Z) (i : nat) (c : Z) : outcome (list Z) :=
  if decide (i < length buf)%nat then Done (<[i := c]> buf) else Undef.

Section cstr.
Context (mem_copy : list Z → nat → list Z → nat → nat → list Z).

Definition int_to_cstr (val : Z) (outbuf : option (list Z)) (size : nat) : outcome (option (list Z) * nat) :=
  match outbuf with
  | None => Done (None, 0%nat)
  | Some out =>
      if decide (size = 0%nat) then Done (Some out, 0%nat) else
      if decide (size = 1%nat) then out ← put out 0 0; Done (Some out, 0%nat) else
      let sign := val <? 0 in
      val ← (if sign then if val =? - 2 ^ 63 then Undef else Done (- val) else Done val);
      out ← (if sign then put out 0 char_minus else Done out);
      let s := if sign then 1%nat else 0%nat in
      let '(buf, digits) := decimal_digits val in
      let copy_size := if decide (digits + s < size - 1)%nat then digits else (size - 1 - s)%nat in
      let out := mem_copy out s buf (20 - copy_size)%nat copy_size in
      out ← put out (s + copy_size) 0;
      Done (Some out, (copy_size + s)%nat)
  end.

Definition uint_to_cstr (val : Z) (outbuf : option (list Z)) (size : nat) : outcome (option (list Z) * nat) :=
  match outbuf with
  | None => Done (None, 0%nat)
  | Some out =>
      if decide (size = 0%nat) then Done (Some out, 0%nat) else
      if decide (size = 1%nat) then out ← put out 0 0; Done (Some out, 0%nat) else
      let '(buf, digits) := decimal_digits val in
      let copy_size := if decide (digits < size - 1)%nat then digits else (size - 1)%nat in
      let out := mem_copy out 0%nat buf (20 - copy_size)%nat copy_size in
      out ← put out copy_size 0;
      Done (Some out, copy_size)
  end.

Definition int_to_cstr_packed (val : Z) (outbuf : option (list Z)) (size : nat) : outcome (option (list Z) * nat) :=
  match outbuf with
  | None => Done (None, 0%nat)
  | Some out =>
      if decide (size = 0%nat) then Done (Some out, 0%nat) else
      let sign := val <? 0 in
      val ← (if sign then if val =? - 2 ^ 63 then Undef else Done (- val) else Done val);
      out ← (if sign then put out 0 char_minus else Done out);
      let s := if sign then 1%nat else 0%nat in
      let '(buf, digits) := decimal_digits val in
      let copy_size := if decide (digits < size - s)%nat then digits else (size - s)%nat in
      let out := mem_copy out s buf (20 - copy_size)%nat copy_size in
      out ← (if decide (s + copy_size < size)%nat then put out (s + copy_size) 0 else Done out);
      Done (Some out, (copy_size + s)%nat)
  end.

Definition uint_to_cstr_packed (val : Z) (outbuf : option (list Z)) (size : nat) : outcome (option (list Z) * nat) :=
  match outbuf with
  | None => Done (None, 0%nat)
  | Some out =>
      if decide (size = 0%nat) then Done (Some out, 0%nat) else
      if decide (size = 1%nat) then
        out ← put out 0 (Z.lor char_zero (val mod 10)); Done (Some out, 1%nat) else
      let '(buf, digits) := decimal_digits val in
      let copy_size := if decide (digits < size)%nat then digits else size in
      let out := mem_copy out 0%nat buf (20 - copy_size)%nat copy_size in
      out ← (if decide (copy_size < size - 1)%nat then put out copy_size 0 else Done out);
      Done (Some out, copy_size)
  end.
End cstr.

(** ** Digits *)

(** Number with digits [ds], least significant first. *)
Fixpoint digits_value (base : Z) (ds : list Z) : Z :=
  match ds with [] => 0 | d :: ds => d + base * digits_value base ds end.

Definition is_digit (d : Z) : Prop := 0 <= d < 10.

(** [0x11...1] with [k] nibbles. *)
Fixpoint nibble_ones (k : nat) : Z := match k with O => 0 | S k => 1 + 16 * nibble_ones k end.

(** Bit [n] of a number split after its first nibble. *)
Lemma nibble_testbit d v n : 0 <= d < 16 → 0 <= n →
  Z.testbit (d + 16 * v) n = if decide (n < 4) then Z.testbit d n else Z.testbit v (n - 4).
Proof.
  intros Hd Hn. rewrite Z.add_comm, Z.mul_comm. change 16 with (2 ^ 4).
  assert (Hl : Z.land (v * 2 ^ 4) d = 0).
  { apply Z.bits_inj'; intros k Hk. rewrite Z.land_spec, Z.bits_0. destruct (decide (k < 4)).
    - by rewrite Z.mul_pow2_bits_low by lia.
    - rewrite (testbit_above 4 d k), andb_false_r; [done|unfold fits; lia|lia]. }
  rewrite Z.add_nocarry_lxor, Z.lxor_spec by done. case_decide.
  - rewrite Z.mul_pow2_bits_low by lia. apply xorb_false_l.
  - rewrite Z.mul_pow2_bits, (testbit_above 4 d n); [apply xorb_false_r|unfold fits; lia|lia|lia].
Qed.

Lemma dabble_mask_testbit x n : 0 <= n → Z.testbit (dabble_mask x) n =
  (Z.testbit x n || Z.testbit x (n + 1)) && Z.testbit x (n + 2) || Z.testbit x (n + 3).
Proof.
  intros Hn. unfold dabble_mask. rewrite Z.lor_spec, Z.land_spec, Z.lor_spec, !Z.shiftr_spec by done. done.
Qed.

Lemma nibble_cases d : 0 <= d < 16 → (Z.testbit d 0 || Z.testbit d 1) && Z.testbit d 2 || Z.testbit d 3 = (5 <=? d).
Proof.
  intros Hd. assert (Hall : forallb (λ d, eqb ((Z.testbit d 0 || Z.testbit d 1) && Z.testbit d 2 || Z.testbit d 3) (5 <=? d))
    (seqZ 0 16) = true) by by vm_compute.
  rewrite forallb_forall in Hall. apply eqb_prop, Hall, list_elem_of_In, elem_of_seqZ. lia.
Qed.

(** The selected bits of the mask are the carries of the digits. *)
Definition big (d : Z) : Z := if 5 <=? d then 1 else 0.

Lemma dabble_mask_digits ds : Forall (λ d, 0 <= d < 16) ds →
  Z.land (dabble_mask (digits_value 16 ds)) (nibble_ones (length ds)) = digits_value 16 (map big ds).
Proof.
  induction ds as [|d ds IH]; intros Hds; cbn [digits_value length nibble_ones map]; [apply Z.land_0_r|].
  apply Forall_cons in Hds as [Hd Hds]. rewrite <-IH by done.
  assert (Hb : 0 <= big d < 16) by (unfold big; destruct (5 <=? d); lia).
  apply Z.bits_inj'; intros n Hn.
  rewrite Z.land_spec, dabble_mask_testbit by done. rewrite !nibble_testbit by lia.
  rewrite Z.land_spec. destruct (decide (n < 4)) as [Hlt|Hge].
  - assert (n = 0 ∨ n = 1 ∨ n = 2 ∨ n = 3) as [->|[->|[->| ->]]] by lia;
      [|unfold big; destruct (5 <=? d); rewrite andb_false_r; done..].
    rewrite !decide_True by lia. rewrite nibble_cases, andb_true_r by done.
    unfold big. by destruct (5 <=? d).
  - rewrite dabble_mask_testbit by lia. resolve_decide.
    replace (n + 1 - 4) with (n - 4 + 1) by lia. replace (n + 2 - 4) with (n - 4 + 2) by lia.
    by replace (n + 3 - 4) with (n - 4 + 3) by lia.
Qed.

(** Doubling a decimal number and adding [b], with the carry out of the last digit. *)
Fixpoint decimal_double (b : Z) (ds : list Z) : list Z * Z :=
  match ds with
  | [] => ([], b)
  | d :: ds =>
      let x := 2 * d + b in
      let '(ds', c) := decimal_double (x / 10) ds in
      (x mod 10 :: ds', c)
  end.

Lemma decimal_double_spec ds : ∀ b, 0 <= b <= 1 → Forall is_digit ds →
  let '(ds', c) := decimal_double b ds in
  length ds' = length ds ∧ Forall is_digit ds' ∧ 0 <= c <= 1 ∧
  digits_value 10 ds' + 10 ^ Z.of_nat (length ds) * c = 2 * digits_value 10 ds + b ∧
  2 * (digits_value 16 ds + 3 * digits_value 16 (map big ds)) + b =
    digits_value 16 ds' + 16 ^ Z.of_nat (length ds) * c.
Proof.
  induction ds as [|d ds IH]; intros b Hb Hds; cbn [decimal_double digits_value map length].
  { split_and!; try done; lia. }
  apply Forall_cons in Hds as [Hd Hds]. unfold is_digit in Hd.
  pose proof (Z.div_mod (2 * d + b) 10 ltac:(lia)). pose proof (Z.mod_pos_bound (2 * d + b) 10 ltac:(lia)).
  assert (Hc : 0 <= (2 * d + b) / 10 <= 1) by lia.
  specialize (IH _ Hc Hds). destruct (decimal_double ((2 * d + b) / 10) ds) as [ds' c].
  destruct IH as (Hl&Hf&Hcr&H10&H16). cbn [length digits_value].
  replace (Z.of_nat (S (length ds))) with (Z.of_nat (length ds) + 1) by lia.
  rewrite !Z.pow_add_r, !Z.pow_1_r by lia.
  split_and!; [lia| |lia|lia|lia|].
  - constructor; [unfold is_digit; lia|done].
  - assert (6 * big d = 6 * ((2 * d + b) / 10)) by (unfold big; destruct (Z.leb_spec 5 d); lia). lia.
Qed.

Lemma digits_value_bound base ds : 0 < base → Forall (λ d, 0 <= d < base) ds →
  0 <= digits_value base ds < base ^ Z.of_nat (length ds).
Proof.
  intros Hb. induction ds as [|d ds IH]; intros Hds; cbn [digits_value length].
  - split; [done|]. simpl. lia.
  - apply Forall_cons in Hds as [Hd Hds]. specialize (IH Hds).
    replace (Z.of_nat (S (length ds))) with (Z.of_nat (length ds) + 1) by lia.
    rewrite Z.pow_add_r, Z.pow_1_r by lia. nia.
Qed.

Lemma lor_bit x b : 0 <= x → 0 <= b <= 1 → Z.lor (2 * x) b = 2 * x + b.
Proof.
  intros Hx Hb. assert (b = 0 ∨ b = 1) as [->| ->] by lia; [by rewrite Z.lor_0_r, Z.add_0_r|].
  assert (Z.land (2 * x) 1 = 0) as Hl.
  { change 1 with (Z.ones 1). rewrite Z.land_ones by lia. rewrite Z.mul_comm. apply Z.mod_mul. done. }
  rewrite <-Z.lxor_lor by done. symmetry. by apply Z.add_nocarry_lxor.
Qed.

Lemma big_range d : 0 <= big d < 16.
Proof. unfold big. destruct (5 <=? d); lia. Qed.

Lemma digits_16 ds : Forall is_digit ds → Forall (λ d, 0 <= d < 16) ds.
Proof. intros Hds. eapply Forall_impl; [exact Hds|]. unfold is_digit. intros. lia. Qed.

Lemma big_16 ds : Forall (λ d, 0 <= d < 16) (map big ds).
Proof. apply Forall_fmap, Forall_forall. intros d _. apply big_range. Qed.

(** Adding three to the large digits stays below [13 * 0x11...1]. *)
Lemma corrected_bound ds : Forall is_digit ds →
  0 <= digits_value 16 ds + 3 * digits_value 16 (map big ds) < 16 ^ Z.of_nat (length ds).
Proof.
  induction ds as [|d ds IH]; intros Hds; cbn [digits_value map length]; [simpl; lia|].
  apply Forall_cons in Hds as [Hd Hds]. unfold is_digit in Hd. specialize (IH Hds).
  replace (Z.of_nat (S (length ds))) with (Z.of_nat (length ds) + 1) by lia.
  rewrite Z.pow_add_r, Z.pow_1_r by lia. unfold big at 1 3. destruct (Z.leb_spec 5 d); lia.
Qed.

(** The state of a conversion: [r] bits of the number are still in the top of
    [val], the others are in the decimal digits [ds]. *)
Definition dabbling (w orig : Z) (ds : list Z) (val : Z) (r : Z) : Prop :=
  0 <= r <= w ∧ Forall is_digit ds ∧ ∃ t, 0 <= t < 2 ^ r ∧ val = t * 2 ^ (w - r) ∧
    orig = digits_value 10 ds * 2 ^ r + t.

(** Shifting one bit out of [val]. *)
Lemma dabbling_step w orig ds val r : dabbling w orig ds val r → 0 < r → orig < 10 ^ Z.of_nat (length ds) →
  let b := Z.shiftr val (w - 1) in
  0 <= b <= 1 ∧ ∃ ds', decimal_double b ds = (ds', 0) ∧ dabbling w orig ds' (wrap w (Z.shiftl val 1)) (r - 1).
Proof.
  intros (Hr&Hds&t&Ht&Hval&Ho) Hr0 Hlt b.
  assert (Hp : 2 ^ r = 2 * 2 ^ (r - 1)) by (apply pow2_pred; lia).
  assert (Hpw : 2 ^ w = 2 ^ (w - r) * 2 ^ r) by (rewrite <-Z.pow_add_r by lia; f_equal; lia).
  assert (0 < 2 ^ (r - 1)) by lia. assert (0 < 2 ^ (w - r)) by lia.
  assert (Hb : b = t / 2 ^ (r - 1)).
  { subst b val. rewrite Z.shiftr_div_pow2 by lia.
    replace (w - 1) with (w - r + (r - 1)) by lia. rewrite Z.pow_add_r by lia.
    rewrite (Z.mul_comm (2 ^ (w - r))). by rewrite Z.div_mul_cancel_r by lia. }
  pose proof (Z.div_mod t (2 ^ (r - 1)) ltac:(lia)) as Hdm.
  pose proof (Z.mod_pos_bound t (2 ^ (r - 1)) ltac:(lia)).
  assert (Hb1 : 0 <= b <= 1).
  { rewrite Hb. split; [apply Z.div_pos; lia|]. apply Z.lt_succ_r, Z.div_lt_upper_bound; lia. }
  split; [done|]. pose proof (decimal_double_spec ds b Hb1 Hds) as Hd.
  destruct (decimal_double b ds) as [ds' c]. destruct Hd as (Hl&Hds'&Hc&H10&_).
  pose proof (digits_value_bound 10 ds' ltac:(lia) Hds'). rewrite Hl in *.
  assert (c = 0) as ->.
  { assert (2 * digits_value 10 ds + b <= orig) by (rewrite Ho; rewrite <-Hb in Hdm; nia). nia. }
  exists ds'. split; [done|]. split_and!; [lia|lia|done|].
  exists (t mod 2 ^ (r - 1)). split_and!; [lia|lia| |].
  - subst val. rewrite Z.shiftl_mul_pow2, Z.pow_1_r by lia. unfold wrap.
    rewrite Hpw, Hp. replace (w - (r - 1)) with (w - r + 1) by lia. rewrite pow2_succ by lia.
    replace (t * 2 ^ (w - r) * 2) with (t * (2 ^ (w - r) * 2)) by lia.
    replace (2 ^ (w - r) * (2 * 2 ^ (r - 1))) with (2 ^ (r - 1) * (2 ^ (w - r) * 2)) by lia.
    rewrite Z.mul_mod_distr_r by lia. lia.
  - rewrite <-Hb in Hdm. rewrite Z.mul_0_r, Z.add_0_r in H10. rewrite H10. rewrite Ho. rewrite Hp.
    rewrite Hdm at 1. lia.
Qed.

Lemma dabble_step_spec bw w orig ds val r :
  dabbling w orig ds val r → 0 < r → orig < 10 ^ Z.of_nat (length ds) → 2 * 16 ^ Z.of_nat (length ds) <= 2 ^ bw →
  ∃ ds' val', length ds' = length ds ∧ dabbling w orig ds' val' (r - 1) ∧
    dabble_step bw w (nibble_ones (length ds)) (digits_value 16 ds, val) = (digits_value 16 ds', val').
Proof.
  intros HD Hr Hlt Hbw. destruct (dabbling_step _ _ _ _ _ HD Hr Hlt) as (Hb&ds'&Ed&HD').
  pose proof HD as (_&Hds&_). pose proof (decimal_double_spec ds _ Hb Hds) as Hd. rewrite Ed in Hd.
  destruct Hd as (Hl&Hds'&_&_&H16). exists ds', (wrap w (Z.shiftl val 1)). split_and!; [done|apply HD'..|].
  pose proof (corrected_bound ds Hds) as Hcb. pose proof (digits_value_bound 16 _ ltac:(lia) (big_16 ds)) as Hbig.
  pose proof (digits_value_bound 16 ds ltac:(lia) (digits_16 _ Hds)) as Hv. rewrite length_map in Hbig.
  unfold dabble_step. rewrite dabble_mask_digits by by apply digits_16.
  rewrite (wrap_small bw (_ * 3)) by (unfold fits; lia). rewrite (wrap_small bw (_ + _)) by (unfold fits; lia).
  rewrite Z.shiftl_mul_pow2, Z.pow_1_r by lia. rewrite (wrap_small bw (_ * 2)) by (unfold fits; lia).
  rewrite Z.mul_comm, lor_bit by lia. f_equal. lia.
Qed.

Lemma dabble_iter_spec bw w orig ds val r n k : length ds = k →
  dabbling w orig ds val r → Z.of_nat n <= r → orig < 10 ^ Z.of_nat k → 2 * 16 ^ Z.of_nat k <= 2 ^ bw →
  ∃ ds' val', length ds' = k ∧ dabbling w orig ds' val' (r - Z.of_nat n) ∧
    Nat.iter n (dabble_step bw w (nibble_ones k)) (digits_value 16 ds, val) = (digits_value 16 ds', val').
Proof.
  intros Hk HD Hn Hlt Hbw. induction n as [|n IH].
  { exists ds, val. rewrite Z.sub_0_r. done. }
  destruct IH as (ds1&val1&Hl1&HD1&E1); [lia|]. subst k. rewrite <-Hl1 in *.
  destruct (dabble_step_spec bw w orig ds1 val1 _ HD1) as (ds2&val2&Hl2&HD2&E2); [lia|done|done|].
  exists ds2, val2. split; [done|]. split; [by replace (r - Z.of_nat (S n)) with (r - Z.of_nat n - 1) by lia|].
  rewrite <-E2, <-E1. reflexivity.
Qed.

(** The first three bits are a single digit. *)
Lemma dabbling_init w orig k : 3 < w → fits w orig →
  dabbling w orig (Z.shiftr orig (w - 3) :: replicate k 0) (wrap w (Z.shiftl orig 3)) (w - 3) ∧
  digits_value 16 (Z.shiftr orig (w - 3) :: replicate k 0) = Z.shiftr orig (w - 3).
Proof.
  intros Hw Ho. unfold fits in Ho. rewrite Z.shiftr_div_pow2, Z.shiftl_mul_pow2 by lia.
  assert (Hz : ∀ base, digits_value base (replicate k 0) = 0).
  { intros base. induction k as [|k IH]; simpl; [done|]. rewrite IH. lia. }
  assert (Hp : 2 ^ w = 2 ^ (w - 3) * 2 ^ 3) by (rewrite <-Z.pow_add_r by lia; f_equal; lia).
  assert (0 < 2 ^ (w - 3)) by lia. change (2 ^ 3) with 8 in *.
  split; [split_and!; [lia|lia| |]|cbn [digits_value]; rewrite Hz; lia].
  - constructor.
    + unfold is_digit. split; [apply Z.div_pos; lia|]. apply Z.div_lt_upper_bound; lia.
    + apply Forall_replicate. unfold is_digit. lia.
  - exists (orig mod 2 ^ (w - 3)). pose proof (Z.mod_pos_bound orig (2 ^ (w - 3)) ltac:(lia)).
    split_and!; [lia|lia| |].
    + replace (w - (w - 3)) with 3 by lia. unfold wrap. rewrite Hp. by rewrite Z.mul_mod_distr_r by lia.
    + cbn [digits_value]. rewrite Hz. pose proof (Z.div_mod orig (2 ^ (w - 3)) ltac:(lia)). lia.
Qed.

(** Character [j] of the [k]-digit decimal representation of [val]. *)
Definition decimal_char (k : nat) (val : Z) (j : nat) : Z :=
  char_zero + val / 10 ^ Z.of_nat (k - 1 - j) mod 10.
Definition decimal_string (k : nat) (val : Z) : list Z := map (decimal_char k val) (seq 0 k).

Lemma digit_at base ds (i : nat) : 1 < base → Forall (λ d, 0 <= d < base) ds → (i < length ds)%nat →
  digits_value base ds / base ^ Z.of_nat i mod base = nth i ds 0.
Proof.
  intros Hb. revert i; induction ds as [|d ds IH]; intros i Hds Hi; cbn [length] in Hi; [lia|].
  apply Forall_cons in Hds as [Hd Hds]. cbn [digits_value]. rewrite (Z.mul_comm base). destruct i as [|i].
  - cbn [nth]. rewrite Z.pow_0_r, Z.div_1_r. rewrite Z.mod_add, Z.mod_small by lia. done.
  - assert (0 < base ^ Z.of_nat i) by (apply Z.pow_pos_nonneg; lia).
    cbn [nth]. rewrite <-IH by (done || lia). replace (Z.of_nat (S i)) with (1 + Z.of_nat i) by lia.
    rewrite Z.pow_add_r, Z.pow_1_r, <-Z.div_div by lia. rewrite Z.div_add, (Z.div_small d base), Z.add_0_l by lia. done.
Qed.

Lemma nibbles_to_str_spec ds : Forall is_digit ds →
  nibbles_to_str (length ds) (digits_value 16 ds) = decimal_string (length ds) (digits_value 10 ds).
Proof.
  intros Hds. unfold nibbles_to_str, decimal_string. apply map_ext_in. intros j [_ Hj]%in_seq.
  unfold decimal_char. f_equal. change 15 with (Z.ones 4). rewrite Z.land_ones, Z.shiftr_div_pow2 by lia.
  rewrite Z.pow_mul_r by lia. change (2 ^ 4) with 16.
  rewrite (digit_at 16) by (lia || by apply digits_16). by rewrite (digit_at 10) by (lia || done).
Qed.

Lemma dabbling_done w orig ds val : dabbling w orig ds val 0 → digits_value 10 ds = orig.
Proof. intros (_&_&t&Ht&_&->). simpl in *. lia. Qed.

Lemma num_uint16_spec val : fits 16 val → num_uint16_to_str val = decimal_string 5 val.
Proof.
  intros Hv. unfold num_uint16_to_str. destruct (dabbling_init 16 val 4) as [HD E]; [lia|done|].
  change (16 - 3) with 13 in *. rewrite <-E.
  destruct (dabble_iter_spec 32 16 val (Z.shiftr val 13 :: replicate 4 0) _ 13 13 5 eq_refl HD) as (ds&v&Hl&HD'&E');
    [lia|unfold fits in Hv; lia|done|].
  change (nibble_ones 5) with 0x11111 in E'. rewrite E'. cbn [fst].
  change (13 - Z.of_nat 13) with 0 in HD'. rewrite <-Hl, nibbles_to_str_spec by apply HD'.
  by rewrite (dabbling_done _ _ _ _ HD').
Qed.

Lemma num_uint32_spec val : fits 32 val → num_uint32_to_str val = decimal_string 10 val.
Proof.
  intros Hv. unfold num_uint32_to_str. destruct (dabbling_init 32 val 9) as [HD E]; [lia|done|].
  change (32 - 3) with 29 in *. rewrite <-E.
  destruct (dabble_iter_spec 64 32 val (Z.shiftr val 29 :: replicate 9 0) _ 29 29 10 eq_refl HD) as (ds&v&Hl&HD'&E');
    [lia|unfold fits in Hv; lia|done|].
  change (nibble_ones 10) with 0x1111111111 in E'. rewrite E'. cbn [fst].
  change (29 - Z.of_nat 29) with 0 in HD'. rewrite <-Hl, nibbles_to_str_spec by apply HD'.
  by rewrite (dabbling_done _ _ _ _ HD').
Qed.

(** ** The split buffer of the 64-bit conversion *)

Lemma decimal_double_app b ds es : decimal_double b (ds ++ es) =
  let '(ds', c) := decimal_double b ds in
  let '(es', c') := decimal_double c es in (ds' ++ es', c').
Proof.
  revert b; induction ds as [|d ds IH]; intros b; cbn [app decimal_double].
  - by destruct (decimal_double b es).
  - rewrite IH. destruct (decimal_double _ ds) as [ds' c]. by destruct (decimal_double c es).
Qed.

Lemma digits_value_app base ds es :
  digits_value base (ds ++ es) = digits_value base ds + base ^ Z.of_nat (length ds) * digits_value base es.
Proof.
  induction ds as [|d ds IH]; cbn [app digits_value length]; [simpl; lia|].
  rewrite IH. replace (Z.of_nat (S (length ds))) with (1 + Z.of_nat (length ds)) by lia.
  rewrite Z.pow_add_r, Z.pow_1_r by lia. lia.
Qed.

(** Doubling one half of the buffer, with the bit shifted in from below. *)
Lemma half_step bw k ds b : length ds = k → Forall is_digit ds → 0 <= b <= 1 → 2 ^ bw = 16 ^ Z.of_nat k → 0 < bw →
  let buf := wrap bw (digits_value 16 ds + wrap bw (Z.land (dabble_mask (digits_value 16 ds)) (nibble_ones k) * 3)) in
  let '(ds', c) := decimal_double b ds in
  Z.lor (wrap bw (Z.shiftl buf 1)) b = digits_value 16 ds' ∧ Z.shiftr buf (bw - 1) = c ∧ fits bw buf.
Proof.
  intros Hk Hds Hb Hbw Hw buf. pose proof (decimal_double_spec ds b Hb Hds) as Hd.
  destruct (decimal_double b ds) as [ds' c]. destruct Hd as (Hl&Hds'&Hc&_&H16).
  pose proof (corrected_bound ds Hds) as Hcb. pose proof (digits_value_bound 16 _ ltac:(lia) (big_16 ds)) as Hbig.
  pose proof (digits_value_bound 16 ds ltac:(lia) (digits_16 _ Hds)) as Hv. rewrite length_map in Hbig.
  pose proof (digits_value_bound 16 ds' ltac:(lia) (digits_16 _ Hds')) as Hv'. rewrite Hl in Hv'.
  subst k buf. rewrite dabble_mask_digits by by apply digits_16. rewrite <-Hbw in *.
  rewrite (wrap_small bw (_ * 3)) by (unfold fits; lia). rewrite (wrap_small bw (_ + _)) by (unfold fits; lia).
  set (x := digits_value 16 ds + digits_value 16 (map big ds) * 3) in *.
  assert (Hx : 2 * x + b = digits_value 16 ds' + 2 ^ bw * c) by lia.
  assert (Hp : 2 ^ bw = 2 * 2 ^ (bw - 1)) by (by apply pow2_pred).
  rewrite Z.shiftl_mul_pow2, Z.pow_1_r, Z.shiftr_div_pow2 by lia.
  split_and!; [|symmetry; apply (Z.div_unique_pos _ _ _ (x - 2 ^ (bw - 1) * c)); nia|unfold fits; lia].
  assert (wrap bw (x * 2) = 2 * (x - 2 ^ (bw - 1) * c)) as ->.
  { unfold wrap. symmetry. apply (Z.mod_unique_pos _ _ c); nia. }
  rewrite lor_bit by nia. nia.
Qed.

Lemma dabble_step64_spec orig lo hi val r : length lo = 16%nat → length hi = 4%nat →
  dabbling 64 orig (lo ++ hi) val r → 0 < r → orig < 10 ^ 20 →
  ∃ lo' hi' val', length lo' = 16%nat ∧ length hi' = 4%nat ∧ dabbling 64 orig (lo' ++ hi') val' (r - 1) ∧
    dabble_step64 (digits_value 16 lo, digits_value 16 hi, val) = (digits_value 16 lo', digits_value 16 hi', val').
Proof.
  intros Hlo Hhi HD Hr Hlt.
  destruct (dabbling_step _ _ _ _ _ HD Hr) as (Hb&ds'&Ed&HD'); [by rewrite length_app, Hlo, Hhi|].
  pose proof HD as (_&Hds&_). apply Forall_app in Hds as [Hdlo Hdhi]. rewrite decimal_double_app in Ed.
  pose proof (half_step 64 16 lo _ Hlo Hdlo Hb eq_refl ltac:(lia)) as H1.
  pose proof (decimal_double_spec lo _ Hb Hdlo) as S1.
  destruct (decimal_double (Z.shiftr val (64 - 1)) lo) as [lo' c]. destruct S1 as (Hl1&_&Hc&_).
  pose proof (half_step 16 4 hi c Hhi Hdhi Hc eq_refl ltac:(lia)) as H2.
  pose proof (decimal_double_spec hi c Hc Hdhi) as S2.
  destruct (decimal_double c hi) as [hi' c']. destruct S2 as (Hl2&_). injection Ed as <- ->.
  destruct H1 as (E1&E1'&_), H2 as (E2&_&_). cbv zeta in E1, E1', E2.
  exists lo', hi', (u64 (Z.shiftl val 1)). split_and!; [lia|lia|apply HD'..|].
  unfold dabble_step64. change 0x1111111111111111 with (nibble_ones 16). change 0x1111 with (nibble_ones 4).
  change (64 - 1) with 63 in *. rewrite E1, E1'. rewrite (wrap_small 16 c) by (unfold fits; lia).
  rewrite <-E2. do 4 f_equal. unfold wrap. by rewrite Zplus_mod_idemp_r.
Qed.

Lemma dabble_iter64_spec orig lo hi val r n : length lo = 16%nat → length hi = 4%nat →
  dabbling 64 orig (lo ++ hi) val r → Z.of_nat n <= r → orig < 10 ^ 20 →
  ∃ lo' hi' val', length lo' = 16%nat ∧ length hi' = 4%nat ∧
    dabbling 64 orig (lo' ++ hi') val' (r - Z.of_nat n) ∧
    Nat.iter n dabble_step64 (digits_value 16 lo, digits_value 16 hi, val) =
      (digits_value 16 lo', digits_value 16 hi', val').
Proof.
  intros Hlo Hhi HD Hn Hlt. induction n as [|n IH].
  { exists lo, hi, val. rewrite Z.sub_0_r. done. }
  destruct IH as (lo1&hi1&val1&Hl1&Hh1&HD1&E1); [lia|].
  destruct (dabble_step64_spec orig lo1 hi1 val1 _ Hl1 Hh1 HD1) as (lo2&hi2&val2&Hl2&Hh2&HD2&E2); [lia|done|].
  exists lo2, hi2, val2. split_and!; [done|done| |rewrite <-E2, <-E1; reflexivity].
  by replace (r - Z.of_nat (S n)) with (r - Z.of_nat n - 1) by lia.
Qed.

Lemma decimal_string_app a b (x y : Z) : 0 <= y < 10 ^ Z.of_nat b → 0 <= x →
  decimal_string a x ++ decimal_string b y = decimal_string (a + b) (x * 10 ^ Z.of_nat b + y).
Proof.
  intros Hy Hx. unfold decimal_string. rewrite seq_app, map_app. f_equal.
  - apply map_ext_in. intros j [_ Hj]%in_seq. unfold decimal_char. f_equal.
    replace (Z.of_nat (a + b - 1 - j)) with (Z.of_nat b + Z.of_nat (a - 1 - j)) by lia.
    assert (0 < 10 ^ Z.of_nat (a - 1 - j)) by (apply Z.pow_pos_nonneg; lia).
    rewrite Z.pow_add_r, <-Z.div_div by lia. by rewrite Z.div_add_l, (Z.div_small y), Z.add_0_r by lia.
  - rewrite Nat.add_0_l. rewrite <-(Nat.add_0_r a) at 2. rewrite <-fmap_add_seq.
    change (Nat.add a <$> seq 0 b) with (map (Nat.add a) (seq 0 b)). rewrite map_map.
    apply map_ext_in. intros j [_ Hj]%in_seq. unfold decimal_char. f_equal.
    replace (Z.of_nat (a + b - 1 - (a + j))) with (Z.of_nat (b - 1 - j)) by lia.
    set (k := Z.of_nat (b - 1 - j)). assert (0 < 10 ^ k) by (apply Z.pow_pos_nonneg; lia).
    replace (Z.of_nat b) with (1 + (Z.of_nat j + k)) by lia. rewrite !Z.pow_add_r, Z.pow_1_r by lia.
    replace (x * (10 * (10 ^ Z.of_nat j * 10 ^ k)) + y) with (y + x * 10 ^ Z.of_nat j * 10 * 10 ^ k) by lia.
    by rewrite Z.div_add, Z.mod_add by lia.
Qed.

Lemma num_uint64_spec val : fits 64 val → num_uint64_to_str val = decimal_string 20 val.
Proof.
  intros Hv. unfold num_uint64_to_str. destruct (dabbling_init 64 val 19) as [HD E]; [lia|done|].
  change (64 - 3) with 61 in *.
  change (Z.shiftr val 61 :: replicate 19 0) with ((Z.shiftr val 61 :: replicate 15 0) ++ replicate 4 0) in HD.
  destruct (dabble_iter64_spec val (Z.shiftr val 61 :: replicate 15 0) (replicate 4 0) _ 61 61 eq_refl eq_refl HD) as (lo&hi&v&Hlo&Hhi&HD'&E');
    [lia|unfold fits in Hv; lia|].
  assert (digits_value 16 (Z.shiftr val 61 :: replicate 15 0) = Z.shiftr val 61) as E1 by (simpl; lia).
  assert (digits_value 16 (replicate 4 0) = 0) as E2 by done.
  rewrite E1, E2 in E'. rewrite E'. change (61 - Z.of_nat 61) with 0 in HD'.
  pose proof (dabbling_done _ _ _ _ HD') as Hval. destruct HD' as (_&Hds&_). apply Forall_app in Hds as [Hdlo Hdhi].
  rewrite <-Hlo, <-Hhi, !nibbles_to_str_spec by done.
  pose proof (digits_value_bound 10 lo ltac:(lia) Hdlo). pose proof (digits_value_bound 10 hi ltac:(lia) Hdhi).
  rewrite decimal_string_app by lia. rewrite Hlo, Hhi. f_equal.
  rewrite <-Hval, digits_value_app, Hlo. lia.
Qed.

(** ** Conversion of any number *)

Lemma land_high w x : fits 64 x → 0 <= w < 64 → Z.land x (2 ^ 64 - 2 ^ w) = 0 ↔ x < 2 ^ w.
Proof.
  intros Hx Hw. replace (2 ^ 64 - 2 ^ w) with (wnot 64 (2 ^ w - 1)).
  - rewrite land_align by (done || lia). assert (0 < 2 ^ w) by lia. unfold fits in Hx. split.
    + intros E. assert (x / 2 ^ w = 0) as E' by nia. apply Z.div_small_iff in E'; lia.
    + intros Hlt. by rewrite Z.div_small by lia.
  - assert (2 ^ w < 2 ^ 64) by (apply Z.pow_lt_mono_r; lia). assert (0 < 2 ^ w) by lia.
    unfold wnot, wrap, Z.lnot. symmetry. apply (Z.mod_unique_pos _ _ (-1)); lia.
Qed.

Lemma zero_chars a l : replicate (length l) char_zero = map (decimal_char a 0) l.
Proof.
  induction l as [|j l IH]; simpl; [done|]. by rewrite IH.
Qed.

Lemma decimal_string_zeros a k val : 0 <= val < 10 ^ Z.of_nat k →
  replicate a char_zero ++ decimal_string k val = decimal_string (a + k) val.
Proof.
  intros Hv. replace val with (0 * 10 ^ Z.of_nat k + val) at 2 by lia. rewrite <-decimal_string_app by lia.
  f_equal. unfold decimal_string. rewrite <-(length_seq a 0) at 1. apply zero_chars.
Qed.

Lemma num_uint_buffer val : fits 64 val → fst (num_uint_to_str val) = decimal_string 20 val.
Proof.
  intros Hv. unfold num_uint_to_str. change 0xffffffffffff0000 with (2 ^ 64 - 2 ^ 16).
  change 0xffffffff00000000 with (2 ^ 64 - 2 ^ 32). unfold fits in Hv.
  destruct (Z.eqb_spec (Z.land val (2 ^ 64 - 2 ^ 16)) 0) as [E|_].
  { apply land_high in E; [|done|lia]. cbn [fst]. rewrite wrap_small by (unfold fits; lia).
    rewrite num_uint16_spec by (unfold fits; lia). apply (decimal_string_zeros 15 5). lia. }
  destruct (Z.eqb_spec (Z.land val (2 ^ 64 - 2 ^ 32)) 0) as [E|_].
  { apply land_high in E; [|done|lia]. cbn [fst]. rewrite wrap_small by (unfold fits; lia).
    rewrite num_uint32_spec by (unfold fits; lia). apply (decimal_string_zeros 10 10). lia. }
  by apply num_uint64_spec.
Qed.

(** Number of decimal digits: none for zero. *)
Definition digit_count (val : Z) (d : nat) : Prop :=
  0 <= val < 10 ^ Z.of_nat d ∧ (d = 0%nat ∨ 10 ^ Z.of_nat (d - 1) <= val).

Lemma decimal_string_nth k val j : (j < k)%nat → nth j (decimal_string k val) 0 = decimal_char k val j.
Proof.
  intros Hj. unfold decimal_string. rewrite (nth_indep _ 0 (decimal_char k val 0)) by by rewrite length_map, length_seq.
  by rewrite map_nth, seq_nth.
Qed.

Lemma count_digits_spec d val : (d <= 20)%nat → 0 <= val < 10 ^ Z.of_nat d →
  let n := count_digits d (decimal_string 20 val) in (n <= d)%nat ∧ digit_count val n.
Proof.
  induction d as [|d IH]; intros Hd Hv; cbn [count_digits]; [split; [done|split; [done|by left]]|].
  rewrite decimal_string_nth by lia. unfold decimal_char.
  replace (20 - 1 - (20 - S d))%nat with d by lia.
  replace (Z.of_nat (S d)) with (Z.of_nat d + 1) in Hv by lia. rewrite Z.pow_add_r, Z.pow_1_r in Hv by lia.
  assert (Hp : 0 < 10 ^ Z.of_nat d) by (apply Z.pow_pos_nonneg; lia).
  assert (0 <= val / 10 ^ Z.of_nat d < 10) by (split; [apply Z.div_pos; lia|apply Z.div_lt_upper_bound; lia]).
  rewrite Z.mod_small by lia.
  destruct (Z.eqb_spec (char_zero + val / 10 ^ Z.of_nat d) char_zero) as [E|E].
  - assert (val / 10 ^ Z.of_nat d = 0) as E' by lia. apply Z.div_small_iff in E'; [|lia].
    destruct IH as [Hn Hc]; [lia|lia|]. split; [lia|exact Hc].
  - split; [done|]. split; [rewrite Nat2Z.inj_succ, Z.pow_succ_r by lia; lia|]. right.
    replace (S d - 1)%nat with d by lia. apply Z.nlt_ge. intros Hlt. rewrite Z.div_small in E by lia. lia.
Qed.

Lemma num_uint_digits val : fits 64 val →
  num_uint_to_str val = (decimal_string 20 val, snd (num_uint_to_str val)) ∧
  digit_count val (snd (num_uint_to_str val)) ∧ (snd (num_uint_to_str val) <= 20)%nat.
Proof.
  intros Hv. pose proof (num_uint_buffer val Hv) as Hb. revert Hb. unfold num_uint_to_str.
  change 0xffffffffffff0000 with (2 ^ 64 - 2 ^ 16). change 0xffffffff00000000 with (2 ^ 64 - 2 ^ 32).
  assert (Hgen : ∀ d, (d <= 20)%nat → 0 <= val < 10 ^ Z.of_nat d →
    ∀ out, out = decimal_string 20 val →
    (out, count_digits d out) = (decimal_string 20 val, count_digits d out) ∧
    digit_count val (count_digits d out) ∧ (count_digits d out <= 20)%nat).
  { intros d Hd Hlt out ->. destruct (count_digits_spec d val Hd Hlt). split_and!; [done|done|lia]. }
  unfold fits in Hv. destruct (Z.eqb_spec (Z.land val (2 ^ 64 - 2 ^ 16)) 0) as [E|_].
  { apply land_high in E; [|done|lia]. cbn [fst snd]. intros Hb. apply Hgen; [lia|lia|done]. }
  destruct (Z.eqb_spec (Z.land val (2 ^ 64 - 2 ^ 32)) 0) as [E|_].
  { apply land_high in E; [|done|lia]. cbn [fst snd]. intros Hb. apply Hgen; [lia|lia|done]. }
  cbn [fst snd]. intros Hb. apply Hgen; [lia|lia|done].
Qed.

(** ** Reading the digits back *)

(** The number a string of decimal digits denotes. *)
Definition parse_decimal (s : list Z) : Z := fold_left (λ acc c, acc * 10 + (c - char_zero)) s 0.

Lemma decimal_string_snoc k val : decimal_string (S k) val = decimal_string k (val / 10) ++ [char_zero + val mod 10].
Proof.
  unfold decimal_string. rewrite seq_S, map_app. f_equal; cbn [map].
  - apply map_ext_in. intros j [_ Hj]%in_seq. unfold decimal_char. f_equal.
    rewrite Z.div_div by (lia || apply Z.pow_pos_nonneg; lia). rewrite <-(Z.pow_1_r 10) at 3.
    rewrite <-Z.pow_add_r by lia. do 2 f_equal. f_equal. lia.
  - unfold decimal_char. replace (S k - 1 - (0 + k))%nat with 0%nat by lia. by rewrite Z.pow_0_r, Z.div_1_r.
Qed.

Lemma parse_decimal_string k val : 0 <= val → parse_decimal (decimal_string k val) = val mod 10 ^ Z.of_nat k.
Proof.
  revert val; induction k as [|k IH]; intros val Hv; [by rewrite Z.mod_1_r|].
  rewrite decimal_string_snoc. unfold parse_decimal. rewrite fold_left_app.
  change (parse_decimal (decimal_string k (val / 10)) * 10 + (char_zero + val mod 10 - char_zero) =
    val mod 10 ^ Z.of_nat (S k)).
  rewrite IH by (apply Z.div_pos; lia). rewrite Nat2Z.inj_succ, Z.pow_succ_r by lia.
  assert (0 < 10 ^ Z.of_nat k) by (apply Z.pow_pos_nonneg; lia).
  rewrite Z.rem_mul_r by lia. lia.
Qed.

Lemma decimal_string_length k val : length (decimal_string k val) = k.
Proof. unfold decimal_string. by rewrite length_map, length_seq. Qed.

(** The last [n] of [k] digits. *)
Lemma decimal_string_drop k n val : (n <= k)%nat → drop (k - n) (decimal_string k val) = decimal_string n val.
Proof.
  intros Hn. unfold decimal_string. rewrite skipn_map, drop_seq, Nat.add_0_l.
  replace (k - (k - n))%nat with n by lia.
  rewrite <-(Nat.add_0_r (k - n)) at 1. rewrite <-fmap_add_seq.
  change (Nat.add (k - n) <$> seq 0 n) with (map (Nat.add (k - n)) (seq 0 n)). rewrite map_map.
  apply map_ext_in. intros j [_ Hj]%in_seq. unfold decimal_char. do 3 f_equal. f_equal. lia.
Qed.

(** ** C strings *)

(** The significant digits of a number; zero has one. *)
Definition shown_digits (val : Z) (d : nat) : Prop :=
  ∃ n, digit_count val n ∧ d = if decide (n = 0%nat) then 1%nat else n.

Lemma shown_digits_parse val d : shown_digits val d → parse_decimal (decimal_string d val) = val.
Proof.
  intros (n&(Hv&_)&->). rewrite parse_decimal_string by lia. apply Z.mod_small. case_decide; [subst; simpl in *; lia|done].
Qed.

Lemma decimal_digits_spec val : fits 64 val → ∃ d, decimal_digits val = (decimal_string 20 val, d) ∧
  shown_digits val d ∧ (1 <= d <= 20)%nat.
Proof.
  intros Hv. destruct (num_uint_digits val Hv) as (E&Hc&Hle). unfold decimal_digits. rewrite E.
  eexists. split_and!; [done|by eexists|case_decide; lia|case_decide; lia].
Qed.

Lemma mem_copy_digits mem_copy (pre post : list Z) val n : mem_copy_law mem_copy → (n <= 20)%nat → (n <= length post)%nat →
  mem_copy (pre ++ post) (length pre) (decimal_string 20 val) (20 - n)%nat n =
    pre ++ decimal_string n val ++ drop n post.
Proof.
  intros Hm Hn Hp. rewrite Hm by (rewrite ?length_app, ?decimal_string_length; lia).
  rewrite take_app_length, decimal_string_drop, drop_app_add by done.
  by rewrite take_ge by by rewrite decimal_string_length.
Qed.

Lemma put_app pre post i c : i = length pre → (0 < length post)%nat →
  put (pre ++ post) i c = Done (pre ++ c :: drop 1 post).
Proof.
  intros -> Hp. unfold put. rewrite decide_True by (rewrite length_app; lia).
  destruct post as [|x post]; [simpl in Hp; lia|].
  by rewrite <-(Nat.add_0_r (length pre)), insert_app_r.
Qed.

Lemma put_head c out x : put (c :: out) 0 x = Done (x :: out).
Proof. apply (put_app [] (c :: out)); [done|simpl; lia]. Qed.

(** The text [pre] and [n] digits, terminated, over the start of [out]. *)
Lemma cstr_terminated mem_copy pre out val n : mem_copy_law mem_copy → (n <= 20)%nat →
  (n < length out)%nat →
  put (mem_copy (pre ++ out) (length pre) (decimal_string 20 val) (20 - n)%nat n) (length pre + n) 0 =
    Done (pre ++ decimal_string n val ++ 0 :: drop (n + 1) out).
Proof.
  intros Hm Hn Hl. rewrite mem_copy_digits by (done || lia). rewrite app_assoc.
  rewrite put_app; [|by rewrite length_app, decimal_string_length|rewrite length_drop; lia].
  by rewrite drop_drop, <-app_assoc.
Qed.

Definition sign_text (val : Z) : list Z := if val <? 0 then [char_minus] else [].

(** What is left of [n] characters written at the start of [out] when the
    terminator is written only if it fits. *)
Definition packed_rest (out : list Z) (n size : nat) : list Z :=
  if decide (n < size)%nat then 0 :: drop (n + 1) out else drop n out.

Lemma cstr_packed mem_copy pre out val n size : mem_copy_law mem_copy → (n <= 20)%nat →
  (n <= length out)%nat → (size <= length out)%nat →
  (out' ← (if decide (n < size)%nat
    then put (mem_copy (pre ++ out) (length pre) (decimal_string 20 val) (20 - n)%nat n) (length pre + n) 0
    else Done (mem_copy (pre ++ out) (length pre) (decimal_string 20 val) (20 - n)%nat n));
   Done (Some out', (n + length pre)%nat)) =
  Done (Some (pre ++ decimal_string n val ++ packed_rest out n size), (n + length pre)%nat).
Proof.
  intros Hm Hn Hl Hs. unfold packed_rest. case_decide.
  - rewrite cstr_terminated by (done || lia). done.
  - rewrite mem_copy_digits by (done || lia). done.
Qed.

Lemma uint_to_cstr_spec mem_copy val out size d : mem_copy_law mem_copy → fits 64 val → (2 <= size <= length out)%nat →
  shown_digits val d → (1 <= d <= 20)%nat → decimal_digits val = (decimal_string 20 val, d) →
  let n := Nat.min d (size - 1) in
  uint_to_cstr mem_copy val (Some out) size = Done (Some (decimal_string n val ++ 0 :: drop (n + 1) out), n).
Proof.
  intros Hm Hv Hs Hd Hle E n. unfold uint_to_cstr. rewrite !decide_False, E by lia.
  assert ((if decide (d < size - 1)%nat then d else (size - 1)%nat) = n) as -> by (case_decide; lia).
  pose proof (cstr_terminated mem_copy [] out val n Hm) as Ht. cbn [app length] in Ht. rewrite Nat.add_0_l in Ht.
  rewrite Ht by lia. done.
Qed.

Lemma int_to_cstr_spec mem_copy val out size d : mem_copy_law mem_copy → - 2 ^ 63 < val < 2 ^ 63 →
  (2 <= size <= length out)%nat → shown_digits (Z.abs val) d → (1 <= d <= 20)%nat →
  decimal_digits (Z.abs val) = (decimal_string 20 (Z.abs val), d) →
  let s := length (sign_text val) in
  let n := Nat.min d (size - 1 - s) in
  int_to_cstr mem_copy val (Some out) size =
    Done (Some (sign_text val ++ decimal_string n (Z.abs val) ++ 0 :: drop (s + n + 1) out), (s + n)%nat).
Proof.
  intros Hm Hv Hs Hd Hle E s n. unfold int_to_cstr. rewrite !decide_False by lia.
  destruct out as [|c out]; [simpl in Hs; lia|]. cbn [length] in Hs. unfold sign_text in *.
  destruct (Z.ltb_spec val 0) as [Hneg|Hpos]; cbn [length] in s; subst s.
  - destruct (Z.eqb_spec val (- 2 ^ 63)); [lia|]. cbn [mbind outcome_bind]. rewrite Z.abs_neq in * by lia.
    rewrite put_head. cbn [mbind outcome_bind]. rewrite E.
    assert ((if decide (d + 1 < size - 1)%nat then d else (size - 1 - 1)%nat) = n) as -> by (case_decide; lia).
    pose proof (cstr_terminated mem_copy [char_minus] out (- val) n Hm) as Ht. cbn [app length] in Ht.
    change (1 + n)%nat with (S n) in *. cbn [app length]. rewrite Ht by lia. cbn [mbind outcome_bind Nat.add drop]. do 2 f_equal. lia.
  - cbn [mbind outcome_bind]. rewrite Z.abs_eq in * by lia. rewrite E.
    assert ((if decide (d + 0 < size - 1)%nat then d else (size - 1 - 0)%nat) = n) as -> by (case_decide; lia).
    pose proof (cstr_terminated mem_copy [] (c :: out) val n Hm) as Ht. cbn [app length] in Ht.
    rewrite !Nat.add_0_l in *. rewrite Ht by lia. cbn [mbind outcome_bind]. by rewrite Nat.add_0_r.
Qed.

Lemma int_to_cstr_packed_spec mem_copy val out size d : mem_copy_law mem_copy → - 2 ^ 63 < val < 2 ^ 63 →
  (1 <= size <= length out)%nat → shown_digits (Z.abs val) d → (1 <= d <= 20)%nat →
  decimal_digits (Z.abs val) = (decimal_string 20 (Z.abs val), d) →
  let s := length (sign_text val) in
  let n := Nat.min d (size - s) in
  int_to_cstr_packed mem_copy val (Some out) size =
    Done (Some (sign_text val ++ decimal_string n (Z.abs val) ++ packed_rest (drop s out) n (size - s)), (n + s)%nat).
Proof.
  intros Hm Hv Hs Hd Hle E s n. unfold int_to_cstr_packed. rewrite !decide_False by lia.
  destruct out as [|c out]; [simpl in Hs; lia|]. cbn [length] in Hs. unfold sign_text in *.
  destruct (Z.ltb_spec val 0) as [Hneg|Hpos]; cbn [length] in s; subst s.
  - destruct (Z.eqb_spec val (- 2 ^ 63)); [lia|]. cbn [mbind outcome_bind]. rewrite Z.abs_neq in * by lia.
    rewrite put_head. cbn [mbind outcome_bind]. rewrite E.
    assert ((if decide (d < size - 1)%nat then d else (size - 1)%nat) = n) as -> by (case_decide; lia).
    rewrite (decide_ext _ (n < size - 1)%nat) by lia.
    exact (cstr_packed mem_copy [char_minus] out (- val) n (size - 1) Hm ltac:(lia) ltac:(lia) ltac:(lia)).
  - cbn [mbind outcome_bind]. rewrite Z.abs_eq in * by lia. rewrite E. rewrite Nat.sub_0_r in *.
    assert ((if decide (d < size)%nat then d else size) = n) as -> by (case_decide; lia).
    rewrite Nat.add_0_l. cbn [drop app].
    refine (cstr_packed mem_copy [] (c :: out) val n size Hm ltac:(lia) _ _); cbn [length]; lia.
Qed.

Lemma last_digit val : 0 <= val → Z.lor char_zero (val mod 10) = char_zero + val mod 10.
Proof.
  intros Hv. assert (Hall : forallb (λ d, Z.lor char_zero d =? char_zero + d) (seqZ 0 10) = true) by by vm_compute.
  rewrite forallb_forall in Hall. apply Z.eqb_eq, Hall, list_elem_of_In, elem_of_seqZ.
  pose proof (Z.mod_pos_bound val 10). lia.
Qed.

Lemma uint_to_cstr_packed_spec mem_copy val out size d : mem_copy_law mem_copy → fits 64 val →
  (1 <= size <= length out)%nat → shown_digits val d → (1 <= d <= 20)%nat →
  decimal_digits val = (decimal_string 20 val, d) →
  let n := Nat.min d size in
  uint_to_cstr_packed mem_copy val (Some out) size =
    Done (Some (decimal_string n val ++ packed_rest out n (size - 1)), n).
Proof.
  intros Hm Hv Hs Hd Hle E n. unfold uint_to_cstr_packed. rewrite (decide_False (P := size = 0%nat)) by lia.
  case_decide as H1.
  - subst size. destruct out as [|c out]; [simpl in Hs; lia|].
    assert (n = 1%nat) as -> by lia. unfold fits in Hv. rewrite put_head, last_digit by lia.
    cbn [mbind outcome_bind]. unfold packed_rest, decimal_string, decimal_char. simpl. by rewrite Z.div_1_r.
  - rewrite E. assert ((if decide (d < size)%nat then d else size) = n) as -> by (case_decide; lia).
    pose proof (cstr_packed mem_copy [] out val n (size - 1) Hm ltac:(lia) ltac:(lia) ltac:(lia)) as Hp.
    cbn [app length] in Hp. by rewrite Nat.add_0_l, Nat.add_0_r in Hp.
Qed.

(** ** Correctness *)

(** For every number of its width, each conversion writes the decimal
    digits of the number, padded with zeroes to the size of its buffer
    ([decimal_char]: character [j] of [k] is digit [k - 1 - j]); the generic
    conversion also returns how many of the digits are significant, none for
    zero, and reading the characters back gives the number. *)
Theorem num_to_str_correct a b c : fits 16 a → fits 32 b → fits 64 c →
  num_uint16_to_str a = decimal_string 5 a ∧ num_uint32_to_str b = decimal_string 10 b ∧
  num_uint64_to_str c = decimal_string 20 c ∧
  ∃ d, num_uint_to_str c = (decimal_string 20 c, d) ∧ digit_count c d ∧
    parse_decimal (fst (num_uint_to_str c)) = c.
Proof.
  intros Ha Hb Hc. destruct (num_uint_digits c Hc) as (E&Hd&_).
  split_and!; [by apply num_uint16_spec|by apply num_uint32_spec|by apply num_uint64_spec|].
  eexists. split_and!; [exact E|exact Hd|]. rewrite E. cbn [fst]. unfold fits in Hc.
  rewrite parse_decimal_string by lia. apply Z.mod_small. lia.
Qed.

Lemma num_to_str_correct_witness :
  num_uint16_to_str 65535 = [54; 53; 53; 51; 53] ∧ parse_decimal (fst (num_uint_to_str (2 ^ 64 - 1))) = 2 ^ 64 - 1.
Proof.
  destruct (num_to_str_correct 65535 4000000000 (2 ^ 64 - 1)) as (->&_&_&d&_&_&->); [done..|].
  split; reflexivity.
Defined.

(** With a buffer of [size] characters, [uint_to_cstr] and [int_to_cstr]
    write a terminated string of the sign and the decimal digits and return
    its length, leaving the characters behind the terminator unchanged; a
    number that does not fit is cut to its last digits.  The packed variants
    use the whole buffer and write the terminator only when there is room:
    behind the text for [int_to_cstr_packed], with one more character to
    spare for [uint_to_cstr_packed].  Digits that are not cut read back as
    the number ([INT64_MIN], whose negation overflows, is excluded). *)
Theorem cstr_correct mem_copy uval val out size :
  mem_copy_law mem_copy → fits 64 uval → - 2 ^ 63 < val < 2 ^ 63 → (2 <= size <= length out)%nat →
  ∃ ud d, shown_digits uval ud ∧ shown_digits (Z.abs val) d ∧
    parse_decimal (decimal_string ud uval) = uval ∧ parse_decimal (decimal_string d (Z.abs val)) = Z.abs val ∧
    (let n := Nat.min ud (size - 1) in
     uint_to_cstr mem_copy uval (Some out) size = Done (Some (decimal_string n uval ++ 0 :: drop (n + 1) out), n)) ∧
    (let s := length (sign_text val) in
     let n := Nat.min d (size - 1 - s) in
     int_to_cstr mem_copy val (Some out) size =
       Done (Some (sign_text val ++ decimal_string n (Z.abs val) ++ 0 :: drop (s + n + 1) out), (s + n)%nat)) ∧
    (let s := length (sign_text val) in
     let n := Nat.min d (size - s) in
     int_to_cstr_packed mem_copy val (Some out) size =
       Done (Some (sign_text val ++ decimal_string n (Z.abs val) ++ packed_rest (drop s out) n (size - s)), (n + s)%nat)) ∧
    (let n := Nat.min ud size in
     uint_to_cstr_packed mem_copy uval (Some out) size =
       Done (Some (decimal_string n uval ++ packed_rest out n (size - 1)), n)).
Proof.
  intros Hm Hu Hv Hs. destruct (decimal_digits_spec uval Hu) as (ud&Eu&Hud&Hul).
  destruct (decimal_digits_spec (Z.abs val)) as (d&E&Hd&Hl); [unfold fits; lia|].
  exists ud, d. split_and!; [exact Hud|exact Hd|by apply shown_digits_parse|by apply shown_digits_parse| | | |].
  - by apply uint_to_cstr_spec.
  - by apply int_to_cstr_spec.
  - apply int_to_cstr_packed_spec; done || lia.
  - apply uint_to_cstr_packed_spec; done || lia.
Qed.

(** A copy that satisfies the law. *)
Definition demo_copy (dst : list Z) (off : nat) (src : list Z) (from n : nat) : list Z :=
  take off dst ++ take n (drop from src) ++ drop (off + n) dst.

Lemma cstr_correct_witness : ∃ d, shown_digits 1234 d ∧
  let s := length (sign_text (-1234)) in
  let n := Nat.min d (8 - 1 - s) in
  int_to_cstr demo_copy (-1234) (Some (replicate 8 1)) 8 =
    Done (Some (sign_text (-1234) ++ decimal_string n 1234 ++ 0 :: drop (s + n + 1) (replicate 8 1)), (s + n)%nat).
Proof.
  destruct (cstr_correct demo_copy 77 (-1234) (replicate 8 1) 8) as (ud&d&_&Hd&_&_&_&H&_);
    [intros ????? _ _; reflexivity|done|lia|simpl; lia|].
  exists d. exact (conj Hd H).
Defined.

(** A number of [size - 1] digits is not terminated by [uint_to_cstr_packed],
    although the terminator would fit. *)
Example uint_packed_unterminated :
  uint_to_cstr_packed demo_copy 42 (Some [1; 1; 1]) 3 = Done (Some [52; 50; 1], 2%nat) ∧
  int_to_cstr_packed demo_copy 42 (Some [1; 1; 1]) 3 = Done (Some [52; 50; 0], 2%nat).
Proof. vm_compute. done. Qed.
