(* ===== verification/Threads.v ===== *)
(** * Interleavings of threads

    Shared-memory components are modelled as functions that perform one atomic
    access of one thread.  A schedule is the list of accesses of an execution;
    what holds of every schedule holds of every interleaving.  The file holds
    the compare-and-exchange primitive, executions, and sums over the threads,
    with which the lock words are related to the threads that hold the lock. *)

From S2P Require Import Prelude.

(** [atomic_compare_exchange_weak(obj, &expected, desired)]: the result, the
    object and [expected] afterwards; [spurious] makes the weak form fail. *)
Definition compare_exchange (spurious : bool) (obj expected desired : Z) : bool * Z * Z :=
  if (obj =? expected) && negb spurious then (true, desired, expected) else (false, obj, obj).

Section executions.
Context {S E : Type} (step : E → S → option S).

(** Accesses that are not enabled are skipped. *)
Fixpoint execute (es : list E) (s : S) : S :=
  match es with
  | [] => s
  | e :: es => execute es (default s (step e s))
  end.

Lemma execute_app es es' s : execute (es ++ es') s = execute es' (execute es s).
Proof. revert s; induction es as [|e es IH]; intros s; simpl; [done|apply IH]. Qed.

(** An invariant of the steps holds throughout every execution. *)
Lemma execute_invariant (P : S → Prop) es s :
  (∀ e s s', P s → step e s = Some s' → P s') → P s → P (execute es s).
Proof.
  intros Hstep. revert s; induction es as [|e es IH]; intros s Hs; simpl; [done|].
  apply IH. destruct (step e s) as [s'|] eqn:E'; [by eapply Hstep|done].
Qed.
End executions.

Section sums.
Context {A : Type} (w : A → Z).

Fixpoint total (l : list A) : Z := match l with [] => 0 | x :: l => w x + total l end.

Lemma total_insert l i x y : l !! i = Some x → total (<[i := y]> l) = total l - w x + w y.
Proof.
  revert i; induction l as [|z l IH]; intros [|i] H; simplify_eq/=; [lia|].
  rewrite (IH _ H). lia.
Qed.

Lemma total_replicate n x : total (replicate n x) = Z.of_nat n * w x.
Proof. induction n as [|n IH]; cbn [replicate total]; [lia|]. rewrite IH. lia. Qed.

Lemma total_nonneg l : (∀ x, 0 <= w x) → 0 <= total l.
Proof. intros Hw. induction l as [|x l IH]; simpl; [done|]. specialize (Hw x). lia. Qed.

Lemma total_elem l i x : (∀ x, 0 <= w x) → l !! i = Some x → w x <= total l.
Proof.
  intros Hw. revert i; induction l as [|y l IH]; intros [|i] H; simplify_eq/=.
  - pose proof (total_nonneg l Hw). lia.
  - specialize (IH _ H). specialize (Hw y). lia.
Qed.

(** Two different threads contribute both. *)
Lemma total_two l i j x y : (∀ x, 0 <= w x) → i ≠ j → l !! i = Some x → l !! j = Some y → w x + w y <= total l.
Proof.
  intros Hw Hij Hi Hj. revert i j Hij Hi Hj; induction l as [|z l IH]; intros [|i] [|j] Hij Hi Hj; simplify_eq/=; try lia.
  - pose proof (total_elem l j y Hw Hj). lia.
  - pose proof (total_elem l i x Hw Hi). lia.
  - assert (i ≠ j) as Hij' by lia. specialize (IH _ _ Hij' Hi Hj). specialize (Hw z). lia.
Qed.

Lemma total_bound l b : (∀ x, w x <= b) → total l <= Z.of_nat (length l) * b.
Proof. intros Hw. induction l as [|x l IH]; simpl; [lia|]. specialize (Hw x). lia. Qed.
End sums.
