(* ===== verification/Spinlock.v ===== *)
(** * Spinlocks

    kernel/src/badgelib/spinlock.c.  A thread performs one atomic access of the
    lock word per step; [spurious] makes a weak compare-and-exchange fail. *)

From S2P Require Import Prelude Threads.

Definition INT_MAX : Z := 2 ^ 31 - 1.
Definition SPINLOCK_EXCL_MAGIC : Z := - INT_MAX - 1.
Definition SPINLOCK_T_INIT : Z := 0.
Definition SPINLOCK_T_INIT_SHARED : Z := 1.

(** Where a thread is: outside, in one of the loops with its local [cur],
    holding the lock, or stopped by an assertion or an overflow. *)
Inductive spin_pc :=
  | Outside
  | TakeLoad | TakeLoop (cur : Z)
  | HoldsExclusive
  | SharedAssert | SharedLoad | SharedLoop (cur : Z)
  | HoldsShared
  | Failed.

(** The next access of [spinlock_take]. *)
Definition spinlock_take (spurious : bool) (lock : Z) (p : spin_pc) : option (Z * spin_pc) :=
  match p with
  | TakeLoad => Some (lock, TakeLoop lock)
  | TakeLoop cur =>
      let cur := Z.land cur 1 in
      let next := Z.lor cur SPINLOCK_EXCL_MAGIC in
      let '(ok, lock, cur) := compare_exchange spurious lock cur next in
      Some (lock, if ok then HoldsExclusive else TakeLoop cur)
  | _ => None
  end.

Definition spinlock_release (lock : Z) : Z * spin_pc :=
  (Z.land lock 1, if lock <? 0 then Outside else Failed).

(** The next access of [spinlock_take_shared]. *)
Definition spinlock_take_shared (spurious : bool) (lock : Z) (p : spin_pc) : option (Z * spin_pc) :=
  match p with
  | SharedAssert => Some (lock, if Z.land lock 1 =? 0 then Failed else SharedLoad)
  | SharedLoad => Some (lock, SharedLoop lock)
  | SharedLoop cur =>
      let cur := if cur <? 0 then 1 else cur in
      let next := cur + 2 in
      if INT_MAX <? next then Some (lock, Failed) else
      let '(ok, lock, cur) := compare_exchange spurious lock cur next in
      Some (lock, if ok then HoldsShared else SharedLoop cur)
  | _ => None
  end.

Definition spinlock_release_shared (lock : Z) : Z * spin_pc :=
  (signed 32 (lock - 2), if 2 <=? lock then Outside else Failed).

(** A thread calls [take] or [take_shared] when it is outside, and the release
    that matches what it holds; inside a call it runs. *)
Inductive spin_action := CallTake | CallTakeShared | Continue (spurious : bool).

Definition spin_thread (a : spin_action) (lock : Z) (p : spin_pc) : option (Z * spin_pc) :=
  match p, a with
  | Outside, CallTake => Some (lock, TakeLoad)
  | Outside, CallTakeShared => Some (lock, SharedAssert)
  | HoldsExclusive, Continue _ => Some (spinlock_release lock)
  | HoldsShared, Continue _ => Some (spinlock_release_shared lock)
  | (TakeLoad | TakeLoop _), Continue spurious => spinlock_take spurious lock p
  | (SharedAssert | SharedLoad | SharedLoop _), Continue spurious => spinlock_take_shared spurious lock p
  | _, _ => None
  end.

(** The lock word and the threads. *)
Record spin_system := SpinSystem { lock_word : Z; spin_threads : list spin_pc }.

Definition spin_step (e : nat * spin_action) (s : spin_system) : option spin_system :=
  let '(i, a) := e in
  p ← spin_threads s !! i;
  '(lock, p') ← spin_thread a (lock_word s) p;
  Some (SpinSystem lock (<[i := p']> (spin_threads s))).

Definition spin_start (init : Z) (n : nat) : spin_system := SpinSystem init (replicate n Outside).

(** ** Invariant *)

Definition exclusive (p : spin_pc) : Z := match p with HoldsExclusive => 1 | _ => 0 end.
Definition sharing (p : spin_pc) : Z := match p with HoldsShared => 1 | _ => 0 end.
Definition exclusive_holders (s : spin_system) : Z := total exclusive (spin_threads s).
Definition shared_holders (s : spin_system) : Z := total sharing (spin_threads s).

(** The lock word is the initial value, plus the magic number for an exclusive
    holder and 2 for every shared one, never both. *)
Record spin_inv (init : Z) (n : nat) (s : spin_system) : Prop := {
  si_word : lock_word s = init + SPINLOCK_EXCL_MAGIC * exclusive_holders s + 2 * shared_holders s;
  si_excl : 0 <= exclusive_holders s <= 1;
  si_both : exclusive_holders s = 1 → shared_holders s = 0;
  si_shared : 0 <= shared_holders s;
  si_count : length (spin_threads s) = n;
  si_cur : ∀ i cur, spin_threads s !! i = Some (SharedLoop cur) → cur <= init + 2 * Z.of_nat n;
  si_ok : init = SPINLOCK_T_INIT_SHARED → ∀ i, spin_threads s !! i ≠ Some Failed;
}.

Lemma exclusive_nonneg p : 0 <= exclusive p.
Proof. by destruct p. Qed.
Lemma sharing_nonneg p : 0 <= sharing p.
Proof. by destruct p. Qed.
Lemma sharing_le p : sharing p <= 1.
Proof. by destruct p. Qed.

Lemma land_1_cases x : Z.land x 1 = 0 ∨ Z.land x 1 = 1.
Proof.
  assert (Z.land x 1 = x mod 2) as -> by exact (Z.land_ones x 1 ltac:(lia)).
  pose proof (Z.mod_pos_bound x 2). lia.
Qed.

Lemma lor_magic b : b = 0 ∨ b = 1 → Z.lor b SPINLOCK_EXCL_MAGIC = b + SPINLOCK_EXCL_MAGIC.
Proof. by intros [->| ->]. Qed.

Lemma release_word init : init = 0 ∨ init = 1 → Z.land (init + SPINLOCK_EXCL_MAGIC) 1 = init.
Proof. by intros [->| ->]. Qed.

(** The word of a shared lock is odd. *)
Lemma shared_word_odd lock e k :
  lock = SPINLOCK_T_INIT_SHARED + SPINLOCK_EXCL_MAGIC * e + 2 * k → Z.land lock 1 ≠ 0.
Proof.
  intros ->. unfold SPINLOCK_T_INIT_SHARED, SPINLOCK_EXCL_MAGIC, INT_MAX.
  rewrite (Z.land_ones _ 1 ltac:(lia)). change (2 ^ 1) with 2.
  replace (1 + (- (2 ^ 31 - 1) - 1) * e + 2 * k) with (1 + (- 2 ^ 30 * e + k) * 2) by lia.
  by rewrite Z.mod_add.
Qed.

Lemma start_inv init n : init = 0 ∨ init = 1 → spin_inv init n (spin_start init n).
Proof.
  intros Hi. unfold spin_start. split; unfold exclusive_holders, shared_holders; simpl;
    rewrite ?total_replicate; cbn [exclusive sharing]; rewrite ?Z.mul_0_r; try lia.
  - apply length_replicate.
  - intros i cur [? _]%lookup_replicate. done.
  - intros _ i [? _]%lookup_replicate. done.
Qed.

(** One thread moves from [p] to [p'] and the word changes accordingly. *)
Lemma spin_inv_move init n lock ps i p p' lock' :
  spin_inv init n (SpinSystem lock ps) → ps !! i = Some p →
  let e := exclusive_holders (SpinSystem lock ps) - exclusive p + exclusive p' in
  let k := shared_holders (SpinSystem lock ps) - sharing p + sharing p' in
  lock' = init + SPINLOCK_EXCL_MAGIC * e + 2 * k → 0 <= e <= 1 → (e = 1 → k = 0) →
  (∀ cur, p' = SharedLoop cur → cur <= init + 2 * Z.of_nat n) →
  (init = SPINLOCK_T_INIT_SHARED → p' ≠ Failed) →
  spin_inv init n (SpinSystem lock' (<[i := p']> ps)).
Proof.
  intros HI Hi e k Hw He Hb Hc Hf. destruct HI as [_ _ _ _ Hn Hcur Hok]. simpl in *.
  assert (Hlt : (i < length ps)%nat) by by eapply lookup_lt_Some.
  assert (Ee : exclusive_holders (SpinSystem lock' (<[i := p']> ps)) = e)
    by (unfold exclusive_holders; simpl; by rewrite (total_insert _ _ _ _ _ Hi)).
  assert (Ek : shared_holders (SpinSystem lock' (<[i := p']> ps)) = k)
    by (unfold shared_holders; simpl; by rewrite (total_insert _ _ _ _ _ Hi)).
  split; rewrite ?Ee, ?Ek; simpl; try done.
  - rewrite <-Ek. apply total_nonneg, sharing_nonneg.
  - by rewrite length_insert.
  - intros j cur Hj. destruct (decide (i = j)) as [->|]; [|rewrite list_lookup_insert_ne in Hj by done; by eapply Hcur].
    rewrite list_lookup_insert_eq in Hj by done. injection Hj as ->. by apply Hc.
  - intros Hinit j Hj. destruct (decide (i = j)) as [->|]; [|rewrite list_lookup_insert_ne in Hj by done; by eapply Hok].
    rewrite list_lookup_insert_eq in Hj by done. injection Hj as ->. by apply Hf.
Qed.

Section step.
Context (init : Z) (n : nat) (Hinit : init = 0 ∨ init = 1) (Hn : Z.of_nat n < 2 ^ 30 - 1).

(** What the word says about the holders. *)
Lemma word_bounds lock ps : spin_inv init n (SpinSystem lock ps) →
  (lock < 0 ↔ exclusive_holders (SpinSystem lock ps) = 1) ∧ lock <= init + 2 * Z.of_nat n ∧
  (exclusive_holders (SpinSystem lock ps) = 0 → lock = init + 2 * shared_holders (SpinSystem lock ps)).
Proof.
  intros [Hw He Hb Hs Hl _ _]. simpl in *.
  pose proof (total_bound sharing ps 1 sharing_le) as Hk. rewrite Hl in Hk.
  change (total sharing ps) with (shared_holders (SpinSystem lock ps)) in Hk.
  unfold SPINLOCK_EXCL_MAGIC, INT_MAX in *.
  assert (exclusive_holders (SpinSystem lock ps) = 0 ∨ exclusive_holders (SpinSystem lock ps) = 1) as [E|E] by lia.
  - rewrite E in *. lia.
  - specialize (Hb E). rewrite E, Hb in *. lia.
Qed.

Lemma spin_step_inv e s s' : spin_inv init n s → spin_step e s = Some s' → spin_inv init n s'.
Proof.
  intros HI. destruct e as [i a], s as [lock ps]. unfold spin_step. simpl.
  destruct (ps !! i) as [p|] eqn:Hi; simpl; [|done].
  destruct (spin_thread a lock p) as [[lock' p']|] eqn:E; simpl; [|done]. intros [= <-].
  destruct (word_bounds _ _ HI) as (Hneg&Hle&Hzero). pose proof HI as [Hw He Hb Hs Hlen Hcur Hok]. simpl in *.
  pose proof (total_elem exclusive ps i p exclusive_nonneg Hi) as Hpe.
  change (total exclusive ps) with (exclusive_holders (SpinSystem lock ps)) in Hpe.
  pose proof (total_elem sharing ps i p sharing_nonneg Hi) as Hps.
  change (total sharing ps) with (shared_holders (SpinSystem lock ps)) in Hps.
  set (ex := exclusive_holders (SpinSystem lock ps)) in *. set (sh := shared_holders (SpinSystem lock ps)) in *.
  assert (Hmove := spin_inv_move init n lock ps i p p' lock' HI Hi). fold ex sh in Hmove. cbv zeta in Hmove.
  destruct p, a; simplify_eq/=; try (apply Hmove; simplify_eq/=; try lia; try (intros; simplify_eq/=; lia); done).
  - (* take *) unfold compare_exchange in E.
    destruct (Z.eqb_spec lock (Z.land cur 1)) as [El|]; simpl in E; [destruct spurious|];
      simplify_eq/=; try (apply Hmove; (lia || done)).
    pose proof (land_1_cases cur) as Hc. rewrite <-El in *. rewrite lor_magic in Hmove |- * by done.
    apply Hmove; simpl; try done; try lia.
  - (* release *) assert (ex = 1) as Ex by lia. assert (sh = 0) as Es by auto.
    rewrite Ex, Es in Hw. rewrite Z.mul_1_r, Z.mul_0_r, Z.add_0_r in Hw. injection E as <- <-.
    rewrite (proj2 (Z.ltb_lt lock 0)) in * by lia. rewrite Hw, release_word in * by done.
    apply Hmove; simpl; try done; lia.
  - (* assertion *) destruct (Z.eqb_spec (Z.land lock' 1) 0) as [E0|E0].
    + apply Hmove; simpl; try done; try lia. intros ->. exact (λ _, shared_word_odd _ _ _ Hw E0).
    + apply Hmove; simpl; done || lia.
  - (* take shared *) specialize (Hcur i cur Hi). unfold INT_MAX in E.
    set (c := if cur <? 0 then 1 else cur) in *.
    assert (0 <= c <= init + 2 * Z.of_nat (length ps) ∨ c = 1) as Hc by (subst c; destruct (Z.ltb_spec cur 0); lia).
    destruct (Z.ltb_spec (2 ^ 31 - 1) (c + 2)); [exfalso; lia|]. unfold compare_exchange in E.
    destruct (Z.eqb_spec lock c) as [El|]; simpl in E; [destruct spurious|]; simplify_eq/=;
      try (apply Hmove; simpl; try done; try lia; intros; simplify_eq; lia).
  - (* release shared *) assert (ex = 0) as Ex by lia. specialize (Hzero Ex). injection E as <- <-.
    rewrite (proj2 (Z.leb_le 2 lock)) in * by lia. rewrite (signed_range 32) in * by lia.
    apply Hmove; simpl; try done; lia.
Qed.
End step.

(** ** Correctness *)

(** C32: in every interleaving of fewer than [2 ^ 30 - 1] threads on a lock of
    either kind, at most one thread holds the lock exclusively and then no
    thread shares it; on a lock made for sharing no assertion fails, and the
    lock word never overflows. *)
Theorem spinlock_mutual_exclusion init n es i j p :
  init = SPINLOCK_T_INIT ∨ init = SPINLOCK_T_INIT_SHARED → Z.of_nat n < 2 ^ 30 - 1 →
  let ps := spin_threads (execute spin_step es (spin_start init n)) in
  ps !! i = Some HoldsExclusive → i ≠ j → ps !! j = Some p →
  p ≠ HoldsExclusive ∧ p ≠ HoldsShared ∧ (init = SPINLOCK_T_INIT_SHARED → p ≠ Failed).
Proof.
  intros Hinit Hn ps Hi Hij Hj.
  pose proof (execute_invariant spin_step (spin_inv init n) es _ (spin_step_inv init n Hinit Hn)
    (start_inv init n Hinit)) as [_ He Hb _ _ _ Hok].
  fold ps in Hok. split_and!.
  - intros ->. pose proof (total_two exclusive ps i j _ _ exclusive_nonneg Hij Hi Hj) as Ht. cbn [exclusive] in Ht.
    unfold exclusive_holders in He. fold ps in He. lia.
  - intros ->. pose proof (total_elem exclusive ps i _ exclusive_nonneg Hi) as Ht. cbn [exclusive] in Ht.
    pose proof (total_elem sharing ps j _ sharing_nonneg Hj) as Hs. cbn [sharing] in Hs.
    unfold exclusive_holders, shared_holders in *. fold ps in He, Hb. lia.
  - intros Hs ->. by apply (Hok Hs j).
Qed.

Lemma spinlock_mutual_exclusion_witness :
  let es := [(0%nat, CallTake); (1%nat, CallTakeShared); (0%nat, Continue false); (1%nat, Continue false);
             (0%nat, Continue false); (1%nat, Continue false); (1%nat, Continue false)] in
  spin_threads (execute spin_step es (spin_start 1 2)) = [HoldsExclusive; SharedLoop (1 - 2 ^ 31)] ∧
  SharedLoop (1 - 2 ^ 31) ≠ HoldsShared.
Proof.
  intros es. split; [reflexivity|].
  exact (proj1 (proj2 (spinlock_mutual_exclusion 1 2 es 0 1 (SharedLoop (1 - 2 ^ 31))
    (or_intror eq_refl) ltac:(lia) eq_refl ltac:(lia) eq_refl))).
Defined.

(** A thread running alone. *)
Fixpoint solo (k : nat) (lock : Z) (p : spin_pc) : option spin_pc :=
  match k with
  | O => Some p
  | S k => '(lock', p') ← spin_thread (Continue false) lock p; solo k lock' p'
  end.

Lemma execute_solo k i lock ps p p' : ps !! i = Some p → solo k lock p = Some p' →
  spin_threads (execute spin_step (replicate k (i, Continue false)) (SpinSystem lock ps)) !! i = Some p'.
Proof.
  revert lock ps p; induction k as [|k IH]; intros lock ps p Hi; cbn [solo replicate execute]; [intros [= <-]; done|].
  destruct (spin_thread (Continue false) lock p) as [[lock1 p1]|] eqn:E; cbn [mbind option_bind]; [|done]. intros Hk.
  assert (spin_step (i, Continue false) (SpinSystem lock ps) = Some (SpinSystem lock1 (<[i := p1]> ps))) as ->.
  { unfold spin_step. simpl. rewrite Hi. simpl. by rewrite E. }
  cbn [default]. eapply IH; [|exact Hk]. apply list_lookup_insert_eq. by eapply lookup_lt_Some.
Qed.

Lemma solo_take_loop cur : ∃ k, (k <= 2)%nat ∧ solo k 1 (TakeLoop cur) = Some HoldsExclusive.
Proof.
  destruct (land_1_cases cur) as [E|E]; [exists 2%nat|exists 1%nat]; (split; [lia|]);
    cbn [solo spin_thread spinlock_take]; rewrite E; reflexivity.
Qed.

Lemma solo_shared_loop cur : cur < 2 ^ 31 - 2 → ∃ k, (k <= 2)%nat ∧ solo k 1 (SharedLoop cur) = Some HoldsShared.
Proof.
  intros Hc. destruct (Z.ltb_spec cur 0) as [Hneg|Hpos].
  { exists 1%nat. split; [lia|]. cbn [solo spin_thread spinlock_take_shared].
    rewrite (proj2 (Z.ltb_lt cur 0)) by lia. reflexivity. }
  assert (Hok : (INT_MAX <? cur + 2) = false) by (apply Z.ltb_ge; unfold INT_MAX; lia).
  exists (if cur =? 1 then 1%nat else 2%nat). split; [destruct (cur =? 1); lia|].
  destruct (Z.eqb_spec cur 1) as [->|Hne]; [reflexivity|].
  cbn [solo spin_thread spinlock_take_shared]. rewrite (proj2 (Z.ltb_ge cur 0)), Hok by lia.
  unfold compare_exchange at 1. rewrite (proj2 (Z.eqb_neq 1 cur)) by lia. reflexivity.
Qed.

(** No execution leaves the lock stuck: whenever nobody holds the lock, a
    thread that is trying to take it, exclusively or shared, gets it within
    four of its own accesses if it runs undisturbed. *)
Theorem spinlock_progress n es i p :
  Z.of_nat n < 2 ^ 30 - 1 →
  let s := execute spin_step es (spin_start SPINLOCK_T_INIT_SHARED n) in
  exclusive_holders s = 0 → shared_holders s = 0 → spin_threads s !! i = Some p →
  match p with
  | TakeLoad | TakeLoop _ => ∃ k, (k <= 4)%nat ∧
      spin_threads (execute spin_step (replicate k (i, Continue false)) s) !! i = Some HoldsExclusive
  | SharedAssert | SharedLoad | SharedLoop _ => ∃ k, (k <= 4)%nat ∧
      spin_threads (execute spin_step (replicate k (i, Continue false)) s) !! i = Some HoldsShared
  | _ => True
  end.
Proof.
  intros Hn s He Hs Hi.
  pose proof (execute_invariant spin_step (spin_inv 1 n) es _ (spin_step_inv 1 n (or_intror eq_refl) Hn)
    (start_inv 1 n (or_intror eq_refl))) as [Hw _ _ _ Hlen Hcur _].
  unfold SPINLOCK_T_INIT_SHARED in s. fold s in Hw, Hlen, Hcur. rewrite He, Hs in Hw. simpl in Hw.
  clearbody s. destruct s as [lock ps]. simpl in *. subst lock.
  assert (Hgo : ∀ k p', (k <= 4)%nat → solo k 1 p = Some p' → ∃ k, (k <= 4)%nat ∧
    spin_threads (execute spin_step (replicate k (i, Continue false)) (SpinSystem 1 ps)) !! i = Some p').
  { intros k p' Hk Hso. exists k. split; [done|]. by eapply execute_solo. }
  destruct p; try done.
  - by apply (Hgo 2%nat); [lia|].
  - destruct (solo_take_loop cur) as (k&Hk&E). apply (Hgo k); [lia|done].
  - by apply (Hgo 3%nat); [lia|].
  - by apply (Hgo 2%nat); [lia|].
  - destruct (solo_shared_loop cur) as (k&Hk&E); [specialize (Hcur _ _ Hi); lia|]. apply (Hgo k); [lia|done].
Qed.

Lemma spinlock_progress_witness :
  let s := execute spin_step [(0%nat, CallTake); (0%nat, Continue false)] (spin_start 1 1) in
  ∃ k, (k <= 4)%nat ∧
    spin_threads (execute spin_step (replicate k (0%nat, Continue false)) s) !! 0%nat = Some HoldsExclusive.
Proof.
  exact (spinlock_progress 1 [(0%nat, CallTake); (0%nat, Continue false)] 0 (TakeLoop 1)
    ltac:(lia) eq_refl eq_refl eq_refl).
Defined.
