(* ===== verification/Mutex.v ===== *)
(** * Mutexes

    kernel/src/badgelib/mutex.c: exclusive and shared acquisition with timeouts,
    threads that wait on the mutex, their notification by a release and their
    timers.  A step is one atomic access (or one access to data owned by the
    thread or protected by the spinlock of the waiting list); [spurious] makes
    a weak compare-and-exchange fail and [now] is what [time_us] returns.

    Of the scheduler the model keeps whether a thread is queued for execution
    ([thread_dequeue_self], [thread_handoff]); of the timers, the deadline of
    the pending task ([time_add_async_task], [time_cancel_async_task]).  The
    doubly linked list of badgelib is a parameter. *)

From S2P Require Import Prelude Badgelib Threads Spinlock.

Definition EXCLUSIVE_MAGIC : Z := INT_MAX / 4.
Lemma magic_value : EXCLUSIVE_MAGIC = 536870911.
Proof. reflexivity. Qed.

Definition TIMESTAMP_US_MAX : Z := 2 ^ 63 - 1.

Record mutex_t := Mutex {
  is_shared : bool;
  allow_isr : bool;
  wait_spinlock : bool;
  shares : Z;
  waiting_list : list nat;
}.

Definition mutex_init (shared isr : bool) : mutex_t := Mutex shared isr false 0 [].

(** The mutex must be completely unlocked and nobody may use its waiting list. *)
Definition mutex_destroy (m : mutex_t) : outcome badge_cause :=
  _ ← assert_or_panic (shares m =? 0);
  _ ← assert_or_panic (negb (wait_spinlock m));
  Done ECAUSE_OK.

Definition set_shares (n : Z) (m : mutex_t) : mutex_t :=
  Mutex (is_shared m) (allow_isr m) (wait_spinlock m) n (waiting_list m).
Definition set_spinlock (b : bool) (m : mutex_t) : mutex_t :=
  Mutex (is_shared m) (allow_isr m) b (shares m) (waiting_list m).
Definition set_waiting (l : list nat) (m : mutex_t) : mutex_t :=
  Mutex (is_shared m) (allow_isr m) (wait_spinlock m) (shares m) l.

(** The functions a thread can be in. *)
Inductive routine := Acquire | Release | AcquireShared | ReleaseShared.

(** Where a thread is in the mutex code; the waits carry the place where the
    loop that waits continues. *)
Inductive mutex_pc :=
  | Client
  | AssertHeld (r : routine)
  | AwaitSwap (r : routine) | AwaitTime (r : routine)
  | ThreshLoad | ThreshAdd (old_value : Z) | ThreshTime (old_value : Z)
  | SubLoad | UnequalSub (old_value : Z)
  | WaitDequeue (k : mutex_pc) | WaitBlock (k : mutex_pc) | WaitTimer (k : mutex_pc)
  | WaitLock (k : mutex_pc) | WaitAppend (k : mutex_pc) | WaitUnlock (k : mutex_pc) | WaitYield (k : mutex_pc)
  | NotifyLock | NotifyScan (nodes : list nat) | NotifyRemove (t : nat) | NotifyUnlock (o : option nat)
  | NotifyCancel (t : nat) | NotifyHandoff (t : nat)
  | Crashed.

Inductive timer_pc := TimerIdle | TimerLock | TimerRemove | TimerUnlock | TimerHandoff.

(** What the thread holds, for the specification. *)
Inductive hold := Free | Exclusive | Shared.

Record thread_t := Thread {
  t_pc : mutex_pc;
  t_held : hold;
  t_isr : bool;                              (* [from_isr] of the current call *)
  t_timeout : Z;                             (* [timeout] of the current call *)
  t_blocked : bool;                          (* [THREAD_BLOCKED] *)
  t_timer : option Z;                        (* deadline of [timer_id], if any *)
  t_queued : bool;                           (* in a scheduler queue or running *)
  t_timer_pc : timer_pc;                     (* [mutex_resume_timer] for this thread *)
  t_result : option (bool * badge_cause);    (* of the last call *)
}.

Definition set_pc p t := Thread p (t_held t) (t_isr t) (t_timeout t) (t_blocked t) (t_timer t) (t_queued t) (t_timer_pc t) (t_result t).
Definition set_held h t := Thread (t_pc t) h (t_isr t) (t_timeout t) (t_blocked t) (t_timer t) (t_queued t) (t_timer_pc t) (t_result t).
Definition set_call isr timeout t := Thread (t_pc t) (t_held t) isr timeout (t_blocked t) (t_timer t) (t_queued t) (t_timer_pc t) None.
Definition set_blocked b t := Thread (t_pc t) (t_held t) (t_isr t) (t_timeout t) b (t_timer t) (t_queued t) (t_timer_pc t) (t_result t).
Definition set_timer d t := Thread (t_pc t) (t_held t) (t_isr t) (t_timeout t) (t_blocked t) d (t_queued t) (t_timer_pc t) (t_result t).
Definition set_queued b t := Thread (t_pc t) (t_held t) (t_isr t) (t_timeout t) (t_blocked t) (t_timer t) b (t_timer_pc t) (t_result t).
Definition set_timer_pc p t := Thread (t_pc t) (t_held t) (t_isr t) (t_timeout t) (t_blocked t) (t_timer t) (t_queued t) p (t_result t).
Definition return_ b c t := Thread Client (t_held t) (t_isr t) (t_timeout t) (t_blocked t) (t_timer t) (t_queued t) (t_timer_pc t) (Some (b, c)).

(** A thread at the start, outside the mutex code. *)
Definition idle_thread : thread_t := Thread Client Free false 0 false None true TimerIdle None.

Record system := System { sys_mutex : mutex_t; sys_threads : list thread_t }.

(** ** The loops on the share count *)

Definition expected_value (r : routine) : Z := match r with Release => EXCLUSIVE_MAGIC | _ => 0 end.
Definition new_value (r : routine) : Z := match r with Release => 0 | _ => EXCLUSIVE_MAGIC end.

(** Spin in an interrupt handler, wait otherwise. *)
Definition pause_or_wait (k : mutex_pc) (t : thread_t) : thread_t :=
  set_pc (if t_isr t then k else WaitDequeue k) t.

(** [await_swap_atomic_int] and what its callers do with the result. *)
Definition await_swap_atomic_int (r : routine) (spurious : bool) (m : mutex_t) (t : thread_t) : mutex_t * thread_t :=
  let '(ok, n, _) := compare_exchange spurious (shares m) (expected_value r) (new_value r) in
  if ok then
    (set_shares n m, match r with
      | Release => set_pc NotifyLock (set_held Free t)
      | _ => return_ true ECAUSE_OK (set_held Exclusive t)
      end)
  else (m, pause_or_wait (AwaitTime r) t).

Definition await_time (r : routine) (now : Z) (t : thread_t) : thread_t :=
  if now <? t_timeout t then set_pc (AwaitSwap r) t
  else return_ false (match r with Release => ECAUSE_ILLEGAL | _ => ECAUSE_TIMEOUT end) t.

Definition thresh_add_atomic_int (old_value : Z) (spurious : bool) (m : mutex_t) (t : thread_t) : mutex_t * thread_t :=
  let new_value := old_value + 1 in
  if negb ((EXCLUSIVE_MAGIC <=? old_value) || (EXCLUSIVE_MAGIC <=? new_value)) then
    let '(ok, n, old_value) := compare_exchange spurious (shares m) old_value new_value in
    if ok then (set_shares n m, return_ true ECAUSE_OK (set_held Shared t))
    else (m, pause_or_wait (ThreshTime old_value) t)
  else (m, pause_or_wait (ThreshTime old_value) t).

Definition thresh_time (old_value now : Z) (t : thread_t) : thread_t :=
  if now <? t_timeout t then set_pc (ThreshAdd old_value) t else return_ false ECAUSE_TIMEOUT t.

Definition unequal_sub_atomic_int (old_value : Z) (spurious : bool) (m : mutex_t) (t : thread_t) : mutex_t * thread_t :=
  let new_value := old_value - 1 in
  if negb ((old_value =? 0) || (old_value =? EXCLUSIVE_MAGIC)) then
    let '(ok, n, old_value) := compare_exchange spurious (shares m) old_value new_value in
    if ok then (set_shares n m, set_pc NotifyLock (set_held Free t))
    else (m, set_pc (UnequalSub old_value) t)
  else (m, set_pc (UnequalSub old_value) t).

(** ** Entry points

    [from_isr] selects between the plain and the [_from_isr] variant. *)

(** Timeouts that are negative or too long are replaced by no timeout. *)
Definition absolute_timeout (timeout now : Z) : Z :=
  if (timeout <? 0) || (0 <=? timeout - TIMESTAMP_US_MAX + now) then TIMESTAMP_US_MAX else timeout + now.

Definition mutex_acquire_impl (from_isr : bool) (timeout now : Z) (m : mutex_t) (t : thread_t) : thread_t :=
  if from_isr && negb (allow_isr m) then set_pc Crashed t
  else set_pc (AwaitSwap Acquire) (set_call from_isr (absolute_timeout timeout now) t).

Definition mutex_release_impl (from_isr : bool) (m : mutex_t) (t : thread_t) : thread_t :=
  if from_isr && negb (allow_isr m) then set_pc Crashed t
  else set_pc (AssertHeld Release) (set_call from_isr TIMESTAMP_US_MAX t).

Definition mutex_acquire_shared_impl (from_isr : bool) (timeout now : Z) (m : mutex_t) (t : thread_t) : thread_t :=
  if is_shared m then set_pc ThreshLoad (set_call from_isr (absolute_timeout timeout now) t)
  else return_ false ECAUSE_ILLEGAL (set_call from_isr timeout t).

Definition mutex_release_shared_impl (from_isr : bool) (t : thread_t) : thread_t :=
  set_pc (AssertHeld ReleaseShared) (set_call from_isr TIMESTAMP_US_MAX t).

Definition call (r : routine) (from_isr : bool) (timeout now : Z) (m : mutex_t) (t : thread_t) : thread_t :=
  match r with
  | Acquire => mutex_acquire_impl from_isr timeout now m t
  | Release => mutex_release_impl from_isr m t
  | AcquireShared => mutex_acquire_shared_impl from_isr timeout now m t
  | ReleaseShared => mutex_release_shared_impl from_isr t
  end.

(** The assertions on the share count at the start of the releases. *)
Definition assert_held (r : routine) (m : mutex_t) (t : thread_t) : thread_t :=
  match r with
  | Release => set_pc (if EXCLUSIVE_MAGIC <=? shares m then AwaitSwap Release else Crashed) t
  | _ => set_pc (if shares m <? EXCLUSIVE_MAGIC then SubLoad else Crashed) t
  end.

(** ** Waiting and notification *)

Section waiting.
Context (dlist_append dlist_remove : list nat → nat → list nat).

(** [mutex_wait] of thread [i]; [None] while the thread is not runnable. *)
Definition mutex_wait (i : nat) (now : Z) (m : mutex_t) (t : thread_t) : option (mutex_t * thread_t) :=
  match t_pc t with
  | WaitDequeue k => Some (m, set_pc (WaitBlock k) (set_queued false t))
  | WaitBlock k => Some (m, set_pc (WaitTimer k) (set_blocked true t))
  | WaitTimer k => Some (m, set_pc (WaitLock k)
      (set_timer (if t_timeout t <? TIMESTAMP_US_MAX then Some (now + t_timeout t) else None) t))
  | WaitLock k => Some (set_spinlock true m, if wait_spinlock m then t else set_pc (WaitAppend k) t)
  | WaitAppend k => Some (set_waiting (dlist_append (waiting_list m) i) m, set_pc (WaitUnlock k) t)
  | WaitUnlock k => Some (set_spinlock false m, set_pc (WaitYield k) t)
  | WaitYield k => if t_queued t then Some (m, set_pc k t) else None
  | _ => None
  end.

(** [mutex_notify] of thread [i], which may change another thread. *)
Definition mutex_notify (i : nat) (s : system) : option system :=
  let m := sys_mutex s in
  t ← sys_threads s !! i;
  match t_pc t with
  | NotifyLock => Some (System (set_spinlock true m)
      (<[i := if wait_spinlock m then t else set_pc (NotifyScan (waiting_list m)) t]> (sys_threads s)))
  | NotifyScan [] => Some (System m (<[i := set_pc (NotifyUnlock None) t]> (sys_threads s)))
  | NotifyScan (j :: nodes) =>
      u ← sys_threads s !! j;
      let p := if t_blocked u then NotifyRemove j else NotifyScan nodes in
      Some (System m (alter (set_pc p) i (alter (set_blocked false) j (sys_threads s))))
  | NotifyRemove j => Some (System (set_waiting (dlist_remove (waiting_list m) j) m)
      (<[i := set_pc (NotifyUnlock (Some j)) t]> (sys_threads s)))
  | NotifyUnlock (Some j) => Some (System (set_spinlock false m) (<[i := set_pc (NotifyCancel j) t]> (sys_threads s)))
  | NotifyUnlock None => Some (System (set_spinlock false m) (<[i := return_ true ECAUSE_OK t]> (sys_threads s)))
  | NotifyCancel j => Some (System m (alter (set_pc (NotifyHandoff j)) i (alter (set_timer None) j (sys_threads s))))
  | NotifyHandoff j => Some (System m (alter (return_ true ECAUSE_OK) i (alter (set_queued true) j (sys_threads s))))
  | _ => None
  end.

(** [mutex_resume_timer] for thread [i], when its task is due. *)
Definition mutex_resume_timer (i : nat) (now : Z) (m : mutex_t) (t : thread_t) : option (mutex_t * thread_t) :=
  match t_timer_pc t with
  | TimerIdle =>
      d ← t_timer t;
      if d <=? now then
        Some (m, set_timer_pc (if t_blocked t then TimerLock else TimerIdle) (set_timer None (set_blocked false t)))
      else None
  | TimerLock => Some (set_spinlock true m, if wait_spinlock m then t else set_timer_pc TimerRemove t)
  | TimerRemove => Some (set_waiting (dlist_remove (waiting_list m) i) m, set_timer_pc TimerUnlock t)
  | TimerUnlock => Some (set_spinlock false m, set_timer_pc TimerHandoff t)
  | TimerHandoff => Some (m, set_timer_pc TimerIdle (set_queued true t))
  end.

(** ** Steps *)

Inductive mutex_event :=
  | Call (r : routine) (from_isr : bool) (timeout now : Z)
  | Run (spurious : bool) (now : Z)
  | Timer (now : Z).

(** Clients release what they hold, do not acquire twice, and use the mutex
    in an interrupt handler only if it allows that. *)
Definition may_call (r : routine) (from_isr : bool) (m : mutex_t) (h : hold) : bool :=
  (negb from_isr || allow_isr m) &&
  match r, h with
  | (Acquire | AcquireShared), Free | Release, Exclusive | ReleaseShared, Shared => true
  | _, _ => false
  end.

(** The next step of the code of thread [i] on its own data. *)
Definition mutex_run (i : nat) (spurious : bool) (now : Z) (m : mutex_t) (t : thread_t) : option (mutex_t * thread_t) :=
  match t_pc t with
  | AssertHeld r => Some (m, assert_held r m t)
  | AwaitSwap r => Some (await_swap_atomic_int r spurious m t)
  | AwaitTime r => Some (m, await_time r now t)
  | ThreshLoad => Some (m, set_pc (ThreshAdd (shares m)) t)
  | ThreshAdd old => Some (thresh_add_atomic_int old spurious m t)
  | ThreshTime old => Some (m, thresh_time old now t)
  | SubLoad => Some (m, set_pc (UnequalSub (shares m)) t)
  | UnequalSub old => Some (unequal_sub_atomic_int old spurious m t)
  | _ => mutex_wait i now m t
  end.

Definition mutex_step (e : nat * mutex_event) (s : system) : option system :=
  let '(i, ev) := e in
  let m := sys_mutex s in
  t ← sys_threads s !! i;
  let local o := '(m', t') ← o; Some (System m' (<[i := t']> (sys_threads s))) in
  match ev with
  | Call r isr timeout now =>
      match t_pc t with
      | Client => if may_call r isr m (t_held t) then local (Some (m, call r isr timeout now m t)) else None
      | _ => None
      end
  | Run spurious now =>
      match mutex_run i spurious now m t with
      | Some (m', t') => Some (System m' (<[i := t']> (sys_threads s)))
      | None => mutex_notify i s
      end
  | Timer now => local (mutex_resume_timer i now m t)
  end.
End waiting.

(** ** Invariant *)

Definition exclusive_share (t : thread_t) : Z := match t_held t with Exclusive => 1 | _ => 0 end.
Definition shared_share (t : thread_t) : Z := match t_held t with Shared => 1 | _ => 0 end.

(** What the thread holds while it is at a place in the code. *)
Fixpoint phase (p : mutex_pc) : option hold :=
  match p with
  | Client | Crashed => None
  | AssertHeld r => Some (match r with Release => Exclusive | _ => Shared end)
  | AwaitSwap r | AwaitTime r => Some (match r with Release => Exclusive | _ => Free end)
  | ThreshLoad | ThreshAdd _ | ThreshTime _ => Some Free
  | SubLoad | UnequalSub _ => Some Shared
  | WaitDequeue k | WaitBlock k | WaitTimer k | WaitLock k | WaitAppend k | WaitUnlock k | WaitYield k => phase k
  | NotifyLock | NotifyScan _ | NotifyRemove _ | NotifyUnlock _ | NotifyCancel _ | NotifyHandoff _ => Some Free
  end.

Definition pc_ok (t : thread_t) : Prop :=
  match phase (t_pc t) with Some h => t_held t = h | None => t_pc t = Client end.

(** At most one exclusive holder, or fewer sharers than the magic number. *)
Definition exclusion (e k : Z) : Prop := (e = 0 ∧ 0 <= k < EXCLUSIVE_MAGIC) ∨ (e = 1 ∧ k = 0).

Record mutex_inv (s : system) : Prop := {
  mi_word : shares (sys_mutex s) =
    EXCLUSIVE_MAGIC * total exclusive_share (sys_threads s) + total shared_share (sys_threads s);
  mi_exclusion : exclusion (total exclusive_share (sys_threads s)) (total shared_share (sys_threads s));
  mi_pc : Forall pc_ok (sys_threads s);
}.

Lemma exclusive_share_nonneg t : 0 <= exclusive_share t.
Proof. unfold exclusive_share. by destruct (t_held t). Qed.
Lemma shared_share_nonneg t : 0 <= shared_share t.
Proof. unfold shared_share. by destruct (t_held t). Qed.

Lemma exclusive_share_held t h : t_held t = h → exclusive_share t = match h with Exclusive => 1 | _ => 0 end.
Proof. by intros <-. Qed.
Lemma shared_share_held t h : t_held t = h → shared_share t = match h with Shared => 1 | _ => 0 end.
Proof. by intros <-. Qed.

Lemma mutex_start_inv shared isr n : mutex_inv (System (mutex_init shared isr) (replicate n idle_thread)).
Proof.
  split; simpl; rewrite ?total_replicate; cbn; rewrite ?Z.mul_0_r; try done.
  - left. done.
  - by apply Forall_replicate.
Qed.

Lemma inv_move m ts i t m' t' : mutex_inv (System m ts) → ts !! i = Some t → pc_ok t' →
  let e := total exclusive_share ts - exclusive_share t + exclusive_share t' in
  let k := total shared_share ts - shared_share t + shared_share t' in
  shares m' = EXCLUSIVE_MAGIC * e + k → exclusion e k → mutex_inv (System m' (<[i := t']> ts)).
Proof.
  intros [Hw He Hp] Hi Ht e k Hw' He'. split; simpl in *; rewrite ?(total_insert _ _ _ _ _ Hi); try done.
  by apply Forall_insert.
Qed.

(** A step that changes neither the share count nor what the thread holds. *)
Lemma inv_keep m ts i t m' t' : mutex_inv (System m ts) → ts !! i = Some t → pc_ok t' →
  t_held t' = t_held t → shares m' = shares m → mutex_inv (System m' (<[i := t']> ts)).
Proof.
  intros HI Hi Ht Hh Hs. pose proof HI as [Hw He _]. simpl in *.
  assert (exclusive_share t' = exclusive_share t) as Ee by (unfold exclusive_share; by rewrite Hh).
  assert (shared_share t' = shared_share t) as Es by (unfold shared_share; by rewrite Hh).
  eapply inv_move; [exact HI|exact Hi|exact Ht| |]; rewrite Ee, Es.
  - rewrite Hs, Hw. lia.
  - by replace (total exclusive_share ts - exclusive_share t + exclusive_share t) with (total exclusive_share ts) by lia;
      replace (total shared_share ts - shared_share t + shared_share t) with (total shared_share ts) by lia.
Qed.

Lemma alter_as_insert {A} (f : A → A) (l : list A) i x : l !! i = Some x → alter f i l = <[i := f x]> l.
Proof.
  intros Hi. apply list_eq; intros j. destruct (decide (j = i)) as [->|].
  - rewrite list_lookup_alter_eq, list_lookup_insert_eq, Hi by by eapply lookup_lt_Some. done.
  - by rewrite list_lookup_alter_ne, list_lookup_insert_ne.
Qed.

Lemma inv_alter m ts j f : mutex_inv (System m ts) →
  (∀ t, t_pc (f t) = t_pc t ∧ t_held (f t) = t_held t) → mutex_inv (System m (alter f j ts)).
Proof.
  intros HI Hf. destruct (ts !! j) as [t|] eqn:Hj.
  - assert (alter f j ts = <[j := f t]> ts) as ->.
    { by apply alter_as_insert. }
    destruct (Hf t) as [Hp Hh]. eapply inv_keep; [exact HI|exact Hj| |exact Hh|done].
    pose proof HI as [_ _ Hpc]. simpl in *. rewrite Forall_lookup in Hpc. specialize (Hpc _ _ Hj).
    unfold pc_ok in *. by rewrite Hp, Hh.
  - replace (alter f j ts) with ts; [done|]. apply list_eq; intros l. destruct (decide (l = j)) as [->|].
    + by rewrite list_lookup_alter_eq, Hj.
    + by rewrite list_lookup_alter_ne.
Qed.

(** Thread [i] moves on after changing something else of thread [j]. *)
Lemma inv_alter_both m ts i j t f g : mutex_inv (System m ts) → ts !! i = Some t →
  (∀ t, t_pc (f t) = t_pc t ∧ t_held (f t) = t_held t) →
  (∀ t1, t_held t1 = t_held t → pc_ok (g t1) ∧ t_held (g t1) = t_held t) →
  mutex_inv (System m (alter g i (alter f j ts))).
Proof.
  intros HI Hi Hf Hg. pose proof (inv_alter m ts j f HI Hf) as HI'.
  assert (∃ t1, alter f j ts !! i = Some t1 ∧ t_held t1 = t_held t) as (t1&H1&Hh).
  { destruct (decide (i = j)) as [->|].
    - exists (f t). rewrite list_lookup_alter_eq, Hi. split; [done|apply Hf].
    - exists t. by rewrite list_lookup_alter_ne. }
  rewrite (alter_as_insert _ _ _ _ H1). destruct (Hg t1 Hh) as [Hp Hh'].
  eapply inv_keep; [exact HI'|exact H1|exact Hp|congruence|done].
Qed.

Section steps.
Context (dlist_append dlist_remove : list nat → nat → list nat).

Lemma call_inv r isr timeout now m ts i t : mutex_inv (System m ts) → ts !! i = Some t →
  may_call r isr m (t_held t) = true → mutex_inv (System m (<[i := call r isr timeout now m t]> ts)).
Proof.
  intros HI Hi Hm. apply andb_prop in Hm as [Hisr Hh].
  assert (isr && negb (allow_isr m) = false) as Hno by (destruct isr, (allow_isr m); done).
  eapply inv_keep; [exact HI|exact Hi| | |done].
  - unfold call, mutex_acquire_impl, mutex_release_impl, mutex_acquire_shared_impl, mutex_release_shared_impl, pc_ok.
    destruct r, (t_held t) eqn:Eh; try done; rewrite ?Hno; try destruct (is_shared m); done.
  - unfold call, mutex_acquire_impl, mutex_release_impl, mutex_acquire_shared_impl, mutex_release_shared_impl.
    destruct r; rewrite ?Hno; try destruct (is_shared m); done.
Qed.

Lemma pc_ok_at m ts i t : mutex_inv (System m ts) → ts !! i = Some t → pc_ok t.
Proof. intros [_ _ Hp] Hi. simpl in Hp. rewrite Forall_lookup in Hp. by apply (Hp i). Qed.

Lemma pause_or_wait_ok k t h : phase k = Some h → t_held t = h → pc_ok (pause_or_wait k t).
Proof. intros Hk Hh. unfold pause_or_wait, pc_ok. destruct (t_isr t); simpl; by rewrite Hk. Qed.

(** The shares of thread [i] bound those of all. *)
Lemma inv_shares m ts i t : mutex_inv (System m ts) → ts !! i = Some t →
  exclusive_share t <= total exclusive_share ts ∧ shared_share t <= total shared_share ts ∧
  shares m = EXCLUSIVE_MAGIC * total exclusive_share ts + total shared_share ts ∧
  exclusion (total exclusive_share ts) (total shared_share ts).
Proof.
  intros [Hw He _] Hi. split_and!; try done.
  - by apply (total_elem _ _ i), Hi; apply exclusive_share_nonneg.
  - by apply (total_elem _ _ i), Hi; apply shared_share_nonneg.
Qed.

Lemma assert_held_inv r m ts i t : mutex_inv (System m ts) → ts !! i = Some t → t_pc t = AssertHeld r →
  mutex_inv (System m (<[i := assert_held r m t]> ts)).
Proof.
  intros HI Hi Epc. destruct (inv_shares _ _ _ _ HI Hi) as (Hex&Hsh&Hw&He).
  pose proof (pc_ok_at _ _ _ _ HI Hi) as Hp. unfold pc_ok in Hp. rewrite Epc in Hp. simpl in Hp.
  rewrite (exclusive_share_held _ _ Hp) in Hex. rewrite (shared_share_held _ _ Hp) in Hsh. unfold exclusion in He.
  eapply inv_keep; [exact HI|exact Hi| |by destruct r|done].
  unfold assert_held, pc_ok. destruct r; cbn in Hex, Hsh |- *;
    destruct (Z.leb_spec EXCLUSIVE_MAGIC (shares m)), (Z.ltb_spec (shares m) EXCLUSIVE_MAGIC); cbn; try exact Hp;
    exfalso; destruct He as [[Ee Hk]|[Ee Hk]]; rewrite Ee in *; lia.
Qed.

Lemma await_swap_inv r spurious m ts i t : mutex_inv (System m ts) → ts !! i = Some t → t_pc t = AwaitSwap r →
  let '(m', t') := await_swap_atomic_int r spurious m t in mutex_inv (System m' (<[i := t']> ts)).
Proof.
  intros HI Hi Epc. destruct (inv_shares _ _ _ _ HI Hi) as (Hex&Hsh&Hw&He).
  pose proof (pc_ok_at _ _ _ _ HI Hi) as Hp. unfold pc_ok in Hp. rewrite Epc in Hp. simpl in Hp.
  unfold await_swap_atomic_int, compare_exchange.
  destruct (Z.eqb_spec (shares m) (expected_value r)) as [Es|_]; [destruct spurious|]; simpl;
    try (eapply inv_keep; [exact HI|exact Hi|by eapply pause_or_wait_ok|done|done]).
  rewrite (exclusive_share_held _ _ Hp) in Hex. rewrite (shared_share_held _ _ Hp) in Hsh.
  eapply inv_move; [exact HI|exact Hi|by destruct r| |];
    rewrite (exclusive_share_held _ _ Hp), (shared_share_held _ _ Hp);
    destruct r; cbn in *; unfold exclusion in *; rewrite ?magic_value in *; lia.
Qed.

Lemma thresh_add_inv old spurious m ts i t : mutex_inv (System m ts) → ts !! i = Some t → t_pc t = ThreshAdd old →
  let '(m', t') := thresh_add_atomic_int old spurious m t in mutex_inv (System m' (<[i := t']> ts)).
Proof.
  intros HI Hi Epc. destruct (inv_shares _ _ _ _ HI Hi) as (Hex&Hsh&Hw&He).
  pose proof (pc_ok_at _ _ _ _ HI Hi) as Hp. unfold pc_ok in Hp. rewrite Epc in Hp. simpl in Hp.
  unfold thresh_add_atomic_int, compare_exchange.
  destruct (Z.leb_spec EXCLUSIVE_MAGIC old), (Z.leb_spec EXCLUSIVE_MAGIC (old + 1)); simpl;
    try (eapply inv_keep; [exact HI|exact Hi|by eapply pause_or_wait_ok|done|done]).
  destruct (Z.eqb_spec (shares m) old) as [Es|_]; [destruct spurious|]; simpl;
    try (eapply inv_keep; [exact HI|exact Hi|by eapply pause_or_wait_ok|done|done]).
  rewrite (exclusive_share_held _ _ Hp) in Hex. rewrite (shared_share_held _ _ Hp) in Hsh.
  eapply inv_move; [exact HI|exact Hi|done| |];
    rewrite (exclusive_share_held _ _ Hp), (shared_share_held _ _ Hp);
    cbn in *; unfold exclusion in *; rewrite ?magic_value in *; lia.
Qed.

Lemma unequal_sub_inv old spurious m ts i t : mutex_inv (System m ts) → ts !! i = Some t → t_pc t = UnequalSub old →
  let '(m', t') := unequal_sub_atomic_int old spurious m t in mutex_inv (System m' (<[i := t']> ts)).
Proof.
  intros HI Hi Epc. destruct (inv_shares _ _ _ _ HI Hi) as (Hex&Hsh&Hw&He).
  pose proof (pc_ok_at _ _ _ _ HI Hi) as Hp. unfold pc_ok in Hp. rewrite Epc in Hp. simpl in Hp.
  unfold unequal_sub_atomic_int, compare_exchange.
  destruct (Z.eqb_spec old 0), (Z.eqb_spec old EXCLUSIVE_MAGIC); simpl;
    try (eapply inv_keep; [exact HI|exact Hi|exact Hp|done|done]).
  destruct (Z.eqb_spec (shares m) old) as [Es|_]; [destruct spurious|]; simpl;
    try (eapply inv_keep; [exact HI|exact Hi|exact Hp|done|done]).
  rewrite (exclusive_share_held _ _ Hp) in Hex. rewrite (shared_share_held _ _ Hp) in Hsh.
  eapply inv_move; [exact HI|exact Hi|done| |];
    rewrite (exclusive_share_held _ _ Hp), (shared_share_held _ _ Hp);
    cbn in *; unfold exclusion in *; rewrite ?magic_value in *; lia.
Qed.

Lemma mutex_wait_inv i now m ts t m' t' : mutex_inv (System m ts) → ts !! i = Some t →
  mutex_wait dlist_append i now m t = Some (m', t') → mutex_inv (System m' (<[i := t']> ts)).
Proof.
  intros HI Hi. pose proof (pc_ok_at _ _ _ _ HI Hi) as Hp. unfold pc_ok in Hp. unfold mutex_wait.
  intros E. destruct (t_pc t) eqn:Epc; simpl in Hp; try discriminate E;
    try (destruct (t_queued t); [|discriminate E]); injection E as <- <-;
    (eapply inv_keep; [exact HI|exact Hi| |by try destruct (wait_spinlock m)|by try destruct (wait_spinlock m)]);
    unfold pc_ok; match type of Hp with context [phase ?k] => destruct (phase k) eqn:Ek end; try discriminate Hp;
    try destruct (wait_spinlock m); simpl; rewrite ?Epc; simpl; by rewrite Ek.
Qed.

Lemma run_inv i spurious now m ts t m' t' : mutex_inv (System m ts) → ts !! i = Some t →
  mutex_run dlist_append i spurious now m t = Some (m', t') → mutex_inv (System m' (<[i := t']> ts)).
Proof.
  intros HI Hi. pose proof (pc_ok_at _ _ _ _ HI Hi) as Hp. unfold pc_ok in Hp. unfold mutex_run.
  destruct (t_pc t) eqn:Epc; simpl in Hp; intros E;
    try (by eapply mutex_wait_inv; [exact HI|exact Hi|exact E]); injection E; clear E.
  - intros <- <-. by apply assert_held_inv.
  - intros E. pose proof (await_swap_inv r spurious m ts i t HI Hi Epc) as H. by rewrite E in H.
  - intros <- <-. eapply inv_keep; [exact HI|exact Hi| | |done]; unfold await_time, pc_ok; by destruct (_ <? _).
  - intros <- <-. by eapply inv_keep; [exact HI|exact Hi|..].
  - intros E. pose proof (thresh_add_inv old_value spurious m ts i t HI Hi Epc) as H. by rewrite E in H.
  - intros <- <-. eapply inv_keep; [exact HI|exact Hi| | |done]; unfold thresh_time, pc_ok; by destruct (_ <? _).
  - intros <- <-. by eapply inv_keep; [exact HI|exact Hi|..].
  - intros E. pose proof (unequal_sub_inv old_value spurious m ts i t HI Hi Epc) as H. by rewrite E in H.
Qed.

Lemma notify_inv i s s' : mutex_inv s → mutex_notify dlist_remove i s = Some s' → mutex_inv s'.
Proof.
  intros HI. destruct s as [m ts]. unfold mutex_notify. simpl.
  destruct (ts !! i) as [t|] eqn:Hi; simpl; [|done].
  pose proof (pc_ok_at _ _ _ _ HI Hi) as Hp. unfold pc_ok in Hp.
  destruct (t_pc t) eqn:Epc; simpl in Hp; try done.
  - intros [= <-]. eapply inv_keep; [exact HI|exact Hi| |by destruct (wait_spinlock m)|done].
    unfold pc_ok. destruct (wait_spinlock m); simpl; [by rewrite Epc|done].
  - destruct nodes as [|j nodes]; [intros [= <-]; by eapply inv_keep; [exact HI|exact Hi|..]|].
    destruct (ts !! j) as [u|]; simpl; [|done]. intros [= <-]. eapply inv_alter_both; [exact HI|exact Hi|done|].
    intros t1 H1. unfold pc_ok. simpl. destruct (t_blocked u); simpl; split; congruence.
  - intros [= <-]. by eapply inv_keep; [exact HI|exact Hi|..].
  - destruct o; intros [= <-]; by eapply inv_keep; [exact HI|exact Hi|..].
  - intros [= <-]. eapply inv_alter_both; [exact HI|exact Hi|done|]. intros t1 H1. unfold pc_ok. simpl. split; congruence.
  - intros [= <-]. eapply inv_alter_both; [exact HI|exact Hi|done|]. intros t1 H1. done.
Qed.

Lemma timer_inv i now m ts t m' t' : mutex_inv (System m ts) → ts !! i = Some t →
  mutex_resume_timer dlist_remove i now m t = Some (m', t') → mutex_inv (System m' (<[i := t']> ts)).
Proof.
  intros HI Hi. pose proof (pc_ok_at _ _ _ _ HI Hi) as Hp. unfold mutex_resume_timer. intros E.
  destruct (t_timer_pc t), (wait_spinlock m); simplify_eq/=; try (by eapply inv_keep; [exact HI|exact Hi|..]).
  all: destruct (t_timer t) as [d|]; simplify_eq/=; destruct (d <=? now); simplify_eq;
    by eapply inv_keep; [exact HI|exact Hi|..].
Qed.

Lemma mutex_step_inv e s s' : mutex_inv s → mutex_step dlist_append dlist_remove e s = Some s' → mutex_inv s'.
Proof.
  intros HI. destruct e as [i ev], s as [m ts]. unfold mutex_step. simpl.
  destruct (ts !! i) as [t|] eqn:Hi; simpl; [|done]. destruct ev as [r isr timeout now|spurious now|now].
  - destruct (t_pc t); try done. destruct (may_call r isr m (t_held t)) eqn:Em; simpl; [|done].
    intros [= <-]. by apply call_inv.
  - destruct (mutex_run dlist_append i spurious now m t) as [[m' t']|] eqn:E.
    + intros [= <-]. by eapply run_inv.
    + by apply notify_inv.
  - destruct (mutex_resume_timer dlist_remove i now m t) as [[m' t']|] eqn:E; simpl; [|done].
    intros [= <-]. by eapply timer_inv.
Qed.
End steps.

(** ** Correctness *)

Section correctness.
Context (dlist_append dlist_remove : list nat → nat → list nat) (shared isr : bool) (n : nat).

Definition mutex_execution (es : list (nat * mutex_event)) : system :=
  execute (mutex_step dlist_append dlist_remove) es (System (mutex_init shared isr) (replicate n idle_thread)).

Lemma mutex_execution_inv es : mutex_inv (mutex_execution es).
Proof. unfold mutex_execution. apply execute_invariant; [apply mutex_step_inv|apply mutex_start_inv]. Qed.

(** C13: in every interleaving of threads, interrupt handlers and timers,
    whatever the timeouts, spurious failures and order of the waiting list: a
    thread that holds the mutex exclusively is the only one that holds it in
    any way, the share count says exactly who holds it and never overflows,
    and none of the assertions of the code fails. *)
Theorem mutex_exclusion es :
  let s := mutex_execution es in
  (∀ i j t u, i ≠ j → sys_threads s !! i = Some t → sys_threads s !! j = Some u →
    t_held t = Exclusive → t_held u = Free) ∧
  shares (sys_mutex s) = EXCLUSIVE_MAGIC * total exclusive_share (sys_threads s) + total shared_share (sys_threads s) ∧
  0 <= shares (sys_mutex s) <= EXCLUSIVE_MAGIC ∧
  (∀ i t, sys_threads s !! i = Some t → t_pc t ≠ Crashed).
Proof.
  intros s. destruct (mutex_execution_inv es) as [Hw He Hp]. fold s in Hw, He, Hp.
  split_and!; [|done|unfold exclusion in He; rewrite magic_value in *; lia..|].
  - intros i j t u Hij Hi Hj Hh.
    pose proof (total_two _ _ _ _ _ _ exclusive_share_nonneg Hij Hi Hj) as He2.
    pose proof (total_elem _ _ _ _ shared_share_nonneg Hj) as Hs2. rewrite (exclusive_share_held _ _ Hh) in He2.
    unfold exclusion in He. destruct (t_held u) eqn:Hu; [done| |].
    + rewrite (exclusive_share_held _ _ Hu) in He2. lia.
    + rewrite (exclusive_share_held _ _ Hu) in He2. rewrite (shared_share_held _ _ Hu) in Hs2. lia.
  - intros i t Hi Hc. rewrite Forall_lookup in Hp. specialize (Hp _ _ Hi). unfold pc_ok in Hp. rewrite Hc in Hp. done.
Qed.

(** A thread in [thresh_add_atomic_int] whose last value of the share count
    says the mutex is taken. *)
Fixpoint stale (p : mutex_pc) : Prop :=
  match p with
  | ThreshAdd old | ThreshTime old => EXCLUSIVE_MAGIC <= old + 1
  | WaitDequeue k | WaitBlock k | WaitTimer k | WaitLock k | WaitAppend k | WaitUnlock k | WaitYield k => stale k
  | _ => False
  end.

Definition never_acquires (i : nat) (s : system) : Prop :=
  ∃ t, sys_threads s !! i = Some t ∧ t_held t = Free ∧
    (stale (t_pc t) ∨ (t_pc t = Client ∧ t_result t = Some (false, ECAUSE_TIMEOUT))).

Lemma stale_add old spurious m t : EXCLUSIVE_MAGIC <= old + 1 →
  thresh_add_atomic_int old spurious m t = (m, pause_or_wait (ThreshTime old) t).
Proof.
  intros Ho. unfold thresh_add_atomic_int. rewrite (proj2 (Z.leb_le EXCLUSIVE_MAGIC (old + 1))) by done.
  by rewrite orb_true_r.
Qed.

(** The steps of the thread itself. *)
Lemma stale_run i spurious now m t m' t' : t_held t = Free → stale (t_pc t) →
  mutex_run dlist_append i spurious now m t = Some (m', t') →
  t_held t' = Free ∧ (stale (t_pc t') ∨ (t_pc t' = Client ∧ t_result t' = Some (false, ECAUSE_TIMEOUT))).
Proof.
  intros Hh Hs. unfold mutex_run, mutex_wait. destruct (t_pc t) eqn:Epc; simpl in Hs; try done; intros E.
  - rewrite stale_add in E by done. injection E as <- <-. unfold pause_or_wait. by destruct (t_isr t); simpl; eauto.
  - injection E as <- <-. unfold thresh_time. destruct (now <? t_timeout t); simpl; eauto.
  - injection E as <- <-. simpl. eauto.
  - injection E as <- <-. simpl. eauto.
  - injection E as <- <-. simpl. eauto.
  - injection E as <- <-. destruct (wait_spinlock m); simpl; rewrite ?Epc; eauto.
  - injection E as <- <-. simpl. eauto.
  - injection E as <- <-. simpl. eauto.
  - destruct (t_queued t); [|done]. injection E as <- <-. simpl. eauto.
Qed.

Lemma never_alter i j f m ts : never_acquires i (System m ts) →
  (∀ t, t_pc (f t) = t_pc t ∧ t_held (f t) = t_held t ∧ t_result (f t) = t_result t) →
  ∀ m', never_acquires i (System m' (alter f j ts)).
Proof.
  intros (t&Hi&Hh&Hc) Hf m'. simpl in Hi. unfold never_acquires; simpl. destruct (decide (i = j)) as [->|].
  - exists (f t). destruct (Hf t) as (->&->&->). by rewrite list_lookup_alter_eq, Hi.
  - exists t. by rewrite list_lookup_alter_ne.
Qed.

(** Steps that change only other threads, or other fields. *)
Lemma never_insert i j u u' m m' ts : never_acquires i (System m ts) → ts !! j = Some u →
  (i = j → t_pc u' = t_pc u ∧ t_held u' = t_held u ∧ t_result u' = t_result u) →
  never_acquires i (System m' (<[j := u']> ts)).
Proof.
  intros (t&Hi&Hh&Hc) Hj Hsame. simpl in Hi. destruct (decide (i = j)) as [->|Hne].
  - simplify_eq. destruct (Hsame eq_refl) as (Hp&Hh'&Hr). exists u'. simpl.
    rewrite list_lookup_insert_eq by by eapply lookup_lt_Some. by rewrite Hp, Hh', Hr.
  - exists t. simpl. by rewrite list_lookup_insert_ne.
Qed.

Lemma never_notify i j s s' : never_acquires i s → mutex_notify dlist_remove j s = Some s' → never_acquires i s'.
Proof.
  intros HN. destruct s as [m ts]. unfold mutex_notify. simpl.
  destruct (ts !! j) as [u|] eqn:Hj; simpl; [|done].
  assert (Hij : t_pc u ≠ NotifyLock → i ≠ j ∨ phase (t_pc u) ≠ Some Free ∨ stale (t_pc u)) by
    (intros _; destruct (decide (i = j)) as [->|]; [|by left]; destruct HN as (t&Ht&_&[Hs|[Hc _]]); simplify_eq/=;
     [by right; right|right; left; by rewrite Hc]).
  assert (Hne : t_pc u = NotifyLock → i ≠ j).
  { intros E ->. destruct HN as (t&Ht&_&[Hs|[Hc _]]); simplify_eq/=; [by rewrite E in Hs|congruence]. }
  assert (Hins : i ≠ j → ∀ m' u', never_acquires i (System m' (<[j := u']> ts))).
  { intros Hd m' u'. by eapply never_insert; [exact HN|exact Hj|]. }
  assert (Hbase : ∀ f k, (∀ t, t_pc (f t) = t_pc t ∧ t_held (f t) = t_held t ∧ t_result (f t) = t_result t) →
    i ≠ j → ∀ g m', never_acquires i (System m' (alter g j (alter f k ts)))).
  { intros f k Hf Hd g m'. destruct (never_alter i k f m ts HN Hf m') as (t&Ht&Hc). exists t. simpl in *.
    by rewrite list_lookup_alter_ne by done. }
  destruct (t_pc u) as [| | | | | | | | | | | | | | | | |nodes| |o| | |] eqn:Epc; try done.
  all: assert (Hd : i ≠ j) by (first [by apply Hne|destruct Hij as [?|[?|?]]; try done]).
  - intros [= <-]. by apply Hins.
  - destruct nodes as [|k nodes]; [intros [= <-]; by apply Hins|].
    destruct (ts !! k); simpl; [|done]. intros [= <-]. by apply Hbase.
  - intros [= <-]. by apply Hins.
  - destruct o; intros [= <-]; by apply Hins.
  - intros [= <-]. by apply Hbase.
  - intros [= <-]. by apply Hbase.
Qed.

Lemma never_timer i j now m ts u m' u' : never_acquires i (System m ts) → ts !! j = Some u →
  mutex_resume_timer dlist_remove j now m u = Some (m', u') → never_acquires i (System m' (<[j := u']> ts)).
Proof.
  intros HN Hj E. eapply never_insert; [exact HN|exact Hj|]. intros _. unfold mutex_resume_timer in E.
  destruct (t_timer_pc u), (wait_spinlock m); simplify_eq/=; try done;
    destruct (t_timer u) as [d|]; simplify_eq/=; destruct (d <=? now); simplify_eq; done.
Qed.

Definition calls (i : nat) (e : nat * mutex_event) : bool :=
  match e with (j, Call _ _ _ _) => bool_decide (i = j) | _ => false end.

Lemma never_step i e s s' : calls i e = false → never_acquires i s →
  mutex_step dlist_append dlist_remove e s = Some s' → never_acquires i s'.
Proof.
  intros Hcall HN. destruct e as [j ev], s as [m ts]. unfold mutex_step. simpl.
  destruct (ts !! j) as [u|] eqn:Hj; simpl; [|done]. destruct ev as [r b timeout now|spurious now|now]; simpl in Hcall.
  - apply bool_decide_eq_false in Hcall. destruct (t_pc u); try done.
    destruct (may_call r b m (t_held u)); simpl; [|done]. intros [= <-]. by eapply never_insert; [exact HN|exact Hj|].
  - destruct (mutex_run dlist_append j spurious now m u) as [[m' u']|] eqn:E; [|by apply never_notify].
    intros [= <-]. destruct (decide (i = j)) as [->|]; [|by eapply never_insert; [exact HN|exact Hj|]].
    destruct HN as (t&Ht&Hh&Hc). simpl in Ht. assert (t = u) as -> by congruence.
    assert (Hs : stale (t_pc u)).
    { destruct Hc as [Hs|[Hc _]]; [done|]. unfold mutex_run, mutex_wait in E. by rewrite Hc in E. }
    exists u'. simpl. rewrite list_lookup_insert_eq by by eapply lookup_lt_Some.
    split; [done|]. by eapply stale_run.
  - destruct (mutex_resume_timer dlist_remove j now m u) as [[m' u']|] eqn:E; simpl; [|done].
    intros [= <-]. by eapply never_timer.
Qed.

(** A shared acquisition that once sees the mutex taken exclusively cannot
    succeed: the loop keeps the value it has seen, so whatever happens
    afterwards, also when the mutex is released, the call waits or returns
    [false] with a timeout, and the thread holds nothing. *)
Theorem shared_acquire_stale es i s :
  never_acquires i s → forallb (λ e, negb (calls i e)) es = true →
  never_acquires i (execute (mutex_step dlist_append dlist_remove) es s).
Proof.
  revert s; induction es as [|e es IH]; intros s HN Hes; cbn [execute forallb] in *; [done|].
  apply andb_prop in Hes as [He Hes]. apply negb_true_iff in He. apply IH; [|done].
  destruct (mutex_step dlist_append dlist_remove e s) as [s'|] eqn:E; simpl; [by eapply never_step|done].
Qed.
End correctness.

(** A waiting list that satisfies the expectations of the code. *)
Definition demo_append (l : list nat) (i : nat) : list nat := l ++ [i].
Definition demo_remove (l : list nat) (i : nat) : list nat := filter (λ j, j ≠ i) l.

Definition run (i k : nat) : list (nat * mutex_event) := replicate k (i, Run false 0).

(** Thread 1 looks at the mutex while thread 0 holds it; thread 0 releases it. *)
Definition stale_schedule : list (nat * mutex_event) :=
  [(0%nat, Call Acquire false (-1) 0)] ++ run 0 1 ++ [(1%nat, Call AcquireShared false (-1) 0)] ++ run 1 1 ++
  [(0%nat, Call Release false 0 0)] ++ run 0 5.

Lemma shared_acquire_stale_witness :
  shares (sys_mutex (mutex_execution demo_append demo_remove true false 2 stale_schedule)) = 0 ∧
  never_acquires 1 (execute (mutex_step demo_append demo_remove) (run 1 20)
    (mutex_execution demo_append demo_remove true false 2 stale_schedule)).
Proof.
  split; [vm_compute; reflexivity|].
  apply shared_acquire_stale; [|reflexivity].
  eexists. split; [vm_compute; reflexivity|]. split; [reflexivity|]. left. vm_compute. discriminate.
Defined.

(** Thread 1 fails to take the mutex, thread 0 releases it and finds nobody
    waiting, then thread 1 goes to sleep. *)
Definition lost_wakeup_schedule : list (nat * mutex_event) :=
  [(0%nat, Call Acquire false (-1) 0)] ++ run 0 1 ++ [(1%nat, Call Acquire false (-1) 0)] ++ run 1 1 ++
  [(0%nat, Call Release false 0 0)] ++ run 0 5 ++ run 1 6.

(** A wake-up can be lost: there is an execution after which the mutex is
    free, the only other thread is outside the mutex code, and the thread that
    called [mutex_acquire] without a timeout sleeps in the waiting list with no
    step of its own and no timer to wake it. *)
Theorem mutex_lost_wakeup :
  let s := mutex_execution demo_append demo_remove true false 2 lost_wakeup_schedule in
  shares (sys_mutex s) = 0 ∧ waiting_list (sys_mutex s) = [1%nat] ∧
  (t_pc <$> sys_threads s) = [Client; WaitYield (AwaitTime Acquire)] ∧
  (∀ spurious now, mutex_step demo_append demo_remove (1%nat, Run spurious now) s = None) ∧
  (∀ now, mutex_step demo_append demo_remove (1%nat, Timer now) s = None).
Proof. split_and!; [vm_compute; reflexivity..|intros; vm_compute; reflexivity|intros; vm_compute; reflexivity]. Qed.
