(* ===== verification/Blockdev.v ===== *)
(** * Block devices

    kernel/src/blockdevice/blockdevice.c: the block cache in front of a device
    driver.  Drivers are the class [BlockDriver], the virtual function table
    and the uncached [_raw] operations that the headers declare; row [i] of
    [block_cache] is the part of the cache memory at [i * block_size].  Results
    are the error cause and the new state; [time_us] is an argument of the
    functions that read the clock. *)

From S2P Require Import Prelude Badgelib.

Definition BLKDEV_WRITE_CACHE_TIMEOUT : Z := 1000000.
Definition BLKDEV_READ_CACHE_TIMEOUT : Z := 1000000.

(** Flags and auxiliary data of a cache entry. *)
Record blkdev_flags := BlkdevFlags {
  update_time : Z;
  index : Z;
  present : bool;
  erase : bool;
  dirty : bool;
}.

Record blkdev_cache := BlkdevCache {
  block_cache : list (list Z);
  block_flags : list blkdev_flags;
}.

(** A driver with state [D].  The block size is the one of the device
    descriptor the driver is called with; reading returns the buffer it has
    written to. *)
Class BlockDriver (D : Type) := {
  vt_open : D → badge_cause * D;
  vt_close : D → badge_cause * D;
  vt_is_erased : Z → D → badge_cause * bool;
  vt_erase : Z → D → badge_cause * D;
  vt_write : nat → Z → list Z → D → badge_cause * D;
  vt_read : nat → Z → list Z → D → badge_cause * list Z;
  vt_write_partial : nat → Z → nat → list Z → nat → D → badge_cause * D;
  vt_read_partial : nat → Z → nat → list Z → nat → D → badge_cause * list Z;
  blkdev_write_raw : nat → Z → list Z → D → badge_cause * D;
  blkdev_read_raw : nat → Z → list Z → D → badge_cause * list Z;
  blkdev_erase_raw : Z → D → badge_cause * D;
}.

Record blkdev (D : Type) := Blkdev {
  block_size : nat;
  blocks : Z;
  readonly : bool;
  cache_read : bool;
  cache : option blkdev_cache;
  cookie : D;
}.
Arguments Blkdev {D}.
Arguments block_size {D}.
Arguments blocks {D}.
Arguments readonly {D}.
Arguments cache_read {D}.
Arguments cache {D}.
Arguments cookie {D}.

Definition blkdev_is_dirty (f : blkdev_flags) : bool := present f && (erase f || dirty f).

Section blkdev.
Context `{!BadgeStrings} `{!BlockDriver D}.
Implicit Types dev : blkdev D.

Definition set_cache (c : option blkdev_cache) dev : blkdev D :=
  Blkdev (block_size dev) (blocks dev) (readonly dev) (cache_read dev) c (cookie dev).
Definition set_cookie (d : D) dev : blkdev D :=
  Blkdev (block_size dev) (blocks dev) (readonly dev) (cache_read dev) (cache dev) d.

(** Stores to [flags[i]] and to the row [i]. *)
Definition put_flags (i : nat) (f : blkdev_flags) (c : blkdev_cache) : blkdev_cache :=
  BlkdevCache (block_cache c) (<[i := f]> (block_flags c)).
Definition put_row (i : nat) (row : list Z) (c : blkdev_cache) : blkdev_cache :=
  BlkdevCache (<[i := row]> (block_cache c)) (block_flags c).

(** The dirty flags are cleared before the operation. *)
Definition blkdev_flush_cache (now : Z) (i : nat) dev : outcome (badge_cause * blkdev D) :=
  c ← deref (cache dev);
  f ← deref (block_flags c !! i);
  row ← deref (block_cache c !! i);
  let clean p t := BlkdevFlags t (index f) p false false in
  if dirty f then
    let c := put_flags i (clean (cache_read dev) (if cache_read dev then now else update_time f)) c in
    let '(e, d) := blkdev_write_raw (block_size dev) (index f) row (cookie dev) in
    Done (e, set_cookie d (set_cache (Some c) dev))
  else if erase f then
    let c := put_flags i (clean false (update_time f)) c in
    let '(e, d) := blkdev_erase_raw (index f) (cookie dev) in
    Done (e, set_cookie d (set_cache (Some c) dev))
  else Done (ECAUSE_OK, set_cache (Some (put_flags i (clean (present f) (update_time f)) c)) dev).

(** The entry of the block, else the last vacant or the oldest read entry. *)
Fixpoint alloc_scan (i : nat) (fs : list blkdev_flags) (block oldest_read_time : Z) (oldest_read_index : option nat)
    : option nat :=
  match fs with
  | [] => oldest_read_index
  | f :: fs =>
      if present f && (index f =? block) then Some i
      else if negb (present f) then alloc_scan (S i) fs block 0 (Some i)
      else if negb (blkdev_is_dirty f) && (update_time f <? oldest_read_time) then
        alloc_scan (S i) fs block (update_time f) (Some i)
      else alloc_scan (S i) fs block oldest_read_time oldest_read_index
  end.

Definition blkdev_alloc_cache (now block : Z) dev : option nat :=
  match cache dev with
  | None => None
  | Some c => alloc_scan 0 (block_flags c) block (now - BLKDEV_READ_CACHE_TIMEOUT) None
  end.

Fixpoint find_scan (i : nat) (fs : list blkdev_flags) (block : Z) : option nat :=
  match fs with
  | [] => None
  | f :: fs => if present f && (index f =? block) then Some i else find_scan (S i) fs block
  end.

Definition blkdev_find_cache (block : Z) dev : option nat :=
  match cache dev with
  | None => None
  | Some c => find_scan 0 (block_flags c) block
  end.

(** Read-modify-write; [tmp] is the memory malloc returns. *)
Definition blkdev_write_partial_fallback (tmp : option (list Z)) (block : Z) (subblock_offset : nat)
    (writebuf : list Z) (writebuf_len : nat) dev : badge_cause * blkdev D :=
  match tmp with
  | None => (ECAUSE_NOMEM, dev)
  | Some tmp =>
      let '(e, tmp) := blkdev_read_raw (block_size dev) block tmp (cookie dev) in
      if negb (is_ok e) then (e, dev) else
      let tmp := mem_copy tmp subblock_offset writebuf 0 writebuf_len in
      let '(e, d) := blkdev_write_raw (block_size dev) block tmp (cookie dev) in
      (e, set_cookie d dev)
  end.

Definition blkdev_read_partial_fallback (tmp : option (list Z)) (block : Z) (subblock_offset : nat)
    (readbuf : list Z) (readbuf_len : nat) dev : badge_cause * list Z :=
  match tmp with
  | None => (ECAUSE_NOMEM, readbuf)
  | Some tmp =>
      let '(e, tmp) := blkdev_read_raw (block_size dev) block tmp (cookie dev) in
      if negb (is_ok e) then (e, readbuf) else
      (e, mem_copy readbuf 0 tmp subblock_offset readbuf_len)
  end.

(** ** Operations

    A null device is [None]; the operations return the new device. *)

Definition blkdev_open (dev : option (blkdev D)) : badge_cause * option (blkdev D) :=
  match dev with
  | None => (ECAUSE_PARAM, None)
  | Some dev => let '(e, d) := vt_open (cookie dev) in (e, Some (set_cookie d dev))
  end.

Definition blkdev_close (dev : option (blkdev D)) : badge_cause * option (blkdev D) :=
  match dev with
  | None => (ECAUSE_PARAM, None)
  | Some dev => let '(e, d) := vt_close (cookie dev) in (e, Some (set_cookie d dev))
  end.

Definition blkdev_get_size dev : Z := blocks dev.
Definition blkdev_get_block_size dev : nat := block_size dev.
Definition blkdev_is_readonly dev : bool := readonly dev.

Definition blkdev_is_erased (block : Z) (dev : option (blkdev D)) : outcome (badge_cause * bool) :=
  match dev with
  | None => Done (ECAUSE_PARAM, true)
  | Some dev =>
      if readonly dev then Done (ECAUSE_READONLY, true) else
      if blocks dev <=? block then Done (ECAUSE_RANGE, true) else
      match blkdev_find_cache block dev with
      | Some i =>
          c ← deref (cache dev);
          f ← deref (block_flags c !! i);
          Done (ECAUSE_OK, erase f)
      | None => Done (vt_is_erased block (cookie dev))
      end
  end.

(** The checks shared by the operations that change the device. *)
Definition checked (block : Z) (dev : option (blkdev D)) (f : blkdev D → outcome (badge_cause * blkdev D))
    : outcome (badge_cause * option (blkdev D)) :=
  match dev with
  | None => Done (ECAUSE_PARAM, None)
  | Some dev =>
      if readonly dev then Done (ECAUSE_READONLY, Some dev) else
      if blocks dev <=? block then Done (ECAUSE_RANGE, Some dev) else
      '(e, dev) ← f dev; Done (e, Some dev)
  end.

Definition blkdev_erase (now now' block : Z) (dev : option (blkdev D)) : outcome (badge_cause * option (blkdev D)) :=
  checked block dev (λ dev,
    c ← deref (cache dev);
    match blkdev_alloc_cache now block dev with
    | Some i =>
        f ← deref (block_flags c !! i);
        let f' := if present f then BlkdevFlags (update_time f) (index f) true true false
                  else BlkdevFlags now' block true false true in
        Done (ECAUSE_OK, set_cache (Some (put_flags i f' c)) dev)
    | None => let '(e, d) := vt_erase block (cookie dev) in Done (e, set_cookie d dev)
    end).

(** Marking the entry as written. *)
Definition write_flags (now block : Z) (f : blkdev_flags) : blkdev_flags :=
  if present f then BlkdevFlags (update_time f) (index f) true false true
  else BlkdevFlags now block true false true.

Definition blkdev_write (now now' block : Z) (writebuf : list Z) (dev : option (blkdev D))
    : outcome (badge_cause * option (blkdev D)) :=
  checked block dev (λ dev,
    c ← deref (cache dev);
    match blkdev_alloc_cache now block dev with
    | Some i =>
        f ← deref (block_flags c !! i);
        row ← deref (block_cache c !! i);
        let c := put_flags i (write_flags now' block f) c in
        let c := put_row i (mem_copy row 0 writebuf 0 (block_size dev)) c in
        Done (ECAUSE_OK, set_cache (Some c) dev)
    | None => let '(e, d) := vt_write (block_size dev) block writebuf (cookie dev) in Done (e, set_cookie d dev)
    end).

(** What the two reads share: [part row] is what is copied out of a row. *)
Definition read_through (now now' block : Z) (erased : list Z → list Z) (part : list Z → list Z → list Z)
    (uncached : list Z → D → badge_cause * list Z) (readbuf : list Z) dev
    : outcome (badge_cause * list Z * blkdev D) :=
  c ← deref (cache dev);
  match blkdev_alloc_cache now block dev with
  | Some i =>
      f ← deref (block_flags c !! i);
      row ← deref (block_cache c !! i);
      if present f then
        if erase f then Done (ECAUSE_OK, erased readbuf, dev)
        else
          let c := if dirty f then c else put_flags i (BlkdevFlags now' (index f) true (erase f) (dirty f)) c in
          Done (ECAUSE_OK, part readbuf row, set_cache (Some c) dev)
      else if cache_read dev then
        let '(e, row) := vt_read (block_size dev) block row (cookie dev) in
        let c := put_flags i (BlkdevFlags now' block true false false) (put_row i row c) in
        Done (e, if is_ok e then part readbuf row else readbuf, set_cache (Some c) dev)
      else let '(e, readbuf) := uncached readbuf (cookie dev) in Done (e, readbuf, dev)
  | None => let '(e, readbuf) := uncached readbuf (cookie dev) in Done (e, readbuf, dev)
  end.

Definition blkdev_read (now now' block : Z) (readbuf : list Z) (dev : option (blkdev D))
    : outcome (badge_cause * list Z * option (blkdev D)) :=
  match dev with
  | None => Done (ECAUSE_PARAM, readbuf, None)
  | Some dev =>
      if blocks dev <=? block then Done (ECAUSE_RANGE, readbuf, Some dev) else
      '(e, buf, dev) ← read_through now now' block (λ buf, mem_set buf 0 255 (block_size dev))
        (λ buf row, mem_copy buf 0 row 0 (block_size dev)) (vt_read (block_size dev) block) readbuf dev;
      Done (e, buf, Some dev)
  end.

(** [subblock_offset] and the length against the block size. *)
Definition partial_range (subblock_offset len : nat) dev : bool :=
  ((block_size dev <=? subblock_offset) || (block_size dev <? len) || (block_size dev <? subblock_offset + len))%nat.

Definition blkdev_write_partial (now now' block : Z) (subblock_offset : nat) (writebuf : list Z) (writebuf_len : nat)
    (dev : option (blkdev D)) : outcome (badge_cause * option (blkdev D)) :=
  checked block dev (λ dev,
    if partial_range subblock_offset writebuf_len dev then Done (ECAUSE_RANGE, dev) else
    if (writebuf_len =? 0)%nat then Done (ECAUSE_OK, dev) else
    c ← deref (cache dev);
    match blkdev_alloc_cache now block dev with
    | Some i =>
        f ← deref (block_flags c !! i);
        row ← deref (block_cache c !! i);
        let c := put_flags i (write_flags now' block f) c in
        let c := put_row i (mem_copy row subblock_offset writebuf 0 writebuf_len) c in
        Done (ECAUSE_OK, set_cache (Some c) dev)
    | None =>
        let '(e, d) := vt_write_partial (block_size dev) block subblock_offset writebuf writebuf_len (cookie dev) in
        Done (e, set_cookie d dev)
    end).

Definition blkdev_read_partial (now now' block : Z) (subblock_offset : nat) (readbuf : list Z) (readbuf_len : nat)
    (dev : option (blkdev D)) : outcome (badge_cause * list Z * option (blkdev D)) :=
  match dev with
  | None => Done (ECAUSE_PARAM, readbuf, None)
  | Some dev =>
      if blocks dev <=? block then Done (ECAUSE_RANGE, readbuf, Some dev) else
      if partial_range subblock_offset readbuf_len dev then Done (ECAUSE_RANGE, readbuf, Some dev) else
      if (readbuf_len =? 0)%nat then Done (ECAUSE_OK, readbuf, Some dev) else
      '(e, buf, dev) ← read_through now now' block (λ buf, mem_set buf 0 255 (block_size dev))
        (λ buf row, mem_copy buf 0 row subblock_offset readbuf_len)
        (λ buf, vt_read_partial (block_size dev) block subblock_offset buf readbuf_len) readbuf dev;
      Done (e, buf, Some dev)
  end.

(** ** Flushing *)

(** The loop of [blkdev_flush]: the first dirty entry is flushed, then the
    function returns ([ec] is never null there). *)
Fixpoint flush_loop (now : Z) (k i : nat) (ec : badge_cause) dev : outcome (badge_cause * blkdev D) :=
  match k with
  | O => Done (ec, dev)
  | S k =>
      c ← deref (cache dev);
      f ← deref (block_flags c !! i);
      if present f && (dirty f || erase f) then blkdev_flush_cache now i dev
      else flush_loop now k (S i) ec dev
  end.

Definition blkdev_flush (now : Z) (ec : badge_cause) (dev : option (blkdev D))
    : outcome (badge_cause * option (blkdev D)) :=
  match dev with
  | None => Done (ECAUSE_PARAM, None)
  | Some dev =>
      if readonly dev then Done (ECAUSE_READONLY, Some dev) else
      c ← deref (cache dev);
      '(e, dev) ← flush_loop now (length (block_flags c)) 0 ec dev;
      Done (e, Some dev)
  end.

Fixpoint housekeeping_loop (now timeout : Z) (k i : nat) (ec : badge_cause) dev : outcome (badge_cause * blkdev D) :=
  match k with
  | O => Done (ec, dev)
  | S k =>
      c ← deref (cache dev);
      f ← deref (block_flags c !! i);
      if blkdev_is_dirty f && (update_time f <? timeout) then
        '(e, dev) ← blkdev_flush_cache now i dev;
        if is_ok e then housekeeping_loop now timeout k (S i) e dev else Done (e, dev)
      else housekeeping_loop now timeout k (S i) ec dev
  end.

Definition blkdev_housekeeping (now : Z) (ec : badge_cause) (dev : option (blkdev D))
    : outcome (badge_cause * option (blkdev D)) :=
  match dev with
  | None => Done (ECAUSE_PARAM, None)
  | Some dev =>
      c ← deref (cache dev);
      '(e, dev) ← housekeeping_loop now (now - BLKDEV_WRITE_CACHE_TIMEOUT) (length (block_flags c)) 0 ec dev;
      Done (e, Some dev)
  end.

(** ** Caches *)

Definition zero_flags : blkdev_flags := BlkdevFlags 0 0 false false false.

Definition set_cache_read (b : bool) dev : blkdev D :=
  Blkdev (block_size dev) (blocks dev) (readonly dev) b (cache dev) (cookie dev).

(** [m_info], [rows] and [m_flags] are the results of the three allocations;
    [rows] has the contents of the memory that becomes the cache. *)
Definition blkdev_create_cache (now : Z) (m_info : bool) (rows : option (list (list Z))) (m_flags : bool)
    (ec : badge_cause) (cache_depth : nat) (cache_reads : bool) (dev : option (blkdev D))
    : outcome (badge_cause * option (blkdev D)) :=
  match dev with
  | None => Done (ECAUSE_PARAM, None)
  | Some dev =>
      if readonly dev && negb (cache_read dev) then Done (ECAUSE_READONLY, Some dev) else
      let allocate dev :=
        if negb m_info then (ECAUSE_NOMEM, set_cache None dev) else
        let dev := set_cache_read cache_reads dev in
        match rows with
        | None => (ECAUSE_NOMEM, set_cache None dev)
        | Some rows =>
            if negb m_flags then (ECAUSE_NOMEM, set_cache None dev)
            else (ECAUSE_OK, set_cache (Some (BlkdevCache rows (replicate cache_depth zero_flags))) dev)
        end in
      match cache dev with
      | Some _ =>
          '(e, odev) ← blkdev_flush now ec (Some dev);
          dev ← deref odev;
          if negb (is_ok e) then Done (e, Some dev)
          else let '(e, dev) := allocate dev in Done (e, Some dev)
      | None => let '(e, dev) := allocate dev in Done (e, Some dev)
      end
  end.

Definition blkdev_delete_cache (now : Z) (ec : badge_cause) (dev : option (blkdev D))
    : outcome (badge_cause * option (blkdev D)) :=
  match dev with
  | None => Done (ECAUSE_PARAM, None)
  | Some dev =>
      match cache dev with
      | Some _ =>
          '(e, odev) ← blkdev_flush now ec (Some dev);
          dev ← deref odev;
          if negb (is_ok e) then Done (e, Some dev) else Done (ECAUSE_OK, Some (set_cache None dev))
      | None => Done (ECAUSE_OK, Some dev)
      end
  end.

(** ** Construction *)

(** [ok] says whether calloc returned memory. *)
Definition blkdev_impl_create (ok : bool) (d : D) : badge_cause * option (blkdev D) :=
  if ok then (ECAUSE_OK, Some (Blkdev 0 0 false false None d)) else (ECAUSE_NOMEM, None).

Definition blkdev_impl_get_cookie dev : D := cookie dev.
Definition blkdev_impl_set_readonly (b : bool) dev : blkdev D :=
  Blkdev (block_size dev) (blocks dev) b (cache_read dev) (cache dev) (cookie dev).
Definition blkdev_impl_set_size (n : Z) dev : blkdev D :=
  Blkdev (block_size dev) n (readonly dev) (cache_read dev) (cache dev) (cookie dev).
Definition blkdev_impl_set_block_size (n : nat) dev : blkdev D :=
  Blkdev n (blocks dev) (readonly dev) (cache_read dev) (cache dev) (cookie dev).
End blkdev.
