(* ===== verification/BlkdevRam.v ===== *)
(** * RAM block devices

    kernel/src/blockdevice/blkdev_ram.c: a driver whose cookie is a memory
    area.  The file also states what the block layer expects of a driver, and
    proves that this driver provides it. *)

From S2P Require Import Prelude Badgelib Blockdev.

(** ** The driver *)

Section ram.
Context `{!BadgeStrings}.

(** The memory at [ram_addr]. *)
Abbreviation ram := (list Z).

Definition blkdev_ram_nop (d : ram) : badge_cause * ram := (ECAUSE_OK, d).
Definition blkdev_ram_is_erased (block : Z) (d : ram) : badge_cause * bool := (ECAUSE_OK, true).
Definition blkdev_ram_erase (block : Z) (d : ram) : badge_cause * ram := (ECAUSE_OK, d).

Definition blkdev_ram_write (block_size : nat) (block : Z) (writebuf : list Z) (d : ram) : badge_cause * ram :=
  (ECAUSE_OK, mem_copy d (Z.to_nat block * block_size) writebuf 0 block_size).

Definition blkdev_ram_read (block_size : nat) (block : Z) (readbuf : list Z) (d : ram) : badge_cause * list Z :=
  (ECAUSE_OK, mem_copy readbuf 0 d (Z.to_nat block * block_size) block_size).

Definition blkdev_ram_write_partial (block_size : nat) (block : Z) (subblock_offset : nat) (writebuf : list Z)
    (writebuf_len : nat) (d : ram) : badge_cause * ram :=
  (ECAUSE_OK, mem_copy d (Z.to_nat block * block_size + subblock_offset) writebuf 0 writebuf_len).

Definition blkdev_ram_read_partial (block_size : nat) (block : Z) (subblock_offset : nat) (readbuf : list Z)
    (readbuf_len : nat) (d : ram) : badge_cause * list Z :=
  (ECAUSE_OK, mem_copy readbuf 0 d (Z.to_nat block * block_size + subblock_offset) readbuf_len).

(** The table; the uncached operations go to the driver directly. *)
Definition blkdev_ram_vtable : BlockDriver ram := {|
  vt_open := blkdev_ram_nop;
  vt_close := blkdev_ram_nop;
  vt_is_erased := blkdev_ram_is_erased;
  vt_erase := blkdev_ram_erase;
  vt_write := blkdev_ram_write;
  vt_read := blkdev_ram_read;
  vt_write_partial := blkdev_ram_write_partial;
  vt_read_partial := blkdev_ram_read_partial;
  blkdev_write_raw := blkdev_ram_write;
  blkdev_read_raw := blkdev_ram_read;
  blkdev_erase_raw := blkdev_ram_erase;
|}.

Definition blkdev_ram_create (ok : bool) (memory : ram) (block_count : Z) (block_size : nat) (ro : bool)
    : badge_cause * option (blkdev ram) :=
  let '(e, handle) := blkdev_impl_create ok memory in
  match handle with
  | None => (e, None)
  | Some handle =>
      let handle := blkdev_impl_set_block_size block_size handle in
      let handle := blkdev_impl_set_size block_count handle in
      (e, Some (blkdev_impl_set_readonly ro handle))
  end.
End ram.

(** ** What the block layer relies on

    A driver for [n] blocks of [bs] bytes stores blocks: a successful write
    changes exactly the written block, a failed one none, and a successful
    read returns the block. *)

Class BlockDriverSpec (D : Type) `{!BlockDriver D} (bs : nat) (n : Z) := {
  driver_inv : D → Prop;
  content : D → Z → list Z;
  content_length d b : driver_inv d → 0 <= b < n → length (content d b) = bs;
  vt_write_spec b buf d e d' : driver_inv d → 0 <= b < n → length buf = bs → vt_write bs b buf d = (e, d') →
    driver_inv d' ∧ ∀ b', 0 <= b' < n → content d' b' = if is_ok e && (b' =? b) then buf else content d b';
  vt_read_spec b buf d e buf' : driver_inv d → 0 <= b < n → length buf = bs → vt_read bs b buf d = (e, buf') →
    length buf' = bs ∧ (is_ok e → buf' = content d b);
  vt_read_partial_spec b off buf len d e buf' : driver_inv d → 0 <= b < n → (off + len <= bs)%nat → length buf = len →
    vt_read_partial bs b off buf len d = (e, buf') →
    length buf' = len ∧ (is_ok e → buf' = take len (drop off (content d b)));
  write_raw_spec b buf d e d' : driver_inv d → 0 <= b < n → length buf = bs → blkdev_write_raw bs b buf d = (e, d') →
    driver_inv d' ∧ ∀ b', 0 <= b' < n → content d' b' = if is_ok e && (b' =? b) then buf else content d b';
  read_raw_spec b buf d e buf' : driver_inv d → 0 <= b < n → length buf = bs → blkdev_read_raw bs b buf d = (e, buf') →
    length buf' = bs ∧ (is_ok e → buf' = content d b);
}.

(** ** The RAM driver provides it *)

Section ram_spec.
Context `{BadgeStringsSpec} (bs : nat) (n : Z).

Definition ram_content (d : list Z) (b : Z) : list Z := take bs (drop (Z.to_nat b * bs) d).

Lemma ram_block_bounds (d : list Z) b : length d = (Z.to_nat n * bs)%nat → 0 <= b < n →
  (Z.to_nat b * bs + bs <= length d)%nat.
Proof. intros -> Hb. assert (Z.to_nat b + 1 <= Z.to_nat n)%nat by lia. nia. Qed.

Lemma ram_content_length d b : length d = (Z.to_nat n * bs)%nat → 0 <= b < n → length (ram_content d b) = bs.
Proof.
  intros Hd Hb. pose proof (ram_block_bounds d b Hd Hb). unfold ram_content. rewrite length_take, length_drop. lia.
Qed.

Lemma ram_write_spec b buf d e d' : length d = (Z.to_nat n * bs)%nat → 0 <= b < n → length buf = bs →
  blkdev_ram_write bs b buf d = (e, d') →
  length d' = (Z.to_nat n * bs)%nat ∧
  ∀ b', 0 <= b' < n → ram_content d' b' = if is_ok e && (b' =? b) then buf else ram_content d b'.
Proof.
  intros Hd Hb Hbuf [= <- <-]. pose proof (ram_block_bounds d b Hd Hb) as Hbb.
  split; [by rewrite mem_copy_length by lia|]. intros b' Hb'. cbn [is_ok andb].
  pose proof (ram_block_bounds d b' Hd Hb') as Hbb'. unfold ram_content. rewrite mem_copy_spec by lia.
  rewrite drop_0, (take_ge buf) by lia. set (k := (Z.to_nat b * bs)%nat) in *. set (k' := (Z.to_nat b' * bs)%nat) in *.
  destruct (Z.eqb_spec b' b) as [->|Hne].
  - rewrite drop_app_length' by (rewrite length_take; lia). by rewrite take_app_length' by done.
  - assert (k' + bs <= k ∨ k + bs <= k')%nat as [Hlt|Hgt].
    { subst k k'. assert (Z.to_nat b' + 1 <= Z.to_nat b ∨ Z.to_nat b + 1 <= Z.to_nat b')%nat as [?|?] by lia; [left|right]; nia. }
    + rewrite drop_app_le, take_app_le by (rewrite ?length_drop, ?length_take; lia).
      rewrite skipn_firstn_comm, take_take. f_equal. lia.
    + rewrite app_assoc, drop_app_ge by (rewrite length_app, length_take; lia). rewrite length_app, length_take, drop_drop.
      do 2 f_equal. lia.
Qed.

Lemma ram_read_spec b buf d e buf' : length d = (Z.to_nat n * bs)%nat → 0 <= b < n → length buf = bs →
  blkdev_ram_read bs b buf d = (e, buf') → length buf' = bs ∧ (is_ok e → buf' = ram_content d b).
Proof.
  intros Hd Hb Hbuf [= <- <-]. pose proof (ram_block_bounds d b Hd Hb) as Hbb.
  split; [by rewrite mem_copy_length by lia|]. intros _. rewrite mem_copy_spec by lia.
  rewrite (drop_ge buf) by lia. rewrite app_nil_r. done.
Qed.

Lemma ram_read_partial_spec b off buf len d e buf' : length d = (Z.to_nat n * bs)%nat → 0 <= b < n →
  (off + len <= bs)%nat → length buf = len → blkdev_ram_read_partial bs b off buf len d = (e, buf') →
  length buf' = len ∧ (is_ok e → buf' = take len (drop off (ram_content d b))).
Proof.
  intros Hd Hb Hr Hbuf [= <- <-]. pose proof (ram_block_bounds d b Hd Hb) as Hbb.
  split; [by rewrite mem_copy_length by lia|]. intros _. rewrite mem_copy_spec by lia.
  rewrite (drop_ge buf), app_nil_r by lia. unfold ram_content.
  rewrite skipn_firstn_comm, take_take, drop_drop. simpl. f_equal. lia.
Qed.

Definition ram_driver_spec : @BlockDriverSpec (list Z) blkdev_ram_vtable bs n :=
  @Build_BlockDriverSpec (list Z) blkdev_ram_vtable bs n (λ d, length d = (Z.to_nat n * bs)%nat) ram_content
    ram_content_length ram_write_spec ram_read_spec ram_read_partial_spec ram_write_spec ram_read_spec.
End ram_spec.
