(* ===== verification/BlockdevCorrect.v ===== *)
(** * Correctness of the block cache

    The device with its cache implements an array of blocks, its [view]: the
    cached contents of a block if there is an entry for it, else what the
    driver stores.  An entry that is marked for erasure stands for a block of
    ones. *)

From S2P Require Import Prelude Badgelib Blockdev BlkdevRam.

Section correct.
Context `{!BadgeStrings} `{!BadgeStringsSpec} `{!BlockDriver D} (bs : nat) (n : Z) `{!BlockDriverSpec D bs n}.
Implicit Types (c : blkdev_cache) (f : blkdev_flags) (dev : blkdev D).

(** ** Invariant and view *)

(** Rows have the block size, a block has at most one entry, entries are for
    blocks of the device, and times are not negative. *)
Record cache_ok c : Prop := {
  co_length : length (block_flags c) = length (block_cache c);
  co_rows : ∀ i row, block_cache c !! i = Some row → length row = bs;
  co_unique : ∀ i j f g, block_flags c !! i = Some f → block_flags c !! j = Some g →
    present f = true → present g = true → index f = index g → i = j;
  co_range : ∀ i f, block_flags c !! i = Some f → present f = true → 0 <= index f < n;
  co_time : ∀ i f, block_flags c !! i = Some f → present f = true → 0 <= update_time f;
}.

Record dev_ok dev c : Prop := {
  do_size : block_size dev = bs;
  do_blocks : blocks dev = n;
  do_cache : cache dev = Some c;
  do_driver : driver_inv (cookie dev);
  do_cache_ok : cache_ok c;
}.

(** What an entry stands for. *)
Definition entry_content f (row : list Z) : list Z := if erase f then replicate bs 255 else row.

(** No entry is marked for erasure. *)
Definition no_erase c : Prop := ∀ i f, block_flags c !! i = Some f → present f = true → erase f = false.

(** The contents of block [b]. *)
Definition view dev (b : Z) : list Z :=
  match cache dev with
  | None => content (cookie dev) b
  | Some c =>
      match find_scan 0 (block_flags c) b with
      | Some i => match block_flags c !! i, block_cache c !! i with Some f, Some row => entry_content f row | _, _ => [] end
      | None => content (cookie dev) b
      end
  end.

Definition no_entry c (b : Z) : Prop := ∀ i f, block_flags c !! i = Some f → present f = true → index f ≠ b.

Lemma find_scan_spec k fs b :
  match find_scan k fs b with
  | Some j => ∃ i f, j = (k + i)%nat ∧ fs !! i = Some f ∧ present f = true ∧ index f = b
  | None => ∀ i f, fs !! i = Some f → present f = true → index f ≠ b
  end.
Proof.
  revert k; induction fs as [|f fs IH]; intros k; cbn [find_scan]; [done|].
  destruct (present f) eqn:Ep; [destruct (Z.eqb_spec (index f) b) as [E|E]|]; cbn [andb].
  - exists 0%nat, f. split_and!; done || lia.
  - specialize (IH (S k)). destruct (find_scan (S k) fs b) as [j|].
    + destruct IH as (i&g&->&?&?&?). exists (S i), g. split_and!; done || lia.
    + intros [|i] g Hg; simplify_eq/=; [done|by apply (IH i g)].
  - specialize (IH (S k)). destruct (find_scan (S k) fs b) as [j|].
    + destruct IH as (i&g&->&?&?&?). exists (S i), g. split_and!; done || lia.
    + intros [|i] g Hg; simplify_eq/=; [congruence|by apply (IH i g)].
Qed.

Lemma view_cached dev c b i f row : cache dev = Some c → cache_ok c → block_flags c !! i = Some f →
  present f = true → index f = b → block_cache c !! i = Some row → view dev b = entry_content f row.
Proof.
  intros Hc HC Hf Hp Hb Hr. unfold view. rewrite Hc. pose proof (find_scan_spec 0 (block_flags c) b) as Hs.
  destruct (find_scan 0 (block_flags c) b) as [j|]; [|by destruct (Hs i f Hf Hp)].
  destruct Hs as (j'&g&->&Hg&Hgp&Hgb). simpl. assert (j' = i) as ->.
  { eapply (co_unique c HC); [exact Hg|exact Hf|done|done|congruence]. }
  by rewrite Hf, Hr.
Qed.

Lemma view_uncached dev c b : cache dev = Some c → no_entry c b → view dev b = content (cookie dev) b.
Proof.
  intros Hc Hn. unfold view. rewrite Hc. pose proof (find_scan_spec 0 (block_flags c) b) as Hs.
  destruct (find_scan 0 (block_flags c) b) as [j|]; [|done].
  destruct Hs as (i&f&_&Hf&Hp&Hb). by destruct (Hn i f Hf Hp).
Qed.

(** Every block is cached or not. *)
Lemma entry_or_not c b : cache_ok c →
  (∃ i f row, block_flags c !! i = Some f ∧ present f = true ∧ index f = b ∧ block_cache c !! i = Some row) ∨ no_entry c b.
Proof.
  intros HC. pose proof (find_scan_spec 0 (block_flags c) b) as Hs.
  destruct (find_scan 0 (block_flags c) b) as [j|]; [left|by right].
  destruct Hs as (i&f&_&Hf&Hp&Hb). destruct (block_cache c !! i) as [row|] eqn:Hr; [by exists i, f, row|].
  apply lookup_ge_None in Hr. apply lookup_lt_Some in Hf as Hlt. rewrite (co_length c HC) in Hlt. lia.
Qed.

(** ** Finding an entry *)

(** An entry that holds a block for reading and has expired. *)
Definition stale (now : Z) f : Prop := present f = true ∧ blkdev_is_dirty f = false ∧ update_time f < now - BLKDEV_READ_CACHE_TIMEOUT.

(** No entry is vacant. *)
Definition full (fs : list blkdev_flags) : Prop := ∀ i f, fs !! i = Some f → present f = true.
Definition lacks (fs : list blkdev_flags) (b : Z) : Prop := ∀ i f, fs !! i = Some f → present f = true → index f ≠ b.

Lemma lookup_snoc {A} (l : list A) x i y : (l ++ [x]) !! i = Some y → l !! i = Some y ∨ (i = length l ∧ y = x).
Proof.
  intros Hi. destruct (decide (i < length l)%nat) as [Hlt|Hge]; [rewrite lookup_app_l in Hi by done; by left|]. right.
  pose proof (lookup_lt_Some _ _ _ Hi) as Hl. rewrite length_app in Hl. simpl in Hl. assert (i = length l) as -> by lia.
  rewrite list_lookup_middle in Hi by done. by simplify_eq.
Qed.

(** What the scan has found in the entries [pre]. *)
Definition scanned (now b : Z) (pre : list blkdev_flags) (t : Z) (o : option nat) : Prop :=
  lacks pre b ∧
  match o with
  | None => full pre ∧ t = now - BLKDEV_READ_CACHE_TIMEOUT
  | Some i => ∃ f, pre !! i = Some f ∧ ((present f = false ∧ t = 0) ∨ (stale now f ∧ full pre ∧ t < now - BLKDEV_READ_CACHE_TIMEOUT))
  end.

Lemma alloc_scan_spec now b fs : ∀ pre t o, scanned now b pre t o → (∀ i f, fs !! i = Some f → present f = true → 0 <= update_time f) →
  match alloc_scan (length pre) fs b t o with
  | Some j => ∃ f, (pre ++ fs) !! j = Some f ∧
      ((present f = true ∧ index f = b) ∨ (lacks (pre ++ fs) b ∧ (present f = false ∨ (stale now f ∧ full (pre ++ fs)))))
  | None => lacks (pre ++ fs) b
  end.
Proof.
  induction fs as [|f fs IH]; intros pre t o Hsc Ht; cbn [alloc_scan].
  { rewrite app_nil_r. destruct Hsc as [Hl Ho]. destruct o as [i|]; [|done]. destruct Ho as (g&Hg&Ho). exists g. split; [done|]. right. naive_solver. }
  assert (Hnext : ∀ t' o', scanned now b (pre ++ [f]) t' o' → match alloc_scan (S (length pre)) fs b t' o' with
    | Some j => ∃ f0, (pre ++ f :: fs) !! j = Some f0 ∧ ((present f0 = true ∧ index f0 = b) ∨ (lacks (pre ++ f :: fs) b ∧ (present f0 = false ∨ (stale now f0 ∧ full (pre ++ f :: fs)))))
    | None => lacks (pre ++ f :: fs) b end).
  { intros t' o' Hsc'. replace (S (length pre)) with (length (pre ++ [f])) by (rewrite length_app; simpl; lia).
    replace (pre ++ f :: fs) with ((pre ++ [f]) ++ fs) by (by rewrite <-app_assoc). apply IH; [done|]. intros i g Hg. by apply (Ht (S i) g). }
  destruct Hsc as [Hl Ho]. destruct (present f && (index f =? b)) eqn:Ehit.
  { exists f. rewrite list_lookup_middle by done. split; [done|]. left. apply andb_prop in Ehit as [? ?%Z.eqb_eq]. done. }
  assert (Hl' : lacks (pre ++ [f]) b).
  { intros i g [Hg|[-> ->]]%lookup_snoc Hp; [by eapply Hl|]. rewrite Hp in Ehit. by apply Z.eqb_neq. }
  destruct (present f) eqn:Ep; cbn [negb].
  - assert (Hf' : full pre → full (pre ++ [f])) by (intros Hfull i g [Hg|[-> ->]]%lookup_snoc; [by eapply Hfull|done]).
    assert (Hold : scanned now b (pre ++ [f]) t o).
    { split; [done|]. destruct o as [i|]; [|naive_solver]. destruct Ho as (g&Hg&Ho). exists g. split; [by apply lookup_app_l_Some|]. naive_solver. }
    destruct (negb (blkdev_is_dirty f) && (update_time f <? t)) eqn:Eold; [|by apply Hnext].
    apply andb_prop in Eold as [Ed%negb_true_iff Et%Z.ltb_lt]. apply Hnext. split; [done|]. exists f. rewrite list_lookup_middle by done. split; [done|].
    pose proof (Ht 0%nat f eq_refl Ep) as Hpos. destruct o as [i|].
    + destruct Ho as (g&Hg&[[_ ->]|(Hs&Hfull&Hlt)]); [lia|]. right. unfold stale. split_and!; [done|done|lia|by apply Hf'|lia].
    + destruct Ho as [Hfull ->]. right. unfold stale. split_and!; [done|done|lia|by apply Hf'|lia].
  - apply Hnext. split; [done|]. exists f. rewrite list_lookup_middle by done. split; [done|]. by left.
Qed.

(** The block [b] is not cached, there is no vacant entry, and a read entry of
    the block [t] has expired. *)
Definition evicts (now : Z) c (b t : Z) : Prop :=
  no_entry c b ∧ full (block_flags c) ∧ ∃ i f, block_flags c !! i = Some f ∧ stale now f ∧ index f = t.

(** The entry that the operations use: one of the block [t], which is [b] or was
    chosen for replacement, or a vacant one. *)
Lemma alloc_cache_spec now b dev c : dev_ok dev c →
  match blkdev_alloc_cache now b dev with
  | Some i => ∃ f row t, block_flags c !! i = Some f ∧ block_cache c !! i = Some row ∧
      ((present f = true ∧ index f = t) ∨ (present f = false ∧ no_entry c b ∧ t = b)) ∧ (t = b ∨ evicts now c b t)
  | None => no_entry c b
  end.
Proof.
  intros [_ _ Hc _ HC]. unfold blkdev_alloc_cache. rewrite Hc.
  pose proof (alloc_scan_spec now b (block_flags c) [] (now - BLKDEV_READ_CACHE_TIMEOUT) None) as Hs. cbn [app length] in Hs.
  specialize (Hs ltac:(split; [by intros i|split; [by intros i|done]]) (co_time c HC)). destruct (alloc_scan _ _ _ _ _) as [j|]; [|done].
  destruct Hs as (f&Hf&Hs). assert (∃ row, block_cache c !! j = Some row) as [row Hr].
  { apply lookup_lt_Some in Hf as Hlt. rewrite (co_length c HC) in Hlt. by apply lookup_lt_is_Some_2. }
  destruct Hs as [[Hp Hb]|[Hno [Hp|[Hst Hfull]]]].
  - exists f, row, b. split_and!; auto.
  - exists f, row, b. split_and!; auto.
  - exists f, row, (index f). split_and!; [done|done|left; split; [apply Hst|done]|]. right. split_and!; [done|done|]. by exists j, f.
Qed.

(** ** Updating an entry *)

Lemma put_lookup c i f j g : block_flags (put_flags i f c) !! j = Some g →
  (j = i ∧ g = f ∧ (i < length (block_flags c))%nat) ∨ (j ≠ i ∧ block_flags c !! j = Some g).
Proof.
  simpl. destruct (decide (j = i)) as [->|Hne]; [|rewrite list_lookup_insert_ne by done; by right].
  intros Hj. left. destruct (decide (i < length (block_flags c))%nat).
  - rewrite list_lookup_insert_eq in Hj by done. by simplify_eq.
  - rewrite list_insert_ge in Hj by lia. apply lookup_lt_Some in Hj. lia.
Qed.

(** The entry [i] becomes a present entry with index [b] and contents [buf]. *)
Lemma store_entry dev c i f row f' buf b : dev_ok dev c → block_flags c !! i = Some f → block_cache c !! i = Some row →
  (present f = true ∧ index f = b) ∨ (present f = false ∧ no_entry c b) → 0 <= b < n →
  present f' = true → index f' = b → erase f' = false → 0 <= update_time f' → length buf = bs →
  let c' := put_row i buf (put_flags i f' c) in
  dev_ok (set_cache (Some c') dev) c' ∧
  ∀ b', view (set_cache (Some c') dev) b' = if b' =? b then buf else view dev b'.
Proof.
  intros HD Hf Hr Hfit Hb Hp' Hi' He' Ht' Hbuf c'. pose proof HD as [Hbs Hn Hc Hd HC].
  assert (Hother : ∀ j g, j ≠ i → block_flags c !! j = Some g → present g = true → index g ≠ b).
  { intros j g Hj Hg Hgp Hgb. destruct Hfit as [[Hp Hi]|[Hp Hno]]; [|by destruct (Hno j g)].
    apply Hj. eapply (co_unique c HC); [exact Hg|exact Hf|done|done|congruence]. }
  assert (Hflags : block_flags c' = block_flags (put_flags i f' c)) by done.
  assert (Hlt : (i < length (block_cache c))%nat) by by eapply lookup_lt_Some.
  assert (Hltf : (i < length (block_flags c))%nat) by by eapply lookup_lt_Some.
  assert (HC' : cache_ok c').
  { split; rewrite ?Hflags.
    - simpl. rewrite !length_insert. apply HC.
    - intros j r. simpl. destruct (decide (j = i)) as [->|]; [rewrite list_lookup_insert_eq by done; by intros [= <-]|].
      rewrite list_lookup_insert_ne by done. apply HC.
    - intros j k g h [(->&->&_)|[Hj Hg]]%put_lookup [(->&->&_)|[Hk Hh]]%put_lookup Hgp Hhp Hgh; [done|..].
      + destruct (Hother k h Hk Hh Hhp). congruence.
      + destruct (Hother j g Hj Hg Hgp). congruence.
      + by eapply (co_unique c HC).
    - intros j g [(->&->&_)|[Hj Hg]]%put_lookup Hgp; [by rewrite Hi'|by eapply (co_range c HC)].
    - intros j g [(->&->&_)|[Hj Hg]]%put_lookup Hgp; [done|by eapply (co_time c HC)]. }
  split; [by split|]. intros b'. destruct (Z.eqb_spec b' b) as [->|Hne].
  - rewrite (view_cached (set_cache (Some c') dev) c' b i f' buf); try done; [unfold entry_content; by rewrite He'|simpl; by rewrite list_lookup_insert_eq..].
  - destruct (entry_or_not c b' HC) as [(j&g&r&Hg&Hgp&Hgb&Hgr)|Hno].
    + assert (j ≠ i) as Hji.
      { intros ->. destruct Hfit as [[_ Hi]|[Hp _]]; congruence. }
      rewrite (view_cached dev c b' j g r) by done.
      eapply (view_cached _ c' b' j g); try done; simpl; by rewrite list_lookup_insert_ne.
    + rewrite (view_uncached dev c b') by done. apply (view_uncached (set_cache (Some c') dev) c'); [done|].
      intros j g [(->&->&_)|[Hj Hg]]%put_lookup Hgp; [congruence|by eapply Hno].
Qed.

(** Changing the driver state only. *)
Lemma view_driver dev c d : dev_ok dev c → driver_inv d →
  dev_ok (set_cookie d dev) c ∧
  ∀ b', (¬ no_entry c b' ∧ view (set_cookie d dev) b' = view dev b') ∨
    (no_entry c b' ∧ view dev b' = content (cookie dev) b' ∧ view (set_cookie d dev) b' = content d b').
Proof.
  intros HD Hd. pose proof HD as [Hbs Hn Hc _ HC]. split; [by split|]. intros b'.
  destruct (entry_or_not c b' HC) as [(j&g&r&Hg&Hgp&Hgb&Hgr)|Hno].
  - left. split; [intros Hno; by apply (Hno j g)|].
    rewrite (view_cached dev c b' j g r) by done. by apply (view_cached _ c b' j g).
  - right. split; [done|]. rewrite (view_uncached dev c b') by done. split; [done|].
    by apply (view_uncached (set_cookie d dev) c).
Qed.

(** ** Writing and reading *)

(** The block that a write changes, or a read returns. *)
Lemma write_spec now now' b buf dev c : dev_ok dev c → readonly dev = false → 0 <= b < n → 0 <= now' → length buf = bs →
  ∃ t e dev' c', blkdev_write now now' b buf (Some dev) = Done (e, Some dev') ∧ dev_ok dev' c' ∧ (t = b ∨ evicts now c b t) ∧
    (∀ b', 0 <= b' < n → view dev' b' = if is_ok e && (b' =? t) then buf else view dev b') ∧
    ∀ i g, block_flags c' !! i = Some g → blkdev_is_dirty g = false → block_flags c !! i = Some g.
Proof.
  intros HD Hro Hb Hnow Hbuf. pose proof HD as [Hbs Hn Hc Hd HC].
  unfold blkdev_write, checked. rewrite Hro, Hn, (proj2 (Z.leb_gt n b)), Hc by lia. cbn [deref mbind outcome_bind].
  pose proof (alloc_cache_spec now b dev c HD) as Hs. destruct (blkdev_alloc_cache now b dev) as [i|].
  - destruct Hs as (f&row&t&Hf&Hr&Hfit&Ht). rewrite Hf, Hr. cbn [deref mbind outcome_bind].
    rewrite mem_copy_all by (rewrite ?Hbs; first [done|by eapply (co_rows c HC)]).
    assert (Htr : 0 <= t < n) by (destruct Hfit as [[Hp <-]|(_&_&->)]; [by eapply (co_range c HC)|done]).
    assert (Hfit' : (present f = true ∧ index f = t) ∨ (present f = false ∧ no_entry c t)) by (destruct Hfit as [?|(?&?&->)]; auto).
    destruct (store_entry dev c i f row (write_flags now' b f) buf t HD Hf Hr Hfit' Htr) as [HD' Hv];
      [unfold write_flags; destruct (present f) eqn:?; simpl; try done..|done|].
    { destruct Hfit as [[_ Hi]|[Hp _]]; [done|congruence]. }
    { by destruct Hfit as [[Hp _]|(_&_&->)]. }
    { by eapply (co_time c HC). }
    exists t. eexists _, _, _. split_and!; [reflexivity|exact HD'|done|intros b' _; rewrite Hv; done|].
    intros j g [(->&->&_)|[_ Hg]]%put_lookup Hgd; [|done]. unfold write_flags in Hgd. by destruct (present f).
  - rewrite Hbs. destruct (vt_write bs b buf (cookie dev)) as [e d] eqn:E.
    destruct (vt_write_spec b buf (cookie dev) e d Hd Hb Hbuf E) as [Hd' Hcont].
    destruct (view_driver dev c d HD Hd') as [HD' Hv]. exists b. eexists _, _, _. split_and!; [reflexivity|exact HD'|by left| |done].
    intros b' Hb'. destruct (Hv b') as [[Hex ->]|(Hno'&->&->)]; [|by rewrite Hcont].
    destruct (Z.eqb_spec b' b) as [->|]; [done|by rewrite andb_false_r].
Qed.

(** C7: a successful [blkdev_write] changes exactly one block and a failed one
    none, whether the data go to the cache or to the driver, and the invariant of
    the cache is kept.  The block that changes is the one asked for, unless that
    block is not cached, no entry is vacant and a read entry has expired: then the
    entry that is chosen for replacement keeps its index, and the data go to the
    block [t] of that entry instead.  A write makes no entry clean. *)
Theorem blkdev_write_correct now now' b buf dev c : dev_ok dev c → readonly dev = false → 0 <= b < n → 0 <= now' → length buf = bs →
  ∃ t e dev' c', blkdev_write now now' b buf (Some dev) = Done (e, Some dev') ∧ dev_ok dev' c' ∧ (t = b ∨ evicts now c b t) ∧
    (∀ b', 0 <= b' < n → view dev' b' = if is_ok e && (b' =? t) then buf else view dev b') ∧
    ∀ i g, block_flags c' !! i = Some g → blkdev_is_dirty g = false → block_flags c !! i = Some g.
Proof. apply write_spec. Qed.

(** Whatever [part] of the block is read. *)
Lemma read_through_correct now now' b erased part uncached (want : list Z → list Z) buf dev c :
  dev_ok dev c → 0 <= b < n → 0 <= now' →
  (no_erase c ∨ erased buf = want (replicate bs 255)) →
  (∀ row, length row = bs → part buf row = want row) →
  (∀ e buf', uncached buf (cookie dev) = (e, buf') → is_ok e → buf' = want (content (cookie dev) b)) →
  ∃ t e buf' dev' c', read_through now now' b erased part uncached buf dev = Done (e, buf', dev') ∧ dev_ok dev' c' ∧ (t = b ∨ evicts now c b t) ∧
    (is_ok e → buf' = want (view dev t) ∧ ∀ b', 0 <= b' < n → view dev' b' = view dev b').
Proof.
  intros HD Hb Hnow Herased Hpart Hun. pose proof HD as [Hbs Hn Hc Hd HC]. unfold read_through. rewrite Hc. cbn [deref mbind outcome_bind].
  pose proof (alloc_cache_spec now b dev c HD) as Hs.
  assert (Hmiss : no_entry c b → let '(e, readbuf) := uncached buf (cookie dev) in
    is_ok e → readbuf = want (view dev b) ∧ ∀ b', 0 <= b' < n → view dev b' = view dev b').
  { intros Hno. destruct (uncached buf (cookie dev)) as [e r] eqn:E. intros Hok. split; [|done].
    rewrite (view_uncached dev c b) by done. by eapply Hun. }
  destruct (blkdev_alloc_cache now b dev) as [i|].
  - destruct Hs as (f&row&t&Hf&Hr&Hfit&Ht). rewrite Hf, Hr. cbn [deref mbind outcome_bind].
    pose proof (co_rows c HC i row Hr) as Hrow. destruct (present f) eqn:Ep.
    + destruct Hfit as [[_ Hi]|[? _]]; [|done]. pose proof (view_cached dev c t i f row Hc HC Hf Ep Hi Hr) as Hview. unfold entry_content in Hview. exists t. destruct (erase f) eqn:Ee.
      { eexists _, _, dev, c. split_and!; [reflexivity|done|done|]. intros _. rewrite Hview. split; [|done].
        destruct Herased as [Hne|Her]; [|done]. by rewrite (Hne i f Hf Ep) in Ee. }
      rewrite Hpart, Hview by done. destruct (dirty f).
      * assert (set_cache (Some c) dev = dev) as -> by (destruct dev; simpl in *; by rewrite Hc).
        by eexists _, _, dev, c.
      * set (f' := BlkdevFlags now' (index f) true false false).
        destruct (store_entry dev c i f row f' row t HD Hf Hr) as [HD' Hv]; [by left|rewrite <-Hi; by eapply (co_range c HC)|done..|].
        assert (Eput : put_row i row (put_flags i f' c) = put_flags i f' c)
          by (unfold put_row; simpl; by rewrite list_insert_id).
        rewrite Eput in HD', Hv. eexists _, _, _, _. split_and!; [reflexivity|exact HD'|done|]. intros _. split; [done|].
        intros b' _. rewrite Hv. by destruct (Z.eqb_spec b' t) as [->|].
    + destruct Hfit as [[? _]|(_&Hno&->)]; [done|]. exists b. specialize (Hmiss Hno). destruct (cache_read dev).
      * rewrite Hbs. destruct (vt_read bs b row (cookie dev)) as [e row'] eqn:E.
        destruct (vt_read_spec b row (cookie dev) e row' Hd Hb Hrow E) as [Hl Hok].
        set (f' := BlkdevFlags now' b true false false).
        destruct (store_entry dev c i f row f' row' b HD Hf Hr) as [HD' Hv]; [by right|done..|].
        eexists _, _, _, _. split_and!; [reflexivity|exact HD'|done|]. intros He. destruct (is_ok e) eqn:Eok; [|done].
        assert (row' = view dev b) as Erow by (rewrite (view_uncached dev c b) by done; by apply Hok).
        rewrite Hpart by done. split; [by rewrite Erow|]. intros b' _. rewrite Hv.
        by destruct (Z.eqb_spec b' b) as [->|].
      * destruct (uncached buf (cookie dev)) as [e r]. eexists _, _, dev, c. split_and!; [done|done|by left|done].
  - exists b. specialize (Hmiss Hs). destruct (uncached buf (cookie dev)) as [e r]. eexists _, _, dev, c. split_and!; [done|done|by left|done].
Qed.

Lemma read_spec now now' b buf dev c : dev_ok dev c → 0 <= b < n → 0 <= now' → length buf = bs →
  ∃ t e buf' dev' c', blkdev_read now now' b buf (Some dev) = Done (e, buf', Some dev') ∧ dev_ok dev' c' ∧ (t = b ∨ evicts now c b t) ∧
    (is_ok e → buf' = view dev t ∧ ∀ b', 0 <= b' < n → view dev' b' = view dev b').
Proof.
  intros HD Hb Hnow Hbuf. pose proof HD as [Hbs Hn Hc Hd HC]. unfold blkdev_read. rewrite Hn, (proj2 (Z.leb_gt n b)), Hbs by lia.
  destruct (read_through_correct now now' b (λ buf, mem_set buf 0 255 bs) (λ buf row, mem_copy buf 0 row 0 bs)
    (vt_read bs b) (λ v, v) buf dev c HD Hb Hnow) as (t&e&buf'&dev'&c'&->&HD'&Ht&Hv).
  - right. by apply mem_set_all.
  - intros row Hrow. by apply mem_copy_all.
  - intros e buf' E. by apply (vt_read_spec b buf (cookie dev) e buf').
  - by exists t, e, buf', dev', c'.
Qed.

(** C29: what a successful [blkdev_read] puts into the buffer is the contents of a
    block, and no block changes, whether the data come from the cache, from the
    driver, or from the driver into the cache; the same holds for the part of the
    block that [blkdev_read_partial] is asked for, when no entry is marked for
    erasure.  The block is the one asked for, unless that block is not cached, no
    entry is vacant and a read entry has expired: then the contents of the block
    [t] of the entry that is chosen for replacement are returned instead. *)
Theorem blkdev_read_correct now now' b off len buf pbuf dev c :
  dev_ok dev c → 0 <= b < n → 0 <= now' → length buf = bs → (off < bs)%nat → (0 < len)%nat → (off + len <= bs)%nat → length pbuf = len →
  (∃ t e buf' dev' c', blkdev_read now now' b buf (Some dev) = Done (e, buf', Some dev') ∧ dev_ok dev' c' ∧ (t = b ∨ evicts now c b t) ∧
    (is_ok e → buf' = view dev t ∧ ∀ b', 0 <= b' < n → view dev' b' = view dev b')) ∧
  (no_erase c → ∃ t e buf' dev' c', blkdev_read_partial now now' b off pbuf len (Some dev) = Done (e, buf', Some dev') ∧ dev_ok dev' c' ∧ (t = b ∨ evicts now c b t) ∧
    (is_ok e → buf' = take len (drop off (view dev t)) ∧ ∀ b', 0 <= b' < n → view dev' b' = view dev b')).
Proof.
  intros HD Hb Hnow Hbuf Hoff Hlen Hr Hpbuf. split; [by apply read_spec|]. intros Hne. pose proof HD as [Hbs Hn Hc Hd HC].
  unfold blkdev_read_partial. rewrite Hn, (proj2 (Z.leb_gt n b)), Hbs by lia.
  assert (partial_range off len dev = false) as ->.
  { unfold partial_range. rewrite Hbs. apply orb_false_iff. split; [apply orb_false_iff; split|]; [apply Nat.leb_gt|apply Nat.ltb_ge..]; lia. }
  rewrite (proj2 (Nat.eqb_neq len 0)) by lia.
  destruct (read_through_correct now now' b (λ buf, mem_set buf 0 255 bs) (λ buf row, mem_copy buf 0 row off len)
    (λ buf, vt_read_partial bs b off buf len) (λ v, take len (drop off v)) pbuf dev c HD Hb Hnow) as (t&e&buf'&dev'&c'&->&HD'&Ht&Hv).
  - by left.
  - intros row Hrow. rewrite mem_copy_spec by lia. rewrite (drop_ge pbuf) by lia. by rewrite app_nil_r.
  - intros e buf' E. by apply (vt_read_partial_spec b off pbuf len (cookie dev) e buf').
  - by exists t, e, buf', dev', c'.
Qed.

(** ** Flushing *)

(** The flags of an entry after it has been written back. *)
Definition clean_flags (now : Z) dev f : blkdev_flags :=
  BlkdevFlags (if cache_read dev then now else update_time f) (index f) (cache_read dev) false false.

Lemma clean_cache_ok now dev c i f : 0 <= now → cache_ok c → block_flags c !! i = Some f → present f = true →
  cache_ok (put_flags i (clean_flags now dev f) c).
Proof.
  intros Hnow HC Hf Hp. split.
  - simpl. rewrite length_insert. apply HC.
  - apply HC.
  - intros j k g h [(->&->&_)|[Hj Hg]]%put_lookup [(->&->&_)|[Hk Hh]]%put_lookup Hgp Hhp Hgh; [done|..];
      simpl in Hgh; by eapply (co_unique c HC).
  - intros j g [(->&->&_)|[Hj Hg]]%put_lookup Hgp; simpl; by eapply (co_range c HC).
  - intros j g [(->&->&_)|[Hj Hg]]%put_lookup Hgp; [|by eapply (co_time c HC)]. simpl. destruct (cache_read dev); [done|by eapply (co_time c HC)].
Qed.

Lemma clean_no_erase now dev c i f : no_erase c → no_erase (put_flags i (clean_flags now dev f) c).
Proof. intros Hne j g [(->&->&_)|[Hj Hg]]%put_lookup Hgp; [done|by eapply Hne]. Qed.

Lemma flush_cache_correct now i dev c f : 0 <= now → dev_ok dev c → no_erase c → block_flags c !! i = Some f → blkdev_is_dirty f = true →
  ∃ e dev', blkdev_flush_cache now i dev = Done (e, dev') ∧ dev_ok dev' (put_flags i (clean_flags now dev f) c) ∧
    (is_ok e → ∀ b', 0 <= b' < n → view dev' b' = view dev b').
Proof.
  intros Hnow HD Hne Hf Hdirty. pose proof HD as [Hbs Hn Hc Hd HC]. apply andb_prop in Hdirty as [Hp Hdirty].
  pose proof (Hne i f Hf Hp) as He. rewrite He in Hdirty. simpl in Hdirty.
  destruct (block_cache c !! i) as [row|] eqn:Hr.
  2: { apply lookup_ge_None in Hr. apply lookup_lt_Some in Hf as Hlt. rewrite (co_length c HC) in Hlt. lia. }
  unfold blkdev_flush_cache. rewrite Hc. cbn [deref mbind outcome_bind]. rewrite Hf, Hr. cbn [deref mbind outcome_bind].
  rewrite Hdirty, Hbs. pose proof (co_range c HC i f Hf Hp) as Hrange. pose proof (co_rows c HC i row Hr) as Hrow.
  destruct (blkdev_write_raw bs (index f) row (cookie dev)) as [e d] eqn:E.
  destruct (write_raw_spec (index f) row (cookie dev) e d Hd Hrange Hrow E) as [Hd' Hcont].
  pose proof (clean_cache_ok now dev c i f Hnow HC Hf Hp) as HC'.
  fold (clean_flags now dev f). set (c' := put_flags i (clean_flags now dev f) c) in *.
  set (dev' := set_cookie d (set_cache (Some c') dev)).
  eexists _, dev'. split_and!; [reflexivity|by split|]. intros Hok b' Hb'. destruct (is_ok e) eqn:Eok; [|done].
  destruct (entry_or_not c b' HC) as [(j&g&r&Hg&Hgp&Hgb&Hgr)|Hno].
  - rewrite (view_cached dev c b' j g r) by done. destruct (decide (j = i)) as [->|Hji].
    + assert (g = f) as -> by congruence. assert (r = row) as -> by congruence.
      assert (Hlt : (i < length (block_flags c))%nat) by by eapply lookup_lt_Some.
      destruct (cache_read dev) eqn:Ecr.
      * rewrite (view_cached dev' c' b' i (clean_flags now dev f) row); try done; [unfold entry_content; by rewrite He|simpl; by rewrite list_lookup_insert_eq].
      * rewrite (view_uncached dev' c' b'); [|done|].
        -- simpl. rewrite Hcont by done. unfold entry_content. by rewrite He, Hgb, Z.eqb_refl.
        -- intros j g [(->&->&_)|[Hj Hg']]%put_lookup Hgp' Hgb'; [simpl in Hgp'; congruence|].
           apply Hj. eapply (co_unique c HC); [exact Hg'|exact Hf|done|done|congruence].
    + eapply (view_cached dev' c' b' j g); try done. simpl. by rewrite list_lookup_insert_ne.
  - rewrite (view_uncached dev c b') by done. rewrite (view_uncached dev' c' b'); [|done|].
    + simpl. rewrite Hcont by done. destruct (Z.eqb_spec b' (index f)) as [->|]; [|done].
      by destruct (Hno i f Hf Hp).
    + intros j g [(->&->&_)|[Hj Hg]]%put_lookup Hgp; [simpl; by apply (Hno i f)|by apply (Hno j g)].
Qed.

(** The dirty entries of the first [i] are younger than [timeout]. *)
Definition flushed_upto (timeout : Z) (i : nat) c : Prop :=
  ∀ j f, (j < i)%nat → block_flags c !! j = Some f → blkdev_is_dirty f = true → timeout <= update_time f.

Lemma housekeeping_loop_correct now timeout k i dev c : 0 <= now → dev_ok dev c → no_erase c → (i + k = length (block_flags c))%nat →
  flushed_upto timeout i c →
  ∃ e dev' c', housekeeping_loop now timeout k i ECAUSE_OK dev = Done (e, dev') ∧ dev_ok dev' c' ∧
    length (block_flags c') = length (block_flags c) ∧ (is_ok e → flushed_upto timeout (i + k) c' ∧ ∀ b', 0 <= b' < n → view dev' b' = view dev b').
Proof.
  intros Hnow. revert i dev c; induction k as [|k IH]; intros i dev c HD Hne Hik Hfl; cbn [housekeeping_loop].
  { eexists _, dev, c. split_and!; [done|done|done|]. intros _. by rewrite Nat.add_0_r. }
  pose proof HD as [Hbs Hn Hc Hd HC]. rewrite Hc. cbn [deref mbind outcome_bind].
  destruct (lookup_lt_is_Some_2 (block_flags c) i) as [f Hf]; [lia|]. rewrite Hf. cbn [deref mbind outcome_bind].
  assert (Hnext : ∀ c1, (∀ j, j ≠ i → block_flags c1 !! j = block_flags c !! j) →
    (∀ g, block_flags c1 !! i = Some g → blkdev_is_dirty g = true → timeout <= update_time g) → flushed_upto timeout (S i) c1).
  { intros c1 Hsame Hi j g Hj Hg Hgd. destruct (decide (j = i)) as [->|]; [by apply Hi|].
    rewrite Hsame in Hg by done. apply (Hfl j g); [lia|done|done]. }
  replace (i + S k)%nat with (S i + k)%nat by lia.
  destruct (blkdev_is_dirty f) eqn:Ed; [destruct (Z.ltb_spec (update_time f) timeout) as [Hlt|Hge]|]; cbn [andb].
  - destruct (flush_cache_correct now i dev c f Hnow HD Hne Hf Ed) as (e&dev1&->&HD1&Hv). cbn [mbind outcome_bind].
    destruct (is_ok e) eqn:Eok.
    + assert (e = ECAUSE_OK) as -> by by destruct e.
      destruct (IH (S i) dev1 _ HD1 (clean_no_erase _ _ _ _ _ Hne)) as (e'&dev'&c'&->&HD'&Hl&Hc').
      * simpl. rewrite length_insert. lia.
      * apply Hnext; [intros j Hj; simpl; by rewrite list_lookup_insert_ne|].
        intros g Hg. simpl in Hg. rewrite list_lookup_insert_eq in Hg by by eapply lookup_lt_Some.
        simplify_eq. unfold blkdev_is_dirty. simpl. by rewrite andb_false_r.
      * eexists _, dev', c'. split_and!; [done|done|simpl in Hl; by rewrite length_insert in Hl|].
        intros Hok. destruct (Hc' Hok) as [? Hv'].
        split; [done|]. intros b' Hb'. by rewrite Hv', Hv.
    + eexists _, dev1, _. split_and!; [done|exact HD1|simpl; by rewrite length_insert|]. by rewrite Eok.
  - apply (IH (S i) dev c); [done|done|lia|]. apply Hnext; [done|]. intros g Hg _. by simplify_eq.
  - apply (IH (S i) dev c); [done|done|lia|]. apply Hnext; [done|]. intros g Hg Hgd. simplify_eq. congruence.
Qed.

(** [blkdev_housekeeping] writes back every dirty entry that is older than
    the write timeout and no block changes its contents; the loop visits every
    entry and stops early only when the driver reports an error.  No entry is
    marked for erasure. *)
Theorem blkdev_housekeeping_correct now dev c : 0 <= now → dev_ok dev c → no_erase c →
  ∃ e dev' c', blkdev_housekeeping now ECAUSE_OK (Some dev) = Done (e, Some dev') ∧ dev_ok dev' c' ∧
    (is_ok e → (∀ j f, block_flags c' !! j = Some f → blkdev_is_dirty f = true →
        now - BLKDEV_WRITE_CACHE_TIMEOUT <= update_time f) ∧
      ∀ b', 0 <= b' < n → view dev' b' = view dev b').
Proof.
  intros Hnow HD Hne. pose proof HD as [Hbs Hn Hc Hd HC]. unfold blkdev_housekeeping. rewrite Hc. cbn [deref mbind outcome_bind].
  destruct (housekeeping_loop_correct now (now - BLKDEV_WRITE_CACHE_TIMEOUT) (length (block_flags c)) 0 dev c Hnow HD Hne)
    as (e&dev'&c'&E&HD'&Hl&Hc'); [done|intros j f Hj; lia|].
  rewrite E. eexists _, dev', c'. split_and!; [reflexivity|done|]. intros Hok. destruct (Hc' Hok) as [Hfl Hv].
  split; [|done]. intros j f Hj. apply (Hfl j f); [|done].
  apply lookup_lt_Some in Hj. lia.
Qed.

(** ** Partial access for drivers without it *)

(** The fallbacks for partial access do a read-modify-write through a
    temporary block: a successful partial write replaces exactly the bytes
    from [off] to [off + len] of the stored block and no other block, a failed
    one, for lack of memory or by the driver, none; a successful partial read
    returns those bytes. *)
Theorem partial_fallback_correct b off buf len tmp dev :
  block_size dev = bs → driver_inv (cookie dev) → 0 <= b < n → (off + len <= bs)%nat → length buf = len →
  (∀ t, tmp = Some t → length t = bs) →
  (∃ e dev', blkdev_write_partial_fallback tmp b off buf len dev = (e, dev') ∧ driver_inv (cookie dev') ∧
    ∀ b', 0 <= b' < n → content (cookie dev') b' =
      let old := content (cookie dev) b' in
      if is_ok e && (b' =? b) then take off old ++ buf ++ drop (off + len) old else old) ∧
  (∃ e buf', blkdev_read_partial_fallback tmp b off buf len dev = (e, buf') ∧
    (is_ok e → buf' = take len (drop off (content (cookie dev) b)))).
Proof.
  intros Hbs Hd Hb Hr Hbuf Ht. unfold blkdev_write_partial_fallback, blkdev_read_partial_fallback.
  destruct tmp as [t|]; [|split; eexists _, _; split; [reflexivity|done|reflexivity|done]].
  rewrite Hbs. destruct (blkdev_read_raw bs b t (cookie dev)) as [e t'] eqn:E.
  destruct (read_raw_spec b t (cookie dev) e t' Hd Hb (Ht t eq_refl) E) as [Hl Hok].
  destruct (is_ok e) eqn:Eok; cbn [negb].
  2: { split; eexists _, _; (split; [reflexivity|]); rewrite Eok; [|done]. split; [done|]. by intros b' _. }
  specialize (Hok I). split.
  - destruct (blkdev_write_raw bs b (mem_copy t' off buf 0 len) (cookie dev)) as [e2 d] eqn:E2.
    destruct (write_raw_spec b (mem_copy t' off buf 0 len) (cookie dev) e2 d Hd Hb) as [Hd' Hcont]; [by rewrite mem_copy_length by lia|done|].
    eexists _, _. split; [reflexivity|]. split; [done|]. intros b' Hb'. simpl. rewrite Hcont by done.
    destruct (is_ok e2), (Z.eqb_spec b' b) as [->|]; cbn [andb]; try done.
    rewrite mem_copy_spec by lia. rewrite drop_0, (take_ge buf), Hok by lia. done.
  - eexists _, _. split; [reflexivity|]. intros _. rewrite mem_copy_spec by lia.
    rewrite (drop_ge buf), app_nil_r, Hok by lia. done.
Qed.

(** ** Errors *)

(** Every operation rejects a null device, a block outside the device and,
    if it would change the device, a read-only one, with the documented error
    and without touching the device, the cache or the buffer; partial accesses
    that leave the block are rejected as well. *)
Theorem blkdev_errors now now' b off len buf dev :
  blkdev_write now now' b buf None = Done (ECAUSE_PARAM, @None (blkdev D)) ∧
  blkdev_erase now now' b None = Done (ECAUSE_PARAM, @None (blkdev D)) ∧
  blkdev_read now now' b buf None = Done (ECAUSE_PARAM, buf, @None (blkdev D)) ∧
  (readonly dev = true →
    blkdev_write now now' b buf (Some dev) = Done (ECAUSE_READONLY, Some dev) ∧
    blkdev_write_partial now now' b off buf len (Some dev) = Done (ECAUSE_READONLY, Some dev) ∧
    blkdev_erase now now' b (Some dev) = Done (ECAUSE_READONLY, Some dev) ∧
    blkdev_flush now ECAUSE_OK (Some dev) = Done (ECAUSE_READONLY, Some dev)) ∧
  (blocks dev <= b →
    blkdev_read now now' b buf (Some dev) = Done (ECAUSE_RANGE, buf, Some dev) ∧
    blkdev_read_partial now now' b off buf len (Some dev) = Done (ECAUSE_RANGE, buf, Some dev) ∧
    (readonly dev = false →
      blkdev_write now now' b buf (Some dev) = Done (ECAUSE_RANGE, Some dev) ∧
      blkdev_write_partial now now' b off buf len (Some dev) = Done (ECAUSE_RANGE, Some dev) ∧
      blkdev_erase now now' b (Some dev) = Done (ECAUSE_RANGE, Some dev))) ∧
  (b < blocks dev → (block_size dev < off + len)%nat →
    blkdev_read_partial now now' b off buf len (Some dev) = Done (ECAUSE_RANGE, buf, Some dev) ∧
    (readonly dev = false →
      blkdev_write_partial now now' b off buf len (Some dev) = Done (ECAUSE_RANGE, Some dev))).
Proof.
  unfold blkdev_write, blkdev_erase, blkdev_read, blkdev_write_partial, blkdev_read_partial, blkdev_flush, checked.
  split_and!; try done.
  - intros ->. done.
  - intros Hb. rewrite (proj2 (Z.leb_le _ _) Hb). split_and!; [done|done|]. by intros ->.
  - intros Hb Hr. rewrite (proj2 (Z.leb_gt _ _) Hb).
    assert (partial_range off len dev = true) as -> by (unfold partial_range; apply orb_true_iff; right; by apply Nat.ltb_lt).
    split; [done|]. by intros ->.
Qed.

(** ** Creating a cache *)

Lemma create_cache_correct now rows depth reads dev :
  cache dev = None → readonly dev = false → block_size dev = bs → blocks dev = n → driver_inv (cookie dev) →
  length rows = depth → (∀ i row, rows !! i = Some row → length row = bs) →
  ∃ dev' c, blkdev_create_cache now true (Some rows) true ECAUSE_OK depth reads (Some dev) = Done (ECAUSE_OK, Some dev') ∧
    dev_ok dev' c ∧ readonly dev' = false ∧ cache_read dev' = reads ∧
    Forall (λ f, present f = false) (block_flags c) ∧ ∀ b, view dev' b = content (cookie dev) b.
Proof.
  intros Hc Hro Hbs Hn Hd Hrows Hlen. unfold blkdev_create_cache. rewrite Hro, Hc. cbn [andb negb].
  set (c := BlkdevCache rows (replicate depth zero_flags)).
  assert (Hno : ∀ i f, block_flags c !! i = Some f → present f = false).
  { simpl. intros i f [-> _]%lookup_replicate. done. }
  eexists _, c. split_and!; [reflexivity| |done|done|by apply Forall_replicate|].
  - split; try done. split.
    + simpl. by rewrite length_replicate.
    + apply Hlen.
    + intros i j f g Hf Hg Hp. rewrite (Hno i f Hf) in Hp. done.
    + intros i f Hf Hp. rewrite (Hno i f Hf) in Hp. done.
    + intros i f Hf Hp. rewrite (Hno i f Hf) in Hp. done.
  - intros b. eapply (view_uncached (set_cache (Some c) (set_cache_read reads dev)) c); [done|].
    intros i f Hf Hp. rewrite (Hno i f Hf) in Hp. done.
Qed.
End correct.

(** ** Cached RAM devices *)

#[local] Existing Instance blkdev_ram_vtable.

(** The RAM driver reports no errors. *)
Lemma ram_write_ok `{BadgeStrings} now now' b buf dev e dev' : readonly dev = false → b < blocks dev →
  blkdev_write now now' b buf (Some dev) = Done (e, Some dev') → e = ECAUSE_OK ∧ blocks dev' = blocks dev.
Proof.
  intros Hro Hb. unfold blkdev_write, checked. rewrite Hro, (proj2 (Z.leb_gt _ _) Hb).
  destruct (cache dev); cbn [deref mbind outcome_bind]; [|done].
  destruct (blkdev_alloc_cache now b dev) as [i|]; [|by intros [= <- <-]].
  destruct (block_flags _ !! i); cbn [deref mbind outcome_bind]; [|done].
  destruct (block_cache _ !! i); cbn [deref mbind outcome_bind]; [|done]. by intros [= <- <-].
Qed.

Lemma ram_read_ok `{BadgeStrings} now now' b buf dev e buf' dev' : b < blocks dev →
  blkdev_read now now' b buf (Some dev) = Done (e, buf', Some dev') → e = ECAUSE_OK.
Proof.
  intros Hb. unfold blkdev_read, read_through. rewrite (proj2 (Z.leb_gt _ _) Hb).
  destruct (cache dev); cbn [deref mbind outcome_bind]; [|done].
  destruct (blkdev_alloc_cache now b dev) as [i|]; [|by intros [= <- _ _]].
  destruct (block_flags _ !! i) as [f|]; cbn [deref mbind outcome_bind]; [|done].
  destruct (block_cache _ !! i); cbn [deref mbind outcome_bind]; [|done].
  destruct (present f), (erase f), (cache_read dev); by intros [= <- _ _].
Qed.

(** Composition: on a writable RAM device of [n] blocks with a freshly
    created cache of any depth, in either caching mode, a block that has been
    written is read back, and every other block still reads as the memory the
    device was created on. *)
Theorem ram_device_round_trip `{BadgeStringsSpec} bs n memory rows depth reads now b b' buf rbuf rbuf' :
  length memory = (Z.to_nat n * bs)%nat → length rows = depth → (∀ i row, rows !! i = Some row → length row = bs) →
  0 <= now → 0 <= b < n → 0 <= b' < n → b' ≠ b → length buf = bs → length rbuf = bs → length rbuf' = bs →
  ∃ dev dev1 dev2 dev3 dev4, blkdev_ram_create true memory n bs false = (ECAUSE_OK, Some dev) ∧
    blkdev_create_cache now true (Some rows) true ECAUSE_OK depth reads (Some dev) = Done (ECAUSE_OK, Some dev1) ∧
    blkdev_write now now b buf (Some dev1) = Done (ECAUSE_OK, Some dev2) ∧
    blkdev_read now now b rbuf (Some dev2) = Done (ECAUSE_OK, buf, Some dev3) ∧
    blkdev_read now now b' rbuf' (Some dev2) =
      Done (ECAUSE_OK, take bs (drop (Z.to_nat b' * bs) memory), Some dev4).
Proof.
  intros Hmem Hrows Hlen Hnow Hb Hb' Hne Hbuf Hrbuf Hrbuf'.
  pose (Hspec := ram_driver_spec bs n). set (dev := Blkdev bs n false false None memory).
  destruct (create_cache_correct bs n now rows depth reads dev) as (dev1&c1&E1&HD1&Hro&_&Hno&Hv1); try done. rewrite Forall_lookup in Hno.
  assert (Hstay : ∀ c x y, (∀ i g, block_flags c !! i = Some g → blkdev_is_dirty g = false → block_flags c1 !! i = Some g) → ¬ evicts now c x y).
  { intros c x y Hold (_&_&i&f&Hf&(Hp&Hd&_)&_). rewrite (Hno i f (Hold i f Hf Hd)) in Hp. done. }
  destruct (write_spec bs n now now b buf dev1 c1 HD1 Hro Hb Hnow Hbuf) as (t&e&dev2&c2&E2&HD2&[->|Hev]&Hv2&Hold); [|by apply Hstay in Hev].
  destruct (ram_write_ok now now b buf dev1 e dev2 Hro) as [-> _]; [rewrite (do_blocks _ _ _ _ HD1); lia|exact E2|].
  pose proof (do_blocks _ _ _ _ HD2) as Hn2.
  assert (Hread : ∀ x buf, 0 <= x < n → length buf = bs → ∃ dev3,
    blkdev_read now now x buf (Some dev2) = Done (ECAUSE_OK, view bs n dev2 x, Some dev3)).
  { intros x buf' Hx Hl. destruct (read_spec bs n now now x buf' dev2 c2 HD2 Hx Hnow Hl) as (t&e&r&dev3&c3&E3&_&[->|Hev]&Hr); [|by apply Hstay in Hev].
    assert (e = ECAUSE_OK) as -> by (eapply ram_read_ok; [|exact E3]; rewrite Hn2; lia).
    destruct (Hr I) as [-> _]. by exists dev3. }
  destruct (Hread b rbuf Hb Hrbuf) as [dev3 E3]. destruct (Hread b' rbuf' Hb' Hrbuf') as [dev4 E4].
  rewrite (Hv2 b Hb) in E3. rewrite (Hv2 b' Hb') in E4. cbn [is_ok andb] in E3, E4. rewrite Z.eqb_refl in E3.
  rewrite (proj2 (Z.eqb_neq b' b)), Hv1 in E4 by done.
  exists dev, dev1, dev2, dev3, dev4. split_and!; [reflexivity|exact E1|exact E2|exact E3|exact E4].
Qed.

(** ** A device of four two-byte blocks *)

#[local] Existing Instance demo_strings.
#[local] Existing Instance demo_strings_spec.

Definition demo_memory : list Z := [10; 11; 20; 21; 30; 31; 40; 41].
Definition demo_dev : blkdev (list Z) :=
  Blkdev 2 4 false true (Some (BlkdevCache [[0; 0]; [0; 0]] [zero_flags; zero_flags])) demo_memory.
#[local] Instance demo_driver : BlockDriverSpec (list Z) 2 4 := ram_driver_spec 2 4.

Lemma demo_dev_ok : dev_ok 2 4 demo_dev (BlkdevCache [[0; 0]; [0; 0]] [zero_flags; zero_flags]).
Proof.
  assert (Hz : ∀ i f, [zero_flags; zero_flags] !! i = Some f → f = zero_flags).
  { intros [|[|i]] f [= <-]; done. }
  split; try done. split; try done.
  - intros [|[|i]] row [= <-]; done.
  - intros i j f g ->%Hz. done.
  - intros i f ->%Hz. done.
  - intros i f ->%Hz. done.
Qed.

(** Its entries are vacant. *)
Lemma demo_vacant now b t : ¬ evicts now (BlkdevCache [[0; 0]; [0; 0]] [zero_flags; zero_flags]) b t.
Proof. intros (_&Hfull&_). by specialize (Hfull 0%nat zero_flags eq_refl). Qed.

Lemma blkdev_write_correct_witness : ∃ e dev' c',
  blkdev_write 5 6 2 [7; 8] (Some demo_dev) = Done (e, Some dev') ∧ dev_ok 2 4 dev' c' ∧
  ∀ b', 0 <= b' < 4 → view 2 4 dev' b' = if is_ok e && (b' =? 2) then [7; 8] else view 2 4 demo_dev b'.
Proof.
  destruct (blkdev_write_correct 2 4 5 6 2 [7; 8] demo_dev _ demo_dev_ok eq_refl ltac:(lia) ltac:(lia) eq_refl)
    as (t&e&dev'&c'&E&HD&[->|Hev]&Hv&_); [|by apply demo_vacant in Hev].
  exists e, dev', c'. exact (conj E (conj HD Hv)).
Defined.

Lemma blkdev_read_correct_witness : ∃ e buf' dev' c',
  blkdev_read 5 6 2 [0; 0] (Some demo_dev) = Done (e, buf', Some dev') ∧ dev_ok 2 4 dev' c' ∧
  (is_ok e → buf' = view 2 4 demo_dev 2 ∧ ∀ b', 0 <= b' < 4 → view 2 4 dev' b' = view 2 4 demo_dev b').
Proof.
  destruct (proj1 (blkdev_read_correct 2 4 5 6 2 1 1 [0; 0] [0] demo_dev _ demo_dev_ok ltac:(lia) ltac:(lia) eq_refl ltac:(lia) ltac:(lia) ltac:(lia) eq_refl))
    as (t&e&buf'&dev'&c'&E&HD&[->|Hev]&Hv); [|by apply demo_vacant in Hev].
  exists e, buf', dev', c'. exact (conj E (conj HD Hv)).
Defined.

Lemma blkdev_housekeeping_correct_witness : ∃ e dev' c',
  blkdev_housekeeping 2000000 ECAUSE_OK (Some demo_dev) = Done (e, Some dev') ∧ dev_ok 2 4 dev' c' ∧
  (is_ok e → (∀ j f, block_flags c' !! j = Some f → blkdev_is_dirty f = true → 2000000 - 1000000 <= update_time f) ∧
    ∀ b', 0 <= b' < 4 → view 2 4 dev' b' = view 2 4 demo_dev b').
Proof. refine (blkdev_housekeeping_correct 2 4 2000000 demo_dev _ ltac:(lia) demo_dev_ok _). intros [|[|i]] f [= <-] Hp; done. Defined.

Lemma partial_fallback_correct_witness : ∃ e dev',
  blkdev_write_partial_fallback (Some [0; 0]) 2 1 [99] 1 demo_dev = (e, dev') ∧ driver_inv (cookie dev') ∧
  ∀ b', 0 <= b' < 4 → content (cookie dev') b' =
    let old := content demo_memory b' in if is_ok e && (b' =? 2) then take 1 old ++ [99] ++ drop (1 + 1) old else old.
Proof.
  refine (proj1 (partial_fallback_correct 2 4 2 1 [99] 1 (Some [0; 0]) demo_dev eq_refl eq_refl _ _ eq_refl _)).
  - lia.
  - lia.
  - intros t [= <-]. reflexivity.
Defined.

Lemma ram_device_round_trip_witness : ∃ dev dev1 dev2 dev3 dev4,
  blkdev_ram_create true demo_memory 4 2 false = (ECAUSE_OK, Some dev) ∧
  blkdev_create_cache 5 true (Some [[0; 0]]) true ECAUSE_OK 1 true (Some dev) = Done (ECAUSE_OK, Some dev1) ∧
  blkdev_write 5 5 1 [7; 8] (Some dev1) = Done (ECAUSE_OK, Some dev2) ∧
  blkdev_read 5 5 1 [0; 0] (Some dev2) = Done (ECAUSE_OK, [7; 8], Some dev3) ∧
  blkdev_read 5 5 3 [0; 0] (Some dev2) = Done (ECAUSE_OK, [40; 41], Some dev4).
Proof.
  refine (ram_device_round_trip 2 4 demo_memory [[0; 0]] 1 true 5 1 3 [7; 8] [0; 0] [0; 0] eq_refl eq_refl _ _ _ _ _
    eq_refl eq_refl eq_refl); [|lia..].
  intros [|i] row [= <-]; reflexivity.
Defined.

(** Reading block 0 into a cache of one entry and writing block 1 two seconds
    later, when the read entry may be replaced: the entry keeps its index, so
    the data are shown, and later written back, as block 0. *)
Example write_to_wrong_block :
  let dev := set_cache (Some (BlkdevCache [[0; 0]] [zero_flags])) demo_dev in
  ∃ r dev1 dev2, blkdev_read 5000000 5000000 0 [0; 0] (Some dev) = Done (ECAUSE_OK, r, Some dev1) ∧
    blkdev_write 7000000 7000000 1 [7; 8] (Some dev1) = Done (ECAUSE_OK, Some dev2) ∧
    view 2 4 dev2 0 = [7; 8] ∧ view 2 4 dev2 1 = [20; 21].
Proof. eexists _, _, _. split_and!; vm_compute; reflexivity. Qed.

(** Reading block 1 then returns what is cached of block 0. *)
Example read_of_wrong_block :
  let dev := set_cache (Some (BlkdevCache [[0; 0]] [zero_flags])) demo_dev in
  ∃ r dev1 dev2, blkdev_read 5000000 5000000 0 [0; 0] (Some dev) = Done (ECAUSE_OK, r, Some dev1) ∧
    blkdev_read 7000000 7000000 1 [0; 0] (Some dev1) = Done (ECAUSE_OK, [10; 11], Some dev2) ∧ view 2 4 dev1 1 = [20; 21].
Proof. eexists _, _, _. split_and!; vm_compute; reflexivity. Qed.

(** A partial read of a block that is marked for erasure fills as many bytes as a
    whole block has, beyond the end of the buffer. *)
Example partial_read_overruns :
  let c := BlkdevCache [[0; 0]] [BlkdevFlags 5 1 true true false] in
  ∃ r dev1, blkdev_read_partial 5 5 1 0 [0] 1 (Some (set_cache (Some c) demo_dev)) = Done (ECAUSE_OK, r, Some dev1) ∧ length r = 2%nat.
Proof. eexists _, _. split; vm_compute; reflexivity. Qed.

(** [blkdev_flush] returns after the first entry, and [blkdev_delete_cache]
    then throws the other dirty entries away. *)
Example delete_cache_loses_data :
  ∃ dev1 dev2 dev3, blkdev_write 5 5 1 [7; 8] (Some demo_dev) = Done (ECAUSE_OK, Some dev1) ∧
    blkdev_write 5 5 2 [9; 9] (Some dev1) = Done (ECAUSE_OK, Some dev2) ∧
    blkdev_delete_cache 6 ECAUSE_OK (Some dev2) = Done (ECAUSE_OK, Some dev3) ∧
    view 2 4 dev2 1 = [7; 8] ∧ view 2 4 dev3 1 = [20; 21].
Proof. eexists _, _, _. split_and!; vm_compute; reflexivity. Qed.

(** Erasing a block that is not cached marks a vacant entry as dirty: whatever
    the cache memory held becomes the contents of the block. *)
Example erase_writes_garbage :
  ∃ dev1, blkdev_erase 5 5 1 (Some demo_dev) = Done (ECAUSE_OK, Some dev1) ∧ view 2 4 dev1 1 = [0; 0].
Proof. eexists _. split; vm_compute; reflexivity. Qed.

(** So does a partial write of a block that is not cached. *)
Example partial_write_loses_rest :
  ∃ dev1, blkdev_write_partial 5 5 1 0 [7] 1 (Some demo_dev) = Done (ECAUSE_OK, Some dev1) ∧
    view 2 4 dev1 1 = [7; 0] ∧ view 2 4 demo_dev 1 = [20; 21].
Proof. eexists _. split_and!; vm_compute; reflexivity. Qed.

(** A device without a cache cannot be used: the operations read the fields
    of the null [cache] before they test it. *)
Example uncached_device_faults : blkdev_read 5 5 1 [0; 0] (Some (set_cache None demo_dev)) = Undef.
Proof. reflexivity. Qed.
