(* ===== verification/Ramfs.v ===== *)
(** * RAM file system

    kernel/src/filesystem/vfs_ramfs.c.  Files and directories are inodes whose
    data are a buffer of bytes with a capacity; a directory is the sequence of
    its [vfs_ramfs_dirent_t] records, which the model keeps as bytes.  Pointers
    to inodes are indices of the inode table; pointers into a directory are
    offsets.  Every operation runs under the mutex of the file system.  Errors
    are values of [ec], which is passed through because some paths leave it
    unset.  The heap is an interface ([KernelHeap]); its buffers are lists. *)

From S2P Require Import Prelude Badgelib IntRoutines.

(** ** The heap *)

Class KernelHeap (HS : Type) := {
  heap_realloc : list Z → nat → HS → option (list Z) * HS;
  heap_free : list Z → HS → HS;
}.

(** A successful realloc keeps the common prefix. *)
Class KernelHeapSpec (HS : Type) `{!KernelHeap HS} := {
  heap_realloc_spec buf n h buf' h' : heap_realloc buf n h = (Some buf', h') →
    length buf' = n ∧ take (Nat.min (length buf) n) buf' = take (Nat.min (length buf) n) buf;
}.

(** ** Data *)

Definition VFS_RAMFS_NAME_MAX : nat := 255.
Definition VFS_RAMFS_MODE_BIT : Z := 12.
Definition VFS_RAMFS_MODE_MASK : Z := 0xf000.
Definition VFS_RAMFS_INODE_ROOT : nat := 1.
Definition VFS_RAMFS_INODE_FIRST : nat := 2.
Definition FILETYPE_LINK : Z := 10.
Definition FILETYPE_REG : Z := 8.
Definition FILETYPE_DIR : Z := 4.

(** [buf] has [cap] bytes, of which the first [len] are the data. *)
Record ramfs_inode := RamfsInode {
  len : nat;
  cap : nat;
  buf : list Z;
  inode : Z;
  mode : Z;
  links : Z;
}.

Record ramfs_dirent := RamfsDirent {
  d_size : nat;
  d_inode : Z;
  d_name_len : nat;
  d_name : list Z;         (* the 256 bytes of the array *)
}.

(** [offsetof(vfs_ramfs_dirent_t, name)] and [sizeof(size_t)]. *)
Definition OFFSETOF_NAME : nat := 24.
Definition SIZEOF_SIZE_T : nat := 8.
Definition SIZEOF_DIRENT : nat := OFFSETOF_NAME + VFS_RAMFS_NAME_MAX + 1.

(** The bytes of the structure. *)
Definition dirent_bytes (e : ramfs_dirent) : list Z :=
  to_bytes 8 (Z.of_nat (d_size e)) ++ to_bytes 8 (d_inode e) ++ to_bytes 8 (Z.of_nat (d_name_len e)) ++ d_name e.

Record ramfs (HS : Type) := Ramfs {
  inode_list : list ramfs_inode;
  inode_usage : list bool;
  heap : HS;
}.
Arguments Ramfs {HS}.
Arguments inode_list {HS}.
Arguments inode_usage {HS}.
Arguments heap {HS}.

(** Shared file handles; [ramfs_file] is the index of the inode. *)
Record file_shared := FileShared {
  refcount : Z;
  size : Z;
  ramfs_file : option nat;
  f_inode : Z;
}.

(** ** Access to directories *)

Definition read_word (b : list Z) (off : nat) : outcome Z :=
  if decide (off + 8 <= length b)%nat then Done (of_bytes (take 8 (drop off b))) else Undef.

(** The string up to the first zero byte. *)
Fixpoint cstr (b : list Z) : outcome (list Z) :=
  match b with
  | [] => Undef
  | c :: b => if c =? 0 then Done [] else s ← cstr b; Done (c :: s)
  end.

(** A read that must stay inside a buffer. *)
Definition assert_inside (b : bool) : outcome unit := if b then Done () else Undef.

Definition ent_size (b : list Z) (off : nat) : outcome nat := n ← read_word b off; Done (Z.to_nat n).
Definition ent_inode (b : list Z) (off : nat) : outcome Z := read_word b (off + 8).
Definition ent_name_len (b : list Z) (off : nat) : outcome nat := n ← read_word b (off + 16); Done (Z.to_nat n).
Definition ent_name (b : list Z) (off : nat) : outcome (list Z) := cstr (drop (off + OFFSETOF_NAME) b).

(** [size += (~size + 1) % sizeof(size_t)]. *)
Definition pad_size (s : nat) : nat :=
  s + Z.to_nat (u64 (wnot 64 (Z.of_nat s) + 1) mod Z.of_nat SIZEOF_SIZE_T).

Definition dot : list Z := [46].
Definition dotdot : list Z := [46; 46].

Section ramfs.
Context `{!BadgeStrings} `{!KernelHeap HS}.
Implicit Types (fs : ramfs HS) (ec : badge_cause).

Definition put_inode (i : nat) (ino : ramfs_inode) fs : ramfs HS :=
  Ramfs (<[i := ino]> (inode_list fs)) (inode_usage fs) (heap fs).
Definition put_usage (i : nat) (b : bool) fs : ramfs HS :=
  Ramfs (inode_list fs) (<[i := b]> (inode_usage fs)) (heap fs).
Definition set_heap (h : HS) fs : ramfs HS := Ramfs (inode_list fs) (inode_usage fs) h.

Definition set_len (n : nat) (ino : ramfs_inode) : ramfs_inode :=
  RamfsInode n (cap ino) (buf ino) (inode ino) (mode ino) (links ino).
Definition set_buf (b : list Z) (c n : nat) (ino : ramfs_inode) : ramfs_inode :=
  RamfsInode n c b (inode ino) (mode ino) (links ino).
Definition set_data (b : list Z) (ino : ramfs_inode) : ramfs_inode :=
  RamfsInode (len ino) (cap ino) b (inode ino) (mode ino) (links ino).
Definition set_links (n : Z) (ino : ramfs_inode) : ramfs_inode :=
  RamfsInode (len ino) (cap ino) (buf ino) (inode ino) (mode ino) n.

(** [while (cap < size) cap *= 2]. *)
Fixpoint grow (fuel cap size : nat) : outcome nat :=
  match fuel with
  | O => Fuel
  | S fuel => if decide (cap < size)%nat then grow fuel (2 * cap) size else Done cap
  end.

(** Sizes are below [2 ^ 63], so 64 doublings are enough. *)
Definition resize_inode ec (i : nat) (size : nat) fs : outcome (bool * badge_cause * ramfs HS) :=
  ino ← deref (inode_list fs !! i);
  if decide (2 * size <= cap ino)%nat then
    let c := (cap ino / 2)%nat in
    let '(mem, h) := heap_realloc (buf ino) c (heap fs) in
    let ino :=
      match mem with
      | Some b => set_buf b c size ino
      | None => if decide (c = 0%nat) then set_buf [] c size ino else set_len size ino
      end in
    Done (true, ec, set_heap h (put_inode i ino fs))
  else if decide (size <= cap ino)%nat then
    Done (true, ECAUSE_OK, put_inode i (set_len size ino) fs)
  else
    c ← grow 64 1 size;
    let '(mem, h) := heap_realloc (buf ino) c (heap fs) in
    match mem with
    | Some b => Done (true, ec, set_heap h (put_inode i (set_buf b c size ino) fs))
    | None => Done (false, ec, set_heap h fs)
    end.

Fixpoint find_inode_from (i : nat) (usage : list bool) : option nat :=
  match usage with
  | [] => None
  | u :: usage => if u then find_inode_from (S i) usage else Some i
  end.

Definition find_inode fs : option nat :=
  find_inode_from VFS_RAMFS_INODE_FIRST (drop VFS_RAMFS_INODE_FIRST (inode_usage fs)).

Definition pop_inode_refcount (i : nat) fs : outcome (ramfs HS) :=
  ino ← deref (inode_list fs !! i);
  let ino := set_links (u64 (links ino - 1)) ino in
  let fs := put_inode i ino fs in
  if links ino =? 0 then
    _ ← deref (inode_usage fs !! Z.to_nat (inode ino));
    Done (put_usage (Z.to_nat (inode ino)) false (set_heap (heap_free (buf ino) (heap fs)) fs))
  else Done fs.

(** A store of [n] bytes of [src] at [off] of the data of inode [i]. *)
Definition store (i off : nat) (src : list Z) (from n : nat) fs : outcome (ramfs HS) :=
  ino ← deref (inode_list fs !! i);
  if decide (off + n <= length (buf ino) ∧ from + n <= length src)%nat then
    Done (put_inode i (set_data (mem_copy (buf ino) off src from n) ino) fs)
  else Undef.

Definition insert_dirent ec (dir : nat) (ent : ramfs_dirent) fs : outcome (bool * badge_cause * ramfs HS) :=
  d ← deref (inode_list fs !! dir);
  let pre_size := len d in
  '(ok, ec, fs) ← resize_inode ec dir (pre_size + d_size ent) fs;
  if negb ok then Done (false, ec, fs) else
  fs ← store dir pre_size (dirent_bytes ent) 0 (d_size ent) fs;
  Done (true, ec, fs).

(** [ent] is the offset of the entry. *)
Definition remove_dirent (dir ent : nat) fs : outcome (ramfs HS) :=
  d ← deref (inode_list fs !! dir);
  sz ← ent_size (buf d) ent;
  fs ← store dir ent (buf d) (ent + sz) (len d - sz) fs;
  '(_, _, fs) ← resize_inode ECAUSE_OK dir (len d - sz) fs;
  Done fs.

(** The loop over the entries of a directory; entries are not empty, so the
    length of the directory bounds their number. *)
Fixpoint find_loop (fuel : nat) (b : list Z) (l off : nat) (name : list Z) : outcome (option nat) :=
  match fuel with
  | O => Fuel
  | S fuel =>
      if decide (off < l)%nat then
        s ← ent_name b off;
        if cstr_equals name s then Done (Some off) else
        sz ← ent_size b off;
        find_loop fuel b l (off + sz) name
      else Done None
  end.

(** Sets [ec] to OK and returns the offset of the entry. *)
Definition find_dirent (dir : nat) (name : list Z) fs : outcome (option nat) :=
  d ← deref (inode_list fs !! dir);
  find_loop (S (len d)) (buf d) (len d) 0 name.

(** The entry for [name] with the zero-terminated name in a zeroed array. *)
Definition new_dirent (name : list Z) (name_len : nat) (inum : Z) : outcome ramfs_dirent :=
  if decide (name_len + 1 <= VFS_RAMFS_NAME_MAX + 1)%nat then
    Done (RamfsDirent (pad_size (OFFSETOF_NAME + name_len + 1)) inum name_len
      (mem_copy (replicate (VFS_RAMFS_NAME_MAX + 1) 0) 0 (name ++ [0]) 0 (name_len + 1)))
  else Undef.

(** The error for a long name is set and overwritten by [find_dirent]; the
    returned index is that of the inode, also when the insertion failed. *)
Definition create_file ec (dir : nat) (name : list Z) (type : Z) fs
    : outcome (option nat * badge_cause * ramfs HS) :=
  let name_len := cstr_length_upto name (VFS_RAMFS_NAME_MAX + 1) in
  existing ← find_dirent dir name fs;
  match existing with
  | Some _ => Done (None, ECAUSE_EXISTS, fs)
  | None =>
      match find_inode fs with
      | None => Done (None, ECAUSE_NOSPACE, fs)
      | Some inum =>
          ent ← new_dirent name name_len (Z.of_nat inum);
          _ ← deref (inode_list fs !! inum);
          let iptr := RamfsInode 0 0 [] (Z.of_nat inum) (Z.lor (Z.shiftl type VFS_RAMFS_MODE_BIT) 0x1ff) 1 in
          let fs := put_inode inum iptr fs in
          '(ok, ec, fs) ← insert_dirent ECAUSE_OK dir ent fs;
          Done (Some inum, ec, if (ok : bool) then put_usage inum true fs else fs)
      end
  end.

Fixpoint empty_loop (fuel : nat) (b : list Z) (l off : nat) : outcome bool :=
  match fuel with
  | O => Fuel
  | S fuel =>
      if decide (off < l)%nat then
        s ← ent_name b off;
        if negb (cstr_equals dot s) && negb (cstr_equals dotdot s) then Done false else
        sz ← ent_size b off;
        empty_loop fuel b l (off + sz)
      else Done true
  end.

Definition is_dir_empty (d : ramfs_inode) : outcome bool := empty_loop (S (len d)) (buf d) (len d) 0.

(** ** Mounting

    [usage] is the contents of the memory malloc returned for the usage map of 32
    entries, [list_ok] and [usage_ok] whether there was memory for the table of
    inodes and for the map; [media] whether a block device was given. *)

Definition zero_inode : ramfs_inode := RamfsInode 0 0 [] 0 0 0.

(** The entries "." and ".." of the directory [i]. *)
Definition dot_dirent (name : list Z) (inum : Z) : ramfs_dirent :=
  RamfsDirent (SIZEOF_DIRENT - VFS_RAMFS_NAME_MAX - 1 + SIZEOF_SIZE_T) inum (length name)
    (name ++ replicate (VFS_RAMFS_NAME_MAX + 1 - length name) 0).

(** What malloc returned is not looked at, only [ec], which malloc does not set: a
    null pointer is cleared.  When an insertion of an entry fails [ec] is not set,
    so both are made. *)
Definition vfs_ramfs_mount ec (media list_ok usage_ok : bool) (usage : list bool) (h : HS) : outcome (badge_cause * option (ramfs HS)) :=
  if media then Done (ECAUSE_PARAM, None) else
  if negb (is_ok ec) then Done (ec, None) else
  if negb (list_ok && usage_ok) then Undef else
  let inode_list_len := 32%nat in
  let ec := ECAUSE_OK in
  let usage := replicate (inode_list_len - 2) false ++ drop (inode_list_len - 2) usage in
  let usage := <[VFS_RAMFS_INODE_ROOT := true]> usage in
  let root := RamfsInode 0 0 [] (Z.of_nat VFS_RAMFS_INODE_ROOT)
    (Z.lor (Z.shiftl FILETYPE_DIR VFS_RAMFS_MODE_BIT) 0x1ff) 1 in
  let fs := Ramfs (<[VFS_RAMFS_INODE_ROOT := root]> (replicate inode_list_len zero_inode)) usage h in
  '(_, ec, fs) ← insert_dirent ec VFS_RAMFS_INODE_ROOT (dot_dirent dot (Z.of_nat VFS_RAMFS_INODE_ROOT)) fs;
  '(_, ec, fs) ← insert_dirent ec VFS_RAMFS_INODE_ROOT (dot_dirent dotdot (Z.of_nat VFS_RAMFS_INODE_ROOT)) fs;
  Done (ec, Some fs).

(** ** Files and directories *)

Definition vfs_ramfs_create_file ec (dir : nat) (name : list Z) fs : outcome (badge_cause * ramfs HS) :=
  '(_, ec, fs) ← create_file ec dir name FILETYPE_REG fs; Done (ec, fs).

(** [dir_inode] is the inode number in the handle of the directory. *)
Definition vfs_ramfs_create_dir ec (dir : nat) (dir_inode : Z) (name : list Z) fs : outcome (badge_cause * ramfs HS) :=
  '(iptr, ec, fs) ← create_file ec dir name FILETYPE_DIR fs;
  if negb (is_ok ec) then Done (ec, fs) else
  i ← deref iptr;
  ino ← deref (inode_list fs !! i);
  let undo fs :=
    fs ← pop_inode_refcount i fs;
    ent ← find_dirent dir name fs;
    match ent with
    | Some off => fs ← remove_dirent dir off fs; Done (ECAUSE_OK, fs)
    | None => Panic
    end in
  '(_, ec, fs) ← insert_dirent ec i (dot_dirent dot (inode ino)) fs;
  if negb (is_ok ec) then undo fs else
  '(_, ec, fs) ← insert_dirent ec i (dot_dirent dotdot dir_inode) fs;
  if negb (is_ok ec) then undo fs else Done (ec, fs).

Definition is_directory (ino : ramfs_inode) : bool :=
  Z.land (mode ino) VFS_RAMFS_MODE_MASK =? Z.shiftl FILETYPE_DIR VFS_RAMFS_MODE_BIT.

Definition vfs_ramfs_unlink ec (dir : nat) (name : list Z) fs : outcome (badge_cause * ramfs HS) :=
  if cstr_equals name dot || cstr_equals name dotdot then Done (ECAUSE_PARAM, fs) else
  ent ← find_dirent dir name fs;
  match ent with
  | None => Done (ECAUSE_NOTFOUND, fs)
  | Some off =>
      d ← deref (inode_list fs !! dir);
      inum ← ent_inode (buf d) off;
      iptr ← deref (inode_list fs !! Z.to_nat inum);
      empty ← (if is_directory iptr then is_dir_empty iptr else Done true);
      if (empty : bool) then
        fs ← pop_inode_refcount (Z.to_nat inum) fs;
        fs ← remove_dirent dir off fs;
        Done (ECAUSE_OK, fs)
      else Done (ECAUSE_NOTEMPTY, fs)
  end.

Definition vfs_ramfs_exists (dir : nat) (name : list Z) fs : outcome (badge_cause * bool) :=
  ent ← find_dirent dir name fs;
  Done (ECAUSE_OK, bool_decide (is_Some ent)).

(** ** Handles *)

Definition vfs_ramfs_root_open (file : file_shared) fs : outcome (badge_cause * file_shared * ramfs HS) :=
  ino ← deref (inode_list fs !! VFS_RAMFS_INODE_ROOT);
  let file := FileShared 1 (size file) (Some VFS_RAMFS_INODE_ROOT) (Z.of_nat VFS_RAMFS_INODE_ROOT) in
  Done (ECAUSE_OK, file, put_inode VFS_RAMFS_INODE_ROOT (set_links (u64 (links ino + 1)) ino) fs).

Definition vfs_ramfs_file_open (dir : nat) (file : file_shared) (name : list Z) fs
    : outcome (badge_cause * file_shared * ramfs HS) :=
  ent ← find_dirent dir name fs;
  match ent with
  | None => Done (ECAUSE_NOTFOUND, file, fs)
  | Some off =>
      d ← deref (inode_list fs !! dir);
      inum ← ent_inode (buf d) off;
      iptr ← deref (inode_list fs !! Z.to_nat inum);
      let file := FileShared 1 (Z.of_nat (len iptr)) (Some (Z.to_nat inum)) (inode iptr) in
      Done (ECAUSE_OK, file, put_inode (Z.to_nat inum) (set_links (u64 (links iptr + 1)) iptr) fs)
  end.

Definition vfs_ramfs_file_close (file : file_shared) fs : outcome (badge_cause * file_shared * ramfs HS) :=
  i ← deref (ramfs_file file);
  fs ← pop_inode_refcount i fs;
  Done (ECAUSE_OK, FileShared (refcount file) (size file) None (f_inode file), fs).

(** The signed sum of the bounds check must not overflow. *)
Definition off_add (a b : Z) : outcome Z := if decide (- 2 ^ 63 <= a + b < 2 ^ 63) then Done (a + b) else Undef.

Definition vfs_ramfs_file_read (file : file_shared) (offset : Z) (readbuf : list Z) (readlen : Z) fs
    : outcome (badge_cause * list Z) :=
  if offset <? 0 then Done (ECAUSE_RANGE, readbuf) else
  i ← deref (ramfs_file file);
  iptr ← deref (inode_list fs !! i);
  sum ← off_add offset readlen;
  if (Z.of_nat (len iptr) <? sum) || (sum <? offset) then Done (ECAUSE_RANGE, readbuf) else
  if decide (Z.to_nat sum <= length (buf iptr) ∧ Z.to_nat readlen <= length readbuf)%nat then
    Done (ECAUSE_OK, mem_copy readbuf 0 (buf iptr) (Z.to_nat offset) (Z.to_nat readlen))
  else Undef.

Definition vfs_ramfs_file_write (file : file_shared) (offset : Z) (writebuf : list Z) (writelen : Z) fs
    : outcome (badge_cause * ramfs HS) :=
  if offset <? 0 then Done (ECAUSE_RANGE, fs) else
  i ← deref (ramfs_file file);
  iptr ← deref (inode_list fs !! i);
  sum ← off_add offset writelen;
  if (Z.of_nat (len iptr) <? sum) || (sum <? offset) then Done (ECAUSE_RANGE, fs) else
  fs ← store i (Z.to_nat offset) writebuf 0 (Z.to_nat writelen) fs;
  Done (ECAUSE_OK, fs).

Definition vfs_ramfs_file_resize ec (file : file_shared) (new_size : Z) fs
    : outcome (badge_cause * file_shared * ramfs HS) :=
  if new_size <? 0 then Done (ECAUSE_RANGE, file, fs) else
  i ← deref (ramfs_file file);
  iptr ← deref (inode_list fs !! i);
  let old_size := Z.of_nat (len iptr) in
  '(ok, ec, fs) ← resize_inode ec i (Z.to_nat new_size) fs;
  if (ok : bool) then
    let file := FileShared (refcount file) new_size (ramfs_file file) (f_inode file) in
    if old_size <? new_size then
      iptr ← deref (inode_list fs !! i);
      if decide (Z.to_nat new_size <= length (buf iptr))%nat then
        let b := mem_set (buf iptr) (Z.to_nat old_size) 0 (Z.to_nat (new_size - old_size)) in
        Done (ec, file, put_inode i (set_data b iptr) fs)
      else Undef
    else Done (ec, file, fs)
  else Done (ec, file, fs).

Definition vfs_ramfs_flush fs : badge_cause := ECAUSE_OK.

(** ** Reading directories *)

(** [offsetof(dirent_t, name)]: the record length, the inode number, two flags
    at 16 and 17, and the name length at 24 come first. *)
Definition OFFSETOF_DIRENT_NAME : nat := 32.

Definition put_bytes (off : nat) (bs : list Z) (out : list Z) : outcome (list Z) :=
  if decide (off + length bs <= length out)%nat then Done (mem_copy out off bs 0 (length bs)) else Undef.

Definition measure_dirent (b : list Z) (off : nat) : outcome nat :=
  n ← ent_name_len b off; Done (pad_size (OFFSETOF_DIRENT_NAME + n + 1)).

Definition is_symlink (ino : ramfs_inode) : bool :=
  Z.land (mode ino) VFS_RAMFS_MODE_MASK =? Z.shiftl FILETYPE_LINK VFS_RAMFS_MODE_BIT.

(** Converts the entry at [off] of the directory data [b] to a [dirent_t] at
    [out_off] of [out]; returns the record length. *)
Definition convert_dirent fs (b : list Z) (off : nat) (out_off : nat) (out : list Z) : outcome (nat * list Z) :=
  inum ← ent_inode b off;
  iptr ← deref (inode_list fs !! Z.to_nat inum);
  n ← ent_name_len b off;
  let record_len := pad_size (OFFSETOF_DIRENT_NAME + n + 1) in
  out ← put_bytes out_off (to_bytes 8 (Z.of_nat record_len)) out;
  out ← put_bytes (out_off + 8) (to_bytes 8 inum) out;
  out ← put_bytes (out_off + 16) [Z.b2z (is_directory iptr)] out;
  out ← put_bytes (out_off + 17) [Z.b2z (is_symlink iptr)] out;
  out ← put_bytes (out_off + 24) (to_bytes 8 (Z.of_nat n)) out;
  _ ← assert_inside (off + OFFSETOF_NAME + n + 1 <=? length b)%nat;
  out ← put_bytes (out_off + OFFSETOF_DIRENT_NAME) (take (n + 1) (drop (off + OFFSETOF_NAME) b)) out;
  Done (record_len, out).

Fixpoint measure_loop (fuel : nat) (b : list Z) (l off cap : nat) : outcome nat :=
  match fuel with
  | O => Fuel
  | S fuel =>
      if decide (off < l)%nat then
        m ← measure_dirent b off;
        sz ← ent_size b off;
        measure_loop fuel b l (off + sz) (cap + m)
      else Done cap
  end.

Fixpoint convert_loop (fuel : nat) fs (b : list Z) (l off out_off : nat) (out : list Z) : outcome (list Z) :=
  match fuel with
  | O => Fuel
  | S fuel =>
      if decide (off < l)%nat then
        '(record_len, out) ← convert_dirent fs b off out_off out;
        sz ← ent_size b off;
        convert_loop fuel fs b l (off + sz) (out_off + record_len) out
      else Done out
  end.

(** [dir_cache] is the cache of the handle; the new cache and its size. *)
Definition vfs_ramfs_dir_read (dir : nat) (dir_cache : list Z) fs
    : outcome (badge_cause * option (list Z * Z) * ramfs HS) :=
  iptr ← deref (inode_list fs !! dir);
  cap ← measure_loop (S (len iptr)) (buf iptr) (len iptr) 0 0;
  let '(mem, h) := heap_realloc dir_cache cap (heap fs) in
  let fs := set_heap h fs in
  match mem with
  | None => Done (ECAUSE_NOMEM, None, fs)
  | Some out =>
      out ← convert_loop (S (len iptr)) fs (buf iptr) (len iptr) 0 0 out;
      Done (ECAUSE_OK, Some (out, Z.of_nat cap), fs)
  end.

(** [out] is the memory of the [dirent_t] of the caller. *)
Definition vfs_ramfs_dir_find_ent (dir : nat) (name : list Z) (out : list Z) fs : outcome (bool * list Z) :=
  ent ← find_dirent dir name fs;
  match ent with
  | None => Done (false, out)
  | Some off =>
      iptr ← deref (inode_list fs !! dir);
      '(_, out) ← convert_dirent fs (buf iptr) off 0 out;
      Done (true, out)
  end.
End ramfs.
