(* ===== verification/RamfsTheory.v ===== *)
(** * Directories of the RAM file system

    The relation between the bytes of a directory and its list of entries, and
    what the helpers of vfs_ramfs.c do to it. *)

From S2P Require Import Prelude Badgelib IntRoutines Ramfs.

(** ** Records *)

(** An entry is a name and an inode number. *)
Abbreviation entry := (list Z * Z)%type.

Definition name_ok (name : list Z) : Prop :=
  Forall (λ c, 0 < c < 256) name ∧ (length name <= VFS_RAMFS_NAME_MAX)%nat.
Definition entry_ok (e : entry) : Prop := name_ok (fst e) ∧ fits 64 (snd e).

Definition record_size (name : list Z) : nat := pad_size (OFFSETOF_NAME + length name + 1).

(** The bytes of an entry in a directory: the name is followed by zeroes. *)
Definition record (e : entry) : list Z :=
  to_bytes 8 (Z.of_nat (record_size (fst e))) ++ to_bytes 8 (snd e) ++ to_bytes 8 (Z.of_nat (length (fst e))) ++
  fst e ++ replicate (record_size (fst e) - OFFSETOF_NAME - length (fst e)) 0.

Definition records (es : list entry) : list Z := concat (map record es).

(** Sizes are padded to a multiple of 8. *)
Lemma pad_size_spec s : (s < 1000)%nat → (s <= pad_size s < s + 8)%nat ∧ (8 | Z.of_nat (pad_size s)).
Proof.
  intros Hs. unfold pad_size, SIZEOF_SIZE_T. change (Z.of_nat 8) with 8.
  assert (u64 (wnot 64 (Z.of_nat s) + 1) mod 8 = (- Z.of_nat s) mod 8) as E.
  { unfold wnot, wrap. rewrite Zplus_mod_idemp_l. unfold Z.lnot.
    replace (Z.pred (- Z.of_nat s) + 1) with (- Z.of_nat s) by lia.
    change (2 ^ 64) with (8 * 2 ^ 61).
    rewrite Z.rem_mul_r by lia. rewrite Z.mul_comm, Z.mod_add by lia. by rewrite Z.mod_mod. }
  rewrite E. pose proof (Z.mod_pos_bound (- Z.of_nat s) 8). split; [lia|].
  rewrite Nat2Z.inj_add, Z2Nat.id by lia. apply Z.mod_divide; [done|].
  rewrite Zplus_mod_idemp_r. by rewrite Z.add_opp_diag_r.
Qed.

Lemma record_size_bounds name : (length name <= VFS_RAMFS_NAME_MAX)%nat →
  (OFFSETOF_NAME + length name + 1 <= record_size name <= SIZEOF_DIRENT)%nat.
Proof.
  intros Hl. unfold record_size, SIZEOF_DIRENT, VFS_RAMFS_NAME_MAX, OFFSETOF_NAME in *.
  destruct (pad_size_spec (24 + length name + 1)) as [Hb [k Hk]]; [lia|]. lia.
Qed.

Lemma record_length e : name_ok (fst e) → length (record e) = record_size (fst e).
Proof.
  intros [_ Hl]. pose proof (record_size_bounds (fst e) Hl). unfold record.
  rewrite !length_app, !length_to_bytes, length_replicate. unfold OFFSETOF_NAME in *. lia.
Qed.

(** ** Reading the fields of a record *)

Lemma read_word_at (pre w post : list Z) x : w = to_bytes 8 x → fits 64 x →
  read_word (pre ++ w ++ post) (length pre) = Done x.
Proof.
  intros -> Hx. unfold read_word. rewrite decide_True by (rewrite !length_app, length_to_bytes; lia).
  rewrite drop_app_length, take_app_length' by by rewrite length_to_bytes. by rewrite of_to_bytes.
Qed.

Lemma cstr_app name post : Forall (λ c, 0 < c < 256) name → cstr (name ++ 0 :: post) = Done name.
Proof.
  induction name as [|c name IH]; intros Hn; [done|]. apply Forall_cons in Hn as [Hc Hn].
  cbn [app cstr]. rewrite (proj2 (Z.eqb_neq c 0)) by lia. by rewrite IH.
Qed.

Section fields.
Context (pre post : list Z) (e : entry) (He : entry_ok e).
Let b := pre ++ record e ++ post.

Lemma size_fits : fits 64 (Z.of_nat (record_size (fst e))).
Proof.
  destruct He as [[_ Hl] _]. pose proof (record_size_bounds (fst e) Hl).
  unfold fits, SIZEOF_DIRENT, OFFSETOF_NAME, VFS_RAMFS_NAME_MAX in *. lia.
Qed.

Lemma ent_size_at : ent_size b (length pre) = Done (record_size (fst e)).
Proof.
  unfold ent_size, b, record. rewrite <-!app_assoc. rewrite (read_word_at _ _ _ _ eq_refl) by apply size_fits.
  cbn [mbind outcome_bind]. by rewrite Nat2Z.id.
Qed.

Lemma ent_inode_at : ent_inode b (length pre) = Done (snd e).
Proof.
  unfold ent_inode, b, record. rewrite <-!app_assoc. rewrite app_assoc.
  replace (length pre + 8)%nat with (length (pre ++ to_bytes 8 (Z.of_nat (record_size (fst e)))))
    by (rewrite length_app, length_to_bytes; lia).
  apply read_word_at; [done|apply He].
Qed.

Lemma ent_name_len_at : ent_name_len b (length pre) = Done (length (fst e)).
Proof.
  unfold ent_name_len, b, record. rewrite <-!app_assoc. rewrite (app_assoc pre), (app_assoc (pre ++ _)).
  replace (length pre + 16)%nat with (length ((pre ++ to_bytes 8 (Z.of_nat (record_size (fst e)))) ++ to_bytes 8 (snd e)))
    by (rewrite !length_app, !length_to_bytes; lia).
  destruct He as [[_ Hl] _]. rewrite (read_word_at _ _ _ (Z.of_nat (length (fst e))) eq_refl)
    by (unfold fits, VFS_RAMFS_NAME_MAX in *; lia).
  cbn [mbind outcome_bind]. by rewrite Nat2Z.id.
Qed.

(** The name array with its terminator. *)
Lemma name_at : ∃ post', drop (length pre + OFFSETOF_NAME) b = fst e ++ 0 :: post'.
Proof.
  destruct He as [[Hn Hl] _]. pose proof (record_size_bounds (fst e) Hl) as Hb. unfold b, record.
  rewrite drop_app_add. exists (replicate (record_size (fst e) - OFFSETOF_NAME - length (fst e) - 1) 0 ++ post).
  rewrite <-!app_assoc. rewrite (app_assoc (to_bytes 8 _)), (app_assoc (to_bytes 8 _ ++ _)).
  rewrite drop_app_length' by (rewrite !length_app, !length_to_bytes; done). f_equal.
  assert (record_size (fst e) - OFFSETOF_NAME - length (fst e) ≠ 0)%nat as Hk by lia.
  destruct (record_size (fst e) - OFFSETOF_NAME - length (fst e))%nat as [|k]; [done|].
  simpl. by rewrite Nat.sub_0_r.
Qed.

Lemma ent_name_at : ent_name b (length pre) = Done (fst e).
Proof. unfold ent_name. destruct name_at as [post' ->]. apply cstr_app, He. Qed.
End fields.

(** ** Directories *)

(** The first [l] bytes of [b] are the records of [es]. *)
Definition dir_data (b : list Z) (l : nat) (es : list entry) : Prop :=
  Forall entry_ok es ∧ (l <= length b)%nat ∧ take l b = records es.

Lemma records_app es es' : records (es ++ es') = records es ++ records es'.
Proof. unfold records. by rewrite map_app, concat_app. Qed.

Lemma records_cons e es : records (e :: es) = record e ++ records es.
Proof. done. Qed.

Lemma records_one e : records [e] = record e.
Proof. rewrite records_cons. apply app_nil_r. Qed.

Lemma dir_data_split b l es1 e es2 : dir_data b l (es1 ++ e :: es2) →
  b = records es1 ++ record e ++ (records es2 ++ drop l b) ∧
  l = (length (records es1) + record_size (fst e) + length (records es2))%nat ∧
  entry_ok e.
Proof.
  intros (Hok&Hl&Ht). apply Forall_app in Hok as [_ [He _]%Forall_cons].
  rewrite records_app, records_cons in Ht. split_and!; [| |done].
  - rewrite <-(take_drop l b) at 1. rewrite Ht. by rewrite <-!app_assoc.
  - apply (f_equal length) in Ht. rewrite length_take, !length_app, record_length in Ht by apply He. lia.
Qed.

Section find.
Context `{!BadgeStrings} `{!BadgeStringsSpec}.

(** Position of the first entry with a name. *)
Fixpoint find_entry (name : list Z) (es : list entry) : option (nat * entry) :=
  match es with
  | [] => None
  | e :: es => if decide (fst e = name) then Some (0%nat, e) else '(k, e') ← find_entry name es; Some (S k, e')
  end.

Lemma find_entry_Some name es k e : find_entry name es = Some (k, e) →
  ∃ es1 es2, es = es1 ++ e :: es2 ∧ length es1 = k ∧ fst e = name ∧ Forall (λ e', fst e' ≠ name) es1.
Proof.
  revert k; induction es as [|e0 es IH]; intros k; cbn [find_entry]; [done|]. case_decide as Hd.
  - intros [= <- <-]. by exists [], es.
  - destruct (find_entry name es) as [[k' e']|]; cbn [mbind option_bind]; [|done]. intros [= <- <-].
    destruct (IH k' eq_refl) as (es1&es2&->&<-&?&?). exists (e0 :: es1), es2. split_and!; try done. by constructor.
Qed.

Lemma find_entry_None name es : find_entry name es = None ↔ name ∉ es.*1.
Proof.
  induction es as [|e es IH]; cbn [find_entry]; [split; [by intros _ ?%elem_of_nil|done]|].
  rewrite fmap_cons, not_elem_of_cons. case_decide as Hd.
  - split; [done|]. intros [? _]. congruence.
  - rewrite <-IH. destruct (find_entry name es) as [[]|]; cbn [mbind option_bind]; split; try done; intros []; congruence.
Qed.

(** The search visits the records in order. *)
Lemma find_loop_spec name b l es : ∀ es0 fuel, dir_data b l (es0 ++ es) → (length es < fuel)%nat →
  find_loop fuel b l (length (records es0)) name =
    Done (fmap (λ '(k, _), length (records (es0 ++ take k es))) (find_entry name es)).
Proof.
  induction es as [|e es IH]; intros es0 fuel HD Hf; (destruct fuel as [|fuel]; [lia|]); cbn [find_loop find_entry].
  - rewrite decide_False; [done|]. destruct HD as (_&Hl&Ht). rewrite app_nil_r in Ht. rewrite <-Ht, length_take. lia.
  - destruct (dir_data_split _ _ _ _ _ HD) as (Hb&Hl&He).
    pose proof (record_size_bounds (fst e) (proj2 (proj1 He))) as Hsz. unfold OFFSETOF_NAME in Hsz.
    rewrite decide_True by lia. rewrite Hb, ent_name_at, ent_size_at by done. cbn [mbind outcome_bind].
    rewrite cstr_equals_spec. destruct (decide (fst e = name)) as [Hn|Hn].
    + rewrite bool_decide_eq_true_2 by done. cbn [fmap option_fmap option_map take]. by rewrite app_nil_r.
    + rewrite bool_decide_eq_false_2 by congruence. rewrite <-Hb.
      replace (length (records es0) + record_size (fst e))%nat with (length (records (es0 ++ [e]))).
      2: { rewrite records_app, length_app, records_one, record_length by apply He. done. }
      rewrite IH; [|by rewrite <-app_assoc|simpl in Hf; lia].
      destruct (find_entry name es) as [[k e']|]; [|done]. cbn [mbind option_bind fmap option_fmap option_map take].
      by rewrite <-app_assoc.
Qed.

Lemma records_length_ge es : Forall entry_ok es → (25 * length es <= length (records es))%nat.
Proof.
  induction es as [|e es IH]; intros Hes; [done|]. apply Forall_cons in Hes as [He Hes].
  rewrite records_cons, length_app, record_length by apply He.
  pose proof (record_size_bounds (fst e) (proj2 (proj1 He))). unfold OFFSETOF_NAME in *. simpl. specialize (IH Hes). lia.
Qed.

Lemma dir_data_length b l es : dir_data b l es → l = length (records es).
Proof. intros (_&Hl&Ht). rewrite <-Ht, length_take. lia. Qed.

Lemma dir_find name b l es : dir_data b l es →
  find_loop (S l) b l 0 name = Done (fmap (λ '(k, _), length (records (take k es))) (find_entry name es)).
Proof.
  intros HD. apply (find_loop_spec name b l es [] (S l)); [done|]. rewrite (dir_data_length _ _ _ HD).
  destruct HD as [Hok _]. pose proof (records_length_ge es Hok). lia.
Qed.

(** Only "." and ".." *)
Lemma empty_loop_spec b l es : ∀ es0 fuel, dir_data b l (es0 ++ es) → (length es < fuel)%nat →
  empty_loop fuel b l (length (records es0)) = Done (bool_decide (Forall (λ e, fst e = dot ∨ fst e = dotdot) es)).
Proof.
  induction es as [|e es IH]; intros es0 fuel HD Hf; (destruct fuel as [|fuel]; [lia|]); cbn [empty_loop].
  - rewrite decide_False; [by rewrite bool_decide_eq_true_2|].
    destruct HD as (_&Hl&Ht). rewrite app_nil_r in Ht. rewrite <-Ht, length_take. lia.
  - destruct (dir_data_split _ _ _ _ _ HD) as (Hb&Hl&He).
    pose proof (record_size_bounds (fst e) (proj2 (proj1 He))) as Hsz. unfold OFFSETOF_NAME in Hsz.
    rewrite decide_True by lia. rewrite Hb, ent_name_at, ent_size_at by done. cbn [mbind outcome_bind].
    rewrite !cstr_equals_spec. destruct (decide (fst e = dot ∨ fst e = dotdot)) as [Hd|Hd].
    + assert (negb (bool_decide (dot = fst e)) && negb (bool_decide (dotdot = fst e)) = false) as ->.
      { apply andb_false_iff. destruct Hd as [-> | ->]; [left|right]; by rewrite bool_decide_eq_true_2. }
      rewrite <-Hb.
      replace (length (records es0) + record_size (fst e))%nat with (length (records (es0 ++ [e]))).
      2: { rewrite records_app, length_app, records_one, record_length by apply He. done. }
      rewrite IH; [|by rewrite <-app_assoc|simpl in Hf; lia]. f_equal. apply bool_decide_ext.
      rewrite Forall_cons. tauto.
    + rewrite !bool_decide_eq_false_2 by (intros E; apply Hd; rewrite <-E; tauto). cbn [negb andb].
      symmetry. f_equal. apply bool_decide_eq_false_2. intros [? _]%Forall_cons. done.
Qed.
End find.

(** ** Buffers *)

Definition inode_ok (ino : ramfs_inode) : Prop := length (buf ino) = cap ino ∧ (len ino <= cap ino)%nat.

(** Everything but the data. *)
Definition same_inode (ino ino' : ramfs_inode) : Prop :=
  inode ino' = inode ino ∧ mode ino' = mode ino ∧ links ino' = links ino.

Lemma grow_spec fuel : ∀ c s, (0 < c)%nat → Z.of_nat s <= Z.of_nat c * 2 ^ Z.of_nat fuel →
  ∃ c', grow (S fuel) c s = Done c' ∧ (s <= c')%nat.
Proof.
  induction fuel as [|fuel IH]; intros c s Hc Hs; cbn [grow].
  - rewrite decide_False by (simpl in Hs; lia). exists c. split; [done|simpl in Hs; lia].
  - case_decide; [|exists c; split; [done|lia]]. apply IH; [lia|].
    rewrite Nat2Z.inj_succ, Z.pow_succ_r in Hs by lia. rewrite Nat2Z.inj_mul. lia.
Qed.

Section resize.
Context `{!BadgeStrings} `{!BadgeStringsSpec} `{!KernelHeap HS} `{!KernelHeapSpec HS}.
Implicit Types fs : ramfs HS.

(** Resizing keeps the data that fit and changes no other inode; when it
    fails nothing changes. *)
Lemma resize_inode_spec ec i sz fs ino : inode_list fs !! i = Some ino → inode_ok ino → Z.of_nat sz < 2 ^ 63 →
  ∃ ok ec' fs', resize_inode ec i sz fs = Done (ok, ec', fs') ∧ inode_usage fs' = inode_usage fs ∧
    (ec' = ec ∨ ec' = ECAUSE_OK) ∧ ((sz <= cap ino)%nat → ok = true) ∧
    if (ok : bool) then ∃ ino', inode_list fs' = <[i := ino']> (inode_list fs) ∧ inode_ok ino' ∧ len ino' = sz ∧
      same_inode ino ino' ∧ take (Nat.min (len ino) sz) (buf ino') = take (Nat.min (len ino) sz) (buf ino)
    else inode_list fs' = inode_list fs.
Proof.
  intros Hi [Hb Hl] Hsz. unfold resize_inode. rewrite Hi. cbn [deref mbind outcome_bind].
  assert (Hprefix : ∀ n b' h', heap_realloc (buf ino) n (heap fs) = (Some b', h') → (sz <= n)%nat →
    length b' = n ∧ take (Nat.min (len ino) sz) b' = take (Nat.min (len ino) sz) (buf ino)).
  { intros n b' h' E Hn. destruct (heap_realloc_spec _ _ _ _ _ E) as [Hlen Ht]. split; [done|].
    apply (f_equal (take (Nat.min (len ino) sz))) in Ht. rewrite !take_take in Ht.
    rewrite Nat.min_l in Ht by lia. done. }
  destruct (decide (2 * sz <= cap ino)%nat) as [Hbig|Hbig]; [|destruct (decide (sz <= cap ino)%nat) as [Hfit|Hfit]].
  - assert (sz <= cap ino / 2)%nat as Hhalf by (apply Nat.div_le_lower_bound; lia).
    destruct (heap_realloc (buf ino) (cap ino / 2) (heap fs)) as [[b'|] h'] eqn:E.
    + destruct (Hprefix _ _ _ E Hhalf) as [Hlen Ht]. eexists _, _, _. split_and!; [reflexivity|done|by left|done|].
      eexists. split_and!; [reflexivity|split; cbn [buf cap len set_buf set_len set_data length]; lia|done..].
    + case_decide as Hz; eexists _, _, _; (split_and!; [reflexivity|done|by left|done|]).
      * assert (sz = 0%nat) as -> by lia. eexists. split_and!; [reflexivity|split; cbn [buf cap len set_buf set_len set_data length]; lia|done|done|].
        by rewrite Nat.min_0_r.
      * eexists. split_and!; [reflexivity|split; cbn [buf cap len set_buf set_len set_data length]; lia|done..].
  - eexists _, _, _. split_and!; [reflexivity|done|by right|done|].
    eexists. split_and!; [reflexivity|split; cbn [buf cap len set_buf set_len set_data length]; lia|done..].
  - destruct (grow_spec 63 1 sz) as (c&E&Hc); [lia|simpl; lia|]. rewrite E. cbn [mbind outcome_bind].
    destruct (heap_realloc (buf ino) c (heap fs)) as [[b'|] h'] eqn:Er.
    + destruct (Hprefix _ _ _ Er Hc) as [Hlen Ht]. eexists _, _, _. split_and!; [reflexivity|done|by left|done|].
      eexists. split_and!; [reflexivity|split; cbn [buf cap len set_buf set_len set_data length]; lia|done..].
    + eexists _, _, _. split_and!; [reflexivity|done|by left|lia|done].
Qed.

(** The record a structure contributes to a directory. *)
Definition dirent_of (e : entry) : ramfs_dirent :=
  RamfsDirent (record_size (fst e)) (snd e) (length (fst e))
    (fst e ++ replicate (VFS_RAMFS_NAME_MAX + 1 - length (fst e)) 0).

Lemma dirent_bytes_take e : name_ok (fst e) → take (record_size (fst e)) (dirent_bytes (dirent_of e)) = record e.
Proof.
  intros [_ Hl]. pose proof (record_size_bounds (fst e) Hl) as Hb. unfold dirent_bytes, dirent_of, record. simpl d_size. simpl d_inode. simpl d_name_len. simpl d_name.
  unfold SIZEOF_DIRENT, OFFSETOF_NAME, VFS_RAMFS_NAME_MAX in *.
  rewrite (app_assoc (to_bytes 8 _)), (app_assoc (to_bytes 8 _ ++ _)), (app_assoc _ (fst e)).
  rewrite (app_assoc (to_bytes 8 _) (to_bytes 8 (snd e))), (app_assoc (to_bytes 8 _ ++ _)), (app_assoc _ (fst e)).
  rewrite take_app_ge by (rewrite !length_app, !length_to_bytes; lia). f_equal.
  rewrite take_replicate, !length_app, !length_to_bytes. f_equal. lia.
Qed.

Lemma new_dirent_spec name inum : name_ok name →
  new_dirent name (cstr_length_upto name (VFS_RAMFS_NAME_MAX + 1)) inum = Done (dirent_of (name, inum)).
Proof.
  intros [_ Hl]. unfold new_dirent. rewrite cstr_length_upto_spec, Nat.min_l by lia.
  rewrite decide_True by lia. unfold dirent_of, record_size. cbn [fst snd]. do 2 f_equal.
  rewrite mem_copy_spec by (rewrite ?length_replicate, ?length_app; cbn [length]; lia).
  rewrite drop_0, (take_ge (name ++ [0])) by (rewrite length_app; cbn [length]; lia). cbn [take app].
  rewrite drop_replicate, <-app_assoc. apply (f_equal (app name)).
  change ([0] ++ replicate ?k 0) with (replicate (S k) 0). f_equal. lia.
Qed.

Lemma dot_dirent_spec name inum : name = dot ∨ name = dotdot → dot_dirent name inum = dirent_of (name, inum).
Proof. by intros [->| ->]. Qed.

(** Insertion at the end of a directory. *)
Lemma insert_dirent_spec ec d e fs ino es : inode_list fs !! d = Some ino → inode_ok ino →
  dir_data (buf ino) (len ino) es → entry_ok e → Z.of_nat (len ino) + 280 < 2 ^ 63 →
  ∃ ok ec' fs', insert_dirent ec d (dirent_of e) fs = Done (ok, ec', fs') ∧ inode_usage fs' = inode_usage fs ∧
    (ec' = ec ∨ ec' = ECAUSE_OK) ∧
    if (ok : bool) then ∃ ino', inode_list fs' = <[d := ino']> (inode_list fs) ∧ inode_ok ino' ∧ same_inode ino ino' ∧
      dir_data (buf ino') (len ino') (es ++ [e]) ∧ len ino' = (len ino + record_size (fst e))%nat
    else inode_list fs' = inode_list fs.
Proof.
  intros Hd Hok HD He Hlen. unfold insert_dirent. rewrite Hd. cbn [deref mbind outcome_bind]. simpl d_size.
  pose proof (record_size_bounds (fst e) (proj2 (proj1 He))) as Hsz.
  unfold SIZEOF_DIRENT, OFFSETOF_NAME, VFS_RAMFS_NAME_MAX in Hsz.
  destruct (resize_inode_spec ec d (len ino + record_size (fst e)) fs ino Hd Hok) as (ok&ec'&fs1&E&Hu&Hec&_&Hr); [lia|].
  rewrite E. cbn [mbind outcome_bind]. destruct ok; cbn [negb].
  2: { eexists _, _, _. split_and!; [reflexivity|done|done|done]. }
  destruct Hr as (ino1&Hl1&[Hb1 Hc1]&Hlen1&Hs1&Ht1). rewrite Nat.min_l in Ht1 by lia.
  unfold store. rewrite Hl1, list_lookup_insert_eq by by eapply lookup_lt_Some. cbn [deref mbind outcome_bind].
  assert (length (dirent_bytes (dirent_of e)) = 280)%nat as Hdb.
  { destruct He as [[_ Hn] _]. unfold VFS_RAMFS_NAME_MAX in Hn. unfold dirent_bytes.
    rewrite !length_app, !length_to_bytes. simpl d_name. rewrite length_app, length_replicate. unfold VFS_RAMFS_NAME_MAX. lia. }
  rewrite decide_True by lia. cbn [mbind outcome_bind].
  set (b := mem_copy (buf ino1) (len ino) (dirent_bytes (dirent_of e)) 0 (record_size (fst e))).
  assert (Hb : b = take (len ino) (buf ino1) ++ record e ++ drop (len ino + record_size (fst e)) (buf ino1)).
  { unfold b. rewrite mem_copy_spec by lia. rewrite drop_0, dirent_bytes_take by apply He. done. }
  assert (Hbl : length b = length (buf ino1)) by (unfold b; apply mem_copy_length; lia).
  eexists _, _, _. split_and!; [reflexivity|done|done|]. exists (set_data b ino1). simpl.
  rewrite Hl1, list_insert_insert_eq. split_and!; [done|split; cbn [buf cap len set_buf set_len set_data length]; lia|apply Hs1..| |done].
  destruct HD as (Hes&_&HD). split_and!; [by apply Forall_app; split; [|constructor]|lia|].
  rewrite records_app, records_one, <-HD, <-Ht1, Hb, Hlen1, app_assoc.
  apply take_app_length'. rewrite length_app, length_take, record_length by apply He. lia.
Qed.

(** Removal of an entry.  The copy moves [len] bytes from behind the entry, so
    it stays inside the buffer only if the capacity allows it. *)
Lemma remove_dirent_spec d fs ino es1 e es2 : inode_list fs !! d = Some ino → inode_ok ino →
  dir_data (buf ino) (len ino) (es1 ++ e :: es2) → Z.of_nat (len ino) < 2 ^ 63 →
  (length (records es1) + len ino <= cap ino)%nat →
  ∃ fs', remove_dirent d (length (records es1)) fs = Done fs' ∧ inode_usage fs' = inode_usage fs ∧
    ∃ ino', inode_list fs' = <[d := ino']> (inode_list fs) ∧ inode_ok ino' ∧ same_inode ino ino' ∧
      dir_data (buf ino') (len ino') (es1 ++ es2).
Proof.
  intros Hd [Hb Hc] HD Hlen Hroom. destruct (dir_data_split _ _ _ _ _ HD) as (Eb&El&He).
  unfold remove_dirent. rewrite Hd. cbn [deref mbind outcome_bind].
  assert (ent_size (buf ino) (length (records es1)) = Done (record_size (fst e))) as Esz by (rewrite Eb; by apply ent_size_at).
  rewrite Esz. cbn [mbind outcome_bind]. unfold store. rewrite Hd. cbn [deref mbind outcome_bind].
  set (off := length (records es1)) in *. set (sz := record_size (fst e)) in *.
  rewrite decide_True by lia. cbn [mbind outcome_bind].
  set (b := mem_copy (buf ino) off (buf ino) (off + sz) (len ino - sz)).
  assert (Hbl : length b = length (buf ino)) by (apply mem_copy_length; lia).
  assert (Ht : take (len ino - sz) b = records (es1 ++ es2)).
  { unfold b. rewrite mem_copy_spec by lia.
    assert (take off (buf ino) = records es1) as -> by (rewrite Eb; apply take_app_length).
    assert (drop (off + sz) (buf ino) = records es2 ++ drop (len ino) (buf ino)) as ->.
    { rewrite Eb at 1. rewrite app_assoc. apply drop_app_length'. rewrite length_app, record_length by apply He. done. }
    rewrite records_app, take_app_ge by (fold off; lia). fold off. f_equal.
    rewrite take_app_le by (rewrite length_take, length_app, length_drop; lia).
    rewrite take_take. rewrite take_app_length' by lia. done. }
  set (ino1 := set_data b ino). set (fs1 := put_inode d ino1 fs).
  assert (Hd1 : inode_list fs1 !! d = Some ino1) by (simpl; apply list_lookup_insert_eq; by eapply lookup_lt_Some).
  destruct (resize_inode_spec ECAUSE_OK d (len ino - sz) fs1 ino1 Hd1) as (ok&ec'&fs'&E&Hu&_&Hok&Hr);
    [split; simpl; lia|lia|]. rewrite E. cbn [mbind outcome_bind].
  rewrite Hok in Hr by (simpl; lia). destruct Hr as (ino'&Hl'&Hok'&Hlen'&Hs'&Ht'). exists fs'. split_and!; [done|done|].
  exists ino'. split_and!; [rewrite Hl'; simpl; apply list_insert_insert_eq|done|apply Hs'..|].
  destruct HD as (Hes&_&_). split_and!.
  - apply Forall_app in Hes as [? [_ ?]%Forall_cons]. by apply Forall_app.
  - destruct Hok'. lia.
  - rewrite Hlen'. simpl in Ht'. rewrite Nat.min_r in Ht' by lia. by rewrite Ht'.
Qed.
End resize.
