(* ===== verification/RamfsCorrect.v ===== *)
(** * Correctness of the RAM file system

    Directories are the lists of entries of [RamfsTheory]; the theorems say
    what each operation does to them, to the inode table and to the data of
    files, including the error paths. *)

From S2P Require Import Prelude Badgelib IntRoutines Ramfs RamfsTheory.

Section correct.
Context `{!BadgeStrings} `{!BadgeStringsSpec} `{!KernelHeap HS} `{!KernelHeapSpec HS}.
Implicit Types fs : ramfs HS.

(** The directory at index [d] has the entries [es]. *)
Definition dir_at fs (d : nat) (ino : ramfs_inode) (es : list entry) : Prop :=
  inode_list fs !! d = Some ino ∧ inode_ok ino ∧ dir_data (buf ino) (len ino) es ∧ Z.of_nat (len ino) < 2 ^ 62.

(** ** Lookup *)

Lemma find_dirent_spec fs d ino es name : dir_at fs d ino es →
  find_dirent d name fs = Done (fmap (λ '(k, _), length (records (take k es))) (find_entry name es)).
Proof. intros (Hd&_&HD&_). unfold find_dirent. rewrite Hd. cbn [deref mbind outcome_bind]. by apply dir_find. Qed.

(** What the search reports of an entry that is present. *)
Lemma find_dirent_present fs d ino es1 e es2 : dir_at fs d ino (es1 ++ e :: es2) → Forall (λ e', fst e' ≠ fst e) es1 →
  find_dirent d (fst e) fs = Done (Some (length (records es1))) ∧
  ent_inode (buf ino) (length (records es1)) = Done (snd e).
Proof.
  intros Hd Hes. rewrite (find_dirent_spec _ _ _ _ _ Hd). destruct Hd as (_&_&HD&_).
  destruct (dir_data_split _ _ _ _ _ HD) as (Eb&_&He). split; [|rewrite Eb; by apply ent_inode_at].
  assert (find_entry (fst e) (es1 ++ e :: es2) = Some (length es1, e)) as ->.
  { clear -Hes. induction es1 as [|e1 es1 IH]; cbn [find_entry app length]; [by rewrite decide_True|].
    apply Forall_cons in Hes as [H1 Hes]. rewrite decide_False by done. by rewrite IH. }
  cbn [fmap option_fmap option_map]. by rewrite take_app_length.
Qed.

(** ** Free inodes *)



Lemma find_inode_None fs : find_inode fs = None →
  ∀ n, (VFS_RAMFS_INODE_FIRST <= n)%nat → inode_usage fs !! n ≠ Some false.
Proof.
  assert (∀ usage i, find_inode_from i usage = None → ∀ k, usage !! k ≠ Some false) as Hn.
  { induction usage as [|[] usage IH]; intros i Hi k; [done| |done].
    destruct k; [done|]. by apply (IH (S i)). }
  intros Hf n Hle. specialize (Hn _ _ Hf (n - VFS_RAMFS_INODE_FIRST)%nat). rewrite lookup_drop in Hn.
  by replace (VFS_RAMFS_INODE_FIRST + (n - VFS_RAMFS_INODE_FIRST))%nat with n in Hn by lia.
Qed.

(** ** Creating files *)


(** Both tables have the same length, and the numbers fit a machine word. *)
Definition tables_ok fs : Prop :=
  length (inode_list fs) = length (inode_usage fs) ∧ Z.of_nat (length (inode_list fs)) < 2 ^ 63.


(** ** Unlinking *)

Lemma pop_inode_refcount_spec fs i ino : tables_ok fs → inode_list fs !! i = Some ino → inode ino = Z.of_nat i →
  0 < links ino < 2 ^ 64 →
  ∃ fs', pop_inode_refcount i fs = Done fs' ∧
    inode_list fs' = <[i := set_links (links ino - 1) ino]> (inode_list fs) ∧
    inode_usage fs' = if decide (links ino = 1) then <[i := false]> (inode_usage fs) else inode_usage fs.
Proof.
  intros [Htab _] Hi Hino Hl. unfold pop_inode_refcount. rewrite Hi. cbn [deref mbind outcome_bind].
  rewrite wrap_small by (unfold fits; lia). cbn [links set_links inode inode_usage put_inode].
  destruct (Z.eqb_spec (links ino - 1) 0) as [E|E].
  - rewrite Hino, Nat2Z.id.
    destruct (lookup_lt_is_Some_2 (inode_usage fs) i) as [u Hu]; [rewrite <-Htab; by eapply lookup_lt_Some|].
    rewrite Hu. cbn [deref mbind outcome_bind]. eexists. split; [reflexivity|]. by rewrite decide_True by lia.
  - eexists. split; [reflexivity|]. by rewrite decide_False by lia.
Qed.

(** Unlinking an entry [e] of a directory, when its inode has a positive
    link count and the copy that closes the gap stays inside the buffer of the
    directory.  A directory with entries other than "." and ".." is refused
    with NOTEMPTY and nothing changes.  Otherwise exactly the entry is removed,
    the link count drops by one, the inode is marked unused exactly when that
    was the last link, and no other inode changes. *)
Theorem unlink_correct ec fs d dino es1 e es2 i ino sub :
  tables_ok fs → dir_at fs d dino (es1 ++ e :: es2) → Forall (λ e', fst e' ≠ fst e) es1 →
  fst e ≠ dot → fst e ≠ dotdot → snd e = Z.of_nat i → i ≠ d →
  inode_list fs !! i = Some ino → inode ino = Z.of_nat i → 0 < links ino < 2 ^ 64 →
  (is_directory ino = true → dir_at fs i ino sub) →
  (length (records es1) + len dino <= cap dino)%nat →
  if is_directory ino && negb (bool_decide (Forall (λ e, fst e = dot ∨ fst e = dotdot) sub)) then
    vfs_ramfs_unlink ec d (fst e) fs = Done (ECAUSE_NOTEMPTY, fs)
  else
    ∃ fs', vfs_ramfs_unlink ec d (fst e) fs = Done (ECAUSE_OK, fs') ∧
      (∃ dino', inode_list fs' !! d = Some dino' ∧ inode_ok dino' ∧ same_inode dino dino' ∧
        dir_data (buf dino') (len dino') (es1 ++ es2)) ∧
      inode_list fs' !! i = Some (set_links (links ino - 1) ino) ∧
      inode_usage fs' = (if decide (links ino = 1) then <[i := false]> (inode_usage fs) else inode_usage fs) ∧
      ∀ j, j ≠ d → j ≠ i → inode_list fs' !! j = inode_list fs !! j.
Proof.
  intros Htab Hd Hes Hdot Hdd Hsnd Hid Hi Hino Hlinks Hsub Hroom.
  destruct (find_dirent_present _ _ _ _ _ _ Hd Hes) as [Hfind Hent]. unfold vfs_ramfs_unlink.
  rewrite !cstr_equals_spec, (bool_decide_eq_false_2 (fst e = dot)), (bool_decide_eq_false_2 (fst e = dotdot)) by done. cbn [orb]. rewrite Hfind. cbn [mbind outcome_bind].
  destruct Hd as (Hd&Hok&HD&Hlen). rewrite Hd. cbn [deref mbind outcome_bind]. rewrite Hent, Hsnd.
  cbn [mbind outcome_bind]. rewrite Nat2Z.id, Hi. cbn [deref mbind outcome_bind].
  set (empty := bool_decide (Forall _ sub)).
  assert ((if is_directory ino then is_dir_empty ino else Done true) = Done (negb (is_directory ino) || empty)) as ->.
  { destruct (is_directory ino); [|done]. destruct (Hsub eq_refl) as (_&_&HS'&_). unfold is_dir_empty.
    apply (empty_loop_spec _ _ sub []); [done|]. rewrite (dir_data_length _ _ _ HS').
    pose proof (records_length_ge _ (proj1 HS')). lia. }
  cbn [mbind outcome_bind]. destruct (is_directory ino && negb empty) eqn:Ene.
  { apply andb_prop in Ene as [-> Hne]. apply negb_true_iff in Hne. by rewrite Hne. }
  assert (negb (is_directory ino) || empty = true) as -> by by destruct (is_directory ino), empty.
  destruct (pop_inode_refcount_spec fs i ino Htab Hi Hino Hlinks) as (fs1&E1&Hl1&Hu1). rewrite E1.
  cbn [mbind outcome_bind].
  destruct (remove_dirent_spec d fs1 dino es1 e es2) as (fs2&E2&Hu2&dino'&Hl2&Hok2&Hs2&HD2);
    [by rewrite Hl1, list_lookup_insert_ne|done|done|lia|done|].
  rewrite E2. cbn [mbind outcome_bind]. exists fs2. split_and!; [done| | |by rewrite Hu2|].
  - exists dino'. split_and!; try done; [|apply Hs2..]. rewrite Hl2, Hl1. apply list_lookup_insert_eq.
    rewrite length_insert. by eapply lookup_lt_Some.
  - rewrite Hl2, Hl1, list_lookup_insert_ne by done. apply list_lookup_insert_eq. by eapply lookup_lt_Some.
  - intros j Hjd Hji. by rewrite Hl2, Hl1, !list_lookup_insert_ne.
Qed.

(** ** File contents *)

(** The data of a file. *)
Definition contents (ino : ramfs_inode) : list Z := take (len ino) (buf ino).

(** The handle refers to inode [i], whose data are addressable by [off_t]. *)
Definition file_at fs (file : file_shared) (i : nat) (ino : ramfs_inode) : Prop :=
  ramfs_file file = Some i ∧ inode_list fs !! i = Some ino ∧ inode_ok ino ∧ Z.of_nat (len ino) < 2 ^ 62.

Lemma contents_length ino : inode_ok ino → length (contents ino) = len ino.
Proof. intros [Hb Hl]. unfold contents. rewrite length_take. lia. Qed.

Lemma file_read_spec fs file i ino off n rb : file_at fs file i ino → (off + n <= len ino)%nat → (n <= length rb)%nat →
  vfs_ramfs_file_read file (Z.of_nat off) rb (Z.of_nat n) fs =
    Done (ECAUSE_OK, take n (drop off (contents ino)) ++ drop n rb).
Proof.
  intros (Hf&Hi&[Hb Hl]&Hlen) Hoff Hn. unfold vfs_ramfs_file_read. rewrite (proj2 (Z.ltb_ge _ _)) by lia.
  rewrite Hf. cbn [deref mbind outcome_bind]. rewrite Hi. cbn [deref mbind outcome_bind]. unfold off_add.
  rewrite decide_True by lia. cbn [mbind outcome_bind]. rewrite !(proj2 (Z.ltb_ge _ _)) by lia. cbn [orb].
  rewrite decide_True by lia. rewrite !Nat2Z.id, mem_copy_spec by lia. cbn [take app Nat.add]. unfold contents.
  rewrite skipn_firstn_comm, take_take, Nat.min_l by lia. done.
Qed.

Lemma file_write_spec fs file i ino off bs : file_at fs file i ino → (off + length bs <= len ino)%nat →
  ∃ fs' ino', vfs_ramfs_file_write file (Z.of_nat off) bs (Z.of_nat (length bs)) fs = Done (ECAUSE_OK, fs') ∧
    inode_usage fs' = inode_usage fs ∧ inode_list fs' = <[i := ino']> (inode_list fs) ∧ file_at fs' file i ino' ∧
    same_inode ino ino' ∧ len ino' = len ino ∧
    contents ino' = take off (contents ino) ++ bs ++ drop (off + length bs) (contents ino).
Proof.
  intros (Hf&Hi&[Hb Hl]&Hlen) Hoff. unfold vfs_ramfs_file_write. rewrite (proj2 (Z.ltb_ge _ _)) by lia.
  rewrite Hf. cbn [deref mbind outcome_bind]. rewrite Hi. cbn [deref mbind outcome_bind]. unfold off_add.
  rewrite decide_True by lia. cbn [mbind outcome_bind]. rewrite !(proj2 (Z.ltb_ge _ _)) by lia. cbn [orb].
  unfold store. rewrite Hi. cbn [deref mbind outcome_bind]. rewrite !Nat2Z.id, decide_True by lia.
  cbn [mbind outcome_bind]. set (b := mem_copy _ _ _ _ _).
  assert (length b = length (buf ino)) as Hbl by (apply mem_copy_length; lia).
  eexists _, (set_data b ino). split; [reflexivity|]. split_and!; try done.
  - split_and!; [done| |split; cbn [buf cap len set_data]; lia|done]. simpl.
    apply list_lookup_insert_eq. by eapply lookup_lt_Some.
  - unfold contents. cbn [buf len set_data]. unfold b. rewrite mem_copy_spec by lia.
    rewrite drop_0, (take_ge bs) by lia. rewrite !take_app, !length_take, skipn_firstn_comm, !take_take.
    f_equal; [f_equal; lia|]. rewrite (take_ge bs) by lia. f_equal. f_equal. lia.
Qed.

(** A write inside a file replaces exactly the written range, keeps the
    size of the file and changes no other inode, and every later read inside
    the file returns the new contents, leaving the rest of the caller's buffer
    as it was. *)
Theorem file_write_read fs file i ino off bs : file_at fs file i ino → (off + length bs <= len ino)%nat →
  ∃ fs' data, vfs_ramfs_file_write file (Z.of_nat off) bs (Z.of_nat (length bs)) fs = Done (ECAUSE_OK, fs') ∧
    data = take off (contents ino) ++ bs ++ drop (off + length bs) (contents ino) ∧ length data = len ino ∧
    (∀ j, j ≠ i → inode_list fs' !! j = inode_list fs !! j) ∧ inode_usage fs' = inode_usage fs ∧
    ∀ o n rb, (o + n <= len ino)%nat → (n <= length rb)%nat →
      vfs_ramfs_file_read file (Z.of_nat o) rb (Z.of_nat n) fs' = Done (ECAUSE_OK, take n (drop o data) ++ drop n rb).
Proof.
  intros Hf Hoff. destruct (file_write_spec fs file i ino off bs Hf Hoff) as (fs'&ino'&E&Hu&Hl&Hf'&_&Hlen&Hdata).
  exists fs', (contents ino'). split_and!; [done|done| | |done|].
  - rewrite contents_length by apply Hf'. done.
  - intros j Hj. by rewrite Hl, list_lookup_insert_ne.
  - intros o n rb Ho Hn. apply (file_read_spec _ _ i); [done|lia|done].
Qed.

(** Accesses that are not inside the file. *)
Lemma file_range_errors fs file i ino off n rb : file_at fs file i ino →
  - 2 ^ 62 < off < 2 ^ 62 → - 2 ^ 62 < n < 2 ^ 62 → (off < 0 ∨ n < 0 ∨ Z.of_nat (len ino) < off + n) →
  vfs_ramfs_file_read file off rb n fs = Done (ECAUSE_RANGE, rb) ∧
  vfs_ramfs_file_write file off rb n fs = Done (ECAUSE_RANGE, fs).
Proof.
  intros (Hf&Hi&Hok&Hlen) Ho Hn Hbad. unfold vfs_ramfs_file_read, vfs_ramfs_file_write.
  destruct (Z.ltb_spec off 0); [done|]. rewrite Hf. cbn [deref mbind outcome_bind]. rewrite Hi.
  cbn [deref mbind outcome_bind]. unfold off_add. rewrite decide_True by lia. cbn [mbind outcome_bind].
  assert ((Z.of_nat (len ino) <? off + n) || (off + n <? off) = true) as ->; [|done].
  apply orb_true_iff. rewrite !Z.ltb_lt. lia.
Qed.

(** Reads and writes that start before the file or end behind it fail
    with RANGE and change neither the file system nor the caller's buffer, and
    a negative size is refused the same way; names that are absent give
    NOTFOUND, and "." and ".." cannot be unlinked. *)
Theorem ramfs_errors fs file i ino : file_at fs file i ino →
  (∀ off n rb, - 2 ^ 62 < off < 2 ^ 62 → - 2 ^ 62 < n < 2 ^ 62 →
    (off < 0 ∨ n < 0 ∨ Z.of_nat (len ino) < off + n) →
    vfs_ramfs_file_read file off rb n fs = Done (ECAUSE_RANGE, rb) ∧
    vfs_ramfs_file_write file off rb n fs = Done (ECAUSE_RANGE, fs)) ∧
  (∀ ec n, n < 0 → vfs_ramfs_file_resize ec file n fs = Done (ECAUSE_RANGE, file, fs)) ∧
  (∀ ec d dino es name f, dir_at fs d dino es → name ∉ es.*1 →
    vfs_ramfs_file_open d f name fs = Done (ECAUSE_NOTFOUND, f, fs) ∧
    vfs_ramfs_exists d name fs = Done (ECAUSE_OK, false) ∧
    (name ≠ dot → name ≠ dotdot → vfs_ramfs_unlink ec d name fs = Done (ECAUSE_NOTFOUND, fs))) ∧
  (∀ ec d name, name = dot ∨ name = dotdot → vfs_ramfs_unlink ec d name fs = Done (ECAUSE_PARAM, fs)).
Proof.
  intros Hf. split_and!.
  - intros off n rb Ho Hn Hbad. by apply (file_range_errors fs file i ino).
  - intros ec n Hn. unfold vfs_ramfs_file_resize. by rewrite (proj2 (Z.ltb_lt _ _)).
  - intros ec d dino es name f Hd Hname. apply find_entry_None in Hname.
    assert (find_dirent d name fs = Done None) as E by (by rewrite (find_dirent_spec _ _ _ _ _ Hd), Hname).
    unfold vfs_ramfs_file_open, vfs_ramfs_exists, vfs_ramfs_unlink. rewrite E. split_and!; [done..|].
    intros H1 H2. rewrite !cstr_equals_spec, !bool_decide_eq_false_2 by done. done.
  - intros ec d name Hn. unfold vfs_ramfs_unlink. rewrite !cstr_equals_spec.
    destruct Hn as [-> | ->]; [by rewrite bool_decide_eq_true_2|].
    by rewrite (bool_decide_eq_true_2 (dotdot = dotdot)), orb_true_r.
Qed.

(** Resizing a file either fails for lack of memory, which is impossible
    when the size fits the capacity, and changes no inode, or cuts the
    contents to the new size or extends them with zeroes, records the size in
    the handle and changes no other inode.  The search for the new capacity
    terminates. *)
Theorem file_resize_correct ec fs file i ino n : file_at fs file i ino → Z.of_nat n < 2 ^ 62 →
  ∃ ec' file' fs', vfs_ramfs_file_resize ec file (Z.of_nat n) fs = Done (ec', file', fs') ∧
    inode_usage fs' = inode_usage fs ∧
    ((file' = file ∧ inode_list fs' = inode_list fs ∧ (cap ino < n)%nat) ∨
     (size file' = Z.of_nat n ∧ ∃ ino', file_at fs' file' i ino' ∧ same_inode ino ino' ∧
        contents ino' = take n (contents ino ++ replicate n 0) ∧
        ∀ j, j ≠ i → inode_list fs' !! j = inode_list fs !! j)).
Proof.
  intros (Hf&Hi&Hok&Hlen) Hn. unfold vfs_ramfs_file_resize. rewrite (proj2 (Z.ltb_ge _ _)) by lia.
  rewrite Hf. cbn [deref mbind outcome_bind]. rewrite Hi. cbn [deref mbind outcome_bind]. rewrite Nat2Z.id.
  destruct (resize_inode_spec ec i n fs ino Hi Hok) as (ok&ec'&fs1&E&Hu&_&Hcap&Hr); [lia|]. rewrite E.
  cbn [mbind outcome_bind]. destruct ok.
  2: { eexists _, _, _. split_and!; [reflexivity|done|]. left. split_and!; [done..|].
       destruct (decide (n <= cap ino)%nat) as [Hc|Hc]; [|lia]. by specialize (Hcap Hc). }
  destruct Hr as (ino1&Hl1&[Hb1 Hc1]&Hlen1&Hs1&Ht1).
  assert (Hi1 : inode_list fs1 !! i = Some ino1).
  { rewrite Hl1. apply list_lookup_insert_eq. by eapply lookup_lt_Some. }
  destruct (Z.ltb_spec (Z.of_nat (len ino)) (Z.of_nat n)) as [Hlt|Hge].
  - rewrite Nat.min_l in Ht1 by lia. rewrite Hi1. cbn [deref mbind outcome_bind]. rewrite decide_True by lia.
    replace (Z.to_nat (Z.of_nat n - Z.of_nat (len ino))) with (n - len ino)%nat by lia.
    set (b := mem_set _ _ _ _). assert (length b = length (buf ino1)) as Hbl by (apply mem_set_length; lia).
    eexists _, _, _. split_and!; [reflexivity|done|]. right. split; [done|]. exists (set_data b ino1). split_and!.
    + split_and!; [done| |split; cbn [buf cap len set_data]; lia|cbn [len set_data]; lia]. simpl.
      apply list_lookup_insert_eq. by eapply lookup_lt_Some.
    + split_and!; apply Hs1.
    + unfold contents. cbn [len buf set_data]. unfold b. rewrite mem_set_spec by lia.
      rewrite Nat2Z.id, Hlen1, app_assoc. replace (len ino + (n - len ino))%nat with n by lia.
      rewrite take_app_length' by (rewrite length_app, length_take, length_replicate; lia).
      rewrite Ht1, take_app_ge by (rewrite length_take; destruct Hok; lia). f_equal.
      rewrite take_replicate, length_take. f_equal. destruct Hok; lia.
    + intros j Hj. simpl. by rewrite Hl1, list_insert_insert_eq, list_lookup_insert_ne.
  - rewrite Nat.min_r in Ht1 by lia. eexists _, _, _. split_and!; [reflexivity|done|]. right. split; [done|].
    exists ino1. split_and!.
    + split_and!; [done|done|done|lia].
    + split_and!; apply Hs1.
    + unfold contents. rewrite Hlen1, Ht1.
      rewrite take_app_le by (rewrite length_take; destruct Hok; lia). rewrite take_take. f_equal. lia.
    + intros j Hj. by rewrite Hl1, list_lookup_insert_ne.
Qed.

(** ** Reading directories *)

(** The length of the [dirent_t] of a name. *)
Definition dirent_len (e : entry) : nat := pad_size (OFFSETOF_DIRENT_NAME + length (fst e) + 1).

(** The [dirent_t] of an entry whose inode is [ino]; [gap] and [pad] are the
    padding inside and behind the structure, which is not written. *)
Definition user_dirent (ino : ramfs_inode) (e : entry) (gap pad : list Z) : list Z :=
  to_bytes 8 (Z.of_nat (dirent_len e)) ++ to_bytes 8 (snd e) ++ [Z.b2z (is_directory ino)] ++ [Z.b2z (is_symlink ino)] ++
  gap ++ to_bytes 8 (Z.of_nat (length (fst e))) ++ (fst e ++ [0]) ++ pad.

Lemma put_bytes_at pre old post bs off : off = length pre → length bs = length old →
  put_bytes off bs (pre ++ old ++ post) = Done (pre ++ bs ++ post).
Proof.
  intros -> Hl. unfold put_bytes. rewrite decide_True by (rewrite !length_app; lia).
  rewrite mem_copy_spec by (rewrite ?length_app; lia).
  rewrite take_app_length, drop_0, (take_ge bs) by lia. do 3 f_equal.
  rewrite app_assoc. apply drop_app_length'. rewrite length_app. lia.
Qed.

Lemma list_split_at {A} (l : list A) n : (n <= length l)%nat → ∃ a b, l = a ++ b ∧ length a = n.
Proof. intros Hn. exists (take n l), (drop n l). rewrite take_drop, length_take. split; [done|lia]. Qed.

Lemma dirent_len_bounds e : name_ok (fst e) → (33 + length (fst e) <= dirent_len e)%nat.
Proof.
  intros [_ Hl]. unfold dirent_len, OFFSETOF_DIRENT_NAME, VFS_RAMFS_NAME_MAX in *.
  destruct (pad_size_spec (32 + length (fst e) + 1)) as [Hb _]; lia.
Qed.

Lemma convert_dirent_spec fs bpre bpost pre chunk post e ino : entry_ok e →
  inode_list fs !! Z.to_nat (snd e) = Some ino → length chunk = dirent_len e →
  ∃ gap pad, length gap = 6%nat ∧ length (user_dirent ino e gap pad) = dirent_len e ∧
    convert_dirent fs (bpre ++ record e ++ bpost) (length bpre) (length pre) (pre ++ chunk ++ post) =
      Done (dirent_len e, pre ++ user_dirent ino e gap pad ++ post).
Proof.
  intros He Hi Hc. pose proof (dirent_len_bounds e (proj1 He)) as Hdl.
  destruct (list_split_at chunk 8) as (w1&r1&->&L1); [lia|]. rewrite length_app in Hc.
  destruct (list_split_at r1 8) as (w2&r2&->&L2); [lia|]. rewrite length_app in Hc.
  destruct (list_split_at r2 1) as (w3&r3&->&L3); [lia|]. rewrite length_app in Hc.
  destruct (list_split_at r3 1) as (w4&r4&->&L4); [lia|]. rewrite length_app in Hc.
  destruct (list_split_at r4 6) as (gap&r5&->&L5); [lia|]. rewrite length_app in Hc.
  destruct (list_split_at r5 8) as (w6&r6&->&L6); [lia|]. rewrite length_app in Hc.
  destruct (list_split_at r6 (length (fst e) + 1)) as (w7&pad&->&L7); [lia|]. rewrite length_app in Hc.
  exists gap, pad. split_and!; [done|unfold user_dirent; rewrite !length_app, !length_to_bytes; cbn [length]; lia|].
  unfold convert_dirent. rewrite ent_inode_at by done. cbn [mbind outcome_bind]. rewrite Hi. cbn [deref mbind outcome_bind].
  rewrite ent_name_len_at by done. cbn [mbind outcome_bind]. fold (dirent_len e).
  rewrite <-!app_assoc. rewrite (put_bytes_at pre w1) by (rewrite ?length_to_bytes; lia). cbn [mbind outcome_bind].
  set (b1 := to_bytes 8 (Z.of_nat (dirent_len e))). assert (length b1 = 8%nat) as B1 by apply length_to_bytes.
  rewrite (app_assoc pre b1).
  rewrite (put_bytes_at (pre ++ b1) w2) by (rewrite ?length_app, ?length_to_bytes; lia). cbn [mbind outcome_bind].
  set (b2 := to_bytes 8 (snd e)). assert (length b2 = 8%nat) as B2 by apply length_to_bytes.
  rewrite (app_assoc _ b2).
  rewrite (put_bytes_at _ w3) by (rewrite ?length_app; cbn [length]; lia). cbn [mbind outcome_bind].
  rewrite (app_assoc _ [Z.b2z (is_directory ino)]).
  rewrite (put_bytes_at _ w4) by (rewrite ?length_app; cbn [length]; lia). cbn [mbind outcome_bind].
  rewrite (app_assoc _ [Z.b2z (is_symlink ino)]), (app_assoc _ gap).
  rewrite (put_bytes_at _ w6) by (rewrite ?length_app, ?length_to_bytes; cbn [length]; lia). cbn [mbind outcome_bind].
  set (b6 := to_bytes 8 (Z.of_nat (length (fst e)))). assert (length b6 = 8%nat) as B6 by apply length_to_bytes.
  destruct (name_at bpre bpost e He) as [post' Hname].
  assert (length bpre + OFFSETOF_NAME + length (fst e) + 1 <= length (bpre ++ record e ++ bpost))%nat as Hin.
  { rewrite !length_app, record_length by apply He.
    pose proof (record_size_bounds (fst e) (proj2 (proj1 He))). lia. }
  rewrite (proj2 (Nat.leb_le _ _)) by done. cbn [assert_inside mbind outcome_bind].
  assert (take (length (fst e) + 1) (drop (length bpre + OFFSETOF_NAME) (bpre ++ record e ++ bpost)) = fst e ++ [0]) as ->.
  { rewrite Hname. change (0 :: post') with ([0] ++ post'). rewrite app_assoc. apply take_app_length'.
    by rewrite length_app. }
  rewrite (app_assoc _ b6).
  rewrite (put_bytes_at _ w7) by (unfold OFFSETOF_DIRENT_NAME; rewrite ?length_app; cbn [length]; lia).
  cbn [mbind outcome_bind]. unfold user_dirent. fold b1 b2 b6. by rewrite <-!app_assoc.
Qed.

Definition total_len (es : list entry) : nat := sum_list (dirent_len <$> es).

Lemma total_len_cons e es : total_len (e :: es) = (dirent_len e + total_len es)%nat.
Proof. done. Qed.

Lemma next_record es0 e : entry_ok e →
  (length (records es0) + record_size (fst e))%nat = length (records (es0 ++ [e])).
Proof. intros He. by rewrite records_app, length_app, records_one, record_length by apply He. Qed.

Lemma measure_loop_spec b l es : ∀ es0 fuel c, dir_data b l (es0 ++ es) → (length es < fuel)%nat →
  measure_loop fuel b l (length (records es0)) c = Done (c + total_len es)%nat.
Proof.
  induction es as [|e es IH]; intros es0 fuel c HD Hf; (destruct fuel as [|fuel]; [lia|]); cbn [measure_loop].
  - rewrite decide_False; [unfold total_len; simpl; by rewrite Nat.add_0_r|].
    rewrite app_nil_r in HD. rewrite (dir_data_length _ _ _ HD). lia.
  - destruct (dir_data_split _ _ _ _ _ HD) as (Hb&Hl&He).
    pose proof (record_size_bounds (fst e) (proj2 (proj1 He))) as Hsz. unfold OFFSETOF_NAME in Hsz.
    rewrite decide_True by lia. unfold measure_dirent. rewrite Hb, ent_name_len_at, ent_size_at by done.
    cbn [mbind outcome_bind]. rewrite <-Hb, next_record by done.
    rewrite IH; [|by rewrite <-app_assoc|simpl in Hf; lia]. f_equal.
    rewrite total_len_cons. fold (dirent_len e). lia.
Qed.

(** [chunk] is the [dirent_t] of [e]. *)
Definition converted fs (e : entry) (chunk : list Z) : Prop :=
  ∃ ino gap pad, inode_list fs !! Z.to_nat (snd e) = Some ino ∧ length gap = 6%nat ∧ length chunk = dirent_len e ∧
    chunk = user_dirent ino e gap pad.

Lemma convert_loop_spec fs b l es : ∀ es0 fuel pre rest, dir_data b l (es0 ++ es) → (length es < fuel)%nat →
  Forall (λ e, is_Some (inode_list fs !! Z.to_nat (snd e))) es → length rest = total_len es →
  ∃ chunks, convert_loop fuel fs b l (length (records es0)) (length pre) (pre ++ rest) = Done (pre ++ concat chunks) ∧
    Forall2 (converted fs) es chunks.
Proof.
  induction es as [|e es IH]; intros es0 fuel pre rest HD Hf Hin Hr; (destruct fuel as [|fuel]; [lia|]); cbn [convert_loop].
  - rewrite decide_False by (rewrite app_nil_r in HD; rewrite (dir_data_length _ _ _ HD); lia).
    exists []. split; [|done]. f_equal. f_equal. by apply nil_length_inv.
  - destruct (dir_data_split _ _ _ _ _ HD) as (Hb&Hl&He). apply Forall_cons in Hin as [[ino Hino] Hin].
    pose proof (record_size_bounds (fst e) (proj2 (proj1 He))) as Hsz. unfold OFFSETOF_NAME in Hsz.
    rewrite decide_True by lia. rewrite total_len_cons in Hr.
    destruct (list_split_at rest (dirent_len e)) as (chunk&rest'&->&Hc); [lia|]. rewrite length_app in Hr.
    destruct (convert_dirent_spec fs (records es0) (records es ++ drop l b) pre chunk rest' e ino He Hino Hc)
      as (gap&pad&Hg&Hu&E). rewrite <-Hb in E. rewrite E. cbn [mbind outcome_bind].
    assert (ent_size b (length (records es0)) = Done (record_size (fst e))) as -> by (rewrite Hb; by apply ent_size_at).
    cbn [mbind outcome_bind]. rewrite next_record by done.
    replace (length pre + dirent_len e)%nat with (length (pre ++ user_dirent ino e gap pad)) by (rewrite length_app; lia).
    rewrite app_assoc.
    destruct (IH (es0 ++ [e]) fuel (pre ++ user_dirent ino e gap pad) rest') as (chunks&E'&Hch);
      [by rewrite <-app_assoc|simpl in Hf; lia|done|lia|].
    exists (user_dirent ino e gap pad :: chunks). rewrite E'. split; [by rewrite <-app_assoc|].
    constructor; [|done]. by exists ino, gap, pad.
Qed.

(** Reading a directory whose entries refer to existing inodes produces,
    unless memory runs out, a cache that consists exactly of one [dirent_t]
    per entry in directory order, with the inode number, kind and name of the
    entry; the measured size is the sum of their lengths, so the conversion
    never writes outside the cache.  No inode changes. *)
Theorem dir_read_correct fs d ino es cache : dir_at fs d ino es →
  Forall (λ e, is_Some (inode_list fs !! Z.to_nat (snd e))) es →
  ∃ ec r fs', vfs_ramfs_dir_read d cache fs = Done (ec, r, fs') ∧
    inode_list fs' = inode_list fs ∧ inode_usage fs' = inode_usage fs ∧
    match r with
    | None => ec = ECAUSE_NOMEM
    | Some (out, n) => ec = ECAUSE_OK ∧ n = Z.of_nat (length out) ∧ length out = total_len es ∧
        ∃ chunks, out = concat chunks ∧ Forall2 (converted fs) es chunks
    end.
Proof.
  intros (Hd&Hok&HD&Hlen) Hin. unfold vfs_ramfs_dir_read. rewrite Hd. cbn [deref mbind outcome_bind].
  assert (length es < S (len ino))%nat as Hfuel.
  { rewrite (dir_data_length _ _ _ HD). pose proof (records_length_ge es (proj1 HD)). lia. }
  pose proof (measure_loop_spec _ _ es [] _ 0 HD Hfuel) as Em. change (length (records [])) with 0%nat in Em.
  rewrite Em. cbn [mbind outcome_bind Nat.add].
  destruct (heap_realloc cache (total_len es) (heap fs)) as [[out|] h] eqn:E; [|by eexists _, None, _].
  apply heap_realloc_spec in E as [Hl _].
  destruct (convert_loop_spec (set_heap h fs) _ _ es [] _ [] out HD Hfuel Hin Hl) as (chunks&E&Hch).
  change (length (records [])) with 0%nat in E. change (length (@nil Z)) with 0%nat in E. cbn [app] in E. rewrite E.
  cbn [mbind outcome_bind]. eexists _, (Some _), _. split_and!; [reflexivity|done|done|].
  assert (length (concat chunks) = total_len es) as Hcl.
  { clear -Hch. induction Hch as [|e chunk es chunks (ino&gap&pad&_&_&Hc&_) Hch IH]; [done|].
    cbn [concat]. rewrite length_app, IH, Hc. done. }
  split_and!; [done|by rewrite Hcl|done|]. exists chunks. split; [done|]. apply Hch.
Qed.
End correct.

(** ** Instances

    A heap that never runs out, and the file system mounting creates with it. *)

#[local] Existing Instance demo_strings.
#[local] Existing Instance demo_strings_spec.

Definition demo_heap : KernelHeap unit := {|
  heap_realloc b n h := (Some (take n b ++ replicate (n - length b) 0), h);
  heap_free b h := h;
|}.
#[local] Existing Instance demo_heap.

Lemma demo_heap_spec : KernelHeapSpec unit.
Proof.
  split. intros b n h b' h' [= <- <-]. split; [rewrite length_app, length_take, length_replicate; lia|].
  destruct (decide (n <= length b)%nat).
  - rewrite Nat.min_r by lia. replace (n - length b)%nat with 0%nat by lia. cbn [replicate].
    rewrite app_nil_r, take_take. f_equal. lia.
  - rewrite Nat.min_l, take_app_le by (rewrite ?length_take; lia). rewrite take_take. f_equal. lia.
Qed.
#[local] Existing Instance demo_heap_spec.

Definition run_fs {A} (x : outcome (A * ramfs unit)) : ramfs unit :=
  match x with Done (_, fs) => fs | _ => Ramfs [] [] tt end.

(** The mounted file system and the inode of its root. *)
Definition mounted : ramfs unit := Eval vm_compute in
  match vfs_ramfs_mount ECAUSE_OK false true true (replicate 32 false) tt with Done (_, Some fs) => fs | _ => Ramfs [] [] tt end.
Definition inode_of (fs : ramfs unit) (i : nat) : ramfs_inode :=
  match inode_list fs !! i with Some ino => ino | None => zero_inode end.

(** Decides a concrete [dir_at]. *)
Ltac solve_dir_at :=
  split_and!;
    [ vm_compute; reflexivity
    | split; vm_compute; first [reflexivity | repeat constructor]
    | split_and!; [repeat constructor; cbn; lia | vm_compute; repeat constructor | vm_compute; reflexivity]
    | vm_compute; reflexivity ].

(** Mounting makes a root directory with the entries "." and "..", and a file
    created in it, "f", is its third entry. *)
Example mount_root : dir_at mounted 1 (inode_of mounted 1) [(dot, 1); (dotdot, 1)].
Proof. solve_dir_at. Qed.

Definition with_file : ramfs unit := Eval vm_compute in run_fs (vfs_ramfs_create_file ECAUSE_OK 1 [102] mounted).


(** Three files "f", "g" and "h" with inodes 2, 3 and 4. *)
Definition three_files : ramfs unit := Eval vm_compute in
  run_fs (vfs_ramfs_create_file ECAUSE_OK 1 [104] (run_fs (vfs_ramfs_create_file ECAUSE_OK 1 [103] with_file))).

Lemma unlink_correct_witness : ∃ fs', vfs_ramfs_unlink ECAUSE_OK 1 [102] three_files = Done (ECAUSE_OK, fs') ∧
  inode_usage fs' = <[2%nat := false]> (inode_usage three_files) ∧
  ∃ dino', inode_list fs' !! 1%nat = Some dino' ∧
    dir_data (buf dino') (len dino') [(dot, 1); (dotdot, 1); ([103], 3); ([104], 4)].
Proof.
  destruct (unlink_correct ECAUSE_OK three_files 1 (inode_of three_files 1) [(dot, 1); (dotdot, 1)] ([102], 2)
    [([103], 3); ([104], 4)] 2 (inode_of three_files 2) []) as (fs'&E&(dino'&Hd&_&_&HD)&_&Hu&_).
  - split; [reflexivity|vm_compute; reflexivity].
  - solve_dir_at.
  - repeat constructor; done.
  - done.
  - done.
  - reflexivity.
  - done.
  - reflexivity.
  - reflexivity.
  - split; vm_compute; reflexivity.
  - intros Hdir. vm_compute in Hdir. discriminate Hdir.
  - vm_compute. repeat constructor.
  - exists fs'. split_and!; [exact E|exact Hu|]. exists dino'. split; [exact Hd|exact HD].
Defined.

(** A handle on "f", and "f" with ten bytes. *)
Definition handle : file_shared := FileShared 1 0 (Some 2%nat) 2.
Definition sized : ramfs unit := Eval vm_compute in run_fs (vfs_ramfs_file_resize ECAUSE_OK handle 10 with_file).

Ltac solve_file_at := split_and!; [reflexivity|vm_compute; reflexivity|split; vm_compute; repeat constructor|vm_compute; reflexivity].

Lemma file_write_read_witness : ∃ fs', vfs_ramfs_file_write handle 3 [7; 8] 2 sized = Done (ECAUSE_OK, fs') ∧
  vfs_ramfs_file_read handle 2 [1; 1; 1; 1; 1] 4 fs' = Done (ECAUSE_OK, [0; 7; 8; 0; 1]).
Proof.
  destruct (file_write_read sized handle 2 (inode_of sized 2) 3 [7; 8]) as (fs'&data&E&Hdata&_&_&_&Hr).
  - solve_file_at.
  - vm_compute. repeat constructor.
  - exists fs'. split; [exact E|]. specialize (Hr 2%nat 4%nat [1; 1; 1; 1; 1]). subst data. apply Hr; vm_compute; repeat constructor.
Defined.

Lemma ramfs_errors_witness : vfs_ramfs_file_read handle 8 [5; 5; 5] 3 sized = Done (ECAUSE_RANGE, [5; 5; 5]) ∧
  vfs_ramfs_file_resize ECAUSE_OK handle (-1) sized = Done (ECAUSE_RANGE, handle, sized).
Proof.
  destruct (ramfs_errors sized handle 2 (inode_of sized 2)) as (H1&H2&_).
  - solve_file_at.
  - split; [|by apply H2]. apply H1; [lia|lia|]. right. right. vm_compute. reflexivity.
Defined.

Lemma file_resize_correct_witness : ∃ ec' file' fs',
  vfs_ramfs_file_resize ECAUSE_OK handle 20 sized = Done (ec', file', fs') ∧ inode_usage fs' = inode_usage sized.
Proof.
  destruct (file_resize_correct ECAUSE_OK sized handle 2 (inode_of sized 2) 20) as (ec'&file'&fs'&E&Hu&_).
  - solve_file_at.
  - vm_compute. reflexivity.
  - exists ec', file', fs'. split; [exact E|exact Hu].
Defined.

Lemma dir_read_correct_witness : ∃ ec r fs', vfs_ramfs_dir_read 1 [] with_file = Done (ec, r, fs') ∧
  inode_list fs' = inode_list with_file.
Proof.
  destruct (dir_read_correct with_file 1 (inode_of with_file 1) [(dot, 1); (dotdot, 1); ([102], 2)] [])
    as (ec&r&fs'&E&Hl&_).
  - solve_dir_at.
  - repeat constructor; vm_compute; eexists; reflexivity.
  - exists ec, r, fs'. split; [exact E|exact Hl].
Defined.

(** ** Behaviours that differ from the intent *)

(** Unlinking the only file of the root reads behind the directory data. *)
Example unlink_last_overreads : vfs_ramfs_unlink ECAUSE_OK 1 [102] with_file = Undef.
Proof. vm_compute. reflexivity. Qed.

(** A name of 256 characters overflows the name array. *)
Example long_name_overflows : create_file ECAUSE_OK 1 (replicate 256 97) FILETYPE_REG mounted = Undef.
Proof. vm_compute. reflexivity. Qed.

(** A heap with no memory left. *)
Definition empty_heap : KernelHeap unit := {| heap_realloc b n h := (None, h); heap_free b h := h |}.

(** When the entry cannot be stored the caller still gets the inode and OK,
    although the file does not exist. *)
Example failed_create_reports_ok : ∃ fs',
  create_file (KernelHeap0 := empty_heap) ECAUSE_OK 1 [102] FILETYPE_REG
    (run_fs (Done (0, Ramfs (replicate 4 (RamfsInode 0 0 [] 1 0 1)) [true; true; false; false] tt)))
    = Done (Some 2%nat, ECAUSE_OK, fs') ∧ inode_usage fs' = [true; true; false; false].
Proof. eexists. vm_compute. split; reflexivity. Qed.

(** Mounting clears all but the last two bytes of the usage map. *)
Example mount_keeps_garbage : ∃ fs, vfs_ramfs_mount ECAUSE_OK false true true (replicate 32 true) tt = Done (ECAUSE_OK, Some fs) ∧
  drop 29 (inode_usage fs) = [false; true; true].
Proof. eexists. vm_compute. split; reflexivity. Qed.

(** Without memory for the inodes, mounting clears a null pointer. *)
Example mount_without_memory : vfs_ramfs_mount ECAUSE_OK false false true (replicate 32 true) tt = Undef.
Proof. reflexivity. Qed.
