(* ===== verification/Pmp.v ===== *)
(** * Physical memory protection

    kernel/cpu/riscv/src/memprotect/riscv_pmp.c, the PMP part of
    kernel/cpu/riscv/include/cpu/riscv_pmp.h and kernel/port/esp32c6/src/
    memprotect.c.  These are the 32-bit ports: [size_t] and the registers have
    32 bits, there are 16 PMP entries, and entries 0 to 7 belong to the process.

    The hardware is a record of registers with the access rules of the RISC-V
    privileged specification: the register writes of locked entries are
    ignored, the lowest-numbered matching entry decides an access, and a user
    access that matches no entry fails. *)

From S2P Require Import Prelude IntRoutines.

(** ** Registers *)

Definition RISCV_PMP_REGION_COUNT : nat := 16.
Definition PROC_RISCV_PMP_START : nat := 0.
Definition PROC_RISCV_PMP_COUNT : nat := 8.

Inductive riscv_pmpcfg_addr := RISCV_PMPCFG_OFF | RISCV_PMPCFG_TOR | RISCV_PMPCFG_NA4 | RISCV_PMPCFG_NAPOT.

Record riscv_pmpcfg := PmpCfg {
  c_read : bool;
  c_write : bool;
  c_exec : bool;
  addr_match_mode : riscv_pmpcfg_addr;
  lock : bool;
}.

(** The byte of a configuration, the member [value] of the union, and back;
    bits 5 and 6 are reserved. *)
Definition mode_value (m : riscv_pmpcfg_addr) : Z :=
  match m with RISCV_PMPCFG_OFF => 0 | RISCV_PMPCFG_TOR => 1 | RISCV_PMPCFG_NA4 => 2 | RISCV_PMPCFG_NAPOT => 3 end.
Definition cfg_value (c : riscv_pmpcfg) : Z :=
  Z.b2z (c_read c) + 2 * Z.b2z (c_write c) + 4 * Z.b2z (c_exec c) + 8 * mode_value (addr_match_mode c) + 128 * Z.b2z (lock c).
Definition value_mode (v : Z) : riscv_pmpcfg_addr :=
  match Z.testbit v 4, Z.testbit v 3 with
  | false, false => RISCV_PMPCFG_OFF
  | false, true => RISCV_PMPCFG_TOR
  | true, false => RISCV_PMPCFG_NA4
  | true, true => RISCV_PMPCFG_NAPOT
  end.
Definition value_cfg (v : Z) : riscv_pmpcfg :=
  PmpCfg (Z.testbit v 0) (Z.testbit v 1) (Z.testbit v 2) (value_mode v) (Z.testbit v 7).

(** The configuration bytes and the addresses of the 16 entries; the granule
    of the implementation is [2 ^ (granularity + 2)] bytes. *)
Record pmp := Pmp {
  pmpcfg : list Z;
  pmpaddr : list Z;
  granularity : nat;
}.

Definition cfg_at (h : pmp) (i : nat) : riscv_pmpcfg := value_cfg (default 0 (pmpcfg h !! i)).
Definition addr_at (h : pmp) (i : nat) : Z := default 0 (pmpaddr h !! i).

(** [csrw pmpcfg<n>] writes entries [4 n] to [4 n + 3], less the locked ones. *)
Definition locked_merge (old new : Z) : Z := if Z.testbit old 7 then old else new.
Definition csrw_pmpcfg (n : nat) (v : Z) (h : pmp) : pmp :=
  let old := take 4 (drop (4 * n) (pmpcfg h)) in
  Pmp (take (4 * n) (pmpcfg h) ++ zip_with locked_merge old (to_bytes 4 v) ++ drop (4 * n + 4) (pmpcfg h))
    (pmpaddr h) (granularity h).
Definition csrr_pmpcfg (n : nat) (h : pmp) : Z := of_bytes (take 4 (drop (4 * n) (pmpcfg h))).
Definition csrs_pmpcfg (n : nat) (v : Z) (h : pmp) : pmp := csrw_pmpcfg n (Z.lor (csrr_pmpcfg n h) v) h.
Definition csrc_pmpcfg (n : nat) (v : Z) (h : pmp) : pmp := csrw_pmpcfg n (Z.land (csrr_pmpcfg n h) (wnot 32 v)) h.

(** [pmpaddr<i>] is locked with its entry, or by a locked TOR entry above. *)
Definition addr_locked (h : pmp) (i : nat) : bool :=
  lock (cfg_at h i) ||
  (lock (cfg_at h (S i)) && match addr_match_mode (cfg_at h (S i)) with RISCV_PMPCFG_TOR => true | _ => false end).
Definition csrw_pmpaddr (i : nat) (v : Z) (h : pmp) : pmp :=
  if addr_locked h i then h else Pmp (pmpcfg h) (<[i := u32 v]> (pmpaddr h)) (granularity h).

(** The address as the implementation reads it and matches against it: below
    the granule the bits are zero, or one for a power-of-two range. *)
Definition align_low (g : nat) (y : Z) : Z := Z.shiftl (Z.shiftr y (Z.of_nat g)) (Z.of_nat g).
Definition align_napot (g : nat) (y : Z) : Z := Z.lor y (Z.ones (Z.of_nat (g - 1))).
Definition csrr_pmpaddr (i : nat) (h : pmp) : Z :=
  match addr_match_mode (cfg_at h i) with
  | RISCV_PMPCFG_OFF | RISCV_PMPCFG_TOR => align_low (granularity h) (addr_at h i)
  | _ => align_napot (granularity h) (addr_at h i)
  end.

(** ** Matching *)

(** The number of trailing ones. *)
Fixpoint trailing_ones (fuel : nat) (y : Z) : Z :=
  match fuel with
  | O => 0
  | S fuel => if Z.odd y then 1 + trailing_ones fuel (Z.shiftr y 1) else 0
  end.

(** [w] is the address in units of four bytes. *)
Definition matches (h : pmp) (i : nat) (w : Z) : bool :=
  let y := addr_at h i in
  match addr_match_mode (cfg_at h i) with
  | RISCV_PMPCFG_OFF => false
  | RISCV_PMPCFG_TOR =>
      let base := match i with O => 0 | S j => align_low (granularity h) (addr_at h j) end in
      (base <=? w) && (w <? align_low (granularity h) y)
  | RISCV_PMPCFG_NA4 => w =? y
  | RISCV_PMPCFG_NAPOT =>
      let y := align_napot (granularity h) y in
      let k := trailing_ones 32 y + 1 in
      Z.shiftr w k =? Z.shiftr y k
  end.

(** The configuration of the first match among [n] entries from [i]. *)
Fixpoint first_match (h : pmp) (n i : nat) (w : Z) : option riscv_pmpcfg :=
  match n with
  | O => None
  | S n => if matches h i w then Some (cfg_at h i) else first_match h n (S i) w
  end.

Inductive access := Read | Write | Execute.
Definition grants (c : riscv_pmpcfg) (x : access) : bool :=
  match x with Read => c_read c | Write => c_write c | Execute => c_exec c end.

(** User mode needs a granting entry; machine mode is only bound by locked
    ones. *)
Definition user_access (h : pmp) (x : access) (a : Z) : bool :=
  match first_match h RISCV_PMP_REGION_COUNT 0 (a / 4) with Some c => grants c x | None => false end.
Definition machine_access (h : pmp) (x : access) (a : Z) : bool :=
  match first_match h RISCV_PMP_REGION_COUNT 0 (a / 4) with Some c => negb (lock c) || grants c x | None => true end.

(** ** The driver *)

(** Reading and writing all registers.  For 16 entries and 32 bits these are
    four configuration words and 16 addresses. *)
Definition riscv_pmpcfg_read_all (h : pmp) : list Z :=
  to_bytes 4 (csrr_pmpcfg 0 h) ++ to_bytes 4 (csrr_pmpcfg 1 h) ++ to_bytes 4 (csrr_pmpcfg 2 h) ++ to_bytes 4 (csrr_pmpcfg 3 h).
Definition riscv_pmpaddr_read_all (h : pmp) : list Z := map (λ i, csrr_pmpaddr i h) (seq 0 RISCV_PMP_REGION_COUNT).
Definition word_of (cfg_in : list Z) (n : nat) : Z := of_bytes (take 4 (drop (4 * n) cfg_in)).
Definition riscv_pmpcfg_write_all (cfg_in : list Z) (h : pmp) : pmp :=
  csrw_pmpcfg 3 (word_of cfg_in 3) (csrw_pmpcfg 2 (word_of cfg_in 2)
    (csrw_pmpcfg 1 (word_of cfg_in 1) (csrw_pmpcfg 0 (word_of cfg_in 0) h))).
Definition riscv_pmpaddr_write_all (addr_in : list Z) (h : pmp) : pmp :=
  foldl (λ h i, csrw_pmpaddr i (default 0 (addr_in !! i)) h) h (seq 0 RISCV_PMP_REGION_COUNT).

Definition LONG_MAX : Z := 2 ^ 31 - 1.

(** [while (!(addr & 1)) { addr >>= 1; grain <<= 1; }]; [addr] is not zero, so
    31 shifts reach its lowest set bit. *)
Fixpoint grain_loop (fuel : nat) (addr grain : Z) : outcome Z :=
  match fuel with
  | O => Fuel
  | S fuel => if Z.land addr 1 =? 0 then grain_loop fuel (Z.shiftr addr 1) (u32 (Z.shiftl grain 1)) else Done grain
  end.

(** A locked entry is only logged: the variable the code tests is never set. *)
Definition riscv_pmp_init (h : pmp) : outcome (Z * pmp) :=
  let h := csrw_pmpcfg 3 0 (csrw_pmpcfg 2 0 (csrw_pmpcfg 1 0 (csrw_pmpcfg 0 0 h))) in
  let h := csrw_pmpaddr 0 LONG_MAX h in
  let addr := csrr_pmpaddr 0 h in
  _ ← assert_or_panic (negb (addr =? 0));
  grain ← grain_loop 32 addr 4;
  Done (grain, h).

Definition riscv_pmpaddr_is_napot (base size : Z) : bool :=
  if (size <? 8) || negb (Z.land size (u32 (size - 1)) =? 0) then false
  else Z.land base (u32 (size - 1)) =? 0.

Definition riscv_pmpaddr_calc_napot (base size : Z) : Z :=
  Z.lor (Z.shiftr base 2) (u32 (Z.shiftr size 3 - 1)).

(** A memory map entry ([proc_memmap_ent_t] without virtual memory). *)
Record proc_memmap_ent := MemmapEnt {
  paddr : Z;
  size : Z;
  write : bool;
  exec : bool;
}.

(** The PMP entries of a process. *)
Record riscv_pmp_ctx := PmpCtx {
  ctx_cfg : list riscv_pmpcfg;
  ctx_addr : list Z;
}.

Definition cfg_off : riscv_pmpcfg := value_cfg 0.
Definition region_cfg (r : proc_memmap_ent) (m : riscv_pmpcfg_addr) : riscv_pmpcfg := PmpCfg true (write r) (exec r) m false.

(** Assignments to [tmp.pmpcfg[i]] and [tmp.pmpaddr[i]]. *)
Definition put_cfg (i : nat) (c : riscv_pmpcfg) (t : riscv_pmp_ctx) : outcome riscv_pmp_ctx :=
  if decide (i < length (ctx_cfg t))%nat then Done (PmpCtx (<[i := c]> (ctx_cfg t)) (ctx_addr t)) else Undef.
Definition put_addr (i : nat) (v : Z) (t : riscv_pmp_ctx) : outcome riscv_pmp_ctx :=
  if decide (i < length (ctx_addr t))%nat then Done (PmpCtx (ctx_cfg t) (<[i := v]> (ctx_addr t))) else Undef.

(** The loop over the regions; [None] is [return false]. *)
Fixpoint protect_loop (grain : Z) (rs : list proc_memmap_ent) (prev_addr : Z) (pmp : nat) (tmp : riscv_pmp_ctx)
    : outcome (option (nat * riscv_pmp_ctx)) :=
  match rs with
  | [] => Done (Some (pmp, tmp))
  | region :: rs =>
      if negb (Z.land (Z.lor (paddr region) (size region)) (u32 (grain - 1)) =? 0) then Done None else
      if (PROC_RISCV_PMP_COUNT <=? pmp)%nat then Done None else
      let next pmp tmp := protect_loop grain rs (u32 (paddr region + size region)) (S pmp) tmp in
      if negb (paddr region =? prev_addr) && (size region =? 4) then
        tmp ← put_cfg pmp (region_cfg region RISCV_PMPCFG_NA4) tmp;
        tmp ← put_addr pmp (Z.shiftr (paddr region) 2) tmp;
        next pmp tmp
      else if negb (paddr region =? prev_addr) && riscv_pmpaddr_is_napot (paddr region) (size region) then
        tmp ← put_cfg pmp (region_cfg region RISCV_PMPCFG_NAPOT) tmp;
        tmp ← put_addr pmp (riscv_pmpaddr_calc_napot (paddr region) (size region)) tmp;
        next pmp tmp
      else
        let tor pmp tmp :=
          tmp ← put_cfg pmp (region_cfg region RISCV_PMPCFG_TOR) tmp;
          tmp ← put_addr pmp (Z.shiftr (u32 (paddr region + size region)) 2) tmp;
          next pmp tmp in
        if negb (paddr region =? prev_addr) then
          if (PROC_RISCV_PMP_COUNT - 2 <? pmp)%nat then Done None else
          tmp ← put_cfg pmp cfg_off tmp;
          tmp ← put_addr pmp (Z.shiftr (paddr region) 2) tmp;
          tor (S pmp) tmp
        else tor pmp tmp
  end.

(** Clears the configurations from [pmp] on. *)
Definition clear_from (pmp : nat) (t : riscv_pmp_ctx) : riscv_pmp_ctx :=
  PmpCtx (take pmp (ctx_cfg t) ++ replicate (PROC_RISCV_PMP_COUNT - pmp) cfg_off) (ctx_addr t).

(** [tmp] is the uninitialised local; the result is the new context, or
    [None] when the old one stays. *)
Definition riscv_pmp_memprotect (grain : Z) (regions : list proc_memmap_ent) (tmp : riscv_pmp_ctx)
    : outcome (option riscv_pmp_ctx) :=
  let prev_addr := if decide (PROC_RISCV_PMP_START = 0%nat) then 0 else 2 ^ 32 - 1 in
  r ← protect_loop grain regions prev_addr 0 tmp;
  match r with
  | None => Done None
  | Some (pmp, tmp) => Done (Some (clear_from pmp tmp))
  end.

(** ** Loading the entries of a process *)

Definition in_use (i : nat) : bool :=
  (PROC_RISCV_PMP_START <=? i)%nat && (i <? PROC_RISCV_PMP_START + PROC_RISCV_PMP_COUNT)%nat.

Definition ctx_value (ctx : riscv_pmp_ctx) (i : nat) : outcome Z :=
  c ← deref (ctx_cfg ctx !! i); Done (cfg_value c).

(** [PMP_CFG_SWAP_RV32(ctx, n)].  The aligned load of four configurations
    reads the same bytes as the misaligned one. *)
Definition PMP_CFG_SWAP_RV32 (ctx : riscv_pmp_ctx) (n : nat) (h : pmp) : outcome pmp :=
  if ((PROC_RISCV_PMP_START <=? n * 4) && (n * 4 + 3 <? PROC_RISCV_PMP_START + PROC_RISCV_PMP_COUNT))%nat then
    v0 ← ctx_value ctx (n * 4);
    v1 ← ctx_value ctx (n * 4 + 1);
    v2 ← ctx_value ctx (n * 4 + 2);
    v3 ← ctx_value ctx (n * 4 + 3);
    Done (csrw_pmpcfg n (Z.lor (Z.lor (Z.lor v0 (Z.shiftl v1 8)) (Z.shiftl v2 16)) (Z.shiftl v3 24)) h)
  else
    let has0 := in_use (n * 4) in
    let has1 := in_use (n * 4 + 1) in
    let has2 := in_use (n * 4 + 2) in
    let has3 := in_use (n * 4 + 3) in
    if has0 || has1 || has2 || has3 then
      let pmpcfg_clear := Z.lor (Z.lor (Z.lor (Z.b2z has0 * 0xff) (Z.b2z has1 * 0xff00)) (Z.b2z has2 * 0xff0000))
        (Z.b2z has3 * 0xff000000) in
      let h := csrc_pmpcfg n pmpcfg_clear h in
      let part (has : bool) (k : nat) (s : Z) := if has then v ← ctx_value ctx (n * 4 + k); Done (Z.shiftl v s) else Done 0 in
      v0 ← part has0 0%nat 0;
      v1 ← part has1 1%nat 8;
      v2 ← part has2 2%nat 16;
      v3 ← part has3 3%nat 24;
      Done (csrs_pmpcfg n (Z.lor (Z.lor (Z.lor v0 v1) v2) v3) h)
    else Done h.

Definition PMP_ADDR_SWAP (ctx : riscv_pmp_ctx) (n : nat) (h : pmp) : outcome pmp :=
  if in_use n then
    v ← deref (ctx_addr ctx !! (n - PROC_RISCV_PMP_START)%nat);
    Done (csrw_pmpaddr n v h)
  else Done h.

Fixpoint swap_all (f : nat → pmp → outcome pmp) (ns : list nat) (h : pmp) : outcome pmp :=
  match ns with
  | [] => Done h
  | n :: ns => h ← f n h; swap_all f ns h
  end.

(** A null context fails an assertion. *)
Definition riscv_pmp_memprotect_swap (ctx : option riscv_pmp_ctx) (h : pmp) : outcome pmp :=
  match ctx with
  | None => Panic
  | Some ctx =>
      h ← swap_all (PMP_CFG_SWAP_RV32 ctx) (seq 0 4) h;
      swap_all (PMP_ADDR_SWAP ctx) (seq 0 RISCV_PMP_REGION_COUNT) h
  end.

(** [is_kernel] is the flag of the interrupt context, [mpu_ctx] its context. *)
Definition memprotect_swap_from_isr (is_kernel : bool) (mpu_ctx : option riscv_pmp_ctx) (h : pmp) : outcome pmp :=
  if is_kernel then Done h else riscv_pmp_memprotect_swap mpu_ctx h.

Definition memprotect_swap (mpu : option riscv_pmp_ctx) (h : pmp) : outcome pmp := riscv_pmp_memprotect_swap mpu h.

(** ** The ESP32-C6 port *)

Definition PMP_SIZE_NULLPTR : Z := 0x10000000.
Definition PMP_SIZE_ROM_WP : Z := 0x00080000.
Definition PMP_SIZE_FLASH_WP : Z := 0x01000000.
Definition PMP_BASE_ROM_WP : Z := 0x40000000.
Definition PMP_BASE_FLASH_WP : Z := 0x42000000.
Definition RISCV_PMPADDR_NAPOT_GLOBAL : Z := LONG_MAX.
Definition PMP_ENTRY_NULLPTR_LOW_NAPOT : nat := 12.
Definition PMP_ENTRY_NULLPTR_HIGH_NAPOT : nat := 13.
Definition PMP_ENTRY_ROM_WP_NAPOT : nat := 14.
Definition PMP_ENTRY_FLASH_WP_NAPOT : nat := 15.
Definition PMP_ENTRY_USER_GLOBAL_NAPOT : nat := 11.

Definition riscv_pmpaddr_write (index : nat) (addr : Z) (h : pmp) : pmp := csrw_pmpaddr index addr h.
Definition riscv_pmpcfg_set (index : nat) (config : riscv_pmpcfg) (h : pmp) : pmp :=
  csrs_pmpcfg (index / 4) (Z.shiftl (cfg_value config) (8 * Z.of_nat (index mod 4))) h.

(** One fixed entry: its address, then its configuration. *)
Definition fixed_entry (index : nat) (addr : Z) (config : riscv_pmpcfg) (h : pmp) : pmp :=
  riscv_pmpcfg_set index config (riscv_pmpaddr_write index addr h).

Definition memprotect_early_init (h : pmp) : outcome (Z * pmp) :=
  '(grain, h) ← riscv_pmp_init h;
  let h := fixed_entry PMP_ENTRY_NULLPTR_LOW_NAPOT (riscv_pmpaddr_calc_napot 0 PMP_SIZE_NULLPTR)
    (PmpCfg false false false RISCV_PMPCFG_NAPOT true) h in
  let h := fixed_entry PMP_ENTRY_NULLPTR_HIGH_NAPOT (riscv_pmpaddr_calc_napot (u32 (- PMP_SIZE_NULLPTR)) PMP_SIZE_NULLPTR)
    (PmpCfg false false false RISCV_PMPCFG_NAPOT true) h in
  let h := fixed_entry PMP_ENTRY_ROM_WP_NAPOT (riscv_pmpaddr_calc_napot PMP_BASE_ROM_WP PMP_SIZE_ROM_WP)
    (PmpCfg true false true RISCV_PMPCFG_NAPOT true) h in
  let h := fixed_entry PMP_ENTRY_FLASH_WP_NAPOT (riscv_pmpaddr_calc_napot PMP_BASE_FLASH_WP PMP_SIZE_FLASH_WP)
    (PmpCfg true false true RISCV_PMPCFG_NAPOT true) h in
  let h := fixed_entry PMP_ENTRY_USER_GLOBAL_NAPOT RISCV_PMPADDR_NAPOT_GLOBAL
    (PmpCfg false false false RISCV_PMPCFG_NAPOT false) h in
  Done (grain, h).

(** [memprotect_u]: the new context of the process when it succeeds. *)
Definition memprotect_u (grain : Z) (regions : list proc_memmap_ent) (tmp : riscv_pmp_ctx) (vaddr paddr : Z)
    : outcome (option riscv_pmp_ctx) :=
  if vaddr =? paddr then riscv_pmp_memprotect grain regions tmp else Done None.

Definition memprotect_k (vaddr paddr : Z) : bool := vaddr =? paddr.
