(* ===== verification/PmpTheory.v ===== *)
(** * Theory of the PMP model

    How addresses and configurations are encoded, and what the writes of the
    driver do to the registers. *)

From S2P Require Import Prelude IntRoutines Pmp.

(** ** Bits *)

(** A word with one bit set. *)
Lemma land_pred_pow2 w : 0 < w → Z.land w (w - 1) = 0 → w = 2 ^ Z.log2 w.
Proof.
  intros Hw Hl. destruct (Z.log2_spec w Hw) as [Hlo Hhi]. pose proof (Z.log2_nonneg w) as Hn.
  destruct (decide (w = 2 ^ Z.log2 w)) as [|Hne]; [done|].
  apply (f_equal (λ x, Z.testbit x (Z.log2 w))) in Hl. rewrite Z.land_spec, Z.bits_0, Z.bit_log2 in Hl by done.
  assert (Z.log2 (w - 1) = Z.log2 w) as El by (apply Z.log2_unique; lia).
  rewrite <-El in Hl. rewrite Z.bit_log2 in Hl by (assert (0 < 2 ^ Z.log2 w) by lia; lia). done.
Qed.

(** Masking with [2 ^ k - 1]. *)
Lemma land_mask x k : 0 <= k → Z.land x (2 ^ k - 1) = x mod 2 ^ k.
Proof. intros Hk. rewrite <-Z.land_ones, Z.ones_equiv by done. done. Qed.

Lemma land_1 x : Z.land x 1 = x mod 2.
Proof. by apply (land_mask x 1). Qed.

Lemma lor_mod_0 x y k : 0 <= k → Z.lor x y mod 2 ^ k = 0 ↔ x mod 2 ^ k = 0 ∧ y mod 2 ^ k = 0.
Proof.
  intros Hk. rewrite <-!(Z.land_ones _ k), Z.land_lor_distr_l by done. apply Z.lor_eq_0_iff.
Qed.

Lemma shiftr2 x : Z.shiftr x 2 = x / 4.
Proof. by rewrite Z.shiftr_div_pow2. Qed.

Lemma lor_ones a b : 0 <= a <= b → Z.lor (Z.ones a) (Z.ones b) = Z.ones b.
Proof.
  intros Hab. apply Z.bits_inj'; intros n Hn. rewrite Z.lor_spec, !Z.testbit_ones_nonneg by lia.
  destruct (Z.ltb_spec n a), (Z.ltb_spec n b); done || lia.
Qed.

(** ** Granules *)

Lemma align_low_id g y : y mod 2 ^ Z.of_nat g = 0 → align_low g y = y.
Proof.
  intros Hy. unfold align_low. rewrite Z.shiftr_div_pow2, Z.shiftl_mul_pow2 by lia.
  assert (0 < 2 ^ Z.of_nat g) by lia. rewrite Z.mul_comm. symmetry. apply Z_div_exact_2; lia.
Qed.

Lemma align_low_le g y : align_low g y <= y.
Proof.
  unfold align_low. rewrite Z.shiftr_div_pow2, Z.shiftl_mul_pow2 by lia. rewrite Z.mul_comm. apply Z.mul_div_le. lia.
Qed.

Lemma align_low_mono g x y : x <= y → align_low g x <= align_low g y.
Proof.
  intros H. unfold align_low. rewrite !Z.shiftr_div_pow2, !Z.shiftl_mul_pow2 by lia.
  apply Z.mul_le_mono_nonneg_r; [lia|]. apply Z.div_le_mono; lia.
Qed.

(** ** Power-of-two ranges *)

Lemma trailing_ones_spec fuel : ∀ m q, 0 <= m <= Z.of_nat fuel → trailing_ones (S fuel) (q * 2 ^ (m + 1) + (2 ^ m - 1)) = m.
Proof.
  induction fuel as [|fuel IH]; intros m q Hm.
  - assert (m = 0) as -> by lia. cbn [trailing_ones]. change (2 ^ 0 - 1) with 0. change (2 ^ (0 + 1)) with 2.
    rewrite Z.add_0_r, Z.mul_comm. by rewrite Z.odd_mul.
  - change (trailing_ones (S (S fuel)) ?y) with (if Z.odd y then 1 + trailing_ones (S fuel) (Z.shiftr y 1) else 0).
    destruct (decide (m = 0)) as [->|Hm0].
    + change (2 ^ 0 - 1) with 0. change (2 ^ (0 + 1)) with 2. rewrite Z.add_0_r, Z.mul_comm. by rewrite Z.odd_mul.
    + rewrite (pow2_succ m), (pow2_pred m) by lia.
      replace (q * (2 * (2 * 2 ^ (m - 1))) + (2 * 2 ^ (m - 1) - 1)) with
        (1 + 2 * (q * (2 * 2 ^ (m - 1)) + (2 ^ (m - 1) - 1))) by lia.
      rewrite Z.odd_add_mul_2. simpl Z.odd. cbn iota. rewrite Z.shiftr_div_pow2 by lia. change (2 ^ 1) with 2.
      replace ((1 + 2 * (q * (2 * 2 ^ (m - 1)) + (2 ^ (m - 1) - 1))) / 2) with (q * (2 * 2 ^ (m - 1)) + (2 ^ (m - 1) - 1))
        by (symmetry; rewrite Z.mul_comm, Z.div_add by lia; change (1 / 2) with 0; lia).
      rewrite <-pow2_succ by lia. rewrite IH by lia. lia.
Qed.

Lemma div_range w q n : 0 < n → w / n = q ↔ q * n <= w < q * n + n.
Proof.
  intros Hn. split.
  - intros <-. pose proof (Z.mul_div_le w n Hn). pose proof (Z.mul_succ_div_gt w n Hn). lia.
  - intros Hw. symmetry. apply (Z.div_unique w n q (w - q * n)); lia.
Qed.

(** What [riscv_pmpaddr_is_napot] accepts. *)
Lemma is_napot_spec base sz : fits 32 base → fits 32 sz → riscv_pmpaddr_is_napot base sz = true →
  ∃ k q, 3 <= k < 32 ∧ sz = 2 ^ k ∧ base = q * 2 ^ k.
Proof.
  intros Hb Hs. unfold riscv_pmpaddr_is_napot. destruct (Z.ltb_spec sz 8) as [|Hs8]; [done|]. cbn [orb].
  rewrite wrap_small by (unfold fits in *; lia).
  destruct (Z.eqb_spec (Z.land sz (sz - 1)) 0) as [E|]; [|done]. cbn [negb]. intros Hba%Z.eqb_eq.
  apply land_pred_pow2 in E; [|lia]. rewrite E, land_mask in Hba by apply Z.log2_nonneg.
  apply Z.mod_divide in Hba as [q Hq]; [|lia]. exists (Z.log2 sz), q.
  assert (3 <= Z.log2 sz) by (change 3 with (Z.log2 8); apply Z.log2_le_mono; lia).
  assert (Z.log2 sz < 32) by (apply Z.log2_lt_pow2; unfold fits in *; lia).
  split_and!; [lia|lia|done|done].
Qed.

(** Its encoding, and the range that the encoding stands for. *)
Lemma calc_napot_spec q k : 3 <= k < 32 →
  riscv_pmpaddr_calc_napot (q * 2 ^ k) (2 ^ k) = q * 2 ^ (k - 2) + (2 ^ (k - 3) - 1).
Proof.
  intros Hk. unfold riscv_pmpaddr_calc_napot. rewrite shiftr2, Z.shiftr_div_pow2 by lia.
  replace (2 ^ k / 2 ^ 3) with (2 ^ (k - 3)) by (rewrite Z.pow_sub_r; lia).
  assert (2 ^ (k - 3) <= 2 ^ 29) by (apply Z.pow_le_mono_r; lia). assert (0 < 2 ^ (k - 3)) by lia.
  rewrite wrap_small by (unfold fits; lia).
  replace (q * 2 ^ k / 4) with (q * 2 ^ (k - 2)).
  2: { replace (2 ^ k) with (2 ^ (k - 2) * 4) by (change 4 with (2 ^ 2); rewrite <-Z.pow_add_r by lia; f_equal; lia).
       by rewrite Z.mul_assoc, Z.div_mul. }
  rewrite <-Z.shiftl_mul_pow2, Z.lor_comm by lia.
  rewrite lor_shiftl_add; [rewrite Z.shiftl_mul_pow2 by lia; lia|lia|].
  assert (2 ^ (k - 3) <= 2 ^ (k - 2)) by (apply Z.pow_le_mono_r; lia). lia.
Qed.

(** An encoding whose range is not below the granule matches its range. *)
Lemma napot_match g q k w : 3 <= k < 32 → Z.of_nat g + 2 <= k →
  let y := align_napot g (q * 2 ^ (k - 2) + (2 ^ (k - 3) - 1)) in
  (Z.shiftr w (trailing_ones 32 y + 1) =? Z.shiftr y (trailing_ones 32 y + 1)) =
  bool_decide (q * 2 ^ (k - 2) <= w < (q + 1) * 2 ^ (k - 2)).
Proof.
  intros Hk Hg y. assert (y = q * 2 ^ (k - 2) + (2 ^ (k - 3) - 1)) as ->.
  { unfold y, align_napot. assert (2 ^ (k - 3) <= 2 ^ (k - 2)) by (apply Z.pow_le_mono_r; lia).
    rewrite (Z.add_comm (q * _)), <-lor_shiftl_add by lia. rewrite Z.lor_comm, Z.lor_assoc. f_equal.
    replace (2 ^ (k - 3) - 1) with (Z.ones (k - 3)) by (rewrite Z.ones_equiv; lia). apply lor_ones. lia. }
  replace (k - 2) with (k - 3 + 1) by lia. rewrite (trailing_ones_spec 31) by lia.
  rewrite !Z.shiftr_div_pow2 by lia. assert (0 < 2 ^ (k - 3)) by lia.
  replace ((q * 2 ^ (k - 3 + 1) + (2 ^ (k - 3) - 1)) / 2 ^ (k - 3 + 1)) with q.
  2: { symmetry. apply div_range; [lia|]. rewrite (pow2_succ (k - 3)) by lia. lia. }
  apply eq_bool_prop_intro. rewrite bool_decide_spec. rewrite Is_true_true, Z.eqb_eq, div_range by lia. lia.
Qed.

(** ** The entries of a list of regions *)

(** Word [w] belongs to a region; the first region of a list that has it. *)
Definition in_region (r : proc_memmap_ent) (w : Z) : Prop := paddr r / 4 <= w < (paddr r + size r) / 4.
#[global] Instance in_region_dec r w : Decision (in_region r w).
Proof. unfold in_region. apply _. Defined.

Fixpoint region_of (rs : list proc_memmap_ent) (w : Z) : option proc_memmap_ent :=
  match rs with
  | [] => None
  | r :: rs => if decide (in_region r w) then Some r else region_of rs w
  end.

(** The region does not wrap around. *)
Definition region_fits (r : proc_memmap_ent) : Prop := 0 <= paddr r ∧ 0 <= size r ∧ paddr r + size r < 2 ^ 32.

(** The first [n] entries of the registers are those of a context. *)
Definition loads (h : pmp) (t : riscv_pmp_ctx) (n : nat) : Prop :=
  ∀ i, (i < n)%nat → ctx_cfg t !! i = Some (cfg_at h i) ∧ ctx_addr t !! i = Some (addr_at h i).

(** A matching entry is that of the region. *)
Definition agree (c : option riscv_pmpcfg) (r : option proc_memmap_ent) : Prop :=
  match c, r with
  | Some c, Some r => ∃ m, c = region_cfg r m
  | None, None => True
  | _, _ => False
  end.

(** Lower end of a TOR entry at [p]. *)
Definition tor_base (h : pmp) (p : nat) : Z := match p with O => 0 | S j => align_low (granularity h) (addr_at h j) end.

Definition ctx_ok (t : riscv_pmp_ctx) : Prop :=
  length (ctx_cfg t) = PROC_RISCV_PMP_COUNT ∧ length (ctx_addr t) = PROC_RISCV_PMP_COUNT.

(** The contexts agree below [p]. *)
Definition same_below (p : nat) (t t' : riscv_pmp_ctx) : Prop :=
  ∀ i, (i < p)%nat → ctx_cfg t' !! i = ctx_cfg t !! i ∧ ctx_addr t' !! i = ctx_addr t !! i.

(** One entry. *)
Definition put_entry (p : nat) (c : riscv_pmpcfg) (v : Z) (t : riscv_pmp_ctx) : riscv_pmp_ctx :=
  PmpCtx (<[p := c]> (ctx_cfg t)) (<[p := v]> (ctx_addr t)).

Lemma put_entry_ok p c v t : ctx_ok t → ctx_ok (put_entry p c v t).
Proof. intros [Hc Ha]. split; simpl; by rewrite length_insert. Qed.

Lemma put_entry_eq {A} p c v t (k : riscv_pmp_ctx → outcome A) : ctx_ok t → (p < PROC_RISCV_PMP_COUNT)%nat →
  (tmp ← put_cfg p c t; tmp ← put_addr p v tmp; k tmp) = k (put_entry p c v t).
Proof.
  intros [Hc Ha] Hp. unfold put_cfg. rewrite decide_True by lia. cbn [mbind outcome_bind]. unfold put_addr. simpl.
  by rewrite decide_True by lia.
Qed.

Lemma put_entry_below p c v t : same_below p t (put_entry p c v t).
Proof. intros i Hi. simpl. by rewrite !list_lookup_insert_ne by lia. Qed.

Lemma put_entry_at p c v t : ctx_ok t → (p < PROC_RISCV_PMP_COUNT)%nat →
  ctx_cfg (put_entry p c v t) !! p = Some c ∧ ctx_addr (put_entry p c v t) !! p = Some v.
Proof. intros [Hc Ha] Hp. simpl. by rewrite !list_lookup_insert_eq by lia. Qed.

(** What one round of the loop stores for a region: the new number of entries
    and the context. *)
Inductive stores (r : proc_memmap_ent) (prev : Z) (p : nat) (t : riscv_pmp_ctx) : nat → riscv_pmp_ctx → Prop :=
  | stores_na4 : size r = 4 →
      stores r prev p t (S p) (put_entry p (region_cfg r RISCV_PMPCFG_NA4) (Z.shiftr (paddr r) 2) t)
  | stores_napot : riscv_pmpaddr_is_napot (paddr r) (size r) = true →
      stores r prev p t (S p) (put_entry p (region_cfg r RISCV_PMPCFG_NAPOT) (riscv_pmpaddr_calc_napot (paddr r) (size r)) t)
  | stores_tor : paddr r = prev →
      stores r prev p t (S p) (put_entry p (region_cfg r RISCV_PMPCFG_TOR) (Z.shiftr (u32 (paddr r + size r)) 2) t)
  | stores_base_tor :
      stores r prev p t (S (S p)) (put_entry (S p) (region_cfg r RISCV_PMPCFG_TOR) (Z.shiftr (u32 (paddr r + size r)) 2)
        (put_entry p cfg_off (Z.shiftr (paddr r) 2) t)).

(** The number of entries a region needs behind [prev]. *)
Definition cost (r : proc_memmap_ent) (prev : Z) : nat :=
  if paddr r =? prev then 1 else if (size r =? 4) || riscv_pmpaddr_is_napot (paddr r) (size r) then 1 else 2.

Lemma protect_loop_cons grain r rs prev p t : ctx_ok t →
  Z.land (Z.lor (paddr r) (size r)) (u32 (grain - 1)) ≠ 0 ∧ protect_loop grain (r :: rs) prev p t = Done None ∨
  Z.land (Z.lor (paddr r) (size r)) (u32 (grain - 1)) = 0 ∧
    ((PROC_RISCV_PMP_COUNT < p + cost r prev)%nat ∧ protect_loop grain (r :: rs) prev p t = Done None ∨
     ∃ p' t', stores r prev p t p' t' ∧ p' = (p + cost r prev)%nat ∧ (p' <= PROC_RISCV_PMP_COUNT)%nat ∧
       protect_loop grain (r :: rs) prev p t = protect_loop grain rs (u32 (paddr r + size r)) p' t').
Proof.
  intros Ht. cbn [protect_loop]. destruct (Z.eqb_spec (Z.land (Z.lor (paddr r) (size r)) (u32 (grain - 1))) 0); [right|left];
    (split; [done|]); [|done]. cbn [negb]. unfold cost.
  destruct (Nat.leb_spec PROC_RISCV_PMP_COUNT p); [left; split; [repeat case_match; lia|done]|].
  destruct (Z.eqb_spec (paddr r) prev) as [Hp|Hp]; cbn [negb andb].
  - right. rewrite put_entry_eq by done. eexists _, _. split; [by apply stores_tor|]. split_and!; [lia..|done].
  - destruct (Z.eqb_spec (size r) 4) as [H4|H4]; cbn [orb].
    { right. rewrite put_entry_eq by done. eexists _, _. split; [by apply stores_na4|]. split_and!; [lia..|done]. }
    destruct (riscv_pmpaddr_is_napot (paddr r) (size r)) eqn:En.
    { right. rewrite put_entry_eq by done. eexists _, _. split; [by apply stores_napot|]. split_and!; [lia..|done]. }
    unfold PROC_RISCV_PMP_COUNT in *. destruct (Nat.ltb_spec (8 - 2) p) as [H2|H2]; [left; split; [lia|done]|]. right.
    rewrite put_entry_eq by (try done; unfold PROC_RISCV_PMP_COUNT; lia).
    rewrite put_entry_eq by (try apply put_entry_ok; try done; unfold PROC_RISCV_PMP_COUNT; lia).
    eexists _, _. split; [by apply stores_base_tor|]. split_and!; [lia..|done].
Qed.

Lemma cost_range r prev : (1 <= cost r prev <= 2)%nat.
Proof. unfold cost. repeat case_match; lia. Qed.

Lemma stores_frame r prev p t p' t' : stores r prev p t p' t' → ctx_ok t → ctx_ok t' ∧ same_below p t t'.
Proof.
  intros Hs Ht. destruct Hs; (split; [by repeat apply put_entry_ok|]); try apply put_entry_below.
  intros i Hi. simpl. by rewrite !list_lookup_insert_ne by lia.
Qed.

(** Region [r] is a multiple of the granule. *)
Definition granular (g : nat) (r : proc_memmap_ent) : Prop :=
  paddr r mod 2 ^ Z.of_nat (g + 2) = 0 ∧ size r mod 2 ^ Z.of_nat (g + 2) = 0.

Lemma granule_words g x : x mod 2 ^ Z.of_nat (g + 2) = 0 → (x / 4) mod 2 ^ Z.of_nat g = 0 ∧ 4 * (x / 4) = x.
Proof.
  intros Hx. apply Z.mod_divide in Hx as [q ->]; [|lia].
  replace (2 ^ Z.of_nat (g + 2)) with (2 ^ Z.of_nat g * 4) by (rewrite Nat2Z.inj_add, Z.pow_add_r by lia; done).
  rewrite Z.mul_assoc, Z.div_mul by lia. split; [apply Z.mod_mul; lia|lia].
Qed.

Lemma granule_words_sum g r : granular g r → ((paddr r + size r) / 4) mod 2 ^ Z.of_nat g = 0.
Proof.
  intros [Hp Hs]. apply granule_words. apply Z.mod_divide in Hp, Hs; [|lia..].
  apply Z.mod_divide; [lia|]. by apply Z.divide_add_r.
Qed.

(** A TOR entry between granule boundaries. *)
Lemma tor_match h p w r : cfg_at h p = region_cfg r RISCV_PMPCFG_TOR →
  addr_at h p mod 2 ^ Z.of_nat (granularity h) = 0 →
  matches h p w = bool_decide (tor_base h p <= w < addr_at h p).
Proof.
  intros Hc Ha. unfold matches. rewrite Hc. cbn [addr_match_mode region_cfg]. rewrite (align_low_id _ _ Ha).
  fold (tor_base h p). apply eq_bool_prop_intro. rewrite bool_decide_spec, Is_true_true, andb_true_iff, Z.leb_le, Z.ltb_lt. done.
Qed.

(** Behind the entries of a region a TOR entry would begin at the end of the
    region, or inside it where the region matches first. *)
Definition end_ok (h : pmp) (p : nat) (r : proc_memmap_ent) : Prop :=
  tor_base h p <= (paddr r + size r) / 4 ∧ ∀ w, tor_base h p <= w < (paddr r + size r) / 4 → in_region r w.

Section entry.
Context (h : pmp) (r : proc_memmap_ent) (p : nat).
Context (Hr : region_fits r) (Hg : granular (granularity h) r).

Lemma na4_entry : cfg_at h p = region_cfg r RISCV_PMPCFG_NA4 → addr_at h p = paddr r / 4 → size r = 4 →
  (∀ w, matches h p w = bool_decide (in_region r w)) ∧ end_ok h (S p) r.
Proof.
  intros Ec Ea H4. destruct (granule_words _ _ (proj1 Hg)) as [Gp _].
  assert ((paddr r + size r) / 4 = paddr r / 4 + 1) as E1.
  { rewrite H4. replace (paddr r + 4) with (paddr r + 1 * 4) by lia. by rewrite Z.div_add. }
  split.
  - intros w. unfold matches. rewrite Ec, Ea. cbn [addr_match_mode region_cfg].
    apply eq_bool_prop_intro. rewrite bool_decide_spec, Is_true_true, Z.eqb_eq. unfold in_region. lia.
  - unfold end_ok. cbn [tor_base]. rewrite Ea, (align_low_id _ _ Gp). unfold in_region. split; [lia|]. intros w. lia.
Qed.

Lemma napot_entry : cfg_at h p = region_cfg r RISCV_PMPCFG_NAPOT →
  addr_at h p = riscv_pmpaddr_calc_napot (paddr r) (size r) → riscv_pmpaddr_is_napot (paddr r) (size r) = true →
  (∀ w, matches h p w = bool_decide (in_region r w)) ∧ end_ok h (S p) r.
Proof.
  intros Ec Ea Hn. destruct (granule_words _ _ (proj1 Hg)) as [Gp _]. destruct Hr as (Hr0&Hr1&Hr2).
  destruct (is_napot_spec (paddr r) (size r)) as (k&q&Hk&Es&Eq); [unfold fits; lia..|done|].
  assert (Z.of_nat (granularity h) + 2 <= k) as Hgk.
  { destruct Hg as [_ Hgs]. rewrite Es in Hgs. apply Z.mod_divide in Hgs; [|lia]. apply Z.divide_pos_le in Hgs; [|lia].
    apply Z.pow_le_mono_r_iff in Hgs; lia. }
  assert (2 ^ k = 2 ^ (k - 2) * 4) as E4 by (change 4 with (2 ^ 2); rewrite <-Z.pow_add_r by lia; f_equal; lia).
  assert (paddr r / 4 = q * 2 ^ (k - 2) ∧ (paddr r + size r) / 4 = (q + 1) * 2 ^ (k - 2)) as [Eb Ee].
  { rewrite Es, Eq, E4. split.
    - by rewrite Z.mul_assoc, Z.div_mul.
    - replace (q * (2 ^ (k - 2) * 4) + 2 ^ (k - 2) * 4) with ((q + 1) * 2 ^ (k - 2) * 4) by lia. by rewrite Z.div_mul. }
  rewrite Es, Eq, calc_napot_spec in Ea by done.
  assert (0 < 2 ^ (k - 3) <= 2 ^ (k - 2)) as Hpow by (split; [lia|apply Z.pow_le_mono_r; lia]).
  assert (paddr r / 4 <= tor_base h (S p) <= addr_at h p) as Htb.
  { cbn [tor_base]. split; [|apply align_low_le]. rewrite <-(align_low_id _ _ Gp). apply align_low_mono. rewrite Ea. lia. }
  split; [|unfold end_ok, in_region; split; [lia|]; intros w; lia]. intros w. unfold matches. rewrite Ec.
  cbn [addr_match_mode region_cfg]. rewrite Ea, (napot_match (granularity h) q k) by lia. apply bool_decide_ext.
  unfold in_region. by rewrite Eb, Ee.
Qed.

Lemma tor_entry : cfg_at h p = region_cfg r RISCV_PMPCFG_TOR → addr_at h p = (paddr r + size r) / 4 →
  (∀ w, matches h p w = bool_decide (tor_base h p <= w < (paddr r + size r) / 4)) ∧ end_ok h (S p) r.
Proof.
  intros Ec Ea. pose proof (granule_words_sum _ _ Hg) as Ge. split.
  - intros w. rewrite (tor_match h p w r) by (rewrite ?Ea; done). by rewrite Ea.
  - unfold end_ok. cbn [tor_base]. rewrite Ea, (align_low_id _ _ Ge). split; [lia|]. intros w. lia.
Qed.

(** Among the words outside [Q], the entry matches those of the region. *)
Lemma first_match_entry (Q : Z → Prop) m : cfg_at h p = region_cfg r m →
  (∀ w, ¬ Q w → matches h p w = bool_decide (in_region r w)) → ∀ w n, ¬ Q w →
  first_match h (S n) p w = if decide (in_region r w) then Some (region_cfg r m) else first_match h n (S p) w.
Proof.
  intros Hc Hm w n Hw. cbn [first_match]. rewrite Hm, Hc by done.
  destruct (decide (in_region r w)); [by rewrite bool_decide_eq_true_2|by rewrite bool_decide_eq_false_2].
Qed.
End entry.

Lemma loads_put h c v t k n : loads h (put_entry k c v t) n → ctx_ok t → (k < n <= PROC_RISCV_PMP_COUNT)%nat →
  cfg_at h k = c ∧ addr_at h k = v.
Proof.
  intros Hl Ht Hk. destruct (put_entry_at k c v t Ht) as [E1 E2]; [lia|]. destruct (Hl k) as [L1 L2]; [lia|]. by simplify_eq.
Qed.

(** The entries stored for a region match, among the words that no earlier
    entry matched, exactly those of the region; [Q] are the earlier ones. *)
Lemma stores_match r prev p t p' t' h (Q : Z → Prop) :
  stores r prev p t p' t' → ctx_ok t → (p' <= PROC_RISCV_PMP_COUNT)%nat → region_fits r →
  granular (granularity h) r → loads h t' p' →
  tor_base h p <= prev / 4 → (∀ w, tor_base h p <= w < prev / 4 → Q w) →
  end_ok h p' r ∧ ∃ m, ∀ w n, ¬ Q w → first_match h (p' - p + n) p w =
    if decide (in_region r w) then Some (region_cfg r m) else first_match h n p' w.
Proof.
  intros Hs Ht Hp' Hr Hg Hl Hb HQ. destruct (granule_words _ _ (proj1 Hg)) as [Gp _].
  assert (u32 (paddr r + size r) = paddr r + size r) as Ew by (apply wrap_small; unfold fits, region_fits in *; lia).
  assert (∀ n i, (S i - i + n = S n)%nat) as Hn by (intros; lia).
  destruct Hs as [H4|Hnap|Hprev|].
  - destruct (loads_put _ _ _ _ _ _ Hl Ht) as [Ec Ea]; [lia|]. rewrite shiftr2 in Ea.
    destruct (na4_entry h r p Hg Ec Ea H4) as [Hm He]. split; [done|]. exists RISCV_PMPCFG_NA4.
    intros w n. rewrite Hn. by apply first_match_entry.
  - destruct (loads_put _ _ _ _ _ _ Hl Ht) as [Ec Ea]; [lia|].
    destruct (napot_entry h r p Hr Hg Ec Ea Hnap) as [Hm He]. split; [done|]. exists RISCV_PMPCFG_NAPOT.
    intros w n. rewrite Hn. by apply first_match_entry.
  - destruct (loads_put _ _ _ _ _ _ Hl Ht) as [Ec Ea]; [lia|]. rewrite Ew, shiftr2 in Ea. subst prev.
    destruct (tor_entry h r p Hg Ec Ea) as [Hm He]. split; [done|]. exists RISCV_PMPCFG_TOR.
    intros w n. rewrite Hn. apply first_match_entry; [done|]. intros w' Hw'. rewrite Hm. apply bool_decide_ext.
    unfold in_region. split; [|lia]. intros [H1 H2]. split; [|done].
    destruct (decide (paddr r / 4 <= w')); [done|]. exfalso. apply Hw', HQ. lia.
  - pose proof (put_entry_ok p cfg_off (Z.shiftr (paddr r) 2) t Ht) as Ht1.
    destruct (loads_put _ _ _ _ _ _ Hl Ht1) as [Ec Ea]; [lia|]. rewrite Ew, shiftr2 in Ea.
    assert (loads h (put_entry p cfg_off (Z.shiftr (paddr r) 2) t) (S p)) as Hl1.
    { intros i Hi. destruct (Hl i) as [L1 L2]; [lia|]. simpl in L1, L2.
      rewrite list_lookup_insert_ne in L1 by lia. by rewrite list_lookup_insert_ne in L2 by lia. }
    destruct (loads_put _ _ _ _ _ _ Hl1 Ht) as [Ec0 Ea0]; [lia|]. rewrite shiftr2 in Ea0.
    destruct (tor_entry h r (S p) Hg Ec Ea) as [Hm He]. split; [done|]. exists RISCV_PMPCFG_TOR.
    intros w n Hw. replace (S (S p) - p + n)%nat with (S (S n)) by lia. change (first_match h (S (S n)) p w) with
      (if matches h p w then Some (cfg_at h p) else first_match h (S n) (S p) w).
    assert (matches h p w = false) as -> by (unfold matches; by rewrite Ec0).
    apply (first_match_entry _ _ _ Q); [done| |done]. intros w' _. rewrite Hm. cbn [tor_base].
    apply bool_decide_ext. by rewrite Ea0, (align_low_id _ _ Gp).
Qed.

Lemma protect_loop_frame grain rs : ∀ prev p t p' t', ctx_ok t → (p <= PROC_RISCV_PMP_COUNT)%nat →
  protect_loop grain rs prev p t = Done (Some (p', t')) →
  (p <= p' <= PROC_RISCV_PMP_COUNT)%nat ∧ ctx_ok t' ∧ same_below p t t'.
Proof.
  induction rs as [|r rs IH]; intros prev p t p' t' Ht Hp E.
  - injection E as <- <-. split_and!; try done; lia.
  - destruct (protect_loop_cons grain r rs prev p t Ht) as [[_ E']|[_ [[_ E']|(p1&t1&Hs&Hp1&Hp2&E')]]];
      rewrite E' in E; [done..|]. pose proof (cost_range r prev). destruct (stores_frame _ _ _ _ _ _ Hs Ht) as [Ht1 Hb1].
    apply IH in E as (Hp'&Ht'&Hb'); [|done..]. split_and!; [lia|lia|done|].
    intros i Hi. destruct (Hb1 i Hi) as [<- <-]. apply Hb'. lia.
Qed.

(** The generated entries: every word is decided by the first region that has
    it, and a word of no region by none of them. *)
Lemma protect_loop_match g rs h : granularity h = g → Forall region_fits rs → Z.of_nat g <= 29 →
  ∀ prev p t p' t' (Q : Z → Prop), ctx_ok t → (p <= PROC_RISCV_PMP_COUNT)%nat →
  protect_loop (2 ^ Z.of_nat (g + 2)) rs prev p t = Done (Some (p', t')) → loads h t' p' →
  tor_base h p <= prev / 4 → (∀ w, tor_base h p <= w < prev / 4 → Q w) →
  ∀ w, ¬ Q w → agree (first_match h (p' - p) p w) (region_of rs w).
Proof.
  intros Hgr Hrs Hg29. induction Hrs as [|r rs Hr Hrs IH]; intros prev p t p' t' Q Ht Hp E Hl Hb HQ w Hw.
  - injection E as <- <-. by rewrite Nat.sub_diag.
  - destruct (protect_loop_cons (2 ^ Z.of_nat (g + 2)) r rs prev p t Ht) as [[_ E']|[Hal [[_ E']|(p1&t1&Hs&Hp1&Hp2&E')]]];
      rewrite E' in E; [done..|]. pose proof (cost_range r prev). destruct (stores_frame _ _ _ _ _ _ Hs Ht) as [Ht1 _].
    destruct (protect_loop_frame _ _ _ _ _ _ _ Ht1 Hp2 E) as (Hp'&Ht'&Hb').
    assert (granular (granularity h) r) as Hg.
    { rewrite wrap_small in Hal by (assert (2 ^ Z.of_nat (g + 2) <= 2 ^ 31) by (apply Z.pow_le_mono_r; lia); unfold fits; lia).
      rewrite land_mask, lor_mod_0 in Hal by lia. unfold granular. by rewrite Hgr. }
    assert (loads h t1 p1) as Hl1.
    { intros i Hi. destruct (Hb' i Hi) as [<- <-]. apply Hl. lia. }
    destruct (stores_match _ _ _ _ _ _ _ Q Hs Ht Hp2 Hr Hg Hl1 Hb HQ) as ([He1 He2]&m&Hm).
    replace (p' - p)%nat with (p1 - p + (p' - p1))%nat by lia. rewrite (Hm w _ Hw). cbn [region_of].
    destruct (decide (in_region r w)) as [Hin|Hin]; [by exists m|].
    assert (u32 (paddr r + size r) = paddr r + size r) as Ew by (apply wrap_small; unfold fits, region_fits in *; lia).
    apply (IH _ _ _ _ _ (λ w, Q w ∨ in_region r w) Ht1 Hp2 E Hl); rewrite ?Ew; [done| |tauto].
    intros w' Hw'. right. by apply He2.
Qed.

(** The number of entries of a list of regions. *)
Fixpoint entries (rs : list proc_memmap_ent) (prev : Z) : nat :=
  match rs with
  | [] => 0
  | r :: rs => cost r prev + entries rs (u32 (paddr r + size r))
  end.

(** The loop succeeds exactly when the regions are multiples of the granule
    and their entries fit. *)
Lemma protect_loop_success grain rs : ∀ prev p t, ctx_ok t → (p <= PROC_RISCV_PMP_COUNT)%nat →
  ∃ res, protect_loop grain rs prev p t = Done res ∧
    (is_Some res ↔ Forall (λ r, Z.land (Z.lor (paddr r) (size r)) (u32 (grain - 1)) = 0) rs ∧
      (p + entries rs prev <= PROC_RISCV_PMP_COUNT)%nat).
Proof.
  induction rs as [|r rs IH]; intros prev p t Ht Hp.
  - eexists. split; [reflexivity|]. split; [intros _; split; [done|simpl; lia]|by eexists].
  - cbn [entries].
    destruct (protect_loop_cons grain r rs prev p t Ht) as [[Hal E]|[Hal [[Hc E]|(p1&t1&Hs&Hp1&Hp2&E)]]]; rewrite E.
    + eexists. split; [reflexivity|]. rewrite Forall_cons. split; [by intros []|]. intros [[? _] _]. done.
    + eexists. split; [reflexivity|]. split; [by intros []|]. intros [_ Hle]. lia.
    + destruct (stores_frame _ _ _ _ _ _ Hs Ht) as [Ht1 _].
      destruct (IH (u32 (paddr r + size r)) p1 t1 Ht1 Hp2) as (res&E'&Hres). exists res. split; [done|].
      rewrite Forall_cons, Hres. subst p1. split; [intros [? ?]|intros [[_ ?] ?]]; (split; [by auto|lia]).
Qed.

(** Removing a region never needs more entries. *)
Lemma entries_remove rs1 r rs2 : ∀ prev, (entries (rs1 ++ rs2) prev <= entries (rs1 ++ r :: rs2) prev)%nat.
Proof.
  induction rs1 as [|r1 rs1 IH]; intros prev; cbn [app entries].
  - destruct rs2 as [|r2 rs2]; cbn [entries]; [lia|].
    pose proof (cost_range r prev). pose proof (cost_range r2 prev). pose proof (cost_range r2 (u32 (paddr r + size r))). lia.
  - specialize (IH (u32 (paddr r1 + size r1))). lia.
Qed.
