(* ===== verification/PmpCorrect.v ===== *)
(** * Memory protection keeps processes apart

    The register writes of the driver, the state after initialisation, and the
    theorems: with the entries of a process loaded, user code has exactly the
    permissions of the regions of the process. *)

From S2P Require Import Prelude IntRoutines Pmp PmpTheory.

(** ** Register writes *)

Definition hw_ok (h : pmp) : Prop := length (pmpcfg h) = 16%nat ∧ length (pmpaddr h) = 16%nat.

Lemma csrw_pmpcfg_lookup n v h i : (4 * n + 4 <= length (pmpcfg h))%nat →
  pmpcfg (csrw_pmpcfg n v h) !! i =
    if decide (4 * n <= i < 4 * n + 4)%nat then
      old ← pmpcfg h !! i; b ← to_bytes 4 v !! (i - 4 * n)%nat; Some (locked_merge old b)
    else pmpcfg h !! i.
Proof.
  intros Hl. unfold csrw_pmpcfg. cbn [pmpcfg]. set (z := zip_with _ _ _).
  assert (length z = 4%nat) as Hz.
  { unfold z. rewrite length_zip_with, length_take, length_drop, length_to_bytes. lia. }
  assert (length (take (4 * n) (pmpcfg h)) = 4 * n)%nat as Ht by (rewrite length_take; lia).
  destruct (decide (i < 4 * n)%nat) as [H1|H1].
  { rewrite decide_False by lia. rewrite lookup_app_l by lia. by apply lookup_take_lt. }
  rewrite lookup_app_r by lia. rewrite Ht. destruct (decide (i < 4 * n + 4)%nat) as [H2|H2].
  - rewrite decide_True by lia. rewrite lookup_app_l by lia. unfold z. rewrite lookup_zip_with.
    rewrite lookup_take_lt, lookup_drop by lia. by replace (4 * n + (i - 4 * n))%nat with i by lia.
  - rewrite decide_False by lia. rewrite lookup_app_r by lia. rewrite Hz, lookup_drop. f_equal. lia.
Qed.

Lemma csrw_pmpcfg_ok n v h : hw_ok h → (n < 4)%nat → hw_ok (csrw_pmpcfg n v h).
Proof.
  intros [Hc Ha] Hn. split; [|done]. unfold csrw_pmpcfg. cbn [pmpcfg].
  rewrite !length_app, length_zip_with, !length_take, !length_drop, length_to_bytes. lia.
Qed.

(** The four bytes of a word. *)
Lemma pack_bytes v0 v1 v2 v3 : fits 8 v0 → fits 8 v1 → fits 8 v2 → fits 8 v3 →
  to_bytes 4 (Z.lor (Z.lor (Z.lor v0 (Z.shiftl v1 8)) (Z.shiftl v2 16)) (Z.shiftl v3 24)) = [v0; v1; v2; v3].
Proof.
  intros H0 H1 H2 H3. unfold fits in *.
  rewrite (lor_shiftl_add v0) by lia. rewrite (lor_shiftl_add (v0 + _)) by lia. rewrite (lor_shiftl_add (v0 + _ + _)) by lia.
  rewrite <-(to_of_bytes [v0; v1; v2; v3]) by (repeat constructor; unfold fits; lia). cbn [of_bytes length]. f_equal. lia.
Qed.

Lemma cfg_value_fits c : fits 8 (cfg_value c).
Proof. destruct c as [[] [] [] [] []]; vm_compute; split; congruence. Qed.

Lemma value_cfg_value c : value_cfg (cfg_value c) = c.
Proof. by destruct c as [[] [] [] [] []]. Qed.

Lemma cfg_at_lookup h i : hw_ok h → (i < 16)%nat → ∃ b, pmpcfg h !! i = Some b ∧ cfg_at h i = value_cfg b.
Proof.
  intros [Hc _] Hi. destruct (lookup_lt_is_Some_2 (pmpcfg h) i) as [b Hb]; [lia|]. exists b. split; [done|].
  unfold cfg_at. by rewrite Hb.
Qed.

(** Loading four configurations of unlocked entries. *)
Lemma swap_cfg_spec ctx n h : hw_ok h → ctx_ok ctx → (n < 2)%nat →
  (∀ i, (4 * n <= i < 4 * n + 4)%nat → lock (cfg_at h i) = false) →
  ∃ h', PMP_CFG_SWAP_RV32 ctx n h = Done h' ∧ hw_ok h' ∧ pmpaddr h' = pmpaddr h ∧ granularity h' = granularity h ∧
    ∀ i, (i < 16)%nat → cfg_at h' i = if decide (4 * n <= i < 4 * n + 4)%nat then default cfg_off (ctx_cfg ctx !! i) else cfg_at h i.
Proof.
  intros Hh [Hcl _] Hn Hlock. unfold PMP_CFG_SWAP_RV32.
  assert (((PROC_RISCV_PMP_START <=? n * 4) && (n * 4 + 3 <? PROC_RISCV_PMP_START + PROC_RISCV_PMP_COUNT))%nat = true) as ->.
  { destruct n as [|[]]; [done|done|lia]. }
  assert (∀ k, (k < 8)%nat → ∃ c, ctx_cfg ctx !! k = Some c ∧ ctx_value ctx k = Done (cfg_value c)) as Hv.
  { intros k Hk. unfold PROC_RISCV_PMP_COUNT in Hcl. destruct (lookup_lt_is_Some_2 (ctx_cfg ctx) k) as [c Hc]; [lia|].
    exists c. split; [done|]. unfold ctx_value. by rewrite Hc. }
  destruct (Hv (n * 4)%nat) as (c0&L0&->); [lia|]. destruct (Hv (n * 4 + 1)%nat) as (c1&L1&->); [lia|].
  destruct (Hv (n * 4 + 2)%nat) as (c2&L2&->); [lia|]. destruct (Hv (n * 4 + 3)%nat) as (c3&L3&->); [lia|].
  cbn [mbind outcome_bind]. set (v := Z.lor _ _).
  assert (to_bytes 4 v = cfg_value <$> [c0; c1; c2; c3]) as Ev by (apply pack_bytes; apply cfg_value_fits).
  eexists. split_and!; [reflexivity|apply csrw_pmpcfg_ok; [done|lia]|done|done|]. intros i Hi.
  unfold cfg_at at 1. rewrite csrw_pmpcfg_lookup by (destruct Hh; lia).
  destruct (decide (4 * n <= i < 4 * n + 4)%nat) as [Hr|Hr]; [|done].
  destruct (cfg_at_lookup h i Hh Hi) as (b&Hb&Ec). rewrite Hb, Ev. cbn [mbind option_bind].
  rewrite list_lookup_fmap. assert ([c0; c1; c2; c3] !! (i - 4 * n)%nat = ctx_cfg ctx !! i) as ->.
  { assert (i = n * 4 ∨ i = n * 4 + 1 ∨ i = n * 4 + 2 ∨ i = n * 4 + 3)%nat as Hcase by lia.
    destruct Hcase as [-> | [-> | [-> | ->]]]; rewrite ?L0, ?L1, ?L2, ?L3.
    - by replace (n * 4 - 4 * n)%nat with 0%nat by lia.
    - by replace (n * 4 + 1 - 4 * n)%nat with 1%nat by lia.
    - by replace (n * 4 + 2 - 4 * n)%nat with 2%nat by lia.
    - by replace (n * 4 + 3 - 4 * n)%nat with 3%nat by lia. }
  destruct (Hv i) as (c&Hc&_); [lia|]. rewrite Hc. cbn [fmap option_fmap option_map mbind option_bind default].
  unfold locked_merge. specialize (Hlock i). rewrite Ec in Hlock. cbn [lock value_cfg] in Hlock. rewrite Hlock by lia.
  apply value_cfg_value.
Qed.

(** The context holds unlocked configurations and 32-bit addresses. *)
Definition ctx_loadable (ctx : riscv_pmp_ctx) : Prop :=
  ctx_ok ctx ∧ Forall (λ c, lock c = false) (ctx_cfg ctx) ∧ Forall (fits 32) (ctx_addr ctx).

Lemma swap_addr_loop ctx k : ∀ n h, ctx_loadable ctx → length (pmpaddr h) = 16%nat → (n + k <= 16)%nat →
  (∀ i, (i <= 8)%nat → lock (cfg_at h i) = false) →
  ∃ h', swap_all (PMP_ADDR_SWAP ctx) (seq n k) h = Done h' ∧ pmpcfg h' = pmpcfg h ∧ granularity h' = granularity h ∧
    length (pmpaddr h') = 16%nat ∧
    ∀ i, pmpaddr h' !! i = if decide (n <= i < n + k ∧ i < 8)%nat then ctx_addr ctx !! i else pmpaddr h !! i.
Proof.
  induction k as [|k IH]; intros n h Hctx Hh Hn Hlock; cbn [seq swap_all].
  { exists h. split_and!; try done. intros i. by rewrite decide_False by lia. }
  destruct Hctx as ([Hcl Hal]&Hcu&Hau). unfold PROC_RISCV_PMP_COUNT in *.
  assert (∃ h1, PMP_ADDR_SWAP ctx n h = Done h1 ∧ pmpcfg h1 = pmpcfg h ∧ granularity h1 = granularity h ∧
    length (pmpaddr h1) = 16%nat ∧
    ∀ i, pmpaddr h1 !! i = if decide (i = n ∧ n < 8)%nat then ctx_addr ctx !! i else pmpaddr h !! i) as (h1&E1&C1&G1&L1&A1).
  { unfold PMP_ADDR_SWAP, in_use, PROC_RISCV_PMP_START, PROC_RISCV_PMP_COUNT. cbn [Nat.leb andb Nat.add].
    destruct (Nat.ltb_spec n 8) as [H8|H8].
    - rewrite Nat.sub_0_r. destruct (lookup_lt_is_Some_2 (ctx_addr ctx) n) as [v Hv]; [lia|]. rewrite Hv.
      cbn [deref mbind outcome_bind]. eexists. split; [reflexivity|]. unfold csrw_pmpaddr, addr_locked.
      rewrite !Hlock by lia. cbn [orb andb pmpcfg pmpaddr granularity]. split_and!; [done|done|by rewrite length_insert|].
      rewrite wrap_small by (by eapply (Forall_lookup_1 _ _ _ _ Hau)).
      intros i. destruct (decide (i = n ∧ (n < 8)%nat)) as [[-> _]|Hi]; [by rewrite list_lookup_insert_eq by lia|].
      rewrite list_lookup_insert_ne; [done|]. intros ->. by apply Hi.
    - exists h. split_and!; try done. intros i. by rewrite decide_False by lia. }
  rewrite E1. cbn [mbind outcome_bind].
  destruct (IH (S n) h1) as (h'&E'&C'&G'&L'&A'); [by split_and!|done|lia| |].
  { intros i Hi. specialize (Hlock i Hi). unfold cfg_at in *. by rewrite C1. }
  exists h'. split_and!; [done|congruence|congruence|done|]. intros i. rewrite A', A1.
  destruct (decide (S n <= i < S n + k ∧ i < 8)%nat); [by rewrite decide_True by lia|].
  destruct (decide (i = n ∧ n < 8)%nat); [by rewrite decide_True by lia|by rewrite decide_False by lia].
Qed.

(** Loading a context replaces exactly the first eight entries. *)
Lemma swap_spec ctx h : hw_ok h → ctx_loadable ctx → (∀ i, (i <= 8)%nat → lock (cfg_at h i) = false) →
  ∃ h', riscv_pmp_memprotect_swap (Some ctx) h = Done h' ∧ hw_ok h' ∧ granularity h' = granularity h ∧ loads h' ctx 8 ∧
    ∀ i, (8 <= i < 16)%nat → cfg_at h' i = cfg_at h i ∧ addr_at h' i = addr_at h i.
Proof.
  intros Hh Hctx Hlock. pose proof Hctx as (Hok&Hcu&_). unfold riscv_pmp_memprotect_swap. cbn [seq swap_all].
  destruct (swap_cfg_spec ctx 0 h Hh Hok) as (h1&E1&Hh1&A1&G1&C1); [lia|intros; apply Hlock; lia|].
  destruct (swap_cfg_spec ctx 1 h1 Hh1 Hok) as (h2&E2&Hh2&A2&G2&C2); [lia| |].
  { intros i Hi. rewrite C1, decide_False by lia. apply Hlock. lia. }
  rewrite E1. cbn [mbind outcome_bind]. rewrite E2. cbn [mbind outcome_bind].
  change (PMP_CFG_SWAP_RV32 ctx 2 h2) with (Done h2). cbn [mbind outcome_bind].
  change (PMP_CFG_SWAP_RV32 ctx 3 h2) with (Done h2). cbn [mbind outcome_bind].
  assert (∀ i, (i < 16)%nat → cfg_at h2 i = if decide (i < 8)%nat then default cfg_off (ctx_cfg ctx !! i) else cfg_at h i) as C.
  { intros i Hi. rewrite C2, C1 by done. repeat case_decide; try done; lia. }
  destruct (swap_addr_loop ctx 16 0 h2 Hctx) as (h3&E3&C3&G3&L3&A3); [apply Hh2|lia| |].
  { intros i Hi. rewrite C by lia. case_decide as H8; [|apply Hlock; lia].
    destruct (ctx_cfg ctx !! i) as [c|] eqn:Hc; [|done]. by apply (Forall_lookup_1 _ _ _ _ Hcu Hc). }
  exists h3. destruct Hok as [Hcl Hal]. unfold PROC_RISCV_PMP_COUNT in *.
  assert (∀ i, cfg_at h3 i = cfg_at h2 i) as C3' by (intros i; unfold cfg_at; by rewrite C3).
  split_and!; [done|split; [rewrite C3; apply Hh2|done]|congruence| |].
  - intros i Hi. rewrite C3', C, decide_True by lia. unfold addr_at. rewrite A3, decide_True by lia.
    destruct (lookup_lt_is_Some_2 (ctx_cfg ctx) i) as [c ->]; [lia|].
    destruct (lookup_lt_is_Some_2 (ctx_addr ctx) i) as [v ->]; [lia|]. done.
  - intros i Hi. rewrite C3', C, decide_False by lia. split; [done|]. unfold addr_at. rewrite A3, decide_False by lia.
    by rewrite A2, A1.
Qed.

(** ** Generated contexts *)

Lemma stores_loadable r prev p t p' t' : stores r prev p t p' t' → ctx_ok t → region_fits r → (p' <= PROC_RISCV_PMP_COUNT)%nat →
  Forall (fits 32) (ctx_addr t) → Forall (λ c, lock c = false) (take p (ctx_cfg t)) →
  Forall (fits 32) (ctx_addr t') ∧ Forall (λ c, lock c = false) (take p' (ctx_cfg t')).
Proof.
  intros Hs Ht (Hr0&Hr1&Hr2) Hp Ha Hc.
  assert (∀ x, fits 32 x → fits 32 (Z.shiftr x 2)) as Hsh.
  { intros x Hx. rewrite shiftr2. unfold fits in *. split; [apply Z.div_pos; lia|]. apply Z.div_lt_upper_bound; lia. }
  assert (fits 32 (u32 (paddr r + size r))) as Hw by (apply wrap_fits; lia).
  assert (∀ q c v t0, ctx_ok t0 → (q < PROC_RISCV_PMP_COUNT)%nat → lock c = false → fits 32 v →
    Forall (fits 32) (ctx_addr t0) → Forall (λ c, lock c = false) (take q (ctx_cfg t0)) →
    Forall (fits 32) (ctx_addr (put_entry q c v t0)) ∧
    Forall (λ c, lock c = false) (take (S q) (ctx_cfg (put_entry q c v t0)))) as Hput.
  { intros q c v t0 [Hl _] Hq Hlc Hv Ha0 Hc0. simpl. split; [by apply Forall_insert|].
    rewrite (take_S_r _ _ c) by (apply list_lookup_insert_eq; lia). rewrite take_insert_ge by lia.
    apply Forall_app. split; [done|by constructor]. }
  destruct Hs as [H4|Hn|Hprev|].
  - apply Hput; try done. apply Hsh. unfold fits. lia.
  - apply Hput; try done. destruct (is_napot_spec (paddr r) (size r)) as (k&q&Hk&Es&Eq); [unfold fits; lia..|done|].
    rewrite Es, Eq, calc_napot_spec by done.
    assert (2 ^ k = 2 ^ (k - 2) * 4) as E4 by (change 4 with (2 ^ 2); rewrite <-Z.pow_add_r by lia; f_equal; lia).
    assert (0 < 2 ^ (k - 3) <= 2 ^ (k - 2)) as Hpow by (split; [lia|apply Z.pow_le_mono_r; lia]). unfold fits. nia.
  - apply Hput; try done. by apply Hsh.
  - destruct (Hput p cfg_off (Z.shiftr (paddr r) 2) t) as [Ha1 Hc1]; try done; [lia|apply Hsh; unfold fits; lia|].
    apply Hput; try done; [by apply put_entry_ok|by apply Hsh].
Qed.

Lemma protect_loop_loadable grain rs : Forall region_fits rs → ∀ prev p t p' t', ctx_ok t → (p <= PROC_RISCV_PMP_COUNT)%nat →
  protect_loop grain rs prev p t = Done (Some (p', t')) →
  Forall (fits 32) (ctx_addr t) → Forall (λ c, lock c = false) (take p (ctx_cfg t)) →
  Forall (fits 32) (ctx_addr t') ∧ Forall (λ c, lock c = false) (take p' (ctx_cfg t')).
Proof.
  induction 1 as [|r rs Hr Hrs IH]; intros prev p t p' t' Ht Hp E Ha Hc.
  - by injection E as <- <-.
  - destruct (protect_loop_cons grain r rs prev p t Ht) as [[_ E']|[_ [[_ E']|(p1&t1&Hs&Hp1&Hp2&E')]]];
      rewrite E' in E; [done..|]. destruct (stores_frame _ _ _ _ _ _ Hs Ht) as [Ht1 _].
    destruct (stores_loadable _ _ _ _ _ _ Hs Ht Hr Hp2 Ha Hc) as [Ha1 Hc1]. by apply (IH _ _ _ _ _ Ht1 Hp2 E).
Qed.

(** The uninitialised local has room for eight entries. *)
Definition tmp_ok (t : riscv_pmp_ctx) : Prop := ctx_ok t ∧ Forall (fits 32) (ctx_addr t).

Lemma first_match_app h n : ∀ m i w, first_match h (n + m) i w =
  match first_match h n i w with Some c => Some c | None => first_match h m (i + n) w end.
Proof.
  induction n as [|n IH]; intros m i w; cbn [Nat.add first_match]; [by rewrite Nat.add_0_r|].
  destruct (matches h i w); [done|]. rewrite IH. by replace (S i + n)%nat with (i + S n)%nat by lia.
Qed.

Lemma first_match_off h n : ∀ i w, (∀ j, (i <= j < i + n)%nat → cfg_at h j = cfg_off) → first_match h n i w = None.
Proof.
  induction n as [|n IH]; intros i w Hoff; cbn [first_match]; [done|].
  assert (matches h i w = false) as -> by (unfold matches; by rewrite Hoff by lia). apply IH. intros j Hj. apply Hoff. lia.
Qed.

(** A generated context can be loaded, and decides every word as the regions do. *)
Lemma memprotect_spec g regions tmp ctx : Forall region_fits regions → Z.of_nat g <= 29 → tmp_ok tmp →
  riscv_pmp_memprotect (2 ^ Z.of_nat (g + 2)) regions tmp = Done (Some ctx) →
  ctx_loadable ctx ∧ ∀ h w, granularity h = g → loads h ctx 8 → 0 <= w → agree (first_match h 8 0 w) (region_of regions w).
Proof.
  intros Hrs Hg [Ht Hta] E. unfold riscv_pmp_memprotect in E. rewrite decide_True in E by done.
  apply bind_Done in E as ([[p t]|]&E&Ectx); [|done]. injection Ectx as <-.
  assert (0 <= PROC_RISCV_PMP_COUNT)%nat as H0 by lia.
  destruct (protect_loop_frame _ _ _ _ _ _ _ Ht H0 E) as (Hp&[Hcl Hal]&_).
  destruct (protect_loop_loadable _ _ Hrs _ _ _ _ _ Ht H0 E Hta) as [Ha Hc]; [by constructor|].
  unfold PROC_RISCV_PMP_COUNT in *. split.
  - split_and!; [split; simpl; rewrite ?length_app, ?length_take, ?length_replicate; unfold PROC_RISCV_PMP_COUNT; lia| |done].
    simpl. apply Forall_app. split; [done|]. by apply Forall_replicate.
  - intros h w Hgr Hl Hw. replace 8%nat with (p + (8 - p))%nat by lia. rewrite first_match_app.
    assert (∀ j, (p <= j < 8)%nat → cfg_at h j = cfg_off) as Hoff.
    { intros j Hj. destruct (Hl j) as [L _]; [lia|]. simpl in L. rewrite lookup_app_r in L by (rewrite length_take; lia).
      apply lookup_replicate_1 in L as [-> _]. done. }
    assert (loads h t p) as Hlt.
    { intros j Hj. destruct (Hl j) as [L1 L2]; [lia|]. simpl in L1, L2.
      rewrite lookup_app_l, lookup_take_lt in L1 by (rewrite ?length_take; lia). done. }
    pose proof (protect_loop_match g regions h Hgr Hrs Hg 0 0 tmp p t (λ _, False) Ht H0 E Hlt) as Hm.
    rewrite Nat.sub_0_r in Hm. specialize (Hm ltac:(done) ltac:(intros w' [Hw1 Hw2]; cbn [tor_base] in *; change (0 / 4) with 0 in *; lia) w).
    rewrite (first_match_off h (8 - p) (0 + p) w) by (intros j Hj; apply Hoff; lia).
    destruct (first_match h p 0 w); apply Hm; tauto.
Qed.

(** ** Initialisation *)

Lemma grain_loop_spec g : ∀ fuel q grain, (g < fuel)%nat → Z.odd q = true → 0 <= grain → grain * 2 ^ Z.of_nat g < 2 ^ 32 →
  grain_loop fuel (q * 2 ^ Z.of_nat g) grain = Done (grain * 2 ^ Z.of_nat g).
Proof.
  induction g as [|g IH]; intros fuel q grain Hf Hq H0 Hlt; (destruct fuel as [|fuel]; [lia|]); cbn [grain_loop].
  - change (2 ^ Z.of_nat 0) with 1. rewrite !Z.mul_1_r. rewrite land_1, <-Z.bit0_mod, Z.bit0_odd, Hq. done.
  - rewrite Nat2Z.inj_succ, Z.pow_succ_r in * by lia.
    replace (q * (2 * 2 ^ Z.of_nat g)) with (q * 2 ^ Z.of_nat g * 2) by lia.
    rewrite land_1, Z.mod_mul by done. rewrite Z.eqb_refl, Z.shiftr_div_pow2, Z.div_mul by done.
    rewrite Z.shiftl_mul_pow2 by done. change (2 ^ 1) with 2. rewrite wrap_small by (unfold fits; nia).
    rewrite IH; [f_equal; lia|lia|done|lia|lia].
Qed.

Lemma init_addr g : (g <= 29)%nat → ∃ q, Z.odd q = true ∧ 0 < q ∧ align_low g LONG_MAX = q * 2 ^ Z.of_nat g.
Proof.
  intros Hg. unfold align_low. rewrite Z.shiftr_div_pow2, Z.shiftl_mul_pow2 by lia.
  exists (2 ^ (31 - Z.of_nat g) - 1).
  assert (LONG_MAX / 2 ^ Z.of_nat g = 2 ^ (31 - Z.of_nat g) - 1) as E.
  { apply div_range; [lia|]. unfold LONG_MAX. assert (2 ^ 31 = 2 ^ (31 - Z.of_nat g) * 2 ^ Z.of_nat g) as -> by
      (rewrite <-Z.pow_add_r by lia; f_equal; lia). assert (1 <= 2 ^ Z.of_nat g) by lia. lia. }
  rewrite E. split_and!; [|assert (2 ^ 1 <= 2 ^ (31 - Z.of_nat g)) by (apply Z.pow_le_mono_r; lia); lia|done].
  rewrite Z.odd_sub. rewrite pow2_pred by lia. by rewrite Z.odd_mul.
Qed.

Lemma csrw_zero n h : hw_ok h → (n < 4)%nat → (∀ i, (i < 16)%nat → lock (cfg_at h i) = false) →
  ∀ i, (i < 16)%nat → pmpcfg (csrw_pmpcfg n 0 h) !! i = if decide (4 * n <= i < 4 * n + 4)%nat then Some 0 else pmpcfg h !! i.
Proof.
  intros Hh Hn Hlock i Hi. rewrite csrw_pmpcfg_lookup by (destruct Hh; lia).
  destruct (decide (4 * n <= i < 4 * n + 4)%nat); [|done]. destruct (cfg_at_lookup h i Hh Hi) as (b&Hb&Ec). rewrite Hb.
  specialize (Hlock i Hi). rewrite Ec in Hlock. cbn [lock value_cfg] in Hlock.
  assert (to_bytes 4 0 !! (i - 4 * n)%nat = Some 0) as ->.
  { change (to_bytes 4 0) with (replicate 4 0). apply lookup_replicate_2. lia. }
  cbn [mbind option_bind]. unfold locked_merge. by rewrite Hlock.
Qed.

Lemma clear_word h n : hw_ok h → (n < 4)%nat → (∀ i, (i < 16)%nat → lock (cfg_at h i) = false) →
  hw_ok (csrw_pmpcfg n 0 h) ∧ ∀ i, (i < 16)%nat → lock (cfg_at (csrw_pmpcfg n 0 h) i) = false.
Proof.
  intros Hh Hn Hlock. split; [by apply csrw_pmpcfg_ok|]. intros i Hi. unfold cfg_at. rewrite csrw_zero by done.
  case_decide; [done|]. by apply Hlock.
Qed.

(** Initialisation of an unlocked unit: all entries are off and the driver
    knows the granule. *)
Lemma pmp_init_spec h : hw_ok h → (∀ i, (i < 16)%nat → lock (cfg_at h i) = false) → (granularity h <= 29)%nat →
  riscv_pmp_init h = Done (2 ^ Z.of_nat (granularity h + 2),
    Pmp (replicate 16 0) (<[0%nat := LONG_MAX]> (pmpaddr h)) (granularity h)).
Proof.
  intros Hh Hlock Hg. unfold riscv_pmp_init.
  destruct (clear_word h 0 Hh) as [H1 L1]; [lia|done|]. destruct (clear_word _ 1 H1) as [H2 L2]; [lia|done|].
  destruct (clear_word _ 2 H2) as [H3 L3]; [lia|done|]. destruct (clear_word _ 3 H3) as [H4 L4]; [lia|done|].
  set (h4 := csrw_pmpcfg 3 0 _) in *.
  assert (pmpcfg h4 = replicate 16 0) as Ez.
  { apply list_eq_same_length with (n := 16%nat); [by rewrite length_replicate|apply H4|].
    intros i x y Hi Hx Hy. apply lookup_replicate_1 in Hy as [-> _]. unfold h4 in Hx.
    rewrite !csrw_zero in Hx by (first [done|lia]). repeat case_decide; by simplify_eq || lia. }
  assert (h4 = Pmp (replicate 16 0) (pmpaddr h) (granularity h)) as E4 by (rewrite <-Ez; done).
  rewrite E4. clearbody h4.
  assert (csrw_pmpaddr 0 LONG_MAX (Pmp (replicate 16 0) (pmpaddr h) (granularity h)) =
    Pmp (replicate 16 0) (<[0%nat := LONG_MAX]> (pmpaddr h)) (granularity h)) as -> by done.
  destruct (init_addr (granularity h) Hg) as (q&Hodd&Hq&Eq).
  assert (csrr_pmpaddr 0 (Pmp (replicate 16 0) (<[0%nat := LONG_MAX]> (pmpaddr h)) (granularity h)) = align_low (granularity h) LONG_MAX) as ->.
  { unfold csrr_pmpaddr, addr_at. cbn [addr_match_mode]. change (cfg_at _ 0) with cfg_off. cbn [cfg_off].
    change (addr_match_mode cfg_off) with RISCV_PMPCFG_OFF. cbn [pmpaddr granularity].
    rewrite list_lookup_insert_eq by (destruct Hh; lia). done. }
  rewrite Eq. assert (0 < 2 ^ Z.of_nat (granularity h)) by lia.
  rewrite (proj2 (Z.eqb_neq _ _)) by nia. cbn [negb assert_or_panic mbind outcome_bind].
  assert (2 ^ Z.of_nat (granularity h + 2) = 4 * 2 ^ Z.of_nat (granularity h)) as Eg.
  { rewrite Nat2Z.inj_add, Z.pow_add_r by lia. change (2 ^ Z.of_nat 2) with 4. lia. }
  rewrite grain_loop_spec; [cbn [mbind outcome_bind]; by rewrite Eg|lia|done|done|].
  rewrite <-Eg. apply Z.pow_lt_mono_r; lia.
Qed.

(** The state between process switches: the entries of the process are not
    locked, and entry 11 denies every address to user code. *)
Record booted (g : nat) (h : pmp) : Prop := {
  boot_ok : hw_ok h;
  boot_grain : granularity h = g;
  boot_unlocked i : (i <= 8)%nat → lock (cfg_at h i) = false;
  boot_off i : (8 <= i < 11)%nat → cfg_at h i = cfg_off;
  boot_global : cfg_at h 11 = PmpCfg false false false RISCV_PMPCFG_NAPOT false ∧ addr_at h 11 = LONG_MAX;
}.

Lemma fixed_entry_eq i v c h : addr_locked h i = false →
  fixed_entry i v c h = Pmp (pmpcfg (riscv_pmpcfg_set i c (Pmp (pmpcfg h) [] 0))) (<[i := u32 v]> (pmpaddr h)) (granularity h).
Proof. intros Hl. unfold fixed_entry, riscv_pmpaddr_write, csrw_pmpaddr. by rewrite Hl. Qed.

Lemma early_init_spec h : hw_ok h → (∀ i, (i < 16)%nat → lock (cfg_at h i) = false) → (granularity h <= 29)%nat →
  ∃ h', memprotect_early_init h = Done (2 ^ Z.of_nat (granularity h + 2), h') ∧ booted (granularity h) h'.
Proof.
  intros Hh Hlock Hg. unfold memprotect_early_init. rewrite pmp_init_spec by done. cbn [mbind outcome_bind].
  rewrite (fixed_entry_eq PMP_ENTRY_NULLPTR_LOW_NAPOT) by done. rewrite (fixed_entry_eq PMP_ENTRY_NULLPTR_HIGH_NAPOT) by done.
  rewrite (fixed_entry_eq PMP_ENTRY_ROM_WP_NAPOT) by done. rewrite (fixed_entry_eq PMP_ENTRY_FLASH_WP_NAPOT) by done.
  rewrite (fixed_entry_eq PMP_ENTRY_USER_GLOBAL_NAPOT) by done. cbn [pmpcfg pmpaddr granularity].
  set (cfgs := pmpcfg _). vm_compute in cfgs. subst cfgs. eexists. split; [reflexivity|]. split; try done.
  - split; [done|]. cbn [pmpaddr]. rewrite !length_insert. apply Hh.
  - intros i Hi. do 9 (destruct i as [|i]; [done|]). lia.
  - intros i Hi. do 8 (destruct i as [|i]; [lia|]). do 3 (destruct i as [|i]; [done|]). lia.
  - split; [done|]. unfold addr_at. cbn [pmpaddr]. unfold PMP_ENTRY_USER_GLOBAL_NAPOT.
    rewrite list_lookup_insert_eq by (rewrite !length_insert; destruct Hh; lia). done.
Qed.

Lemma booted_swap g h ctx : booted g h → ctx_loadable ctx →
  ∃ h', riscv_pmp_memprotect_swap (Some ctx) h = Done h' ∧ booted g h' ∧ loads h' ctx 8.
Proof.
  intros [Hok Hgr Hun Hoff [Hgl1 Hgl2]] Hctx. destruct (swap_spec ctx h Hok Hctx Hun) as (h'&E&Hok'&Hgr'&Hl&Hrest).
  exists h'. split_and!; [done| |done]. destruct Hctx as (_&Hcu&_). split; [done|congruence| | |].
  - intros i Hi. destruct (decide (i < 8)%nat) as [H8|H8].
    + destruct (Hl i H8) as [L _]. by apply (Forall_lookup_1 _ _ _ _ Hcu L).
    + destruct (Hrest i) as [-> _]; [lia|]. by apply Hun.
  - intros i Hi. destruct (Hrest i) as [-> _]; [lia|]. by apply Hoff.
  - destruct (Hrest 11%nat) as [-> ->]; [lia|]. done.
Qed.

(** Entry 11 matches what the entries of the process do not. *)
Lemma booted_rest g h w : booted g h → (g <= 29)%nat → 0 <= w < 2 ^ 32 →
  first_match h 8 8 w = Some (PmpCfg false false false RISCV_PMPCFG_NAPOT false).
Proof.
  intros [Hok Hgr Hun Hoff [Hgl1 Hgl2]] Hg Hw. change 8%nat with (3 + 5)%nat at 1. rewrite first_match_app.
  rewrite first_match_off by (intros j Hj; apply Hoff; lia). cbn [first_match Nat.add].
  assert (matches h 11 w = true) as Hm; [|by rewrite Hm, Hgl1].
  unfold matches. rewrite Hgl1, Hgl2, Hgr. cbn [addr_match_mode].
  assert (align_napot g LONG_MAX = LONG_MAX) as ->.
  { unfold align_napot. change LONG_MAX with (Z.ones 31). rewrite Z.lor_comm. apply lor_ones. lia. }
  change (trailing_ones 32 LONG_MAX + 1) with 32. rewrite !Z.shiftr_div_pow2 by done. rewrite Z.div_small by lia. done.
Qed.

(** ** Theorems *)

(** The first region of a list that has the byte [a], and what it permits. *)
Fixpoint region_at (rs : list proc_memmap_ent) (a : Z) : option proc_memmap_ent :=
  match rs with
  | [] => None
  | r :: rs => if decide (paddr r <= a < paddr r + size r) then Some r else region_at rs a
  end.
Definition permits (r : proc_memmap_ent) (x : access) : bool :=
  match x with Read => true | Write => write r | Execute => exec r end.

(** A sequence of switches to user contexts. *)
Fixpoint switches (cs : list riscv_pmp_ctx) (h : pmp) : outcome pmp :=
  match cs with
  | [] => Done h
  | c :: cs => h ← memprotect_swap_from_isr false (Some c) h; switches cs h
  end.

Lemma booted_switches g cs : ∀ h, booted g h → Forall ctx_loadable cs → ∃ h', switches cs h = Done h' ∧ booted g h'.
Proof.
  induction cs as [|c cs IH]; intros h Hb Hcs; cbn [switches]; [by exists h|]. apply Forall_cons in Hcs as [Hc Hcs].
  destruct (booted_swap g h c Hb Hc) as (h1&E&Hb1&_). unfold memprotect_swap_from_isr. rewrite E. cbn [mbind outcome_bind].
  by apply IH.
Qed.

Lemma switches_app cs1 cs2 : ∀ h, switches (cs1 ++ cs2) h = (switches cs1 h ≫= switches cs2).
Proof.
  induction cs1 as [|c cs1 IH]; intros h; cbn [app switches]; [done|].
  destruct (memprotect_swap_from_isr false (Some c) h); cbn [mbind outcome_bind]; [apply IH|done..].
Qed.

Lemma protect_loop_granular grain rs : ∀ prev p t p' t', ctx_ok t → protect_loop grain rs prev p t = Done (Some (p', t')) →
  Forall (λ r, Z.land (Z.lor (paddr r) (size r)) (u32 (grain - 1)) = 0) rs.
Proof.
  induction rs as [|r rs IH]; intros prev p t p' t' Ht E; [done|].
  destruct (protect_loop_cons grain r rs prev p t Ht) as [[_ E']|[Hal [[_ E']|(p1&t1&Hs&_&_&E')]]];
    rewrite E' in E; [done..|]. constructor; [done|]. by apply (IH _ _ _ _ _ (proj1 (stores_frame _ _ _ _ _ _ Hs Ht)) E).
Qed.

(** The test of the code is that both numbers are multiples of the granule. *)
Lemma granular_test g r : (g <= 29)%nat →
  Z.land (Z.lor (paddr r) (size r)) (u32 (2 ^ Z.of_nat (g + 2) - 1)) = 0 ↔ granular g r.
Proof.
  intros Hg. rewrite wrap_small by (assert (2 ^ Z.of_nat (g + 2) <= 2 ^ 31) by (apply Z.pow_le_mono_r; lia); unfold fits; lia).
  rewrite land_mask, lor_mod_0 by lia. done.
Qed.

Lemma region_of_bytes g rs a : Forall (granular g) rs → region_of rs (a / 4) = region_at rs a.
Proof.
  induction 1 as [|r rs Hr Hrs IH]; [done|]. cbn [region_of region_at]. rewrite IH.
  destruct (granule_words _ _ (proj1 Hr)) as [_ E1].
  destruct (granule_words g (paddr r + size r)) as [_ E2].
  { destruct Hr as [Hp Hs]. apply Z.mod_divide in Hp, Hs; [|lia..]. apply Z.mod_divide; [lia|]. by apply Z.divide_add_r. }
  assert (in_region r (a / 4) ↔ paddr r <= a < paddr r + size r) as Hi.
  { unfold in_region. pose proof (Z.mul_div_le a 4). pose proof (Z.mul_succ_div_gt a 4). lia. }
  by destruct (decide (in_region r (a / 4))), (decide (paddr r <= a < paddr r + size r)); tauto || done.
Qed.

Lemma div4_range a n : 0 <= a < 4 * n → 0 <= a / 4 < n.
Proof. intros Ha. split; [apply Z.div_pos; lia|]. apply Z.div_lt_upper_bound; lia. Qed.

(** In a booted machine: the switch to a generated context gives user code the
    permissions of the regions. *)
Lemma switch_access g h regions tmp ctx others : booted g h → (g <= 29)%nat → Forall region_fits regions → tmp_ok tmp →
  Forall ctx_loadable others → riscv_pmp_memprotect (2 ^ Z.of_nat (g + 2)) regions tmp = Done (Some ctx) →
  ∃ h2, switches (others ++ [ctx]) h = Done h2 ∧
    ∀ x a, 0 <= a < 2 ^ 32 →
      user_access h2 x a = match region_at regions a with Some r => permits r x | None => false end.
Proof.
  intros Hb Hg Hrs Ht Hothers Em.
  destruct (memprotect_spec g regions tmp ctx Hrs) as [Hctx Hm]; [lia|done|done|].
  destruct (booted_switches _ others _ Hb Hothers) as (h'&Eh&Hbh).
  destruct (booted_swap _ _ _ Hbh Hctx) as (h2&E2&Hb2&Hl2). exists h2. split.
  { rewrite switches_app, Eh. cbn [mbind outcome_bind switches]. unfold memprotect_swap_from_isr. by rewrite E2. }
  intros x a Ha. unfold user_access, RISCV_PMP_REGION_COUNT. change 16%nat with (8 + 8)%nat. rewrite first_match_app.
  pose proof (div4_range a (2 ^ 30) ltac:(lia)) as Hw.
  specialize (Hm h2 (a / 4) (boot_grain _ _ Hb2) Hl2 ltac:(lia)). unfold agree in Hm.
  assert (Forall (granular g) regions) as Hgr.
  { unfold riscv_pmp_memprotect in Em. apply bind_Done in Em as ([[p t]|]&Em&Hc); [|done].
    apply protect_loop_granular in Em; [|apply Ht]. eapply Forall_impl; [done|]. intros r. by apply granular_test. }
  rewrite (region_of_bytes _ _ _ Hgr) in Hm. rewrite (booted_rest _ _ _ Hb2 Hg) by lia.
  destruct (first_match h2 8 0 (a / 4)) as [c|], (region_at regions a) as [r|]; try done.
  - destruct Hm as [m ->]. by destruct x.
  - by destruct x.
Qed.

(** C12: Isolation of processes.  On hardware without locked entries, after the
    initialisation of the port and any sequence of switches to other
    contexts, loading the context that the driver generated for the regions of
    a process gives user code exactly the permissions of the first region that
    contains the address, and none outside the regions, for every 32-bit
    address, every kind of access and every granule up to 2 GiB. *)
Theorem user_isolation h0 grain h1 regions tmp ctx others :
  hw_ok h0 → (∀ i, (i < 16)%nat → lock (cfg_at h0 i) = false) → (granularity h0 <= 29)%nat →
  Forall region_fits regions → tmp_ok tmp → Forall ctx_loadable others →
  memprotect_early_init h0 = Done (grain, h1) → riscv_pmp_memprotect grain regions tmp = Done (Some ctx) →
  ∃ h2, switches (others ++ [ctx]) h1 = Done h2 ∧
    ∀ x a, 0 <= a < 2 ^ 32 →
      user_access h2 x a = match region_at regions a with Some r => permits r x | None => false end.
Proof.
  intros Hok Hlock Hg Hrs Ht Hothers Ei Em.
  destruct (early_init_spec h0 Hok Hlock Hg) as (h1'&Ei'&Hb). rewrite Ei' in Ei. injection Ei as <- <-.
  by apply (switch_access (granularity h0) _ _ tmp).
Qed.

(** C33: The generator of PMP entries never writes outside its arrays and
    always returns.  It refuses a list with a region that is not a multiple of
    the granule, and accepts every list of at most four regions that are. *)
Theorem memprotect_total g regions tmp : (g <= 29)%nat → tmp_ok tmp →
  ∃ r, riscv_pmp_memprotect (2 ^ Z.of_nat (g + 2)) regions tmp = Done r ∧
    (¬ Forall (granular g) regions → r = None) ∧
    (Forall (granular g) regions → (length regions <= 4)%nat → is_Some r).
Proof.
  intros Hg [Ht _]. unfold riscv_pmp_memprotect. rewrite decide_True by done.
  destruct (protect_loop_success (2 ^ Z.of_nat (g + 2)) regions 0 0 tmp Ht) as (res&E&Hres); [lia|]. rewrite E.
  cbn [mbind outcome_bind]. assert (∀ P, Forall (λ r, Z.land (Z.lor (paddr r) (size r)) (u32 (2 ^ Z.of_nat (g + 2) - 1)) = 0) regions ∧ P ↔
    Forall (granular g) regions ∧ P) as Hgr.
  { intros P. rewrite !Forall_forall. setoid_rewrite granular_test; done. }
  rewrite Hgr in Hres. clear Hgr. exists (match res with Some (p, t) => Some (clear_from p t) | None => None end).
  split_and!; [by destruct res as [[]|]| |].
  - intros Hn. destruct res as [[]|]; [|done]. destruct Hn. by apply Hres.
  - intros Hgr Hl. destruct (proj2 Hres) as [[p t] ->]; [|by eexists]. split; [done|].
    assert (∀ rs prev, entries rs prev <= 2 * length rs)%nat as Hent.
    { induction rs as [|r rs IH]; intros prev; cbn [entries length]; [lia|]. pose proof (cost_range r prev).
      specialize (IH (u32 (paddr r + size r))). lia. }
    specialize (Hent regions 0). unfold PROC_RISCV_PMP_COUNT. lia.
Qed.

(** The locked entries 12 to 15 of the port, which are to keep the kernel
    from following null pointers and from writing to ROM and flash, have no
    effect: entry 11 matches every address first and is not locked, so machine
    mode is denied nothing. *)
Theorem kernel_unprotected h0 grain h1 cs : hw_ok h0 → (∀ i, (i < 16)%nat → lock (cfg_at h0 i) = false) →
  (granularity h0 <= 29)%nat → Forall ctx_loadable cs → memprotect_early_init h0 = Done (grain, h1) →
  ∃ h2, switches cs h1 = Done h2 ∧ ∀ x a, 0 <= a < 2 ^ 32 → machine_access h2 x a = true.
Proof.
  intros Hok Hlock Hg Hcs Ei. destruct (early_init_spec h0 Hok Hlock Hg) as (h1'&Ei'&Hb).
  rewrite Ei' in Ei. injection Ei as <- <-. destruct (booted_switches _ cs _ Hb Hcs) as (h2&E&Hb2).
  exists h2. split; [done|]. intros x a Ha. unfold machine_access, RISCV_PMP_REGION_COUNT. change 16%nat with (8 + 8)%nat.
  rewrite first_match_app. pose proof (div4_range a (2 ^ 30) ltac:(lia)) as Hw.
  destruct (first_match h2 8 0 (a / 4)) as [c|] eqn:Ec.
  - assert (∀ n i w c, (i + n <= 9)%nat → first_match h2 n i w = Some c → lock c = false) as Hun.
    { induction n as [|n IH]; intros i w c' Hi; cbn [first_match]; [done|]. destruct (matches h2 i w).
      - intros [= <-]. apply (boot_unlocked _ _ Hb2). lia.
      - apply IH. lia. }
    by rewrite (Hun 8%nat 0%nat (a / 4) c ltac:(lia) Ec).
  - by rewrite (booted_rest _ _ _ Hb2 Hg) by lia.
Qed.

(** ** Instances *)

Definition fresh_unit : pmp := Pmp (replicate 16 0) (replicate 16 0) 0.
Definition garbage : riscv_pmp_ctx := PmpCtx (replicate 8 (value_cfg 255)) (replicate 8 77).
Definition demo_regions : list proc_memmap_ent :=
  [MemmapEnt 0x40800000 0x2000 true true; MemmapEnt 0x40802000 0x1000 true false; MemmapEnt 0x40810000 0x3000 false true].

Ltac solve_fresh := first [by split | intros i Hi; do 16 (destruct i as [|i]; [reflexivity|]); lia | cbn; lia].
Ltac solve_regions := repeat constructor; unfold region_fits; cbn; lia.
Ltac solve_garbage := split; [by split|]; repeat constructor; vm_compute; congruence.

Lemma user_isolation_witness : ∃ grain h1 ctx h2, memprotect_early_init fresh_unit = Done (grain, h1) ∧
  riscv_pmp_memprotect grain demo_regions garbage = Done (Some ctx) ∧ switches [ctx] h1 = Done h2 ∧
  user_access h2 Write 0x40802ffc = true ∧ user_access h2 Execute 0x40802ffc = false ∧ user_access h2 Read 0x40803000 = false.
Proof.
  eexists _, _, _.
  destruct (user_isolation fresh_unit (2 ^ 2) _ demo_regions garbage _ []
    ltac:(solve_fresh) ltac:(solve_fresh) ltac:(solve_fresh) ltac:(solve_regions) ltac:(solve_garbage) ltac:(constructor)
    ltac:(vm_compute; reflexivity) ltac:(vm_compute; reflexivity)) as (h2&E2&Hu).
  exists h2. split_and!; [vm_compute; reflexivity|vm_compute; reflexivity|exact E2|..]; rewrite Hu by lia; vm_compute; reflexivity.
Defined.

Lemma memprotect_total_witness : ∃ r, riscv_pmp_memprotect 4 demo_regions garbage = Done r ∧ is_Some r.
Proof.
  destruct (memprotect_total 0 demo_regions garbage) as (r&E&_&Hr); [lia|solve_garbage|].
  exists r. split; [exact E|]. apply Hr; [|cbn; lia]. repeat constructor; vm_compute; reflexivity.
Defined.

(** A kernel write to address zero goes through. *)
Lemma kernel_unprotected_witness : ∃ grain h1 h2, memprotect_early_init fresh_unit = Done (grain, h1) ∧
  switches [] h1 = Done h2 ∧ machine_access h2 Write 0 = true.
Proof.
  eexists _, _.
  destruct (kernel_unprotected fresh_unit (2 ^ 2) _ [] ltac:(solve_fresh) ltac:(solve_fresh) ltac:(solve_fresh)
    ltac:(constructor) ltac:(vm_compute; reflexivity)) as (h2&E&Hm).
  exists h2. split_and!; [vm_compute; reflexivity|exact E|]. apply Hm. lia.
Defined.
