(* ===== verification/ProcMemmap.v ===== *)
(** * Memory maps of processes

    kernel/src/process/proc_memmap.c in the configuration without virtual
    memory, that is the ports that use the PMP: a process has at most eight
    regions, each an allocation of physical pages that is mapped where it is,
    and a context of PMP entries generated from them.

    Physical pages are an interface ([PhysPages], page_alloc.c), and so are
    the array functions of badgelib. *)

From S2P Require Import Prelude Badgelib Pmp PmpTheory PmpCorrect.

Definition MEMMAP_PAGE_SIZE : Z := 4096.
Definition PROC_MEMMAP_MAX_REGIONS : nat := 8.

(** ** Interfaces *)

(** page_alloc.c: pages are numbers; allocation clears them. *)
Class PhysPages (PS : Type) := {
  phys_page_alloc : Z → bool → PS → memory → outcome (Z * PS * memory);
  phys_page_size : Z → PS → outcome Z;
  phys_page_free : Z → PS → outcome PS;
}.

(** Pages [n] to [n + k - 1] and [n'] to [n' + k' - 1] do not overlap. *)
Definition pages_apart (n k n' k' : Z) : Prop := n + k <= n' ∨ n' + k' <= n.

(** [owns s L]: the live allocations are the page ranges of [L]. *)
Class PhysPagesSpec (PS : Type) `{!PhysPages PS} := {
  owns : PS → gmap Z Z → Prop;
  owns_range s L n k : owns s L → L !! n = Some k → 0 < n ∧ 0 < k ∧ (n + k) * MEMMAP_PAGE_SIZE < 2 ^ 32;
  owns_apart s L n k n' k' : owns s L → L !! n = Some k → L !! n' = Some k' → n ≠ n' → pages_apart n k n' k';
  page_alloc_law c u s L m : owns s L → 0 < c →
    phys_page_alloc c u s m = Done (0, s, m) ∨
    ∃ n k s' m', phys_page_alloc c u s m = Done (n, s', m') ∧ owns s' (<[n := k]> L) ∧ L !! n = None ∧ c <= k ∧
      ∀ a, a < n * MEMMAP_PAGE_SIZE ∨ (n + k) * MEMMAP_PAGE_SIZE <= a → m' a = m a;
  page_size_law s L n k : owns s L → L !! n = Some k → phys_page_size n s = Done k;
  page_free_law s L n k : owns s L → L !! n = Some k → ∃ s', phys_page_free n s = Done s' ∧ owns s' (delete n L);
}.

(** arrays.h: [array_sorted_insert] keeps the elements in order and puts the
    new one somewhere between them; [array_remove] drops an index. *)
Class Arrays := {
  array_sorted_insert : list proc_memmap_ent → proc_memmap_ent → (proc_memmap_ent → proc_memmap_ent → Z) → list proc_memmap_ent;
  array_remove : list proc_memmap_ent → nat → list proc_memmap_ent;
}.
Class ArraysSpec `{!Arrays} := {
  sorted_insert_law l x cmp : ∃ k, array_sorted_insert l x cmp = take k l ++ x :: drop k l;
  remove_law l i : array_remove l i = take i l ++ drop (S i) l;
}.

(** [mem_set(base, v, n)]. *)
Definition mem_set_law (mem_set : Z → Z → Z → memory → memory) : Prop :=
  ∀ a v n m x, mem_set a v n m x = if decide (a <= x < a + n) then v else m x.

(** ** The code *)

Record proc_memmap := ProcMemmap {
  mpu_ctx : riscv_pmp_ctx;
  regions : list proc_memmap_ent;
}.

(** Processes by number, the pages and the memory. *)
Record machine (PS : Type) := Machine {
  procs : gmap Z proc_memmap;
  pages : PS;
  mem : memory;
}.
Arguments Machine {PS}.
Arguments procs {PS}.
Arguments pages {PS}.
Arguments mem {PS}.

(** The second test repeats the first. *)
Definition proc_memmap_cmp (a b : proc_memmap_ent) : Z :=
  if paddr a <? paddr b then -1 else if paddr a <? paddr b then 1 else 0.

Section memmap.
Context `{!PhysPages PS} `{!Arrays} (mem_set : Z → Z → Z → memory → memory) (grain : Z) (tmp : riscv_pmp_ctx).
Implicit Types (ec : badge_cause) (map : proc_memmap) (s : PS) (m : memory).

(** The index of the region at [base]. *)
Fixpoint find_base (i : nat) (rs : list proc_memmap_ent) (base : Z) : option nat :=
  match rs with
  | [] => None
  | r :: rs => if paddr r =? base then Some i else find_base (S i) rs base
  end.

(** The result is the address, 0 on failure; a too large alignment leaves
    [ec] as it is.  [tmp] is the uninitialised local of the PMP driver. *)
Definition proc_map_raw ec map (min_size min_align : Z) s m : outcome (Z * badge_cause * proc_memmap * PS * memory) :=
  if (Z.land min_align (u32 (min_align - 1)) =? 0) && (MEMMAP_PAGE_SIZE <? min_align) then Done (0, ec, map, s, m) else
  if (PROC_MEMMAP_MAX_REGIONS <=? length (regions map))%nat then Done (0, ECAUSE_NOMEM, map, s, m) else
  let min_size := if min_size =? 0 then 1 else (min_size - 1) / MEMMAP_PAGE_SIZE + 1 in
  '(ppn, s, m) ← phys_page_alloc min_size true s m;
  let base := u32 (ppn * MEMMAP_PAGE_SIZE) in
  if base =? 0 then Done (0, ECAUSE_NOMEM, map, s, m) else
  n ← phys_page_size (base / MEMMAP_PAGE_SIZE) s;
  let size := u32 (n * MEMMAP_PAGE_SIZE) in
  let m := mem_set base 0 size m in
  let rs := array_sorted_insert (regions map) (MemmapEnt base size true true) proc_memmap_cmp in
  ctx ← memprotect_u grain rs tmp base base;
  match ctx with
  | Some ctx => Done (base, ECAUSE_OK, ProcMemmap ctx rs, s, m)
  | None =>
      let rs := match find_base 0 rs base with Some i => array_remove rs i | None => take (length rs - 1) rs end in
      s ← phys_page_free (base / MEMMAP_PAGE_SIZE) s;
      Done (0, ECAUSE_NOMEM, ProcMemmap (mpu_ctx map) rs, s, m)
  end.

Definition proc_unmap_raw map (base : Z) s : outcome (badge_cause * proc_memmap * PS) :=
  match find_base 0 (regions map) base with
  | Some i =>
      let rs := array_remove (regions map) i in
      ctx ← memprotect_u grain rs tmp base base;
      match ctx with
      | Some ctx =>
          s ← phys_page_free (base / MEMMAP_PAGE_SIZE) s;
          Done (ECAUSE_OK, ProcMemmap ctx rs, s)
      | None => Panic
      end
  | None => Done (ECAUSE_NOTFOUND, map, s)
  end.

(** The first region with the address. *)
Fixpoint find_region (rs : list proc_memmap_ent) (vaddr : Z) : option proc_memmap_ent :=
  match rs with
  | [] => None
  | r :: rs => if (paddr r <=? vaddr) && (vaddr <? u32 (paddr r + size r)) then Some r else find_region rs vaddr
  end.

(** The loop of [proc_map_contains_raw]. *)
Fixpoint contains_loop (fuel : nat) (rs : list proc_memmap_ent) (vaddr sz : Z) : outcome Z :=
  match fuel with
  | O => Fuel
  | S fuel =>
      if sz =? 0 then Done 7 else
      match find_region rs vaddr with
      | None => Done 0
      | Some r => if sz <? size r then Done 7 else contains_loop fuel rs (u32 (vaddr + size r)) (u32 (sz + size r))
      end
  end.

(** Every round leaves a region behind, so one round more than there are
    regions is enough. *)
Definition proc_map_contains_raw map (vaddr sz : Z) : outcome Z :=
  let '(vaddr, sz) :=
    if vaddr mod MEMMAP_PAGE_SIZE =? 0 then (vaddr, sz)
    else (u32 (vaddr - vaddr mod MEMMAP_PAGE_SIZE), u32 (sz + vaddr mod MEMMAP_PAGE_SIZE)) in
  let sz := if sz mod MEMMAP_PAGE_SIZE =? 0 then sz else u32 (sz + (MEMMAP_PAGE_SIZE - sz mod MEMMAP_PAGE_SIZE)) in
  contains_loop (S (length (regions map))) (regions map) vaddr sz.

(** The loop of [proc_delete_runtime_raw] that returns all memory; every
    round removes a region. *)
Fixpoint unmap_all (fuel : nat) map s : outcome (proc_memmap * PS) :=
  match regions map with
  | [] => Done (map, s)
  | r :: _ =>
      match fuel with
      | O => Fuel
      | S fuel => '(_, map, s) ← proc_unmap_raw map (paddr r) s; unmap_all fuel map s
      end
  end.

(** ** System calls

    The calls of process [pid], which exists because it runs. *)

Definition syscall_mem_alloc (pid min_size min_align : Z) (st : machine PS) : outcome (Z * machine PS) :=
  map ← deref (procs st !! pid);
  '(res, _, map, s, m) ← proc_map_raw ECAUSE_OK map min_size min_align (pages st) (mem st);
  Done (res, Machine (<[pid := map]> (procs st)) s m).

Definition syscall_mem_size (pid address : Z) (st : machine PS) : outcome Z :=
  map ← deref (procs st !! pid);
  match find_base 0 (regions map) address with
  | Some i => r ← deref (regions map !! i); Done (size r)
  | None => Done 0
  end.

(** The answer to the process, which is derived from a null [ec], is left out. *)
Definition syscall_mem_dealloc (pid address : Z) (st : machine PS) : outcome (machine PS) :=
  map ← deref (procs st !! pid);
  '(_, map, s) ← proc_unmap_raw map address (pages st);
  Done (Machine (<[pid := map]> (procs st)) s (mem st)).

(** The memory of a process that exits. *)
Definition proc_delete_memory (pid : Z) (st : machine PS) : outcome (machine PS) :=
  map ← deref (procs st !! pid);
  '(map, s) ← unmap_all (length (regions map)) map (pages st);
  Done (Machine (<[pid := map]> (procs st)) s (mem st)).

(** Access to user memory from the kernel, which runs in machine mode. *)
Definition sysutil_memperm (map : proc_memmap) (ptr len flags : Z) : outcome bool :=
  res ← proc_map_contains_raw map ptr len;
  Done (Z.land res flags =? flags).

(** Copies [len] bytes at [src] to [dst]. *)
Definition mem_copy (dst src len : Z) (m : memory) : memory := memcpy dst src len m.

Definition copy_from_user_raw map (kernel_vaddr user_vaddr len : Z) m : outcome (bool * memory) :=
  res ← proc_map_contains_raw map user_vaddr len;
  if res =? 0 then Done (false, m) else Done (true, mem_copy kernel_vaddr user_vaddr len m).

Definition copy_to_user_raw map (user_vaddr kernel_vaddr len : Z) m : outcome (bool * memory) :=
  res ← proc_map_contains_raw map user_vaddr len;
  if res =? 0 then Done (false, m) else Done (true, mem_copy user_vaddr kernel_vaddr len m).
End memmap.
