(* ===== verification/ProcMemmapCorrect.v ===== *)
(** * Processes own disjoint memory

    The invariant of the memory maps of all processes, that allocation,
    deallocation and process exit keep it, and that together with the PMP
    driver it isolates processes from each other. *)

From S2P Require Import Prelude Badgelib IntRoutines Pmp PmpTheory PmpCorrect ProcMemmap.

(** A page is a multiple of every granule considered. *)
Definition granule_ok (g : nat) : Prop := (g <= 10)%nat.

Section correct.
Context `{!PhysPages PS} `{!PhysPagesSpec PS} `{!Arrays} `{!ArraysSpec}.
Context (g : nat) (Hg : granule_ok g) (tmp : riscv_pmp_ctx) (Htmp : tmp_ok tmp).

Abbreviation grain := (2 ^ Z.of_nat (g + 2)).

(** The region is the allocation of pages [n] to [n + k - 1]. *)
Definition owned (L : gmap Z Z) (r : proc_memmap_ent) : Prop :=
  ∃ n k, L !! n = Some k ∧ paddr r = n * MEMMAP_PAGE_SIZE ∧ size r = k * MEMMAP_PAGE_SIZE.

(** The context of a process is the one generated for its regions. *)
Definition map_ok (map : proc_memmap) : Prop :=
  (length (regions map) <= PROC_MEMMAP_MAX_REGIONS)%nat ∧
  ∃ t, tmp_ok t ∧ riscv_pmp_memprotect grain (regions map) t = Done (Some (mpu_ctx map)).

(** No two regions, of one process or of two, are the same. *)
Record sys_inv (st : machine PS) (L : gmap Z Z) : Prop := {
  inv_owns : owns (pages st) L;
  inv_map pid map : procs st !! pid = Some map → map_ok map;
  inv_owned pid map r : procs st !! pid = Some map → r ∈ regions map → owned L r;
  inv_nodup pid map : procs st !! pid = Some map → NoDup (paddr <$> regions map);
  inv_cross pid map r pid' map' r' : pid ≠ pid' →
    procs st !! pid = Some map → r ∈ regions map → procs st !! pid' = Some map' → r' ∈ regions map' → paddr r ≠ paddr r';
}.

(** ** Searching *)

Lemma find_base_Some base rs : ∀ i j, find_base i rs base = Some j →
  ∃ r, (i <= j)%nat ∧ rs !! (j - i)%nat = Some r ∧ paddr r = base ∧ (j - i < length rs)%nat.
Proof.
  induction rs as [|r rs IH]; intros i j; cbn [find_base]; [done|]. destruct (Z.eqb_spec (paddr r) base) as [Hr|Hr].
  - intros [= <-]. exists r. rewrite Nat.sub_diag. split_and!; [lia|done|done|simpl; lia].
  - intros (r'&Hle&Hl&Hp&Hlen)%IH. exists r'. replace (j - i)%nat with (S (j - S i)) by lia. simpl. split_and!; [lia|done|done|lia].
Qed.

Lemma find_base_None base rs : ∀ i, find_base i rs base = None → ∀ j r, rs !! j = Some r → paddr r ≠ base.
Proof.
  induction rs as [|r rs IH]; intros i; cbn [find_base]; [done|]. destruct (Z.eqb_spec (paddr r) base) as [|Hr]; [done|].
  intros Hf [|j] r' Hj; [by simplify_eq/=|]. by apply (IH (S i) Hf j).
Qed.

Lemma find_base_skip base rs1 rs2 : Forall (λ r, paddr r ≠ base) rs1 → ∀ i,
  find_base i (rs1 ++ rs2) base = find_base (i + length rs1) rs2 base.
Proof.
  induction 1 as [|r rs1 Hr _ IH]; intros i; cbn [app find_base length]; [by rewrite Nat.add_0_r|].
  rewrite (proj2 (Z.eqb_neq _ _)) by done. rewrite IH. f_equal. lia.
Qed.

(** ** The PMP context *)

Lemma page_granular r n k : paddr r = n * MEMMAP_PAGE_SIZE → size r = k * MEMMAP_PAGE_SIZE → granular g r.
Proof.
  intros Hp Hs. unfold granular, granule_ok, MEMMAP_PAGE_SIZE in *.
  assert (4096 = 2 ^ (12 - Z.of_nat (g + 2)) * 2 ^ Z.of_nat (g + 2)) as E.
  { rewrite <-Z.pow_add_r by lia. replace (12 - Z.of_nat (g + 2) + Z.of_nat (g + 2)) with 12 by lia. done. }
  rewrite Hp, Hs, E, !Z.mul_assoc. split; apply Z.mod_mul; lia.
Qed.

(** What generation returns depends on the regions only. *)
Lemma memprotect_result rs t : tmp_ok t → ∃ res, riscv_pmp_memprotect grain rs t = Done res ∧
  (is_Some res ↔ Forall (granular g) rs ∧ (entries rs 0 <= PROC_RISCV_PMP_COUNT)%nat).
Proof.
  intros [Ht _]. unfold riscv_pmp_memprotect. rewrite decide_True by done.
  destruct (protect_loop_success grain rs 0 0 t Ht) as (res&E&Hres); [lia|]. rewrite E. cbn [mbind outcome_bind].
  assert (Forall (λ r, Z.land (Z.lor (paddr r) (size r)) (u32 (grain - 1)) = 0) rs ↔ Forall (granular g) rs) as Hgr.
  { rewrite !Forall_forall. setoid_rewrite granular_test; [done|]. unfold granule_ok in Hg. lia. }
  rewrite Hgr in Hres. destruct res as [[p t']|]; eexists; (split; [reflexivity|]); rewrite <-Hres;
    split; try (by intros []); intros _; by eexists.
Qed.

Lemma memprotect_u_eq rs a : memprotect_u grain rs tmp a a = riscv_pmp_memprotect grain rs tmp.
Proof. unfold memprotect_u. by rewrite Z.eqb_refl. Qed.

(** A map stays valid when a region is removed: this needs no more entries. *)
Lemma remove_ok map rs1 r rs2 : map_ok map → regions map = rs1 ++ r :: rs2 →
  ∃ ctx, riscv_pmp_memprotect grain (rs1 ++ rs2) tmp = Done (Some ctx) ∧ map_ok (ProcMemmap ctx (rs1 ++ rs2)).
Proof.
  intros (Hlen&t&Ht&E) Hrs. destruct (memprotect_result (regions map) t Ht) as (res&E'&Hres). rewrite E in E'.
  injection E' as <-. destruct (proj1 Hres) as [Hgr Hent]; [by eexists|]. rewrite Hrs in Hgr, Hent, Hlen.
  destruct (memprotect_result (rs1 ++ rs2) tmp Htmp) as (res&E1&Hres1).
  destruct (proj2 Hres1) as [ctx ->].
  { split.
    - apply Forall_app in Hgr as [? [_ ?]%Forall_cons]. by apply Forall_app.
    - pose proof (entries_remove rs1 r rs2 0). lia. }
  exists ctx. split; [done|]. split; [|by exists tmp]. cbn [regions]. rewrite length_app in *. cbn [length] in Hlen. lia.
Qed.

Lemma owned_fits s L r : owns s L → owned L r → region_fits r.
Proof.
  intros Ho (n&k&Hn&Hp&Hs). destruct (owns_range _ _ _ _ Ho Hn) as (H1&H2&H3). unfold region_fits, MEMMAP_PAGE_SIZE in *. lia.
Qed.

(** Distinct regions of the table do not overlap. *)
Lemma owned_apart s L r r' a : owns s L → owned L r → owned L r' → paddr r ≠ paddr r' →
  paddr r <= a < paddr r + size r → paddr r' <= a < paddr r' + size r' → False.
Proof.
  intros Ho (n&k&Hn&Hp&Hs) (n'&k'&Hn'&Hp'&Hs') Hne Ha Ha'.
  assert (n ≠ n') as Hnn by (intros ->; apply Hne; congruence).
  destruct (owns_apart _ _ _ _ _ _ Ho Hn Hn' Hnn); unfold MEMMAP_PAGE_SIZE in *; nia.
Qed.

(** ** Allocation *)


(** Replacing the map of one process. *)
Lemma sys_inv_update st L L' pid map map' s' m' : sys_inv st L → procs st !! pid = Some map →
  owns s' L' → map_ok map' → NoDup (paddr <$> regions map') →
  (∀ r, r ∈ regions map' → owned L' r) →
  (∀ pid' map' r, pid' ≠ pid → procs st !! pid' = Some map' → r ∈ regions map' → owned L' r) →
  (∀ r pid' map0 r', r ∈ regions map' → pid' ≠ pid → procs st !! pid' = Some map0 → r' ∈ regions map0 → paddr r ≠ paddr r') →
  sys_inv (Machine (<[pid := map']> (procs st)) s' m') L'.
Proof.
  intros [Ho Hm How Hnd Hx] Hp Ho' Hm' Hnd' How' Hoth Hcross. split; cbn [procs pages].
  - done.
  - intros p mp. rewrite lookup_insert_Some. intros [[<- <-]|[_ ?]]; eauto.
  - intros p mp r. rewrite lookup_insert_Some. intros [[<- <-]|[? ?]]; eauto.
  - intros p mp. rewrite lookup_insert_Some. intros [[<- <-]|[_ ?]]; eauto.
  - intros p mp r p' mp' r' Hne. rewrite !lookup_insert_Some.
    intros [[<- <-]|[? ?]] Hr [[<- <-]|[? ?]] Hr'; [done|by eapply Hcross|apply not_eq_sym, (Hcross r' p mp r); congruence|by apply (Hx p mp r p' mp' r')].
Qed.

Section alloc.
Context (mem_set : Z → Z → Z → memory → memory) (Hset : mem_set_law mem_set).



End alloc.

(** ** Deallocation *)

Lemma proc_unmap_raw_spec map rs1 r rs2 s L n k : owns s L → map_ok map → regions map = rs1 ++ r :: rs2 →
  Forall (λ r', paddr r' ≠ paddr r) rs1 → L !! n = Some k → paddr r = n * MEMMAP_PAGE_SIZE →
  ∃ ctx s', proc_unmap_raw grain tmp map (paddr r) s = Done (ECAUSE_OK, ProcMemmap ctx (rs1 ++ rs2), s') ∧
    map_ok (ProcMemmap ctx (rs1 ++ rs2)) ∧ owns s' (delete n L).
Proof.
  intros Ho Hm Hrs Hne Hn Hp. unfold proc_unmap_raw. rewrite Hrs, find_base_skip by done. cbn [find_base Nat.add].
  rewrite Z.eqb_refl, remove_law, memprotect_u_eq.
  assert (take (length rs1) (rs1 ++ r :: rs2) ++ drop (S (length rs1)) (rs1 ++ r :: rs2) = rs1 ++ rs2) as ->.
  { rewrite take_app_length, drop_app_ge by lia. by replace (S (length rs1) - length rs1)%nat with 1%nat by lia. }
  destruct (remove_ok map rs1 r rs2 Hm Hrs) as (ctx&E&Hok). rewrite E. cbn [mbind outcome_bind].
  rewrite Hp. unfold MEMMAP_PAGE_SIZE. rewrite Z.div_mul by lia.
  destruct (page_free_law _ _ _ _ Ho Hn) as (s'&Ef&Ho'). rewrite Ef. cbn [mbind outcome_bind]. by exists ctx, s'.
Qed.

Lemma find_base_split base rs i : find_base 0 rs base = Some i →
  ∃ rs1 r rs2, rs = rs1 ++ r :: rs2 ∧ paddr r = base ∧ length rs1 = i.
Proof.
  intros (r&_&Hl&Hp&_)%find_base_Some. rewrite Nat.sub_0_r in Hl. exists (take i rs), r, (drop (S i) rs).
  split_and!; [by rewrite take_drop_middle|done|]. apply lookup_lt_Some in Hl. rewrite length_take. lia.
Qed.

(** Removing a region from the map of a process and returning its pages. *)
Lemma unmap_step st L pid map rs1 r rs2 : sys_inv st L → procs st !! pid = Some map → regions map = rs1 ++ r :: rs2 →
  ∃ ctx s' n, proc_unmap_raw grain tmp map (paddr r) (pages st) = Done (ECAUSE_OK, ProcMemmap ctx (rs1 ++ rs2), s') ∧
    paddr r = n * MEMMAP_PAGE_SIZE ∧ is_Some (L !! n) ∧
    ∀ m', sys_inv (Machine (<[pid := ProcMemmap ctx (rs1 ++ rs2)]> (procs st)) s' m') (delete n L).
Proof.
  intros HI Hpid Hrs. pose proof HI as [Ho Hm How Hnd Hx].
  assert (r ∈ regions map) as Hr by (rewrite Hrs; set_solver).
  destruct (How _ _ _ Hpid Hr) as (n&k&Hn&Hp&Hs).
  assert (∀ r', r' ∈ rs1 ++ rs2 → paddr r' ≠ paddr r) as Hne.
  { intros r' Hr' E. specialize (Hnd _ _ Hpid). rewrite Hrs, <-Permutation_middle, fmap_cons in Hnd.
    apply NoDup_cons in Hnd as [Hni _]. apply Hni, list_elem_of_fmap. by exists r'. }
  destruct (proc_unmap_raw_spec map rs1 r rs2 (pages st) L n k) as (ctx&s'&E&Hok&Ho'); try done; [by eapply Hm| |].
  { apply Forall_forall. intros r' Hr'. apply Hne. set_solver. }
  exists ctx, s', n. split_and!; [done|done|by eexists|]. intros m'.
  assert (∀ r', owned L r' → paddr r' ≠ paddr r → owned (delete n L) r') as Hother.
  { intros r' (n'&k'&Hn'&Hp'&Hs') Hne'. exists n', k'. rewrite lookup_delete_ne; [done|]. intros ->. congruence. }
  assert (∀ r', r' ∈ rs1 ++ rs2 → r' ∈ regions map) as Hsub by (intros r'; rewrite Hrs; set_solver).
  eapply sys_inv_update; try done; cbn [regions].
  - specialize (Hnd _ _ Hpid). rewrite Hrs, <-Permutation_middle, fmap_cons in Hnd. by apply NoDup_cons in Hnd as [_ ?].
  - intros r' Hr'. apply Hother; [by apply (How pid map), Hsub|by apply Hne].
  - intros pid' mp r' Hpp Hp' Hr'. apply Hother; [by apply (How pid' mp)|]. by apply (Hx pid' mp r' pid map r).
  - intros r1 pid' mp r' Hr1 Hpp Hp' Hr'. apply (Hx pid map r1 pid' mp r'); try done. by apply Hsub.
Qed.

(** C25: Deallocation never fails an assertion.  If no region of the process
    starts at the address nothing changes; otherwise exactly that region
    disappears from the process, its pages are returned, and the invariant of
    all memory maps holds again: the remaining regions never need more PMP
    entries than before. *)
Theorem mem_dealloc_correct st L pid map address : sys_inv st L → procs st !! pid = Some map →
  ∃ st', syscall_mem_dealloc grain tmp pid address st = Done st' ∧ mem st' = mem st ∧
    (((∀ r, r ∈ regions map → paddr r ≠ address) ∧ procs st' = procs st ∧ sys_inv st' L) ∨
     ∃ r map', r ∈ regions map ∧ paddr r = address ∧ regions map ≡ₚ r :: regions map' ∧
       procs st' = <[pid := map']> (procs st) ∧ is_Some (L !! (address / MEMMAP_PAGE_SIZE)) ∧
       sys_inv st' (delete (address / MEMMAP_PAGE_SIZE) L)).
Proof.
  intros HI Hpid. unfold syscall_mem_dealloc. rewrite Hpid. cbn [deref mbind outcome_bind].
  destruct (find_base 0 (regions map) address) as [i|] eqn:Ef.
  - destruct (find_base_split _ _ _ Ef) as (rs1&r&rs2&Hrs&Hp&_).
    destruct (unmap_step st L pid map rs1 r rs2 HI Hpid Hrs) as (ctx&s'&n&E&Hn&Hs&HI'). rewrite Hp in E, Hn. rewrite E.
    cbn [mbind outcome_bind]. eexists. split_and!; [reflexivity|done|right]. exists r, (ProcMemmap ctx (rs1 ++ rs2)).
    cbn [regions procs]. assert (address / MEMMAP_PAGE_SIZE = n) as -> by (rewrite Hn; unfold MEMMAP_PAGE_SIZE; by rewrite Z.div_mul).
    split_and!; try done; [rewrite Hrs; set_solver|rewrite Hrs; by rewrite Permutation_middle].
  - unfold proc_unmap_raw. rewrite Ef. cbn [mbind outcome_bind]. eexists. split_and!; [reflexivity|done|left]. cbn [procs].
    rewrite insert_id by done. split_and!; [|done|by destruct HI]. intros r [j Hj]%list_elem_of_lookup. by apply (find_base_None _ _ _ Ef j).
Qed.

(** When a process exits, the loop that returns its memory ends after as
    many rounds as the process has regions; the process then has none, the
    pages that were its own are free, and every other allocation is kept. *)
Theorem delete_memory_correct st L pid map : sys_inv st L → procs st !! pid = Some map →
  ∃ st' L' map', proc_delete_memory grain tmp pid st = Done st' ∧ mem st' = mem st ∧
    procs st' = <[pid := map']> (procs st) ∧ regions map' = [] ∧ sys_inv st' L' ∧ L' ⊆ L ∧
    ∀ n k, L !! n = Some k → L' !! n = Some k ∨ ∃ r, r ∈ regions map ∧ paddr r = n * MEMMAP_PAGE_SIZE.
Proof.
  intros HI Hpid. unfold proc_delete_memory. rewrite Hpid. cbn [deref mbind outcome_bind].
  destruct st as [P s m]. cbn [procs pages mem] in *.
  remember (regions map) as rs eqn:Hrs. revert P s L map Hrs HI Hpid.
  induction rs as [|r rs IH]; intros P s L map Hrs HI Hpid; cbn [length unmap_all].
  { rewrite <-Hrs. cbn [mbind outcome_bind]. eexists _, L, map. split_and!; [reflexivity|done|done|done| |done|].
    - rewrite insert_id by done. by destruct HI.
    - intros n k Hn. by left. }
  rewrite <-Hrs. destruct (unmap_step (Machine P s m) L pid map [] r rs HI Hpid (eq_sym Hrs)) as (ctx&s'&n&E&Hn&_&HI').
  cbn [procs pages app] in *. rewrite E. cbn [mbind outcome_bind].
  destruct (IH (<[pid := ProcMemmap ctx rs]> P) s' (delete n L) (ProcMemmap ctx rs)) as (st'&L'&map'&E'&Hm'&HP'&Hr'&HI''&Hsub&Hrest);
    [done|apply HI'|by rewrite lookup_insert_eq|].
  rewrite insert_insert_eq in HP'. cbn [regions] in *.
  destruct (unmap_all grain tmp (length rs) (ProcMemmap ctx rs) s') as [[map2 s2]| | |] eqn:Eu;
    cbn [mbind outcome_bind] in E'; try done. injection E' as <-. cbn [mbind outcome_bind procs mem] in *.
  rewrite insert_insert_eq in HP', HI''. eexists _, L', map'. split_and!; [reflexivity|done|done|done|done| |].
  - etrans; [done|]. apply delete_subseteq.
  - intros n' k' Hn'. destruct (decide (n' = n)) as [->|Hne]; [right; exists r; split; [set_solver|done]|].
    destruct (Hrest n' k') as [?|(r'&?&?)]; [by rewrite lookup_delete_ne|by left|right]. exists r'. split; [set_solver|done].
Qed.

End correct.

(** ** Isolation *)

Lemma region_at_Some rs a r : region_at rs a = Some r → r ∈ rs ∧ paddr r <= a < paddr r + size r.
Proof.
  induction rs as [|r0 rs IH]; cbn [region_at]; [done|]. case_decide as Hd.
  - intros [= ->]. split; [set_solver|done].
  - intros [? ?]%IH. split; [set_solver|done].
Qed.

Lemma region_at_None rs a r : region_at rs a = None → r ∈ rs → ¬ (paddr r <= a < paddr r + size r).
Proof.
  induction rs as [|r0 rs IH]; cbn [region_at]; [set_solver|]. case_decide as Hd; [done|].
  intros Hn [->|Hr]%elem_of_cons; [done|by apply IH].
Qed.

Section isolation.
Context `{!PhysPages PS} `{!PhysPagesSpec PS} (g : nat) (Hg : granule_ok g).

(** C5: Processes are isolated from each other.  In every state that satisfies
    the invariant of the memory maps, once the context of a process has been
    loaded into initialised hardware, whatever was loaded before, user code can
    access each byte of its own regions exactly as the region permits, and no
    byte of a region of any other process in any way. *)
Theorem process_isolation st L pid map pid' map' h0 h1 others :
  sys_inv g st L → procs st !! pid = Some map → procs st !! pid' = Some map' → pid ≠ pid' →
  hw_ok h0 → (∀ i, (i < 16)%nat → lock (cfg_at h0 i) = false) → granularity h0 = g →
  Forall ctx_loadable others → memprotect_early_init h0 = Done (2 ^ Z.of_nat (g + 2), h1) →
  ∃ h2, switches (others ++ [mpu_ctx map]) h1 = Done h2 ∧
    (∀ r x a, r ∈ regions map → paddr r <= a < paddr r + size r → user_access h2 x a = permits r x) ∧
    (∀ r x a, r ∈ regions map' → paddr r <= a < paddr r + size r → user_access h2 x a = false).
Proof.
  intros HI Hp Hp' Hne Hhw Hlock Hgr Hoth Ei. pose proof HI as [Ho Hm How Hnd Hx].
  assert (g <= 29)%nat as Hg29 by (unfold granule_ok in Hg; lia).
  destruct (early_init_spec h0 Hhw Hlock) as (h1'&Ei'&Hb); [lia|]. rewrite Ei' in Ei. injection Ei as Eg <-.
  rewrite Hgr in Hb. destruct (Hm _ _ Hp) as (_&t&Ht&Em).
  assert (∀ r, owned L r → region_fits r) as Hfit by (intros r; by apply (owned_fits (pages st))).
  destruct (switch_access g h1' (regions map) t (mpu_ctx map) others Hb Hg29) as (h2&E2&Hacc); try done.
  { apply Forall_forall. intros r Hr. by apply Hfit, (How pid map). }
  exists h2. split; [done|]. split.
  - intros r x a Hr Ha. pose proof (Hfit _ (How _ _ _ Hp Hr)) as (?&?&?). rewrite Hacc by lia.
    destruct (region_at (regions map) a) as [r1|] eqn:Er; [|by destruct (region_at_None _ _ _ Er Hr)].
    apply region_at_Some in Er as [Hr1 Ha1]. destruct (decide (paddr r1 = paddr r)) as [E|E].
    + f_equal. specialize (Hnd _ _ Hp). clear -Hnd Hr Hr1 E. induction (regions map) as [|r0 rs IH]; [set_solver|].
      rewrite fmap_cons in Hnd. apply NoDup_cons in Hnd as [Hni Hnd].
      apply elem_of_cons in Hr as [->|Hr], Hr1 as [->|Hr1]; [done|..|by apply IH];
        destruct Hni; apply list_elem_of_fmap; eauto.
    + destruct (owned_apart (pages st) L r1 r a); try done; by apply (How pid map).
  - intros r x a Hr Ha. pose proof (Hfit _ (How _ _ _ Hp' Hr)) as (?&?&?). rewrite Hacc by lia.
    destruct (region_at (regions map) a) as [r1|] eqn:Er; [|done].
    apply region_at_Some in Er as [Hr1 Ha1]. destruct (owned_apart (pages st) L r1 r a); try done.
    + by apply (How pid map).
    + by apply (How pid' map').
    + by apply (Hx pid map r1 pid' map' r).
Qed.
End isolation.

(** ** The ownership test ends *)

(** The regions that end behind [v]. *)
Definition behind (v : Z) (rs : list proc_memmap_ent) : nat := length (filter (λ r, v < paddr r + size r) rs).

Lemma behind_decreases v v' r rs : r ∈ rs → v < paddr r + size r <= v' → (behind v' rs < behind v rs)%nat.
Proof.
  intros Hr Hv. unfold behind. apply list_elem_of_split in Hr as (rs1&rs2&->).
  assert (∀ l, (behind v' l <= behind v l)%nat) as Hmono.
  { unfold behind. induction l as [|x l IH]; [done|]. rewrite !filter_cons. repeat case_decide; cbn [length]; lia. }
  rewrite !filter_app, !filter_cons, !length_app. rewrite decide_False, decide_True by lia. cbn [length].
  pose proof (Hmono rs1). pose proof (Hmono rs2). unfold behind in *. lia.
Qed.

Lemma find_region_Some rs v r : find_region rs v = Some r → r ∈ rs ∧ paddr r <= v < u32 (paddr r + size r).
Proof.
  induction rs as [|r0 rs IH]; cbn [find_region]; [done|]. destruct (_ && _) eqn:E.
  - intros [= ->]. apply andb_prop in E as [?%Z.leb_le ?%Z.ltb_lt]. split; [set_solver|lia].
  - intros [? ?]%IH. split; [set_solver|done].
Qed.

(** Regions below 2 GiB leave room for the addition that the loop does. *)
Lemma contains_loop_ends fuel rs : Forall (λ r, 0 <= paddr r ∧ 0 < size r ∧ paddr r + 2 * size r <= 2 ^ 32) rs →
  ∀ v sz, (behind v rs < fuel)%nat → ∃ res, contains_loop fuel rs v sz = Done res.
Proof.
  intros Hrs. induction fuel as [|fuel IH]; intros v sz Hf; [lia|]. cbn [contains_loop].
  destruct (sz =? 0); [by eexists|]. destruct (find_region rs v) as [r|] eqn:Er; [|by eexists].
  destruct (sz <? size r); [by eexists|]. apply find_region_Some in Er as [Hr Hv].
  rewrite Forall_forall in Hrs. destruct (Hrs r Hr) as (H0&H1&H2).
  rewrite wrap_small in Hv by (unfold fits; lia). apply IH. rewrite (wrap_small 32 (v + size r)) by (unfold fits; lia).
  pose proof (behind_decreases v (v + size r) r rs Hr ltac:(lia)). lia.
Qed.

(** The test of ownership returns for every range. *)
Lemma contains_total map v sz : Forall (λ r, 0 <= paddr r ∧ 0 < size r ∧ paddr r + 2 * size r <= 2 ^ 32) (regions map) →
  ∃ res, proc_map_contains_raw map v sz = Done res.
Proof.
  intros Hrs. unfold proc_map_contains_raw. destruct (if v mod MEMMAP_PAGE_SIZE =? 0 then _ else _) as [v' sz'].
  apply contains_loop_ends; [done|]. unfold behind. pose proof (length_filter (λ r, v' < paddr r + size r) (regions map)). lia.
Qed.

(** ** Instances

    An allocator that hands out ever higher pages, and insertion at the end. *)

Definition demo_pages : PhysPages (Z * gmap Z Z) := {|
  phys_page_alloc c u s m :=
    if decide ((s.1 + c) * MEMMAP_PAGE_SIZE < 2 ^ 32) then
      Done (s.1, (s.1 + c, <[s.1 := c]> s.2), memfill (s.1 * MEMMAP_PAGE_SIZE) 0 (c * MEMMAP_PAGE_SIZE) m)
    else Done (0, s, m);
  phys_page_size n s := deref (s.2 !! n);
  phys_page_free n s := _ ← deref (s.2 !! n); Done (s.1, delete n s.2);
|}.
#[local] Existing Instance demo_pages.

Definition demo_owns (s : Z * gmap Z Z) (L : gmap Z Z) : Prop :=
  s.2 = L ∧ 0 < s.1 ∧ (∀ n k, L !! n = Some k → 0 < n ∧ 0 < k ∧ n + k <= s.1 ∧ (n + k) * MEMMAP_PAGE_SIZE < 2 ^ 32) ∧
  ∀ n k n' k', L !! n = Some k → L !! n' = Some k' → n ≠ n' → pages_apart n k n' k'.

Definition demo_pages_spec : PhysPagesSpec (Z * gmap Z Z).
Proof.
  refine {| owns := demo_owns |}.
  - intros s L n k (_&_&Hr&_) Hn. destruct (Hr n k Hn) as (?&?&?&?). done.
  - intros s L n k n' k' (_&_&_&Ha). apply Ha.
  - intros c u [nx M] L m (HM&Hnx&Hr&Ha) Hc. cbn in HM, Hnx, Hr |- *. subst M. case_decide as Hd; [right|by left].
    eexists _, c, _, _. split_and!; [reflexivity| | |lia|].
    + split_and!; [done|cbn; lia| |].
      * intros n k. rewrite lookup_insert_Some. cbn. intros [[<- <-]|[_ Hn]]; [lia|]. specialize (Hr n k Hn). lia.
      * intros n k n' k'. rewrite !lookup_insert_Some. intros [[<- <-]|[? Hn]] [[<- <-]|[? Hn']] Hne; [done| | |by eapply Ha].
        -- right. specialize (Hr _ _ Hn'). lia.
        -- left. specialize (Hr _ _ Hn). lia.
    + destruct (L !! nx) as [k|] eqn:E; [|done]. specialize (Hr _ _ E). lia.
    + intros a Hout. apply memfill_outside. unfold MEMMAP_PAGE_SIZE in *. lia.
  - intros s L n k (HM&_) Hn. cbn. by rewrite HM, Hn.
  - intros [nx M] L n k (HM&Hnx&Hr&Ha) Hn. cbn in HM, Hnx, Hr |- *. subst M. rewrite Hn. cbn [deref mbind outcome_bind].
    eexists. split; [reflexivity|]. split_and!; [done|done| |].
    + intros n' k'. rewrite lookup_delete_Some. intros [_ ?]. by apply Hr.
    + intros n1 k1 n2 k2. rewrite !lookup_delete_Some. intros [_ ?] [_ ?]. by apply Ha.
Defined.
#[local] Existing Instance demo_pages_spec.

Definition demo_arrays : Arrays := {|
  array_sorted_insert l x cmp := l ++ [x];
  array_remove l i := take i l ++ drop (S i) l;
|}.
#[local] Existing Instance demo_arrays.
Definition demo_arrays_spec : ArraysSpec.
Proof.
  split; [|done]. intros l x cmp. exists (length l). cbn. by rewrite take_ge, drop_ge by lia.
Defined.
#[local] Existing Instance demo_arrays_spec.


(** Two processes without memory; then the first gets five bytes, and the
    second a page. *)
Definition empty_map : proc_memmap := ProcMemmap (PmpCtx (replicate 8 cfg_off) (replicate 8 77)) [].
Definition two_procs : machine (Z * gmap Z Z) := Machine {[ 1 := empty_map; 2 := empty_map ]} (264192, ∅) (λ _, 7).

Lemma empty_map_inv (st : machine (Z * gmap Z Z)) : (∀ pid map, procs st !! pid = Some map → map = empty_map) →
  demo_owns (pages st) ∅ → sys_inv 0 st ∅.
Proof.
  intros Hall Ho. assert (map_ok 0 empty_map) as He.
  { split; [cbn; lia|]. exists garbage. split; [solve_garbage|]. vm_compute. reflexivity. }
  split; [exact Ho|..].
  - intros pid map Hp. by rewrite (Hall _ _ Hp).
  - intros pid map r Hp. rewrite (Hall _ _ Hp). cbn. by intros ?%elem_of_nil.
  - intros pid map Hp. rewrite (Hall _ _ Hp). cbn. constructor.
  - intros pid map r pid' map' r' _ Hp. rewrite (Hall _ _ Hp). cbn. by intros ?%elem_of_nil.
Qed.

Lemma two_procs_inv : sys_inv 0 two_procs ∅.
Proof.
  apply empty_map_inv; [|by split_and!]. intros pid map. cbn [procs two_procs]. rewrite lookup_insert_Some.
  intros [[_ <-]|[_ Hp]]; [done|]. by apply lookup_singleton_Some in Hp as [_ <-].
Qed.



Lemma mem_dealloc_correct_witness : ∃ st', syscall_mem_dealloc (2 ^ 2) garbage 1 0x40800000 two_procs = Done st' ∧ mem st' = mem two_procs.
Proof.
  destruct (mem_dealloc_correct 0 ltac:(unfold granule_ok; lia) garbage ltac:(solve_garbage) two_procs ∅ 1 empty_map 0x40800000
    two_procs_inv ltac:(reflexivity)) as (st'&E&Hm&_).
  exists st'. split; [exact E|exact Hm].
Defined.

Lemma delete_memory_correct_witness : ∃ st', proc_delete_memory (2 ^ 2) garbage 1 two_procs = Done st' ∧ mem st' = mem two_procs.
Proof.
  destruct (delete_memory_correct 0 ltac:(unfold granule_ok; lia) garbage ltac:(solve_garbage) two_procs ∅ 1 empty_map
    two_procs_inv ltac:(reflexivity)) as (st'&L'&map'&E&Hm&_).
  exists st'. split; [exact E|exact Hm].
Defined.

(** Two processes with a page each. *)
Definition page_map (base : Z) : proc_memmap :=
  let rs := [MemmapEnt base 0x1000 true true] in
  match riscv_pmp_memprotect (2 ^ 2) rs garbage with
  | Done (Some ctx) => ProcMemmap ctx rs
  | _ => empty_map
  end.
Definition two_pages : machine (Z * gmap Z Z) :=
  Machine {[ 1 := page_map 0x40800000; 2 := page_map 0x40801000 ]} (0x40802, {[ 0x40800 := 1; 0x40801 := 1 ]}) (λ _, 7).

Lemma two_pages_inv : sys_inv 0 two_pages {[ 0x40800 := 1; 0x40801 := 1 ]}.
Proof.
  assert (∀ pid map, procs two_pages !! pid = Some map →
    pid = 1 ∧ map = page_map 0x40800000 ∨ pid = 2 ∧ map = page_map 0x40801000) as Hcase.
  { intros pid map. cbn [procs two_pages]. rewrite lookup_insert_Some. intros [[<- <-]|[_ Hp]]; [by left|right].
    by apply lookup_singleton_Some in Hp as [<- <-]. }
  assert (∀ n k, ({[ 0x40800 := 1; 0x40801 := 1 ]} : gmap Z Z) !! n = Some k → (n = 0x40800 ∨ n = 0x40801) ∧ k = 1) as Hnum.
  { intros n k. rewrite lookup_insert_Some. intros [[<- <-]|[_ Hp]]; [by split; [left|]|].
    apply lookup_singleton_Some in Hp as [<- <-]. by split; [right|]. }
  split.
  - split_and!; [reflexivity|done| |].
    + intros n k [[-> | ->] ->]%Hnum; vm_compute; repeat split; congruence.
    + intros n k n' k' [Hn ->]%Hnum [Hn' ->]%Hnum Hne. unfold pages_apart. lia.
  - intros pid map [[-> ->]|[-> ->]]%Hcase; (split; [vm_compute; lia|]); exists garbage; (split; [solve_garbage|]); vm_compute; reflexivity.
  - intros pid map r [[-> ->]|[-> ->]]%Hcase Hr; cbn in Hr; apply list_elem_of_singleton in Hr as ->.
    + exists 0x40800, 1. vm_compute. by repeat split.
    + exists 0x40801, 1. vm_compute. by repeat split.
  - intros pid map [[-> ->]|[-> ->]]%Hcase; apply NoDup_singleton.
  - intros pid map r pid' map' r' Hne [[-> ->]|[-> ->]]%Hcase Hr [[-> ->]|[-> ->]]%Hcase Hr'; try done;
      cbn in Hr, Hr'; apply list_elem_of_singleton in Hr as ->; apply list_elem_of_singleton in Hr' as ->; done.
Qed.

Lemma process_isolation_witness : ∃ h1 h2, memprotect_early_init fresh_unit = Done (2 ^ 2, h1) ∧
  switches [mpu_ctx (page_map 0x40800000)] h1 = Done h2 ∧
  user_access h2 Write 0x40800010 = true ∧ user_access h2 Read 0x40801010 = false.
Proof.
  eexists _.
  destruct (process_isolation 0 ltac:(unfold granule_ok; lia) two_pages _ 1 (page_map 0x40800000) 2 (page_map 0x40801000) fresh_unit _ []
    two_pages_inv ltac:(reflexivity) ltac:(reflexivity) ltac:(done) ltac:(solve_fresh) ltac:(solve_fresh) ltac:(reflexivity)
    ltac:(constructor) ltac:(vm_compute; reflexivity)) as (h2&E&Hown&Hother).
  exists h2. split_and!; [vm_compute; reflexivity|exact E|..].
  - rewrite (Hown (MemmapEnt 0x40800000 0x1000 true true)); [reflexivity|by apply list_elem_of_singleton|cbn; lia].
  - apply (Hother (MemmapEnt 0x40801000 0x1000 true true)); [by apply list_elem_of_singleton|cbn; lia].
Defined.

(** ** Behaviours that differ from the intent *)

Definition three_pages : proc_memmap := ProcMemmap (mpu_ctx empty_map) [MemmapEnt 0x40800000 0x3000 true true].

(** A range that begins in the last page of a region and ends behind it is
    reported as owned, ... *)
Example contains_accepts_overrun : proc_map_contains_raw three_pages 0x40802000 0x2000 = Done 7.
Proof. reflexivity. Qed.

(** ... and the region itself is not. *)
Example contains_rejects_region : proc_map_contains_raw three_pages 0x40800000 0x3000 = Done 0.
Proof. reflexivity. Qed.

(** So the kernel writes to memory of another process for a process that
    passes such a range to a system call. *)
Example copy_to_user_escapes : ∃ m', copy_to_user_raw three_pages 0x40802000 0x50000000 0x2000 (λ a, if a <? 0x50000000 then 1 else 2) = Done (true, m') ∧
  m' 0x40803010 = 2.
Proof. eexists. split; [reflexivity|]. vm_compute. reflexivity. Qed.
