(* ===== verification/Vfs.v ===== *)
(** * The virtual file system: handles and file access

    kernel/src/filesystem/vfs_internal.c and the operations of filesystem.c on
    open handles.  A shared handle stands for an open file and lives in an
    object of its own; the table of shared handles holds pointers to these
    objects, and the table of handles holds the handles themselves, each with a
    pointer to a shared handle.  Objects are named by numbers and are never
    freed; tables are lists.  Whether a memory request succeeds is an argument
    of type [bool].  The only file system that can be reached through a handle
    is the RAM file system, and pointers to mounted file systems are indices of
    [vfs_table].

    Each operation is one step.  In the code it holds the mutexes of the handle
    table, shared, and of the handle: operations through one handle exclude each
    other, those through two handles of one file may interleave, which is not
    modelled.  [ec] is never null and is passed through,
    because several paths leave it as it was. *)

From S2P Require Import Prelude Badgelib IntRoutines Ramfs.

Record vfs_file_shared := VfsShared {
  s_file : file_shared;          (* reference count, size, inode *)
  s_index : nat;
  s_vfs : option nat;            (* the mounted file system *)
}.

Record vfs_file_handle := VfsHandle {
  offset : Z;
  h_write : bool;
  h_read : bool;
  is_dir : bool;
  dir_cache_size : Z;
  dir_cache : list Z;
  h_shared : nat;
  fileno : Z;
}.

Record vfs_state (HS : Type) := VfsState {
  shared_list : list nat;
  shared_cap : nat;
  shared_mem : gmap nat vfs_file_shared;
  handle_list : list vfs_file_handle;
  handle_cap : nat;
  vfs_handle_no : Z;
  mounts : gmap nat (ramfs HS);
  vfs_root_index : option nat;
}.
Arguments VfsState {HS}.
Arguments shared_list {HS}.
Arguments shared_cap {HS}.
Arguments shared_mem {HS}.
Arguments handle_list {HS}.
Arguments handle_cap {HS}.
Arguments vfs_handle_no {HS}.
Arguments mounts {HS}.
Arguments vfs_root_index {HS}.

Definition char_slash : Z := 47.
Definition char_dot : Z := 46.

(** ** Searching in strings and memory

    Two more functions of badgelib, with their documented results. *)

Class PathStrings := {
  cstr_index : list Z → Z → option nat;           (* the first index of a character; [None] is -1 *)
  mem_index : list Z → nat → Z → option nat;      (* the same in the first bytes of a buffer *)
}.

Class PathStringsSpec `{PathStrings} := {
  cstr_index_spec s c : cstr_index s c = fst <$> list_find (.= c) s;
  mem_index_spec b n c : (n <= length b)%nat → mem_index b n c = fst <$> list_find (.= c) (take n b);
}.

Section vfs.
Context `{!BadgeStrings} `{!KernelHeap HS} `{!PathStrings}.
Implicit Types (st : vfs_state HS) (ec : badge_cause).

(** ** Assignments *)

Definition set_shared_table (l : list nat) (c : nat) st : vfs_state HS :=
  VfsState l c (shared_mem st) (handle_list st) (handle_cap st) (vfs_handle_no st) (mounts st) (vfs_root_index st).
Definition set_handle_table (l : list vfs_file_handle) (c : nat) st : vfs_state HS :=
  VfsState (shared_list st) (shared_cap st) (shared_mem st) l c (vfs_handle_no st) (mounts st) (vfs_root_index st).
Definition put_shared (p : nat) (s : vfs_file_shared) st : vfs_state HS :=
  VfsState (shared_list st) (shared_cap st) (<[p := s]> (shared_mem st)) (handle_list st) (handle_cap st) (vfs_handle_no st) (mounts st) (vfs_root_index st).
Definition put_handle (i : nat) (h : vfs_file_handle) st : vfs_state HS :=
  set_handle_table (<[i := h]> (handle_list st)) (handle_cap st) st.
Definition put_mount (v : nat) (fs : ramfs HS) st : vfs_state HS :=
  VfsState (shared_list st) (shared_cap st) (shared_mem st) (handle_list st) (handle_cap st) (vfs_handle_no st) (<[v := fs]> (mounts st)) (vfs_root_index st).
Definition set_file (f : file_shared) (s : vfs_file_shared) : vfs_file_shared := VfsShared f (s_index s) (s_vfs s).
Definition set_refcount (n : Z) (s : vfs_file_shared) : vfs_file_shared :=
  set_file (FileShared n (size (s_file s)) (ramfs_file (s_file s)) (f_inode (s_file s))) s.
Definition set_offset (o : Z) (h : vfs_file_handle) : vfs_file_handle :=
  VfsHandle o (h_write h) (h_read h) (is_dir h) (dir_cache_size h) (dir_cache h) (h_shared h) (fileno h).
Definition set_dir_cache (b : list Z) (n : Z) (h : vfs_file_handle) : vfs_file_handle :=
  VfsHandle (offset h) (h_write h) (h_read h) (is_dir h) n b (h_shared h) (fileno h).

(** ** Tables *)

(** [atomic_fetch_add] wraps around like [int]. *)
Definition next_fileno st : Z * vfs_state HS :=
  (vfs_handle_no st, VfsState (shared_list st) (shared_cap st) (shared_mem st) (handle_list st) (handle_cap st)
    (signed 32 (vfs_handle_no st + 1)) (mounts st) (vfs_root_index st)).

Fixpoint find_index {A} (f : A → bool) (i : nat) (l : list A) : option nat :=
  match l with
  | [] => None
  | x :: l => if f x then Some i else find_index f (S i) l
  end.

Definition vfs_file_by_ptr (p : nat) st : option nat := find_index (Nat.eqb p) 0 (shared_list st).
Definition vfs_file_by_handle (no : Z) st : option nat := find_index (λ h, fileno h =? no) 0 (handle_list st).

Definition has_inode st (vfs : nat) (inode : Z) (p : nat) : bool :=
  match shared_mem st !! p with
  | Some s => bool_decide (s_vfs s = Some vfs) && (f_inode (s_file s) =? inode)
  | None => false
  end.
Definition vfs_shared_by_inode (vfs : nat) (inode : Z) st : option nat := find_index (has_inode st vfs inode) 0 (shared_list st).

(** Removes element [i] by moving the last one into its place.  [None] is -1.
    The table is a prefix of its memory of [cap] elements, so a store behind
    the last element but inside the memory changes nothing. *)
Definition splice {A} (cap : nat) (i : option nat) (l : list A) : outcome (list A) :=
  let n := (length l - 1)%nat in
  if decide (l = []) then Undef else
  if decide (n = 0%nat) then Done [] else
  x ← deref (l !! n);
  i ← deref i;
  if decide (i < cap)%nat then Done (take n (<[i := x]> l)) else Undef.

(** The capacity after a removal leaves [n] elements. *)
Definition shrink (mem_ok : bool) (cap n : nat) : nat :=
  if decide (2 * n < cap)%nat then if mem_ok then Nat.max (cap / 2) 2 else cap else cap.

Definition vfs_file_shared_splice (mem_ok : bool) (i : option nat) st : outcome (vfs_state HS) :=
  l ← splice (shared_cap st) i (shared_list st);
  Done (set_shared_table l (shrink mem_ok (shared_cap st) (length l)) st).

Definition vfs_file_handle_splice (mem_ok : bool) (i : option nat) st : outcome (vfs_state HS) :=
  l ← splice (handle_cap st) i (handle_list st);
  Done (set_handle_table l (shrink mem_ok (handle_cap st) (length l)) st).

(** The capacity for one more element; [None] when memory runs out. *)
Definition expand (mem_ok : bool) (cap n : nat) : option nat :=
  if decide (cap <= n)%nat then if mem_ok then Some (Nat.max (cap * 2) 2) else None else Some cap.

(** [malloc_ok] is the allocation of the object, [p] its address. *)
Definition vfs_file_create_shared (realloc_ok malloc_ok : bool) st : option nat * vfs_state HS :=
  match expand realloc_ok (shared_cap st) (length (shared_list st)) with
  | None => (None, st)
  | Some c =>
      if malloc_ok then
        let p := fresh (dom (shared_mem st)) in
        let index := length (shared_list st) in
        let st := put_shared p (VfsShared (FileShared 0 0 None 0) index None) st in
        (Some index, set_shared_table (shared_list st ++ [p]) c st)
      else (None, set_shared_table (shared_list st) c st)
  end.

(** [shared] is the index of a shared handle, or [None] for -1. *)
Definition vfs_file_create_handle (ok1 ok2 ok3 : bool) (shared : option nat) st : outcome (option nat * vfs_state HS) :=
  let '(shared, st) := match shared with Some i => (Some i, st) | None => vfs_file_create_shared ok1 ok2 st end in
  match shared with
  | None => Done (None, st)
  | Some i =>
      match expand ok3 (handle_cap st) (length (handle_list st)) with
      | None => Done (None, st)
      | Some c =>
          p ← deref (shared_list st !! i);
          let '(no, st) := next_fileno st in
          let handle := length (handle_list st) in
          Done (Some handle, set_handle_table (handle_list st ++ [VfsHandle 0 false false false 0 [] p no]) c st)
      end
  end.

Definition vfs_file_destroy_shared (mem_ok : bool) (i : option nat) st : outcome (vfs_state HS) :=
  vfs_file_shared_splice mem_ok i st.

(** ** Access to the file system of a handle *)

Definition vfs_of (s : vfs_file_shared) st : outcome (nat * ramfs HS) :=
  v ← deref (s_vfs s); fs ← deref (mounts st !! v); Done (v, fs).

Definition vfs_root_open (p : nat) st : outcome (badge_cause * vfs_state HS) :=
  s ← deref (shared_mem st !! p);
  v ← deref (vfs_root_index st);
  fs ← deref (mounts st !! v);
  '(ec, f, fs) ← vfs_ramfs_root_open (s_file s) fs;
  Done (ec, put_shared p (VfsShared f (s_index s) (Some v)) (put_mount v fs st)).

(** The inode of a shared handle. *)
Definition inode_ptr (s : vfs_file_shared) : outcome nat := deref (ramfs_file (s_file s)).

Definition vfs_create_file ec (dir : nat) (name : list Z) st : outcome (badge_cause * vfs_state HS) :=
  s ← deref (shared_mem st !! dir);
  '(v, fs) ← vfs_of s st;
  d ← inode_ptr s;
  '(ec, fs) ← vfs_ramfs_create_file ec d name fs;
  Done (ec, put_mount v fs st).

Definition vfs_create_dir ec (dir : nat) (name : list Z) st : outcome (badge_cause * vfs_state HS) :=
  s ← deref (shared_mem st !! dir);
  '(v, fs) ← vfs_of s st;
  d ← inode_ptr s;
  '(ec, fs) ← vfs_ramfs_create_dir ec d (f_inode (s_file s)) name fs;
  Done (ec, put_mount v fs st).

Definition vfs_unlink ec (dir : nat) (name : list Z) st : outcome (badge_cause * vfs_state HS) :=
  s ← deref (shared_mem st !! dir);
  '(v, fs) ← vfs_of s st;
  d ← inode_ptr s;
  '(ec, fs) ← vfs_ramfs_unlink ec d name fs;
  Done (ec, put_mount v fs st).

(** [ent] is the memory of the [dirent_t] of the caller. *)
Definition vfs_dir_find_ent (dir : nat) (ent : list Z) (name : list Z) st : outcome (bool * list Z) :=
  s ← deref (shared_mem st !! dir);
  '(v, fs) ← vfs_of s st;
  d ← inode_ptr s;
  vfs_ramfs_dir_find_ent d name ent fs.

Definition OFLAGS_READONLY : Z := 0x01.
Definition OFLAGS_WRITEONLY : Z := 0x02.
Definition OFLAGS_CREATE : Z := 0x10.
Definition OFLAGS_EXCLUSIVE : Z := 0x20.
Definition OFLAGS_DIRECTORY : Z := 0x80.
Definition has_flag (oflags f : Z) : bool := negb (Z.land oflags f =? 0).

(** Opens [name] of the directory [dir] into the shared handle [file].  The
    result of creating the file is overwritten by that of opening it. *)
Definition vfs_file_open ec (dir file : nat) (name : list Z) (oflags : Z) st : outcome (badge_cause * vfs_state HS) :=
  let open st :=
    s ← deref (shared_mem st !! dir);
    '(v, fs) ← vfs_of s st;
    d ← inode_ptr s;
    t ← deref (shared_mem st !! file);
    '(ec, f, fs) ← vfs_ramfs_file_open d (s_file t) name fs;
    Done (ec, put_shared file (VfsShared f (s_index t) (if is_ok ec then Some v else s_vfs t)) (put_mount v fs st)) in
  if has_flag oflags (Z.lor OFLAGS_EXCLUSIVE OFLAGS_CREATE) then
    s ← deref (shared_mem st !! dir);
    '(v, fs) ← vfs_of s st;
    d ← inode_ptr s;
    '(ec, found) ← vfs_ramfs_exists d name fs;
    if has_flag oflags OFLAGS_EXCLUSIVE && found then Done (ECAUSE_EXISTS, st)
    else if negb (has_flag oflags OFLAGS_CREATE) && negb found then Done (ECAUSE_NOTFOUND, st)
    else if has_flag oflags OFLAGS_DIRECTORY then '(_, st) ← vfs_create_dir ec dir name st; open st
    else '(_, st) ← vfs_create_file ec dir name st; open st
  else open st.

Definition vfs_file_close (p : nat) st : outcome (badge_cause * vfs_state HS) :=
  s ← deref (shared_mem st !! p);
  '(v, fs) ← vfs_of s st;
  '(ec, f, fs) ← vfs_ramfs_file_close (s_file s) fs;
  Done (ec, put_shared p (set_file f s) (put_mount v fs st)).

Definition vfs_file_read (p : nat) (off : Z) (readbuf : list Z) (readlen : Z) st : outcome (badge_cause * list Z) :=
  s ← deref (shared_mem st !! p);
  '(v, fs) ← vfs_of s st;
  vfs_ramfs_file_read (s_file s) off readbuf readlen fs.

Definition vfs_file_write (p : nat) (off : Z) (writebuf : list Z) (writelen : Z) st : outcome (badge_cause * vfs_state HS) :=
  s ← deref (shared_mem st !! p);
  '(v, fs) ← vfs_of s st;
  '(ec, fs) ← vfs_ramfs_file_write (s_file s) off writebuf writelen fs;
  Done (ec, put_mount v fs st).

Definition vfs_file_resize ec (p : nat) (new_size : Z) st : outcome (badge_cause * vfs_state HS) :=
  s ← deref (shared_mem st !! p);
  '(v, fs) ← vfs_of s st;
  '(ec, f, fs) ← vfs_ramfs_file_resize ec (s_file s) new_size fs;
  Done (ec, put_shared p (set_file f s) (put_mount v fs st)).

(** Reads all entries into the cache of handle [i]. *)
Definition vfs_dir_read (i : nat) st : outcome (badge_cause * vfs_state HS) :=
  h ← deref (handle_list st !! i);
  s ← deref (shared_mem st !! h_shared h);
  '(v, fs) ← vfs_of s st;
  dir ← deref (ramfs_file (s_file s));
  '(ec, r, fs) ← vfs_ramfs_dir_read dir (dir_cache h) fs;
  let st := put_mount v fs st in
  Done (ec, match r with Some (b, n) => put_handle i (set_dir_cache b n h) st | None => st end).

(** The last handle of a file closes the file. *)
Definition vfs_file_destroy_handle (ok1 ok2 : bool) (i : nat) st : outcome (vfs_state HS) :=
  _ ← assert_or_panic (i <? length (handle_list st))%nat;
  h ← deref (handle_list st !! i);
  s ← deref (shared_mem st !! h_shared h);
  let s := set_refcount (u64 (refcount (s_file s) - 1)) s in
  let st := put_shared (h_shared h) s st in
  st ← (if refcount (s_file s) =? 0 then
          '(_, st) ← vfs_file_close (h_shared h) st;
          vfs_file_shared_splice ok1 (vfs_file_by_ptr (h_shared h) st) st
        else Done st);
  vfs_file_handle_splice ok2 (Some i) st.

(** ** Moving a handle to another file *)

(** The end of both reopening functions: handle [i] is switched to the shared
    handle [p], and the old one is closed when this was its last reference;
    its slot is found by the index it was created with. *)
Definition switch_shared (ok : bool) (i p : nat) st : outcome (badge_cause * vfs_state HS) :=
  h ← deref (handle_list st !! i);
  let old := h_shared h in
  let st := put_handle i (VfsHandle (offset h) (h_write h) (h_read h) (is_dir h) (dir_cache_size h) (dir_cache h) p (fileno h)) st in
  s ← deref (shared_mem st !! p);
  let st := put_shared p (set_refcount (u64 (refcount (s_file s) + 1)) s) st in
  o ← deref (shared_mem st !! old);
  let o := set_refcount (u64 (refcount (s_file o) - 1)) o in
  let st := put_shared old o st in
  if refcount (s_file o) =? 0 then
    '(ec, st) ← vfs_file_close old st;
    _ ← assert_or_panic (is_ok ec);
    st ← vfs_file_destroy_shared ok (Some (s_index o)) st;
    Done (ec, st)
  else Done (ECAUSE_OK, st).

(** A new shared handle that [open] opens; [None] when that fails. *)
Definition open_shared (ok1 ok2 ok3 : bool) (open : nat → vfs_state HS → outcome (badge_cause * vfs_state HS)) st
    : outcome (badge_cause * option nat * vfs_state HS) :=
  match vfs_file_create_shared ok1 ok2 st with
  | (None, st) => Done (ECAUSE_NOMEM, None, st)
  | (Some sh, st) =>
      p ← deref (shared_list st !! sh);
      '(ec, st) ← open p st;
      if is_ok ec then
        s ← deref (shared_mem st !! p);
        Done (ec, Some p, put_shared p (set_refcount 0 s) st)
      else
        st ← vfs_file_destroy_shared ok3 (Some sh) st;
        Done (ec, None, st)
  end.

Definition root_inode : Z := Z.of_nat VFS_RAMFS_INODE_ROOT.

Definition root_reopen (ok1 ok2 ok3 ok4 : bool) (dir : nat) st : outcome (badge_cause * vfs_state HS) :=
  v ← deref (vfs_root_index st);
  _ ← deref (mounts st !! v);
  match vfs_shared_by_inode v root_inode st with
  | Some sh => p ← deref (shared_list st !! sh); switch_shared ok4 dir p st
  | None =>
      '(ec, p, st) ← open_shared ok1 ok2 ok3 vfs_root_open st;
      match p with None => Done (ec, st) | Some p => switch_shared ok4 dir p st end
  end.

(** [inode] and [name] are the fields of the entry. *)
Definition dir_reopen ec (ok1 ok2 ok3 ok4 : bool) (dir : nat) (inode : Z) (name : list Z) st
    : outcome (badge_cause * vfs_state HS) :=
  h ← deref (handle_list st !! dir);
  s ← deref (shared_mem st !! h_shared h);
  v ← deref (s_vfs s);
  match vfs_shared_by_inode v inode st with
  | Some sh => p ← deref (shared_list st !! sh); switch_shared ok4 dir p st
  | None =>
      '(ec, p, st) ← open_shared ok1 ok2 ok3 (λ p, vfs_file_open ec (h_shared h) p name 0) st;
      match p with None => Done (ec, st) | Some p => switch_shared ok4 dir p st end
  end.

(** A new handle to the root directory.  An existing shared handle is used
    without counting the new reference, and a failed creation leads to an
    access before the table. *)
Definition root_open ec (ok1 ok2 ok3 ok4 ok5 : bool) st : outcome (badge_cause * option nat * vfs_state HS) :=
  v ← deref (vfs_root_index st);
  _ ← deref (mounts st !! v);
  let existing := vfs_shared_by_inode v root_inode st in
  '(handle, st) ← vfs_file_create_handle ok1 ok2 ok3 existing st;
  i ← deref handle;
  h ← deref (handle_list st !! i);
  '(ec, st) ← (if bool_decide (existing = None) then vfs_root_open (h_shared h) st else Done (ec, st));
  if bool_decide (existing = None) && negb (is_ok ec) then
    st ← vfs_file_destroy_handle ok4 ok5 i st; Done (ec, None, st)
  else Done (ec, Some i, put_handle i (VfsHandle 0 false true true 0 [] (h_shared h) (fileno h)) st).

(** ** Operations on open files *)

Definition fs_close (ok1 ok2 : bool) (file : Z) st : outcome (badge_cause * vfs_state HS) :=
  match vfs_file_by_handle file st with
  | None => Done (ECAUSE_PARAM, st)
  | Some i => st ← vfs_file_destroy_handle ok1 ok2 i st; Done (ECAUSE_OK, st)
  end.

(** A negative length releases a mutex that was not acquired. *)
Definition fs_read ec (file : Z) (readbuf : list Z) (readlen : Z) st
    : outcome (Z * badge_cause * list Z * vfs_state HS) :=
  if readlen <? 0 then Undef else
  match vfs_file_by_handle file st with
  | None => Done (0, ECAUSE_PARAM, readbuf, st)
  | Some i =>
      ptr ← deref (handle_list st !! i);
      if negb (h_read ptr) then Done (0, ECAUSE_PERM, readbuf, st) else
      if is_dir ptr then
        '(ec, st) ← (if offset ptr =? 0 then vfs_dir_read i st else Done (ec, st));
        ptr ← deref (handle_list st !! i);
        if negb (offset ptr =? 0) || is_ok ec then
          sum ← off_add readlen (offset ptr);
          let readlen := if (sum <? 0) || (dir_cache_size ptr <? sum) then dir_cache_size ptr - offset ptr else readlen in
          if decide ((0 <= readlen)%Z ∧ (Z.to_nat (offset ptr + readlen) <= length (dir_cache ptr))%nat ∧ (Z.to_nat readlen <= length readbuf)%nat) then
            let readbuf := mem_copy readbuf 0 (dir_cache ptr) (Z.to_nat (offset ptr)) (Z.to_nat readlen) in
            Done (readlen, ec, readbuf, put_handle i (set_offset (offset ptr + readlen) ptr) st)
          else Undef
        else Done (readlen, ec, readbuf, st)
      else
        s ← deref (shared_mem st !! h_shared ptr);
        sum ← off_add readlen (offset ptr);
        let readlen := if (sum <? 0) || (size (s_file s) <? sum) then size (s_file s) - offset ptr else readlen in
        '(ec, readbuf) ← vfs_file_read (h_shared ptr) (offset ptr) readbuf readlen st;
        off ← off_add (offset ptr) readlen;
        Done (readlen, ec, readbuf, put_handle i (set_offset off ptr) st)
  end.

(** The offset of the handle is not changed. *)
Definition fs_write ec (file : Z) (writebuf : list Z) (writelen : Z) st : outcome (Z * badge_cause * vfs_state HS) :=
  if writelen <? 0 then Undef else
  match vfs_file_by_handle file st with
  | None => Done (0, ECAUSE_PARAM, st)
  | Some i =>
      ptr ← deref (handle_list st !! i);
      if negb (h_write ptr) then Done (0, ECAUSE_PERM, st) else
      sum ← off_add writelen (offset ptr);
      if sum <? 0 then Done (0, ECAUSE_NOSPACE, st) else
      s ← deref (shared_mem st !! h_shared ptr);
      '(ec, st) ← (if size (s_file s) <? sum then vfs_file_resize ec (h_shared ptr) sum st else Done (ec, st));
      '(ec, st) ← vfs_file_write (h_shared ptr) (offset ptr) writebuf writelen st;
      Done (writelen, ec, st)
  end.

Definition fs_tell ec (file : Z) st : outcome (Z * badge_cause) :=
  match vfs_file_by_handle file st with
  | None => Done (0, ECAUSE_PARAM)
  | Some i => ptr ← deref (handle_list st !! i); Done (offset ptr, ec)
  end.

(** [SEEK_OTHER] is any other value of the enumeration. *)
Inductive fs_seek_mode := SEEK_ABS | SEEK_CUR | SEEK_END | SEEK_OTHER.

Definition fs_seek (file off : Z) (seekmode : fs_seek_mode) st : outcome (Z * badge_cause * vfs_state HS) :=
  match vfs_file_by_handle file st with
  | None => Done (0, ECAUSE_PARAM, st)
  | Some i =>
      ptr ← deref (handle_list st !! i);
      s ← deref (shared_mem st !! h_shared ptr);
      o ← match seekmode with
          | SEEK_ABS => Done off
          | SEEK_CUR => off_add (offset ptr) off
          | SEEK_END => off_add (size (s_file s)) off
          | SEEK_OTHER => Done (offset ptr)
          end;
      let o :=
        if o <? 0 then 0
        else if negb (is_dir ptr) && (size (s_file s) <? o) then size (s_file s)
        else if is_dir ptr && (dir_cache_size ptr <? o) then dir_cache_size ptr
        else o in
      Done (o, match seekmode with SEEK_OTHER => ECAUSE_PARAM | _ => ECAUSE_OK end, put_handle i (set_offset o ptr) st)
  end.

Definition is_dir_handle (dir : Z) st : outcome (bool * badge_cause) :=
  match vfs_file_by_handle dir st with
  | None => Done (false, ECAUSE_PARAM)
  | Some i => h ← deref (handle_list st !! i); Done (is_dir h, if is_dir h then ECAUSE_OK else ECAUSE_IS_FILE)
  end.

Definition fs_dir_close (ok1 ok2 : bool) (dir : Z) st : outcome (badge_cause * vfs_state HS) :=
  '(ok, ec) ← is_dir_handle dir st;
  if (ok : bool) then fs_close ok1 ok2 dir st else Done (ec, st).

(** The fields of a [dirent_t]. *)
Definition de_record_len (b : list Z) : Z := signed 64 (of_bytes (take 8 b)).
Definition de_inode (b : list Z) : Z := signed 64 (of_bytes (take 8 (drop 8 b))).
Definition de_is_dir (b : list Z) : bool := bool_decide (b !! 16%nat = Some 1).
Definition de_name_len (b : list Z) : Z := signed 64 (of_bytes (take 8 (drop 24 b))).
Definition de_name (b : list Z) : list Z := drop OFFSETOF_DIRENT_NAME b.
Definition FILESYSTEM_NAME_MAX : Z := 255.

(** [out] is the [dirent_t] of the caller: 288 bytes, of which the name are
    the last 256. *)
Definition fs_dir_read ec (out : list Z) (dir : Z) st : outcome (bool * badge_cause * list Z * vfs_state HS) :=
  '(ok, ec') ← is_dir_handle dir st;
  if negb ok then Done (false, ec', out, st) else
  '(pos, ec) ← fs_tell ec dir st;
  if negb (is_ok ec) then Done (false, ec, out, st) else
  let read_len := Z.of_nat OFFSETOF_DIRENT_NAME in
  '(len, ec, out, st) ← fs_read ec dir out read_len st;
  if (len =? 0) && is_ok ec then Done (false, ec, out, st) else
  if negb (is_ok ec) then Done (false, ec, out, st) else
  min ← off_add read_len (de_name_len out);
  if (FILESYSTEM_NAME_MAX <? de_name_len out) || (de_record_len out <? min) then
    '(_, _, st) ← fs_seek dir pos SEEK_ABS st;
    Done (false, ECAUSE_UNKNOWN, out, st)
  else
    '(name_len, ec, name, st) ← fs_read ec dir (de_name out) (de_name_len out) st;
    let out := take OFFSETOF_DIRENT_NAME out ++ name in
    let absent c := bool_decide (mem_index name (Z.to_nat name_len) c = None) in
    if negb (is_ok ec) || negb (name_len =? de_name_len out) || negb (absent char_slash) || negb (absent 0) then
      '(_, _, st) ← fs_seek dir pos SEEK_ABS st;
      Done (false, ECAUSE_UNKNOWN, out, st)
    else
      next ← off_add pos (de_record_len out);
      '(_, ec, st) ← fs_seek dir next SEEK_ABS st;
      let at_end := (OFFSETOF_DIRENT_NAME + Z.to_nat name_len)%nat in
      if decide (at_end < length out)%nat then Done (true, ec, <[at_end := 0]> out, st) else Undef.

Definition fs_flush (file : Z) : badge_cause := ECAUSE_UNSUPPORTED.
End vfs.

(** ** Paths *)

(** [path] is the string without its terminator; a read behind its end sees
    the terminator. *)
Definition char_at (path : list Z) (i : nat) : Z := default 0 (path !! i).

Section paths.
Context `{!PathStrings}.

(** Every round removes a character at least. *)
Fixpoint canonical_loop (fuel : nat) (path : list Z) : outcome bool :=
  match fuel with
  | O => Fuel
  | S fuel =>
      match path with
      | [] => Done true
      | _ =>
          let i := if char_at path 1 =? char_dot then 1%nat else 0%nat in
          if char_at path 0 =? char_dot then
            if (char_at path i =? 0) || (char_at path i =? char_slash) then Done false else
            match cstr_index path char_slash with Some k => canonical_loop fuel (drop (S k) path) | None => Done true end
          else if (char_at path 0 =? char_slash) && (char_at path 1 =? char_slash) then Done false else
          match cstr_index path char_slash with Some k => canonical_loop fuel (drop (S k) path) | None => Done true end
      end
  end.

Definition fs_is_canonical_path (path : list Z) : outcome bool :=
  if char_at path 0 =? char_slash then canonical_loop (S (length path)) path else Done false.
End paths.
