(* ===== verification/VfsCorrect.v ===== *)
(** * Correctness of the operations on open files

    What reading, writing, seeking and closing through a handle do to the
    files of the mounted file systems, for every sequence of operations; the
    entries [fs_dir_read] returns; and what the path test accepts. *)

From S2P Require Import Prelude Badgelib IntRoutines Ramfs RamfsTheory RamfsCorrect Vfs.

(** ** Tables *)

Lemma find_index_Some {A} (f : A → bool) l : ∀ i k, find_index f i l = Some k →
  (i <= k)%nat ∧ ∃ x, l !! (k - i)%nat = Some x ∧ f x = true ∧ ∀ j y, (j < k - i)%nat → l !! j = Some y → f y = false.
Proof.
  induction l as [|x l IH]; intros i k; cbn [find_index]; [done|]. destruct (f x) eqn:Hx.
  - intros [= <-]. rewrite Nat.sub_diag. split; [lia|]. exists x. split_and!; [done|done|]. intros j y Hj. lia.
  - intros (Hle&y&Hy&Hfy&Hall)%IH. split; [lia|]. exists y. replace (k - i)%nat with (S (k - S i)) by lia.
    split_and!; [done|done|]. intros [|j] z Hj; cbn [lookup list_lookup]; [by intros [= <-]|]. apply Hall. lia.
Qed.

Lemma find_index_None {A} (f : A → bool) l i : find_index f i l = None ↔ ∀ x, x ∈ l → f x = false.
Proof.
  revert i; induction l as [|x l IH]; intros i; cbn [find_index]; [split; [by intros _ ? ?%elem_of_nil|done]|].
  destruct (f x) eqn:Hx.
  - split; [done|]. intros Hall. rewrite Hall in Hx; [done|by left].
  - rewrite IH. split; intros Hall y; [intros [-> |]%elem_of_cons; [done|by apply Hall]|intros; apply Hall; by right].
Qed.

Lemma find_index_fmap {A B} (g : A → B) (f : B → bool) l i : find_index f i (g <$> l) = find_index (f ∘ g) i l.
Proof. revert i; induction l as [|x l IH]; intros i; [done|]. simpl. by rewrite IH. Qed.

(** Moving the last element into the hole. *)
Lemma splice_perm {A} cap i (l : list A) x : l !! i = Some x → (length l <= cap)%nat →
  ∃ l', splice cap (Some i) l = Done l' ∧ x :: l' ≡ₚ l.
Proof.
  intros Hi Hcap. pose proof (lookup_lt_Some _ _ _ Hi) as Hlt. unfold splice.
  destruct (exists_last (l := l)) as (l0&y&->); [by intros ->|].
  rewrite decide_False by (by destruct l0). rewrite length_app in *. cbn [length] in *.
  replace (length l0 + 1 - 1)%nat with (length l0) by lia. case_decide as H0.
  { apply nil_length_inv in H0 as ->. exists []. split; [done|]. cbn [app] in *. destruct i; [|simpl in Hlt; lia].
    by injection Hi as ->. }
  rewrite list_lookup_middle by done. cbn [deref mbind outcome_bind]. rewrite decide_True by lia.
  eexists. split; [reflexivity|]. destruct (decide (i < length l0)%nat) as [Hil|Hil].
  - rewrite lookup_app_l in Hi by done. rewrite insert_app_l by done. rewrite take_app_length' by by rewrite length_insert.
    rewrite <-(take_drop_middle l0 i x Hi) at 2. rewrite insert_take_drop by done.
    rewrite <-app_assoc. simpl. rewrite (Permutation_app_comm (drop (S i) l0) [y]). simpl.
    by rewrite <-!Permutation_middle, Permutation_swap.
  - assert (i = length l0) as -> by lia. rewrite list_lookup_middle in Hi by done. injection Hi as ->.
    rewrite insert_app_r_alt by lia. rewrite Nat.sub_diag. simpl. rewrite take_app_length. apply Permutation_cons_append.
Qed.

Section handles.
Context `{!BadgeStrings} `{!BadgeStringsSpec} `{!KernelHeap HS} `{!KernelHeapSpec HS} `{!PathStrings} `{!PathStringsSpec}.
Implicit Types (st : vfs_state HS) (h : vfs_file_handle).

(** ** Views

    [lookup_handle no st] is the handle with number [no]; [file_view] says
    that it is open on the file with inode [i] of the file system [v], whose
    contents are [data]. *)

Definition lookup_handle (no : Z) st : option vfs_file_handle :=
  vfs_file_by_handle no st ≫= λ k, handle_list st !! k.

(** The shared handle [p] is open on a file with the given contents. *)
Definition shared_view st (p v i : nat) (data : list Z) : Prop :=
  ∃ s fs ino, shared_mem st !! p = Some s ∧ s_vfs s = Some v ∧ mounts st !! v = Some fs ∧
    file_at fs (s_file s) i ino ∧ size (s_file s) = Z.of_nat (len ino) ∧ data = contents ino.

Definition file_view st (no : Z) h (v i : nat) (data : list Z) : Prop :=
  lookup_handle no st = Some h ∧ is_dir h = false ∧ shared_view st (h_shared h) v i data ∧
  0 <= offset h <= Z.of_nat (length data).

(** The file a shared handle is open on. *)
Definition open_on st (p : nat) : option (nat * nat) :=
  s ← shared_mem st !! p; v ← s_vfs s; i ← ramfs_file (s_file s); Some (v, i).

Lemma shared_view_open_on st p v i data : shared_view st p v i data → open_on st p = Some (v, i).
Proof. intros (s&fs&ino&Hs&Hv&_&(Hi&_)&_). unfold open_on. rewrite Hs. simpl. rewrite Hv. simpl. by rewrite Hi. Qed.


Lemma shared_view_length st p v i data : shared_view st p v i data →
  ∃ s, shared_mem st !! p = Some s ∧ size (s_file s) = Z.of_nat (length data) ∧ Z.of_nat (length data) < 2 ^ 62.
Proof.
  intros (s&fs&ino&Hs&_&_&Hf&Hsz&->). exists s. rewrite contents_length by apply Hf. split_and!; [done|done|apply Hf].
Qed.

(** The numbers of the handles decide the lookup. *)
Lemma by_handle_numbers no st : vfs_file_by_handle no st = find_index (λ n, n =? no) 0 (fileno <$> handle_list st).
Proof. unfold vfs_file_by_handle. by rewrite find_index_fmap. Qed.

Lemma by_handle_lookup no st h : lookup_handle no st = Some h →
  ∃ k, vfs_file_by_handle no st = Some k ∧ handle_list st !! k = Some h ∧ fileno h = no.
Proof.
  unfold lookup_handle. intros (k&Hk&Hh)%bind_Some. exists k. split_and!; [done|done|].
  apply find_index_Some in Hk as (_&x&Hx&Hn&_). rewrite Nat.sub_0_r in Hx. simplify_eq. by apply Z.eqb_eq.
Qed.

Lemma lookup_handle_None no st : lookup_handle no st = None → vfs_file_by_handle no st = None.
Proof.
  unfold lookup_handle. destruct (vfs_file_by_handle no st) as [k|] eqn:Hk; [|done]. simpl. intros Hl.
  apply find_index_Some in Hk as (_&x&Hx&_). rewrite Nat.sub_0_r in Hx. congruence.
Qed.

Lemma lookup_handle_put no' no st k h h' : vfs_file_by_handle no st = Some k → handle_list st !! k = Some h →
  fileno h' = fileno h → lookup_handle no' (put_handle k h' st) = if decide (no' = no) then Some h' else lookup_handle no' st.
Proof.
  intros Hk Hh Hn. unfold lookup_handle.
  assert (vfs_file_by_handle no' (put_handle k h' st) = vfs_file_by_handle no' st) as ->.
  { rewrite !by_handle_numbers. f_equal. simpl. rewrite list_fmap_insert, Hn. apply list_insert_id.
    by rewrite list_lookup_fmap, Hh. }
  pose proof (lookup_lt_Some _ _ _ Hh) as Hlt. simpl. case_decide as Hd.
  - subst no'. rewrite Hk. simpl. by apply list_lookup_insert_eq.
  - destruct (vfs_file_by_handle no' st) as [k'|] eqn:Hk'; [|done]. simpl. apply list_lookup_insert_ne. intros ->.
    apply find_index_Some in Hk as (_&x&Hx&Hfx&_). apply find_index_Some in Hk' as (_&x'&Hx'&Hfx'&_).
    rewrite Nat.sub_0_r in *. simplify_eq. apply Z.eqb_eq in Hfx, Hfx'. congruence.
Qed.

(** ** Reading *)

Lemma fs_read_spec ec no h v i data rb n m st : file_view st no h v i data → h_read h = true → 0 <= n < 2 ^ 62 →
  m = Z.min n (Z.of_nat (length data) - offset h) → (Z.to_nat m <= length rb)%nat →
  ∃ k, vfs_file_by_handle no st = Some k ∧ handle_list st !! k = Some h ∧
    fs_read ec no rb n st = Done (m, ECAUSE_OK,
      take (Z.to_nat m) (drop (Z.to_nat (offset h)) data) ++ drop (Z.to_nat m) rb,
      put_handle k (set_offset (offset h + m) h) st).
Proof.
  intros (Hl&Hdir&(s&fs&ino&Hs&Hv&Hfs&Hf&Hsz&->)&Ho) Hr Hn Hm Hrb. rewrite contents_length in * by apply Hf.
  pose proof (proj2 (proj2 (proj2 Hf))) as Hlim.
  destruct (by_handle_lookup _ _ _ Hl) as (k&Hk&Hh&_). exists k. split_and!; [done|done|].
  unfold fs_read. rewrite (proj2 (Z.ltb_ge _ _)) by lia. rewrite Hk, Hh. cbn [deref mbind outcome_bind].
  rewrite Hr, Hdir. cbn [negb]. rewrite Hs. cbn [deref mbind outcome_bind]. unfold off_add.
  rewrite decide_True by lia. cbn [mbind outcome_bind]. rewrite (proj2 (Z.ltb_ge (n + offset h) 0)) by lia. cbn [orb].
  rewrite Hsz.
  assert ((if Z.of_nat (len ino) <? n + offset h then Z.of_nat (len ino) - offset h else n) = m) as ->.
  { destruct (Z.ltb_spec (Z.of_nat (len ino)) (n + offset h)); lia. }
  unfold vfs_file_read, vfs_of. rewrite Hs. cbn [deref mbind outcome_bind]. rewrite Hv. cbn [deref mbind outcome_bind].
  rewrite Hfs. cbn [deref mbind outcome_bind].
  replace (offset h) with (Z.of_nat (Z.to_nat (offset h))) at 1 by lia.
  replace m with (Z.of_nat (Z.to_nat m)) at 1 by lia.
  rewrite (file_read_spec fs (s_file s) i ino) by (done || lia). cbn [mbind outcome_bind].
  rewrite decide_True by lia. done.
Qed.

(** ** Writing *)

(** Overwriting and extending a sequence from an offset inside it or at its end. *)
Definition overwrite (data : list Z) (off : nat) (bs : list Z) : list Z :=
  take off data ++ bs ++ drop (off + length bs) data.

Lemma overwrite_length data off bs : (off <= length data)%nat →
  length (overwrite data off bs) = Nat.max (length data) (off + length bs).
Proof. intros. unfold overwrite. rewrite !length_app, length_take, length_drop. lia. Qed.

Lemma overwrite_extended data off bs n : (off <= length data)%nat → n = (off + length bs)%nat → (length data <= n)%nat →
  overwrite (take n (data ++ replicate n 0)) off bs = overwrite data off bs.
Proof.
  intros Ho -> Hn. unfold overwrite. rewrite take_take, Nat.min_l by lia. rewrite take_app_le by lia.
  rewrite !(drop_ge _ (off + length bs)); [done|lia|rewrite length_take; lia].
Qed.

(** A change of inode [i] of the file system [v] through the shared handle
    [p] is not seen through the others. *)
Lemma shared_view_frame st st' p v i fs fs' : mounts st !! v = Some fs → mounts st' = <[v := fs']> (mounts st) →
  (∀ j, j ≠ i → inode_list fs' !! j = inode_list fs !! j) →
  (∀ p', p' ≠ p → shared_mem st' !! p' = shared_mem st !! p') →
  ∀ p' v' i' data, p' ≠ p → (v', i') ≠ (v, i) → shared_view st p' v' i' data → shared_view st' p' v' i' data.
Proof.
  intros Hv Hm Hl Hs p' v' i' data Hp Hvi (s&fs0&ino&Hs'&Hv'&Hfs0&(Hf&Hi&Hok&Hlen)&Hsz&->). destruct (decide (v' = v)) as [-> |Hne].
  - simplify_eq. exists s, fs', ino. rewrite Hs, Hm, lookup_insert_eq by done. split_and!; [done..| |done|done].
    split_and!; [done| |done|done]. rewrite Hl by congruence. done.
  - exists s, fs0, ino. rewrite Hs, Hm, lookup_insert_ne by done. split_and!; done.
Qed.

(** [st'] is [st] with another file system [v] and shared handle [p]. *)
Definition updated st (p v : nat) (s : vfs_file_shared) (fs : ramfs HS) st' : Prop :=
  handle_list st' = handle_list st ∧ mounts st' = <[v := fs]> (mounts st) ∧ shared_mem st' !! p = Some s ∧
  ∀ p', p' ≠ p → shared_mem st' !! p' = shared_mem st !! p'.

Lemma updated_open_on st p v s s' fs st' : updated st p v s' fs st' → shared_mem st !! p = Some s → s_vfs s' = s_vfs s →
  ramfs_file (s_file s') = ramfs_file (s_file s) → ∀ p', open_on st' p' = open_on st p'.
Proof.
  intros (_&_&Hp&Hne) Hs Hv Hf p'. unfold open_on. destruct (decide (p' = p)) as [-> |]; [|by rewrite Hne].
  rewrite Hp, Hs. simpl. by rewrite Hv, Hf.
Qed.

Lemma vfs_file_write_spec st p s v fs i ino off bs : shared_mem st !! p = Some s → s_vfs s = Some v →
  mounts st !! v = Some fs → file_at fs (s_file s) i ino → (off + length bs <= len ino)%nat →
  ∃ st' fs' ino', vfs_file_write p (Z.of_nat off) bs (Z.of_nat (length bs)) st = Done (ECAUSE_OK, st') ∧
    updated st p v s fs' st' ∧ file_at fs' (s_file s) i ino' ∧ len ino' = len ino ∧
    contents ino' = overwrite (contents ino) off bs ∧ ∀ j, j ≠ i → inode_list fs' !! j = inode_list fs !! j.
Proof.
  intros Hs Hv Hfs Hf Hb. unfold vfs_file_write, vfs_of. rewrite Hs. cbn [deref mbind outcome_bind]. rewrite Hv.
  cbn [deref mbind outcome_bind]. rewrite Hfs. cbn [deref mbind outcome_bind].
  destruct (file_write_spec fs (s_file s) i ino off bs Hf Hb) as (fs'&ino'&E&_&Hl&Hf'&_&Hlen&Hc). rewrite E.
  cbn [mbind outcome_bind]. exists (put_mount v fs' st), fs', ino'.
  split_and!; [done|by split_and!|done|done|done|]. intros j Hj. by rewrite Hl, list_lookup_insert_ne.
Qed.

(** Growing the file first. *)
Lemma vfs_file_resize_spec ec st p s v fs i ino n : shared_mem st !! p = Some s → s_vfs s = Some v →
  mounts st !! v = Some fs → file_at fs (s_file s) i ino → size (s_file s) = Z.of_nat (len ino) → Z.of_nat n < 2 ^ 62 →
  ∃ ec' st' s' fs' ino', vfs_file_resize ec p (Z.of_nat n) st = Done (ec', st') ∧ updated st p v s' fs' st' ∧
    s_vfs s' = Some v ∧ file_at fs' (s_file s') i ino' ∧ size (s_file s') = Z.of_nat (len ino') ∧
    (∀ j, j ≠ i → inode_list fs' !! j = inode_list fs !! j) ∧
    (contents ino' = contents ino ∨ (len ino' = n ∧ contents ino' = take n (contents ino ++ replicate n 0))).
Proof.
  intros Hs Hv Hfs Hf Hsz Hn. unfold vfs_file_resize, vfs_of. rewrite Hs. cbn [deref mbind outcome_bind]. rewrite Hv.
  cbn [deref mbind outcome_bind]. rewrite Hfs. cbn [deref mbind outcome_bind].
  destruct (file_resize_correct ec fs (s_file s) i ino n Hf Hn) as (ec1&f1&fs1&E1&_&Hr).
  rewrite E1. cbn [mbind outcome_bind].
  assert (∀ s', updated st p v s' fs1 (put_shared p s' (put_mount v fs1 st))) as Hup.
  { intros s'. split_and!; [done|done|simpl; by rewrite lookup_insert_eq|]. intros p' Hp. simpl. by rewrite lookup_insert_ne. }
  destruct Hr as [(->&Hl&_)|(Hsz1&ino1&Hf1&_&Hc1&Hl1)].
  - eexists _, _, _, fs1, ino. split_and!; [reflexivity|apply Hup|done| |done| |by left].
    + destruct Hf as (?&?&?&?). split_and!; [done|by rewrite Hl|done|done].
    + intros j _. by rewrite Hl.
  - eexists _, _, _, fs1, ino1. assert (len ino1 = n) as Hlen.
    { rewrite <-(contents_length ino1) by apply Hf1. rewrite Hc1, length_take, length_app, length_replicate. lia. }
    split_and!; [reflexivity|apply Hup|done|done|simpl; by rewrite Hlen|done|by right].
Qed.

(** What a write of [bs] at [off] to the file [i] of [v] may do: all of it,
    or nothing when the file would have to grow. *)
Definition write_effect st (p v i : nat) (data : list Z) (off : nat) (bs : list Z) ec' st' : Prop :=
  handle_list st' = handle_list st ∧
  ((ec' = ECAUSE_OK ∧ shared_view st' p v i (overwrite data off bs)) ∨
   (ec' = ECAUSE_RANGE ∧ (length data < off + length bs)%nat ∧ shared_view st' p v i data)) ∧
  (∀ p' v' i' data', p' ≠ p → (v', i') ≠ (v, i) → shared_view st p' v' i' data' → shared_view st' p' v' i' data') ∧
  ∀ p', open_on st' p' = open_on st p'.

Lemma vfs_write_inside st p s v fs i ino off bs : shared_mem st !! p = Some s → s_vfs s = Some v →
  mounts st !! v = Some fs → file_at fs (s_file s) i ino → size (s_file s) = Z.of_nat (len ino) → (off + length bs <= len ino)%nat →
  ∃ st', vfs_file_write p (Z.of_nat off) bs (Z.of_nat (length bs)) st = Done (ECAUSE_OK, st') ∧
    write_effect st p v i (contents ino) off bs ECAUSE_OK st'.
Proof.
  intros Hs Hv Hfs Hf Hsz Hfit. destruct (vfs_file_write_spec st p s v fs i ino off bs Hs Hv Hfs Hf Hfit)
    as (st2&fs2&ino2&E2&Hup&Hf2&Hlen2&Hc2&Hl2). pose proof Hup as (Hh2&Hm2&Hs2&Hp2).
  exists st2. unfold write_effect. split_and!; [done|done| | |by eapply updated_open_on].
  - left. split; [done|]. exists s, fs2, ino2. rewrite Hm2, lookup_insert_eq. split_and!; try done. by rewrite Hlen2.
  - by apply (shared_view_frame _ _ _ _ _ fs fs2).
Qed.

Lemma vfs_write_grow ec st p s v fs i ino off bs : shared_mem st !! p = Some s → s_vfs s = Some v →
  mounts st !! v = Some fs → file_at fs (s_file s) i ino → size (s_file s) = Z.of_nat (len ino) → (off <= len ino)%nat →
  (len ino < off + length bs)%nat → Z.of_nat (off + length bs) < 2 ^ 62 →
  ∃ ec1 st1 ec' st', vfs_file_resize ec p (Z.of_nat (off + length bs)) st = Done (ec1, st1) ∧
    vfs_file_write p (Z.of_nat off) bs (Z.of_nat (length bs)) st1 = Done (ec', st') ∧
    write_effect st p v i (contents ino) off bs ec' st'.
Proof.
  intros Hs Hv Hfs Hf Hsz Hoff Hgrow Hlim.
  destruct (vfs_file_resize_spec ec st p s v fs i ino (off + length bs) Hs Hv Hfs Hf Hsz Hlim)
    as (ec1&st1&s1&fs1&ino1&E1&Hup&Hv1&Hf1&Hsz1&Hl1&Hc1). pose proof Hup as (Hh1&Hm1&Hs1&Hp1).
  assert (∀ p', open_on st1 p' = open_on st p') as Ho1.
  { apply (updated_open_on _ _ _ _ _ _ _ Hup Hs); [by rewrite Hv1, Hv|]. by rewrite (proj1 Hf1), (proj1 Hf). }
  assert (mounts st1 !! v = Some fs1) as Hfs1 by by rewrite Hm1, lookup_insert_eq.
  unfold write_effect. destruct Hc1 as [Hc1|[Hlen1 Hc1]].
  - assert (len ino1 = len ino) as Hlen1.
    { by rewrite <-(contents_length ino), <-Hc1, contents_length by (apply Hf || apply Hf1). }
    destruct (file_range_errors fs1 (s_file s1) i ino1 (Z.of_nat off) (Z.of_nat (length bs)) bs Hf1) as [_ E2]; [lia..|].
    exists ec1, st1, ECAUSE_RANGE, (put_mount v fs1 st1). split_and!; [done| |done| | |done].
    + unfold vfs_file_write, vfs_of. rewrite Hs1. cbn [deref mbind outcome_bind]. rewrite Hv1.
      cbn [deref mbind outcome_bind]. rewrite Hfs1. cbn [deref mbind outcome_bind]. by rewrite E2.
    + right. rewrite contents_length by apply Hf. split_and!; [done|lia|].
      exists s1, fs1, ino1. simpl. by rewrite lookup_insert_eq.
    + apply (shared_view_frame _ _ _ _ _ fs fs1); [done|simpl; by rewrite Hm1, insert_insert_eq|done|done].
  - destruct (vfs_write_inside st1 p s1 v fs1 i ino1 off bs Hs1 Hv1 Hfs1 Hf1 Hsz1) as (st2&E2&Hh2&Hw&Hfr&Ho2); [lia|].
    exists ec1, st1, ECAUSE_OK, st2. split_and!; [done|done|congruence| | |intros p'; by rewrite Ho2].
    + left. split; [done|]. destruct Hw as [[_ Hw]|[? _]]; [|done].
      rewrite Hc1, overwrite_extended in Hw by (rewrite ?contents_length by apply Hf; lia). done.
    + intros p' v' i' data' Hp Hvi Hview. apply Hfr; [done|done|]. revert Hview.
      by apply (shared_view_frame st st1 p v i fs fs1).
Qed.

Lemma fs_write_spec ec no h v i data bs st : file_view st no h v i data → h_write h = true →
  offset h + Z.of_nat (length bs) < 2 ^ 62 →
  ∃ ec' st', fs_write ec no bs (Z.of_nat (length bs)) st = Done (Z.of_nat (length bs), ec', st') ∧
    write_effect st (h_shared h) v i data (Z.to_nat (offset h)) bs ec' st'.
Proof.
  intros (Hl&_&(s&fs&ino&Hs&Hv&Hfs&Hf&Hsz&->)&Ho) Hw Hb. rewrite contents_length in * by apply Hf.
  destruct (by_handle_lookup _ _ _ Hl) as (k&Hk&Hh&_). set (off := Z.to_nat (offset h)).
  assert (offset h = Z.of_nat off) as Eo by lia.
  unfold fs_write. rewrite (proj2 (Z.ltb_ge _ _)) by lia. rewrite Hk, Hh. cbn [deref mbind outcome_bind].
  rewrite Hw. cbn [negb]. unfold off_add. rewrite decide_True by lia. cbn [mbind outcome_bind].
  rewrite (proj2 (Z.ltb_ge _ _)) by lia. rewrite Hs. cbn [deref mbind outcome_bind]. rewrite Hsz, Eo.
  replace (Z.of_nat (length bs) + Z.of_nat off) with (Z.of_nat (off + length bs)) by lia.
  destruct (Z.ltb_spec (Z.of_nat (len ino)) (Z.of_nat (off + length bs))) as [Hgrow|Hfit].
  - destruct (vfs_write_grow ec st _ s v fs i ino off bs Hs Hv Hfs Hf Hsz) as (ec1&st1&ec'&st'&E1&E2&He); [lia..|].
    rewrite E1. cbn [mbind outcome_bind]. rewrite E2. cbn [mbind outcome_bind]. by exists ec', st'.
  - cbn [mbind outcome_bind].
    destruct (vfs_write_inside st _ s v fs i ino off bs Hs Hv Hfs Hf Hsz) as (st'&E&He); [lia|].
    rewrite E. cbn [mbind outcome_bind]. by exists ECAUSE_OK, st'.
Qed.

(** ** Seeking *)

(** The position a seek asks for. *)
Definition seek_target h (len off : Z) (m : fs_seek_mode) : Z :=
  match m with SEEK_ABS => off | SEEK_CUR => offset h + off | SEEK_END => len + off | SEEK_OTHER => offset h end.

Lemma fs_seek_spec no h v i data off m st : file_view st no h v i data → - 2 ^ 62 <= off < 2 ^ 62 →
  let o := Z.max 0 (Z.min (Z.of_nat (length data)) (seek_target h (Z.of_nat (length data)) off m)) in
  ∃ k, vfs_file_by_handle no st = Some k ∧ handle_list st !! k = Some h ∧
    fs_seek no off m st = Done (o, match m with SEEK_OTHER => ECAUSE_PARAM | _ => ECAUSE_OK end,
      put_handle k (set_offset o h) st).
Proof.
  intros (Hl&Hdir&Hsv&Ho) Hoff o. destruct (shared_view_length _ _ _ _ _ Hsv) as (s&Hs&Hsz&Hlim).
  destruct (by_handle_lookup _ _ _ Hl) as (k&Hk&Hh&_). exists k. split_and!; [done|done|].
  unfold fs_seek. rewrite Hk, Hh. cbn [deref mbind outcome_bind]. rewrite Hs. cbn [deref mbind outcome_bind].
  assert (match m with SEEK_ABS => Done off | SEEK_CUR => off_add (offset h) off
    | SEEK_END => off_add (size (s_file s)) off | SEEK_OTHER => Done (offset h) end
    = Done (seek_target h (Z.of_nat (length data)) off m)) as ->.
  { unfold off_add. rewrite Hsz. destruct m; rewrite ?decide_True by lia; done. }
  cbn [mbind outcome_bind]. rewrite Hdir, Hsz. cbn [negb andb].
  assert ((if seek_target h (Z.of_nat (length data)) off m <? 0 then 0
    else if Z.of_nat (length data) <? seek_target h (Z.of_nat (length data)) off m then Z.of_nat (length data)
    else seek_target h (Z.of_nat (length data)) off m) = o) as ->; [|done].
  unfold o. destruct (Z.ltb_spec (seek_target h (Z.of_nat (length data)) off m) 0); [lia|].
  destruct (Z.ltb_spec (Z.of_nat (length data)) (seek_target h (Z.of_nat (length data)) off m)); lia.
Qed.

(** ** Sequences of operations *)

(** Handles of files are open and inside their file, and distinct shared
    handles are open on distinct files. *)
Definition vfs_ok st : Prop :=
  (∀ no h, lookup_handle no st = Some h → is_dir h = false → ∃ v i data, file_view st no h v i data) ∧
  (∀ p p' x, open_on st p = Some x → open_on st p' = Some x → p = p').

Inductive file_op :=
  | OpRead (no : Z) (readbuf : list Z) (readlen : Z)
  | OpWrite (no : Z) (writebuf : list Z)
  | OpSeek (no off : Z) (m : fs_seek_mode)
  | OpTell (no : Z).

Definition op_handle (op : file_op) : Z :=
  match op with OpRead no _ _ | OpWrite no _ | OpSeek no _ _ | OpTell no => no end.

(** Lengths are not negative and within the buffer, and positions stay below
    [2 ^ 62]. *)
Definition op_ok (op : file_op) st : Prop :=
  (∀ h, lookup_handle (op_handle op) st = Some h → is_dir h = false) ∧
  match op with
  | OpRead _ rb n => 0 <= n <= Z.of_nat (length rb) ∧ n < 2 ^ 62
  | OpWrite no bs => ∀ h, lookup_handle no st = Some h → offset h + Z.of_nat (length bs) < 2 ^ 62
  | OpSeek _ off _ => - 2 ^ 62 <= off < 2 ^ 62
  | OpTell _ => True
  end.

Definition run_op (op : file_op) st : outcome (vfs_state HS) :=
  match op with
  | OpRead no rb n => '(_, _, _, st) ← fs_read ECAUSE_OK no rb n st; Done st
  | OpWrite no bs => '(_, _, st) ← fs_write ECAUSE_OK no bs (Z.of_nat (length bs)) st; Done st
  | OpSeek no off m => '(_, _, st) ← fs_seek no off m st; Done st
  | OpTell no => _ ← fs_tell ECAUSE_OK no st; Done st
  end.

(** Moving the position of one handle inside its file. *)
Lemma vfs_ok_put_offset st no k h v i data o : vfs_ok st → file_view st no h v i data →
  vfs_file_by_handle no st = Some k → handle_list st !! k = Some h → 0 <= o <= Z.of_nat (length data) →
  vfs_ok (put_handle k (set_offset o h) st).
Proof.
  intros [Hall Hinj] (_&Hdir&Hview&_) Hk Hh Ho. split; [|done]. intros no' h' Hl' Hdir'.
  unfold file_view. rewrite (lookup_handle_put no' no st k h) in * by done. case_decide as Hd.
  - injection Hl' as <-. by exists v, i, data.
  - by apply Hall.
Qed.

Lemma vfs_ok_write st no h v i data off bs ec' st' : vfs_ok st → file_view st no h v i data → (off <= length data)%nat →
  write_effect st (h_shared h) v i data off bs ec' st' → vfs_ok st'.
Proof.
  intros [Hall Hinj] (Hl&_&Hview&_) Hoff (Hh&Hw&Hfr&Hon). split; [|intros p p' x; rewrite !Hon; apply Hinj].
  intros no' h' Hl' Hdir'. assert (lookup_handle no' st = Some h') as Hl0.
  { revert Hl'. unfold lookup_handle, vfs_file_by_handle. by rewrite Hh. }
  destruct (Hall no' h' Hl0 Hdir') as (v'&i'&data'&_&_&Hview'&Ho').
  destruct (decide (h_shared h' = h_shared h)) as [E|Hne].
  - rewrite E in Hview'. pose proof (shared_view_length _ _ _ _ _ Hview) as (s&Hs&Hsz&_).
    pose proof (shared_view_length _ _ _ _ _ Hview') as (s'&Hs'&Hsz'&_). simplify_eq.
    rewrite <-E in Hw. exists v, i. destruct Hw as [[_ Hw]|(_&_&Hw)].
    + eexists. do 3 (split; [done|]). rewrite overwrite_length by done. lia.
    + eexists. do 3 (split; [done|]). lia.
  - exists v', i', data'. do 2 (split; [done|]). split; [|done]. apply Hfr; [done| |done]. intros Evi.
    apply Hne, (Hinj _ _ (v, i)); [|by eapply shared_view_open_on].
    rewrite <-Evi. by eapply shared_view_open_on.
Qed.

Definition op_step st st' : Prop := ∃ op, op_ok op st ∧ run_op op st = Done st'.

Lemma run_op_ok op st : vfs_ok st → op_ok op st → ∃ st', run_op op st = Done st' ∧ vfs_ok st'.
Proof.
  intros Hok [Hdir Hargs]. destruct (lookup_handle (op_handle op) st) as [h|] eqn:Hl.
  2: { apply lookup_handle_None in Hl as Hk. exists st. split; [|done]. destruct op; cbn [op_handle] in Hk; unfold run_op, fs_read, fs_write, fs_seek, fs_tell;
         rewrite ?(proj2 (Z.ltb_ge _ _)) by lia; by rewrite Hk. }
  destruct (proj1 Hok _ h Hl (Hdir h eq_refl)) as (v&i&data&Hview). pose proof Hview as (_&_&_&Ho).
  destruct op as [no rb n|no bs|no off m|no]; cbn [op_handle run_op] in *.
  - destruct (h_read h) eqn:Hr.
    + destruct (fs_read_spec ECAUSE_OK no h v i data rb n (Z.min n (Z.of_nat (length data) - offset h)) st Hview Hr)
        as (k&Hk&Hh&E); [lia|done|lia|].
      rewrite E. eexists. split; [reflexivity|]. eapply vfs_ok_put_offset; [done..|lia].
    + destruct (by_handle_lookup _ _ _ Hl) as (k&Hk&Hh&_). exists st. split; [|done]. unfold fs_read.
      rewrite (proj2 (Z.ltb_ge _ _)) by lia. rewrite Hk, Hh. cbn [deref mbind outcome_bind]. by rewrite Hr.
  - destruct (h_write h) eqn:Hw.
    + destruct (fs_write_spec ECAUSE_OK no h v i data bs st Hview Hw) as (ec'&st'&E&He); [by apply Hargs|].
      rewrite E. exists st'. split; [done|]. eapply vfs_ok_write; [done|done| |done]. lia.
    + destruct (by_handle_lookup _ _ _ Hl) as (k&Hk&Hh&_). exists st. split; [|done]. unfold fs_write.
      rewrite (proj2 (Z.ltb_ge _ _)) by lia. rewrite Hk, Hh. cbn [deref mbind outcome_bind]. by rewrite Hw.
  - destruct (fs_seek_spec no h v i data off m st Hview Hargs) as (k&Hk&Hh&E). rewrite E. eexists. split; [reflexivity|].
    eapply vfs_ok_put_offset; [done..|lia].
  - destruct (by_handle_lookup _ _ _ Hl) as (k&Hk&Hh&_). exists st. split; [|done]. unfold fs_tell.
    rewrite Hk, Hh. done.
Qed.

(** C6: No sequence of reads, writes, seeks and position queries on handles of
    files goes wrong: from a state in which every handle is inside its file
    and distinct shared handles are open on distinct files, every reachable
    state is one again, and every further operation returns.  In particular a
    position is never behind the end of its file, whichever handle the file
    grew through.  Opening and closing are not among these operations: see
    [close_breaks_other]. *)
Theorem file_ops_safe st st' : vfs_ok st → rtc op_step st st' →
  vfs_ok st' ∧ ∀ op, op_ok op st' → ∃ st'', run_op op st' = Done st''.
Proof.
  intros Hok Hsteps. assert (vfs_ok st') as Hok'.
  { induction Hsteps as [|st1 st2 st3 (op&Hop&E) _ IH]; [done|]. apply IH.
    destruct (run_op_ok op st1 Hok Hop) as (st2'&E'&Hok2). congruence. }
  split; [done|]. intros op Hop. destruct (run_op_ok op st' Hok' Hop) as (st''&E&_). by exists st''.
Qed.


(** C34: Operations on a number that no handle has report PARAM,
    directory operations on the handle of a file report IS_FILE, and reading
    or writing without the permission reports PERM, and seeking in a file with a
    mode that does not exist reports PARAM; none of them has an effect.  Lengths
    are not negative. *)
Theorem vfs_errors ec no st : 
  (lookup_handle no st = None →
    (∀ ok1 ok2, fs_close ok1 ok2 no st = Done (ECAUSE_PARAM, st) ∧ fs_dir_close ok1 ok2 no st = Done (ECAUSE_PARAM, st)) ∧
    (∀ b n, 0 <= n → fs_read ec no b n st = Done (0, ECAUSE_PARAM, b, st) ∧ fs_write ec no b n st = Done (0, ECAUSE_PARAM, st)) ∧
    (∀ off m, fs_seek no off m st = Done (0, ECAUSE_PARAM, st)) ∧ fs_tell ec no st = Done (0, ECAUSE_PARAM) ∧
    ∀ out, fs_dir_read ec out no st = Done (false, ECAUSE_PARAM, out, st)) ∧
  ∀ h, lookup_handle no st = Some h →
    (h_read h = false → ∀ b n, 0 <= n → fs_read ec no b n st = Done (0, ECAUSE_PERM, b, st)) ∧
    (h_write h = false → ∀ b n, 0 <= n → fs_write ec no b n st = Done (0, ECAUSE_PERM, st)) ∧
    (is_dir h = false → (∀ ok1 ok2, fs_dir_close ok1 ok2 no st = Done (ECAUSE_IS_FILE, st)) ∧
       ∀ out, fs_dir_read ec out no st = Done (false, ECAUSE_IS_FILE, out, st)) ∧
    (∀ v i data off, file_view st no h v i data → fs_seek no off SEEK_OTHER st = Done (offset h, ECAUSE_PARAM, st)).
Proof.
  split.
  - intros Hk%lookup_handle_None. unfold fs_close, fs_dir_close, fs_dir_read, is_dir_handle, fs_read, fs_write, fs_seek, fs_tell.
    rewrite Hk. split_and!; try done. intros b n Hn. by rewrite (proj2 (Z.ltb_ge _ _)) by lia.
  - intros h (k&Hk&Hh&_)%by_handle_lookup.
    unfold fs_dir_close, fs_dir_read, is_dir_handle, fs_read, fs_write, fs_seek. rewrite Hk, Hh. cbn [deref mbind outcome_bind].
    split_and!; [intros Hp b n Hn..|intros Hp|]; try (rewrite ?(proj2 (Z.ltb_ge _ _)) by lia; by rewrite Hp).
    intros v i data off (_&Hdir&Hview&Ho). pose proof (shared_view_length _ _ _ _ _ Hview) as (s&Hs&Hsz&_). rewrite Hs. cbn [deref mbind outcome_bind].
    rewrite Hdir. cbn [negb andb]. rewrite (proj2 (Z.ltb_ge (offset h) 0)), (proj2 (Z.ltb_ge (size (s_file s)) (offset h))) by lia.
    unfold put_handle, set_offset. rewrite list_insert_id; [by destruct st|]. by destruct h.
Qed.

(** ** Closing *)

Lemma lookup_handle_elem no st h : NoDup (fileno <$> handle_list st) →
  lookup_handle no st = Some h ↔ h ∈ handle_list st ∧ fileno h = no.
Proof.
  intros Hnd. split.
  - intros (k&_&Hh&Hn)%by_handle_lookup. split; [by eapply list_elem_of_lookup_2|done].
  - intros [Hin Hn]. destruct (lookup_handle no st) as [h'|] eqn:Hl.
    + apply by_handle_lookup in Hl as (k'&_&Hh'&Hn'). apply list_elem_of_lookup_1 in Hin as [k Hh].
      assert (k = k') as ->; [|congruence]. eapply NoDup_lookup; [exact Hnd| |]; rewrite list_lookup_fmap.
      * by rewrite Hh.
      * rewrite Hh'. simpl. congruence.
    + apply lookup_handle_None in Hl. unfold vfs_file_by_handle in Hl. rewrite find_index_None in Hl.
      apply Hl in Hin. apply Z.eqb_neq in Hin. congruence.
Qed.

(** Removing one handle from the table. *)
Lemma handle_splice_spec ok no k h st : NoDup (fileno <$> handle_list st) → (length (handle_list st) <= handle_cap st)%nat →
  handle_list st !! k = Some h → fileno h = no →
  ∃ l c, vfs_file_handle_splice ok (Some k) st = Done (set_handle_table l c st) ∧
    ∀ no', lookup_handle no' (set_handle_table l c st) = if decide (no' = no) then None else lookup_handle no' st.
Proof.
  intros Hnd Hcap Hk Hn. destruct (splice_perm _ _ _ _ Hk Hcap) as (l&E&Hl). unfold vfs_file_handle_splice. rewrite E.
  cbn [mbind outcome_bind]. eexists l, _. split; [reflexivity|]. intros no'.
  set (st' := set_handle_table l _ st).
  assert (NoDup (fileno h :: (fileno <$> handle_list st'))) as [Hni Hnd']%NoDup_cons.
  { change (NoDup (fileno <$> (h :: l))). by rewrite Hl. }
  apply option_eq. intros h'. rewrite lookup_handle_elem by done. case_decide as Hd.
  - split; [|done]. intros [Hin Hh']. exfalso. apply Hni. apply list_elem_of_fmap. exists h'. split; [congruence|done].
  - rewrite lookup_handle_elem by done. simpl. rewrite <-Hl, elem_of_cons. split; [tauto|]. intros [[-> |] ?]; [congruence|done].
Qed.

Lemma by_ptr_Some p st : p ∈ shared_list st → ∃ k, vfs_file_by_ptr p st = Some k ∧ shared_list st !! k = Some p.
Proof.
  intros Hp. unfold vfs_file_by_ptr. destruct (find_index _ 0 _) as [k|] eqn:Hk.
  - exists k. split; [done|]. apply find_index_Some in Hk as (_&x&Hx&E&_). rewrite Nat.sub_0_r in Hx.
    apply Nat.eqb_eq in E. by subst.
  - rewrite find_index_None in Hk. apply Hk in Hp. by rewrite Nat.eqb_refl in Hp.
Qed.

(** Closing the last reference: the inode loses a link, and the shared handle
    its place in the table. *)
Lemma close_shared_spec ok p s v fs i ino st : shared_mem st !! p = Some s → s_vfs s = Some v → mounts st !! v = Some fs →
  tables_ok fs → ramfs_file (s_file s) = Some i → inode_list fs !! i = Some ino → inode ino = Z.of_nat i →
  0 < links ino < 2 ^ 64 → p ∈ shared_list st → (length (shared_list st) <= shared_cap st)%nat →
  ∃ st1 st2 fs', vfs_file_close p st = Done (ECAUSE_OK, st1) ∧
    vfs_file_shared_splice ok (vfs_file_by_ptr p st1) st1 = Done st2 ∧
    handle_list st2 = handle_list st ∧ handle_cap st2 = handle_cap st ∧
    p :: shared_list st2 ≡ₚ shared_list st ∧ open_on st2 p = None ∧ mounts st2 = <[v := fs']> (mounts st) ∧
    inode_list fs' = <[i := set_links (links ino - 1) ino]> (inode_list fs) ∧
    inode_usage fs' = if decide (links ino = 1) then <[i := false]> (inode_usage fs) else inode_usage fs.
Proof.
  intros Hs Hv Hfs Ht Hf Hi Hino Hlinks Hp Hcap.
  destruct (pop_inode_refcount_spec fs i ino Ht Hi Hino Hlinks) as (fs'&E&Hl&Hu).
  unfold vfs_file_close, vfs_of, vfs_ramfs_file_close. rewrite Hs. cbn [deref mbind outcome_bind]. rewrite Hv.
  cbn [deref mbind outcome_bind]. rewrite Hfs. cbn [deref mbind outcome_bind]. rewrite Hf. cbn [deref mbind outcome_bind].
  rewrite E. cbn [mbind outcome_bind]. set (st1 := put_shared p _ (put_mount v fs' st)).
  destruct (by_ptr_Some p st1 Hp) as (k&Hk&Hlk). destruct (splice_perm (shared_cap st1) _ _ _ Hlk Hcap) as (l&E2&Hperm).
  eexists st1, (set_shared_table l _ st1), fs'. split; [reflexivity|]. split.
  { unfold vfs_file_shared_splice. rewrite Hk, E2. reflexivity. }
  split_and!; [done|done|exact Hperm| |done|done|done].
  unfold open_on. simpl. rewrite lookup_insert_eq. simpl. by rewrite Hv.
Qed.

(** Closing a handle removes exactly that handle from the table: every
    other number still denotes the handle it did.  While other references to
    the file are counted only the count drops; the last one also removes the
    shared handle from its table, marks it closed, and takes one link from the
    inode, which is freed when that was its last link. *)
Theorem fs_close_correct ok1 ok2 no h s v fs i ino st :
  NoDup (fileno <$> handle_list st) → (length (handle_list st) <= handle_cap st)%nat →
  (length (shared_list st) <= shared_cap st)%nat → lookup_handle no st = Some h → h_shared h ∈ shared_list st →
  shared_mem st !! h_shared h = Some s → s_vfs s = Some v → mounts st !! v = Some fs → tables_ok fs →
  ramfs_file (s_file s) = Some i → inode_list fs !! i = Some ino → inode ino = Z.of_nat i → 0 < links ino < 2 ^ 64 →
  0 < refcount (s_file s) < 2 ^ 64 →
  ∃ st', fs_close ok1 ok2 no st = Done (ECAUSE_OK, st') ∧
    (∀ no', lookup_handle no' st' = if decide (no' = no) then None else lookup_handle no' st) ∧
    if decide (refcount (s_file s) = 1) then
      h_shared h :: shared_list st' ≡ₚ shared_list st ∧ open_on st' (h_shared h) = None ∧
      ∃ fs', mounts st' = <[v := fs']> (mounts st) ∧
        inode_list fs' = <[i := set_links (links ino - 1) ino]> (inode_list fs) ∧
        inode_usage fs' = if decide (links ino = 1) then <[i := false]> (inode_usage fs) else inode_usage fs
    else
      shared_list st' = shared_list st ∧ mounts st' = mounts st ∧
      shared_mem st' = <[h_shared h := set_refcount (refcount (s_file s) - 1) s]> (shared_mem st).
Proof.
  intros Hnd Hcap Hscap Hl Hin Hs Hv Hfs Ht Hf Hi Hino Hlinks Hrc.
  destruct (by_handle_lookup _ _ _ Hl) as (k&Hk&Hh&Hn). unfold fs_close. rewrite Hk. unfold vfs_file_destroy_handle.
  pose proof (lookup_lt_Some _ _ _ Hh) as Hlt. rewrite (proj2 (Nat.ltb_lt _ _) Hlt). cbn [assert_or_panic mbind outcome_bind].
  rewrite Hh. cbn [deref mbind outcome_bind]. rewrite Hs. cbn [deref mbind outcome_bind].
  rewrite wrap_small by (unfold fits; lia). set (s' := set_refcount _ s). set (st0 := put_shared _ s' st).
  change (refcount (s_file s')) with (refcount (s_file s) - 1).
  destruct (decide (refcount (s_file s) = 1)) as [Hone|Hone].
  - rewrite (proj2 (Z.eqb_eq _ _)) by lia.
    destruct (close_shared_spec ok1 (h_shared h) s' v fs i ino st0) as (st1&st2&fs'&E1&E2&Hh2&Hc2&Hp2&Ho2&Hm2&Hl2&Hu2);
      [apply lookup_insert_eq|done..|].
    rewrite E1. cbn [mbind outcome_bind]. rewrite E2. cbn [mbind outcome_bind].
    destruct (handle_splice_spec ok2 no k h st2) as (l&c&E3&Hlook); [rewrite ?Hh2, ?Hc2; done..|].
    rewrite E3. cbn [mbind outcome_bind]. eexists. split_and!; [reflexivity| |exact Hp2|exact Ho2|by exists fs'].
    intros no'. rewrite Hlook. destruct (decide (no' = no)); [done|]. unfold lookup_handle, vfs_file_by_handle. by rewrite Hh2.
  - rewrite (proj2 (Z.eqb_neq _ _)) by lia. cbn [mbind outcome_bind].
    destruct (handle_splice_spec ok2 no k h st0) as (l&c&E3&Hlook); [done..|].
    rewrite E3. cbn [mbind outcome_bind]. eexists. by split_and!.
Qed.
End handles.

(** ** Instances

    A state with two handles of the file "f" of ten bytes: number 0 for
    reading and writing at its start, and number 1 for reading at offset 4. *)

#[local] Existing Instance demo_strings.
#[local] Existing Instance demo_strings_spec.
#[local] Existing Instance demo_heap.
#[local] Existing Instance demo_heap_spec.

Definition demo_paths : PathStrings := {|
  cstr_index s c := fst <$> list_find (.= c) s;
  mem_index b n c := fst <$> list_find (.= c) (take n b);
|}.
#[local] Existing Instance demo_paths.

Lemma demo_paths_spec : PathStringsSpec.
Proof. by split. Qed.
#[local] Existing Instance demo_paths_spec.

Definition opened_fs : ramfs unit := Eval vm_compute in
  match vfs_ramfs_file_open 1 (FileShared 0 0 None 0) [102] sized with Done (_, _, fs) => fs | _ => mounted end.
Definition demo_shared : vfs_file_shared := VfsShared (FileShared 2 10 (Some 2%nat) 2) 0 (Some 0%nat).
Definition handle_rw : vfs_file_handle := VfsHandle 0 true true false 0 [] 0 0.
Definition handle_ro : vfs_file_handle := VfsHandle 4 false true false 0 [] 0 1.
Definition demo_vfs : vfs_state unit :=
  VfsState [0%nat] 2 {[0%nat := demo_shared]} [handle_rw; handle_ro] 2 2 {[0%nat := opened_fs]} (Some 0%nat).

Definition demo_data : list Z := replicate 10 0.

Lemma demo_shared_view : shared_view demo_vfs 0 0 2 demo_data.
Proof.
  exists demo_shared, opened_fs, (inode_of opened_fs 2).
  split_and!; [reflexivity|reflexivity|reflexivity|solve_file_at|reflexivity|vm_compute; reflexivity].
Qed.

Lemma demo_view_rw : file_view demo_vfs 0 handle_rw 0 2 demo_data.
Proof. split_and!; [reflexivity|reflexivity|apply demo_shared_view|vm_compute; discriminate..]. Qed.

Lemma demo_view_ro : file_view demo_vfs 1 handle_ro 0 2 demo_data.
Proof. split_and!; [reflexivity|reflexivity|apply demo_shared_view|vm_compute; discriminate..]. Qed.

Lemma demo_vfs_ok : vfs_ok demo_vfs.
Proof.
  split.
  - intros no h (k&_&Hh&Hn)%by_handle_lookup _. exists 0%nat, 2%nat, demo_data. subst no.
    destruct k as [|[|k]]; simplify_eq/=; [apply demo_view_rw|apply demo_view_ro].
  - assert (∀ p x, open_on demo_vfs p = Some x → p = 0%nat) as Hp; [|by intros p p' x ->%Hp ->%Hp].
    intros p x. unfold open_on. simpl. destruct (decide (p = 0%nat)) as [-> |Hne]; [done|].
    by rewrite lookup_singleton_ne.
Qed.

Lemma file_ops_safe_witness : vfs_ok demo_vfs ∧ ∃ st', run_op (OpWrite 0 [7; 8]) demo_vfs = Done st'.
Proof.
  destruct (file_ops_safe demo_vfs demo_vfs demo_vfs_ok (rtc_refl _ _)) as [Hok Hstep]. split; [exact Hok|].
  apply Hstep. split; intros h Hh; vm_compute in Hh; injection Hh as <-; reflexivity.
Defined.


Lemma vfs_errors_witness : fs_close true true 5 demo_vfs = Done (ECAUSE_PARAM, demo_vfs) ∧
  fs_write ECAUSE_OK 1 [3] 1 demo_vfs = Done (0, ECAUSE_PERM, demo_vfs) ∧ fs_seek 0 3 SEEK_OTHER demo_vfs = Done (offset handle_rw, ECAUSE_PARAM, demo_vfs).
Proof.
  split_and!.
  - destruct (vfs_errors ECAUSE_OK 5 demo_vfs) as [H5 _]. apply (proj1 (H5 eq_refl)).
  - destruct (vfs_errors ECAUSE_OK 1 demo_vfs) as [_ H1]. apply (H1 handle_ro eq_refl); [reflexivity|lia].
  - destruct (vfs_errors ECAUSE_OK 0 demo_vfs) as [_ H1]. exact (proj2 (proj2 (proj2 (H1 handle_rw eq_refl))) _ _ _ 3 demo_view_rw).
Defined.

Lemma fs_close_correct_witness : ∃ st', fs_close true true 0 demo_vfs = Done (ECAUSE_OK, st') ∧
  lookup_handle 0 st' = None ∧ lookup_handle 1 st' = Some handle_ro ∧ shared_list st' = shared_list demo_vfs.
Proof.
  destruct (fs_close_correct true true 0 handle_rw demo_shared 0 opened_fs 2 (inode_of opened_fs 2) demo_vfs)
    as (st'&E&Hl&Hs); try reflexivity.
  - apply (bool_decide_unpack _). vm_compute. exact I.
  - simpl. lia.
  - left.
  - split; vm_compute; reflexivity.
  - split; vm_compute; reflexivity.
  - split; vm_compute; reflexivity.
  - exists st'. split_and!; [exact E|apply (Hl 0)|apply (Hl 1)|apply Hs].
Defined.

(** ** Behaviours that differ from the intent *)

(** The position does not move with a write, so two writes in a row overwrite
    each other. *)
Example writes_overwrite :
  ('(_, _, st) ← fs_write ECAUSE_OK 0 [7; 8] 2 demo_vfs;
   '(_, _, st) ← fs_write ECAUSE_OK 0 [9] 1 st;
   '(n, ec, b, _) ← fs_read ECAUSE_OK 0 [1; 1; 1] 3 st; Done (n, ec, b)) = Done (3, ECAUSE_OK, [9; 8; 0]).
Proof. vm_compute. reflexivity. Qed.

(** Without memory a write that has to grow the file fails, and still returns the
    requested length. *)
Definition no_memory : KernelHeap unit := {| heap_realloc b n h := (None, h); heap_free b h := h |}.
Example failed_write_counts :
  ('(n, ec, _) ← @fs_write _ unit no_memory ECAUSE_OK 0 (replicate 300 7) 300 demo_vfs; Done (n, ec)) = Done (300, ECAUSE_RANGE).
Proof. vm_compute. reflexivity. Qed.

(** A second handle of an open file is not counted. *)
Example second_handle_uncounted :
  ('(k, st) ← vfs_file_create_handle true true true (Some 0%nat) demo_vfs;
   Done (k, length (handle_list st), refcount ∘ s_file <$> shared_mem st !! 0%nat)) = Done (Some 2%nat, 3%nat, Some 2).
Proof. vm_compute. reflexivity. Qed.

(** So closing one of two handles that share a file closes the file, and the
    other one reads through a null pointer. *)
Definition shared_once : vfs_state unit :=
  VfsState [0%nat] 2 {[0%nat := VfsShared (FileShared 1 10 (Some 2%nat) 2) 0 (Some 0%nat)]} [handle_rw; handle_ro] 2 2
    {[0%nat := opened_fs]} (Some 0%nat).
Example close_breaks_other :
  ('(_, st) ← fs_close true true 0 shared_once; Done (lookup_handle 1 st)) = Done (Some handle_ro) ∧
  ('(_, st) ← fs_close true true 0 shared_once; fs_read ECAUSE_OK 1 [1; 1] 2 st) = Undef.
Proof. split; vm_compute; reflexivity. Qed.

(** Paths with "." and ".." or a double slash inside are canonical to the
    test: "/..", "/./a" and "/a//b". *)
Example noncanonical_accepted : fs_is_canonical_path [47; 46; 46] = Done true ∧
  fs_is_canonical_path [47; 46; 47; 97] = Done true ∧ fs_is_canonical_path [47; 97; 47; 47; 98] = Done true.
Proof. by vm_compute. Qed.
