(* ===== verification/VfsDir.v ===== *)
(** * Reading directories through handles

    [fs_dir_read] returns the entries of a directory one after the other: the
    first call converts the whole directory into the cache of the handle, and
    every call takes one record from the cache. *)

From S2P Require Import Prelude Badgelib IntRoutines Ramfs RamfsTheory RamfsCorrect Vfs VfsCorrect.

(** ** Records in the cache *)

(** The fields of a record that starts with the header of [e]. *)
Definition header (ino : ramfs_inode) (e : entry) (gap : list Z) : list Z :=
  to_bytes 8 (Z.of_nat (dirent_len e)) ++ to_bytes 8 (snd e) ++ [Z.b2z (is_directory ino)] ++ [Z.b2z (is_symlink ino)] ++
  gap ++ to_bytes 8 (Z.of_nat (length (fst e))).

Lemma header_length ino e gap : length gap = 6%nat → length (header ino e gap) = OFFSETOF_DIRENT_NAME.
Proof. intros Hg. unfold header. rewrite !length_app, !length_to_bytes, Hg. done. Qed.

Lemma user_dirent_header ino e gap pad : user_dirent ino e gap pad = header ino e gap ++ (fst e ++ [0]) ++ pad.
Proof. unfold user_dirent, header. by rewrite <-!app_assoc. Qed.

Lemma dirent_len_max e : name_ok (fst e) → (dirent_len e < 300)%nat.
Proof.
  intros [_ Hl]. unfold dirent_len, OFFSETOF_DIRENT_NAME, VFS_RAMFS_NAME_MAX in *.
  destruct (pad_size_spec (32 + length (fst e) + 1)) as [Hb _]; lia.
Qed.

Lemma header_fields ino e gap rest : entry_ok e → length gap = 6%nat →
  de_record_len (header ino e gap ++ rest) = Z.of_nat (dirent_len e) ∧
  de_inode (header ino e gap ++ rest) = signed 64 (snd e) ∧
  de_is_dir (header ino e gap ++ rest) = is_directory ino ∧
  de_name_len (header ino e gap ++ rest) = Z.of_nat (length (fst e)) ∧
  de_name (header ino e gap ++ rest) = rest.
Proof.
  intros [Hn Hi] Hg. pose proof (dirent_len_max e Hn) as Hmax. destruct Hn as [_ Hl]. unfold VFS_RAMFS_NAME_MAX in Hl.
  split_and!.
  - unfold de_record_len, header. rewrite <-app_assoc, take_app_length' by (by rewrite length_to_bytes).
    rewrite of_to_bytes by (unfold fits; lia). apply signed_range; lia.
  - unfold de_inode, header. rewrite <-!app_assoc, drop_app_length' by (by rewrite length_to_bytes).
    rewrite take_app_length' by (by rewrite length_to_bytes). by rewrite of_to_bytes.
  - unfold de_is_dir, header. rewrite <-!app_assoc. rewrite (app_assoc (to_bytes 8 _)).
    rewrite lookup_app_r by (rewrite length_app, !length_to_bytes; done).
    rewrite length_app, !length_to_bytes. simpl. by destruct (is_directory ino).
  - unfold de_name_len, header. rewrite (app_assoc (to_bytes 8 _)), (app_assoc (to_bytes 8 _ ++ _)), (app_assoc _ _ (gap ++ _)), (app_assoc _ gap).
    rewrite <-app_assoc, drop_app_length' by (rewrite !length_app, !length_to_bytes, Hg; done).
    rewrite take_app_length' by (by rewrite length_to_bytes).
    rewrite of_to_bytes by (unfold fits; lia). apply signed_range; lia.
  - unfold de_name. apply drop_app_length'. by rewrite header_length.
Qed.

Section dir.
Context `{!BadgeStrings} `{!BadgeStringsSpec} `{!KernelHeap HS} `{!KernelHeapSpec HS} `{!PathStrings} `{!PathStringsSpec}.
Implicit Types (st : vfs_state HS) (h : vfs_file_handle) (fs : ramfs HS).

(** The cache of a handle holds one record per entry. *)
Definition cached fs h (es : list entry) : Prop :=
  dir_cache_size h = Z.of_nat (length (dir_cache h)) ∧
  ∃ chunks, dir_cache h = concat chunks ∧ Forall2 (converted fs) es chunks.

Lemma chunks_length fs es chunks : Forall2 (converted fs) es chunks → length (concat chunks) = total_len es.
Proof.
  induction 1 as [|e chunk es chunks (ino&gap&pad&_&_&Hc&_) _ IH]; [done|].
  cbn [concat]. rewrite length_app, IH, Hc. done.
Qed.

Lemma total_len_app es es' : total_len (es ++ es') = (total_len es + total_len es')%nat.
Proof. unfold total_len. rewrite fmap_app. apply sum_list_with_app. Qed.

(** The record of an entry in the cache. *)
Lemma cached_split fs h es1 e es2 : cached fs h (es1 ++ e :: es2) →
  ∃ a b ino gap pad, dir_cache h = a ++ (header ino e gap ++ (fst e ++ [0]) ++ pad) ++ b ∧ length a = total_len es1 ∧
    inode_list fs !! Z.to_nat (snd e) = Some ino ∧ length gap = 6%nat ∧
    dir_cache_size h = Z.of_nat (total_len es1 + dirent_len e + total_len es2).
Proof.
  intros (Hsz&chunks&Hc&Hall). apply Forall2_app_inv_l in Hall as (c1&c2&Hc1&Hc2&->).
  apply Forall2_cons_inv_l in Hc2 as (chunk&c3&(ino&gap&pad&Hi&Hg&Hl&->)&Hc3&->).
  exists (concat c1), (concat c3), ino, gap, pad. rewrite concat_app in Hc. cbn [concat] in Hc.
  split_and!; [by rewrite <-user_dirent_header|by eapply chunks_length|done|done|].
  rewrite Hsz, Hc, !length_app, Hl. rewrite (chunks_length _ _ _ Hc1), (chunks_length _ _ _ Hc3). lia.
Qed.

(** ** One read from the cache *)

Lemma fs_read_dir ec ec1 no k h h1 rb n m st st1 : vfs_file_by_handle no st = Some k → handle_list st !! k = Some h →
  h_read h = true → is_dir h = true → 0 <= n < 2 ^ 62 →
  (if offset h =? 0 then vfs_dir_read k st else Done (ec, st)) = Done (ec1, st1) → is_ok ec1 = true →
  handle_list st1 !! k = Some h1 → 0 <= offset h1 <= dir_cache_size h1 → dir_cache_size h1 = Z.of_nat (length (dir_cache h1)) →
  dir_cache_size h1 < 2 ^ 62 → m = Z.min n (dir_cache_size h1 - offset h1) → (Z.to_nat m <= length rb)%nat →
  fs_read ec no rb n st = Done (m, ec1,
    take (Z.to_nat m) (drop (Z.to_nat (offset h1)) (dir_cache h1)) ++ drop (Z.to_nat m) rb,
    put_handle k (set_offset (offset h1 + m) h1) st1).
Proof.
  intros Hk Hh Hr Hdir Hn Ere Hec Hh1 Ho Hsz Hlim Hm Hrb. unfold fs_read. rewrite (proj2 (Z.ltb_ge _ _)) by lia.
  rewrite Hk, Hh. cbn [deref mbind outcome_bind]. rewrite Hr, Hdir. cbn [negb]. rewrite Ere. cbn [mbind outcome_bind].
  rewrite Hh1. cbn [deref mbind outcome_bind]. rewrite Hec, orb_true_r. unfold off_add. rewrite decide_True by lia.
  cbn [mbind outcome_bind]. rewrite (proj2 (Z.ltb_ge (n + offset h1) 0)) by lia. cbn [orb].
  assert ((if dir_cache_size h1 <? n + offset h1 then dir_cache_size h1 - offset h1 else n) = m) as ->.
  { destruct (Z.ltb_spec (dir_cache_size h1) (n + offset h1)); lia. }
  rewrite decide_True by lia. by rewrite mem_copy_spec by lia.
Qed.

Lemma fs_seek_dir no k h s o st : vfs_file_by_handle no st = Some k → handle_list st !! k = Some h →
  is_dir h = true → shared_mem st !! h_shared h = Some s → 0 <= o <= dir_cache_size h →
  fs_seek no o SEEK_ABS st = Done (o, ECAUSE_OK, put_handle k (set_offset o h) st).
Proof.
  intros Hk Hh Hdir Hs Ho. unfold fs_seek. rewrite Hk, Hh. cbn [deref mbind outcome_bind]. rewrite Hs.
  cbn [deref mbind outcome_bind]. rewrite Hdir. cbn [negb andb]. rewrite (proj2 (Z.ltb_ge o 0)) by lia.
  by rewrite (proj2 (Z.ltb_ge _ o)) by lia.
Qed.

(** ** Views of directories *)

(** The directory [d] of the mounted file system [v] has the entries [es],
    which refer to existing inodes and have no slash in their names. *)
Definition dir_contents st (p v d : nat) (es : list entry) fs : Prop :=
  ∃ s ino, shared_mem st !! p = Some s ∧ s_vfs s = Some v ∧ mounts st !! v = Some fs ∧
    ramfs_file (s_file s) = Some d ∧ dir_at fs d ino es ∧
    Forall (λ e, is_Some (inode_list fs !! Z.to_nat (snd e)) ∧ char_slash ∉ fst e) es ∧ Z.of_nat (total_len es) < 2 ^ 62.

(** The handle [no] is open for reading on that directory, and its cache is
    valid unless it is at the start. *)
Definition dir_view st (no : Z) h (v d : nat) (es : list entry) : Prop :=
  lookup_handle no st = Some h ∧ is_dir h = true ∧ h_read h = true ∧
  ∃ fs, dir_contents st (h_shared h) v d es fs ∧ (offset h = 0 ∨ cached fs h es).

Lemma dir_contents_ext st st' p v d es fs fs' : dir_contents st p v d es fs → shared_mem st' = shared_mem st →
  mounts st' !! v = Some fs' → inode_list fs' = inode_list fs → dir_contents st' p v d es fs'.
Proof.
  intros (s&ino&Hs&Hv&_&Hd&Hat&Hall&Hlim) Hm Hfs Hl. exists s, ino. unfold dir_at in *. rewrite Hm, Hl.
  split_and!; try done; apply Hat.
Qed.

Lemma cached_ext fs fs' h h' es : cached fs h es → inode_list fs' = inode_list fs → dir_cache h' = dir_cache h →
  dir_cache_size h' = dir_cache_size h → cached fs' h' es.
Proof.
  intros (Hsz&chunks&Hc&Hall) Hl Eb En. unfold cached. rewrite Eb, En. split; [done|]. exists chunks. split; [done|].
  eapply Forall2_impl; [exact Hall|]. intros e chunk. unfold converted. by rewrite Hl.
Qed.

(** A handle with a valid cache. *)
Definition ready st (no : Z) (k : nat) h (v d : nat) (es : list entry) fs : Prop :=
  vfs_file_by_handle no st = Some k ∧ handle_list st !! k = Some h ∧ is_dir h = true ∧ h_read h = true ∧ fileno h = no ∧
  dir_contents st (h_shared h) v d es fs ∧ cached fs h es.

(** The cache before the first bytes are taken from it: valid already, or
    filled now, or there is no memory for it. *)
Lemma reread_spec no k h v d es st : dir_view st no h v d es → vfs_file_by_handle no st = Some k →
  handle_list st !! k = Some h →
  ∃ ec1 st1, (if offset h =? 0 then vfs_dir_read k st else Done (ECAUSE_OK, st)) = Done (ec1, st1) ∧
    ((ec1 = ECAUSE_NOMEM ∧ offset h = 0 ∧ handle_list st1 = handle_list st) ∨
     ∃ h1 fs1, ec1 = ECAUSE_OK ∧ ready st1 no k h1 v d es fs1 ∧ offset h1 = offset h).
Proof.
  intros (Hl&Hdir&Hr&fs&Hcont&Hcache) Hk Hh. pose proof (by_handle_lookup _ _ _ Hl) as (k'&Hk'&Hh'&Hn). simplify_eq.
  destruct (Z.eqb_spec (offset h) 0) as [Hz|Hz].
  2: { exists ECAUSE_OK, st. split; [done|]. right. destruct Hcache as [?|Hcache]; [done|]. exists h, fs. unfold ready. by split_and!. }
  destruct Hcont as (s&ino&Hs&Hv&Hfs&Hd&Hat&Hall&Hlim). unfold vfs_dir_read, vfs_of. rewrite Hh.
  cbn [deref mbind outcome_bind]. rewrite Hs. cbn [deref mbind outcome_bind]. rewrite Hv. cbn [deref mbind outcome_bind].
  rewrite Hfs. cbn [deref mbind outcome_bind]. rewrite Hd. cbn [deref mbind outcome_bind].
  destruct (dir_read_correct fs d ino es (dir_cache h) Hat) as (ec1&r&fs1&E&Hil&_&Hres).
  { eapply Forall_impl; [exact Hall|]. by intros e [? _]. }
  rewrite E. cbn [mbind outcome_bind]. destruct r as [[b n]|]; [|by eexists _, _; split; [reflexivity|]; left].
  destruct Hres as (->&->&Hb&chunks&Hc&Hch). eexists _, _. split; [reflexivity|]. right.
  exists (set_dir_cache b (Z.of_nat (length b)) h), fs1. unfold ready. split_and!; try done.
  - rewrite <-Hk. rewrite !by_handle_numbers. f_equal. simpl. rewrite list_fmap_insert. apply list_insert_id.
    by rewrite list_lookup_fmap, Hh.
  - simpl. apply list_lookup_insert_eq. by eapply lookup_lt_Some.
  - eapply (dir_contents_ext st); [|done|simpl; by rewrite lookup_insert_eq|done]. exists s, ino. by split_and!.
  - eapply (cached_ext fs); [|done|done|done]. split; [done|]. by exists chunks.
Qed.

(** ** The entries *)

Lemma ready_view st no k h v d es fs : ready st no k h v d es fs → dir_view st no h v d es.
Proof.
  intros (Hk&Hh&Hdir&Hr&Hn&Hcont&Hc). split_and!; [|done|done|exists fs; split; [done|by right]].
  unfold lookup_handle. by rewrite Hk.
Qed.

Lemma ready_offset st no k h v d es fs o : ready st no k h v d es fs →
  ready (put_handle k (set_offset o h) st) no k (set_offset o h) v d es fs.
Proof.
  intros (Hk&Hh&Hdir&Hr&Hn&Hcont&Hc). split_and!; [| |done|done|done| |].
  - rewrite <-Hk, !by_handle_numbers. f_equal. simpl. rewrite list_fmap_insert. apply list_insert_id.
    by rewrite list_lookup_fmap, Hh.
  - simpl. apply list_lookup_insert_eq. by eapply lookup_lt_Some.
  - eapply dir_contents_ext; [exact Hcont|done| |done]. by destruct Hcont as (?&?&?&?&?&?).
  - by eapply cached_ext.
Qed.

Lemma put_handle_twice k h h' st : put_handle k h' (put_handle k h st) = put_handle k h' st.
Proof. unfold put_handle, set_handle_table. simpl. by rewrite list_insert_insert_eq. Qed.

Lemma ready_size st no k h v d es fs : ready st no k h v d es fs →
  dir_cache_size h = Z.of_nat (total_len es) ∧ dir_cache_size h = Z.of_nat (length (dir_cache h)) ∧ dir_cache_size h < 2 ^ 62.
Proof.
  intros (_&_&_&_&_&(s&ino&_&_&_&_&_&_&Hlim)&Hsz&chunks&Hc&Hall). rewrite Hsz, Hc, (chunks_length _ _ _ Hall).
  by split_and!.
Qed.

(** A read of a range of the cache that lies behind its start. *)
Lemma ready_read st no k h v d es fs rb n : ready st no k h v d es fs → 0 < offset h → 0 <= n →
  offset h + n <= dir_cache_size h → (Z.to_nat n <= length rb)%nat →
  fs_read ECAUSE_OK no rb n st = Done (n, ECAUSE_OK,
    take (Z.to_nat n) (drop (Z.to_nat (offset h)) (dir_cache h)) ++ drop (Z.to_nat n) rb,
    put_handle k (set_offset (offset h + n) h) st).
Proof.
  intros Hrd Ho Hn Hin Hrb. destruct (ready_size _ _ _ _ _ _ _ _ Hrd) as (_&Hsz&Hlim).
  destruct Hrd as (Hk&Hh&Hdir&Hr&_). eapply (fs_read_dir _ _ _ _ h h); try done; try lia.
  by rewrite (proj2 (Z.eqb_neq _ _)) by lia.
Qed.

(** The byte after the name is set to zero. *)
Lemma terminate_name (a name rest : list Z) x n : n = (length a + length name)%nat →
  <[n := 0]> (a ++ name ++ x :: rest) = a ++ name ++ 0 :: rest.
Proof.
  intros ->. rewrite (app_assoc a name), insert_app_r_alt by (rewrite length_app; lia).
  rewrite length_app, Nat.sub_diag. simpl. by rewrite <-app_assoc.
Qed.

Lemma name_ok_nonzero name : name_ok name → 0 ∉ name.
Proof. intros [Hn _] Hin. rewrite Forall_forall in Hn. apply Hn in Hin. lia. Qed.

Lemma absent_in_name (name rest : list Z) c : c ∉ name → mem_index (name ++ rest) (length name) c = None.
Proof.
  intros Hc. rewrite mem_index_spec, take_app_length by (rewrite length_app; lia).
  rewrite (proj2 (list_find_None _ _)); [done|]. apply Forall_forall. by intros x Hx ->.
Qed.

(** The part of [fs_dir_read] after the header was read: [st] is the state
    with the valid cache, and the handle stands at the record of [e]. *)
Lemma dir_entry_spec st no k h v d es1 e es2 fs ino gap a b pad out : ready st no k h v d (es1 ++ e :: es2) fs →
  dir_cache h = a ++ (header ino e gap ++ (fst e ++ [0]) ++ pad) ++ b → length a = total_len es1 → length gap = 6%nat →
  offset h = Z.of_nat (total_len es1) → length out = 256%nat →
  let st1 := put_handle k (set_offset (offset h + 32) h) st in
  let st2 := put_handle k (set_offset (offset h + 32 + Z.of_nat (length (fst e))) h) st in
  ∃ out', fs_read ECAUSE_OK no out (Z.of_nat (length (fst e))) st1 = Done (Z.of_nat (length (fst e)), ECAUSE_OK, fst e ++ out', st2) ∧
    (length (fst e) + length out' = 256)%nat ∧
    fs_seek no (offset h + Z.of_nat (dirent_len e)) SEEK_ABS st2 =
      Done (offset h + Z.of_nat (dirent_len e), ECAUSE_OK, put_handle k (set_offset (offset h + Z.of_nat (dirent_len e)) h) st).
Proof.
  intros Hrd Hc Ha Hg Ho Hout st1 st2. pose proof Hrd as (_&_&_&_&_&(s&dino&Hs&_&_&_&(_&_&[Hes _]&_)&_&_)&_).
  apply Forall_app in Hes as [_ [[Hne _] _]%Forall_cons].
  destruct (ready_size _ _ _ _ _ _ _ _ Hrd) as (Hsz&_&_). rewrite total_len_app, total_len_cons in Hsz.
  pose proof (dirent_len_bounds e Hne) as Hlen. destruct Hne as [_ Hnl]. unfold VFS_RAMFS_NAME_MAX in Hnl. exists (drop (length (fst e)) out). split_and!.
  - pose proof (ready_offset _ _ _ _ _ _ _ _ (offset h + 32) Hrd) as Hrd1.
    subst st1 st2. rewrite (ready_read _ _ _ _ _ _ _ _ out (Z.of_nat (length (fst e))) Hrd1); [|simpl; lia..].
    rewrite Nat2Z.id, put_handle_twice. simpl offset. do 3 f_equal. f_equal.
    simpl. rewrite Hc. replace (Z.to_nat (offset h + 32)) with (length a + 32)%nat by lia.
    rewrite drop_app_add. rewrite <-app_assoc. rewrite drop_app_length' by by rewrite header_length.
    rewrite <-!app_assoc. by rewrite take_app_length.
  - rewrite length_drop. lia.
  - pose proof (ready_offset _ _ _ _ _ _ _ _ (offset h + 32 + Z.of_nat (length (fst e))) Hrd) as (Hk2&Hh2&Hd2&_).
    subst st2. rewrite (fs_seek_dir _ _ _ s _ _ Hk2 Hh2 Hd2); [|done|simpl; lia]. by rewrite put_handle_twice.
Qed.

(** [out] describes the entry [e]. *)
Definition describes fs (out : list Z) (e : entry) : Prop :=
  ∃ ino rest, inode_list fs !! Z.to_nat (snd e) = Some ino ∧ de_inode out = signed 64 (snd e) ∧
    de_is_dir out = is_directory ino ∧ de_name_len out = Z.of_nat (length (fst e)) ∧ de_name out = fst e ++ 0 :: rest.

Lemma total_len_zero es : Forall entry_ok es → total_len es = 0%nat → es = [].
Proof.
  intros Hok Hz. destruct es as [|e es]; [done|]. apply Forall_cons in Hok as [[Hn _] _].
  rewrite total_len_cons in Hz. pose proof (dirent_len_bounds e Hn). lia.
Qed.

(** The first read of a call, from a valid cache. *)
Lemma first_read st no h v d es k ec1 st1 h1 fs1 out m : dir_view st no h v d es → vfs_file_by_handle no st = Some k →
  handle_list st !! k = Some h →
  (if offset h =? 0 then vfs_dir_read k st else Done (ECAUSE_OK, st)) = Done (ec1, st1) → ec1 = ECAUSE_OK →
  ready st1 no k h1 v d es fs1 → offset h1 = offset h → 0 <= offset h <= Z.of_nat (total_len es) → length out = 288%nat →
  m = Z.min 32 (Z.of_nat (total_len es) - offset h) →
  fs_read ECAUSE_OK no out 32 st = Done (m, ECAUSE_OK,
    take (Z.to_nat m) (drop (Z.to_nat (offset h)) (dir_cache h1)) ++ drop (Z.to_nat m) out,
    put_handle k (set_offset (offset h + m) h1) st1).
Proof.
  intros (_&Hdir&Hr&_) Hk Hh E -> Hrd Ho Hin Hout Hm. destruct (ready_size _ _ _ _ _ _ _ _ Hrd) as (Hsz&Hsz'&Hlim).
  pose proof Hrd as (_&Hh1&_). rewrite <-Ho.
  eapply (fs_read_dir _ _ _ _ h h1); try done; lia.
Qed.

(** A call that cannot fill the cache. *)
Lemma dir_read_nomem st no h v d es k st1 out : dir_view st no h v d es → vfs_file_by_handle no st = Some k →
  handle_list st !! k = Some h → handle_list st1 = handle_list st → offset h = 0 →
  (if offset h =? 0 then vfs_dir_read k st else Done (ECAUSE_OK, st)) = Done (ECAUSE_NOMEM, st1) →
  fs_dir_read ECAUSE_OK out no st = Done (false, ECAUSE_NOMEM, out, st1).
Proof.
  intros (_&Hdir&Hr&_) Hk Hh Hl Hz E. assert (fs_read ECAUSE_OK no out 32 st = Done (32, ECAUSE_NOMEM, out, st1)) as E1.
  { unfold fs_read. cbn [Z.ltb Z.compare]. rewrite Hk, Hh. cbn [deref mbind outcome_bind]. rewrite Hr, Hdir, E.
    cbn [negb mbind outcome_bind]. rewrite Hl, Hh. cbn [deref mbind outcome_bind]. by rewrite (proj2 (Z.eqb_eq _ _) Hz). }
  unfold fs_dir_read, is_dir_handle, fs_tell. rewrite Hk, Hh. cbn [deref mbind outcome_bind]. rewrite Hdir.
  cbn [negb mbind outcome_bind is_ok]. change (Z.of_nat OFFSETOF_DIRENT_NAME) with 32. by rewrite E1.
Qed.

(** One call, once the header of the record of [e] was read. *)
Lemma dir_read_entry st no k h st1 h1 v d es1 e es2 fs ino gap a b pad out : vfs_file_by_handle no st = Some k →
  handle_list st !! k = Some h → is_dir h = true → ready st1 no k h1 v d (es1 ++ e :: es2) fs →
  dir_cache h1 = a ++ (header ino e gap ++ (fst e ++ [0]) ++ pad) ++ b → length a = total_len es1 → length gap = 6%nat →
  entry_ok e → char_slash ∉ fst e → offset h1 = offset h → offset h = Z.of_nat (total_len es1) → length out = 288%nat →
  fs_read ECAUSE_OK no out 32 st = Done (32, ECAUSE_OK, header ino e gap ++ drop 32 out, put_handle k (set_offset (offset h + 32) h1) st1) →
  ∃ rest, fs_dir_read ECAUSE_OK out no st = Done (true, ECAUSE_OK, header ino e gap ++ fst e ++ 0 :: rest,
    put_handle k (set_offset (offset h + Z.of_nat (dirent_len e)) h1) st1).
Proof.
  intros Hk Hh Hdir Hrd Hc Ha Hg He Hslash Ho1 Ho Hout E1.
  pose proof (dirent_len_bounds e (proj1 He)) as Hlen. pose proof (dirent_len_max e (proj1 He)) as Hmax.
  destruct (ready_size _ _ _ _ _ _ _ _ Hrd) as (Hsz&_&Hlim). rewrite total_len_app in Hsz.
  destruct (proj1 He) as [_ Hnl]. unfold VFS_RAMFS_NAME_MAX in Hnl.
  destruct (dir_entry_spec st1 no k h1 v d es1 e es2 fs ino gap a b pad (drop 32 out) Hrd Hc Ha Hg)
    as (out'&E2&Hlo&E3); [lia|rewrite length_drop; lia|]. rewrite Ho1 in E2, E3.
  unfold fs_dir_read, is_dir_handle, fs_tell. rewrite Hk, Hh. cbn [deref mbind outcome_bind]. rewrite Hdir.
  cbn [negb mbind outcome_bind is_ok]. change (Z.of_nat OFFSETOF_DIRENT_NAME) with 32. rewrite E1.
  cbn [mbind outcome_bind Z.eqb Pos.eqb is_ok andb negb].
  destruct (header_fields ino e gap (drop 32 out) He Hg) as (F1&_&_&F4&F5). rewrite F1, F4, F5.
  unfold off_add. rewrite decide_True by lia. cbn [mbind outcome_bind].
  assert ((FILESYSTEM_NAME_MAX <? Z.of_nat (length (fst e))) || (Z.of_nat (dirent_len e) <? 32 + Z.of_nat (length (fst e))) = false) as ->.
  { unfold FILESYSTEM_NAME_MAX. apply orb_false_iff. rewrite !Z.ltb_ge. lia. }
  rewrite E2. cbn [mbind outcome_bind]. rewrite take_app_length' by by rewrite header_length.
  destruct (header_fields ino e gap (fst e ++ out') He Hg) as (G1&_&_&G4&_). rewrite G1, G4, Z.eqb_refl, Nat2Z.id.
  rewrite !absent_in_name by (done || by apply name_ok_nonzero, He). rewrite bool_decide_eq_true_2 by done.
  cbn [is_ok negb orb]. rewrite decide_True by lia. cbn [mbind outcome_bind]. rewrite E3. cbn [mbind outcome_bind].
  destruct out' as [|x rest]; [cbn [length] in Hlo; lia|]. exists rest.
  rewrite decide_True by (rewrite !length_app, header_length by done; cbn [length]; lia).
  by rewrite terminate_name by by rewrite header_length.
Qed.

(** C35: Reading a directory entry by entry.  At the position of the record of
    the entry [e] a call returns that entry: its inode number, whether it is a
    directory, and its name with a terminator; and it moves the handle to the
    position of the next entry of the same directory, so repeated calls return
    all entries in order.  Behind the last entry a call returns false without
    an error, and only the first call, which fills the cache, can run out of
    memory. *)
Theorem fs_dir_read_correct no h v d es1 es2 out st : dir_view st no h v d (es1 ++ es2) →
  offset h = Z.of_nat (total_len es1) → length out = 288%nat →
  ∃ ok ec' out' st', fs_dir_read ECAUSE_OK out no st = Done (ok, ec', out', st') ∧
    ((ok = false ∧ ec' = ECAUSE_NOMEM ∧ es1 = []) ∨
     ec' = ECAUSE_OK ∧
     (∃ h', dir_view st' no h' v d (es1 ++ es2) ∧ offset h' = Z.of_nat (total_len (es1 ++ take 1 es2))) ∧
     match es2 with [] => ok = false | e :: _ => ok = true ∧ ∃ fs, mounts st' !! v = Some fs ∧ describes fs out' e end).
Proof.
  intros Hview Ho Hout. pose proof Hview as (Hl&Hdir&_&fs0&(_&_&_&_&_&_&(_&_&[Hes _]&_)&Hall&_)&_).
  destruct (by_handle_lookup _ _ _ Hl) as (k&Hk&Hh&_).
  destruct (reread_spec no k h v d _ st Hview Hk Hh) as (ec1&st1&E&[(->&Hz&Hl1)|(h1&fs1&->&Hrd&Ho1)]).
  { exists false, ECAUSE_NOMEM, out, st1. split; [by apply (dir_read_nomem st no h v d (es1 ++ es2) k)|].
    left. split_and!; [done|done|]. apply total_len_zero; [by apply Forall_app in Hes as [? _]|lia]. }
  remember (Z.min 32 (Z.of_nat (total_len (es1 ++ es2)) - offset h)) as m eqn:Hm.
  pose proof (first_read st no h v d _ k _ st1 h1 fs1 out m Hview Hk Hh E eq_refl Hrd Ho1) as E1.
  rewrite total_len_app in E1. specialize (E1 ltac:(lia) Hout). rewrite <-total_len_app in E1. specialize (E1 Hm).
  destruct es2 as [|e es2].
  - rewrite app_nil_r in *. assert (m = 0) as -> by lia. eexists false, ECAUSE_OK, _, _. split.
    { unfold fs_dir_read, is_dir_handle, fs_tell. rewrite Hk, Hh. cbn [deref mbind outcome_bind]. rewrite Hdir.
      cbn [negb mbind outcome_bind is_ok]. change (Z.of_nat OFFSETOF_DIRENT_NAME) with 32. rewrite E1. reflexivity. }
    right. split_and!; [done| |done]. exists (set_offset (offset h + 0) h1).
    split; [by eapply ready_view, ready_offset|]. cbn [take offset set_offset]. rewrite app_nil_r. lia.
  - destruct (cached_split fs1 h1 es1 e es2) as (a&b&ino&gap&pad&Hc&Ha&Hi&Hg&_); [apply Hrd|].
    apply Forall_app in Hes as [_ [He _]%Forall_cons]. apply Forall_app in Hall as [_ [[_ Hslash] _]%Forall_cons].
    pose proof (dirent_len_bounds e (proj1 He)) as Hlen.
    assert (m = 32) as -> by (rewrite total_len_app, total_len_cons in Hm; lia).
    assert (take (Z.to_nat 32) (drop (Z.to_nat (offset h)) (dir_cache h1)) = header ino e gap) as Eh.
    { rewrite Hc, Ho, Nat2Z.id, <-Ha, drop_app_length, <-!app_assoc. apply take_app_length'. by rewrite header_length. }
    rewrite Eh in E1. destruct (dir_read_entry st no k h st1 h1 v d es1 e es2 fs1 ino gap a b pad out) as (rest&E2); try done.
    eexists _, _, _, _. split; [exact E2|]. right. split_and!; [done| |done|].
    + eexists. split; [by eapply ready_view, ready_offset|]. change (take 1 (e :: es2)) with [e]. cbn [offset set_offset].
      rewrite total_len_app, total_len_cons. change (total_len []) with 0%nat. lia.
    + exists fs1. split; [by destruct Hrd as (_&_&_&_&_&(?&?&?&?&?&_)&_)|].
      destruct (header_fields ino e gap (fst e ++ 0 :: rest) He Hg) as (_&G2&G3&G4&G5).
      exists ino, rest. by split_and!.
Qed.
End dir.

(** ** Instance: the root directory of a file system with one file *)

#[local] Existing Instance demo_strings.
#[local] Existing Instance demo_strings_spec.
#[local] Existing Instance demo_heap.
#[local] Existing Instance demo_heap_spec.
#[local] Existing Instance demo_paths.
#[local] Existing Instance demo_paths_spec.

Definition root_state : vfs_state unit := Eval vm_compute in
  match root_open ECAUSE_OK true true true true true (VfsState [] 0 ∅ [] 0 0 {[0%nat := with_file]} (Some 0%nat)) with
  | Done (_, _, st) => st
  | _ => VfsState [] 0 ∅ [] 0 0 ∅ None
  end.
Definition root_handle : vfs_file_handle := VfsHandle 0 false true true 0 [] 0 0.
Definition root_fs : ramfs unit := Eval vm_compute in
  match mounts root_state !! 0%nat with Some fs => fs | None => mounted end.

Lemma fs_dir_read_correct_witness : ∃ ok ec' out' st',
  fs_dir_read ECAUSE_OK (replicate 288 0) 0 root_state = Done (ok, ec', out', st') ∧
  (ok = true → ∃ fs, mounts st' !! 0%nat = Some fs ∧ describes fs out' (dot, 1)).
Proof.
  destruct (fs_dir_read_correct 0 root_handle 0 1 [] [(dot, 1); (dotdot, 1); ([102], 2)] (replicate 288 0) root_state)
    as (ok&ec'&out'&st'&E&Hres).
  - split_and!; [reflexivity|reflexivity|reflexivity|]. exists root_fs. split; [|left; reflexivity].
    eexists _, (inode_of root_fs 1). split_and!; [reflexivity|reflexivity|reflexivity|reflexivity|solve_dir_at| |vm_compute; reflexivity].
    apply (bool_decide_unpack _). vm_compute. exact I.
  - reflexivity.
  - reflexivity.
  - exists ok, ec', out', st'. split; [exact E|]. intros ->. destruct Hres as [[Hb _]|(_&_&[_ Hfs])]; [discriminate Hb|exact Hfs].
Defined.
