(* ===== verification/Containers.v ===== *)
(** * Lists and arrays of badgelib

    The kernel keeps its queues in the doubly linked lists of list.h and its
    tables in the growing arrays of arrays.h.  Both are documented interfaces
    of badgelib: the classes below state what their operations do on the
    sequence of elements, and the client components are verified against them.
    A list or an array is the Coq list of its elements. *)

From stdpp Require Import sorting.
From S2P Require Import Prelude.

(** ** Doubly linked lists *)

Class DList := {
  dlist_append {A} : list A → A → list A;
  dlist_prepend {A} : list A → A → list A;
  dlist_pop_front {A} : list A → option A * list A;
  dlist_concat {A} : list A → list A → list A * list A;      (* moves the second behind the first *)
  dlist_remove {A} `{EqDecision A} : list A → A → list A;
}.

Class DListSpec `{DList} := {
  dlist_append_spec {A} (l : list A) x : dlist_append l x = l ++ [x];
  dlist_prepend_spec {A} (l : list A) x : dlist_prepend l x = x :: l;
  dlist_pop_front_nil {A} : dlist_pop_front (A := A) [] = (None, []);
  dlist_pop_front_cons {A} (l : list A) x : dlist_pop_front (x :: l) = (Some x, l);
  dlist_concat_spec {A} (l k : list A) : dlist_concat l k = (l ++ k, []);
  dlist_remove_spec {A} `{EqDecision A} (l k : list A) x : x ∉ l → dlist_remove (l ++ x :: k) x = l ++ k;
}.

(** ** Arrays

    Insertions take a flag that tells whether there is memory for a larger
    array; an insertion may succeed without. *)

(** The comparison of the elements with a key: first those below it, then
    those equal to it, then those above. *)
Definition cmp_split {A} (cmp : A → Z) (a e b : list A) : Prop :=
  Forall (λ x, cmp x < 0) a ∧ Forall (λ x, cmp x = 0) e ∧ Forall (λ x, 0 < cmp x) b.

Class KArrays := {
  array_binsearch {A} : list A → (A → Z) → bool * nat;
  array_insert {A} : bool → list A → A → nat → bool * list A;
  array_remove {A} : list A → nat → list A;
  array_sorted_insert {A} : bool → list A → A → (A → Z) → bool * list A;
}.

Class KArraysSpec `{KArrays} := {
  array_binsearch_found {A} (a b : list A) x cmp : cmp_split cmp a [x] b → array_binsearch (a ++ x :: b) cmp = (true, length a);
  array_binsearch_absent {A} (a b : list A) cmp : cmp_split cmp a [] b → array_binsearch (a ++ b) cmp = (false, length a);
  array_insert_spec {A} m (l : list A) x i : (i <= length l)%nat →
    array_insert m l x i = (true, take i l ++ x :: drop i l) ∨ (m = false ∧ array_insert m l x i = (false, l));
  array_remove_spec {A} (l : list A) i : (i < length l)%nat → array_remove l i = delete i l;
  array_sorted_insert_spec {A} m (a e b : list A) x cmp : cmp_split cmp a e b →
    (∃ e1 e2, e = e1 ++ e2 ∧ array_sorted_insert m (a ++ e ++ b) x cmp = (true, a ++ e1 ++ x :: e2 ++ b)) ∨
    (m = false ∧ array_sorted_insert m (a ++ e ++ b) x cmp = (false, a ++ e ++ b));
}.

(** ** Tables sorted by a key *)

Section sorted.
Context {A : Type} (key : A → Z).

(** Strictly increasing keys. *)
Definition key_sorted (l : list A) : Prop := StronglySorted Z.lt (key <$> l).

Lemma key_sorted_app l k : key_sorted (l ++ k) ↔
  key_sorted l ∧ key_sorted k ∧ ∀ x y, x ∈ l → y ∈ k → key x < key y.
Proof.
  unfold key_sorted. rewrite fmap_app. induction l as [|x l IH]; simpl.
  - split; [intros ?; split_and!; [constructor|done|by intros ? ? ?%elem_of_nil]|by intros (_&?&_)].
  - split.
    + intros [Hs Hall]%StronglySorted_inv. apply IH in Hs as (Hl&Hk&Hlk). apply Forall_app in Hall as [H1 H2].
      split_and!; [by constructor|done|]. intros y z [-> |Hy]%elem_of_cons Hz; [|by apply Hlk].
      rewrite Forall_forall in H2. apply H2. by apply list_elem_of_fmap_2.
    + intros ([Hl Hall]%StronglySorted_inv&Hk&Hlk). constructor.
      * apply IH. split_and!; [done|done|]. intros y z Hy Hz. apply Hlk; [by right|done].
      * apply Forall_app. split; [done|]. rewrite Forall_forall. intros z (y&->&Hy)%list_elem_of_fmap.
        apply Hlk; [by left|done].
Qed.

Lemma key_sorted_snoc l x : key_sorted l → Forall (λ y, key y < key x) l → key_sorted (l ++ [x]).
Proof.
  intros Hl Hx. apply key_sorted_app. split_and!; [done|repeat constructor|]. intros y z Hy ->%list_elem_of_singleton.
  rewrite Forall_forall in Hx. by apply Hx.
Qed.

(** A comparison with the key [k] on the elements of [l]. *)
Definition cmp_key (cmp : A → Z) (k : Z) (l : list A) : Prop := ∀ x, x ∈ l → Z.sgn (cmp x) = Z.sgn (key x - k).

Lemma key_sorted_split cmp a x b k : key_sorted (a ++ x :: b) → cmp_key cmp k (a ++ x :: b) → key x = k → cmp_split cmp a [x] b.
Proof.
  intros (Ha&Hb&Hab)%key_sorted_app Hcmp <-. unfold key_sorted in Hb. simpl in Hb. apply StronglySorted_inv in Hb as [_ Hb].
  split_and!.
  - apply Forall_forall. intros y Hy. assert (key y < key x) by (apply Hab; [done|by left]).
    specialize (Hcmp y ltac:(set_solver)). lia.
  - constructor; [specialize (Hcmp x ltac:(set_solver)); lia|constructor].
  - rewrite Forall_fmap in Hb. rewrite Forall_forall in Hb |- *. intros y Hy. specialize (Hcmp y ltac:(set_solver)).
    specialize (Hb y Hy). simpl in Hb. lia.
Qed.

(** The place of a key that does not occur. *)
Lemma key_sorted_cut l k : key_sorted l → k ∉ key <$> l →
  ∃ a b, l = a ++ b ∧ Forall (λ x, key x < k) a ∧ Forall (λ x, k < key x) b.
Proof.
  intros Hs Hk. induction l as [|x l IH]; [by exists [], []|]. unfold key_sorted in Hs. simpl in Hs, Hk.
  apply StronglySorted_inv in Hs as [Hs Hall]. apply not_elem_of_cons in Hk as [Hne Hk].
  destruct (decide (key x < k)) as [Hlt|Hge].
  - destruct (IH Hs Hk) as (a&b&->&Ha&Hb). exists (x :: a), b. split_and!; [done|by constructor|done].
  - exists [], (x :: l). split_and!; [done|done|]. constructor; [lia|]. rewrite Forall_fmap in Hall.
    eapply Forall_impl; [exact Hall|]. intros y. simpl. lia.
Qed.

Context `{!KArrays} `{!KArraysSpec}.

(** Lookup by binary search. *)
Lemma binsearch_lookup cmp l k : key_sorted l → cmp_key cmp k l →
  match array_binsearch l cmp with
  | (true, i) => ∃ x, l !! i = Some x ∧ key x = k
  | (false, i) => (i <= length l)%nat ∧ Forall (λ x, key x < k) (take i l) ∧ Forall (λ x, k < key x) (drop i l)
  end.
Proof.
  intros Hs Hcmp. destruct (decide (k ∈ key <$> l)) as [(x&->&Hx)%list_elem_of_fmap|Hk].
  - apply list_elem_of_split in Hx as (a&b&->). rewrite (array_binsearch_found a b x) by by eapply key_sorted_split.
    exists x. by rewrite list_lookup_middle.
  - destruct (key_sorted_cut l k Hs Hk) as (a&b&->&Ha&Hb).
    rewrite (array_binsearch_absent a b).
    + rewrite length_app, take_app_length, drop_app_length. split_and!; [lia|done|done].
    + split_and!; [|constructor|]; apply Forall_forall; intros x Hx; specialize (Hcmp x ltac:(set_solver)).
      * rewrite Forall_forall in Ha. specialize (Ha x Hx). simpl in Ha. lia.
      * rewrite Forall_forall in Hb. specialize (Hb x Hx). simpl in Hb. lia.
Qed.

Lemma key_sorted_inj l x y : key_sorted l → x ∈ l → y ∈ l → key x = key y → x = y.
Proof.
  intros Hs Hx Hy E. apply list_elem_of_split in Hx as (a&b&->). apply key_sorted_app in Hs as (_&Hb&Hab).
  unfold key_sorted in Hb. simpl in Hb. apply StronglySorted_inv in Hb as [_ Hb]. rewrite Forall_fmap, Forall_forall in Hb.
  apply elem_of_app in Hy as [Hy|[->|Hy]%elem_of_cons]; [|done|].
  - assert (key y < key x) by (apply Hab; [done|by left]). lia.
  - specialize (Hb y Hy). simpl in Hb. lia.
Qed.

Lemma key_sorted_elem_delete l i x y : key_sorted l → l !! i = Some x → y ∈ delete i l ↔ y ∈ l ∧ y ≠ x.
Proof.
  intros Hs Hx. rewrite delete_take_drop. pose proof (take_drop_middle l i x Hx) as E. rewrite <-E in Hs |- * at 3.
  apply key_sorted_app in Hs as (_&Hb&Hab). unfold key_sorted in Hb. simpl in Hb. apply StronglySorted_inv in Hb as [_ Hb].
  rewrite Forall_fmap, Forall_forall in Hb. rewrite !elem_of_app, elem_of_cons. split; [|naive_solver].
  intros [Hy|Hy]; (split; [by auto|intros ->]).
  - assert (key x < key x) by (apply Hab; [done|by left]). lia.
  - specialize (Hb x Hy). simpl in Hb. lia.
Qed.

Lemma key_sorted_delete l i : key_sorted l → key_sorted (delete i l).
Proof.
  intros Hs. destruct (decide (i < length l)%nat) as [Hi|Hi]; [|rewrite delete_take_drop, drop_ge, app_nil_r, take_ge by lia; done].
  destruct (lookup_lt_is_Some_2 l i Hi) as [x Hx]. rewrite <-(take_drop_middle l i x Hx) in Hs.
  apply key_sorted_app in Hs as (Ha&Hb&Hab). unfold key_sorted in Hb. simpl in Hb. apply StronglySorted_inv in Hb as [Hb _].
  rewrite delete_take_drop. apply key_sorted_app. split_and!; [done|done|]. intros y z Hy Hz. apply Hab; [done|by right].
Qed.
End sorted.

(** ** Implementations that satisfy the interfaces *)

Definition demo_dlist : DList := {|
  dlist_append A l x := l ++ [x];
  dlist_prepend A l x := x :: l;
  dlist_pop_front A l := match l with [] => (None, []) | x :: l => (Some x, l) end;
  dlist_concat A l k := (l ++ k, []);
  dlist_remove A _ l x := match list_find (.= x) l with Some (i, _) => delete i l | None => l end;
|}.

Lemma demo_dlist_spec : @DListSpec demo_dlist.
Proof.
  split; try done. intros A EqA l k x Hx. simpl.
  assert (list_find (.= x) (l ++ x :: k) = Some (length l, x)) as ->; [|by rewrite delete_middle].
  apply list_find_Some. split_and!; [by apply list_lookup_middle|done|]. intros j y Hj Hlt ->.
  rewrite lookup_app_l in Hj by done. apply Hx. by eapply list_elem_of_lookup_2.
Qed.

Fixpoint below {A} (cmp : A → Z) (l : list A) : nat :=
  match l with [] => 0 | x :: l => if cmp x <? 0 then S (below cmp l) else 0 end.

Lemma below_split {A} (cmp : A → Z) a e b : cmp_split cmp a e b → below cmp (a ++ e ++ b) = length a.
Proof.
  intros (Ha&He&Hb). induction Ha as [|x a Hx Ha IH]; simpl.
  - destruct e as [|x e]; [destruct b as [|x b]; [done|]|]; simpl.
    + apply Forall_cons in Hb as [Hx _]. by rewrite (proj2 (Z.ltb_ge _ _)) by lia.
    + apply Forall_cons in He as [Hx _]. by rewrite (proj2 (Z.ltb_ge _ _)) by lia.
  - rewrite (proj2 (Z.ltb_lt _ _)) by done. by rewrite IH.
Qed.

Definition demo_arrays : KArrays := {|
  array_binsearch A l cmp := let n := below cmp l in
    (match l !! n with Some x => cmp x =? 0 | None => false end, n);
  array_insert A m l x i := (true, take i l ++ x :: drop i l);
  array_remove A l i := delete i l;
  array_sorted_insert A m l x cmp := let n := below cmp l in (true, take n l ++ x :: drop n l);
|}.

Lemma demo_arrays_spec : @KArraysSpec demo_arrays.
Proof.
  split.
  - intros A a b x cmp Hs. simpl. change (a ++ x :: b) with (a ++ [x] ++ b). rewrite (below_split cmp a [x] b Hs). simpl. rewrite list_lookup_middle by done.
    destruct Hs as (_&Hx&_). apply Forall_cons in Hx as [Hx _]. by rewrite Hx.
  - intros A a b cmp Hs. simpl. change (a ++ b) with (a ++ [] ++ b). rewrite (below_split cmp a [] b Hs). simpl. destruct b as [|x b].
    + rewrite app_nil_r. by rewrite lookup_ge_None_2.
    + rewrite list_lookup_middle by done. destruct Hs as (_&_&Hb). apply Forall_cons in Hb as [Hx _].
      by rewrite (proj2 (Z.eqb_neq _ _)) by lia.
  - intros A m l x i Hi. by left.
  - done.
  - intros A m a e b x cmp Hs. left. exists [], e. simpl. rewrite (below_split cmp a e b Hs).
    by rewrite take_app_length, drop_app_length.
Qed.
