(* ===== verification/Sched.v ===== *)
(** * The scheduler

    kernel/src/scheduler/scheduler.c and the functions of
    kernel/cpu/riscv/src/scheduler.c that move threads between user and kernel
    mode.  Threads are objects named by numbers ([mem]); the thread list, the
    run queues, the lists of incoming threads and the list of dead threads hold
    their names.  A CPU has its queue, its list of incoming threads, its load
    figures, the thread it runs and the target of the next context switch.

    Handlers run with interrupts disabled and access shared lists under their
    mutexes, so each is one step; a compare-and-exchange loop therefore succeeds
    in its first round.  Mutexes are not modelled except for one that is left
    locked ([run_held]).  The time is an argument. *)

From S2P Require Import Prelude Badgelib Containers.

(** ** Flags *)

Definition THREAD_RUNNING : Z := 0x001.
Definition THREAD_EXITING : Z := 0x002.
Definition THREAD_DETACHED : Z := 0x004.
Definition THREAD_KERNEL : Z := 0x008.
Definition THREAD_PRIVILEGED : Z := 0x010.
Definition THREAD_SIGHANDLER : Z := 0x020.
Definition THREAD_STARTNOW : Z := 0x040.
Definition THREAD_SUSPENDING : Z := 0x080.
Definition THREAD_KSUSPEND : Z := 0x100.
Definition THREAD_EXITED : Z := 0x200.
Definition THREAD_BLOCKED : Z := 0x400.
Definition SCHED_STARTING : Z := 1.
Definition SCHED_RUNNING : Z := 2.
Definition SCHED_EXITING : Z := 4.
Definition PROC_EXITING : Z := 0x2.
Definition PROC_SIGPEND : Z := 0x8.

Definition SCHED_MIN_US : Z := 5000.
Definition SCHED_INC_US : Z := 500.
Definition SCHED_LOAD_INTERVAL : Z := 250000.
Definition INT_MAX : Z := 2 ^ 31 - 1.

(** [flags & mask] as a condition. *)
Definition has (flags mask : Z) : bool := negb (Z.land flags mask =? 0).

(** ** Data *)

Record timeusage := TimeUsage { user_time : Z; kernel_time : Z; cycle_time : Z; cpu_usage : Z }.

(** Registers are numbered as in the architecture; number 0 is the program
    counter. *)
Definition R_PC : nat := 0.
Definition R_RA : nat := 1.
Definition R_SP : nat := 2.
Definition R_S0 : nat := 8.
Definition R_A0 : nat := 10.

Record sched_thread := Thread {
  t_process : option nat;
  kernel_stack_top : Z;
  priority : Z;
  usage : timeusage;
  t_flags : Z;
  exit_code : Z;
  kernel_regs : list Z;
  user_regs : list Z;
  t_id : Z;
}.

(** [None] as a thread is the idle thread, whose context names no thread.
    [switch_to] is the target: a thread and whether its kernel context. *)
Record sched_cpulocal := Cpu {
  incoming : list nat;
  queue : list nat;
  c_flags : Z;
  last_preempt : Z;
  load_measure_time : Z;
  load_average : Z;
  load_estimate : Z;
  idle_cycle_time : Z;
  run_held : nat;                  (* shared holds of [run_mtx] that are not released *)
  cpu_thread : option nat;
  switch_to : option nat * bool;
  preempt_time : Z;
}.

Record sched := Sched {
  cpu_ctx : list sched_cpulocal;
  mem : gmap nat sched_thread;
  threads : list nat;
  dead_threads : list nat;
  tid_counter : Z;
  running_sched_count : Z;
  proc_flags : gmap nat Z;
}.

(** ** Assignments *)

Definition set_queue l (c : sched_cpulocal) := Cpu (incoming c) l (c_flags c) (last_preempt c) (load_measure_time c) (load_average c) (load_estimate c) (idle_cycle_time c) (run_held c) (cpu_thread c) (switch_to c) (preempt_time c).
Definition set_incoming l (c : sched_cpulocal) := Cpu l (queue c) (c_flags c) (last_preempt c) (load_measure_time c) (load_average c) (load_estimate c) (idle_cycle_time c) (run_held c) (cpu_thread c) (switch_to c) (preempt_time c).
Definition set_cflags f (c : sched_cpulocal) := Cpu (incoming c) (queue c) f (last_preempt c) (load_measure_time c) (load_average c) (load_estimate c) (idle_cycle_time c) (run_held c) (cpu_thread c) (switch_to c) (preempt_time c).
Definition set_last_preempt x (c : sched_cpulocal) := Cpu (incoming c) (queue c) (c_flags c) x (load_measure_time c) (load_average c) (load_estimate c) (idle_cycle_time c) (run_held c) (cpu_thread c) (switch_to c) (preempt_time c).
Definition set_measure_time x (c : sched_cpulocal) := Cpu (incoming c) (queue c) (c_flags c) (last_preempt c) x (load_average c) (load_estimate c) (idle_cycle_time c) (run_held c) (cpu_thread c) (switch_to c) (preempt_time c).
Definition set_load avg est (c : sched_cpulocal) := Cpu (incoming c) (queue c) (c_flags c) (last_preempt c) (load_measure_time c) avg est (idle_cycle_time c) (run_held c) (cpu_thread c) (switch_to c) (preempt_time c).
Definition set_idle_cycle x (c : sched_cpulocal) := Cpu (incoming c) (queue c) (c_flags c) (last_preempt c) (load_measure_time c) (load_average c) (load_estimate c) x (run_held c) (cpu_thread c) (switch_to c) (preempt_time c).
Definition set_run_held n (c : sched_cpulocal) := Cpu (incoming c) (queue c) (c_flags c) (last_preempt c) (load_measure_time c) (load_average c) (load_estimate c) (idle_cycle_time c) n (cpu_thread c) (switch_to c) (preempt_time c).
Definition set_cpu_thread t (c : sched_cpulocal) := Cpu (incoming c) (queue c) (c_flags c) (last_preempt c) (load_measure_time c) (load_average c) (load_estimate c) (idle_cycle_time c) (run_held c) t (switch_to c) (preempt_time c).
Definition set_switch_to t (c : sched_cpulocal) := Cpu (incoming c) (queue c) (c_flags c) (last_preempt c) (load_measure_time c) (load_average c) (load_estimate c) (idle_cycle_time c) (run_held c) (cpu_thread c) t (preempt_time c).
Definition set_preempt_time x (c : sched_cpulocal) := Cpu (incoming c) (queue c) (c_flags c) (last_preempt c) (load_measure_time c) (load_average c) (load_estimate c) (idle_cycle_time c) (run_held c) (cpu_thread c) (switch_to c) x.

Definition set_tflags f (t : sched_thread) := Thread (t_process t) (kernel_stack_top t) (priority t) (usage t) f (exit_code t) (kernel_regs t) (user_regs t) (t_id t).
Definition set_usage u (t : sched_thread) := Thread (t_process t) (kernel_stack_top t) (priority t) u (t_flags t) (exit_code t) (kernel_regs t) (user_regs t) (t_id t).
Definition set_exit_code x (t : sched_thread) := Thread (t_process t) (kernel_stack_top t) (priority t) (usage t) (t_flags t) x (kernel_regs t) (user_regs t) (t_id t).
Definition set_kernel_regs r (t : sched_thread) := Thread (t_process t) (kernel_stack_top t) (priority t) (usage t) (t_flags t) (exit_code t) r (user_regs t) (t_id t).
Definition set_user_regs r (t : sched_thread) := Thread (t_process t) (kernel_stack_top t) (priority t) (usage t) (t_flags t) (exit_code t) (kernel_regs t) r (t_id t).

Definition put_cpu i c (s : sched) := Sched (<[i := c]> (cpu_ctx s)) (mem s) (threads s) (dead_threads s) (tid_counter s) (running_sched_count s) (proc_flags s).
Definition put_thread p t (s : sched) := Sched (cpu_ctx s) (<[p := t]> (mem s)) (threads s) (dead_threads s) (tid_counter s) (running_sched_count s) (proc_flags s).
Definition set_mem m (s : sched) := Sched (cpu_ctx s) m (threads s) (dead_threads s) (tid_counter s) (running_sched_count s) (proc_flags s).
Definition set_threads l (s : sched) := Sched (cpu_ctx s) (mem s) l (dead_threads s) (tid_counter s) (running_sched_count s) (proc_flags s).
Definition set_dead l (s : sched) := Sched (cpu_ctx s) (mem s) (threads s) l (tid_counter s) (running_sched_count s) (proc_flags s).
Definition set_tid_counter n (s : sched) := Sched (cpu_ctx s) (mem s) (threads s) (dead_threads s) n (running_sched_count s) (proc_flags s).
Definition set_running_count n (s : sched) := Sched (cpu_ctx s) (mem s) (threads s) (dead_threads s) (tid_counter s) n (proc_flags s).
Definition set_proc_flags m (s : sched) := Sched (cpu_ctx s) (mem s) (threads s) (dead_threads s) (tid_counter s) (running_sched_count s) m.

Definition get_cpu (i : nat) (s : sched) : outcome sched_cpulocal := deref (cpu_ctx s !! i).
Definition get_thread (p : nat) (s : sched) : outcome sched_thread := deref (mem s !! p).

Definition is_running (f : Z) : bool := has f SCHED_RUNNING && negb (has f SCHED_EXITING).

Section sched.
Context `{!DList} `{!KArrays}.
(** The addresses of [proc_signal_handler] and of [sched_exit_self]. *)
Context (signal_handler exit_self : Z).
Implicit Types s : sched.

(** ** User and kernel mode *)

(** [used] is accounted to the time in user or kernel mode. *)
Definition account (kernel : bool) (used : Z) (u : timeusage) : timeusage :=
  TimeUsage (if kernel then user_time u else user_time u + used) (if kernel then kernel_time u + used else kernel_time u)
    (cycle_time u + used) (cpu_usage u).

Definition sched_raise_from_isr (now : Z) (cpu p : nat) (syscall : bool) (entry_point : Z) s : outcome sched :=
  t ← get_thread p s;
  _ ← assert_or_panic (negb (has (t_flags t) THREAD_KERNEL) && negb (has (t_flags t) THREAD_PRIVILEGED));
  let regs := <[R_RA := 0]> (<[R_S0 := 0]> (<[R_SP := kernel_stack_top t]> (<[R_PC := entry_point]> (kernel_regs t)))) in
  let regs := if syscall then take R_A0 regs ++ take 8 (drop R_A0 (user_regs t)) ++ drop (R_A0 + 8) regs else regs in
  info ← get_cpu cpu s;
  let used := now - last_preempt info in
  let t := set_usage (account false used (usage t)) (set_kernel_regs regs (set_tflags (Z.lor (t_flags t) THREAD_PRIVILEGED) t)) in
  Done (put_cpu cpu (set_switch_to (Some p, true) (set_last_preempt now info)) (put_thread p t s)).

(** ** Context switches *)

Definition sched_current_thread (cpu : nat) s : outcome (option nat) := info ← get_cpu cpu s; Done (cpu_thread info).

(** The dispatch of the interrupt return. *)
Definition isr_context_switch (cpu : nat) s : outcome sched :=
  info ← get_cpu cpu s; Done (put_cpu cpu (set_cpu_thread (fst (switch_to info)) info) s).

(** Flags, priority and process flags of a thread, or of the idle thread. *)
Definition switch_info (thread : option nat) s : outcome (Z * Z * Z) :=
  match thread with
  | None => Done (THREAD_PRIVILEGED, 0, 0)
  | Some p =>
      t ← get_thread p s;
      pflags ← match t_process t with None => Done 0 | Some q => deref (proc_flags s !! q) end;
      Done (t_flags t, priority t, pflags)
  end.

(** The flags are read before the thread is raised. *)
Definition set_switch (now : Z) (cpu : nat) (thread : option nat) s : outcome sched :=
  '(tflags, prio, pflags) ← switch_info thread s;
  s ← (if negb (has tflags (Z.lor THREAD_PRIVILEGED THREAD_SIGHANDLER)) && has pflags PROC_SIGPEND then
         p ← deref thread; sched_raise_from_isr now cpu p false signal_handler s
       else Done s);
  info ← get_cpu cpu s;
  let timeout := now + SCHED_MIN_US + SCHED_INC_US * prio in
  let timeout := if load_measure_time info <? timeout then load_measure_time info else timeout in
  let info := set_preempt_time timeout (set_last_preempt now (set_switch_to (thread, has tflags THREAD_PRIVILEGED) info)) in
  Done (put_cpu cpu info s).

(** ** Handing threads over *)

Definition thread_dequeue_self (cpu : nat) s : outcome (nat * sched) :=
  info ← get_cpu cpu s;
  self ← deref (cpu_thread info);
  Done (self, put_cpu cpu (set_queue (dlist_remove (queue info) self) info) s).

(** When the CPU does not run the mutex stays locked; otherwise the result
    tells whether the CPU runs, not whether the thread was handed over. *)
Definition thread_handoff (p cpu : nat) (force : bool) (max_load : Z) s : outcome (bool * sched) :=
  info ← get_cpu cpu s;
  if negb force && negb (is_running (c_flags info)) then
    Done (false, put_cpu cpu (set_run_held (S (run_held info)) info) s)
  else
    t ← get_thread p s;
    let next := load_estimate info + cpu_usage (usage t) in
    let has_space := force || negb (max_load <? next) in
    let info := if has_space then set_load (load_average info) next info else info in
    let info := if force || has_space then set_incoming (dlist_append (incoming info) p) info else info in
    Done (is_running (c_flags info), put_cpu cpu info s).

(** The round robin over the other CPUs; it does not end when none runs. *)
Fixpoint handover_one (fuel : nat) (cur p cpu : nat) s : outcome (nat * sched) :=
  match fuel with
  | O => Fuel
  | S fuel =>
      let cpu := ((cpu + 1) mod length (cpu_ctx s))%nat in
      if decide (cpu = cur) then handover_one fuel cur p cpu s else
      '(ok, s) ← thread_handoff p cpu false INT_MAX s;
      if (ok : bool) then Done (cpu, s) else handover_one fuel cur p cpu s
  end.

Fixpoint handover_all (fuel : nat) (cur cpu : nat) s : outcome sched :=
  match fuel with
  | O => Fuel
  | S fuel =>
      info ← get_cpu cur s;
      match dlist_pop_front (queue info) with
      | (None, _) => Done s
      | (Some p, q) =>
          '(cpu, s) ← handover_one (S (2 * length (cpu_ctx s))) cur p cpu (put_cpu cur (set_queue q info) s);
          handover_all fuel cur cpu s
      end
  end.

(** [smp_poweroff] of kernel/cpu/riscv/src/smp.c. *)
Definition smp_poweroff : bool := false.

(** The exclusive acquisition of [run_mtx] waits forever for holds that are
    never released. *)
Definition sw_handle_sched_flags (cur : nat) (sched_fl : Z) s : outcome sched :=
  info ← get_cpu cur s;
  if negb (has sched_fl (Z.lor SCHED_RUNNING SCHED_STARTING)) then
    Done (put_cpu cur (set_cflags (Z.lor (c_flags info) SCHED_STARTING) info) s)
  else if has sched_fl SCHED_STARTING then
    Done (set_running_count (running_sched_count s + 1)
      (put_cpu cur (set_cflags (Z.lxor (c_flags info) (Z.lor SCHED_RUNNING SCHED_STARTING)) info) s))
  else if has sched_fl SCHED_EXITING then
    if decide (run_held info ≠ 0%nat) then Fuel else
    let info := set_cflags (Z.ldiff (c_flags info) (Z.lor SCHED_RUNNING SCHED_EXITING)) (set_load 0 0 info) in
    let '(q, inc) := dlist_concat (queue info) (incoming info) in
    let s := set_running_count (running_sched_count s - 1) (put_cpu cur (set_incoming inc (set_queue q info)) s) in
    s ← handover_all (S (length q)) cur 0 s;
    _ ← assert_or_panic smp_poweroff;
    Done s
  else Done s.

(** ** Load *)

Fixpoint used_time (q : list nat) s : outcome Z :=
  match q with
  | [] => Done 0
  | p :: q => t ← get_thread p s; n ← used_time q s; Done (cycle_time (usage t) + n)
  end.

(** Accounts the shares; division by zero is undefined. *)
Fixpoint account_load (q : list nat) (total_time total_load : Z) s : outcome (Z * sched) :=
  match q with
  | [] => Done (total_load, s)
  | p :: q =>
      t ← get_thread p s;
      _ ← (if total_time =? 0 then Undef else Done ());
      let cpu_permil := signed 32 (Z.quot (cycle_time (usage t) * 10000) total_time) in
      let u := TimeUsage (user_time (usage t)) (kernel_time (usage t)) 0 cpu_permil in
      account_load q total_time (total_load + cpu_permil) (put_thread p (set_usage u t) s)
  end.

Definition sw_measure_load (cur : nat) s : outcome sched :=
  info ← get_cpu cur s;
  used ← used_time (queue info) s;
  let total_time := used + idle_cycle_time info in
  '(total_load, s) ← account_load (queue info) total_time 0 (put_cpu cur (set_idle_cycle 0 info) s);
  info ← get_cpu cur s;
  Done (put_cpu cur (set_load total_load total_load info) s).

(** The first CPU that takes the thread. *)
Fixpoint offer (cpus : list nat) (cur p : nat) (max_load : Z) s : outcome (bool * sched) :=
  match cpus with
  | [] => Done (false, s)
  | cpu :: cpus =>
      if decide (cpu = cur) then offer cpus cur p max_load s else
      '(ok, s) ← thread_handoff p cpu false max_load s;
      if (ok : bool) then Done (true, s) else offer cpus cur p max_load s
  end.

(** [i < info->queue.len], where handing a thread over shortens the queue. *)
Fixpoint balance_loop (fuel i cur : nat) (max_load : Z) s : outcome sched :=
  match fuel with
  | O => Fuel
  | S fuel =>
      info ← get_cpu cur s;
      if decide (i < length (queue info))%nat then
        let '(p, q) := dlist_pop_front (queue info) in
        p ← deref p;
        '(ok, s) ← offer (seq 0 (length (cpu_ctx s))) cur p max_load (put_cpu cur (set_queue q info) s);
        s ← (if (ok : bool) then Done s
             else info ← get_cpu cur s; Done (put_cpu cur (set_queue (dlist_append (queue info) p) info) s));
        balance_loop fuel (S i) cur max_load s
      else Done s
  end.

(** Starts when all running CPUs have measured their load. *)
Definition sw_handle_loadbalance (cur : nat) s : outcome sched :=
  info ← get_cpu cur s;
  _ ← (if running_sched_count s =? 0 then Undef else Done ());
  let global := Z.quot (foldr (λ c n, load_average c + n) 0 (cpu_ctx s)) (running_sched_count s) in
  if load_average info <=? global then Done s
  else balance_loop (S (length (queue info))) 0 cur global s.

(** ** Choosing the next thread *)

Definition next_measurement (now : Z) : Z := now + SCHED_LOAD_INTERVAL - Z.rem now SCHED_LOAD_INTERVAL.

Definition account_current (now : Z) (cur : nat) s : outcome sched :=
  info ← get_cpu cur s;
  match cpu_thread info with
  | None => Done s
  | Some p =>
      t ← get_thread p s;
      Done (put_thread p (set_usage (account (has (t_flags t) THREAD_PRIVILEGED) (now - last_preempt info) (usage t)) t) s)
  end.

Definition check_load (now : Z) (cur : nat) s : outcome sched :=
  info ← get_cpu cur s;
  if load_measure_time info <=? now then
    s ← sw_measure_load cur s;
    s ← sw_handle_loadbalance cur s;
    info ← get_cpu cur s;
    Done (put_cpu cur (set_measure_time (next_measurement now) info) s)
  else Done s.

Fixpoint accept_incoming (fuel cur : nat) s : outcome sched :=
  match fuel with
  | O => Fuel
  | S fuel =>
      info ← get_cpu cur s;
      match dlist_pop_front (incoming info) with
      | (None, _) => Done s
      | (Some p, inc) =>
          t ← get_thread p s;
          _ ← assert_or_panic (has (t_flags t) THREAD_RUNNING);
          let q := if has (t_flags t) THREAD_STARTNOW then dlist_prepend (queue info) p else dlist_append (queue info) p in
          accept_incoming fuel cur (put_cpu cur (set_queue q (set_incoming inc info)) s)
      end
  end.

Definition may_suspend (flags : Z) : bool :=
  (has flags THREAD_KSUSPEND || negb (has flags THREAD_PRIVILEGED)) && has flags THREAD_SUSPENDING.

(** Each round takes a thread out of the queue, or returns. *)
Fixpoint pick_thread (fuel : nat) (now : Z) (cur : nat) s : outcome sched :=
  match fuel with
  | O => Fuel
  | S fuel =>
      info ← get_cpu cur s;
      match dlist_pop_front (queue info) with
      | (None, _) => set_switch now cur None s
      | (Some p, q) =>
          let s := put_cpu cur (set_queue q info) s in
          t ← get_thread p s;
          let flags := t_flags t in
          pflags ← match t_process t with None => Done 0 | Some r => deref (proc_flags s !! r) end;
          if has flags THREAD_EXITING || (has pflags PROC_EXITING && negb (has flags THREAD_PRIVILEGED)) then
            let flags := Z.ldiff (Z.lor flags THREAD_EXITED) (Z.lor THREAD_RUNNING THREAD_EXITING) in
            let s := put_thread p (set_tflags flags t) s in
            pick_thread fuel now cur (set_dead (dlist_append (dead_threads s) p) s)
          else if may_suspend flags then
            let flags := Z.ldiff flags (Z.lor THREAD_RUNNING (Z.lor THREAD_KSUSPEND THREAD_SUSPENDING)) in
            pick_thread fuel now cur (put_thread p (set_tflags flags t) s)
          else
            _ ← assert_or_panic (has flags THREAD_RUNNING);
            set_switch now cur (Some p) (put_cpu cur (set_queue (dlist_append q p) info) s)
      end
  end.

Definition sched_request_switch_from_isr (now : Z) (cur : nat) s : outcome sched :=
  info ← get_cpu cur s;
  s ← (if c_flags info =? SCHED_RUNNING then Done s else sw_handle_sched_flags cur (c_flags info) s);
  s ← account_current now cur s;
  s ← check_load now cur s;
  info ← get_cpu cur s;
  s ← accept_incoming (S (length (incoming info))) cur s;
  info ← get_cpu cur s;
  pick_thread (S (length (queue info))) now cur s.

(** The request and the dispatch, as a timer interrupt or [thread_yield]
    perform them. *)
Definition thread_yield (now : Z) (cur : nat) s : outcome sched :=
  s ← sched_request_switch_from_isr now cur s;
  isr_context_switch cur s.

Definition sched_lower_from_isr (now : Z) (cur : nat) s : outcome sched :=
  info ← get_cpu cur s;
  p ← deref (cpu_thread info);
  t ← get_thread p s;
  _ ← assert_or_panic (negb (has (t_flags t) THREAD_KERNEL) && has (t_flags t) THREAD_PRIVILEGED);
  let used := now - last_preempt info in
  let t' := set_usage (account true used (usage t)) (set_tflags (Z.ldiff (t_flags t) THREAD_PRIVILEGED) t) in
  let s := put_cpu cur (set_switch_to (Some p, false) (set_last_preempt now info)) (put_thread p t' s) in
  r ← deref (t_process t);
  pflags ← deref (proc_flags s !! r);
  if has pflags PROC_EXITING then sched_request_switch_from_isr now cur s else Done s.

(** ** Threads *)

Definition tid_int_cmp s (tid : Z) (p : nat) : Z := match mem s !! p with Some t => signed 32 (t_id t - tid) | None => 0 end.

Definition find_thread (tid : Z) s : option nat :=
  let '(found, i) := array_binsearch (threads s) (tid_int_cmp s tid) in
  if (found : bool) then threads s !! i else None.

Definition sched_get_thread (tid : Z) s : option nat := find_thread tid s.

(** The detached ones among the dead threads. *)
Fixpoint collect_dead (l : list nat) (tmp : list nat) s : outcome (list nat * sched) :=
  match l with
  | [] => Done (tmp, s)
  | p :: l =>
      t ← get_thread p s;
      if has (t_flags t) THREAD_DETACHED then
        collect_dead l (dlist_append tmp p) (set_dead (dlist_remove (dead_threads s) p) s)
      else collect_dead l tmp s
  end.

(** Removes the threads from the list and frees them. *)
Fixpoint free_dead (fuel : nat) (tmp : list nat) s : outcome sched :=
  match fuel with
  | O => Fuel
  | S fuel =>
      match dlist_pop_front tmp with
      | (None, _) => Done s
      | (Some p, tmp) =>
          t ← get_thread p s;
          let '(found, i) := array_binsearch (threads s) (tid_int_cmp s (t_id t)) in
          _ ← assert_or_panic found;
          let s := set_threads (array_remove (threads s) i) s in
          free_dead fuel tmp (set_mem (delete p (mem s)) s)
      end
  end.

Definition sched_housekeeping s : outcome sched :=
  '(tmp, s) ← collect_dead (dead_threads s) [] s;
  free_dead (S (length tmp)) tmp s.

(** A zeroed thread. *)
Definition zero_regs : list Z := replicate 32 0.

Definition sched_prepare_kernel_entry (entry_point arg gp : Z) (t : sched_thread) : sched_thread :=
  set_kernel_regs (<[3%nat := gp]> (<[R_RA := exit_self]> (<[R_A0 := arg]> (<[R_SP := kernel_stack_top t]> (<[R_PC := entry_point]> zero_regs))))) t.

Definition sched_prepare_user_entry (entry_point arg gp : Z) (t : sched_thread) : sched_thread :=
  set_user_regs (<[R_A0 := arg]> (<[R_PC := entry_point]> zero_regs))
    (set_kernel_regs (<[3%nat := gp]> (<[R_SP := kernel_stack_top t]> zero_regs)) t).

(** The end of both creating functions.  [mem_ok] tells for the thread, its
    stack and its name whether there is memory, [grow] for the list. *)
Definition insert_thread (mem_ok grow : bool) (make : Z → sched_thread) s : Z * badge_cause * sched :=
  if mem_ok then
    let t := make (tid_counter s) in
    let p := fresh (dom (mem s)) in
    let s := set_tid_counter (signed 32 (tid_counter s + 1)) s in
    let '(ok, l) := array_insert grow (threads s) p (length (threads s)) in
    if (ok : bool) then (t_id t, ECAUSE_OK, set_threads l (put_thread p t s)) else (0, ECAUSE_NOMEM, s)
  else (0, ECAUSE_NOMEM, s).

Definition thread_new_user (mem_ok grow : bool) (process : nat) (stack_top entrypoint arg gp prio : Z) s : Z * badge_cause * sched :=
  insert_thread mem_ok grow (λ tid, sched_prepare_user_entry entrypoint arg gp
    (Thread (Some process) stack_top prio (TimeUsage 0 0 0 0) 0 0 zero_regs zero_regs tid)) s.

Definition thread_new_kernel (mem_ok grow : bool) (stack_top entrypoint arg gp prio : Z) s : Z * badge_cause * sched :=
  insert_thread mem_ok grow (λ tid, sched_prepare_kernel_entry entrypoint arg gp
    (Thread None stack_top prio (TimeUsage 0 0 0 0) (Z.lor THREAD_PRIVILEGED THREAD_KERNEL) 0 zero_regs zero_regs tid)) s.

Definition thread_detach (tid : Z) s : outcome (badge_cause * sched) :=
  match find_thread tid s with
  | None => Done (ECAUSE_NOTFOUND, s)
  | Some p => t ← get_thread p s; Done (ECAUSE_OK, put_thread p (set_tflags (Z.lor (t_flags t) THREAD_DETACHED) t) s)
  end.

(** A thread that suspends itself in kernel mode yields. *)
Definition thread_suspend (now : Z) (cur : nat) (tid : Z) (suspend_kernel : bool) s : outcome (badge_cause * sched) :=
  self ← sched_current_thread cur s;
  p0 ← deref self;
  t0 ← get_thread p0 s;
  let is_self := tid =? t_id t0 in
  let thread := if is_self then Some p0 else find_thread tid s in
  '(ec, s) ←
    match thread with
    | None => Done (ECAUSE_NOTFOUND, s)
    | Some p =>
        t ← get_thread p s;
        if has (t_flags t) THREAD_KERNEL && negb suspend_kernel then Done (ECAUSE_ILLEGAL, s) else
        let setfl := THREAD_SUSPENDING + Z.b2z suspend_kernel * THREAD_KSUSPEND in
        Done (ECAUSE_OK, if has (t_flags t) THREAD_RUNNING then put_thread p (set_tflags (Z.lor (t_flags t) setfl) t) s else s)
    end;
  if is_self && suspend_kernel then s ← thread_yield now cur s; Done (ec, s) else Done (ec, s).

Definition thread_try_mark_running (p : nat) (now : bool) s : outcome (bool * sched) :=
  t ← get_thread p s;
  if has (t_flags t) (Z.lor THREAD_EXITED (Z.lor THREAD_EXITING THREAD_RUNNING)) then Done (false, s) else
  let nextval := Z.ldiff (Z.lor (t_flags t) THREAD_RUNNING) THREAD_SUSPENDING in
  let nextval := if now then Z.lor nextval THREAD_STARTNOW else nextval in
  Done (true, put_thread p (set_tflags nextval t) s).

Definition thread_resume_impl (cur : nat) (tid : Z) (now : bool) s : outcome (badge_cause * sched) :=
  match find_thread tid s with
  | None => Done (ECAUSE_NOTFOUND, s)
  | Some p =>
      '(ok, s) ← thread_try_mark_running p now s;
      s ← (if (ok : bool) then '(_, s) ← thread_handoff p cur true 0 s; Done s else Done s);
      Done (ECAUSE_OK, s)
  end.

Definition thread_resume (cur : nat) (tid : Z) s := thread_resume_impl cur tid false s.
Definition thread_resume_now (cur : nat) (tid : Z) s := thread_resume_impl cur tid true s.

Definition thread_is_running (tid : Z) s : outcome (bool * badge_cause) :=
  match find_thread tid s with
  | None => Done (false, ECAUSE_NOTFOUND)
  | Some p => t ← get_thread p s; Done (has (t_flags t) THREAD_RUNNING, ECAUSE_OK)
  end.

Definition thread_exit (now : Z) (cur : nat) (code : Z) s : outcome sched :=
  self ← sched_current_thread cur s;
  p ← deref self;
  t ← get_thread p s;
  thread_yield now cur (put_thread p (set_tflags (Z.lor (t_flags t) THREAD_EXITING) (set_exit_code code t)) s).

(** One round of the loop: whether it returns. *)
Definition thread_join_poll (tid : Z) s : outcome (bool * sched) :=
  match find_thread tid s with
  | None => Done (true, s)
  | Some p =>
      t ← get_thread p s;
      if has (t_flags t) THREAD_EXITED then Done (true, put_thread p (set_tflags (Z.lor (t_flags t) THREAD_DETACHED) t) s)
      else Done (false, s)
  end.

(** What waiting for a mutex and being notified do to the scheduler. *)
Definition mutex_block (now : Z) (cur : nat) s : outcome sched :=
  '(self, s) ← thread_dequeue_self cur s;
  t ← get_thread self s;
  thread_yield now cur (put_thread self (set_tflags (Z.lor (t_flags t) THREAD_BLOCKED) t) s).

Definition mutex_unblock (cur p : nat) s : outcome sched :=
  t ← get_thread p s;
  let s := put_thread p (set_tflags (Z.ldiff (t_flags t) THREAD_BLOCKED) t) s in
  if has (t_flags t) THREAD_BLOCKED then '(_, s) ← thread_handoff p cur true 0 s; Done s else Done s.

(** ** CPUs *)

Definition init_cpu : sched_cpulocal := Cpu [] [] 0 0 0 0 0 0 0 None (None, true) 0.

(** Before the first switch on a CPU. *)
Definition sched_exec (now : Z) (cur : nat) s : outcome sched :=
  info ← get_cpu cur s;
  thread_yield now cur (put_cpu cur (set_cflags 0 (set_measure_time (next_measurement now) (set_load 0 0 info))) s).

Definition sched_exit (cpu : nat) s : outcome sched :=
  info ← get_cpu cpu s; Done (put_cpu cpu (set_cflags (Z.lor (c_flags info) SCHED_EXITING) info) s).
End sched.

Definition sched_init (smp_count : nat) : sched := Sched (replicate smp_count init_cpu) ∅ [] [] 1 0 ∅.
