(* ===== verification/SchedTheory.v ===== *)
(** * Scheduler: queues and threads

    The invariant of the scheduler on a machine with one CPU, and what each
    part of a context switch does to it.  The invariant reads of a thread only
    its flags, its number and its process (the [core]), so that changes of
    the time accounting and of registers keep it by definition. *)

From S2P Require Import Prelude Badgelib Containers Sched.

(** ** Flags *)

Lemma has_lor f m m' : has (Z.lor f m) m' = has f m' || has m m'.
Proof.
  unfold has. rewrite Z.land_lor_distr_l, <-negb_andb. f_equal.
  destruct (Z.eqb_spec (Z.land f m') 0) as [->|Hf]; [by rewrite Z.lor_0_l|].
  apply Z.eqb_neq. intros [? _]%Z.lor_eq_0_iff. done.
Qed.

Lemma has_bit f k : 0 <= k → has f (2 ^ k) = Z.testbit f k.
Proof.
  intros Hk. unfold has. destruct (Z.testbit f k) eqn:Hb.
  - apply negb_true_iff, Z.eqb_neq. intros E. apply (f_equal (λ x, Z.testbit x k)) in E.
    by rewrite Z.land_spec, Hb, Z.pow2_bits_true, Z.bits_0 in E.
  - apply negb_false_iff, Z.eqb_eq, Z.bits_inj'. intros n Hn. rewrite Z.land_spec, Z.bits_0.
    rewrite Z.pow2_bits_eqb by done. destruct (Z.eqb_spec k n) as [->|]; [by rewrite Hb|by rewrite andb_false_r].
Qed.

Lemma has_ldiff f m m' k : 0 <= k → m' = 2 ^ k → has (Z.ldiff f m) m' = has f m' && negb (has m m').
Proof. intros Hk ->. by rewrite !has_bit, Z.ldiff_spec by done. Qed.

(** Tests of constants. *)
Ltac eval_flags :=
  repeat match goal with
  | |- context [has ?a ?b] =>
      let v := eval vm_compute in (has a b) in
      lazymatch v with true => change (has a b) with true | false => change (has a b) with false end
  end.

(** Evaluates tests of flags that were set or cleared. *)
Ltac simpl_flags :=
  repeat first
    [ rewrite has_lor
    | match goal with |- context [has (Z.ldiff ?f ?m) ?m'] =>
        rewrite (has_ldiff f m m' (Z.log2 m')) by (vm_compute; first [reflexivity | discriminate]) end ];
  eval_flags.

(** ** The invariant *)

(** What the invariant reads of a thread. *)
Definition core : Type := Z * Z * option nat.
Definition core_of (t : sched_thread) : core := (t_flags t, t_id t, t_process t).
Definition k_flags (k : core) : Z := fst (fst k).
Definition k_id (k : core) : Z := snd (fst k).
Definition k_process (k : core) : option nat := snd k.

(** Threads that take part in scheduling, and threads that have ended. *)
Definition runnable (k : core) : bool := has (k_flags k) THREAD_RUNNING && negb (has (k_flags k) THREAD_BLOCKED).
Definition exited (k : core) : bool := has (k_flags k) THREAD_EXITED.

Definition holds (P : core → bool) (m : gmap nat core) (p : nat) : Prop := ∃ k, m !! p = Some k ∧ P k = true.

(** A thread is queued once exactly if it is runnable, and among the dead
    threads once exactly if it has exited. *)
Definition lists_ok (q inc dead : list nat) (m : gmap nat core) : Prop :=
  NoDup (q ++ inc ++ dead) ∧ (∀ p, p ∈ q ++ inc ↔ holds runnable m p) ∧ (∀ p, p ∈ dead ↔ holds exited m p).

Definition tid_of (m : gmap nat core) (p : nat) : Z := match m !! p with Some k => k_id k | None => 0 end.

(** Kernel threads are privileged; a thread that waits for a mutex is marked
    as running. *)
Definition core_ok (k : core) : Prop :=
  (has (k_flags k) THREAD_KERNEL = true → has (k_flags k) THREAD_PRIVILEGED = true) ∧
  (has (k_flags k) THREAD_BLOCKED = true → has (k_flags k) THREAD_RUNNING = true ∧ exited k = false).

(** The thread list holds all threads in the order of their numbers. *)
Definition table_ok (l : list nat) (counter : Z) (procs : gmap nat Z) (m : gmap nat core) : Prop :=
  key_sorted (tid_of m) l ∧ (∀ p, p ∈ l ↔ is_Some (m !! p)) ∧
  ∀ p k, m !! p = Some k → 0 < k_id k < counter ∧ (∀ r, k_process k = Some r → is_Some (procs !! r)) ∧
    core_ok k.

(** The CPU before its scheduler runs, after the first switch, and from the
    second switch on. *)
Definition phase (flags count : Z) : Prop :=
  flags = 0 ∧ count = 0 ∨ flags = SCHED_STARTING ∧ count = 0 ∨ flags = SCHED_RUNNING ∧ count = 1.

Definition cores (s : sched) : gmap nat core := core_of <$> mem s.

Record sched_inv0 (c : sched_cpulocal) (s : sched) : Prop := {
  inv_cpu : cpu_ctx s = [c];
  inv_phase : phase (c_flags c) (running_sched_count s);
  inv_lists : lists_ok (queue c) (incoming c) (dead_threads s) (cores s);
  inv_counter : 0 < tid_counter s <= INT_MAX;
  inv_table : table_ok (threads s) (tid_counter s) (proc_flags s) (cores s);
}.

(** ** Changes of one thread *)

Lemma holds_insert P m p k p' : holds P (<[p := k]> m) p' ↔ if decide (p' = p) then P k = true else holds P m p'.
Proof.
  unfold holds. case_decide as Hd; [subst|].
  - rewrite lookup_insert_eq. naive_solver.
  - by rewrite lookup_insert_ne by done.
Qed.

Lemma lists_ok_change q inc dead m p k q' inc' dead' : lists_ok q inc dead m → NoDup (q' ++ inc' ++ dead') →
  (∀ p', p' ≠ p → p' ∈ q' ++ inc' ↔ p' ∈ q ++ inc) → (∀ p', p' ≠ p → p' ∈ dead' ↔ p' ∈ dead) →
  (p ∈ q' ++ inc' ↔ runnable k = true) → (p ∈ dead' ↔ exited k = true) → lists_ok q' inc' dead' (<[p := k]> m).
Proof.
  intros (_&Hq&Hd) Hnd Hq' Hd' Hpq Hpd. split_and!; [done| |]; intros p'; rewrite holds_insert; case_decide as Hp; subst.
  - done.
  - by rewrite Hq'.
  - done.
  - by rewrite Hd'.
Qed.

Lemma lists_ok_same q inc dead m p k k' : lists_ok q inc dead m → m !! p = Some k → runnable k' = runnable k →
  exited k' = exited k → lists_ok q inc dead (<[p := k']> m).
Proof.
  intros (Hnd&Hq&Hd) Hp Hr He. apply (lists_ok_change q inc dead); try done.
  - rewrite Hq, Hr. unfold holds. naive_solver.
  - rewrite Hd, He. unfold holds. naive_solver.
Qed.

Lemma lists_ok_perm q inc dead m q' inc' : lists_ok q inc dead m → q' ++ inc' ≡ₚ q ++ inc → lists_ok q' inc' dead m.
Proof.
  intros (Hnd&Hq&Hd) Hp. split_and!; [|intros p; by rewrite Hp|done].
  rewrite app_assoc, Hp, <-app_assoc. done.
Qed.

Lemma table_ok_change l n procs m p k k' : table_ok l n procs m → m !! p = Some k → k_id k' = k_id k →
  k_process k' = k_process k → core_ok k' →
  table_ok l n procs (<[p := k']> m).
Proof.
  intros (Hs&Hl&Hk) Hp Hid Hpr Hkp. split_and!.
  - unfold key_sorted. replace (tid_of (<[p := k']> m) <$> l) with (tid_of m <$> l); [done|].
    apply list_fmap_ext. intros i p' _. unfold tid_of. destruct (decide (p' = p)) as [->|].
    + by rewrite lookup_insert_eq, Hp.
    + by rewrite lookup_insert_ne.
  - intros p'. rewrite Hl. destruct (decide (p' = p)) as [->|]; [by rewrite lookup_insert_eq, Hp|by rewrite lookup_insert_ne].
  - intros p' k0 Hk0. destruct (decide (p' = p)) as [->|].
    + rewrite lookup_insert_eq in Hk0. injection Hk0 as <-. rewrite Hid, Hpr. split_and!; [apply (Hk _ _ Hp)..|done].
    + rewrite lookup_insert_ne in Hk0 by done. by apply Hk in Hk0.
Qed.

(** Setting flags other than those for a kernel thread or a waiting one. *)
Lemma core_ok_lor k m : core_ok k → has m THREAD_KERNEL = false → has m THREAD_BLOCKED = false → has m THREAD_EXITED = false →
  core_ok (Z.lor (k_flags k) m, k_id k, k_process k).
Proof.
  intros [Hk Hb] Hm1 Hm2 Hm3. unfold core_ok, exited, k_flags in *. cbn [fst snd]. rewrite !has_lor, Hm1, Hm2, Hm3, !orb_false_r.
  split; [intros E; by rewrite Hk|intros E]. destruct (Hb E) as [-> ->]. done.
Qed.

Lemma cores_put p t s : cores (put_thread p t s) = <[p := core_of t]> (cores s).
Proof. unfold cores. simpl. apply fmap_insert. Qed.

Lemma cores_lookup p s t : mem s !! p = Some t → cores s !! p = Some (core_of t).
Proof. intros Hp. unfold cores. by rewrite lookup_fmap, Hp. Qed.

Lemma cores_lookup_inv p s k : cores s !! p = Some k → ∃ t, mem s !! p = Some t ∧ k = core_of t.
Proof. unfold cores. rewrite lookup_fmap. intros (t&Ht&->)%fmap_Some. by exists t. Qed.

(** Changes outside the core. *)
Lemma cores_same p t t' s : mem s !! p = Some t → core_of t' = core_of t → cores (put_thread p t' s) = cores s.
Proof. intros Hp E. rewrite cores_put, E. apply insert_id. by apply cores_lookup. Qed.

(** ** The parts of a context switch *)

(** Two states that differ in time accounting, load figures and registers. *)
Record same_cpu (c c' : sched_cpulocal) : Prop := {
  same_queue : queue c' = queue c;
  same_incoming : incoming c' = incoming c;
  same_flags : c_flags c' = c_flags c;
  same_thread : cpu_thread c' = cpu_thread c;
}.

Record same_rest (s s' : sched) : Prop := {
  same_threads : threads s' = threads s;
  same_dead : dead_threads s' = dead_threads s;
  same_counter : tid_counter s' = tid_counter s;
  same_count : running_sched_count s' = running_sched_count s;
  same_procs : proc_flags s' = proc_flags s;
}.

(** What a switch leaves alone. *)
Record same_timing (c c' : sched_cpulocal) : Prop := {
  timing_measure : load_measure_time c' = load_measure_time c;
  timing_flags : c_flags c' = c_flags c;
}.

#[global] Instance same_cpu_refl : Reflexive same_cpu.
Proof. by split. Qed.
#[global] Instance same_cpu_trans : Transitive same_cpu.
Proof. intros c1 c2 c3 [] []. split; congruence. Qed.
#[global] Instance same_rest_refl : Reflexive same_rest.
Proof. by split. Qed.
#[global] Instance same_rest_trans : Transitive same_rest.
Proof. intros s1 s2 s3 [] []. split; congruence. Qed.

Lemma inv0_same c s c' s' : sched_inv0 c s → same_cpu c c' → same_rest s s' → cpu_ctx s' = [c'] → cores s' = cores s →
  sched_inv0 c' s'.
Proof.
  intros [] [] [] Hc Hm. split; [done|by rewrite same_flags0, same_count0| |congruence|].
  - by rewrite same_queue0, same_incoming0, same_dead0, Hm.
  - by rewrite same_threads0, same_counter0, same_procs0, Hm.
Qed.

Lemma get_cpu_one c s : cpu_ctx s = [c] → get_cpu 0 s = Done c.
Proof. intros E. unfold get_cpu. by rewrite E. Qed.

Lemma put_cpu_one c c' s : cpu_ctx s = [c] → cpu_ctx (put_cpu 0 c' s) = [c'].
Proof. intros E. simpl. by rewrite E. Qed.

Lemma get_thread_core p k s : cores s !! p = Some k → ∃ t, get_thread p s = Done t ∧ mem s !! p = Some t ∧ core_of t = k.
Proof. intros (t&Ht&->)%cores_lookup_inv. exists t. unfold get_thread. by rewrite Ht. Qed.

Lemma queued_thread q inc dead m p : lists_ok q inc dead m → p ∈ q ++ inc → ∃ k, m !! p = Some k ∧ runnable k = true.
Proof. intros (_&Hq&_) Hp. by apply Hq in Hp. Qed.

Section switch.
Context `{!DList} `{!DListSpec} `{!KArrays} `{!KArraysSpec} (signal_handler : Z).
Implicit Types (c : sched_cpulocal) (s : sched).

(** The time accounted to a thread since the last measurement. *)
Definition cycles (now : Z) c s (p : nat) : Z :=
  match mem s !! p with
  | Some t => cycle_time (usage t) + (if decide (cpu_thread c = Some p) then now - last_preempt c else 0)
  | None => 0
  end.

Lemma account_current_spec now c s : cpu_ctx s = [c] → (∀ p, cpu_thread c = Some p → is_Some (mem s !! p)) →
  ∃ s', account_current now 0 s = Done s' ∧ cpu_ctx s' = [c] ∧ cores s' = cores s ∧ same_rest s s' ∧
    ∀ p t, mem s' !! p = Some t → cycle_time (usage t) = cycles now c s p.
Proof.
  intros Hc Hp. unfold account_current, cycles. rewrite (get_cpu_one c s Hc). cbn [mbind outcome_bind].
  destruct (cpu_thread c) as [p|].
  - destruct (Hp p eq_refl) as [t Ht]. unfold get_thread. rewrite Ht. cbn [deref mbind outcome_bind]. eexists.
    split_and!; [reflexivity|done|by apply cores_same with t|by split|]. simpl. intros p' t'. destruct (decide (p' = p)) as [->|].
    + rewrite lookup_insert_eq, Ht, decide_True by done. by intros [= <-].
    + rewrite lookup_insert_ne by done. intros ->. rewrite decide_False by congruence. lia.
  - exists s. split_and!; try done. intros p t ->. rewrite decide_False by done. lia.
Qed.

Lemma used_time_spec (f : nat → Z) q s : (∀ p, p ∈ q → is_Some (mem s !! p)) →
  (∀ p t, mem s !! p = Some t → cycle_time (usage t) = f p) → used_time q s = Done (foldr (λ p n, f p + n) 0 q).
Proof.
  intros Hq Hf. induction q as [|p q IH]; cbn [used_time foldr]; [done|].
  destruct (Hq p) as [t Ht]; [by left|]. unfold get_thread. rewrite Ht. cbn [deref mbind outcome_bind].
  rewrite IH by (intros p' ?; apply Hq; by right). cbn [mbind outcome_bind]. by rewrite (Hf p t Ht).
Qed.

Lemma account_load_spec q total : ∀ load s, (∀ p, p ∈ q → is_Some (mem s !! p)) → (q = [] ∨ total ≠ 0) →
  ∃ load' s', account_load q total load s = Done (load', s') ∧ cpu_ctx s' = cpu_ctx s ∧ cores s' = cores s ∧ same_rest s s'.
Proof.
  induction q as [|p q IH]; intros load s Hq Ht; cbn [account_load]; [by eexists _, _|].
  destruct Ht as [?|Ht]; [done|]. destruct (Hq p) as [t Hp]; [by left|].
  unfold get_thread. rewrite Hp. cbn [deref mbind outcome_bind]. rewrite (proj2 (Z.eqb_neq _ _)) by done.
  cbn [mbind outcome_bind]. set (s1 := put_thread p _ s).
  destruct (IH (load + signed 32 (Z.quot (cycle_time (usage t) * 10000) total)) s1) as (load'&s'&E&Hc&Hm&Hr).
  - intros p' Hp'. simpl. destruct (decide (p' = p)) as [->|]; [by rewrite lookup_insert_eq|].
    rewrite lookup_insert_ne by done. apply Hq. by right.
  - by right.
  - exists load', s'. rewrite E. split_and!; [done|done| |etransitivity; [|exact Hr]; by split].
    rewrite Hm. by apply cores_same with t.
Qed.

(** When a load measurement is due and threads are queued, some time was
    accounted since the last one. *)
Definition total_time (now : Z) c s : Z := foldr (λ p n, cycles now c s p + n) 0 (queue c) + idle_cycle_time c.
Definition measurable (now : Z) c s : Prop := load_measure_time c <= now → queue c = [] ∨ total_time now c s ≠ 0.

Lemma check_load_spec now c s s1 : sched_inv0 c s1 → (running_sched_count s1 = 1 ∨ now < load_measure_time c) →
  (∀ p t, mem s1 !! p = Some t → cycle_time (usage t) = cycles now c s p) → measurable now c s →
  ∃ c' s', check_load now 0 s1 = Done s' ∧ same_cpu c c' ∧ cpu_ctx s' = [c'] ∧ cores s' = cores s1 ∧ same_rest s1 s' ∧
    (now < load_measure_time c → c' = c ∧ s' = s1).
Proof.
  intros [Hc _ Hl _ Ht] Hn Hcy Hm. unfold check_load. rewrite (get_cpu_one c s1 Hc).
  cbn [mbind outcome_bind]. destruct (Z.leb_spec (load_measure_time c) now) as [Hle|Hlt]; [|by exists c, s1].
  destruct Hn as [Hn|]; [|lia]. assert (∀ p, p ∈ queue c → is_Some (mem s1 !! p)) as Hq.
  { intros p Hp. destruct (queued_thread _ _ _ _ p Hl) as (k&Hk&_); [apply elem_of_app; by left|].
    apply cores_lookup_inv in Hk as (t&->&_). done. }
  pose proof (used_time_spec _ (queue c) s1 Hq Hcy) as En. set (n := foldr _ 0 (queue c)) in En.
  assert (queue c = [] ∨ n + idle_cycle_time c ≠ 0) as Hz by by apply Hm.
  unfold sw_measure_load. rewrite (get_cpu_one c s1 Hc). cbn [mbind outcome_bind]. rewrite En. cbn [mbind outcome_bind].
  destruct (account_load_spec (queue c) (n + idle_cycle_time c) 0 (put_cpu 0 (set_idle_cycle 0 c) s1))
    as (load&s2&E2&Hc2&Hm2&Hr2); [done|done|]. rewrite E2. cbn [mbind outcome_bind].
  rewrite (put_cpu_one c) in Hc2 by done. rewrite (get_cpu_one _ _ Hc2). cbn [mbind outcome_bind].
  set (c2 := set_load load load (set_idle_cycle 0 c)). set (s3 := put_cpu 0 c2 s2).
  assert (cpu_ctx s3 = [c2]) as Hc3 by by apply (put_cpu_one (set_idle_cycle 0 c)).
  assert (running_sched_count s3 = 1) as Hn3 by (destruct Hr2; simpl in *; congruence).
  unfold sw_handle_loadbalance. rewrite (get_cpu_one _ _ Hc3). cbn [mbind outcome_bind]. rewrite Hn3. cbn [Z.eqb].
  cbn [mbind outcome_bind]. rewrite Hc3. cbn [foldr]. rewrite Z.quot_1_r, Z.add_0_r, Z.leb_refl. cbn [mbind outcome_bind].
  rewrite (get_cpu_one _ _ Hc3). cbn [mbind outcome_bind]. exists (set_measure_time (next_measurement now) c2). eexists.
  split_and!; [reflexivity| | | | |lia].
  - by split.
  - by apply (put_cpu_one c2).
  - done.
  - destruct Hr2. by split.
Qed.

(** The queue with the incoming threads. *)
Fixpoint enqueue (m : gmap nat core) (q inc : list nat) : list nat :=
  match inc with
  | [] => q
  | p :: inc =>
      let now := match m !! p with Some k => has (k_flags k) THREAD_STARTNOW | None => false end in
      enqueue m (if now then p :: q else q ++ [p]) inc
  end.

Lemma enqueue_perm m inc : ∀ q, enqueue m q inc ≡ₚ q ++ inc.
Proof.
  induction inc as [|p inc IH]; intros q; cbn [enqueue]; [by rewrite app_nil_r|]. rewrite IH.
  case_match; cbn [app]; [by rewrite <-Permutation_middle|by rewrite <-app_assoc].
Qed.

(** Incoming threads move to the run queue. *)
Lemma accept_incoming_spec fuel : ∀ c s, sched_inv0 c s → (length (incoming c) < fuel)%nat →
  ∃ c' s', accept_incoming fuel 0 s = Done s' ∧ sched_inv0 c' s' ∧ incoming c' = [] ∧ queue c' = enqueue (cores s) (queue c) (incoming c) ∧
    cpu_thread c' = cpu_thread c ∧ same_timing c c' ∧ mem s' = mem s ∧ same_rest s s'.
Proof.
  induction fuel as [|fuel IH]; intros c s Hinv Hf; [lia|]. cbn [accept_incoming].
  pose proof (inv_cpu _ _ Hinv) as Hc. rewrite (get_cpu_one c s Hc). cbn [mbind outcome_bind].
  destruct (incoming c) as [|p inc] eqn:Hi.
  { rewrite dlist_pop_front_nil. exists c, s. by split_and!. }
  rewrite dlist_pop_front_cons. pose proof (inv_lists _ _ Hinv) as Hl.
  destruct (queued_thread _ _ _ _ p Hl) as (k&Hk&Hrun); [rewrite Hi; set_solver|].
  destruct (get_thread_core _ _ _ Hk) as (t&Et&_&<-). rewrite Et. cbn [mbind outcome_bind].
  apply andb_prop in Hrun as [Hrun _]. change (has (t_flags t) THREAD_RUNNING = true) in Hrun. rewrite Hrun.
  cbn [assert_or_panic mbind outcome_bind].
  set (q := if has (t_flags t) THREAD_STARTNOW then _ else _). set (c1 := set_queue q (set_incoming inc c)).
  assert (q ≡ₚ p :: queue c) as Hq.
  { unfold q. rewrite dlist_prepend_spec, dlist_append_spec. destruct (has (t_flags t) THREAD_STARTNOW); [reflexivity|].
    rewrite (Permutation_app_comm (queue c) [p]). reflexivity. }
  destruct (IH c1 (put_cpu 0 c1 s)) as (c'&s'&E&Hinv'&Hin'&Hq'&Hp'&Hm'&Hmem&Hr).
  - destruct Hinv. split; try done; [by apply (put_cpu_one c)|]. simpl.
    apply (lists_ok_perm (queue c) (incoming c)); [done|]. rewrite Hi, Hq. by rewrite <-Permutation_middle.
  - simpl in *. lia.
  - exists c', s'. rewrite E. split_and!; try done.
    + rewrite Hq'. cbn [enqueue]. rewrite Hk. cbn [queue incoming c1 set_queue set_incoming].
      change (cores (put_cpu 0 c1 s)) with (cores s). f_equal. unfold q. rewrite dlist_prepend_spec, dlist_append_spec. done.
    + destruct Hm'. by split.
    + etransitivity; [|exact Hr]. by split.
Qed.

Definition privileged (k : core) : core := (Z.lor (k_flags k) THREAD_PRIVILEGED, k_id k, k_process k).

(** The flags of a thread may gain [THREAD_PRIVILEGED]; nothing else changes. *)
Definition raised (m m' : gmap nat core) : Prop :=
  ∀ p, m' !! p = m !! p ∨ ∃ k, m !! p = Some k ∧ m' !! p = Some (privileged k).

Lemma raised_refl m : raised m m.
Proof. intros p. by left. Qed.

Lemma process_flags p t s l n : table_ok l n (proc_flags s) (cores s) → mem s !! p = Some t →
  ∃ f, match t_process t with None => Done 0 | Some q => deref (proc_flags s !! q) end = Done f.
Proof.
  intros (_&_&Hk) Hp. destruct (t_process t) as [q|] eqn:Hq; [|by eexists].
  destruct (Hk _ _ (cores_lookup _ _ _ Hp)) as (_&Hpr&_). destruct (Hpr q Hq) as [f ->]. by exists f.
Qed.

Lemma unprivileged_user l n procs m p k : table_ok l n procs m → m !! p = Some k →
  has (k_flags k) THREAD_PRIVILEGED = false → has (k_flags k) THREAD_KERNEL = false.
Proof.
  intros (_&_&Hall) Hk Hp. destruct (has (k_flags k) THREAD_KERNEL) eqn:Hker; [|done].
  destruct (Hall p _ Hk) as (_&_&Hok&_). apply Hok in Hker. congruence.
Qed.

(** Entering the kernel. *)
Lemma sched_raise_spec now c s p t syscall entry : sched_inv0 c s → mem s !! p = Some t →
  has (t_flags t) THREAD_PRIVILEGED = false →
  ∃ s', sched_raise_from_isr now 0 p syscall entry s = Done s' ∧
    sched_inv0 (set_switch_to (Some p, true) (set_last_preempt now c)) s' ∧ same_rest s s' ∧ raised (cores s) (cores s').
Proof.
  intros Hinv Ht Hp. pose proof (unprivileged_user _ _ _ _ _ _ (inv_table _ _ Hinv) (cores_lookup _ _ _ Ht) Hp) as Hk.
  change (has (t_flags t) THREAD_KERNEL = false) in Hk. destruct Hinv as [Hc Hfl Hl Hcnt Htab].
  unfold sched_raise_from_isr, get_thread. rewrite Ht. cbn [deref mbind outcome_bind]. rewrite Hk, Hp.
  cbn [negb andb assert_or_panic mbind outcome_bind]. rewrite (get_cpu_one c s Hc). cbn [mbind outcome_bind].
  set (t1 := set_usage _ _). set (c1 := set_switch_to _ _). set (s1 := put_cpu 0 c1 _).
  assert (cores s1 = <[p := (Z.lor (t_flags t) THREAD_PRIVILEGED, t_id t, t_process t)]> (cores s)) as Hm by apply (cores_put p t1 s).
  exists s1. split_and!; [done| |by split|].
  - split; [by apply (put_cpu_one c)|done| |done|]; rewrite Hm.
    + apply (lists_ok_same _ _ _ _ _ (core_of t)); [done|by apply cores_lookup| |];
        unfold runnable, exited, k_flags, core_of; cbn [fst snd]; simpl_flags; by rewrite ?orb_false_r.
    + apply (table_ok_change _ _ _ _ _ (core_of t)); [done|by apply cores_lookup|done|done|].
      apply (core_ok_lor (core_of t)); [apply (proj2 (proj2 Htab) p _ (cores_lookup _ _ _ Ht))|done..].
  - intros p'. rewrite Hm. destruct (decide (p' = p)) as [->|].
    + right. exists (core_of t). rewrite lookup_insert_eq. split; [by apply cores_lookup|done].
    + left. by rewrite lookup_insert_ne.
Qed.

Lemma has_comm f m : has f m = has m f.
Proof. unfold has. by rewrite Z.land_comm. Qed.

Lemma has_lor_r f m m' : has f (Z.lor m m') = has f m || has f m'.
Proof. rewrite !(has_comm f). apply has_lor. Qed.

Lemma set_switch_spec now c s thread : sched_inv0 c s → (∀ p, thread = Some p → is_Some (mem s !! p)) →
  ∃ c' s', set_switch signal_handler now 0 thread s = Done s' ∧ sched_inv0 c' s' ∧ queue c' = queue c ∧
    incoming c' = incoming c ∧ fst (switch_to c') = thread ∧ same_timing c c' ∧ same_rest s s' ∧
    raised (cores s) (cores s').
Proof.
  intros Hinv Hthr. pose proof (inv_cpu _ _ Hinv) as Hc.
  assert (∃ f prio pf, switch_info thread s = Done (f, prio, pf) ∧ ((thread = None ∧ f = THREAD_PRIVILEGED) ∨
    ∃ p t, thread = Some p ∧ mem s !! p = Some t ∧ f = t_flags t)) as (f&prio&pf&E&Hf).
  { destruct thread as [p|]; [|by eexists _, _, _; split; [reflexivity|left]]. destruct (Hthr p eq_refl) as [t Ht].
    cbn [switch_info]. unfold get_thread. rewrite Ht. cbn [deref mbind outcome_bind].
    destruct (process_flags p t s _ _ (inv_table _ _ Hinv) Ht) as [pf Ef]. rewrite Ef. cbn [mbind outcome_bind].
    eexists _, _, _. split; [reflexivity|]. right. by exists p, t. }
  unfold set_switch. rewrite E. cbn [mbind outcome_bind].
  set (m := if _ && _ then _ else _).
  assert (∃ c1 s1, m = Done s1 ∧ sched_inv0 c1 s1 ∧ same_cpu c c1 ∧ same_timing c c1 ∧
    same_rest s s1 ∧ raised (cores s) (cores s1)) as (c1&s1&->&Hinv1&Hcc&Hlm&Hr1&Hra).
  { unfold m. destruct (negb _ && has pf PROC_SIGPEND) eqn:Hraise; [|by exists c, s; split_and!; try done; apply raised_refl].
    apply andb_prop in Hraise as [Hn _]. rewrite has_lor_r in Hn. apply negb_true_iff, orb_false_iff in Hn as [Hn _].
    destruct Hf as [[-> ->]|(p&t&->&Ht&->)]; [by vm_compute in Hn|]. cbn [deref mbind outcome_bind].
    destruct (sched_raise_spec now c s p t false signal_handler Hinv Ht Hn) as (s1&E1&Hinv1&Hr1&Hra).
    eexists _, s1. split_and!; [done|exact Hinv1|by split|by split|done|done]. }
  cbn [mbind outcome_bind]. rewrite (get_cpu_one c1 s1) by apply Hinv1. cbn [mbind outcome_bind].
  set (c2 := set_preempt_time _ _). exists c2. eexists. split_and!; [reflexivity| | | |done|destruct Hlm; by split|destruct Hr1; by split|done].
  - eapply (inv0_same c1 s1); [done|by split|by split|by apply (put_cpu_one c1), Hinv1|done].
  - apply Hcc.
  - apply Hcc.
Qed.

(** ** Choosing the next thread *)

(** What happens to a thread at the head of the queue: it ends, it is parked,
    or it runs. *)
Inductive verdict := Ends | Parks | Runs.

Definition process_exiting (procs : gmap nat Z) (k : core) : bool :=
  match k_process k with Some r => has (default 0 (procs !! r)) PROC_EXITING | None => false end.

Definition verdict_of (procs : gmap nat Z) (k : core) : verdict :=
  if has (k_flags k) THREAD_EXITING || (process_exiting procs k && negb (has (k_flags k) THREAD_PRIVILEGED)) then Ends
  else if may_suspend (k_flags k) then Parks else Runs.

Definition ended (k : core) : core :=
  (Z.ldiff (Z.lor (k_flags k) THREAD_EXITED) (Z.lor THREAD_RUNNING THREAD_EXITING), k_id k, k_process k).
Definition parked (k : core) : core :=
  (Z.ldiff (k_flags k) (Z.lor THREAD_RUNNING (Z.lor THREAD_KSUSPEND THREAD_SUSPENDING)), k_id k, k_process k).

(** The reference: the first thread of the queue that may run moves to its end. *)
Fixpoint select (procs : gmap nat Z) (q dead : list nat) (m : gmap nat core) : option nat * list nat * list nat * gmap nat core :=
  match q with
  | [] => (None, [], dead, m)
  | p :: q =>
      match m !! p with
      | None => (None, q, dead, m)
      | Some k =>
          match verdict_of procs k with
          | Ends => select procs q (dead ++ [p]) (<[p := ended k]> m)
          | Parks => select procs q dead (<[p := parked k]> m)
          | Runs => (Some p, q ++ [p], dead, m)
          end
      end
  end.

Lemma ended_state k : runnable (ended k) = false ∧ exited (ended k) = true.
Proof.
  unfold runnable, exited, ended, k_flags. cbn [fst snd]. simpl_flags. rewrite !andb_false_r, !orb_true_r. done.
Qed.

Lemma parked_state k : runnable (parked k) = false ∧ exited (parked k) = exited k.
Proof.
  unfold runnable, exited, parked, k_flags. cbn [fst snd]. simpl_flags. rewrite !andb_false_r, !andb_true_r. done.
Qed.

Lemma ended_ok k : core_ok k → runnable k = true → core_ok (ended k).
Proof.
  intros [Hk Hb] Hr. apply andb_prop in Hr as [_ Hr%negb_true_iff]. unfold core_ok, ended, exited, k_flags in *. cbn [fst snd].
  simpl_flags. rewrite Hr. rewrite !andb_true_r, !orb_false_r. by split.
Qed.

Lemma parked_ok k : core_ok k → runnable k = true → core_ok (parked k).
Proof.
  intros [Hk Hb] Hr. apply andb_prop in Hr as [_ Hr%negb_true_iff]. unfold core_ok, parked, exited, k_flags in *. cbn [fst snd].
  simpl_flags. rewrite Hr. rewrite !andb_true_r. by split.
Qed.

Lemma lists_ok_end p q dead m k : lists_ok (p :: q) [] dead m → m !! p = Some k → lists_ok q [] (dead ++ [p]) (<[p := ended k]> m).
Proof.
  intros Hl Hk. pose proof Hl as (Hnd&_&_). rewrite app_nil_l in Hnd. cbn [app] in Hnd.
  apply NoDup_cons in Hnd as [Hp Hnd]. apply not_elem_of_app in Hp as [Hpq Hpd]. destruct (ended_state k) as [Hr He].
  apply (lists_ok_change (p :: q) [] dead); [done| | | | |].
  - rewrite app_nil_l, app_assoc, Permutation_app_comm. cbn [app]. constructor; [set_solver|done].
  - intros p' Hp'. rewrite !app_nil_r. set_solver.
  - set_solver.
  - rewrite Hr, app_nil_r. naive_solver.
  - rewrite He. set_solver.
Qed.

Lemma lists_ok_park p q dead m k : lists_ok (p :: q) [] dead m → m !! p = Some k → lists_ok q [] dead (<[p := parked k]> m).
Proof.
  intros Hl Hk. pose proof Hl as (Hnd&_&Hd). rewrite app_nil_l in Hnd. cbn [app] in Hnd.
  apply NoDup_cons in Hnd as [Hp Hnd]. apply not_elem_of_app in Hp as [Hpq Hpd]. destruct (parked_state k) as [Hr He].
  apply (lists_ok_change (p :: q) [] dead); [done|done| |done| |].
  - intros p' Hp'. rewrite !app_nil_r. set_solver.
  - rewrite Hr, app_nil_r. naive_solver.
  - rewrite He, Hd. unfold holds. naive_solver.
Qed.

Lemma inv0_drop_head c s p q t t' dead : sched_inv0 c s → queue c = p :: q → mem s !! p = Some t →
  lists_ok q (incoming c) dead (<[p := core_of t']> (cores s)) → t_id t' = t_id t → t_process t' = t_process t →
  core_ok (core_of t') →
  sched_inv0 (set_queue q c) (set_dead dead (put_thread p t' (put_cpu 0 (set_queue q c) s))).
Proof.
  intros [Hc Hf Hl Hcnt Ht] Hq Hp Hl' Hid Hpr Hk. split; [by apply (put_cpu_one c)|done| |done|].
  - cbn [dead_threads set_dead]. change (lists_ok q (incoming c) dead (cores (put_thread p t' s))). by rewrite cores_put.
  - change (table_ok (threads s) (tid_counter s) (proc_flags s) (cores (put_thread p t' s))). rewrite cores_put.
    apply (table_ok_change _ _ _ _ _ (core_of t)); [done|by apply cores_lookup|done|done|exact Hk].
Qed.

Lemma pick_thread_spec now fuel : ∀ c s, sched_inv0 c s → incoming c = [] → (length (queue c) < fuel)%nat →
  ∃ c' s', pick_thread signal_handler fuel now 0 s = Done s' ∧ sched_inv0 c' s' ∧ incoming c' = [] ∧
    same_timing c c' ∧ threads s' = threads s ∧ tid_counter s' = tid_counter s ∧
    proc_flags s' = proc_flags s ∧ ∃ m, select (proc_flags s) (queue c) (dead_threads s) (cores s) =
      (fst (switch_to c'), queue c', dead_threads s', m) ∧ raised m (cores s').
Proof.
  induction fuel as [|fuel IH]; intros c s Hinv Hi Hf; [lia|]. cbn [pick_thread].
  pose proof (inv_cpu _ _ Hinv) as Hc. rewrite (get_cpu_one c s Hc). cbn [mbind outcome_bind].
  destruct (queue c) as [|p q] eqn:Hq.
  { rewrite dlist_pop_front_nil. destruct (set_switch_spec now c s None Hinv) as (c'&s'&E&Hinv'&Hq'&Hi'&Hs'&Hlm&[]&Hra); [done|].
    exists c', s'. split_and!; try done; [by rewrite Hi', Hi|]. exists (cores s). cbn [select]. split; [|done].
    by rewrite Hs', Hq', Hq, same_dead0. }
  rewrite dlist_pop_front_cons. pose proof (inv_lists _ _ Hinv) as Hl. rewrite Hq, Hi in Hl.
  destruct (queued_thread _ _ _ _ p Hl) as (k&Hk&Hrun); [set_solver|].
  destruct (get_thread_core _ _ _ Hk) as (t&_&Ht&<-). unfold get_thread. cbn [mem put_cpu].
  rewrite Ht. cbn [deref mbind outcome_bind proc_flags put_cpu].
  destruct (process_flags p t s _ _ (inv_table _ _ Hinv) Ht) as [pf Ef]. rewrite Ef. cbn [mbind outcome_bind].
  assert (has pf PROC_EXITING = process_exiting (proc_flags s) (core_of t)) as Hpf.
  { unfold process_exiting, k_process, core_of. cbn [snd]. destruct (t_process t) as [r|].
    - destruct (proc_flags s !! r) as [f|]; [by injection Ef as ->|discriminate Ef].
    - injection Ef as <-. reflexivity. }
  rewrite Hpf. cbn [select]. rewrite Hk. unfold verdict_of, k_flags. cbn [core_of fst snd].
  assert (core_ok (core_of t)) as Hok by by apply (proj2 (proj2 (inv_table _ _ Hinv)) p _ Hk).
  destruct (has (t_flags t) THREAD_EXITING || _).
  - set (t' := set_tflags _ t). rewrite dlist_append_spec. cbn [dead_threads put_thread put_cpu].
    destruct (IH (set_queue q c) (set_dead (dead_threads s ++ [p]) (put_thread p t' (put_cpu 0 (set_queue q c) s))))
      as (c'&s'&E&Hinv'&Hi'&Hlm&Hth&Htc&Hpr&m&Hsel&Hra).
    + apply (inv0_drop_head c s p q t); [done..| |done|done|].
      * rewrite Hi. exact (lists_ok_end _ _ _ _ _ Hl Hk).
      * by apply (ended_ok (core_of t)).
    + done.
    + cbn [length queue set_queue] in *. lia.
    + exists c', s'. rewrite E. split_and!; try done; [by destruct Hlm|]. exists m. split; [|done]. rewrite <-Hsel.
      cbn [proc_flags set_dead put_thread put_cpu queue set_queue dead_threads].
      f_equal. change (cores (set_dead (dead_threads s ++ [p]) (put_thread p t' (put_cpu 0 (set_queue q c) s))))
        with (cores (put_thread p t' s)). by rewrite cores_put.
  - destruct (may_suspend (t_flags t)).
    + set (t' := set_tflags _ t).
      destruct (IH (set_queue q c) (put_thread p t' (put_cpu 0 (set_queue q c) s)))
        as (c'&s'&E&Hinv'&Hi'&Hlm&Hth&Htc&Hpr&m&Hsel&Hra).
      * apply (inv0_drop_head c s p q t t' (dead_threads s)); [done..| |done|done|].
        -- rewrite Hi. exact (lists_ok_park _ _ _ _ _ Hl Hk).
        -- by apply (parked_ok (core_of t)).
      * done.
      * cbn [length queue set_queue] in *. lia.
      * exists c', s'. rewrite E. split_and!; try done; [by destruct Hlm|]. exists m. split; [|done]. rewrite <-Hsel.
        cbn [proc_flags set_dead put_thread put_cpu queue set_queue dead_threads].
        f_equal. change (cores (put_thread p t' (put_cpu 0 (set_queue q c) s)))
          with (cores (put_thread p t' s)). by rewrite cores_put.
    + apply andb_prop in Hrun as [Hrun _]. change (has (t_flags t) THREAD_RUNNING = true) in Hrun. rewrite Hrun.
      cbn [assert_or_panic mbind outcome_bind]. rewrite dlist_append_spec. set (c1 := set_queue (q ++ [p]) c).
      destruct (set_switch_spec now c1 (put_cpu 0 c1 (put_cpu 0 (set_queue q c) s)) (Some p))
        as (c'&s'&E&Hinv'&Hq'&Hi'&Hs'&Hlm&[]&Hra).
      * destruct Hinv. split; try done; [by apply (put_cpu_one (set_queue q c)), (put_cpu_one c)|].
        apply (lists_ok_perm (p :: q) []); [done|]. cbn [incoming c1 set_queue queue]. rewrite Hi, !app_nil_r.
        by rewrite <-Permutation_cons_append.
      * intros p' [= <-]. by exists t.
      * exists c', s'. rewrite E. split_and!; try done; [by rewrite Hi'|by destruct Hlm|]. exists (cores s). split; [|done].
        by rewrite Hs', Hq', same_dead0.
Qed.

(** ** Context switches *)

(** The start of the scheduler of a CPU. *)
Lemma handle_flags_spec now c s : sched_inv0 c s → (c_flags c = 0 → now < load_measure_time c) →
  ∃ c' s', (if c_flags c =? SCHED_RUNNING then Done s else sw_handle_sched_flags 0 (c_flags c) s) = Done s' ∧
    sched_inv0 c' s' ∧ c' = set_cflags (c_flags c') c ∧ mem s' = mem s ∧ threads s' = threads s ∧
    dead_threads s' = dead_threads s ∧ tid_counter s' = tid_counter s ∧ proc_flags s' = proc_flags s ∧
    c_flags c' ≠ 0 ∧ (running_sched_count s' = 1 ∨ now < load_measure_time c').
Proof.
  intros [Hc Hph Hl Hcnt Ht] Hst. unfold sw_handle_sched_flags. rewrite (get_cpu_one c s Hc). cbn [mbind outcome_bind].
  destruct Hph as [[Hf Hn]|[[Hf Hn]|[Hf Hn]]]; rewrite Hf.
  - change (0 =? SCHED_RUNNING) with false. cbv iota. eval_flags. cbn [negb]. change (Z.lor 0 SCHED_STARTING) with SCHED_STARTING.
    exists (set_cflags SCHED_STARTING c). eexists. split_and!; [reflexivity| |done..|right; by apply Hst].
    split; [by apply (put_cpu_one c)|right; by left|done..].
  - change (SCHED_STARTING =? SCHED_RUNNING) with false. cbv iota. eval_flags. cbn [negb].
    change (Z.lxor SCHED_STARTING (Z.lor SCHED_RUNNING SCHED_STARTING)) with SCHED_RUNNING.
    exists (set_cflags SCHED_RUNNING c). eexists. split_and!; [reflexivity| |done..|left; simpl; lia].
    split; [by apply (put_cpu_one c)|right; right; simpl; by rewrite Hn|done..].
  - change (SCHED_RUNNING =? SCHED_RUNNING) with true. cbv iota. exists c, s.
    split_and!; [done| |by destruct c; simpl in *; subst|done..|by rewrite Hf|by left].
    split; [done|by rewrite Hf, Hn; right; right|done..].
Qed.

(** When a switch finds the idle thread only, or a queued thread. *)
Lemma select_current procs q dead m p q' dead' m' : (∀ p, p ∈ q → is_Some (m !! p)) →
  select procs q dead m = (p, q', dead', m') → match p with Some p => p ∈ q' | None => q' = [] end.
Proof.
  revert dead m. induction q as [|p0 q IH]; intros dead m Hq; cbn [select]; [by intros [= <- <- _ _]|].
  destruct (Hq p0) as [k Hk]; [by left|]. rewrite Hk.
  assert (∀ k', ∀ p, p ∈ q → is_Some (<[p0 := k']> m !! p)) as Hins.
  { intros k' p' Hp'. destruct (decide (p' = p0)) as [->|]; [by rewrite lookup_insert_eq|].
    rewrite lookup_insert_ne by done. apply Hq. by right. }
  destruct (verdict_of procs k); [apply IH, Hins|apply IH, Hins|]. intros [= <- <- _ _]. set_solver.
Qed.

(** A context switch runs the reference selection on the queue with the
    incoming threads. *)
Lemma thread_yield_spec now c s : sched_inv0 c s → (∀ p, cpu_thread c = Some p → is_Some (mem s !! p)) →
  measurable now c s → (c_flags c = 0 → now < load_measure_time c) →
  ∃ c' s' m, thread_yield signal_handler now 0 s = Done s' ∧ sched_inv0 c' s' ∧ incoming c' = [] ∧
    select (proc_flags s) (enqueue (cores s) (queue c) (incoming c)) (dead_threads s) (cores s) =
      (cpu_thread c', queue c', dead_threads s', m) ∧ raised m (cores s') ∧
    threads s' = threads s ∧ tid_counter s' = tid_counter s ∧ proc_flags s' = proc_flags s ∧ c_flags c' ≠ 0 ∧
    (now < load_measure_time c → load_measure_time c' = load_measure_time c).
Proof.
  intros Hinv Hp Hm Hst. unfold thread_yield, sched_request_switch_from_isr. rewrite (get_cpu_one c s) by apply Hinv.
  cbn [mbind outcome_bind].
  destruct (handle_flags_spec now c s Hinv Hst) as (c0&s0&E0&Hinv0&Hc0&Hmem0&Hth0&Hd0&Htc0&Hpf0&Hf0&Hn0). rewrite E0. clear E0 Hst.
  cbn [mbind outcome_bind].
  assert (cpu_thread c0 = cpu_thread c ∧ queue c0 = queue c ∧ incoming c0 = incoming c ∧ load_measure_time c0 = load_measure_time c)
    as (Ht0&Hq0&Hi0&Hlm0) by (rewrite Hc0; done).
  destruct (account_current_spec now c0 s0) as (s1&E1&Hc1&Hco1&Hr1&Hcy); [apply Hinv0|by rewrite Ht0, Hmem0|].
  rewrite E1. clear E1. cbn [mbind outcome_bind].
  assert (sched_inv0 c0 s1) as Hinv1 by by apply (inv0_same c0 s0).
  destruct (check_load_spec now c0 s0 s1) as (c2&s2&E2&Hcc2&Hc2&Hco2&Hr2&Hsame2); [done| |done| |].
  { destruct Hr1. by rewrite same_count0. }
  { intros Hle. rewrite Hlm0 in Hle. destruct (Hm Hle) as [?|Ht]; [left; congruence|right].
    replace (total_time now c0 s0) with (total_time now c s); [done|]. unfold total_time, cycles. rewrite Hc0, Hmem0. done. }
  rewrite E2. clear E2. cbn [mbind outcome_bind]. rewrite (get_cpu_one c2 s2 Hc2). cbn [mbind outcome_bind].
  assert (sched_inv0 c2 s2) as Hinv2 by by apply (inv0_same c0 s1).
  destruct (accept_incoming_spec (S (length (incoming c2))) c2 s2 Hinv2) as (c3&s3&E3&Hinv3&Hi3&Hq3&_&Hlm3&Hmem3&Hr3); [lia|].
  rewrite E3. clear E3. cbn [mbind outcome_bind]. rewrite (get_cpu_one c3 s3) by apply Hinv3. cbn [mbind outcome_bind].
  destruct (pick_thread_spec now (S (length (queue c3))) c3 s3 Hinv3 Hi3) as (c4&s4&E4&Hinv4&Hi4&Hlm4&Hth4&Htc4&Hpf4&m&Hsel&Hra); [lia|].
  rewrite E4. clear E4. unfold isr_context_switch. cbn [mbind outcome_bind]. rewrite (get_cpu_one c4 s4) by apply Hinv4. cbn [mbind outcome_bind].
  set (c5 := set_cpu_thread _ c4). exists c5. eexists. exists m. assert (cores s3 = cores s) as Hco3.
  { unfold cores at 1. rewrite Hmem3. fold (cores s2). rewrite Hco2, Hco1. unfold cores. by rewrite Hmem0. }
  destruct Hr1, Hr2, Hr3, Hcc2, Hlm3, Hlm4. split_and!; [reflexivity| |done| |done| | | | |]; [| |simpl; congruence..|].
  - destruct Hinv4. split; try done. by apply (put_cpu_one c4).
  - transitivity (select (proc_flags s3) (queue c3) (dead_threads s3) (cores s3)); [|exact Hsel].
    rewrite Hq3, Hco3, Hco2, Hco1, same_queue0, same_incoming0, Hq0, Hi0. unfold cores. rewrite Hmem0. f_equal; congruence.
  - intros Hlt. destruct Hsame2 as [-> _]; [congruence|]. cbn [load_measure_time c5 set_cpu_thread]. congruence.
Qed.
End switch.
