(* ===== verification/SchedOps.v ===== *)
(** * Scheduler: the operations on threads

    Each operation of the scheduler returns on a machine with one CPU and
    keeps the invariant of SchedTheory. *)

From S2P Require Import Prelude Badgelib Containers Sched SchedTheory.

(** Between context switches the running thread is in the run queue; the idle
    thread runs only when the run queue is empty. *)
Definition current_ok (c : sched_cpulocal) : Prop :=
  match cpu_thread c with Some p => p ∈ queue c | None => queue c = [] end.

Definition sched_inv (c : sched_cpulocal) (s : sched) : Prop := sched_inv0 c s ∧ current_ok c.

Lemma current_thread c s p : sched_inv c s → cpu_thread c = Some p → ∃ t, mem s !! p = Some t ∧ runnable (core_of t) = true.
Proof.
  intros [Hinv Hcur] Hp. unfold current_ok in Hcur. rewrite Hp in Hcur.
  destruct (queued_thread _ _ _ _ p (inv_lists _ _ Hinv)) as (k&Hk&Hr); [set_solver|].
  apply cores_lookup_inv in Hk as (t&Ht&->). by exists t.
Qed.

(** A change of one thread that keeps it where it is. *)
Lemma inv0_update c s p t t' : sched_inv0 c s → mem s !! p = Some t → runnable (core_of t') = runnable (core_of t) →
  exited (core_of t') = exited (core_of t) → t_id t' = t_id t → t_process t' = t_process t → core_ok (core_of t') →
  sched_inv0 c (put_thread p t' s).
Proof.
  intros [Hc Hf Hl Hcnt Ht] Hp Hr He Hid Hpr Hok. split; [done|done| |done|]; rewrite cores_put.
  - by apply (lists_ok_same _ _ _ _ _ (core_of t)); [|apply cores_lookup| |].
  - by apply (table_ok_change _ _ _ _ _ (core_of t)); [|apply cores_lookup| | |].
Qed.

Lemma thread_core_ok c s p t : sched_inv0 c s → mem s !! p = Some t → core_ok (core_of t).
Proof. intros Hinv Hp. apply (proj2 (proj2 (inv_table _ _ Hinv)) p). by apply cores_lookup. Qed.

(** Setting flags that do not matter to the lists. *)
Lemma inv0_set_flags c s p t m : sched_inv0 c s → mem s !! p = Some t →
  has m (Z.lor (Z.lor THREAD_KERNEL THREAD_BLOCKED) (Z.lor THREAD_EXITED THREAD_RUNNING)) = false →
  sched_inv0 c (put_thread p (set_tflags (Z.lor (t_flags t) m) t) s).
Proof.
  intros Hinv Hp Hm. rewrite !has_lor_r in Hm. apply orb_false_iff in Hm as [[Hm1 Hm2]%orb_false_iff [Hm3 Hm4]%orb_false_iff].
  apply (inv0_update c s p t); try done.
  - unfold runnable, k_flags. simpl. rewrite !has_lor. by rewrite Hm2, Hm4, !orb_false_r.
  - unfold exited, k_flags. simpl. rewrite !has_lor. by rewrite Hm3, orb_false_r.
  - apply (core_ok_lor (core_of t)); [by eapply thread_core_ok|done..].
Qed.

(** The thread becomes runnable and is handed to the CPU. *)
Section ops.
Context `{!DList} `{!DListSpec} `{!KArrays} `{!KArraysSpec} (signal_handler exit_self : Z).
Implicit Types (c : sched_cpulocal) (s : sched).

Lemma handoff_spec c s p t t' : sched_inv c s → mem s !! p = Some t → runnable (core_of t) = false →
  runnable (core_of t') = true → exited (core_of t) = false → exited (core_of t') = false →
  t_id t' = t_id t → t_process t' = t_process t → core_ok (core_of t') →
  ∃ b c' s', thread_handoff p 0 true 0 (put_thread p t' s) = Done (b, s') ∧ sched_inv c' s' ∧ queue c' = queue c ∧
    incoming c' = incoming c ++ [p] ∧ cpu_thread c' = cpu_thread c ∧ same_timing c c' ∧ mem s' = <[p := t']> (mem s) ∧
    dead_threads s' = dead_threads s ∧ proc_flags s' = proc_flags s.
Proof.
  intros [[Hc Hf Hl Hcnt Ht] Hcur] Hp Hr Hr' He He' Hid Hpr Hok. unfold thread_handoff.
  rewrite (get_cpu_one c) by done. cbn [mbind outcome_bind negb andb]. unfold get_thread. cbn [mem put_thread].
  rewrite lookup_insert_eq. cbn [deref mbind outcome_bind orb]. rewrite dlist_append_spec.
  set (c1 := set_incoming _ _). exists (is_running (c_flags c1)), c1. eexists.
  assert (cores s !! p = Some (core_of t)) as Hk by by apply cores_lookup.
  split_and!; [reflexivity| |done|done|done|by split|done|done|done].
  split; [|done]. split; [by apply (put_cpu_one c)|done| |done|].
  - change (lists_ok (queue c) (incoming c ++ [p]) (dead_threads s) (cores (put_thread p t' s))). rewrite cores_put.
    pose proof Hl as (Hnd&Hq&Hd).
    assert (p ∉ queue c ++ incoming c) as Hpq by (rewrite Hq; unfold holds; naive_solver congruence).
    assert (p ∉ dead_threads s) as Hpd by (rewrite Hd; unfold holds; naive_solver congruence).
    apply (lists_ok_change (queue c) (incoming c) (dead_threads s)); [done| |set_solver|done| |].
    + assert (queue c ++ (incoming c ++ [p]) ++ dead_threads s ≡ₚ p :: queue c ++ incoming c ++ dead_threads s) as ->.
      { rewrite <-app_assoc. cbn [app]. by rewrite <-!Permutation_middle. }
      constructor; [set_solver|done].
    + rewrite Hr'. set_solver.
    + rewrite He'. naive_solver.
  - change (table_ok (threads s) (tid_counter s) (proc_flags s) (cores (put_thread p t' s))). rewrite cores_put.
    by apply (table_ok_change _ _ _ _ _ (core_of t)).
Qed.

(** ** Lookup *)

Lemma tid_cmp_key s n procs tid : table_ok (threads s) n procs (cores s) → n <= INT_MAX → 0 <= tid <= INT_MAX →
  cmp_key (tid_of (cores s)) (tid_int_cmp s tid) tid (threads s).
Proof.
  intros (_&Hl&Hk) Hn Htid p Hp. apply Hl in Hp as [k Hp]. unfold tid_of. rewrite Hp. pose proof (Hk _ _ Hp) as (Hid&_&_).
  apply cores_lookup_inv in Hp as (t&Ht&->). unfold tid_int_cmp. rewrite Ht. f_equal. apply signed_range; [lia|].
  unfold k_id, INT_MAX in *. simpl in *. lia.
Qed.

Lemma find_thread_spec c s tid : sched_inv0 c s → 0 <= tid <= INT_MAX →
  match find_thread tid s with
  | Some p => ∃ t, mem s !! p = Some t ∧ t_id t = tid
  | None => ∀ p t, mem s !! p = Some t → t_id t ≠ tid
  end.
Proof.
  intros [_ _ _ Hcnt Htab] Htid. unfold find_thread.
  pose proof (tid_cmp_key s _ _ tid Htab (proj2 Hcnt) Htid) as Hcmp. destruct Htab as (Hs&Hl&Hk).
  pose proof (binsearch_lookup (tid_of (cores s)) (tid_int_cmp s tid) (threads s) tid Hs Hcmp) as Hb.
  destruct (array_binsearch (threads s) (tid_int_cmp s tid)) as [[|] i].
  - destruct Hb as (x&Hx&Hid). rewrite Hx. apply list_elem_of_lookup_2, Hl in Hx as [k Hx].
    unfold tid_of in Hid. rewrite Hx in Hid. apply cores_lookup_inv in Hx as (t&Ht&->). by exists t.
  - intros p t Ht E. destruct Hb as (_&Hlo&Hhi). assert (p ∈ threads s) as Hp by (apply Hl; by rewrite (cores_lookup _ _ _ Ht)).
    rewrite <-(take_drop i (threads s)) in Hp. rewrite !Forall_forall in *. unfold tid_of in *.
    apply elem_of_app in Hp as [Hp|Hp]; [apply Hlo in Hp|apply Hhi in Hp]; rewrite (cores_lookup _ _ _ Ht) in Hp;
      unfold k_id in Hp; simpl in Hp; lia.
Qed.

Lemma find_thread_unique c s p t : sched_inv0 c s → mem s !! p = Some t → find_thread (t_id t) s = Some p.
Proof.
  intros Hinv Ht. pose proof (inv_table _ _ Hinv) as (Hs&Hl&Hk). pose proof (inv_counter _ _ Hinv) as Hcnt.
  destruct (Hk _ _ (cores_lookup _ _ _ Ht)) as (Hid&_&_). change (0 < t_id t < tid_counter s) in Hid.
  pose proof (find_thread_spec c s (t_id t) Hinv ltac:(lia)) as Hfind.
  destruct (find_thread (t_id t) s) as [p'|]; [|by destruct (Hfind p t)]. destruct Hfind as (t'&Ht'&Hid'). f_equal.
  apply (key_sorted_inj _ _ p' p Hs).
  - apply Hl. by rewrite (cores_lookup _ _ _ Ht').
  - apply Hl. by rewrite (cores_lookup _ _ _ Ht).
  - unfold tid_of. by rewrite (cores_lookup _ _ _ Ht'), (cores_lookup _ _ _ Ht).
Qed.

(** ** Starting threads *)

Lemma mark_running_state t now : core_ok (core_of t) →
  has (t_flags t) (Z.lor THREAD_EXITED (Z.lor THREAD_EXITING THREAD_RUNNING)) = false →
  let f := Z.ldiff (Z.lor (t_flags t) THREAD_RUNNING) THREAD_SUSPENDING in
  let t' := set_tflags (if now : bool then Z.lor f THREAD_STARTNOW else f) t in
  runnable (core_of t) = false ∧ exited (core_of t) = false ∧ runnable (core_of t') = true ∧ exited (core_of t') = false ∧
    core_ok (core_of t').
Proof.
  intros [Hk Hb] Hf. rewrite !has_lor_r in Hf. apply orb_false_iff in Hf as [He [_ Hr]%orb_false_iff].
  unfold core_ok, runnable, exited, k_flags in *. simpl in *.
  assert (has (t_flags t) THREAD_BLOCKED = false) as Hbl.
  { destruct (has (t_flags t) THREAD_BLOCKED) eqn:E; [|done]. destruct (Hb eq_refl). congruence. }
  destruct now; simpl_flags; rewrite He, Hr, Hbl, ?andb_true_r, ?orb_false_r; split_and!; try done; by split.
Qed.

Lemma try_mark_running_spec c s p t now : sched_inv0 c s → mem s !! p = Some t → let f := t_flags t in
  thread_try_mark_running p now s = Done
    (if has f (Z.lor THREAD_EXITED (Z.lor THREAD_EXITING THREAD_RUNNING)) then (false, s)
     else let f' := Z.ldiff (Z.lor f THREAD_RUNNING) THREAD_SUSPENDING in
       (true, put_thread p (set_tflags (if now : bool then Z.lor f' THREAD_STARTNOW else f') t) s)).
Proof.
  intros Hinv Hp. unfold thread_try_mark_running, get_thread. rewrite Hp. cbn [deref mbind outcome_bind]. by case_match.
Qed.

(** A thread that exists and neither runs nor ends joins the incoming threads. *)
Lemma resume_spec c s tid now : sched_inv c s → 0 <= tid <= INT_MAX → ∃ ec c' s',
  thread_resume_impl 0 tid now s = Done (ec, s') ∧ sched_inv c' s' ∧ cpu_thread c' = cpu_thread c ∧ queue c' = queue c ∧
    same_timing c c' ∧ dead_threads s' = dead_threads s ∧ proc_flags s' = proc_flags s ∧
    match find_thread tid s with
    | None => ec = ECAUSE_NOTFOUND ∧ c' = c ∧ s' = s
    | Some p => ec = ECAUSE_OK ∧ ∃ t, mem s !! p = Some t ∧ let f := t_flags t in
        if has f (Z.lor THREAD_EXITED (Z.lor THREAD_EXITING THREAD_RUNNING)) then c' = c ∧ s' = s
        else let f' := Z.ldiff (Z.lor f THREAD_RUNNING) THREAD_SUSPENDING in incoming c' = incoming c ++ [p] ∧
          mem s' = <[p := set_tflags (if now : bool then Z.lor f' THREAD_STARTNOW else f') t]> (mem s)
    end.
Proof.
  intros Hinv Htid. unfold thread_resume_impl. pose proof (find_thread_spec c s tid (proj1 Hinv) Htid) as Hf.
  destruct (find_thread tid s) as [p|].
  - destruct Hf as (t&Ht&_). rewrite (try_mark_running_spec c s p t now (proj1 Hinv) Ht). cbn [mbind outcome_bind].
    destruct (has (t_flags t) _) eqn:Hfl; cbn [mbind outcome_bind].
    + exists ECAUSE_OK, c, s. split_and!; try done. exists t. by rewrite Hfl.
    + destruct (mark_running_state t now (thread_core_ok c s p t (proj1 Hinv) Ht) Hfl) as (?&?&?&?&?).
      edestruct handoff_spec as (b&c'&s'&E&Hinv'&Hq&Hi&Hct&Htm&Hm&Hd&Hpf); [exact Hinv|exact Ht|done..|].
      exists ECAUSE_OK, c', s'. rewrite E. cbn [mbind outcome_bind]. split_and!; try done. exists t. by rewrite Hfl.
  - exists ECAUSE_NOTFOUND, c, s. by split_and!.
Qed.

(** A thread that waits for a mutex is notified. *)
Lemma unblock_spec c s p t : sched_inv c s → mem s !! p = Some t → ∃ c' s',
  mutex_unblock 0 p s = Done s' ∧ sched_inv c' s' ∧ cpu_thread c' = cpu_thread c ∧ queue c' = queue c ∧ same_timing c c' ∧
    incoming c' = incoming c ++ (if has (t_flags t) THREAD_BLOCKED then [p] else []) ∧
    mem s' = <[p := set_tflags (Z.ldiff (t_flags t) THREAD_BLOCKED) t]> (mem s).
Proof.
  intros Hinv Hp. pose proof (thread_core_ok c s p t (proj1 Hinv) Hp) as [Hk Hb]. unfold mutex_unblock, get_thread. rewrite Hp.
  cbn [deref mbind outcome_bind]. set (t' := set_tflags _ t).
  unfold core_ok, exited, k_flags in *. simpl in *. assert (core_ok (core_of t')) as Hok.
  { unfold core_ok, k_flags. simpl. simpl_flags. rewrite andb_false_r, !andb_true_r. by split. }
  destruct (has (t_flags t) THREAD_BLOCKED) eqn:Hbl.
  - destruct (Hb eq_refl) as [Hr He].
    destruct (handoff_spec c s p t t') as (b&c'&s'&E&Hinv'&Hq&Hi&Hct&Htm&Hm&Hd&Hpf); try done.
    + unfold runnable, k_flags. simpl. by rewrite Hr, Hbl.
    + unfold runnable, k_flags. simpl. simpl_flags. by rewrite Hr, andb_false_r.
    + unfold exited, k_flags. simpl. simpl_flags. by rewrite He.
    + exists c', s'. rewrite E. by split_and!.
  - exists c, (put_thread p t' s). rewrite app_nil_r. split_and!; try done. split; [|by apply Hinv].
    apply (inv0_update c s p t); try done; [apply Hinv| |]; unfold runnable, exited, k_flags; simpl; simpl_flags;
      by rewrite ?Hbl, ?andb_true_r.
Qed.

(** ** Detaching *)

Lemma inv_set_flags c s p t m : sched_inv c s → mem s !! p = Some t →
  has m (Z.lor (Z.lor THREAD_KERNEL THREAD_BLOCKED) (Z.lor THREAD_EXITED THREAD_RUNNING)) = false →
  sched_inv c (put_thread p (set_tflags (Z.lor (t_flags t) m) t) s).
Proof. intros [Hinv Hcur] Hp Hm. split; [by apply inv0_set_flags|done]. Qed.

Lemma detach_spec c s tid : sched_inv c s → 0 <= tid <= INT_MAX →
  ∃ ec s', thread_detach tid s = Done (ec, s') ∧ sched_inv c s'.
Proof.
  intros Hinv Htid. unfold thread_detach. pose proof (find_thread_spec c s tid (proj1 Hinv) Htid) as Hf.
  destruct (find_thread tid s) as [p|]; [|by exists ECAUSE_NOTFOUND, s].
  destruct Hf as (t&Ht&_). unfold get_thread. rewrite Ht. cbn [deref mbind outcome_bind]. eexists _, _. split; [reflexivity|].
  by apply inv_set_flags.
Qed.

Lemma join_poll_spec c s tid : sched_inv c s → 0 <= tid <= INT_MAX →
  ∃ b s', thread_join_poll tid s = Done (b, s') ∧ sched_inv c s'.
Proof.
  intros Hinv Htid. unfold thread_join_poll. pose proof (find_thread_spec c s tid (proj1 Hinv) Htid) as Hf.
  destruct (find_thread tid s) as [p|]; [|by exists true, s].
  destruct Hf as (t&Ht&_). unfold get_thread. rewrite Ht. cbn [deref mbind outcome_bind].
  destruct (has (t_flags t) THREAD_EXITED); [|by exists false, s]. eexists _, _. split; [reflexivity|]. by apply inv_set_flags.
Qed.

(** ** New threads *)

Lemma tid_of_fresh m p k (l : list nat) : m !! p = None → (∀ p', p' ∈ l → is_Some (m !! p')) →
  tid_of (<[p := k]> m) <$> l = tid_of m <$> l.
Proof.
  intros Hp Hl. apply list_fmap_ext. intros i p' Hp'. apply list_elem_of_lookup_2, Hl in Hp' as [k' Hk'].
  unfold tid_of. rewrite lookup_insert_ne by congruence. done.
Qed.

Lemma table_ok_insert l n procs m p k : table_ok l n procs m → m !! p = None → 0 < n → k_id k = n →
  (∀ r, k_process k = Some r → is_Some (procs !! r)) → core_ok k → table_ok (l ++ [p]) (n + 1) procs (<[p := k]> m).
Proof.
  intros (Hs&Hl&Hk) Hp Hn Hid Hpr Hok. split_and!.
  - apply key_sorted_snoc; [unfold key_sorted; rewrite tid_of_fresh; [done|done|intros; by apply Hl]|].
    apply Forall_forall. intros p' Hp'. apply Hl in Hp' as [k' Hk']. unfold tid_of.
    rewrite lookup_insert_eq, lookup_insert_ne, Hk', Hid by congruence. by apply (Hk p').
  - intros p'. rewrite elem_of_app, list_elem_of_singleton. destruct (decide (p' = p)) as [->|].
    + rewrite lookup_insert_eq. naive_solver.
    + rewrite lookup_insert_ne by done. rewrite Hl. naive_solver.
  - intros p' k' Hk'. destruct (decide (p' = p)) as [->|].
    + rewrite lookup_insert_eq in Hk'. injection Hk' as <-. split_and!; [lia|lia|done|done].
    + rewrite lookup_insert_ne in Hk' by done. destruct (Hk _ _ Hk') as (?&?&?). split_and!; [lia|lia|done|done].
Qed.

Lemma table_ok_delete l n procs m p i : table_ok l n procs m → l !! i = Some p → table_ok (delete i l) n procs (delete p m).
Proof.
  intros (Hs&Hl&Hk) Hi. split_and!.
  - unfold key_sorted. rewrite (list_fmap_ext (tid_of (delete p m)) (tid_of m)); [by apply (key_sorted_delete (tid_of m))|].
    intros j p' Hp'%list_elem_of_lookup_2. apply (key_sorted_elem_delete (tid_of m) l i p) in Hp' as [_ Hne]; [|done..].
    unfold tid_of. by rewrite lookup_delete_ne.
  - intros p'. rewrite (key_sorted_elem_delete (tid_of m) l i p) by done. rewrite Hl. destruct (decide (p' = p)) as [->|].
    + rewrite lookup_delete_eq. split; [by intros [_ ?]|by intros []].
    + rewrite lookup_delete_ne by done. naive_solver.
  - intros p' k [_ Hp']%lookup_delete_Some. by apply (Hk p').
Qed.

Lemma table_ok_counter l n n' procs m : table_ok l n procs m → n <= n' → table_ok l n' procs m.
Proof.
  intros (Hs&Hl&Hk) Hn. split_and!; [done|done|]. intros p k Hp. destruct (Hk p k Hp) as (?&?&?). split_and!; [lia|lia|done|done].
Qed.

(** A thread that takes no part yet joins the table. *)
Lemma insert_thread_spec c s mem_ok grow make : sched_inv c s → tid_counter s < INT_MAX →
  (∀ tid, let k := core_of (make tid) in k_id k = tid ∧ runnable k = false ∧ exited k = false ∧ core_ok k ∧
    ∀ r, k_process k = Some r → is_Some (proc_flags s !! r)) →
  let '(tid, ec, s') := insert_thread mem_ok grow make s in sched_inv c s' ∧ proc_flags s' = proc_flags s ∧
    (ec = ECAUSE_NOMEM ∧ mem s' = mem s ∧ threads s' = threads s ∨
     ec = ECAUSE_OK ∧ tid = tid_counter s ∧ find_thread tid s = None ∧
     ∃ p, find_thread tid s' = Some p ∧ mem s !! p = None ∧ mem s' = <[p := make tid]> (mem s)).
Proof.
  intros Hinv Hlt Hmake. unfold insert_thread. destruct mem_ok; [|split; [done|split; [done|by left]]].
  destruct (Hmake (tid_counter s)) as (Hid&Hr&He&Hok&Hpr). set (t := make (tid_counter s)) in *.
  pose proof Hinv as [[Hc Hf Hl Hcnt Htab] Hcur].
  replace (signed 32 (tid_counter s + 1)) with (tid_counter s + 1) by (symmetry; apply signed_range; unfold INT_MAX in *; lia).
  set (p := fresh (dom (mem s))). assert (mem s !! p = None) as Hp by apply not_elem_of_dom, is_fresh.
  assert (cores s !! p = None) as Hkp by by (unfold cores; rewrite lookup_fmap, Hp).
  destruct (array_insert_spec grow (threads s) p (length (threads s))) as [E|[-> E]]; [lia|..].
  - cbn [threads set_tid_counter]. rewrite E. rewrite firstn_all, drop_all.
    set (s' := set_threads _ _). assert (sched_inv c s') as Hinv'.
    { split; [|done]. split; [done|done| |simpl; lia|].
      - change (lists_ok (queue c) (incoming c) (dead_threads s) (cores (put_thread p t s))). rewrite cores_put.
        destruct Hl as (Hnd&Hq&Hd). apply (lists_ok_change (queue c) (incoming c) (dead_threads s)); try done.
        + rewrite Hq, Hr. split; [intros (k&Hk&_); congruence|done].
        + rewrite Hd, He. split; [intros (k&Hk&_); congruence|done].
      - change (table_ok (threads s ++ [p]) (tid_counter s + 1) (proc_flags s) (cores (put_thread p t s))). rewrite cores_put.
        apply table_ok_insert; [done|done|lia|done|done|done]. }
    split; [done|split; [done|right]]. assert (t_id t = tid_counter s) as -> by exact Hid.
    assert (0 <= tid_counter s <= INT_MAX) as Hrange by lia. split_and!; [done|done| |].
    + pose proof (find_thread_spec c s _ (proj1 Hinv) Hrange) as Hfind. destruct (find_thread _ s) as [p'|]; [|done].
      destruct Hfind as (t'&Ht'&Hid'). destruct (proj2 (proj2 Htab) p' _ (cores_lookup _ _ _ Ht')) as (Hb&_&_).
      unfold k_id in Hb. simpl in Hb. lia.
    + exists p. split_and!; [|done|done]. rewrite <-Hid. apply (find_thread_unique c s' p t); [apply Hinv'|apply lookup_insert_eq].
  - cbn [threads set_tid_counter]. rewrite E. split; [|split; [done|by left]]. split; [|done]. split; [done|done|done|simpl; lia|].
    apply (table_ok_counter _ (tid_counter s)); [done|simpl; lia].
Qed.

(** ** Housekeeping *)

Definition detached (s : sched) (p : nat) : Prop :=
  match mem s !! p with Some t => has (t_flags t) THREAD_DETACHED = true | None => False end.

#[global] Instance detached_dec s p : Decision (detached s p).
Proof. unfold detached. destruct (mem s !! p); apply _. Defined.

Lemma collect_dead_spec s : ∀ l keep tmp dead, NoDup (keep ++ l) → (∀ p, p ∈ l → is_Some (mem s !! p)) → dead = keep ++ l →
  collect_dead l tmp (set_dead dead s) =
    Done (tmp ++ filter (detached s) l, set_dead (keep ++ filter (λ p, ¬ detached s p) l) s).
Proof.
  induction l as [|p l IH]; intros keep tmp dead Hnd Hl ->; cbn [collect_dead]; [by rewrite !app_nil_r|].
  destruct (Hl p) as [t Ht]; [by left|]. assert (∀ p, p ∈ l → is_Some (mem s !! p)) as Hl' by (intros; apply Hl; by right).
  unfold get_thread. cbn [mem set_dead]. rewrite Ht. cbn [deref mbind outcome_bind].
  apply NoDup_app in Hnd as Hnd'. destruct Hnd' as (Hk&Hkl&[Hpl Hl'']%NoDup_cons).
  destruct (has (t_flags t) THREAD_DETACHED) eqn:Hd.
  - assert (detached s p) as Hdp by by (unfold detached; rewrite Ht).
    rewrite filter_cons_True, filter_cons_False by naive_solver. cbn [dead_threads set_dead].
    rewrite dlist_append_spec, dlist_remove_spec by (intros Hp; apply (Hkl p Hp); by left).
    change (set_dead (keep ++ l) (set_dead (keep ++ p :: l) s)) with (set_dead (keep ++ l) s).
    rewrite (IH keep (tmp ++ [p]) (keep ++ l)); [by rewrite <-app_assoc|apply NoDup_app; split_and!; [done|set_solver|done]|done|done].
  - assert (¬ detached s p) as Hdp by by (unfold detached; rewrite Ht, Hd).
    rewrite filter_cons_False, filter_cons_True by done.
    rewrite (IH (keep ++ [p]) tmp (keep ++ p :: l)); [by rewrite <-app_assoc| |done|]; rewrite <-app_assoc; done.
Qed.

(** The table without the threads of [tmp]. *)
Lemma free_dead_spec procs n : ∀ fuel tmp s, (length tmp < fuel)%nat → NoDup tmp → table_ok (threads s) n procs (cores s) → n <= INT_MAX →
  (∀ p, p ∈ tmp → is_Some (mem s !! p)) → ∃ l m, free_dead fuel tmp s = Done (set_mem m (set_threads l s)) ∧
    table_ok l n procs (core_of <$> m) ∧ ∀ p, m !! p = if decide (p ∈ tmp) then None else mem s !! p.
Proof.
  induction fuel as [|fuel IH]; intros tmp s Hf Hnd Htab Hn Htmp; [lia|]. cbn [free_dead]. destruct tmp as [|p tmp].
  { rewrite dlist_pop_front_nil. exists (threads s), (mem s). split_and!; [by destruct s|done|].
    intros p. by rewrite decide_False by set_solver. }
  rewrite dlist_pop_front_cons. apply NoDup_cons in Hnd as [Hp Hnd]. destruct (Htmp p) as [t Ht]; [by left|].
  unfold get_thread. rewrite Ht. cbn [deref mbind outcome_bind]. pose proof Htab as (Hs&Hl&Hk).
  pose proof (cores_lookup _ _ _ Ht) as Hc. destruct (Hk _ _ Hc) as (Hid&_&_).
  change (0 < t_id t < n) in Hid. assert (p ∈ threads s) as Hpl by (apply Hl; by rewrite Hc).
  pose proof (binsearch_lookup (tid_of (cores s)) _ (threads s) (t_id t) Hs (tid_cmp_key s n procs (t_id t) Htab Hn ltac:(lia))) as Hb.
  destruct (array_binsearch (threads s) (tid_int_cmp s (t_id t))) as [[|] i]; cycle 1.
  { destruct Hb as (_&Hlo&Hhi). exfalso. rewrite <-(take_drop i (threads s)) in Hpl. rewrite !Forall_forall in *. unfold tid_of in *.
    apply elem_of_app in Hpl as [Hx|Hx]; [apply Hlo in Hx|apply Hhi in Hx]; rewrite Hc in Hx; unfold k_id in Hx; simpl in Hx; lia. }
  cbn [assert_or_panic mbind outcome_bind]. destruct Hb as (x&Hx&Hidx).
  assert (x = p) as ->.
  { apply (key_sorted_inj _ _ x p Hs); [by eapply list_elem_of_lookup_2|done|]. rewrite Hidx. unfold tid_of. by rewrite Hc. }
  rewrite array_remove_spec by by eapply lookup_lt_Some.
  set (s1 := set_mem _ _). destruct (IH tmp s1) as (l&m&E&Htab'&Hm).
  - simpl in Hf. lia.
  - done.
  - change (table_ok (delete i (threads s)) n procs (core_of <$> delete p (mem s))). rewrite fmap_delete.
    by apply table_ok_delete.
  - done.
  - intros p' Hp'. simpl. rewrite lookup_delete_ne by set_solver. apply Htmp. by right.
  - exists l, m. rewrite E. split_and!; [done|done|]. intros p'. rewrite Hm. simpl. destruct (decide (p' = p)) as [->|].
    + rewrite lookup_delete_eq, (decide_True _ _ (P := p ∈ p :: tmp)) by by left. by case_decide.
    + rewrite lookup_delete_ne by done. destruct (decide (p' ∈ tmp)); [rewrite decide_True by by right|rewrite decide_False by set_solver]; done.
Qed.

Lemma lists_ok_forget (q inc dead tmp dead' : list nat) (m m' : gmap nat core) : lists_ok q inc dead m → (∀ p, p ∈ tmp → p ∈ dead) → NoDup dead' →
  (∀ p, p ∈ dead' ↔ p ∈ dead ∧ p ∉ tmp) → (∀ p, m' !! p = if decide (p ∈ tmp) then None else m !! p) → lists_ok q inc dead' m'.
Proof.
  intros (Hnd&Hq&Hd) Htmp Hnd' Hd' Hm. rewrite app_assoc in Hnd. apply NoDup_app in Hnd as (Hnd1&Hdis&_). split_and!.
  - rewrite app_assoc. apply NoDup_app. split_and!; [done| |done]. intros p Hp [? _]%Hd'. by apply (Hdis p).
  - intros p. rewrite Hq. unfold holds. rewrite Hm. case_decide as Hp; [|done]. apply Htmp in Hp.
    split; [|naive_solver]. intros Hh. exfalso. apply (Hdis p); [by apply Hq|done].
  - intros p. rewrite Hd', Hd. unfold holds. rewrite Hm. case_decide as Hp; naive_solver.
Qed.

(** The detached ones among the dead threads are freed. *)
Lemma housekeeping_spec c s : sched_inv c s → ∃ s', sched_housekeeping s = Done s' ∧ sched_inv c s' ∧
  dead_threads s' = filter (λ p, ¬ detached s p) (dead_threads s) ∧ proc_flags s' = proc_flags s ∧
  ∀ p, mem s' !! p = if decide (p ∈ dead_threads s ∧ detached s p) then None else mem s !! p.
Proof.
  intros [[Hc Hf Hl Hcnt Htab] Hcur]. unfold sched_housekeeping. pose proof Hl as (Hnd&Hq&Hd).
  assert (NoDup (dead_threads s)) as Hndd by (rewrite app_assoc in Hnd; by apply NoDup_app in Hnd as (_&_&?)).
  assert (∀ p, p ∈ dead_threads s → is_Some (mem s !! p)) as Hdm.
  { intros p (k&Hk&_)%Hd. apply cores_lookup_inv in Hk as (t&Ht&_). by rewrite Ht. }
  pose proof (collect_dead_spec s (dead_threads s) [] [] (dead_threads s) Hndd Hdm eq_refl) as E. cbn [app] in E.
  replace (set_dead (dead_threads s) s) with s in E by by destruct s. rewrite E. cbn [mbind outcome_bind].
  set (tmp := filter (detached s) (dead_threads s)). set (dead' := filter _ (dead_threads s)).
  destruct (free_dead_spec (proc_flags s) (tid_counter s) (S (length tmp)) tmp (set_dead dead' s)) as (l&m&E'&Htab'&Hm);
    [lia|by apply NoDup_filter|done|lia|intros p [_ Hp]%list_elem_of_filter; by apply Hdm|].
  rewrite E'. eexists. split_and!; [reflexivity| |done|done|].
  - split; [|done]. split; [done|done| |done|done]. cbn [dead_threads set_dead set_mem set_threads].
    apply (lists_ok_forget _ _ (dead_threads s) tmp _ (cores s)); [done|by intros p [_ ?]%list_elem_of_filter|by apply NoDup_filter| |].
    + intros p. unfold tmp, dead'. rewrite !list_elem_of_filter. tauto.
    + intros p. unfold cores. cbn [mem set_mem]. rewrite !lookup_fmap, Hm. cbn [mem set_dead]. by case_decide.
  - intros p. cbn [mem set_mem]. rewrite Hm. apply decide_ext. unfold tmp. rewrite list_elem_of_filter. tauto.
Qed.

(** ** Operations that switch *)

Lemma measurable_put now c s p t t' : mem s !! p = Some t → usage t' = usage t → measurable now c s →
  measurable now c (put_thread p t' s).
Proof.
  intros Hp Hu Hm Hle. destruct (Hm Hle) as [?|Ht]; [by left|right]. replace (total_time now c (put_thread p t' s)) with (total_time now c s); [done|].
  unfold total_time. f_equal. apply foldr_ext; [|done|done]. intros p' n. f_equal. unfold cycles. simpl.
  destruct (decide (p' = p)) as [->|]; [by rewrite lookup_insert_eq, Hp, Hu|by rewrite lookup_insert_ne].
Qed.

Lemma yield_inv now c s : sched_inv0 c s → (∀ p, cpu_thread c = Some p → is_Some (mem s !! p)) →
  measurable now c s → (c_flags c = 0 → now < load_measure_time c) →
  ∃ c' s', thread_yield signal_handler now 0 s = Done s' ∧ sched_inv c' s' ∧ c_flags c' ≠ 0.
Proof.
  intros Hinv Hp Hm Hst. destruct (thread_yield_spec signal_handler now c s Hinv Hp Hm Hst) as (c'&s'&m&E&Hinv'&_&Hsel&_&_&_&_&Hf&_).
  exists c', s'. split_and!; [done| |done]. split; [done|]. unfold current_ok. eapply select_current; [|exact Hsel].
  intros p Hq. rewrite enqueue_perm in Hq. destruct (queued_thread _ _ _ _ p (inv_lists _ _ Hinv) Hq) as (k&->&_). done.
Qed.

(** The switches of a scheduler that has started. *)
Lemma switch_inv now c s : sched_inv c s → c_flags c ≠ 0 → measurable now c s →
  ∃ c' s', thread_yield signal_handler now 0 s = Done s' ∧ sched_inv c' s' ∧ c_flags c' ≠ 0.
Proof.
  intros Hinv Hf Hm. apply (yield_inv now c s); [apply Hinv| |done|done]. intros p Hp.
  destruct (current_thread c s p Hinv Hp) as (t&->&_). done.
Qed.

Lemma exit_inv now c s code p : sched_inv c s → c_flags c ≠ 0 → measurable now c s → cpu_thread c = Some p →
  ∃ c' s', thread_exit signal_handler now 0 code s = Done s' ∧ sched_inv c' s' ∧ c_flags c' ≠ 0.
Proof.
  intros Hinv Hf Hm Hp. destruct (current_thread c s p Hinv Hp) as (t&Ht&_). unfold thread_exit, sched_current_thread.
  rewrite (get_cpu_one c s) by apply Hinv. cbn [mbind outcome_bind]. rewrite Hp. cbn [deref mbind outcome_bind].
  unfold get_thread. rewrite Ht. cbn [deref mbind outcome_bind]. set (t' := set_tflags _ _).
  apply (switch_inv now c); [|done|by apply (measurable_put now c s p t)]. split; [|apply Hinv].
  pose proof (inv0_set_flags c s p t THREAD_EXITING (proj1 Hinv) Ht eq_refl) as Hi.
  apply (inv0_same c _ c _ Hi); [done|by split|apply Hinv|]. by rewrite !cores_put.
Qed.

Lemma suspend_inv now c s tid k p : sched_inv c s → c_flags c ≠ 0 → measurable now c s → cpu_thread c = Some p → 0 <= tid <= INT_MAX →
  ∃ ec c' s', thread_suspend signal_handler now 0 tid k s = Done (ec, s') ∧ sched_inv c' s' ∧ c_flags c' ≠ 0.
Proof.
  intros Hinv Hf Hm Hp Htid. destruct (current_thread c s p Hinv Hp) as (t&Ht&_). unfold thread_suspend, sched_current_thread.
  rewrite (get_cpu_one c s) by apply Hinv. cbn [mbind outcome_bind]. rewrite Hp. cbn [deref mbind outcome_bind].
  assert (get_thread p s = Done t) as Eg by by (unfold get_thread; rewrite Ht). rewrite Eg. cbn [mbind outcome_bind]. set (thread := if tid =? t_id t then Some p else find_thread tid s).
  assert (∀ p', thread = Some p' → is_Some (mem s !! p')) as Hthr.
  { intros p'. unfold thread. destruct (tid =? t_id t); [intros [= <-]; by rewrite Ht|].
    pose proof (find_thread_spec c s tid (proj1 Hinv) Htid) as Hfind. intros E. rewrite E in Hfind. destruct Hfind as (t'&->&_). done. }
  set (m := match thread with Some _ => _ | None => _ end).
  assert (∃ ec s1, m = Done (ec, s1) ∧ sched_inv c s1 ∧ measurable now c s1) as (ec&s1&->&Hinv1&Hm1).
  { unfold m. destruct thread as [p'|]; [|by eexists _, s]. destruct (Hthr p' eq_refl) as [t' Ht'].
    unfold get_thread. rewrite Ht'. cbn [deref mbind outcome_bind]. destruct (_ && negb k); [by eexists _, s|].
    eexists _, _. split; [reflexivity|]. destruct (has (t_flags t') THREAD_RUNNING); [|done].
    split; [apply inv_set_flags; [done|done|by destruct k]|by apply (measurable_put now c s p' t')]. }
  cbn [mbind outcome_bind]. destruct (_ && k); [|by exists ec, c, s1].
  destruct (switch_inv now c s1 Hinv1 Hf Hm1) as (c'&s'&E&Hinv'&Hf'). exists ec, c', s'. by rewrite E.
Qed.

Lemma block_inv now c s p : sched_inv c s → c_flags c ≠ 0 → cpu_thread c = Some p →
  measurable now (set_queue (dlist_remove (queue c) p) c) s →
  ∃ c' s', mutex_block signal_handler now 0 s = Done s' ∧ sched_inv c' s' ∧ c_flags c' ≠ 0.
Proof.
  intros Hinv Hf Hp Hm. destruct (current_thread c s p Hinv Hp) as (t&Ht&Hr). unfold mutex_block, thread_dequeue_self.
  destruct Hinv as [[Hc Hph Hl Hcnt Htab] Hcur]. unfold current_ok in Hcur. rewrite Hp in Hcur.
  rewrite (get_cpu_one c s Hc). cbn [mbind outcome_bind]. rewrite Hp. cbn [deref mbind outcome_bind].
  unfold get_thread. cbn [mem put_cpu]. rewrite Ht. cbn [deref mbind outcome_bind].
  set (c1 := set_queue _ c). set (t' := set_tflags _ t). assert (cores s !! p = Some (core_of t)) as Hk by by apply cores_lookup.
  apply (yield_inv now c1); [| |by apply (measurable_put now c1 _ p t)|done].
  - apply list_elem_of_split in Hcur as (a&b&Hq). pose proof Hl as (Hnd&Hrun&Hd). rewrite Hq in Hnd. rewrite <-app_assoc in Hnd. cbn [app] in Hnd.
    rewrite <-Permutation_middle in Hnd. apply NoDup_cons in Hnd as [Hnp Hnd].
    assert (queue c1 = a ++ b) as Hq1 by (unfold c1; cbn [queue set_queue]; rewrite Hq; apply dlist_remove_spec; set_solver).
    assert (exited (core_of t) = false) as He.
    { destruct (exited (core_of t)) eqn:He; [|done]. assert (p ∈ dead_threads s) by (apply Hd; by exists (core_of t)). set_solver. }
    split; [by apply (put_cpu_one c)|done| |done|];
      [change (lists_ok (queue c1) (incoming c) (dead_threads s) (cores (put_thread p t' s)))
      |change (table_ok (threads s) (tid_counter s) (proc_flags s) (cores (put_thread p t' s)))]; rewrite cores_put.
    + apply (lists_ok_change (queue c) (incoming c) (dead_threads s)); [done|rewrite Hq1, <-app_assoc; done| |done| |].
      * intros p' Hp'. rewrite Hq1, Hq. set_solver.
      * rewrite Hq1. unfold runnable, k_flags. simpl. simpl_flags. rewrite orb_true_r, andb_false_r. split; [set_solver|done].
      * unfold exited in *. unfold k_flags in *. simpl in *. simpl_flags. rewrite He. split; [set_solver|done].
    + apply (table_ok_change _ _ _ _ _ (core_of t)); [done..|]. apply andb_prop in Hr as [Hr _].
      destruct (proj2 (proj2 Htab) p _ Hk) as (_&_&Hkp&_). unfold core_ok, exited, k_flags in *. simpl in *. simpl_flags.
      rewrite Hr, He, !orb_false_r. by split.
  - intros p' Hp'. change (cpu_thread c = Some p') in Hp'. rewrite Hp in Hp'. injection Hp' as <-. cbn [mem put_thread]. by rewrite lookup_insert_eq.
Qed.

(** ** System calls *)

(** Entry into the kernel and the dispatch. *)
Definition syscall_entry (now : Z) (entry : Z) s : outcome sched :=
  self ← sched_current_thread 0 s;
  p ← deref self;
  s ← sched_raise_from_isr now 0 p true entry s;
  isr_context_switch 0 s.

(** The return to user mode and the dispatch. *)
Definition syscall_return (now : Z) s : outcome sched :=
  s ← sched_lower_from_isr signal_handler now 0 s;
  isr_context_switch 0 s.

(** The dispatch to the thread that runs already. *)
Lemma dispatch_same c s p : sched_inv0 c s → p ∈ queue c → fst (switch_to c) = Some p →
  isr_context_switch 0 s = Done (put_cpu 0 (set_cpu_thread (Some p) c) s) ∧
  sched_inv (set_cpu_thread (Some p) c) (put_cpu 0 (set_cpu_thread (Some p) c) s).
Proof.
  intros Hinv Hq Hs. unfold isr_context_switch. rewrite (get_cpu_one c s) by apply Hinv. cbn [mbind outcome_bind]. rewrite Hs.
  split; [done|]. split; [|done]. destruct Hinv. split; try done. by apply (put_cpu_one c).
Qed.

Lemma syscall_entry_inv now entry c s p t : sched_inv c s → c_flags c ≠ 0 → cpu_thread c = Some p → mem s !! p = Some t →
  has (t_flags t) THREAD_PRIVILEGED = false →
  ∃ c' s', syscall_entry now entry s = Done s' ∧ sched_inv c' s' ∧ c_flags c' ≠ 0.
Proof.
  intros Hinv Hf Hp Ht Hpr. unfold syscall_entry, sched_current_thread. rewrite (get_cpu_one c s) by apply Hinv.
  cbn [mbind outcome_bind]. rewrite Hp. cbn [deref mbind outcome_bind].
  destruct (sched_raise_spec now c s p t true entry (proj1 Hinv) Ht Hpr) as (s1&->&Hinv1&_&_). cbn [mbind outcome_bind].
  destruct (dispatch_same _ s1 p Hinv1) as [-> Hinv2]; [|done|eexists _, _; split; [reflexivity|by split; [exact Hinv2|]]].
  destruct Hinv as [_ Hcur]. unfold current_ok in Hcur. by rewrite Hp in Hcur.
Qed.

Lemma lowered_state k : core_ok k → has (k_flags k) THREAD_KERNEL = false →
  let k' := (Z.ldiff (k_flags k) THREAD_PRIVILEGED, k_id k, k_process k) in
  runnable k' = runnable k ∧ exited k' = exited k ∧ core_ok k'.
Proof.
  intros [Hk Hb] Hn. unfold core_ok, runnable, exited, k_flags in *. simpl. simpl_flags. rewrite Hn, !andb_true_r.
  split_and!; done || by split.
Qed.

(** The time in the kernel is accounted once, on the return or by the switch. *)
Lemma measurable_account now c s p t t' : mem s !! p = Some t → cpu_thread c = Some p →
  cycle_time (usage t') = cycle_time (usage t) + (now - last_preempt c) → measurable now c s →
  measurable now (set_switch_to (Some p, false) (set_last_preempt now c)) (put_thread p t' s).
Proof.
  intros Hp Hcur Hu Hm Hle. destruct (Hm Hle) as [?|Ht]; [by left|right]. intros E. apply Ht. rewrite <-E. unfold total_time. f_equal.
  apply foldr_ext; [|done|done]. intros p' n. f_equal. unfold cycles. simpl. rewrite Hcur. destruct (decide (p' = p)) as [->|].
  - rewrite lookup_insert_eq, Hp, Hu. rewrite !decide_True by done. lia.
  - rewrite lookup_insert_ne by done. destruct (mem s !! p'); [|done]. rewrite !decide_False by congruence. done.
Qed.

Lemma syscall_return_inv now c s p t r : sched_inv c s → c_flags c ≠ 0 → measurable now c s → cpu_thread c = Some p →
  mem s !! p = Some t → has (t_flags t) THREAD_PRIVILEGED = true → has (t_flags t) THREAD_KERNEL = false → t_process t = Some r →
  ∃ c' s', syscall_return now s = Done s' ∧ sched_inv c' s' ∧ c_flags c' ≠ 0.
Proof.
  intros Hinv Hf Hm Hp Ht Hpr Hk Hproc. unfold syscall_return, sched_lower_from_isr. rewrite (get_cpu_one c s) by apply Hinv.
  cbn [mbind outcome_bind]. rewrite Hp. cbn [deref mbind outcome_bind]. unfold get_thread. rewrite Ht. cbn [deref mbind outcome_bind].
  rewrite Hk, Hpr. cbn [negb andb assert_or_panic mbind outcome_bind]. rewrite Hproc. cbn [deref mbind outcome_bind proc_flags put_cpu put_thread].
  destruct (process_flags p t s _ _ (inv_table _ _ (proj1 Hinv)) Ht) as [pf Ef]. rewrite Hproc in Ef. rewrite Ef. cbn [mbind outcome_bind].
  set (t' := set_usage _ _). set (c1 := set_switch_to _ _). set (s1 := put_cpu 0 c1 (put_thread p t' s)).
  destruct (lowered_state (core_of t)) as (Hr&He&Hok); [by apply (thread_core_ok c s p t (proj1 Hinv))|done|].
  pose proof (inv0_update c s p t t' (proj1 Hinv) Ht Hr He eq_refl eq_refl Hok) as Hi.
  assert (sched_inv0 c1 s1) as Hinv1.
  { apply (inv0_same c _ c1 s1 Hi); [by split|by split|apply (put_cpu_one c), Hi|done]. }
  destruct Hinv as [_ Hcur]. unfold current_ok in Hcur. rewrite Hp in Hcur. destruct (has pf PROC_EXITING); cbn [mbind outcome_bind].
  - apply (switch_inv now c1 s1); [split; [done|]|done|].
    + unfold current_ok. cbn [cpu_thread c1 set_switch_to set_last_preempt queue]. by rewrite Hp.
    + intros Hle. by apply (measurable_account now c s p t t') in Hle.
  - destruct (dispatch_same c1 s1 p Hinv1 Hcur eq_refl) as [-> Hinv2].
    eexists _, _. split; [reflexivity|by split; [exact Hinv2|]].
Qed.
End ops.
