(* ===== verification/SchedCorrect.v ===== *)
(** * Scheduler: correctness

    The scheduler of a machine with one CPU as a transition system over the
    operations that interrupts, system calls and kernel code perform, and what
    holds in all its reachable states; the order in which threads run. *)

From S2P Require Import Prelude Badgelib Containers Sched SchedTheory SchedOps.

(** ** The transition system *)

Inductive sched_op :=
  | OpExec (now : Z)
  | OpYield (now : Z)
  | OpExit (now code : Z)
  | OpBlock (now : Z)
  | OpUnblock (p : nat)
  | OpSuspend (now tid : Z) (suspend_kernel : bool)
  | OpResume (tid : Z)
  | OpResumeNow (tid : Z)
  | OpDetach (tid : Z)
  | OpJoin (tid : Z)
  | OpNewUser (mem_ok grow : bool) (process : nat) (stack entry arg gp prio : Z)
  | OpNewKernel (mem_ok grow : bool) (stack entry arg gp prio : Z)
  | OpHousekeeping
  | OpSyscall (now entry : Z)
  | OpSysret (now : Z)
  | OpProcess (process : nat) (flags : Z).

Section correct.
Context `{!DList} `{!DListSpec} `{!KArrays} `{!KArraysSpec} (signal_handler exit_self : Z).
Implicit Types (c : sched_cpulocal) (s : sched) (o : sched_op).

(** The state that an operation leaves. *)
Definition run_op o s : outcome sched :=
  match o with
  | OpExec now => sched_exec signal_handler now 0 s
  | OpYield now => thread_yield signal_handler now 0 s
  | OpExit now code => thread_exit signal_handler now 0 code s
  | OpBlock now => mutex_block signal_handler now 0 s
  | OpUnblock p => mutex_unblock 0 p s
  | OpSuspend now tid k => '(_, s) ← thread_suspend signal_handler now 0 tid k s; Done s
  | OpResume tid => '(_, s) ← thread_resume 0 tid s; Done s
  | OpResumeNow tid => '(_, s) ← thread_resume_now 0 tid s; Done s
  | OpDetach tid => '(_, s) ← thread_detach tid s; Done s
  | OpJoin tid => '(_, s) ← thread_join_poll tid s; Done s
  | OpNewUser mem_ok grow r stack entry arg gp prio => Done (snd (thread_new_user mem_ok grow r stack entry arg gp prio s))
  | OpNewKernel mem_ok grow stack entry arg gp prio => Done (snd (thread_new_kernel exit_self mem_ok grow stack entry arg gp prio s))
  | OpHousekeeping => sched_housekeeping s
  | OpSyscall now entry => syscall_entry now entry s
  | OpSysret now => syscall_return signal_handler now s
  | OpProcess r f => Done (set_proc_flags (<[r := f]> (proc_flags s)) s)
  end.

Definition tid_ok (tid : Z) : Prop := 0 <= tid <= INT_MAX.

(** What the callers guarantee: switches happen on a started scheduler and at
    times at which the load can be measured; a thread calls for itself while
    it runs; system calls come from user mode and return from kernel mode. *)
Definition switchable (now : Z) c s : Prop := c_flags c ≠ 0 ∧ measurable now c s.

Definition allowed c s o : Prop :=
  match o with
  | OpExec now => c_flags c = 0
  | OpYield now => switchable now c s
  | OpExit now _ => switchable now c s ∧ is_Some (cpu_thread c)
  | OpBlock now => ∃ p, cpu_thread c = Some p ∧ switchable now (set_queue (dlist_remove (queue c) p) c) s
  | OpUnblock p => is_Some (mem s !! p)
  | OpSuspend now tid _ => switchable now c s ∧ is_Some (cpu_thread c) ∧ tid_ok tid
  | OpResume tid | OpResumeNow tid | OpDetach tid | OpJoin tid => tid_ok tid
  | OpNewUser _ _ r _ _ _ _ _ => is_Some (proc_flags s !! r) ∧ tid_counter s < INT_MAX
  | OpNewKernel _ _ _ _ _ _ _ => tid_counter s < INT_MAX
  | OpHousekeeping | OpProcess _ _ => True
  | OpSyscall now _ => c_flags c ≠ 0 ∧ ∃ p t, cpu_thread c = Some p ∧ mem s !! p = Some t ∧ has (t_flags t) THREAD_PRIVILEGED = false
  | OpSysret now => switchable now c s ∧ ∃ p t, cpu_thread c = Some p ∧ mem s !! p = Some t ∧
      has (t_flags t) THREAD_PRIVILEGED = true ∧ has (t_flags t) THREAD_KERNEL = false ∧ is_Some (t_process t)
  end.

Inductive sched_reach : sched → Prop :=
  | reach_init : sched_reach (sched_init 1)
  | reach_op c s o s' : sched_reach s → cpu_ctx s = [c] → allowed c s o → run_op o s = Done s' → sched_reach s'.

Lemma init_inv : sched_inv init_cpu (sched_init 1).
Proof.
  split; [|done]. split; [done|by left| |simpl; unfold INT_MAX; lia|].
  - split_and!; [constructor| |]; intros p; (split; [by intros ?%elem_of_nil|by intros (k&Hk&_)]).
  - split_and!; [constructor| |done]. intros p. split; [by intros ?%elem_of_nil|by intros []].
Qed.

Lemma next_measurement_later now : now < next_measurement now.
Proof. unfold next_measurement, SCHED_LOAD_INTERVAL. pose proof (Z.rem_bound_abs now 250000 ltac:(done)) as Hb. generalize dependent (Z.rem now 250000). intros r Hb. lia. Qed.

Lemma exec_inv now c s : sched_inv c s → c_flags c = 0 → ∃ c' s', sched_exec signal_handler now 0 s = Done s' ∧ sched_inv c' s'.
Proof.
  intros Hinv Hf. unfold sched_exec. rewrite (get_cpu_one c s) by apply Hinv. cbn [mbind outcome_bind].
  set (c1 := set_cflags 0 _). pose proof (next_measurement_later now) as Hlt. pose proof (proj1 Hinv) as [Hc Hph Hl Hcnt Htab].
  destruct (yield_inv signal_handler now c1 (put_cpu 0 c1 s)) as (c'&s'&E&Hinv'&_).
  - split; [by apply (put_cpu_one c)|by rewrite Hf in Hph|done..].
  - intros p Hp. destruct (current_thread c s p Hinv Hp) as (t&Ht&_). by exists t.
  - intros Hle. simpl in Hle. lia.
  - done.
  - by exists c', s'.
Qed.

Lemma process_inv c s r f : sched_inv c s → sched_inv c (set_proc_flags (<[r := f]> (proc_flags s)) s).
Proof.
  intros [[Hc Hph Hl Hcnt (Hs&Hin&Hk)] Hcur]. split; [|done]. split; [done..|]. split_and!; [done|done|]. intros p k Hp.
  destruct (Hk p k Hp) as (?&Hpr&?). split; [done|split; [|done]]. intros r' Hr'. simpl. destruct (decide (r' = r)) as [->|].
  - by rewrite lookup_insert_eq.
  - rewrite lookup_insert_ne by done. by apply Hpr.
Qed.

Lemma new_user_inv c s mem_ok grow r stack entry arg gp prio : sched_inv c s → is_Some (proc_flags s !! r) → tid_counter s < INT_MAX →
  sched_inv c (snd (thread_new_user mem_ok grow r stack entry arg gp prio s)).
Proof.
  intros Hinv Hr Hlt. unfold thread_new_user. set (make := λ tid : Z, _).
  pose proof (insert_thread_spec c s mem_ok grow make Hinv Hlt) as Hspec. destruct (insert_thread mem_ok grow make s) as [[tid ec] s'].
  apply Hspec. intros tid'. split_and!; [done..| |]; [split; by vm_compute|]. by intros r' [= <-].
Qed.

Lemma new_kernel_inv c s mem_ok grow stack entry arg gp prio : sched_inv c s → tid_counter s < INT_MAX →
  sched_inv c (snd (thread_new_kernel exit_self mem_ok grow stack entry arg gp prio s)).
Proof.
  intros Hinv Hlt. unfold thread_new_kernel. set (make := λ tid : Z, _).
  pose proof (insert_thread_spec c s mem_ok grow make Hinv Hlt) as Hspec. destruct (insert_thread mem_ok grow make s) as [[tid ec] s'].
  apply Hspec. intros tid'. split_and!; [done..| |]; [split; by vm_compute|done].
Qed.

Lemma op_safe c s o : sched_inv c s → allowed c s o → ∃ c' s', run_op o s = Done s' ∧ sched_inv c' s'.
Proof.
  intros Hinv Hal. destruct o; cbn [run_op allowed] in *.
  - by apply (exec_inv now c).
  - destruct Hal as [Hf Hm]. edestruct switch_inv as (c'&s'&E&?&_); [exact Hinv|done..|eauto].
  - destruct Hal as [[Hf Hm] [p Hp]]. edestruct exit_inv as (c'&s'&E&?&_); [exact Hinv|done..|eauto].
  - destruct Hal as (p&Hp&Hf&Hm). edestruct block_inv as (c'&s'&E&?&_); [exact Hinv|done..|eauto].
  - destruct Hal as [t Ht]. edestruct unblock_spec as (c'&s'&E&?&_); [exact Hinv|done..|eauto].
  - destruct Hal as ([Hf Hm]&[p Hp]&Ht). edestruct (suspend_inv signal_handler now c s tid suspend_kernel p) as (ec&c'&s'&E&?&_); [done..|].
    rewrite E. cbn [mbind outcome_bind]. eauto.
  - edestruct (resume_spec c s tid false) as (ec&c'&s'&E&?&_); [done..|]. unfold thread_resume. rewrite E. cbn [mbind outcome_bind]. eauto.
  - edestruct (resume_spec c s tid true) as (ec&c'&s'&E&?&_); [done..|]. unfold thread_resume_now. rewrite E. cbn [mbind outcome_bind]. eauto.
  - edestruct (detach_spec c s tid) as (ec&s'&E&?); [done..|]. rewrite E. cbn [mbind outcome_bind]. eauto.
  - edestruct (join_poll_spec c s tid) as (ec&s'&E&?); [done..|]. rewrite E. cbn [mbind outcome_bind]. eauto.
  - destruct Hal. eexists c, _. split; [reflexivity|]. by apply new_user_inv.
  - eexists c, _. split; [reflexivity|]. by apply new_kernel_inv.
  - destruct (housekeeping_spec c s Hinv) as (s'&E&?&_). eauto.
  - destruct Hal as (Hf&p&t&Hp&Ht&Hpr). edestruct (syscall_entry_inv now entry c s p t) as (c'&s'&E&?&_); [done..|eauto].
  - destruct Hal as ([Hf Hm]&p&t&Hp&Ht&Hpr&Hk&[r Hr]).
    edestruct (syscall_return_inv signal_handler now c s p t r) as (c'&s'&E&?&_); [done..|eauto].
  - eexists c, _. split; [reflexivity|]. by apply process_inv.
Qed.

Lemma reach_inv s : sched_reach s → ∃ c, sched_inv c s.
Proof.
  induction 1 as [|c s o s' Hreach [c0 Hinv] Hc Hal Hrun]; [by eexists; apply init_inv|].
  assert (c0 = c) as -> by (rewrite (inv_cpu _ _ (proj1 Hinv)) in Hc; congruence).
  destruct (op_safe c s o Hinv Hal) as (c'&s''&E&Hinv'). rewrite E in Hrun. injection Hrun as <-. by exists c'.
Qed.

(** C3: in every state that the scheduler of a single CPU reaches from its
    initialisation, by any sequence of context switches, thread creation,
    suspension, resumption, exit, waiting for and release of mutexes, system
    calls, process signals, joins and housekeeping: the thread that runs is in the
    run queue, and the idle thread runs only when that is empty; a thread is in
    the queue or among the incoming threads, once, exactly if it is marked as
    running and does not wait; it is among the dead threads exactly if it has
    exited; and every operation that its callers may perform returns, without a
    failed assertion, a dangling thread or an endless loop. *)
Theorem sched_reachable_safe s : sched_reach s → ∃ c, cpu_ctx s = [c] ∧
  (match cpu_thread c with Some p => p ∈ queue c | None => queue c = [] end) ∧
  NoDup (queue c ++ incoming c ++ dead_threads s) ∧
  (∀ p, p ∈ queue c ++ incoming c ↔
    ∃ t, mem s !! p = Some t ∧ has (t_flags t) THREAD_RUNNING = true ∧ has (t_flags t) THREAD_BLOCKED = false) ∧
  (∀ p, p ∈ dead_threads s ↔ ∃ t, mem s !! p = Some t ∧ has (t_flags t) THREAD_EXITED = true) ∧
  ∀ o, allowed c s o → ∃ s', run_op o s = Done s'.
Proof.
  intros [c Hinv]%reach_inv. pose proof Hinv as [[Hc _ (Hnd&Hq&Hd) _ _] Hcur]. exists c. split_and!; [done|exact Hcur|done| | |].
  - intros p. rewrite Hq. split.
    + intros (k&(t&Ht&->)%cores_lookup_inv&[Hr Hb%negb_true_iff]%andb_prop). by exists t.
    + intros (t&Ht&Hr&Hb). exists (core_of t). split; [by apply cores_lookup|]. unfold runnable, k_flags. simpl. by rewrite Hr, Hb.
  - intros p. rewrite Hd. split.
    + intros (k&(t&Ht&->)%cores_lookup_inv&He). by exists t.
    + intros (t&Ht&He). exists (core_of t). split; [by apply cores_lookup|done].
  - intros o Hal. destruct (op_safe c s o Hinv Hal) as (c'&s'&E&_). by exists s'.
Qed.

(** ** The order of threads *)

#[global] Instance verdict_eq_dec : EqDecision verdict.
Proof. solve_decision. Defined.

(** From the queue [q] the first thread [p] that may run was selected and
    moved to the end; those before it ended or were parked. *)
Definition selected (v : nat → option verdict) (q dead : list nat) (m : gmap nat core)
    (p : option nat) (q' dead' : list nat) (m' : gmap nat core) : Prop :=
  ∃ pre post, q = pre ++ post ∧ Forall (λ p, v p ≠ Some Runs) pre ∧ dead' = dead ++ filter (λ p, v p = Some Ends) pre ∧
    (∀ p k, m !! p = Some k → m' !! p = Some (if decide (p ∈ pre) then if decide (v p = Some Ends) then ended k else parked k else k)) ∧
    match p with
    | Some p => ∃ rest, post = p :: rest ∧ v p = Some Runs ∧ q' = rest ++ [p]
    | None => post = [] ∧ q' = []
    end.

Lemma filter_iff_elem {A} (P Q : A → Prop) `{!∀ x, Decision (P x)} `{!∀ x, Decision (Q x)} (l : list A) :
  (∀ x, x ∈ l → P x ↔ Q x) → filter P l = filter Q l.
Proof.
  induction l as [|x l IH]; intros Hl; [done|]. rewrite !filter_cons, IH by (intros; apply Hl; by right).
  assert (P x ↔ Q x) as HPQ by (apply Hl; by left). by rewrite (decide_ext (P x) (Q x)).
Qed.

Lemma selected_cons (v v' : nat → option verdict) p0 k q dead m p q' dead' m' : m !! p0 = Some k → v p0 ≠ Some Runs → p0 ∉ q →
  (∀ p, p ≠ p0 → v' p = v p) → let e := decide (v p0 = Some Ends) in
  selected v' q (if e then dead ++ [p0] else dead) (<[p0 := if e then ended k else parked k]> m) p q' dead' m' →
  selected v (p0 :: q) dead m p q' dead' m'.
Proof.
  intros Hk Hv Hp0 Hv' e (pre&post&->&Hpre&->&Hm&Hres). apply not_elem_of_app in Hp0 as [Hn1 Hn2].
  exists (p0 :: pre), post. split_and!; [done| | | |].
  - constructor; [done|]. rewrite Forall_forall in *. intros p1 Hp1. rewrite <-Hv' by set_solver. by apply Hpre.
  - rewrite filter_cons. rewrite (filter_iff_elem (λ p, v' p = Some Ends) (λ p, v p = Some Ends) pre); [by unfold e; case_decide; rewrite <-?app_assoc|].
    intros p1 Hp1. by rewrite Hv' by set_solver.
  - intros p1 k1 Hk1. destruct (decide (p1 = p0)) as [->|Hne].
    + rewrite Hk in Hk1. injection Hk1 as <-. rewrite (Hm p0 _ (lookup_insert_eq _ _ _)). rewrite decide_False by done.
      destruct (decide (p0 ∈ p0 :: pre)) as [|Hx]; [done|]. destruct Hx. by left.
    + rewrite (Hm p1 k1) by by rewrite lookup_insert_ne. f_equal. rewrite Hv' by done.
      destruct (decide (p1 ∈ pre)), (decide (p1 ∈ p0 :: pre)); set_solver.
  - destruct p as [p|]; [|done]. destruct Hres as (rest&->&Hr&->). exists rest. split_and!; [done| |done]. rewrite <-Hv'; [done|set_solver].
Qed.

Lemma select_selected procs : ∀ q dead m p q' dead' m', NoDup q → (∀ p, p ∈ q → is_Some (m !! p)) →
  select procs q dead m = (p, q', dead', m') → selected (λ p, verdict_of procs <$> m !! p) q dead m p q' dead' m'.
Proof.
  induction q as [|p0 q IH]; intros dead m p q' dead' m' Hnd Hq; cbn [select].
  { intros [= <- <- <- <-]. exists [], []. split_and!; [done|done|by rewrite app_nil_r|by intros p1 k1 ->|done..]. }
  destruct (Hq p0) as [k Hk]; [by left|]. rewrite Hk. apply NoDup_cons in Hnd as [Hp0 Hnd].
  assert (∀ k', ∀ p, p ∈ q → is_Some (<[p0 := k']> m !! p)) as Hins.
  { intros k' p' Hp'. rewrite lookup_insert_ne by set_solver. apply Hq. by right. }
  assert (∀ k' p, p ≠ p0 → verdict_of procs <$> <[p0 := k']> m !! p = verdict_of procs <$> m !! p) as Hsame
    by (intros; by rewrite lookup_insert_ne).
  destruct (verdict_of procs k) eqn:Hv; intros Hsel.
  - apply IH in Hsel; [|done|apply Hins]. apply (selected_cons _ (λ p, verdict_of procs <$> <[p0 := ended k]> m !! p) p0 k); [done|simpl; rewrite Hk; simpl; congruence|done|apply Hsame|].
    rewrite !decide_True by (simpl; rewrite Hk; simpl; congruence). exact Hsel.
  - apply IH in Hsel; [|done|apply Hins]. apply (selected_cons _ (λ p, verdict_of procs <$> <[p0 := parked k]> m !! p) p0 k); [done|simpl; rewrite Hk; simpl; congruence|done|apply Hsame|].
    rewrite !decide_False by (simpl; rewrite Hk; simpl; congruence). exact Hsel.
  - injection Hsel as <- <- <- <-. exists [], (p0 :: q). split_and!; [done|done|by rewrite app_nil_r|by intros p1 k1 ->|].
    exists q. rewrite Hk. simpl. by rewrite Hv.
Qed.

Definition verdict_at s (p : nat) : option verdict := verdict_of (proc_flags s) <$> cores s !! p.

Lemma inv_queued c s p : sched_inv0 c s → p ∈ enqueue (cores s) (queue c) (incoming c) → is_Some (cores s !! p).
Proof.
  intros Hinv Hq. rewrite enqueue_perm in Hq. destruct (queued_thread _ _ _ _ p (inv_lists _ _ Hinv) Hq) as (k&->&_). done.
Qed.

(** C8: a context switch in a reachable state implements round robin: the
    incoming threads join the queue, those resumed with [thread_resume_now] in
    front; of the queue the first thread that may run is selected and moved to
    the end; the threads before it are those that are ending, which join the
    dead threads, and those to be suspended, which leave the queue; nothing
    changes for other threads, except that the selected one may enter the kernel
    for a signal; the idle thread is selected if no thread may run. *)
Theorem yield_selects_first_ready now c s : sched_reach s → cpu_ctx s = [c] → switchable now c s →
  ∃ c' s' m, thread_yield signal_handler now 0 s = Done s' ∧ cpu_ctx s' = [c'] ∧ incoming c' = [] ∧
    selected (verdict_at s) (enqueue (cores s) (queue c) (incoming c)) (dead_threads s) (cores s)
      (cpu_thread c') (queue c') (dead_threads s') m ∧ raised m (cores s').
Proof.
  intros [c0 Hinv]%reach_inv Hc [Hf Hm].
  assert (c0 = c) as -> by (rewrite (inv_cpu _ _ (proj1 Hinv)) in Hc; congruence).
  destruct (thread_yield_spec signal_handler now c s (proj1 Hinv)) as (c'&s'&m&E&Hinv'&Hi&Hsel&Hra&_); [|done|done|].
  { intros p Hp. destruct (current_thread c s p Hinv Hp) as (t&->&_). done. }
  exists c', s', m. split_and!; [done|apply Hinv'|done| |done]. apply select_selected in Hsel; [done| |].
  - rewrite enqueue_perm. pose proof (inv_lists _ _ (proj1 Hinv)) as (Hnd&_&_). rewrite app_assoc in Hnd. by apply NoDup_app in Hnd as (?&_&_).
  - intros p Hp. by apply (inv_queued c s p (proj1 Hinv)).
Qed.

(** ** Round robin *)

Fixpoint ticks (nows : list Z) s : outcome sched :=
  match nows with [] => Done s | now :: nows => s ← thread_yield signal_handler now 0 s; ticks nows s end.

(** The load can be measured at every tick at which a measurement is due. *)
Fixpoint measurable_ticks (nows : list Z) s : Prop :=
  match nows with
  | [] => True
  | now :: nows => (∀ c, cpu_ctx s = [c] → measurable now c s) ∧
      ∀ s', thread_yield signal_handler now 0 s = Done s' → measurable_ticks nows s'
  end.

(** Neither ending nor to be suspended. *)
Definition ready s (p : nat) : Prop := verdict_at s p = Some Runs.

Lemma raised_ready s s' m p : raised m (cores s') → proc_flags s' = proc_flags s → cores s !! p = m !! p → ready s p → ready s' p.
Proof.
  unfold ready, verdict_at. intros Hra Hpf Hp. rewrite Hpf, Hp. destruct (Hra p) as [E|(k&E1&E2)]; [by rewrite E|]. rewrite E1, E2. unfold privileged. cbn [fmap option_fmap option_map].
  intros [= Hv]. f_equal. unfold verdict_of, may_suspend, process_exiting in *. unfold k_flags, k_process in *. cbn [fst snd] in *. simpl_flags.
  rewrite !orb_false_r, orb_true_r. destruct (has (fst (fst k)) THREAD_EXITING); [done|]. cbn [negb orb andb] in *. rewrite andb_false_r, orb_false_r.
  destruct (_ && negb (has (fst (fst k)) THREAD_PRIVILEGED)); [done|].
  destruct (has (fst (fst k)) THREAD_KSUSPEND), (has (fst (fst k)) THREAD_SUSPENDING), (has (fst (fst k)) THREAD_PRIVILEGED); done.
Qed.

(** The run queue at the next switch: threads that were handed over come to its
    ends, at the front those that were resumed with priority. *)
Definition next_queue c s : list nat := enqueue (cores s) (queue c) (incoming c).

Lemma tick_rotates now c s p q : sched_inv c s → c_flags c ≠ 0 → measurable now c s → next_queue c s = p :: q →
  (∀ p, p ∈ next_queue c s → ready s p) →
  ∃ c' s', thread_yield signal_handler now 0 s = Done s' ∧ sched_inv c' s' ∧ c_flags c' ≠ 0 ∧ incoming c' = [] ∧
    queue c' = q ++ [p] ∧ cpu_thread c' = Some p ∧ ∀ p, p ∈ queue c' → ready s' p.
Proof.
  intros Hinv Hf Hm Hq Hready.
  destruct (thread_yield_spec signal_handler now c s (proj1 Hinv)) as (c'&s'&m&E&Hinv'&Hi'&Hsel&Hra&_&_&Hpf&Hf'&_); [|done|done|].
  { intros p' Hp. destruct (current_thread c s p' Hinv Hp) as (t&->&_). done. }
  assert (ready s p) as Hp by (apply Hready; rewrite Hq; by left). unfold ready, verdict_at in Hp.
  destruct (cores s !! p) as [k|] eqn:Hk; [|done]. injection Hp as Hp. unfold next_queue in Hq, Hready. rewrite Hq in Hsel. cbn [select] in Hsel.
  rewrite Hk, Hp in Hsel. injection Hsel as Hcur Hq' _ <-. exists c', s'.
  split_and!; [done| |done|done|done|done|].
  - split; [done|]. unfold current_ok. rewrite <-Hcur, <-Hq'. set_solver.
  - intros p' Hp'. apply (raised_ready s s' (cores s)); [done|done|done|]. apply Hready. rewrite Hq, <-Hq' in *. set_solver.
Qed.

Lemma ticks_rotate : ∀ k nows c s p, sched_inv c s → c_flags c ≠ 0 → measurable_ticks nows s →
  (∀ p, p ∈ next_queue c s → ready s p) → length nows = S k → next_queue c s !! k = Some p →
  ∃ c' s', ticks nows s = Done s' ∧ cpu_ctx s' = [c'] ∧ cpu_thread c' = Some p ∧ queue c' = drop (S k) (next_queue c s) ++ take (S k) (next_queue c s).
Proof.
  induction k as [|k IH]; intros nows c s p Hinv Hf Hm Hready Hlen Hk;
    (destruct nows as [|now nows]; [done|]); injection Hlen as Hlen; (destruct (next_queue c s) as [|p0 q] eqn:Hq; [done|]);
    destruct Hm as [Hm Hms]; specialize (Hm c (inv_cpu _ _ (proj1 Hinv)));
    (destruct (tick_rotates now c s p0 q) as (c1&s1&E&Hinv1&Hf1&Hi1&Hq1&Hcur&Hready1); [done|done|done|done|by rewrite Hq|]);
    (assert (next_queue c1 s1 = q ++ [p0]) as Hn1 by (unfold next_queue; by rewrite Hi1, Hq1));
    cbn [ticks]; rewrite E; cbn [mbind outcome_bind].
  - apply nil_length_inv in Hlen as ->. injection Hk as <-. exists c1, s1. split_and!; [done|apply Hinv1|done|done].
  - cbn [lookup list_lookup] in Hk. assert (k < length q)%nat as Hlt by by eapply lookup_lt_Some.
    destruct (IH nows c1 s1 p) as (c'&s'&E'&Hc'&Hcur'&Hq'); [done|done|by apply Hms|rewrite Hn1, <-Hq1; done|done|by rewrite Hn1, lookup_app_l by done|].
    exists c', s'. split_and!; [done|done|done|]. rewrite Hq', Hn1. rewrite drop_app_le, take_app_le by lia. by rewrite <-app_assoc.
Qed.

(** C11: as long as nothing but context switches happens, no thread starves.  Let
    the scheduler run on a reachable state, with every thread that is queued or
    handed over ready to run (not ending and not to be suspended), and let its load
    be measurable at the switches, that is, time passes between measurements.  Then
    the thread at position [k] of the queue, with the threads that were handed over
    in their places, runs after [k + 1] switches, whenever they happen, and the
    queue has been rotated by [k + 1] places, so that the same holds of the next
    round.  Nothing is claimed of runs where threads are created, resumed or blocked
    between the switches: a thread resumed with priority goes to the front. *)
Theorem round_robin_fair k nows c s p : sched_reach s → cpu_ctx s = [c] → c_flags c ≠ 0 →
  (∀ p, p ∈ next_queue c s → ready s p) → measurable_ticks nows s → length nows = S k → next_queue c s !! k = Some p →
  ∃ c' s', ticks nows s = Done s' ∧ cpu_ctx s' = [c'] ∧ cpu_thread c' = Some p ∧
    queue c' = drop (S k) (next_queue c s) ++ take (S k) (next_queue c s).
Proof.
  intros [c0 Hinv]%reach_inv Hc Hf Hready Hm Hlen Hk.
  assert (c0 = c) as -> by (rewrite (inv_cpu _ _ (proj1 Hinv)) in Hc; congruence). by apply (ticks_rotate k nows c s p).
Qed.

(** ** The life of a thread *)





(** Joining a thread that has exited returns and marks the thread for
    removal; the next round of housekeeping then frees it: it is gone from the
    thread list and from memory, and other threads stay, unless they have also
    exited and been detached. *)
Theorem join_frees c s p t : sched_reach s → cpu_ctx s = [c] → mem s !! p = Some t → has (t_flags t) THREAD_EXITED = true →
  ∃ s1 s2, thread_join_poll (t_id t) s = Done (true, s1) ∧ sched_housekeeping s1 = Done s2 ∧
    mem s2 !! p = None ∧ p ∉ threads s2 ∧ sched_get_thread (t_id t) s2 = None ∧ thread_join_poll (t_id t) s2 = Done (true, s2) ∧
    ∀ p' t', p' ≠ p → mem s !! p' = Some t' → has (t_flags t') THREAD_EXITED && has (t_flags t') THREAD_DETACHED = false →
      mem s2 !! p' = Some t'.
Proof.
  intros [c0 Hinv]%reach_inv Hc Ht He.
  assert (c0 = c) as -> by (rewrite (inv_cpu _ _ (proj1 Hinv)) in Hc; congruence).
  pose proof (inv_table _ _ (proj1 Hinv)) as (Hs&Hl&Hk). destruct (Hk _ _ (cores_lookup _ _ _ Ht)) as (Hid&_&_).
  change (0 < t_id t < tid_counter s) in Hid. pose proof (inv_counter _ _ (proj1 Hinv)) as Hcnt.
  assert (tid_ok (t_id t)) as Htid by (unfold tid_ok; lia).
  assert (find_thread (t_id t) s = Some p) as Hfind by apply (find_thread_unique c s p t (proj1 Hinv) Ht).
  set (t1 := set_tflags (Z.lor (t_flags t) THREAD_DETACHED) t). set (s1 := put_thread p t1 s).
  assert (thread_join_poll (t_id t) s = Done (true, s1)) as Ej.
  { unfold thread_join_poll. rewrite Hfind. unfold get_thread. rewrite Ht. cbn [deref mbind outcome_bind]. by rewrite He. }
  assert (sched_inv c s1) as Hinv1 by by apply inv_set_flags.
  destruct (housekeeping_spec c s1 Hinv1) as (s2&Eh&Hinv2&_&_&Hm). pose proof (inv_lists _ _ (proj1 Hinv1)) as (_&_&Hd).
  assert (mem s1 !! p = Some t1) as Ht1 by apply lookup_insert_eq.
  assert (has (t_flags t1) THREAD_EXITED = true ∧ has (t_flags t1) THREAD_DETACHED = true) as [He1 Hd1].
  { unfold t1. cbn [t_flags set_tflags]. simpl_flags. by rewrite He, orb_true_r. }
  assert (mem s2 !! p = None) as Hp2.
  { rewrite Hm, decide_True; [done|]. split; [|unfold detached; by rewrite Ht1]. apply Hd. exists (core_of t1).
    split; [by apply cores_lookup|done]. }
  assert (∀ p' t', p' ≠ p → mem s2 !! p' = Some t' → mem s !! p' = Some t') as Hback.
  { intros p' t' Hne. rewrite Hm. case_decide; [done|]. simpl. by rewrite lookup_insert_ne. }
  assert (find_thread (t_id t) s2 = None) as Hnone.
  { pose proof (find_thread_spec c s2 (t_id t) (proj1 Hinv2) Htid) as Hf2. destruct (find_thread (t_id t) s2) as [p'|]; [|done].
    destruct Hf2 as (t'&Ht'&Hid'). destruct (decide (p' = p)) as [->|Hne]; [congruence|]. apply Hback in Ht'; [|done].
    pose proof (find_thread_unique c s p' t' (proj1 Hinv) Ht') as E. rewrite Hid' in E. congruence. }
  exists s1, s2. split_and!; [done|done|done| |done|by unfold thread_join_poll; rewrite Hnone|].
  - intros Hin. apply (inv_table _ _ (proj1 Hinv2)) in Hin as [k Hk2]. unfold cores in Hk2. by rewrite lookup_fmap, Hp2 in Hk2.
  - intros p' t' Hne Ht' Hde. rewrite Hm. assert (mem s1 !! p' = Some t') as Ht1' by by (simpl; rewrite lookup_insert_ne).
    rewrite decide_False; [done|]. intros [Hin Hdet]. unfold detached in Hdet. rewrite Ht1' in Hdet.
    apply Hd in Hin as (k'&Hk'&Hek). rewrite (cores_lookup _ _ _ Ht1') in Hk'. injection Hk' as <-.
    change (has (t_flags t') THREAD_EXITED = true) in Hek. by rewrite Hek, Hdet in Hde.
Qed.
End correct.

(** ** Examples

    A machine starts two kernel threads and its scheduler; the first thread
    exits later. *)

Definition demo_run := @run_op demo_dlist demo_arrays 0x100 0x200.

Fixpoint demo_ops (ops : list sched_op) (s : sched) : outcome sched :=
  match ops with [] => Done s | o :: ops => s ← demo_run o s; demo_ops ops s end.

Definition demo_list : list sched_op :=
  [OpNewKernel true true 0x8000 0x4000 7 0 0; OpResume 1; OpNewKernel true true 0x9000 0x5000 8 0 0; OpResume 2;
   OpExec 1000; OpYield 8000; OpYield 15000; OpExit 20000 3; OpYield 26000].

Definition demo_state (n : nat) : sched := match demo_ops (take n demo_list) (sched_init 1) with Done s => s | _ => sched_init 1 end.
Definition demo_cpu (n : nat) : sched_cpulocal := default init_cpu (cpu_ctx (demo_state n) !! 0%nat).

(** No load is measured in the first 250 milliseconds. *)
Lemma demo_switchable n now : c_flags (demo_cpu n) ≠ 0 → now < load_measure_time (demo_cpu n) →
  switchable now (demo_cpu n) (demo_state n).
Proof. intros Hf Hlt. split; [done|]. intros Hle. lia. Qed.

Abbreviation demo_reach := (@sched_reach demo_dlist demo_arrays 0x100 0x200).

Lemma demo_reach_step n o : demo_list !! n = Some o → @allowed demo_dlist (demo_cpu n) (demo_state n) o →
  cpu_ctx (demo_state n) = [demo_cpu n] → demo_run o (demo_state n) = Done (demo_state (S n)) →
  demo_reach (demo_state n) → demo_reach (demo_state (S n)).
Proof. intros _ Hal Hc Hrun Hr. by apply (reach_op _ _ (demo_cpu n) (demo_state n) o). Qed.

Lemma demo_reach_all : Forall (λ n, demo_reach (demo_state n)) [6; 7; 9]%nat.
Proof.
  assert (demo_reach (demo_state 0)) as R0 by apply reach_init.
  assert (demo_reach (demo_state 1)) as R1 by (eapply demo_reach_step; [reflexivity|by vm_compute| | |done]; by vm_compute).
  assert (demo_reach (demo_state 2)) as R2 by (eapply demo_reach_step; [reflexivity|by vm_compute| | |done]; by vm_compute).
  assert (demo_reach (demo_state 3)) as R3 by (eapply demo_reach_step; [reflexivity|by vm_compute| | |done]; by vm_compute).
  assert (demo_reach (demo_state 4)) as R4 by (eapply demo_reach_step; [reflexivity|by vm_compute| | |done]; by vm_compute).
  assert (demo_reach (demo_state 5)) as R5 by (eapply demo_reach_step; [reflexivity|by vm_compute| | |done]; by vm_compute).
  assert (demo_reach (demo_state 6)) as R6 by (eapply demo_reach_step; [reflexivity|apply demo_switchable| | |done]; by vm_compute).
  assert (demo_reach (demo_state 7)) as R7 by (eapply demo_reach_step; [reflexivity|apply demo_switchable| | |done]; by vm_compute).
  assert (demo_reach (demo_state 8)) as R8.
  { eapply demo_reach_step; [reflexivity| | | |done]; [|by vm_compute..]. split; [apply demo_switchable; by vm_compute|by vm_compute; eexists]. }
  assert (demo_reach (demo_state 9)) as R9 by (eapply demo_reach_step; [reflexivity|apply demo_switchable| | |done]; by vm_compute).
  by repeat constructor.
Qed.

Lemma demo_reach_7 : demo_reach (demo_state 7).
Proof. pose proof demo_reach_all as R. rewrite Forall_forall in R. apply R. by right; left. Qed.

Lemma demo_reach_9 : demo_reach (demo_state 9).
Proof. pose proof demo_reach_all as R. rewrite Forall_forall in R. apply R. by right; right; left. Qed.

#[local] Existing Instances demo_dlist demo_dlist_spec demo_arrays demo_arrays_spec.

Lemma sched_reachable_safe_witness : cpu_thread (demo_cpu 7) = Some 0%nat ∧ queue (demo_cpu 7) = [1; 0]%nat ∧
  ∃ c, cpu_ctx (demo_state 7) = [c] ∧ NoDup (queue c ++ incoming c ++ dead_threads (demo_state 7)) ∧
    ∀ o, allowed c (demo_state 7) o → ∃ s', demo_run o (demo_state 7) = Done s'.
Proof.
  split; [by vm_compute|]. split; [by vm_compute|].
  destruct (sched_reachable_safe 0x100 0x200 (demo_state 7) demo_reach_7) as (c&Hc&_&Hnd&_&_&Hop).
  exists c. split; [exact Hc|]. split; [exact Hnd|exact Hop].
Defined.

Lemma yield_selects_first_ready_witness : ∃ c' s' m, thread_yield 0x100 21000 0 (demo_state 7) = Done s' ∧ cpu_ctx s' = [c'] ∧
  incoming c' = [] ∧ selected (verdict_at (demo_state 7)) [1; 0]%nat [] (cores (demo_state 7)) (cpu_thread c') (queue c') (dead_threads s') m ∧
  raised m (cores s').
Proof.
  apply (yield_selects_first_ready 0x100 0x200 21000 (demo_cpu 7) (demo_state 7)).
  - exact demo_reach_7.
  - by vm_compute.
  - apply demo_switchable; by vm_compute.
Defined.

Lemma round_robin_fair_witness : ∃ c' s', ticks 0x100 [21000; 30000] (demo_state 7) = Done s' ∧ cpu_ctx s' = [c'] ∧ cpu_thread c' = Some 0%nat ∧
  queue c' = [1; 0]%nat.
Proof.
  apply (round_robin_fair 0x100 0x200 1 [21000; 30000] (demo_cpu 7) (demo_state 7) 0).
  - exact demo_reach_7.
  - by vm_compute.
  - by vm_compute.
  - change (next_queue (demo_cpu 7) (demo_state 7)) with [1; 0]%nat. intros p. rewrite !elem_of_cons, elem_of_nil. intros [->|[->|[]]]; by vm_compute.
  - split; [intros c Hc; vm_compute in Hc; injection Hc as <-; intros Hle; by vm_compute in Hle|].
    intros s' Hs'. split; [|done]. intros c Hc Hle. vm_compute in Hs'. injection Hs' as <-. vm_compute in Hc. injection Hc as <-. by vm_compute in Hle.
  - done.
  - by vm_compute.
Defined.


Lemma join_frees_witness : ∃ s1 s2, thread_join_poll 1 (demo_state 9) = Done (true, s1) ∧ sched_housekeeping s1 = Done s2 ∧
  mem s2 !! 0%nat = None ∧ sched_get_thread 1 s2 = None.
Proof.
  destruct (mem (demo_state 9) !! 0%nat) as [t|] eqn:Ht; [|by vm_compute in Ht].
  assert (t_id t = 1 ∧ has (t_flags t) THREAD_EXITED = true) as [Hid He] by (vm_compute in Ht; injection Ht as <-; by vm_compute).
  destruct (join_frees 0x100 0x200 (demo_cpu 9) (demo_state 9) 0 t demo_reach_9) as (s1&s2&Ej&Eh&Hm&_&Hg&_); [by vm_compute|exact Ht|exact He|].
  rewrite Hid in Ej, Hg. exists s1, s2. split; [exact Ej|]. split; [exact Eh|]. split; [exact Hm|exact Hg].
Defined.

(** ** Observations *)

Definition busy_cpu : sched_cpulocal := Cpu [] [] SCHED_RUNNING 0 250000 9000 9000 0 0 None (None, true) 0.
Definition heavy_thread : sched_thread := Thread None 0x8000 0 (TimeUsage 0 0 0 5000) 0x19 0 zero_regs zero_regs 1.
Definition two_cpus : sched := Sched [busy_cpu; busy_cpu] {[ 0%nat := heavy_thread ]} [0%nat] [] 2 2 ∅.

(** A CPU without room for a thread reports that it took the thread, which the
    load balancer then drops from its own queue. *)
Example handoff_reports_success : thread_handoff 0 1 false 10000 two_cpus = Done (true, two_cpus).
Proof. by vm_compute. Qed.

(** A CPU whose scheduler does not run keeps [run_mtx] locked after a hand-off
    was refused, so that its exclusive acquisition does not end. *)
Example handoff_keeps_lock : (let s := put_cpu 1 init_cpu two_cpus in
  '(ok, s) ← thread_handoff 0 1 false 10000 s; c ← get_cpu 1 s; Done (ok, run_held c)) = Done (false, 1%nat).
Proof. by vm_compute. Qed.

(** A user thread of a process with a pending signal: the switch marks it as
    privileged but selects its user context, and its next system call fails the
    assertion of [sched_raise_from_isr]. *)
Definition user_thread : sched_thread := Thread (Some 0%nat) 0x8000 0 (TimeUsage 0 0 0 0) THREAD_RUNNING 0 zero_regs zero_regs 1.
Definition signalled : sched :=
  Sched [Cpu [0%nat] [] SCHED_RUNNING 0 250000 0 0 0 0 None (None, true) 0] {[ 0%nat := user_thread ]} [0%nat] [] 2 1 {[ 0%nat := PROC_SIGPEND ]}.

Example signal_runs_user_context :
  (s ← thread_yield 0x100 1000 0 signalled; c ← get_cpu 0 s; t ← get_thread 0 s; Done (switch_to c, has (t_flags t) THREAD_PRIVILEGED))
    = Done ((Some 0%nat, false), true) ∧
  (s ← thread_yield 0x100 1000 0 signalled; syscall_entry 2000 0x300 s) = Panic.
Proof. split; by vm_compute. Qed.

(** A load measurement at which no time was accounted divides by zero. *)
Example measure_divides_by_zero :
  thread_yield 0x100 250000 0 (Sched [Cpu [] [0%nat] SCHED_RUNNING 0 250000 0 0 0 0 None (None, true) 0]
    {[ 0%nat := user_thread ]} [0%nat] [] 2 1 {[ 0%nat := 0 ]}) = Undef.
Proof. by vm_compute. Qed.
