(* ===== verification/PageTable.v ===== *)
(** * Page tables

    The page tables of kernel/port/generic/src/memprotect.c over the entry
    format of kernel/cpu/riscv/include/cpu/mmu.h.  Physical memory is a function
    from the address of a word to the word; the allocator of pages is an
    interface ([TablePages], page_alloc.c).  Fences have no effect here. *)

From S2P Require Import Prelude Containers.

Definition MMU_BITS_PER_LEVEL : Z := 9.
Definition MMU_PAGE_SIZE : Z := 0x1000.
Definition MEMPROTECT_FLAG_R : Z := 0x01.
Definition MEMPROTECT_FLAG_W : Z := 0x02.
Definition MEMPROTECT_FLAG_RW : Z := 0x03.
Definition MEMPROTECT_FLAG_RWX : Z := 0x07.
Definition MEMPROTECT_FLAG_GLOBAL : Z := 0x10.
Definition MEMPROTECT_FLAG_KERNEL : Z := 0x20.
Definition MEMPROTECT_FLAG_IO : Z := 0x40.
Definition MEMPROTECT_FLAG_NC : Z := 0x80.

(** ** Page table entries *)

(** [count] bits of a word from bit [pos]. *)
Definition bits (val pos count : Z) : Z := Z.land (Z.shiftr val pos) (Z.ones count).

Definition flag (flags mask : Z) : bool := negb (Z.land flags mask =? 0).

(** The fields are set one after the other, from the lowest. *)
Definition mmu_pte_new_leaf (svpbmt : bool) (ppn flags : Z) : Z :=
  let rwx := Z.land flags MEMPROTECT_FLAG_RWX in
  let pbmt := if svpbmt && flag flags MEMPROTECT_FLAG_IO then 2 else if svpbmt && flag flags MEMPROTECT_FLAG_NC then 1 else 0 in
  Z.b2z (negb (rwx =? 0)) + rwx * 2 + Z.b2z (negb (flag flags MEMPROTECT_FLAG_KERNEL)) * 2 ^ 4 +
  Z.b2z (flag flags MEMPROTECT_FLAG_GLOBAL) * 2 ^ 5 + 2 ^ 6 + 2 ^ 7 + wrap 44 ppn * 2 ^ 10 + pbmt * 2 ^ 61.

Definition mmu_pte_new (ppn : Z) : Z := 1 + wrap 44 ppn * 2 ^ 10.
Definition MMU_PTE_NULL : Z := 0.

Definition mmu_pte_is_valid (pte : Z) : bool := Z.testbit pte 0.
Definition mmu_pte_is_leaf (pte : Z) : bool := negb (bits pte 1 3 =? 0).
Definition mmu_pte_get_flags (pte : Z) : Z :=
  Z.lor (Z.lor (bits pte 1 3) (bits pte 5 1 * MEMPROTECT_FLAG_GLOBAL)) (Z.b2z (bits pte 4 1 =? 0) * MEMPROTECT_FLAG_KERNEL).
Definition mmu_pte_get_ppn (pte : Z) : Z := bits pte 10 44.

Definition mmu_vpn_part (vpn : Z) (pt_level : nat) : Z := Z.land (Z.shiftr vpn (9 * Z.of_nat pt_level)) 0x1ff.

(** ** Physical memory *)

(** [phys_page_alloc(1, false)] returns a cleared page, or 0. *)
Definition words : Type := Z → Z.
Class TablePages (PS : Type) := table_alloc : PS → words → outcome (Z * PS * words).

(** The variables of the MMU driver. *)
Record mmu := Mmu { mmu_levels : nat; mmu_hhdm_size : Z; mmu_svpbmt : bool }.

Definition mmu_half_pages (k : mmu) : Z := 2 ^ (9 * Z.of_nat (mmu_levels k) - 1).
Definition mmu_high_vpn (k : mmu) : Z := 2 ^ 52 - mmu_half_pages k.

(** [SATP] selects the number of levels. *)
Definition mmu_early_init (satp_mode : Z) (hhdm_size : Z) : mmu := Mmu (Z.to_nat (satp_mode - 8 + 3)) hhdm_size false.

Record pt_walk_t := PtWalk { w_paddr : Z; w_pte : Z; w_level : nat; w_found : bool; w_vaddr_valid : bool }.

Section table.
Context {PS : Type} `{!TablePages PS} (k : mmu).

Definition vm : Type := PS * words.
Implicit Types s : vm.

Definition mmu_read_pte (paddr : Z) s : outcome Z :=
  _ ← assert_or_panic (paddr <? mmu_hhdm_size k); Done (snd s paddr).

Definition mmu_write_pte (paddr data : Z) s : outcome vm :=
  _ ← assert_or_panic (paddr <? mmu_hhdm_size k); Done (fst s, λ a, if a =? paddr then data else snd s a).

Definition pte_paddr (pt_ppn vpn : Z) (level : nat) : Z := pt_ppn * MMU_PAGE_SIZE + mmu_vpn_part vpn level * 8.

(** ** Walking *)

(** The levels below [n]; a leaf above the lowest level must be aligned.  The
    shift is of type [int]. *)
Fixpoint walk_loop (n : nat) (pt_ppn vpn : Z) s : outcome pt_walk_t :=
  match n with
  | O => Panic
  | S level =>
      let pte_addr := pte_paddr pt_ppn vpn level in
      pte ← mmu_read_pte pte_addr s;
      let ppn := mmu_pte_get_ppn pte in
      if negb (mmu_pte_is_valid pte) then Done (PtWalk pte_addr pte level false true)
      else if mmu_pte_is_leaf pte then
        if (level =? 0)%nat then Done (PtWalk pte_addr pte level true true)
        else if 31 <=? MMU_BITS_PER_LEVEL * Z.of_nat level then Undef
        else if negb (Z.land ppn (Z.shiftl 1 (MMU_BITS_PER_LEVEL * Z.of_nat level) - 1) =? 0) then Panic
        else Done (PtWalk pte_addr pte level true true)
      else walk_loop level ppn vpn s
  end.

Definition pt_walk (pt_ppn vpn : Z) s : outcome pt_walk_t :=
  if (mmu_half_pages k <=? vpn) && (vpn <? mmu_high_vpn k) then Done (PtWalk 0 0 0 false false)
  else walk_loop (mmu_levels k) pt_ppn vpn s.

(** ** Mapping *)

(** The entries [i] and up of the new table. *)
Fixpoint split_table_loop (n : nat) (i : Z) (next_pt ppn flags : Z) s : outcome vm :=
  match n with
  | O => Done s
  | S n =>
      s ← mmu_write_pte (next_pt * MMU_PAGE_SIZE + i * 8) (mmu_pte_new_leaf (mmu_svpbmt k) (ppn + i) flags) s;
      split_table_loop n (i + 1) next_pt ppn flags s
  end.

Definition pt_split (pte_addr pte : Z) s : outcome (Z * vm) :=
  '(next_pt, ps, m) ← table_alloc (fst s) (snd s);
  _ ← assert_or_panic (negb (next_pt =? 0));
  s ← split_table_loop 512 0 next_pt (mmu_pte_get_ppn pte) (mmu_pte_get_flags pte) (ps, m);
  s ← mmu_write_pte pte_addr (mmu_pte_new next_pt) s;
  Done (next_pt, s).

(** The walk down from level [pt_level] to [pte_level], with the level at which
    it started. *)
Fixpoint map_loop (pt_level pte_level orig : nat) (pt_ppn vpn : Z) (top_edit : bool) s : outcome (Z * bool * vm) :=
  if (pte_level <? pt_level)%nat then
    match pt_level with
    | O => Done (pt_ppn, top_edit, s)
    | S next =>
        let pte_addr := pte_paddr pt_ppn vpn pt_level in
        pte ← mmu_read_pte pte_addr s;
        if negb (mmu_pte_is_valid pte) then
          '(next_pt, ps, m) ← table_alloc (fst s) (snd s);
          _ ← assert_or_panic (negb (next_pt =? 0));
          s ← mmu_write_pte pte_addr (mmu_pte_new next_pt) (ps, m);
          map_loop next pte_level orig next_pt vpn (top_edit || (orig =? pt_level)%nat) s
        else if mmu_pte_is_leaf pte then
          '(next_pt, s) ← pt_split pte_addr pte s;
          map_loop next pte_level orig next_pt vpn (top_edit || (orig =? pt_level)%nat) s
        else map_loop next pte_level orig (mmu_pte_get_ppn pte) vpn top_edit s
    end
  else Done (pt_ppn, top_edit, s).

Definition pt_map_1 (pt_ppn : Z) (pt_level : nat) (vpn ppn : Z) (pte_level : nat) (flags : Z) s : outcome (bool * vm) :=
  _ ← assert_or_panic (pt_level <? mmu_levels k)%nat;
  _ ← assert_or_panic (pte_level <? mmu_levels k)%nat;
  _ ← assert_or_panic (flag flags MEMPROTECT_FLAG_RWX);
  _ ← assert_or_panic (negb (Z.land flags MEMPROTECT_FLAG_RW =? MEMPROTECT_FLAG_W));
  _ ← assert_or_panic (pte_level <=? pt_level)%nat;
  '(pt_ppn, top_edit, s) ← map_loop pt_level pte_level pt_level pt_ppn vpn (pt_level =? pte_level)%nat s;
  s ← mmu_write_pte (pte_paddr pt_ppn vpn pte_level) (mmu_pte_new_leaf (mmu_svpbmt k) ppn flags) s;
  Done (top_edit, s).

(** ** Unmapping *)

(** The index of every level is that of the level to unmap; [None] when
    nothing is mapped. *)
Fixpoint unmap_loop (pt_level pte_level orig : nat) (pt_ppn vpn : Z) (top_edit : bool) s : outcome (option Z * bool * vm) :=
  if (pte_level <? pt_level)%nat then
    match pt_level with
    | O => Done (Some pt_ppn, top_edit, s)
    | S next =>
        let pte_addr := pte_paddr pt_ppn vpn pte_level in
        pte ← mmu_read_pte pte_addr s;
        if negb (mmu_pte_is_valid pte) then Done (None, top_edit, s)
        else if mmu_pte_is_leaf pte then
          '(next_pt, s) ← pt_split pte_addr pte s;
          unmap_loop next pte_level orig next_pt vpn (top_edit || (orig =? pt_level)%nat) s
        else unmap_loop next pte_level orig (mmu_pte_get_ppn pte) vpn top_edit s
    end
  else Done (Some pt_ppn, top_edit, s).

Definition pt_unmap_1 (pt_ppn : Z) (pt_level : nat) (vpn : Z) (pte_level : nat) s : outcome (bool * vm) :=
  _ ← assert_or_panic (pt_level <? mmu_levels k)%nat;
  _ ← assert_or_panic (pte_level <? mmu_levels k)%nat;
  _ ← assert_or_panic (pte_level <=? pt_level)%nat;
  '(pt_ppn, top_edit, s) ← unmap_loop pt_level pte_level pt_level pt_ppn vpn (pt_level =? pte_level)%nat s;
  match pt_ppn with
  | None => Done (top_edit, s)
  | Some pt_ppn =>
      s ← mmu_write_pte (pte_paddr pt_ppn vpn pte_level) MMU_PTE_NULL s;
      Done (top_edit, s)
  end.

(** ** Ranges *)

Definition super_len (level : nat) : Z := Z.shiftl 1 (MMU_BITS_PER_LEVEL * Z.of_nat level).

Fixpoint pt_calc_superpage (max_level : nat) (vpn ppn max_len : Z) : nat :=
  match max_level with
  | O => O
  | S next =>
      let len := super_len max_level in
      if (Z.land vpn (len - 1) =? 0) && (Z.land ppn (len - 1) =? 0) && (len <=? max_len) then max_level
      else pt_calc_superpage next vpn ppn max_len
  end.

Fixpoint pt_map (fuel : nat) (pt_ppn : Z) (pt_level : nat) (vpn ppn pages flags : Z) (top_edit : bool) s : outcome (bool * vm) :=
  if pages =? 0 then Done (top_edit, s) else
  match fuel with
  | O => Fuel
  | S fuel =>
      let pte_level := pt_calc_superpage pt_level vpn ppn pages in
      '(edit, s) ← pt_map_1 pt_ppn pt_level vpn ppn pte_level flags s;
      let len := super_len pte_level in
      pt_map fuel pt_ppn pt_level (vpn + len) (ppn + len) (pages - len) flags (top_edit || edit) s
  end.

Fixpoint pt_unmap (fuel : nat) (pt_ppn : Z) (pt_level : nat) (vpn pages : Z) (top_edit : bool) s : outcome (bool * vm) :=
  if pages =? 0 then Done (top_edit, s) else
  match fuel with
  | O => Fuel
  | S fuel =>
      let pte_level := pt_calc_superpage pt_level vpn 0 pages in
      '(edit, s) ← pt_unmap_1 pt_ppn pt_level vpn pte_level s;
      let len := super_len pte_level in
      pt_unmap fuel pt_ppn pt_level (vpn + len) (pages - len) (top_edit || edit) s
  end.

(** ** Contexts *)

(** The roots of the global table and of the contexts in the list. *)
Record vspace := Vspace { v_vm : vm; global_root : Z; ctx_list : list Z }.
Implicit Types v : vspace.

Definition set_vm s v : vspace := Vspace s (global_root v) (ctx_list v).

Fixpoint broadcast_loop (n : nat) (i dest src : Z) s : outcome vm :=
  match n with
  | O => Done s
  | S n =>
      pte ← mmu_read_pte (src * MMU_PAGE_SIZE + i * 8) s;
      s ← (if mmu_pte_is_valid pte then mmu_write_pte (dest * MMU_PAGE_SIZE + i * 8) pte s else Done s);
      broadcast_loop n (i + 1) dest src s
  end.

(** The upper half of a root table. *)
Definition broadcast_to (dest_pt_ppn src_pt_ppn : Z) s : outcome vm := broadcast_loop 256 256 dest_pt_ppn src_pt_ppn s.

Fixpoint broadcast_all (global : Z) (ctxs : list Z) s : outcome vm :=
  match ctxs with
  | [] => Done s
  | ctx :: ctxs => s ← broadcast_to global ctx s; broadcast_all global ctxs s
  end.

Record virt2phys_t := Virt2Phys { v2p_flags : Z; v2p_paddr : Z; v2p_page_vaddr : Z; v2p_page_paddr : Z; v2p_page_size : Z }.

Definition memprotect_virt2phys (root : Z) (vaddr : Z) s : outcome virt2phys_t :=
  if (mmu_half_pages k * MMU_PAGE_SIZE <=? vaddr) && (vaddr <? mmu_high_vpn k * MMU_PAGE_SIZE) then Done (Virt2Phys 0 0 0 0 0) else
  walk ← pt_walk root (vaddr / MMU_PAGE_SIZE) s;
  if w_found walk then
    let page_size := MMU_PAGE_SIZE * super_len (w_level walk) in
    let page_paddr := mmu_pte_get_ppn (w_pte walk) * MMU_PAGE_SIZE in
    Done (Virt2Phys (mmu_pte_get_flags (w_pte walk)) (page_paddr + Z.land vaddr (page_size - 1))
      (Z.land vaddr (wnot 64 (page_size - 1))) page_paddr page_size)
  else Done (Virt2Phys 0 0 0 0 0).

Definition memprotect_create v : outcome (Z * vspace) :=
  '(root, ps, m) ← table_alloc (fst (v_vm v)) (snd (v_vm v));
  _ ← assert_or_panic (negb (root =? 0));
  let m' := memcpy (root * MMU_PAGE_SIZE) (global_root v * MMU_PAGE_SIZE) MMU_PAGE_SIZE m in
  Done (root, Vspace (ps, m') (global_root v) (ctx_list v ++ [root])).

(** The pages of the table are not freed. *)
Definition memprotect_destroy (root : Z) v : vspace :=
  Vspace (v_vm v) (global_root v) (filter (λ r, r ≠ root) (ctx_list v)).

Definition memprotect_impl (root vpn ppn pages flags : Z) v : outcome vspace :=
  let flags := if flag flags MEMPROTECT_FLAG_W then Z.lor flags MEMPROTECT_FLAG_R else flags in
  let top := (mmu_levels k - 1)%nat in
  '(top_mod, s) ← (if flag flags MEMPROTECT_FLAG_RWX then pt_map (Z.to_nat pages) root top vpn ppn pages flags false (v_vm v)
                   else pt_unmap (Z.to_nat pages) root top vpn pages false (v_vm v));
  s ← (if (top_mod : bool) && flag flags MEMPROTECT_FLAG_GLOBAL then broadcast_all (global_root v) (ctx_list v) s else Done s);
  Done (set_vm s v).

Definition misaligned (x : Z) : bool := negb (x mod MMU_PAGE_SIZE =? 0).

Definition memprotect_u (root vaddr paddr length flags : Z) v : outcome (bool * vspace) :=
  if misaligned (Z.lor (Z.lor vaddr paddr) length) then Done (false, v) else
  let vaddr := vaddr / MMU_PAGE_SIZE in
  let paddr := paddr / MMU_PAGE_SIZE in
  let length := length / MMU_PAGE_SIZE in
  if mmu_half_pages k <? vaddr + length then Done (false, v) else
  v ← memprotect_impl root vaddr paddr length (Z.ldiff flags (Z.lor MEMPROTECT_FLAG_GLOBAL MEMPROTECT_FLAG_KERNEL)) v;
  Done (true, v).

Definition memprotect_k (vaddr paddr length flags : Z) v : outcome (bool * vspace) :=
  if misaligned (Z.lor (Z.lor vaddr paddr) length) then Done (false, v) else
  let vaddr := vaddr / MMU_PAGE_SIZE in
  let paddr := paddr / MMU_PAGE_SIZE in
  let length := length / MMU_PAGE_SIZE in
  if (vaddr <? mmu_high_vpn k) || (mmu_high_vpn k + mmu_half_pages k <? vaddr + length) then Done (false, v) else
  v ← memprotect_impl (global_root v) vaddr paddr length (Z.lor flags (Z.lor MEMPROTECT_FLAG_GLOBAL MEMPROTECT_FLAG_KERNEL)) v;
  Done (true, v).
End table.
