(* ===== verification/PageTableTheory.v ===== *)
(** * Page tables: trees

    A page table in memory is the representation of a tree; its translation is
    a function of the tree.  Entries of a table of level [l] cover [2 ^ (9 * l)]
    pages each. *)

From S2P Require Import Prelude Containers PageTable.

(** ** Entries *)

Lemma bits_spec val pos count : 0 <= pos → 0 <= count → bits val pos count = val / 2 ^ pos mod 2 ^ count.
Proof. intros Hp Hc. unfold bits. by rewrite Z.land_ones, Z.shiftr_div_pow2 by done. Qed.

(** A field of a sum of fields. *)
Lemma bits_field lo mid hi pos count : 0 <= pos → 0 <= count → 0 <= lo < 2 ^ pos → 0 <= mid < 2 ^ count →
  bits (lo + mid * 2 ^ pos + hi * 2 ^ (pos + count)) pos count = mid.
Proof.
  intros Hp Hc Hlo Hmid. rewrite bits_spec by done. rewrite Z.pow_add_r by done.
  replace (lo + mid * 2 ^ pos + hi * (2 ^ pos * 2 ^ count)) with (lo + (mid + hi * 2 ^ count) * 2 ^ pos) by lia.
  rewrite Z.div_add by lia. rewrite Z.div_small by done. rewrite Z.add_0_l, Z.mod_add by lia. by apply Z.mod_small.
Qed.

Lemma b2z_bound b : 0 <= Z.b2z b <= 1.
Proof. by destruct b. Qed.

Lemma wrap44 ppn : 0 <= wrap 44 ppn < 2 ^ 44.
Proof. by apply Z.mod_pos_bound. Qed.

Lemma pte_new_fields ppn : mmu_pte_is_valid (mmu_pte_new ppn) = true ∧ mmu_pte_is_leaf (mmu_pte_new ppn) = false ∧
  mmu_pte_get_ppn (mmu_pte_new ppn) = wrap 44 ppn.
Proof.
  unfold mmu_pte_new, mmu_pte_is_valid, mmu_pte_is_leaf, mmu_pte_get_ppn. split_and!.
  - rewrite Z.bit0_odd. replace (1 + wrap 44 ppn * 2 ^ 10) with (1 + 2 * (wrap 44 ppn * 2 ^ 9)) by lia. by rewrite Z.odd_add_mul_2.
  - replace (1 + wrap 44 ppn * 2 ^ 10) with (1 + 0 * 2 ^ 1 + wrap 44 ppn * 2 ^ 6 * 2 ^ (1 + 3)) by lia. by rewrite bits_field.
  - pose proof (wrap44 ppn). replace (1 + wrap 44 ppn * 2 ^ 10) with (1 + wrap 44 ppn * 2 ^ 10 + 0 * 2 ^ (10 + 44)) by lia. by rewrite bits_field.
Qed.

(** The flags that a leaf encodes. *)
Definition mapped_flags (flags : Z) : Z :=
  Z.lor (Z.lor (Z.land flags MEMPROTECT_FLAG_RWX) (Z.land flags MEMPROTECT_FLAG_GLOBAL)) (Z.land flags MEMPROTECT_FLAG_KERNEL).

Lemma flag_bit f k : 0 <= k → flag f (2 ^ k) = Z.testbit f k.
Proof.
  intros Hk. unfold flag. destruct (Z.testbit f k) eqn:Hb.
  - apply negb_true_iff, Z.eqb_neq. intros E. apply (f_equal (λ x, Z.testbit x k)) in E.
    by rewrite Z.land_spec, Hb, Z.pow2_bits_true, Z.bits_0 in E.
  - apply negb_false_iff, Z.eqb_eq, Z.bits_inj'. intros n Hn. rewrite Z.land_spec, Z.bits_0.
    rewrite Z.pow2_bits_eqb by done. destruct (Z.eqb_spec k n) as [->|]; [by rewrite Hb|by rewrite andb_false_r].
Qed.

Lemma land_flag f k : 0 <= k → Z.land f (2 ^ k) = Z.b2z (flag f (2 ^ k)) * 2 ^ k.
Proof.
  intros Hk. rewrite flag_bit by done. apply Z.bits_inj'. intros n Hn. rewrite Z.land_spec, Z.pow2_bits_eqb by done.
  destruct (Z.testbit f k) eqn:Hb; simpl Z.b2z; rewrite ?Z.mul_1_l, ?Z.mul_0_l, ?Z.bits_0, ?Z.pow2_bits_eqb by done;
    destruct (Z.eqb_spec k n) as [->|]; by rewrite ?Hb, ?andb_true_r, ?andb_false_r.
Qed.

Lemma pte_leaf_fields svpbmt ppn flags : flag flags MEMPROTECT_FLAG_RWX = true →
  let w := mmu_pte_new_leaf svpbmt ppn flags in
  mmu_pte_is_valid w = true ∧ mmu_pte_is_leaf w = true ∧ mmu_pte_get_ppn w = wrap 44 ppn ∧ mmu_pte_get_flags w = mapped_flags flags.
Proof.
  intros Hf w. pose proof (wrap44 ppn) as Hp. unfold w, mmu_pte_new_leaf. clear w.
  set (rwx := Z.land flags MEMPROTECT_FLAG_RWX). set (pbmt := if svpbmt && _ then 2 else _).
  set (u := Z.b2z (negb (flag flags MEMPROTECT_FLAG_KERNEL))). set (g := Z.b2z (flag flags MEMPROTECT_FLAG_GLOBAL)).
  assert (0 <= rwx < 8) as Hrwx by (unfold rwx, MEMPROTECT_FLAG_RWX; change 7 with (Z.ones 3); rewrite Z.land_ones by lia; by apply Z.mod_pos_bound).
  assert (rwx ≠ 0) as Hne by (intros E; unfold flag in Hf; fold rwx in Hf; by rewrite E in Hf).
  rewrite (proj2 (Z.eqb_neq rwx 0)) by done. cbn [negb]. change (Z.b2z true) with 1.
  assert (0 <= u <= 1) as Hu by apply b2z_bound. assert (0 <= g <= 1) as Hg by apply b2z_bound.
  set (hi := 1 + 2 + wrap 44 ppn * 2 ^ 4 + pbmt * 2 ^ 55).
  replace (1 + rwx * 2 + u * 2 ^ 4 + g * 2 ^ 5 + 2 ^ 6 + 2 ^ 7 + wrap 44 ppn * 2 ^ 10 + pbmt * 2 ^ 61)
    with (1 + rwx * 2 + u * 2 ^ 4 + g * 2 ^ 5 + hi * 2 ^ 6) by (unfold hi; lia).
  assert (bits (1 + rwx * 2 + u * 2 ^ 4 + g * 2 ^ 5 + hi * 2 ^ 6) 1 3 = rwx) as Eb1.
  { replace (1 + rwx * 2 + u * 2 ^ 4 + g * 2 ^ 5 + hi * 2 ^ 6) with (1 + rwx * 2 ^ 1 + (u + g * 2 + hi * 4) * 2 ^ (1 + 3)) by lia. apply bits_field; lia. }
  assert (bits (1 + rwx * 2 + u * 2 ^ 4 + g * 2 ^ 5 + hi * 2 ^ 6) 4 1 = u) as Eb4.
  { replace (1 + rwx * 2 + u * 2 ^ 4 + g * 2 ^ 5 + hi * 2 ^ 6) with (1 + rwx * 2 + u * 2 ^ 4 + (g + hi * 2) * 2 ^ (4 + 1)) by lia. apply bits_field; lia. }
  assert (bits (1 + rwx * 2 + u * 2 ^ 4 + g * 2 ^ 5 + hi * 2 ^ 6) 5 1 = g) as Eb5.
  { replace (1 + rwx * 2 + u * 2 ^ 4 + g * 2 ^ 5 + hi * 2 ^ 6) with (1 + rwx * 2 + u * 2 ^ 4 + g * 2 ^ 5 + hi * 2 ^ (5 + 1)) by lia. apply bits_field; lia. }
  unfold mmu_pte_is_valid, mmu_pte_is_leaf, mmu_pte_get_ppn, mmu_pte_get_flags. rewrite Eb1, Eb4, Eb5. split_and!.
  - rewrite Z.bit0_odd. replace (1 + rwx * 2 + u * 2 ^ 4 + g * 2 ^ 5 + hi * 2 ^ 6) with (1 + 2 * (rwx + u * 2 ^ 3 + g * 2 ^ 4 + hi * 2 ^ 5)) by lia.
    by rewrite Z.odd_add_mul_2.
  - by rewrite (proj2 (Z.eqb_neq rwx 0)).
  - replace (1 + rwx * 2 + u * 2 ^ 4 + g * 2 ^ 5 + hi * 2 ^ 6)
      with (1 + rwx * 2 + u * 2 ^ 4 + g * 2 ^ 5 + 3 * 2 ^ 6 + wrap 44 ppn * 2 ^ 10 + pbmt * 2 ^ 7 * 2 ^ (10 + 44)) by (unfold hi; lia).
    apply bits_field; lia.
  - unfold mapped_flags. fold rwx. change MEMPROTECT_FLAG_GLOBAL with (2 ^ 4) in *. change MEMPROTECT_FLAG_KERNEL with (2 ^ 5) in *.
    rewrite !land_flag by lia. fold g. f_equal. unfold u. by destruct (flag flags (2 ^ 5)).
Qed.

(** ** Trees *)

Inductive ptree := Empty | Leaf (pte : Z) | Table (ppn : Z) (entries : list ptree).

Fixpoint ent_pages (t : ptree) : list Z :=
  match t with Table ppn es => ppn :: concat (map ent_pages es) | _ => [] end.

Definition tab_pages (ppn : Z) (es : list ptree) : list Z := ppn :: concat (map ent_pages es).

(** The pages that an entry of level [l] covers. *)
Definition cover (l : nat) : Z := 2 ^ (9 * Z.of_nat l).

Lemma cover_pos l : 0 < cover l.
Proof. apply Z.pow_pos_nonneg; lia. Qed.

Lemma cover_S l : cover (S l) = 512 * cover l.
Proof. unfold cover. rewrite <-(Z.pow_add_r 2 9) by lia. f_equal. lia. Qed.

(** The table of level [l] in page [ppn] represents the entries [es]. *)
Fixpoint tab_repr (l : nat) (m : words) (ppn : Z) (es : list ptree) : Prop :=
  length es = 512%nat ∧ ∀ i t, es !! i = Some t → let w := m (ppn * MMU_PAGE_SIZE + Z.of_nat i * 8) in
    match t with
    | Empty => mmu_pte_is_valid w = false
    | Leaf pte => w = pte ∧ mmu_pte_is_valid w = true ∧ mmu_pte_is_leaf w = true ∧ mmu_pte_get_ppn w mod cover l = 0 ∧ (l <= 3)%nat
    | Table p es' => mmu_pte_is_valid w = true ∧ mmu_pte_is_leaf w = false ∧ mmu_pte_get_ppn w = p ∧
        match l with O => False | S l => tab_repr l m p es' end
    end.

(** The translation of page [x] of the range that a table covers: physical page
    and flags. *)
Fixpoint view (l : nat) (es : list ptree) (x : Z) : option (Z * Z) :=
  match es !! Z.to_nat (x / cover l) with
  | Some (Leaf pte) => Some (mmu_pte_get_ppn pte + x mod cover l, mmu_pte_get_flags pte)
  | Some (Table _ es) => match l with O => None | S l' => view l' es (x mod cover l) end
  | _ => None
  end.

(** The level of the leaf that translates [x]. *)
Fixpoint leaf_level (l : nat) (es : list ptree) (x : Z) : nat :=
  match es !! Z.to_nat (x / cover l) with
  | Some (Leaf _) => l
  | Some (Table _ es) => match l with O => 0 | S l' => leaf_level l' es (x mod cover l) end
  | _ => 0
  end.

Definition in_page (a p : Z) : Prop := p * MMU_PAGE_SIZE <= a < (p + 1) * MMU_PAGE_SIZE.

Lemma in_page_apart a p q : in_page a p → in_page a q → p = q.
Proof. unfold in_page, MMU_PAGE_SIZE. lia. Qed.

Lemma in_page_entry p i : 0 <= i < 512 → in_page (p * MMU_PAGE_SIZE + i * 8) p.
Proof. unfold in_page, MMU_PAGE_SIZE. lia. Qed.

Lemma elem_of_subpages p es i t q : es !! i = Some t → q ∈ ent_pages t → q ∈ tab_pages p es.
Proof.
  intros Hi Hq. right. apply list_elem_of_In, in_concat. exists (ent_pages t). split; [|by apply list_elem_of_In].
  apply in_map. apply list_elem_of_In. by eapply list_elem_of_lookup_2.
Qed.

Lemma tab_repr_length l m ppn es : tab_repr l m ppn es → length es = 512%nat.
Proof. destruct l; by intros [? _]. Qed.

(** Memory outside the pages of a table does not matter. *)
Lemma tab_repr_frame m m' : ∀ l ppn es, tab_repr l m ppn es → (∀ a p, p ∈ tab_pages ppn es → in_page a p → m' a = m a) →
  tab_repr l m' ppn es.
Proof.
  assert (∀ (ppn : Z) (es : list ptree) (i : nat) (t : ptree), length es = 512%nat → (∀ a p, p ∈ tab_pages ppn es → in_page a p → m' a = m a) →
    es !! i = Some t → m' (ppn * MMU_PAGE_SIZE + Z.of_nat i * 8) = m (ppn * MMU_PAGE_SIZE + Z.of_nat i * 8)) as Hw.
  { intros ppn es i t Hl Hm Hi. apply (Hm _ ppn); [by left|]. apply in_page_entry. apply lookup_lt_Some in Hi. lia. }
  induction l as [|l IH]; intros ppn es [Hlen Hes] Hm; (split; [done|]); intros i t Hi; specialize (Hes i t Hi); cbv zeta in *;
    rewrite (Hw ppn es i t) by done; [done|]. destruct t as [|pte|p es']; [done|done|]. destruct Hes as (?&?&?&Hsub).
  split_and!; [done..|]. apply IH; [done|]. intros a q Hq. apply Hm. by apply (elem_of_subpages ppn es i (Table p es')).
Qed.

(** ** The walk *)

Lemma vpn_part_spec vpn l : mmu_vpn_part vpn l = vpn / cover l mod 512.
Proof. unfold mmu_vpn_part, cover. change 0x1ff with (Z.ones 9). rewrite Z.land_ones, Z.shiftr_div_pow2 by lia. done. Qed.

(** The index of [vpn] in a table of level [l]. *)
Lemma vpn_index vpn l : vpn / cover l mod 512 = (vpn mod cover (S l)) / cover l.
Proof.
  pose proof (cover_pos l). rewrite cover_S, (Z.mul_comm 512), Z.rem_mul_r, (Z.mul_comm (cover l)), Z.div_add by lia.
  by rewrite (Z.div_small (vpn mod cover l)) by (apply Z.mod_pos_bound; lia).
Qed.

Lemma vpn_rest vpn l : (vpn mod cover (S l)) mod cover l = vpn mod cover l.
Proof.
  pose proof (cover_pos l). rewrite cover_S, (Z.mul_comm 512), Z.rem_mul_r, (Z.mul_comm (cover l)), Z.mod_add by lia. apply Z.mod_mod. lia.
Qed.

Lemma vpn_part_bound vpn l : 0 <= mmu_vpn_part vpn l < 512.
Proof. rewrite vpn_part_spec. by apply Z.mod_pos_bound. Qed.

Section walk.
Context {PS : Type} (k : mmu).

(** The pages of a table are inside the mapped physical memory. *)
Definition mapped (p : Z) : Prop := 0 <= p ∧ (p + 1) * MMU_PAGE_SIZE <= mmu_hhdm_size k.

Lemma read_pte (s : vm (PS := PS)) p a : mapped p → in_page a p → mmu_read_pte k a s = Done (snd s a).
Proof. intros [_ Hp] Ha. unfold mmu_read_pte. rewrite (proj2 (Z.ltb_lt _ _)) by (unfold in_page in Ha; lia). done. Qed.

Lemma write_pte (s : vm (PS := PS)) p a w : mapped p → in_page a p →
  mmu_write_pte k a w s = Done (fst s, λ x, if x =? a then w else snd s x).
Proof. intros [_ Hp] Ha. unfold mmu_write_pte. rewrite (proj2 (Z.ltb_lt _ _)) by (unfold in_page in Ha; lia). done. Qed.

Lemma pte_paddr_page p vpn l : in_page (pte_paddr p vpn l) p.
Proof. unfold pte_paddr. apply in_page_entry, vpn_part_bound. Qed.

(** The entry that a walk reads. *)
Lemma table_entry (s : vm (PS := PS)) vpn l ppn es : tab_repr l (snd s) ppn es → mapped ppn → ∃ t,
  es !! Z.to_nat (vpn mod cover (S l) / cover l) = Some t ∧
  mmu_read_pte k (pte_paddr ppn vpn l) s = Done (snd s (pte_paddr ppn vpn l)) ∧
  let w := snd s (pte_paddr ppn vpn l) in
  match t with
  | Empty => mmu_pte_is_valid w = false
  | Leaf pte => w = pte ∧ mmu_pte_is_valid w = true ∧ mmu_pte_is_leaf w = true ∧ mmu_pte_get_ppn w mod cover l = 0 ∧ (l <= 3)%nat
  | Table p es' => mmu_pte_is_valid w = true ∧ mmu_pte_is_leaf w = false ∧ mmu_pte_get_ppn w = p ∧
      match l with O => False | S l => tab_repr l (snd s) p es' end
  end.
Proof.
  intros Hr Hp. pose proof (vpn_part_bound vpn l) as Hb. rewrite <-vpn_index, <-vpn_part_spec.
  pose proof (tab_repr_length _ _ _ _ Hr) as Hlen.
  destruct (lookup_lt_is_Some_2 es (Z.to_nat (mmu_vpn_part vpn l))) as [t Ht]; [lia|]. exists t. split_and!; [done|by apply (read_pte s ppn), pte_paddr_page|].
  unfold pte_paddr. replace (mmu_vpn_part vpn l) with (Z.of_nat (Z.to_nat (mmu_vpn_part vpn l))) by lia.
  destruct l; destruct Hr as [_ Hr]; apply (Hr _ _ Ht).
Qed.

Lemma aligned_test ppn l : ppn mod cover l = 0 → Z.land ppn (Z.shiftl 1 (MMU_BITS_PER_LEVEL * Z.of_nat l) - 1) = 0.
Proof.
  intros Hp. unfold MMU_BITS_PER_LEVEL. rewrite Z.shiftl_1_l, Z.sub_1_r, <-Z.ones_equiv. by rewrite Z.land_ones by lia.
Qed.

Lemma walk_loop_S (s : vm (PS := PS)) level pt_ppn vpn : walk_loop k (S level) pt_ppn vpn s =
  (pte ← mmu_read_pte k (pte_paddr pt_ppn vpn level) s;
   if negb (mmu_pte_is_valid pte) then Done (PtWalk (pte_paddr pt_ppn vpn level) pte level false true)
   else if mmu_pte_is_leaf pte then
     if (level =? 0)%nat then Done (PtWalk (pte_paddr pt_ppn vpn level) pte level true true)
     else if 31 <=? MMU_BITS_PER_LEVEL * Z.of_nat level then Undef
     else if negb (Z.land (mmu_pte_get_ppn pte) (Z.shiftl 1 (MMU_BITS_PER_LEVEL * Z.of_nat level) - 1) =? 0) then Panic
     else Done (PtWalk (pte_paddr pt_ppn vpn level) pte level true true)
   else walk_loop k level (mmu_pte_get_ppn pte) vpn s).
Proof. reflexivity. Qed.

(** Walking a table that represents a tree returns, and finds the translation. *)
Lemma walk_spec (s : vm (PS := PS)) vpn : ∀ l ppn es, tab_repr l (snd s) ppn es → (∀ p, p ∈ tab_pages ppn es → mapped p) →
  ∃ w, walk_loop k (S l) ppn vpn s = Done w ∧ w_vaddr_valid w = true ∧ (w_found w = true → w_level w = leaf_level l es (vpn mod cover (S l))) ∧
    view l es (vpn mod cover (S l)) =
      if w_found w then Some (mmu_pte_get_ppn (w_pte w) + vpn mod cover (w_level w), mmu_pte_get_flags (w_pte w)) else None.
Proof.
  induction l as [|l IH]; intros ppn es Hr Hm; rewrite walk_loop_S;
    (destruct (table_entry s vpn _ ppn es Hr) as (t&Ht&->&Hw); [apply Hm; by left|]); cbn [mbind outcome_bind] in *; cbv zeta in Hw.
  - destruct t as [|pte|p es']; [|destruct Hw as (<-&Hv&Hl&_)|by destruct Hw as (_&_&_&[])]; cbn [view leaf_level]; rewrite Ht, ?Hw, ?Hv, ?Hl; cbn [negb];
      (eexists; split_and!; [reflexivity|done|done|]); [done|]. cbn [w_found w_pte w_level]. by rewrite vpn_rest.
  - destruct t as [|pte|p es']; cbn [view leaf_level]; rewrite Ht.
    + rewrite Hw. cbn [negb]. by eexists.
    + destruct Hw as (<-&Hv&Hl&Ha&Hle). rewrite Hv, Hl. cbn [negb Nat.eqb]. rewrite (proj2 (Z.leb_gt _ _)) by (unfold MMU_BITS_PER_LEVEL; lia).
      rewrite aligned_test by done. cbn [Z.eqb negb]. eexists. split_and!; [reflexivity|done|done|]. cbn [w_found w_pte w_level]. by rewrite vpn_rest.
    + destruct Hw as (Hv&Hl&Hp&Hsub). rewrite Hv, Hl, Hp. cbn [negb].
      destruct (IH p es' Hsub) as (w&->&Hvv&Hlev&Hview); [intros q Hq; apply Hm; by eapply (elem_of_subpages ppn es _ (Table p es'))|].
      rewrite vpn_rest. by exists w.
Qed.
End walk.
