(* ===== verification/PageTableMap.v ===== *)
(** * Page tables: mapping

    What the functions that edit page tables do to the tree that a table
    represents.  The allocator of pages is used through its laws. *)

From S2P Require Import Prelude Containers PageTable PageTableTheory.

(** ** Editing one entry *)

Definition ent_repr (l : nat) (m : words) (w : Z) (t : ptree) : Prop :=
  match t with
  | Empty => mmu_pte_is_valid w = false
  | Leaf pte => w = pte ∧ mmu_pte_is_valid w = true ∧ mmu_pte_is_leaf w = true ∧ mmu_pte_get_ppn w mod cover l = 0 ∧ (l <= 3)%nat
  | Table p es => mmu_pte_is_valid w = true ∧ mmu_pte_is_leaf w = false ∧ mmu_pte_get_ppn w = p ∧
      match l with O => False | S l => tab_repr l m p es end
  end.

Lemma tab_repr_unfold l m ppn es : tab_repr l m ppn es ↔
  length es = 512%nat ∧ ∀ i t, es !! i = Some t → ent_repr l m (m (ppn * MMU_PAGE_SIZE + Z.of_nat i * 8)) t.
Proof. by destruct l. Qed.

(** The pages of the other entries. *)
Definition others (i : nat) (es : list ptree) : list Z := concat (map ent_pages (delete i es)).

Lemma concat_perm (l l' : list (list Z)) : l ≡ₚ l' → concat l ≡ₚ concat l'.
Proof.
  induction 1 as [|x l l' _ IH|x y l|l l' l'' _ IH1 _ IH2]; simpl; [done|by rewrite IH| |by etransitivity].
  by rewrite !app_assoc, (Permutation_app_comm y x).
Qed.

Lemma pages_split i es t : es !! i = Some t → concat (map ent_pages es) ≡ₚ ent_pages t ++ others i es.
Proof.
  intros Hi. unfold others. change (ent_pages t ++ concat (map ent_pages (delete i es))) with (concat (map ent_pages (t :: delete i es))).
  apply concat_perm, Permutation_map. by apply delete_Permutation.
Qed.

Lemma others_insert i es t : others i (<[i := t]> es) = others i es.
Proof.
  unfold others. do 2 f_equal. rewrite !delete_take_drop. by rewrite take_insert_ge, drop_insert_lt by lia.
Qed.

Lemma pages_insert i es t : (i < length es)%nat → concat (map ent_pages (<[i := t]> es)) ≡ₚ ent_pages t ++ others i es.
Proof. intros Hi. rewrite (pages_split i _ t); [by rewrite others_insert|by apply list_lookup_insert_eq]. Qed.

Lemma others_elem i j es u p : es !! j = Some u → j ≠ i → p ∈ ent_pages u → p ∈ others i es.
Proof.
  intros Hj Hne Hp. unfold others. apply list_elem_of_In, in_concat. exists (ent_pages u). split; [|by apply list_elem_of_In].
  apply in_map, list_elem_of_In, list_elem_of_lookup. destruct (decide (j < i)%nat).
  - exists j. by rewrite list_lookup_delete_lt.
  - exists (j - 1)%nat. rewrite list_lookup_delete_ge by lia. by replace (S (j - 1)) with j by lia.
Qed.

(** One entry of a table is replaced; the pages below it may change. *)
Lemma tab_update l m m' ppn es i t t' : tab_repr l m ppn es → es !! i = Some t → NoDup (tab_pages ppn es) →
  let a := ppn * MMU_PAGE_SIZE + Z.of_nat i * 8 in ent_repr l m' (m' a) t' →
  (∀ x, x ≠ a → (∀ p, p ∈ ent_pages t' → ¬ in_page x p) → m' x = m x) →
  (∀ p, p ∈ ent_pages t' → p ≠ ppn ∧ p ∉ others i es) → tab_repr l m' ppn (<[i := t']> es).
Proof.
  intros [Hlen Hes]%tab_repr_unfold Hi Hnd a Ht' Hm Hdis. apply tab_repr_unfold. rewrite length_insert. split; [done|].
  assert (i < 512)%nat as Hi' by (rewrite <-Hlen; by eapply lookup_lt_Some).
  intros j u Hj. destruct (decide (j = i)) as [->|Hne].
  { rewrite list_lookup_insert_eq in Hj by lia. by injection Hj as <-. }
  rewrite list_lookup_insert_ne in Hj by done. assert (j < 512)%nat as Hj' by (rewrite <-Hlen; by eapply lookup_lt_Some).
  specialize (Hes j u Hj). rewrite Hm; cycle 1.
  { unfold a, MMU_PAGE_SIZE. lia. }
  { intros p [Hp _]%Hdis Hin. apply Hp. apply (in_page_apart (ppn * MMU_PAGE_SIZE + Z.of_nat j * 8)); [done|]. apply in_page_entry. lia. }
  destruct u as [|pte|p es']; [done|done|]. destruct Hes as (?&?&?&Hsub). split_and!; [done..|]. destruct l as [|l]; [done|].
  apply (tab_repr_frame m); [done|]. intros x q Hq Hx.
  assert (q ∈ others i es) as Hqo by by apply (others_elem i j es (Table p es')).
  apply Hm.
  - intros ->. assert (q = ppn) as ->.
    { apply (in_page_apart a); [done|]. apply in_page_entry. lia. }
    unfold tab_pages in Hnd. rewrite (pages_split i es t Hi) in Hnd. apply NoDup_cons in Hnd as [Hnd _]. apply Hnd, elem_of_app. by right.
  - intros p' Hp' Hx'. apply (proj2 (Hdis p' Hp')). by rewrite (in_page_apart x p' q).
Qed.

Lemma NoDup_update ppn es i t t' : NoDup (tab_pages ppn es) → es !! i = Some t → NoDup (ent_pages t') →
  (∀ p, p ∈ ent_pages t' → p ≠ ppn ∧ p ∉ others i es) → NoDup (tab_pages ppn (<[i := t']> es)).
Proof.
  intros Hnd Hi Ht' Hdis. unfold tab_pages in *. rewrite pages_insert by by eapply lookup_lt_Some.
  rewrite (pages_split i es t Hi) in Hnd. apply NoDup_cons in Hnd as [Hp Hnd]. apply NoDup_app in Hnd as (_&_&Ho). constructor.
  - intros [Hin|Hin]%elem_of_app; [by apply Hdis in Hin as [? _]|]. apply Hp, elem_of_app. by right.
  - apply NoDup_app. split_and!; [done| |done]. by intros p [_ ?]%Hdis.
Qed.

(** ** The allocator of pages *)

(** [tables ps T n]: [T] are the pages in use and [n] more can be allocated. *)
Class TablePagesSpec (PS : Type) `{!TablePages PS} (k : mmu) := {
  tables : PS → gset Z → nat → Prop;
  tables_mapped ps T n p : tables ps T n → p ∈ T → mapped k p;
  tables_weaken ps T n : tables ps T (S n) → tables ps T n;
  table_alloc_law ps T n m : tables ps T (S n) → ∃ p ps' m', table_alloc ps m = Done (p, ps', m') ∧
    tables ps' ({[p]} ∪ T) n ∧ p ∉ T ∧ 0 < p < 2 ^ 44 ∧
    (∀ a, in_page a p → m' a = 0) ∧ (∀ a, ¬ in_page a p → m' a = m a);
}.

Lemma get_flags_mapped pte : mapped_flags (mmu_pte_get_flags pte) = mmu_pte_get_flags pte ∧
  (mmu_pte_is_leaf pte = true → flag (mmu_pte_get_flags pte) MEMPROTECT_FLAG_RWX = true).
Proof.
  unfold mmu_pte_get_flags, mmu_pte_is_leaf. rewrite !(bits_spec pte) by lia. change (2 ^ 1) with 2.
  pose proof (Z.mod_pos_bound (pte / 2) (2 ^ 3) ltac:(lia)) as Hr. pose proof (Z.mod_pos_bound (pte / 2 ^ 5) 2 ltac:(lia)) as Hg.
  set (r := pte / 2 mod 2 ^ 3) in *. set (g := pte / 2 ^ 5 mod 2) in *. set (b := _ =? 0). clearbody r g b. change (2 ^ 3) with 8 in Hr.
  assert (r = 0 ∨ r = 1 ∨ r = 2 ∨ r = 3 ∨ r = 4 ∨ r = 5 ∨ r = 6 ∨ r = 7) as Hr' by lia. assert (g = 0 ∨ g = 1) as Hg' by lia.
  destruct b, Hg' as [->| ->]; repeat (destruct Hr' as [->|Hr']; [by vm_compute|]); subst r; by vm_compute.
Qed.

Lemma tables_weaken_le {PS : Type} `{!TablePages PS} `{!TablePagesSpec PS k} ps T n n' : (n' <= n)%nat → tables (k := k) ps T n → tables (k := k) ps T n'.
Proof. induction 1 as [|n _ IH]; [done|]. intros Ht. by apply IH, tables_weaken. Qed.

Section map.
Context {PS : Type} `{!TablePages PS} (k : mmu) `{!TablePagesSpec PS k}.
Implicit Types (s : vm (PS := PS)) (T : gset Z).

(** ** Splitting a large page *)

Lemma split_table_spec next ppn flags : mapped k next → ∀ n i s, 0 <= i → i + Z.of_nat n = 512 →
  ∃ m', split_table_loop k n i next ppn flags s = Done (fst s, m') ∧
    (∀ j, i <= j < 512 → m' (next * MMU_PAGE_SIZE + j * 8) = mmu_pte_new_leaf (mmu_svpbmt k) (ppn + j) flags) ∧
    (∀ a, (∀ j, i <= j < 512 → a ≠ next * MMU_PAGE_SIZE + j * 8) → m' a = snd s a).
Proof.
  intros Hmap. induction n as [|n IH]; intros i s Hi Hn; cbn [split_table_loop].
  { exists (snd s). split_and!; [by destruct s|lia|done]. }
  rewrite (write_pte k s next) by (done || apply in_page_entry; lia). cbn [mbind outcome_bind].
  edestruct (IH (i + 1)) as (m'&E&Hin&Hout); [lia|lia|]. exists m'. split_and!; [exact E| |].
  - intros j Hj. destruct (decide (j = i)) as [->|]; [|apply Hin; lia]. rewrite Hout by (intros j Hj'; lia). simpl. by rewrite Z.eqb_refl.
  - intros a Ha. rewrite Hout by (intros j Hj'; apply Ha; lia). simpl. by rewrite (proj2 (Z.eqb_neq _ _)) by (apply Ha; lia).
Qed.

Definition split_entries (pte : Z) : list ptree :=
  (λ j, Leaf (mmu_pte_new_leaf (mmu_svpbmt k) (mmu_pte_get_ppn pte + Z.of_nat j) (mmu_pte_get_flags pte))) <$> seq 0 512.

Lemma split_entries_lookup pte j : (j < 512)%nat → split_entries pte !! j =
  Some (Leaf (mmu_pte_new_leaf (mmu_svpbmt k) (mmu_pte_get_ppn pte + Z.of_nat j) (mmu_pte_get_flags pte))).
Proof. intros Hj. unfold split_entries. rewrite list_lookup_fmap, lookup_seq_lt by done. done. Qed.

Lemma no_pages (es : list ptree) : Forall (λ t, match t with Table _ _ => False | _ => True end) es → concat (map ent_pages es) = [].
Proof. induction 1 as [|t es Ht _ IH]; [done|]. simpl. rewrite IH. by destruct t. Qed.

Lemma split_entries_pages pte : concat (map ent_pages (split_entries pte)) = [].
Proof. apply no_pages, Forall_fmap, Forall_true. done. Qed.

Lemma empty_pages : concat (map ent_pages (replicate 512 Empty)) = [].
Proof. apply no_pages, Forall_replicate. done. Qed.

Lemma cover_0 : cover 0 = 1.
Proof. reflexivity. Qed.

Lemma cover_1 : cover 1 = 512.
Proof. reflexivity. Qed.

(** The pages of a leaf of level 1. *)
Lemma split_ppn pte j : mmu_pte_get_ppn pte mod 512 = 0 → 0 <= j < 512 → wrap 44 (mmu_pte_get_ppn pte + j) = mmu_pte_get_ppn pte + j.
Proof.
  intros Ha Hj. unfold wrap. apply Z.mod_small. unfold mmu_pte_get_ppn in *. rewrite bits_spec in * by lia.
  pose proof (Z.mod_pos_bound (pte / 2 ^ 10) (2 ^ 44) ltac:(lia)) as Hb. set (q := pte / 2 ^ 10 mod 2 ^ 44) in *. clearbody q.
  apply Z.mod_divide in Ha as [c ->]; [|lia]. change (2 ^ 44) with (2 ^ 35 * 512) in *. lia.
Qed.

Lemma split_view pte y : mmu_pte_is_leaf pte = true → mmu_pte_get_ppn pte mod 512 = 0 → 0 <= y < 512 →
  view 0 (split_entries pte) y = Some (mmu_pte_get_ppn pte + y, mmu_pte_get_flags pte) ∧ leaf_level 0 (split_entries pte) y = 0%nat.
Proof.
  intros Hl Ha Hy. cbn [view leaf_level]. rewrite cover_0, Z.div_1_r, Z.mod_1_r. rewrite split_entries_lookup by lia. split; [|done].
  destruct (get_flags_mapped pte) as [Ef Hrwx]. destruct (pte_leaf_fields (mmu_svpbmt k) (mmu_pte_get_ppn pte + Z.of_nat (Z.to_nat y)) _ (Hrwx Hl)) as (_&_&->&->).
  rewrite Ef, Z2Nat.id by lia. rewrite split_ppn by done. by rewrite Z.add_0_r.
Qed.

Lemma split_repr pte next m : mmu_pte_is_leaf pte = true → mmu_pte_get_ppn pte mod 512 = 0 →
  (∀ j, 0 <= j < 512 → m (next * MMU_PAGE_SIZE + j * 8) = mmu_pte_new_leaf (mmu_svpbmt k) (mmu_pte_get_ppn pte + j) (mmu_pte_get_flags pte)) →
  tab_repr 0 m next (split_entries pte).
Proof.
  intros Hl Ha Hm. apply tab_repr_unfold. split; [by unfold split_entries; rewrite length_fmap, length_seq|]. intros j t Hj.
  assert (j < 512)%nat as Hj' by (apply lookup_lt_Some in Hj; unfold split_entries in Hj; by rewrite length_fmap, length_seq in Hj).
  rewrite split_entries_lookup in Hj by done. injection Hj as <-. rewrite Hm by lia.
  destruct (get_flags_mapped pte) as [_ Hrwx]. destruct (pte_leaf_fields (mmu_svpbmt k) (mmu_pte_get_ppn pte + Z.of_nat j) _ (Hrwx Hl)) as (?&?&_&_).
  split_and!; [done|done|done| |lia]. by rewrite cover_0, Z.mod_1_r.
Qed.

Lemma empty_repr l m next : (∀ a, in_page a next → m a = 0) → tab_repr l m next (replicate 512 Empty).
Proof.
  intros Hm. apply tab_repr_unfold. split; [apply length_replicate|]. intros j t [-> Hj]%lookup_replicate.
  cbn [ent_repr]. by rewrite Hm by (apply in_page_entry; lia).
Qed.

Lemma empty_view l y : view l (replicate 512 Empty) y = None ∧ leaf_level l (replicate 512 Empty) y = 0%nat.
Proof.
  destruct l; cbn [view leaf_level]; destruct (replicate 512 Empty !! _) as [t|] eqn:E; try done; by apply lookup_replicate in E as [-> _].
Qed.

(** ** One step of the walk *)

Definition ent_view (l : nat) (t : ptree) (y : Z) : option (Z * Z) :=
  match t with
  | Empty => None
  | Leaf pte => Some (mmu_pte_get_ppn pte + y, mmu_pte_get_flags pte)
  | Table _ es => match l with O => None | S l => view l es y end
  end.
Definition ent_level (l : nat) (t : ptree) (y : Z) : nat :=
  match t with Empty => 0 | Leaf _ => l | Table _ es => match l with O => 0 | S l => leaf_level l es y end end.

Lemma view_unfold l es x t : es !! Z.to_nat (x / cover l) = Some t →
  view l es x = ent_view l t (x mod cover l) ∧ leaf_level l es x = ent_level l t (x mod cover l).
Proof. intros Ht. by destruct l; cbn [view leaf_level]; rewrite Ht; destruct t. Qed.

(** Below the entry at [a] there is a table [next] that translates as [t] did. *)
Record below (l : nat) (a : Z) (t : ptree) s T n next es1 s1 T1 : Prop := {
  below_tables : tables (fst s1) T1 n;
  below_grow : T ⊆ T1;
  below_repr : ent_repr (S l) (snd s1) (snd s1 a) (Table next es1);
  below_nodup : NoDup (tab_pages next es1);
  below_pages p : p ∈ tab_pages next es1 → p ∈ T1 ∧ (p ∈ ent_pages t ∨ p ∉ T);
  below_frame x : x ≠ a → ¬ in_page x next → snd s1 x = snd s x;
  below_view y : 0 <= y < cover (S l) → view l es1 y = ent_view (S l) t y ∧ ((ent_level (S l) t y <= 1)%nat → (leaf_level l es1 y <= 1)%nat);
}.

Lemma pte_new_repr l m w next es : 0 < next < 2 ^ 44 → w = mmu_pte_new next → tab_repr l m next es → ent_repr (S l) m w (Table next es).
Proof.
  intros Hn -> Hr. destruct (pte_new_fields next) as (Hv&Hl&Hp). cbn [ent_repr]. rewrite Hp. unfold wrap. rewrite Z.mod_small by lia. done.
Qed.

(** A new table for an entry at [a] outside its page. *)
Lemma below_new l a t s T n next ps m es1 m1 : mapped k next → ¬ in_page a next → 0 < next < 2 ^ 44 → next ∉ T → tables ps ({[next]} ∪ T) n →
  (∀ x, ¬ in_page x next → m x = snd s x) → (∀ x, ¬ in_page x next → m1 x = m x) →
  tab_repr l m1 next es1 → concat (map ent_pages es1) = [] →
  (∀ y, 0 <= y < cover (S l) → view l es1 y = ent_view (S l) t y ∧ leaf_level l es1 y = 0%nat) →
  below l a t s T n next es1 (ps, λ x, if x =? a then mmu_pte_new next else m1 x) ({[next]} ∪ T).
Proof.
  intros Hmap Ha Hn HnT Htab Hm Hm1 Hr Hpages Hview. assert (tab_pages next es1 = [next]) as Hp by by (unfold tab_pages; rewrite Hpages).
  split; cbn [fst snd]; try done.
  - set_solver.
  - rewrite Z.eqb_refl. apply pte_new_repr; [done|done|]. apply (tab_repr_frame m1); [done|]. intros x p. rewrite Hp, list_elem_of_singleton.
    intros -> Hx. by rewrite (proj2 (Z.eqb_neq x a)) by (intros ->; done).
  - rewrite Hp. apply NoDup_singleton.
  - intros p. rewrite Hp, list_elem_of_singleton. intros ->. split; [set_solver|by right].
  - intros x Hx Hout. rewrite (proj2 (Z.eqb_neq x a)) by done. by rewrite Hm1, Hm.
  - intros y Hy. destruct (Hview y Hy) as [-> ->]. split; [done|lia].
Qed.

Lemma prepare l pte_level orig ppn vpn edit s T n es t : tables (fst s) T (S n) → tab_repr (S l) (snd s) ppn es →
  (∀ p, p ∈ tab_pages ppn es → p ∈ T) → NoDup (tab_pages ppn es) →
  es !! Z.to_nat (vpn mod cover (S (S l)) / cover (S l)) = Some t → (∀ pte, t = Leaf pte → l = 0%nat) → (pte_level <= l)%nat →
  ∃ next edit' es1 s1 T1, map_loop k (S l) pte_level orig ppn vpn edit s = map_loop k l pte_level orig next vpn edit' s1 ∧
    below l (pte_paddr ppn vpn (S l)) t s T n next es1 s1 T1.
Proof.
  intros Htab Hr HT Hnd Ht Hleaf Hle. assert (mapped k ppn) as Hmp by (apply (tables_mapped _ _ _ _ Htab), HT; by left).
  destruct (table_entry k s vpn (S l) ppn es Hr Hmp) as (t'&Ht'&Hread&Hw). rewrite Ht in Ht'. injection Ht' as <-.
  set (a := pte_paddr ppn vpn (S l)) in *. assert (in_page a ppn) as Ha by apply pte_paddr_page.
  cbn [map_loop]. fold a. rewrite (proj2 (Nat.ltb_lt _ _)) by lia. rewrite Hread. cbn [mbind outcome_bind]. cbv zeta in Hw.
  destruct t as [|pte|p es'].
  - rewrite Hw. cbn [negb].
    destruct (table_alloc_law _ _ _ (snd s) Htab) as (next&ps&m&->&Htab'&Hnew&Hn&Hz&Hf). cbn [mbind outcome_bind].
    rewrite (proj2 (Z.eqb_neq next 0)) by lia. cbn [negb assert_or_panic mbind outcome_bind].
    assert (mapped k next) as Hmn by (apply (tables_mapped _ _ _ _ Htab'); set_solver).
    assert (¬ in_page a next) as Han by (intros Hin; apply Hnew; rewrite (in_page_apart a next ppn) by done; apply HT; by left).
    rewrite (write_pte k (ps, m) ppn) by done. cbn [mbind outcome_bind].
    eexists next, _, (replicate 512 Empty), _, _. split; [reflexivity|]. cbn [fst snd].
    apply (below_new l a Empty s T n next ps m (replicate 512 Empty) m); [done..|by apply empty_repr|apply empty_pages|].
    intros y _. destruct (empty_view l y). done.
  - specialize (Hleaf pte eq_refl) as ->. destruct Hw as (Ew&Hv&Hl&Hal&_). rewrite Hv, Hl. cbn [negb]. unfold pt_split.
    destruct (table_alloc_law _ _ _ (snd s) Htab) as (next&ps&m&->&Htab'&Hnew&Hn&Hz&Hf). cbn [mbind outcome_bind].
    rewrite (proj2 (Z.eqb_neq next 0)) by lia. cbn [negb assert_or_panic mbind outcome_bind].
    assert (mapped k next) as Hmn by (apply (tables_mapped _ _ _ _ Htab'); set_solver).
    assert (¬ in_page a next) as Han by (intros Hin; apply Hnew; rewrite (in_page_apart a next ppn) by done; apply HT; by left).
    destruct (split_table_spec next (mmu_pte_get_ppn (snd s a)) (mmu_pte_get_flags (snd s a)) Hmn 512 0 (ps, m)) as (m1&->&Hin&Hout); [lia|lia|].
    cbn [mbind outcome_bind fst snd]. rewrite (write_pte k (ps, m1) ppn) by done. cbn [mbind outcome_bind fst snd].
    eexists next, _, (split_entries (snd s a)), _, _. split; [reflexivity|]. rewrite cover_1 in Hal.
    apply (below_new 0 a (Leaf pte) s T n next ps m (split_entries (snd s a)) m1); [done..| | | |].
    + intros x Hx. apply Hout. intros j Hj ->. apply Hx. by apply in_page_entry.
    + apply split_repr; done.
    + apply split_entries_pages.
    + intros y Hy. rewrite cover_1 in Hy. rewrite <-Ew. by apply split_view.
  - destruct Hw as (Hv&Hl&Hp&Hsub). rewrite Hv, Hl, Hp. cbn [negb]. eexists p, _, es', s, T. split; [reflexivity|].
    split; [by apply tables_weaken|done|done| | |done|].
    + unfold tab_pages in Hnd. rewrite (pages_split _ es _ Ht) in Hnd. apply NoDup_cons in Hnd as [_ Hnd]. by apply NoDup_app in Hnd as [? _].
    + intros q Hq. split; [|by left]. apply HT. by eapply (elem_of_subpages ppn es _ (Table p es')).
    + intros y Hy. done.
Qed.

(** ** Ranges inside a table *)

Lemma cover_mul pte l : (pte <= l)%nat → cover l = cover pte * cover (l - pte).
Proof. intros Hle. unfold cover. rewrite <-Z.pow_add_r by lia. f_equal. lia. Qed.

Lemma range_fits vpn pte l : vpn mod cover pte = 0 → (pte <= l)%nat → vpn mod cover l + cover pte <= cover l.
Proof.
  intros Hv Hle. pose proof (cover_pos pte). pose proof (cover_pos (l - pte)) as Hc. rewrite (cover_mul pte l Hle).
  apply Z.mod_divide in Hv as [q ->]; [|lia]. rewrite (Z.mul_comm q), Z.mul_mod_distr_l by lia.
  pose proof (Z.mod_pos_bound q (cover (l - pte)) Hc). nia.
Qed.

Lemma range_index vpn pte l y : vpn mod cover pte = 0 → (pte <= l)%nat → let y0 := vpn mod cover (S l) in
  (y0 <= y < y0 + cover pte ↔ y / cover l = y0 / cover l ∧ vpn mod cover l <= y mod cover l < vpn mod cover l + cover pte) ∧
  (y / cover l = y0 / cover l → y - y0 = y mod cover l - vpn mod cover l).
Proof.
  intros Hv Hle y0. pose proof (range_fits vpn pte l Hv Hle) as Hfit. pose proof (cover_pos l) as Hc. pose proof (cover_pos pte) as Hcp.
  pose proof (Z.div_mod y (cover l)) as Ey. pose proof (Z.div_mod y0 (cover l)) as Ey0. pose proof (Z.mod_pos_bound y (cover l) Hc) as Hby.
  pose proof (Z.mod_pos_bound vpn (cover l) Hc) as Hbv. rewrite (vpn_rest vpn l : y0 mod cover l = _) in Ey0.
  set (c := cover l) in *. set (qy := y / c) in *. set (q0 := y0 / c) in *. set (r0 := vpn mod c) in *. clearbody c qy q0 r0.
  split; [|intros Hq; nia]. split.
  - intros Hy. assert (qy = q0) as -> by nia. split; [done|nia].
  - intros [-> Hr]. nia.
Qed.

(** ** Mapping one page *)

(** [t'] translates the page at [vpn] of level [pte_level] to [pg], and other
    pages as [t] does. *)
Definition remaps (l pte_level : nat) (vpn pg flags : Z) (old new : Z → option (Z * Z)) (oldl newl : Z → nat) : Prop :=
  ∀ y, 0 <= y < cover l →
    new y = (if decide (vpn mod cover l <= y < vpn mod cover l + cover pte_level) then Some (pg + (y - vpn mod cover l), mapped_flags flags) else old y) ∧
    (¬ (vpn mod cover l <= y < vpn mod cover l + cover pte_level) → (oldl y <= 1)%nat → (newl y <= 1)%nat).

(** The entry for [vpn] of a table is replaced by [t'], which maps the page at
    [vpn] of level [pte_level] to [pg] and translates other pages as before. *)
Record edited (l pte_level : nat) (vpn pg flags : Z) s T n ppn es t t' s' T' : Prop := {
  ed_tables : tables (fst s') T' n;
  ed_grow : T ⊆ T';
  ed_repr : tab_repr l (snd s') ppn (<[Z.to_nat (vpn mod cover (S l) / cover l) := t']> es);
  ed_nodup : NoDup (tab_pages ppn (<[Z.to_nat (vpn mod cover (S l) / cover l) := t']> es));
  ed_pages p : p ∈ ent_pages t' → p ∈ T' ∧ (p ∈ ent_pages t ∨ p ∉ T);
  ed_frame x : x ≠ pte_paddr ppn vpn l → (∀ p, p ∈ ent_pages t' → ¬ in_page x p) → snd s' x = snd s x;
  ed_view : remaps l pte_level vpn pg flags (ent_view l t) (ent_view l t') (ent_level l t) (ent_level l t');
}.

Lemma map_leaf l vpn pg flags s T n ppn es t : tables (fst s) T n → tab_repr l (snd s) ppn es →
  (∀ p, p ∈ tab_pages ppn es → p ∈ T) → NoDup (tab_pages ppn es) →
  es !! Z.to_nat (vpn mod cover (S l) / cover l) = Some t → (l <= 3)%nat → vpn mod cover l = 0 → pg mod cover l = 0 →
  0 <= pg < 2 ^ 44 → flag flags MEMPROTECT_FLAG_RWX = true →
  ∃ s' t', mmu_write_pte k (pte_paddr ppn vpn l) (mmu_pte_new_leaf (mmu_svpbmt k) pg flags) s = Done s' ∧
    edited l l vpn pg flags s T n ppn es t t' s' T.
Proof.
  intros Htab Hr HT Hnd Ht Hl3 Hv Hpg Hb Hf. assert (mapped k ppn) as Hmp by (apply (tables_mapped _ _ _ _ Htab), HT; by left).
  set (w := mmu_pte_new_leaf _ pg flags). destruct (pte_leaf_fields (mmu_svpbmt k) pg flags Hf) as (Hwv&Hwl&Hwp&Hwf). fold w in Hwv, Hwl, Hwp, Hwf.
  assert (wrap 44 pg = pg) as Ewp by by apply Z.mod_small. rewrite Ewp in Hwp.
  rewrite (write_pte k s ppn) by (done || apply pte_paddr_page). eexists _, (Leaf w). split; [reflexivity|].
  pose proof (vpn_part_bound vpn l) as Hpb.
  assert (pte_paddr ppn vpn l = ppn * MMU_PAGE_SIZE + Z.of_nat (Z.to_nat (vpn mod cover (S l) / cover l)) * 8) as Ea.
  { unfold pte_paddr. rewrite <-vpn_index, <-vpn_part_spec. lia. }
  split; cbn [fst snd]; [done|done|..].
  - apply (tab_update l (snd s) _ ppn es _ t); [done|done|done| | |]; rewrite <-?Ea.
    + rewrite Z.eqb_refl. split_and!; [done..| |done]. by rewrite Hwp.
    + intros x Hx _. by rewrite (proj2 (Z.eqb_neq _ _)).
    + intros p. cbn [ent_pages]. by intros ?%elem_of_nil.
  - apply (NoDup_update ppn es _ t); [done|done|constructor|]. intros p. cbn [ent_pages]. by intros ?%elem_of_nil.
  - intros p. cbn [ent_pages]. by intros ?%elem_of_nil.
  - intros x Hx _. by rewrite (proj2 (Z.eqb_neq _ _)).
  - intros y Hy. rewrite Hv. rewrite decide_True by lia. cbn [ent_view]. rewrite Hwp, Hwf. split; [do 2 f_equal; lia|lia].
Qed.

Lemma table_index vpn l (es : list ptree) : length es = 512%nat →
  pte_paddr 0 vpn l = Z.of_nat (Z.to_nat (vpn mod cover (S l) / cover l)) * 8 ∧ ∃ t, es !! Z.to_nat (vpn mod cover (S l) / cover l) = Some t.
Proof.
  intros Hlen. pose proof (vpn_part_bound vpn l) as Hb. unfold pte_paddr. rewrite vpn_part_spec, vpn_index in *. split; [lia|].
  apply lookup_lt_is_Some_2. lia.
Qed.

Lemma pte_paddr_base ppn vpn l : pte_paddr ppn vpn l = ppn * MMU_PAGE_SIZE + pte_paddr 0 vpn l.
Proof. unfold pte_paddr. lia. Qed.

(** The translation of a table after an edit of one entry. *)
Lemma remaps_table l pte_level vpn pg flags es t t' : vpn mod cover pte_level = 0 → (pte_level <= l)%nat →
  let i := Z.to_nat (vpn mod cover (S l) / cover l) in es !! i = Some t →
  remaps l pte_level vpn pg flags (ent_view l t) (ent_view l t') (ent_level l t) (ent_level l t') →
  remaps (S l) pte_level vpn pg flags (view l es) (view l (<[i := t']> es)) (leaf_level l es) (leaf_level l (<[i := t']> es)).
Proof.
  intros Hv Hle i Ht Hent y Hy. destruct (range_index vpn pte_level l y Hv Hle) as [Hrange Hdiff].
  pose proof (cover_pos l) as Hc. pose proof (Z.mod_pos_bound y (cover l) Hc) as Hym. pose proof (Z.mod_pos_bound vpn (cover (S l)) (cover_pos (S l))) as Hvb.
  assert (0 <= y / cover l) as Hq by (apply Z.div_pos; lia). assert (0 <= vpn mod cover (S l) / cover l) as Hq0 by (apply Z.div_pos; lia).
  destruct (decide (y / cover l = vpn mod cover (S l) / cover l)) as [Eq|Nq].
  - assert ((<[i := t']> es) !! Z.to_nat (y / cover l) = Some t') as Hl' by (rewrite Eq; apply list_lookup_insert_eq; by eapply lookup_lt_Some).
    assert (es !! Z.to_nat (y / cover l) = Some t) as Hl by by rewrite Eq.
    destruct (view_unfold l _ y t' Hl') as [-> ->]. destruct (view_unfold l _ y t Hl) as [-> ->]. destruct (Hent _ Hym) as [-> Hlev]. split.
    + destruct (decide (vpn mod cover l <= y mod cover l < vpn mod cover l + cover pte_level)) as [Hin|Hout].
      * rewrite decide_True by by apply Hrange. by rewrite Hdiff.
      * by rewrite decide_False by (intros Hin; by apply Hout, Hrange).
    + intros Hout. apply Hlev. intros Hin. by apply Hout, Hrange.
  - assert ((<[i := t']> es) !! Z.to_nat (y / cover l) = es !! Z.to_nat (y / cover l)) as Hl by (apply list_lookup_insert_ne; unfold i; lia).
    assert (view l (<[i := t']> es) y = view l es y ∧ leaf_level l (<[i := t']> es) y = leaf_level l es y) as [-> ->]
      by by destruct l; cbn [view leaf_level]; rewrite Hl.
    rewrite decide_False by (intros [? _]%Hrange; done). by split.
Qed.

(** An edit below an entry is an edit of the entry. *)
Lemma edited_up l pte_level vpn pg flags s T n ppn es t next es1 s1 T1 t1 t1' s' T' : tables (fst s) T (S (n + l)) →
  tab_repr (S l) (snd s) ppn es → (∀ p, p ∈ tab_pages ppn es → p ∈ T) → NoDup (tab_pages ppn es) →
  es !! Z.to_nat (vpn mod cover (S (S l)) / cover (S l)) = Some t → vpn mod cover pte_level = 0 → (pte_level <= l)%nat →
  below l (pte_paddr ppn vpn (S l)) t s T (n + l) next es1 s1 T1 → es1 !! Z.to_nat (vpn mod cover (S l) / cover l) = Some t1 →
  edited l pte_level vpn pg flags s1 T1 n next es1 t1 t1' s' T' →
  edited (S l) pte_level vpn pg flags s T n ppn es t (Table next (<[Z.to_nat (vpn mod cover (S l) / cover l) := t1']> es1)) s' T'.
Proof.
  intros Htab Hr HT Hnd Ht Hv Hle Hb Ht1 He. set (i1 := Z.to_nat (vpn mod cover (S l) / cover l)) in *. set (es1' := <[i1 := t1']> es1).
  set (i := Z.to_nat (vpn mod cover (S (S l)) / cover (S l))) in *. pose proof (tab_repr_length _ _ _ _ Hr) as Hlen.
  assert (pte_paddr ppn vpn (S l) = ppn * MMU_PAGE_SIZE + Z.of_nat i * 8) as Ea by (rewrite pte_paddr_base; by rewrite (proj1 (table_index vpn (S l) es Hlen))).
  set (a := pte_paddr ppn vpn (S l)) in *. assert (in_page a ppn) as Ha by apply pte_paddr_page.
  assert (ppn ∈ T) as HppnT by (apply HT; by left).
  assert (NoDup (ppn :: ent_pages t ++ others i es)) as Hnd' by (unfold tab_pages in Hnd; by rewrite (pages_split i es t Ht) in Hnd).
  assert (∀ p, p ∈ others i es → p ∈ T) as HoT.
  { intros p Hp. apply HT. right. rewrite (pages_split i es t Ht). apply elem_of_app. by right. }
  assert (∀ p, p ∈ tab_pages next es1' → p ∈ tab_pages next es1 ∨ p ∉ T1) as Hp1.
  { intros p [->|Hp]%elem_of_cons; [left; by left|]. unfold es1' in Hp. rewrite pages_insert in Hp by by eapply lookup_lt_Some.
    apply elem_of_app in Hp as [Hp|Hp].
    - destruct (ed_pages _ _ _ _ _ _ _ _ _ _ _ _ _ _ He p Hp) as [_ [Hp'|?]]; [|by right]. left. right. rewrite (pages_split i1 es1 t1 Ht1). apply elem_of_app. by left.
    - left. right. rewrite (pages_split i1 es1 t1 Ht1). apply elem_of_app. by right. }
  assert (∀ p, p ∈ tab_pages next es1' → p ∈ ent_pages t ∨ p ∉ T) as Hp2.
  { intros p [Hp|Hp]%Hp1; [by apply (below_pages _ _ _ _ _ _ _ _ _ _ Hb)|right]. intros HpT. apply Hp. by apply (below_grow _ _ _ _ _ _ _ _ _ _ Hb). }
  assert (∀ p, p ∈ ent_pages (Table next es1') → p ≠ ppn ∧ p ∉ others i es) as Hdis.
  { intros p Hp. apply NoDup_cons in Hnd' as [Hn1 Hn2]. apply NoDup_app in Hn2 as (_&Hn2&_). destruct (Hp2 p Hp) as [Hpt|HpT].
    - split; [|by apply Hn2]. intros ->. apply Hn1, elem_of_app. by left.
    - split; [by intros ->|]. intros Ho. by apply HpT, HoT. }
  assert (∀ x, x ≠ a → (∀ p, p ∈ ent_pages (Table next es1') → ¬ in_page x p) → snd s' x = snd s x) as Hframe.
  { intros x Hx Hout. assert (¬ in_page x next) as Hxn by (apply Hout; by left).
    rewrite (ed_frame _ _ _ _ _ _ _ _ _ _ _ _ _ _ He); [by apply (below_frame _ _ _ _ _ _ _ _ _ _ Hb)| |].
    - intros ->. apply Hxn, pte_paddr_page.
    - intros p Hp. apply Hout. right. change (p ∈ concat (map ent_pages es1')). unfold es1'. rewrite pages_insert by by eapply lookup_lt_Some.
      apply elem_of_app. by left. }
  assert (snd s' a = snd s1 a) as Ewa.
  { assert (¬ in_page a next) as Han.
    { intros Hin. destruct (Hdis next) as [Hne _]; [by left|]. apply Hne. by apply (in_page_apart a). }
    apply (ed_frame _ _ _ _ _ _ _ _ _ _ _ _ _ _ He).
    - intros E. apply Han. rewrite E. apply pte_paddr_page.
    - intros p Hp Hin. destruct (Hdis p) as [Hne _]; [|apply Hne; by apply (in_page_apart a)]. right. change (p ∈ concat (map ent_pages es1')).
      unfold es1'. rewrite pages_insert by by eapply lookup_lt_Some. apply elem_of_app. by left. }
  split.
  - apply He.
  - etransitivity; [apply Hb|apply He].
  - apply (tab_update (S l) (snd s) _ ppn es i t); [done|done|done| |by rewrite <-Ea|done]. rewrite <-Ea, Ewa.
    destruct (below_repr _ _ _ _ _ _ _ _ _ _ Hb) as (?&?&?&_). split_and!; [done..|]. apply He.
  - apply (NoDup_update ppn es i t); [done|done| |done]. apply He.
  - intros p Hp. split; [|by apply Hp2]. destruct (decide (p ∈ ent_pages t1')) as [Hin|Hin].
    + by apply (ed_pages _ _ _ _ _ _ _ _ _ _ _ _ _ _ He).
    + apply (ed_grow _ _ _ _ _ _ _ _ _ _ _ _ _ _ He). apply (below_pages _ _ _ _ _ _ _ _ _ _ Hb).
      apply elem_of_cons in Hp as [->|Hp]; [by left|right]. change (p ∈ concat (map ent_pages es1')) in Hp. unfold es1' in Hp.
      rewrite pages_insert in Hp by by eapply lookup_lt_Some. apply elem_of_app in Hp as [?|Hp]; [done|].
      rewrite (pages_split i1 es1 t1 Ht1). apply elem_of_app. by right.
  - done.
  - intros y Hy. destruct (remaps_table l pte_level vpn pg flags es1 t1 t1' Hv Hle Ht1 (ed_view _ _ _ _ _ _ _ _ _ _ _ _ _ _ He) y Hy) as [Hview Hlev].
    destruct (below_view _ _ _ _ _ _ _ _ _ _ Hb y Hy) as [Hbv Hbl]. cbn [ent_view ent_level]. unfold es1', i1. rewrite Hview. rewrite Hbv.
    split; [done|]. intros Hout Hold. by apply Hlev, Hbl.
Qed.

(** The levels of an entry from those of its table. *)
Lemma level_entry l pte_level vpn es t : vpn mod cover pte_level = 0 → (pte_level <= l)%nat →
  es !! Z.to_nat (vpn mod cover (S l) / cover l) = Some t →
  (∀ x, vpn mod cover (S l) <= x < vpn mod cover (S l) + cover pte_level → (leaf_level l es x <= 1)%nat) →
  ∀ y, vpn mod cover l <= y < vpn mod cover l + cover pte_level → (ent_level l t y <= 1)%nat.
Proof.
  intros Hv Hle Ht Hlev y' Hy'. pose proof (range_fits vpn pte_level l Hv Hle) as Hfit. pose proof (cover_pos l) as Hc.
  pose proof (Z.mod_pos_bound vpn (cover l) Hc) as Hvl.
  pose proof (Z.div_mod (vpn mod cover (S l)) (cover l) ltac:(lia)) as Ed. rewrite vpn_rest in Ed.
  set (q := vpn mod cover (S l) / cover l) in *. set (y := q * cover l + y').
  assert (y / cover l = q ∧ y mod cover l = y') as [Eq Em].
  { unfold y. rewrite Z.add_comm, Z.div_add, Z.mod_add by lia. rewrite Z.div_small, Z.mod_small by lia. lia. }
  destruct (view_unfold l es y t) as [_ El]; [by rewrite Eq|]. rewrite Em in El. rewrite <-El. apply Hlev. unfold y. lia.
Qed.

Lemma map_one pte_level vpn pg flags orig : vpn mod cover pte_level = 0 → pg mod cover pte_level = 0 → 0 <= pg < 2 ^ 44 →
  (pte_level <= 3)%nat → flag flags MEMPROTECT_FLAG_RWX = true → ∀ l ppn es s T n edit t, (pte_level <= l)%nat →
  tables (fst s) T (n + l) → tab_repr l (snd s) ppn es → (∀ p, p ∈ tab_pages ppn es → p ∈ T) → NoDup (tab_pages ppn es) →
  es !! Z.to_nat (vpn mod cover (S l) / cover l) = Some t →
  (∀ y, vpn mod cover l <= y < vpn mod cover l + cover pte_level → (ent_level l t y <= 1)%nat) →
  ∃ pt edit' s1 s' T' t', map_loop k l pte_level orig ppn vpn edit s = Done (pt, edit', s1) ∧
    mmu_write_pte k (pte_paddr pt vpn pte_level) (mmu_pte_new_leaf (mmu_svpbmt k) pg flags) s1 = Done s' ∧
    edited l pte_level vpn pg flags s T n ppn es t t' s' T'.
Proof.
  intros Hv Hpg Hb H3 Hf. induction l as [|l IH]; intros ppn es s T n edit t Hle Htab Hr HT Hnd Ht Hlev.
  { assert (pte_level = 0%nat) as -> by lia. destruct (map_leaf 0 vpn pg flags s T n ppn es t) as (s'&t'&E&He); try done; [by rewrite Nat.add_0_r in Htab|].
    by exists ppn, edit, s, s', T, t'. }
  destruct (decide (pte_level = S l)) as [->|Hne].
  { destruct (map_leaf (S l) vpn pg flags s T n ppn es t) as (s'&t'&E&He); try done; [by apply (tables_weaken_le _ _ (n + S l)); [lia|]|].
    exists ppn, edit, s, s', T, t'. cbn [map_loop]. by rewrite Nat.ltb_irrefl. }
  rewrite Nat.add_succ_r in Htab.
  destruct (prepare l pte_level orig ppn vpn edit s T (n + l) es t) as (next&edit'&es1&s1&T1&E&Hbel); try done; [|lia|].
  { intros pte ->. specialize (Hlev (vpn mod cover (S l))). cbn [ent_level] in Hlev. pose proof (cover_pos pte_level). lia. }
  rewrite E. destruct (below_repr _ _ _ _ _ _ _ _ _ _ Hbel) as (_&_&_&Hr1). pose proof (tab_repr_length _ _ _ _ Hr1) as Hlen1.
  destruct (proj2 (table_index vpn l es1 Hlen1)) as [t1 Ht1].
  destruct (IH next es1 s1 T1 n edit' t1) as (pt&edit''&s2&s'&T'&t1'&E1&Ew&He); try done; [lia|apply Hbel|apply Hbel|apply Hbel| |].
  { apply (level_entry l pte_level vpn es1 t1); [done|lia|done|]. intros y Hy. apply (below_view _ _ _ _ _ _ _ _ _ _ Hbel y); [|by apply Hlev].
    pose proof (range_fits vpn pte_level (S l) Hv ltac:(lia)). pose proof (Z.mod_pos_bound vpn (cover (S l)) (cover_pos _)). lia. }
  exists pt, edit'', s2, s', T', (Table next (<[Z.to_nat (vpn mod cover (S l) / cover l) := t1']> es1)). split_and!; [done|done|].
  eapply edited_up; [exact Htab|done|done|done|done|done|lia|done|done|done].
Qed.
End map.
