(* ===== verification/PageTableCorrect.v ===== *)
(** * Page tables: correctness

    Mapping a range changes the translation of exactly this range, in exactly
    the context it is meant for. *)

From S2P Require Import Prelude Containers PageTable PageTableTheory PageTableMap.

(** ** Sizes *)

Lemma super_len_cover l : super_len l = cover l.
Proof. unfold super_len, cover, MMU_BITS_PER_LEVEL. by rewrite Z.shiftl_1_l. Qed.

Lemma land_cover x l : Z.land x (cover l - 1) = x mod cover l.
Proof. unfold cover. by rewrite Z.sub_1_r, <-Z.ones_equiv, Z.land_ones by lia. Qed.

(** The level that is chosen fits the range. *)
Lemma calc_superpage_spec max_level vpn ppn len : 1 <= len → let l := pt_calc_superpage max_level vpn ppn len in
  (l <= max_level)%nat ∧ vpn mod cover l = 0 ∧ ppn mod cover l = 0 ∧ cover l <= len.
Proof.
  intros Hlen. induction max_level as [|l IH]; cbn [pt_calc_superpage].
  - rewrite !cover_0, !Z.mod_1_r. lia.
  - rewrite super_len_cover, !land_cover. destruct (_ && _ && _) eqn:E; [|destruct IH as (?&?&?&?); split_and!; lia || done].
    apply andb_prop in E as [[E1 E2]%andb_prop E3]. apply Z.eqb_eq in E1, E2. apply Z.leb_le in E3. done.
Qed.

Section correct.
Context {PS : Type} `{!TablePages PS} (k : mmu) `{!TablePagesSpec PS k}.
Implicit Types (s : vm (PS := PS)) (T : gset Z).

(** The level of root tables. *)
Abbreviation top := (mmu_levels k - 1)%nat.
Abbreviation space := (cover (S top)).

(** A well-formed page table: a tree of distinct pages in use. *)
Record table_ok s T n root es : Prop := {
  ok_tables : tables (fst s) T n;
  ok_repr : tab_repr top (snd s) root es;
  ok_pages p : p ∈ tab_pages root es → p ∈ T;
  ok_nodup : NoDup (tab_pages root es);
}.

(** [p] is not a page of the root entries for the pages [b] to [b + n - 1]. *)
Definition untouched (b n root p : Z) (es : list ptree) : Prop :=
  p ≠ root ∧ ∀ j t, b / cover top <= Z.of_nat j <= (b + n - 1) / cover top → es !! j = Some t → p ∉ ent_pages t.

(** The table [es'] maps the pages [b] to [b + n - 1] to [pg] and up; entries and
    pages in use that have nothing to do with the range are as before. *)
Record maps (b n pg flags root : Z) s T es s' T' es' : Prop := {
  maps_view x : 0 <= x < space → view top es' x = if decide (b <= x < b + n) then Some (pg + (x - b), mapped_flags flags) else view top es x;
  maps_level x : 0 <= x < space → ¬ (b <= x < b + n) → (leaf_level top es x <= 1)%nat → (leaf_level top es' x <= 1)%nat;
  maps_grow : T ⊆ T';
  maps_entries j : Z.of_nat j < b / cover top ∨ (b + n - 1) / cover top < Z.of_nat j → es' !! j = es !! j;
  maps_untouched p : p ∈ T → untouched b n root p es → untouched b n root p es';
  maps_frame a p : p ∈ T → untouched b n root p es → in_page a p → snd s' a = snd s a;
}.

Lemma edited_maps s T n root es vpn pg pte_level flags s' T' t t' : vpn mod cover pte_level = 0 → (pte_level <= top)%nat →
  let i := Z.to_nat (vpn mod space / cover top) in es !! i = Some t →
  edited k top pte_level vpn pg flags s T n root es t t' s' T' → maps (vpn mod space) (cover pte_level) pg flags root s T es s' T' (<[i := t']> es).
Proof.
  intros Hv Hle i Ht He. pose proof (cover_pos top) as Hc. pose proof (cover_pos pte_level) as Hcp. pose proof (range_fits vpn pte_level top Hv Hle) as Hfit.
  pose proof (Z.mod_pos_bound vpn (cover top) Hc) as Hvt. pose proof (Z.mod_pos_bound vpn space (cover_pos _)) as Hvb.
  pose proof (Z.div_mod (vpn mod space) (cover top) ltac:(lia)) as Ed. rewrite vpn_rest in Ed.
  assert (0 <= vpn mod space / cover top) as Hq by (apply Z.div_pos; lia).
  assert ((vpn mod space + cover pte_level - 1) / cover top = vpn mod space / cover top) as Elast.
  { symmetry. apply (Z.div_unique _ _ _ (vpn mod cover top + cover pte_level - 1)); lia. }
  assert (∀ p, p ∈ T → untouched (vpn mod space) (cover pte_level) root p es → p ∉ ent_pages t') as Hunt.
  { intros p Hp [_ Hu] Hin. destruct (ed_pages _ _ _ _ _ _ _ _ _ _ _ _ _ _ _ He p Hin) as [_ [Hin'|?]]; [|done].
    apply (Hu i t); [unfold i; lia|done|done]. }
  pose proof (remaps_table top pte_level vpn pg flags es t t' Hv Hle Ht (ed_view _ _ _ _ _ _ _ _ _ _ _ _ _ _ _ He)) as Hre. split.
  - intros x Hx. apply (Hre x Hx).
  - intros x Hx. apply (Hre x Hx).
  - apply He.
  - intros j Hj. apply list_lookup_insert_ne. rewrite Elast in Hj. unfold i. lia.
  - intros p Hp Hu. split; [apply Hu|]. intros j u Hj Hju. rewrite Elast in Hj. assert (j = i) as -> by (unfold i; lia).
    rewrite list_lookup_insert_eq in Hju by by eapply lookup_lt_Some. injection Hju as <-. by apply Hunt.
  - intros a p Hp Hu Ha. apply (ed_frame _ _ _ _ _ _ _ _ _ _ _ _ _ _ _ He).
    + intros ->. destruct Hu as [Hne _]. apply Hne. apply (in_page_apart _ _ _ Ha). apply pte_paddr_page.
    + intros q Hq' Haq. rewrite <-(in_page_apart _ _ _ Ha Haq) in Hq'. by apply (Hunt p Hp Hu).
Qed.

Lemma pt_map_1_spec s T n root es vpn pg pte_level flags : (0 < mmu_levels k)%nat → table_ok s T (n + top) root es →
  (pte_level <= top)%nat → (pte_level <= 3)%nat → vpn mod cover pte_level = 0 → pg mod cover pte_level = 0 → 0 <= pg < 2 ^ 44 →
  flag flags MEMPROTECT_FLAG_RWX = true → Z.land flags MEMPROTECT_FLAG_RW ≠ MEMPROTECT_FLAG_W → let b := vpn mod space in
  (∀ x, b <= x < b + cover pte_level → (leaf_level top es x <= 1)%nat) →
  ∃ edit s' T' es', pt_map_1 k root top vpn pg pte_level flags s = Done (edit, s') ∧ table_ok s' T' n root es' ∧
    maps b (cover pte_level) pg flags root s T es s' T' es'.
Proof.
  intros Hlev [Htab Hr HT Hnd] Hle H3 Hv Hpg Hb Hf Hrw b Hl. unfold pt_map_1.
  rewrite !(proj2 (Nat.ltb_lt _ _)) by lia. rewrite Hf, (proj2 (Z.eqb_neq _ _)) by done. rewrite (proj2 (Nat.leb_le _ _)) by done.
  cbn [assert_or_panic mbind outcome_bind negb].
  destruct (proj2 (table_index vpn top es (tab_repr_length _ _ _ _ Hr))) as [t Ht]. set (i := Z.to_nat (vpn mod cover (S top) / cover top)) in *.
  edestruct (map_one k pte_level vpn pg flags top Hv Hpg Hb H3 Hf top root es s T n) as (pt&edit&s1&s'&T'&t'&E1&E2&He); [done..| |].
  { by apply (level_entry top pte_level vpn es t). }
  rewrite E1. cbn [mbind outcome_bind]. rewrite E2. cbn [mbind outcome_bind]. exists edit, s', T', (<[i := t']> es). split_and!; [done| |].
  { split; try apply He. intros p [->|Hp]%elem_of_cons.
    - apply He, HT. by left.
    - rewrite pages_insert in Hp by by eapply lookup_lt_Some. apply elem_of_app in Hp as [Hp|Hp].
      + by apply (ed_pages _ _ _ _ _ _ _ _ _ _ _ _ _ _ _ He).
      + apply He, HT. right. rewrite (pages_split i es t Ht). apply elem_of_app. by right. }
  by apply (edited_maps s T n root es vpn pg pte_level flags s' T' t t').
Qed.

(** ** Mapping a range *)

Lemma untouched_sub b n b' n' root p es : b <= b' → b' + n' <= b + n → untouched b n root p es → untouched b' n' root p es.
Proof.
  intros Hb Hn [Hne Hu]. split; [done|]. intros j t Hj. apply Hu. pose proof (cover_pos top) as Hc.
  assert (b / cover top <= b' / cover top) by (apply Z.div_le_mono; lia).
  assert ((b' + n' - 1) / cover top <= (b + n - 1) / cover top) by (apply Z.div_le_mono; lia). lia.
Qed.

Lemma maps_untouched_wide b n pg flags root s T es s' T' es' b' n' p : maps b n pg flags root s T es s' T' es' → b' <= b → b + n <= b' + n' →
  p ∈ T → untouched b' n' root p es → untouched b' n' root p es'.
Proof.
  intros Hm Hb Hn Hp Hu. pose proof (maps_untouched _ _ _ _ _ _ _ _ _ _ _ Hm p Hp (untouched_sub b' n' b n root p es Hb Hn Hu)) as [_ Hu1].
  split; [apply Hu|]. intros j t Hj Hjt. destruct (decide (b / cover top <= Z.of_nat j <= (b + n - 1) / cover top)) as [Hin|Hout].
  - by apply (Hu1 j).
  - rewrite (maps_entries _ _ _ _ _ _ _ _ _ _ _ Hm) in Hjt by lia. by apply (proj2 Hu j).
Qed.

Lemma maps_nil b pg flags root s T es : maps b 0 pg flags root s T es s T es.
Proof. split; try done. intros x Hx. by rewrite decide_False by lia. Qed.

Lemma maps_trans b len n pg flags root s T es s1 T1 es1 s' T' es' : 0 <= len <= n →
  maps b len pg flags root s T es s1 T1 es1 → maps (b + len) (n - len) (pg + len) flags root s1 T1 es1 s' T' es' →
  maps b n pg flags root s T es s' T' es'.
Proof.
  intros Hlen H1' H2'. pose proof (cover_pos top) as Hc. split.
  - intros x Hx. rewrite (maps_view _ _ _ _ _ _ _ _ _ _ _ H2' x Hx). destruct (decide (b + len <= x < b + len + (n - len))) as [Hin|Hout].
    + rewrite decide_True by lia. do 2 f_equal. lia.
    + rewrite (maps_view _ _ _ _ _ _ _ _ _ _ _ H1' x Hx). destruct (decide (b <= x < b + len)).
      * by rewrite decide_True by lia.
      * by rewrite decide_False by lia.
  - intros x Hx Hout Hl. apply (maps_level _ _ _ _ _ _ _ _ _ _ _ H2'); [done|lia|]. apply (maps_level _ _ _ _ _ _ _ _ _ _ _ H1'); [done|lia|done].
  - etransitivity; [apply H1'|apply H2'].
  - intros j Hj. rewrite (maps_entries _ _ _ _ _ _ _ _ _ _ _ H2'), (maps_entries _ _ _ _ _ _ _ _ _ _ _ H1'); [done| |].
    + assert ((b + len - 1) / cover top <= (b + n - 1) / cover top) by (apply Z.div_le_mono; lia). lia.
    + assert (b / cover top <= (b + len) / cover top) by (apply Z.div_le_mono; lia).
      replace (b + len + (n - len) - 1) with (b + n - 1) by lia. lia.
  - intros p Hp Hu. assert (p ∈ T1) as Hp1 by by apply H1'.
    apply (maps_untouched_wide _ _ _ _ _ _ _ _ _ _ _ b n p H2'); [lia|lia|done|].
    apply (maps_untouched_wide _ _ _ _ _ _ _ _ _ _ _ b n p H1'); [lia|lia|done|done].
  - intros a p Hp Hu Ha. assert (p ∈ T1) as Hp1 by by apply H1'.
    assert (untouched b n root p es1) as Hu1 by (apply (maps_untouched_wide _ _ _ _ _ _ _ _ _ _ _ b n p H1'); [lia|lia|done|done]).
    rewrite (maps_frame _ _ _ _ _ _ _ _ _ _ _ H2' a p Hp1); [|by apply (untouched_sub b n); [lia|lia|]|done].
    apply (maps_frame _ _ _ _ _ _ _ _ _ _ _ H1' a p Hp); [by apply (untouched_sub b n); [lia|lia|]|done].
Qed.

Lemma pt_map_spec root flags : (0 < mmu_levels k <= 4)%nat → flag flags MEMPROTECT_FLAG_RWX = true → Z.land flags MEMPROTECT_FLAG_RW ≠ MEMPROTECT_FLAG_W →
  ∀ fuel vpn pg pages edit s T n es, 0 <= pages <= Z.of_nat fuel → 0 <= pg → pg + pages <= 2 ^ 44 → let b := vpn mod space in b + pages <= space →
  table_ok s T (n + Z.to_nat pages * top) root es → (∀ x, b <= x < b + pages → (leaf_level top es x <= 1)%nat) →
  ∃ edit' s' T' es', pt_map k fuel root top vpn pg pages flags edit s = Done (edit', s') ∧ table_ok s' T' n root es' ∧
    maps b pages pg flags root s T es s' T' es'.
Proof.
  intros Hlv Hf Hrw. induction fuel as [|fuel IH]; intros vpn pg pages edit s T n es Hp Hpg Hpe b Hb Hok Hl.
  { assert (pages = 0) as -> by lia. exists edit, s, T, es. cbn [pt_map Z.eqb]. split_and!; [done| |apply maps_nil].
    by rewrite Nat.add_0_r in Hok. }
  cbn [pt_map]. destruct (Z.eqb_spec pages 0) as [->|Hne].
  { exists edit, s, T, es. split_and!; [done| |apply maps_nil]. by rewrite Nat.add_0_r in Hok. }
  destruct (calc_superpage_spec top vpn pg pages ltac:(lia)) as (Hle&Hv&Hpa&Hlen). set (l := pt_calc_superpage top vpn pg pages) in *.
  rewrite super_len_cover. pose proof (cover_pos l) as Hc. set (len := cover l) in *.
  destruct (pt_map_1_spec s T (n + Z.to_nat (pages - len) * top) root es vpn pg l flags) as (edit1&s1&T1&es1&E1&Hok1&Hm1);
    [lia| |done|lia|done|done|lia|done|done|intros x Hx; apply Hl; fold b len in Hx; lia|].
  { destruct Hok as [Htab ???]. split; try done. eapply tables_weaken_le; [|exact Htab]. nia. }
  rewrite E1. cbn [mbind outcome_bind]. fold b len in Hm1.
  destruct (decide (pages = len)) as [Heq|Hlt].
  { replace (pages - len) with 0 in * by lia. exists (edit || edit1), s1, T1, es1. rewrite Heq.
    destruct fuel; cbn [pt_map Z.eqb]; (split_and!; [done| |done]); by rewrite Nat.add_0_r in Hok1. }
  assert ((vpn + len) mod space = b + len) as Eb.
  { pose proof (Z.mod_pos_bound vpn space (cover_pos _)) as Hvb. rewrite <-Z.add_mod_idemp_l by lia. apply Z.mod_small. unfold b in Hb. lia. }
  destruct (IH (vpn + len) (pg + len) (pages - len) (edit || edit1) s1 T1 n es1) as (edit'&s'&T'&es'&E'&Hok'&Hm'); [lia|lia|lia|rewrite Eb; lia|done| |].
  { intros x Hx. rewrite Eb in Hx. pose proof (Z.mod_pos_bound vpn space (cover_pos _)) as Hvb. fold b in Hvb.
    apply (maps_level _ _ _ _ _ _ _ _ _ _ _ Hm1); [lia|lia|apply Hl; lia]. }
  exists edit', s', T', es'. split_and!; [done|done|]. rewrite Eb in Hm'. by apply (maps_trans b len pages pg flags root s T es s1 T1 es1); [lia|..].
Qed.

(** ** Translations *)

Definition canonical (vpn : Z) : Prop := 0 <= vpn < mmu_half_pages k ∨ mmu_high_vpn k <= vpn < 2 ^ 52.

(** What the walk makes of a virtual page: physical page and flags. *)
Definition translate (root : Z) s (vpn : Z) : outcome (option (Z * Z)) :=
  w ← pt_walk k root vpn s;
  Done (if w_found w then Some (mmu_pte_get_ppn (w_pte w) + vpn mod cover (w_level w), mmu_pte_get_flags (w_pte w)) else None).

Lemma half_space : (0 < mmu_levels k <= 5)%nat → space = 2 * mmu_half_pages k ∧ mmu_half_pages k = 256 * cover top ∧ space <= 2 ^ 45 ∧ 0 < mmu_half_pages k.
Proof.
  intros Hl. unfold mmu_half_pages, cover. replace (S top) with (mmu_levels k) by lia. split_and!.
  - rewrite <-Z.pow_succ_r by lia. f_equal. lia.
  - change 256 with (2 ^ 8). rewrite <-Z.pow_add_r by lia. f_equal. lia.
  - apply Z.pow_le_mono_r; lia.
  - apply Z.pow_pos_nonneg; lia.
Qed.

Lemma walk_canonical vpn root s : (0 < mmu_levels k)%nat → canonical vpn → pt_walk k root vpn s = walk_loop k (S top) root vpn s.
Proof.
  intros Hl Hc. unfold pt_walk. replace (S top) with (mmu_levels k) by lia. unfold canonical in Hc.
  destruct (Z.leb_spec (mmu_half_pages k) vpn), (Z.ltb_spec vpn (mmu_high_vpn k)); try done; lia.
Qed.

Lemma translate_spec s T n root es vpn : (0 < mmu_levels k)%nat → table_ok s T n root es → canonical vpn →
  translate root s vpn = Done (view top es (vpn mod space)).
Proof.
  intros Hl [Htab Hr HT _] Hc. unfold translate. rewrite walk_canonical by done.
  destruct (walk_spec k s vpn top root es Hr) as (w&->&_&_&->); [intros p Hp; by apply (tables_mapped _ _ _ _ Htab), HT|]. done.
Qed.

(** Distinct canonical pages have distinct places in the table. *)
Lemma canonical_user vpn b n : (0 < mmu_levels k <= 5)%nat → canonical vpn → 0 <= b → b + n <= mmu_half_pages k →
  (b <= vpn mod space < b + n ↔ b <= vpn < b + n) ∧ (b <= vpn < b + n → vpn mod space = vpn).
Proof.
  intros Hl Hc Hb Hn. destruct (half_space Hl) as (Hs&_&Hmax&Hh). unfold canonical, mmu_high_vpn in Hc.
  assert (0 <= vpn < mmu_half_pages k → vpn mod space = vpn) as Hlow by (intros; apply Z.mod_small; lia). split; [|intros; apply Hlow; lia].
  destruct Hc as [Hc|Hc]; [by rewrite Hlow|]. assert (vpn mod space = vpn - 2 ^ 52 + space) as ->; [|lia].
  assert (2 ^ 52 mod space = 0) as E52.
  { unfold cover. replace (2 ^ 52) with (2 ^ (52 - 9 * Z.of_nat (S top)) * 2 ^ (9 * Z.of_nat (S top))) by (rewrite <-Z.pow_add_r by lia; f_equal; lia).
    by apply Z.mod_mul, Z.pow_nonzero. }
  apply Z.mod_divide in E52 as [q Eq]; [|lia]. symmetry. apply (Z.mod_unique_pos _ _ (q - 1)); [lia|]. rewrite Eq. lia.
Qed.

(** The levels that the walk reports. *)
Lemma walk_level s T n root es vpn : (0 < mmu_levels k)%nat → table_ok s T n root es → canonical vpn →
  (∀ w, pt_walk k root vpn s = Done w → w_found w = true → (w_level w <= 1)%nat) → (leaf_level top es (vpn mod space) <= 1)%nat.
Proof.
  intros Hl [Htab Hr HT _] Hc Hw. rewrite walk_canonical in Hw by done.
  destruct (walk_spec k s vpn top root es Hr) as (w&E&_&Hlev&Hview); [intros p Hp; by apply (tables_mapped _ _ _ _ Htab), HT|].
  destruct (w_found w) eqn:Hf; [rewrite <-(Hlev eq_refl); by apply Hw|]. clear -Hview. set (x := vpn mod space) in *. clearbody x.
  assert (∀ l es x, view l es x = None → leaf_level l es x = 0%nat) as Hnone.
  { clear. induction l as [|l IH]; intros es x; cbn [view leaf_level]; destruct (es !! _) as [[| |p es']|]; try done. apply IH. }
  rewrite Hnone by done. lia.
Qed.

(** ** User mappings *)

(** The flags of a user mapping: never global or for the kernel, and readable
    if writable. *)
Definition user_flags (flags : Z) : Z :=
  let flags := Z.ldiff flags (Z.lor MEMPROTECT_FLAG_GLOBAL MEMPROTECT_FLAG_KERNEL) in
  if flag flags MEMPROTECT_FLAG_W then Z.lor flags MEMPROTECT_FLAG_R else flags.

Lemma flag_lor_r f m m' : flag f (Z.lor m m') = flag f m || flag f m'.
Proof.
  unfold flag. rewrite Z.land_lor_distr_r, <-negb_andb. f_equal.
  destruct (Z.eqb_spec (Z.land f m) 0) as [->|Hf]; [by rewrite Z.lor_0_l|]. apply Z.eqb_neq. intros [? _]%Z.lor_eq_0_iff. done.
Qed.

Lemma user_flags_ok flags : flag flags MEMPROTECT_FLAG_RWX = true → let f := user_flags flags in
  flag f MEMPROTECT_FLAG_RWX = true ∧ Z.land f MEMPROTECT_FLAG_RW ≠ MEMPROTECT_FLAG_W ∧ flag f MEMPROTECT_FLAG_GLOBAL = false.
Proof.
  change MEMPROTECT_FLAG_RWX with (Z.lor (2 ^ 0) (Z.lor (2 ^ 1) (2 ^ 2))). change MEMPROTECT_FLAG_GLOBAL with (2 ^ 4). rewrite !flag_lor_r, !flag_bit by lia.
  intros Hf f. assert (∀ i, 0 <= i < 5 → Z.testbit f i = (i <? 4) && (Z.testbit flags i || ((i =? 0) && Z.testbit flags 1))) as Hbits.
  { intros i Hi. unfold f, user_flags. change MEMPROTECT_FLAG_W with (2 ^ 1). rewrite flag_bit, Z.ldiff_spec by lia.
    assert (i = 0 ∨ i = 1 ∨ i = 2 ∨ i = 3 ∨ i = 4) as Hi' by lia. change (Z.testbit (Z.lor MEMPROTECT_FLAG_GLOBAL MEMPROTECT_FLAG_KERNEL) 1) with false.
    cbn [negb]. rewrite andb_true_r. destruct (Z.testbit flags 1) eqn:E1;
      rewrite ?Z.lor_spec, Z.ldiff_spec; destruct Hi' as [->|[->|[->|[->| ->]]]]; rewrite ?E1; cbn; by rewrite ?andb_true_r, ?andb_false_r, ?orb_false_r, ?orb_true_r. }
  rewrite !flag_lor_r, !flag_bit by lia. rewrite !Hbits by lia. split_and!; [| |done].
  - revert Hf. generalize (Z.testbit flags 0) (Z.testbit flags 1) (Z.testbit flags 2). intros [] [] [] Hf; done || by vm_compute in Hf.
  - intros E. pose proof (f_equal (λ x, Z.testbit x 0) E) as E0. pose proof (f_equal (λ x, Z.testbit x 1) E) as E1. cbv beta in E0, E1.
    rewrite Z.land_spec, Hbits in E0, E1 by lia. revert E0 E1. generalize (Z.testbit flags 0) (Z.testbit flags 1). intros [] [] E0 E1; done.
Qed.

Definition well_formed s T n root : Prop := ∃ es, table_ok s T n root es.

(** The pages of the request. *)
Definition in_bounds (vaddr paddr length : Z) : bool :=
  negb (misaligned (Z.lor (Z.lor vaddr paddr) length)) && (vaddr / MMU_PAGE_SIZE + length / MMU_PAGE_SIZE <=? mmu_half_pages k).

Lemma user_map_spec root vaddr paddr length flags v T n es : (0 < mmu_levels k <= 4)%nat → 0 <= vaddr → 0 <= paddr → 0 <= length →
  paddr + length <= 2 ^ 56 → flag flags MEMPROTECT_FLAG_RWX = true → in_bounds vaddr paddr length = true →
  let b := vaddr / MMU_PAGE_SIZE in let pages := length / MMU_PAGE_SIZE in
  table_ok (v_vm v) T (n + Z.to_nat pages * top) root es → (∀ x, b <= x < b + pages → (leaf_level top es x <= 1)%nat) →
  ∃ s' T' es', memprotect_u k root vaddr paddr length flags v = Done (true, set_vm s' v) ∧ table_ok s' T' n root es' ∧
    maps b pages (paddr / MMU_PAGE_SIZE) (user_flags flags) root (v_vm v) T es s' T' es'.
Proof.
  intros Hl Hv Hp Hlen Hpl Hf [Hmis Hhalf]%andb_prop b pages Hok Hlev. unfold memprotect_u. apply negb_true_iff in Hmis. rewrite Hmis.
  apply Z.leb_le in Hhalf. rewrite (proj2 (Z.ltb_ge _ _)) by done. unfold memprotect_impl. fold (user_flags flags).
  destruct (user_flags_ok flags Hf) as (Hf1&Hf2&Hf3). rewrite Hf1. fold b pages. fold b pages in Hhalf.
  assert (0 <= b) as Hb by (apply Z.div_pos; [done|by vm_compute]). assert (0 <= pages) as Hpages by (apply Z.div_pos; [done|by vm_compute]).
  destruct (half_space ltac:(lia)) as (Hs&_&_&Hh). assert (b mod space = b ∨ pages = 0) as [Eb|E0].
  { destruct (decide (pages = 0)); [by right|left]. apply Z.mod_small. lia. }
  - destruct (pt_map_spec root (user_flags flags) Hl Hf1 Hf2 (Z.to_nat pages) b (paddr / MMU_PAGE_SIZE) pages false (v_vm v) T n es)
      as (edit&s'&T'&es'&E&Hok'&Hm); [lia|apply Z.div_pos; [done|by vm_compute]| |rewrite Eb; lia|done|by rewrite Eb|].
    { unfold pages, MMU_PAGE_SIZE in *. change (2 ^ 56) with (2 ^ 44 * 0x1000) in Hpl.
      assert ((paddr + length) / 0x1000 <= 2 ^ 44) by (apply Z.div_le_upper_bound; lia).
      pose proof (Z.div_mod paddr 0x1000). pose proof (Z.div_mod length 0x1000). pose proof (Z.mod_pos_bound paddr 0x1000). pose proof (Z.mod_pos_bound length 0x1000). lia. }
    rewrite E. cbn [mbind outcome_bind]. rewrite Hf3, andb_false_r. cbn [mbind outcome_bind]. rewrite Eb in Hm. by exists s', T', es'.
  - rewrite E0 in *. cbn [Z.to_nat pt_map Z.eqb mbind outcome_bind andb]. exists (v_vm v), T, es. split_and!; [done| |apply maps_nil].
    by rewrite Nat.add_0_r in Hok.
Qed.

(** C2: for a well-formed page table, [memprotect_u] refuses requests that are
    not made of whole pages of the lower half and changes nothing; otherwise, if
    no page of 1 GiB or more has to be split, it maps exactly the requested pages,
    in order, with the requested permissions, and no page for the kernel; the
    walk of every canonical page returns, before and after; all other pages are
    translated as before, even when tables are allocated or 2 MiB pages are split;
    and the page table stays well-formed. *)
Theorem memprotect_u_correct root vaddr paddr length flags v T n : (0 < mmu_levels k <= 4)%nat → 0 <= vaddr → 0 <= paddr → 0 <= length →
  paddr + length <= 2 ^ 56 → flag flags MEMPROTECT_FLAG_RWX = true → let b := vaddr / MMU_PAGE_SIZE in let pages := length / MMU_PAGE_SIZE in
  well_formed (v_vm v) T (n + Z.to_nat pages * top) root →
  (∀ vpn w, b <= vpn < b + pages → pt_walk k root vpn (v_vm v) = Done w → w_found w = true → (w_level w <= 1)%nat) →
  ∃ v', memprotect_u k root vaddr paddr length flags v = Done (in_bounds vaddr paddr length, v') ∧
    (in_bounds vaddr paddr length = false → v' = v) ∧
    (in_bounds vaddr paddr length = true → (∃ T', well_formed (v_vm v') T' n root) ∧
      ∀ vpn, canonical vpn → ∃ old, translate root (v_vm v) vpn = Done old ∧ translate root (v_vm v') vpn =
        Done (if decide (b <= vpn < b + pages) then Some (paddr / MMU_PAGE_SIZE + (vpn - b), mapped_flags (user_flags flags)) else old)).
Proof.
  intros Hl Hv Hp Hlen Hpl Hf b pages [es Hok] Hw. destruct (in_bounds vaddr paddr length) eqn:Hin; cycle 1.
  { exists v. split_and!; [|done|done]. unfold memprotect_u. unfold in_bounds in Hin. destruct (misaligned _); [done|].
    cbn [negb andb] in Hin. apply Z.leb_gt in Hin. by rewrite (proj2 (Z.ltb_lt _ _)). }
  assert (b + pages <= mmu_half_pages k) as Hhalf by (apply andb_prop in Hin as [_ Hin]; by apply Z.leb_le in Hin).
  assert (0 <= b) as Hb by (apply Z.div_pos; [done|by vm_compute]).
  destruct (user_map_spec root vaddr paddr length flags v T n es) as (s'&T'&es'&E&Hok'&Hm); [done..| |].
  { intros x Hx. fold b pages in Hx. assert (canonical x) as Hc by (left; lia). destruct (canonical_user x b pages ltac:(lia) Hc Hb Hhalf) as [_ Ex].
    rewrite <-(Ex Hx). apply (walk_level (v_vm v) T (n + Z.to_nat pages * top) root es); [lia|done|done|]. intros w. by apply Hw. }
  exists (set_vm s' v). split_and!; [done|done|]. intros _. split; [by exists T', es'|]. intros vpn Hc. exists (view top es (vpn mod space)).
  split; [by apply (translate_spec (v_vm v) T (n + Z.to_nat pages * top)); [lia|..]|].
  rewrite (translate_spec s' T' n root es') by (lia || done). f_equal. fold b pages in Hm.
  rewrite (maps_view _ _ _ _ _ _ _ _ _ _ _ Hm) by (apply Z.mod_pos_bound, cover_pos).
  destruct (canonical_user vpn b pages ltac:(lia) Hc Hb Hhalf) as [Hiff Ex]. destruct (decide (b <= vpn < b + pages)) as [Hr|Hr].
  - rewrite decide_True by by apply Hiff. by rewrite Ex.
  - by rewrite decide_False by (intros ?%Hiff; done).
Qed.

(** ** Isolation *)

(** The page table at [root'] has no page in common with the lower half of the
    one at [root]. *)
Definition separate (T : gset Z) (root : Z) (es : list ptree) (root' : Z) (es' : list ptree) : Prop :=
  ∀ p, p ∈ tab_pages root' es' → p ∈ T ∧ p ≠ root ∧ ∀ j t, (j < 256)%nat → es !! j = Some t → p ∉ ent_pages t.

(** C4: mapping pages in one context does not change the translation of any page
    in another context, though both share the tables of the kernel half. *)
Theorem memprotect_u_isolated root vaddr paddr length flags v T n es root' es' : (0 < mmu_levels k <= 4)%nat → 0 <= vaddr → 0 <= paddr →
  0 <= length → paddr + length <= 2 ^ 56 → flag flags MEMPROTECT_FLAG_RWX = true →
  let b := vaddr / MMU_PAGE_SIZE in let pages := length / MMU_PAGE_SIZE in
  table_ok (v_vm v) T (n + Z.to_nat pages * top) root es → (∀ x, b <= x < b + pages → (leaf_level top es x <= 1)%nat) →
  table_ok (v_vm v) T (n + Z.to_nat pages * top) root' es' → separate T root es root' es' →
  ∃ v' T', memprotect_u k root vaddr paddr length flags v = Done (in_bounds vaddr paddr length, v') ∧
    table_ok (v_vm v') T' n root' es' ∧ ∀ vpn, canonical vpn → translate root' (v_vm v') vpn = translate root' (v_vm v) vpn.
Proof.
  intros Hl Hv Hp Hlen Hpl Hf b pages Hok Hlev Hok' Hsep. destruct (in_bounds vaddr paddr length) eqn:Hin; cycle 1.
  { exists v, T. split_and!; [| |done].
    - unfold memprotect_u. unfold in_bounds in Hin. destruct (misaligned _); [done|]. cbn [negb andb] in Hin. apply Z.leb_gt in Hin. by rewrite (proj2 (Z.ltb_lt _ _)).
    - destruct Hok'. split; try done. eapply tables_weaken_le; [|done]. apply Nat.le_add_r. }
  assert (b + pages <= mmu_half_pages k) as Hhalf by (apply andb_prop in Hin as [_ Hin]; by apply Z.leb_le in Hin).
  destruct (user_map_spec root vaddr paddr length flags v T n es) as (s'&T'&es1&E&Hok1&Hm); [done..|]. fold b pages in Hm.
  destruct (half_space ltac:(lia)) as (_&Hh&_&_). pose proof (cover_pos top) as Hc.
  assert (∀ p, p ∈ tab_pages root' es' → untouched b pages root p es) as Hunt.
  { intros p Hp'. destruct (Hsep p Hp') as (_&Hne&Hj). split; [done|]. intros j t Hjr Ht. apply (Hj j t); [|done].
    assert ((b + pages - 1) / cover top < 256) by (apply Z.div_lt_upper_bound; lia). lia. }
  assert (table_ok s' T' n root' es') as Hok2.
  { destruct Hok' as [_ Hr HT Hnd]. split; [apply Hok1| |intros p Hp'; by apply Hm, HT|done]. apply (tab_repr_frame (snd (v_vm v))); [done|].
    intros a p Hp'. apply (maps_frame _ _ _ _ _ _ _ _ _ _ _ Hm a p); [by apply HT|by apply Hunt]. }
  exists (set_vm s' v), T'. split_and!; [done|done|]. intros vpn Hcan. rewrite (translate_spec s' T' n root' es') by (lia || done).
  by rewrite (translate_spec (v_vm v) T (n + Z.to_nat pages * top) root' es') by (lia || done).
Qed.

(** ** New contexts *)

Lemma copied_repr l m m' root root' es : (∀ i, 0 <= i < 512 → m' (root' * MMU_PAGE_SIZE + i * 8) = m (root * MMU_PAGE_SIZE + i * 8)) →
  (∀ a p, p ∈ concat (map ent_pages es) → in_page a p → m' a = m a) → tab_repr l m root es → tab_repr l m' root' es.
Proof.
  intros Hroot Hsub [Hlen Hes]%tab_repr_unfold. apply tab_repr_unfold. split; [done|]. intros i t Hi.
  assert (i < 512)%nat as Hi' by (rewrite <-Hlen; by eapply lookup_lt_Some). specialize (Hes i t Hi). rewrite Hroot by lia.
  destruct t as [|pte|p es']; [done|done|]. destruct Hes as (?&?&?&Hr). split_and!; [done..|]. destruct l as [|l]; [done|].
  apply (tab_repr_frame m); [done|]. intros a q Hq. apply Hsub. rewrite (pages_split i es _ Hi). apply elem_of_app. by left.
Qed.

(** C14: a new context has a fresh root table and translates every page as the
    global context does, which is unchanged; since the global context maps nothing
    in the lower half, the new context is separate from it and from every context
    whose pages were in use before. *)
Theorem memprotect_create_correct v T n es : (0 < mmu_levels k)%nat → table_ok (v_vm v) T (S n) (global_root v) es →
  (∀ j t, (j < 256)%nat → es !! j = Some t → t = Empty) →
  ∃ root v', memprotect_create v = Done (root, v') ∧ ctx_list v' = ctx_list v ++ [root] ∧ root ∉ T ∧
    table_ok (v_vm v') ({[root]} ∪ T) n root es ∧ table_ok (v_vm v') ({[root]} ∪ T) n (global_root v') es ∧
    (∀ root' es', (∀ p, p ∈ tab_pages root' es' → p ∈ T) → separate ({[root]} ∪ T) root es root' es') ∧
    ∀ vpn, canonical vpn → translate root (v_vm v') vpn = translate (global_root v) (v_vm v) vpn ∧
      translate (global_root v') (v_vm v') vpn = translate (global_root v) (v_vm v) vpn.
Proof.
  intros Hl [Htab Hr HT Hnd] Hempty. unfold memprotect_create.
  destruct (table_alloc_law _ _ _ (snd (v_vm v)) Htab) as (root&ps&m&->&Htab'&Hnew&Hn&Hz&Hf). cbn [mbind outcome_bind].
  rewrite (proj2 (Z.eqb_neq root 0)) by lia. cbn [negb assert_or_panic mbind outcome_bind].
  set (g := global_root v) in *. set (m' := memcpy _ _ _ m).
  assert (∀ a p, p ∈ T → in_page a p → m' a = snd (v_vm v) a) as Hold.
  { intros a p Hp Ha. assert (¬ in_page a root) as Har by (intros Har; apply Hnew; by rewrite <-(in_page_apart _ _ _ Ha Har)).
    unfold m'. rewrite memcpy_outside; [by apply Hf|]. unfold in_page, MMU_PAGE_SIZE in *. lia. }
  assert (∀ p, p ∈ concat (map ent_pages es) → p ∈ T) as Hsub by (intros p Hp; apply HT; by right).
  assert (table_ok (ps, m') ({[root]} ∪ T) n root es) as Hok.
  { split; [done| | |]; cbn [snd].
    - apply (copied_repr top (snd (v_vm v)) m' g); [|intros a p Hp; apply Hold, Hsub, Hp|done]. intros i Hi. unfold m'.
      rewrite memcpy_inside by (unfold MMU_PAGE_SIZE; lia). apply Hf. intros Har. apply Hnew.
      rewrite <-(in_page_apart _ g root (in_page_entry g i Hi) Har). apply HT. by left.
    - intros p [->|Hp]%elem_of_cons; [set_solver|]. apply elem_of_union_r. by apply Hsub.
    - apply NoDup_cons in Hnd as [_ Hnd]. constructor; [|done]. intros Hin. by apply Hnew, Hsub. }
  assert (table_ok (ps, m') ({[root]} ∪ T) n g es) as Hokg.
  { split; [done| | |done]; cbn [snd].
    - apply (tab_repr_frame (snd (v_vm v))); [done|]. intros a p Hp. by apply Hold, HT.
    - intros p Hp. apply elem_of_union_r. by apply HT. }
  eexists root, _. split_and!; [reflexivity|done|done|exact Hok|exact Hokg| |].
  - intros root' es' Hpages p Hp. apply Hpages in Hp. split_and!; [set_solver|by intros ->|]. intros j t Hj Ht. rewrite (Hempty j t Hj Ht). by intros ?%elem_of_nil.
  - intros vpn Hc. cbn [v_vm global_root]. rewrite (translate_spec (v_vm v) T (S n) g es) by done.
    by rewrite !(translate_spec (ps, m') ({[root]} ∪ T) n _ es) by done.
Qed.
End correct.

(** ** Examples

    An allocator that hands out the pages of a list. *)

Definition list_pages : TablePages (list Z) := λ ps m,
  match ps with
  | [] => Done (0, [], m)
  | p :: ps => Done (p, ps, λ a, if (p * MMU_PAGE_SIZE <=? a) && (a <? (p + 1) * MMU_PAGE_SIZE) then 0 else m a)
  end.

Lemma list_pages_spec k : @TablePagesSpec (list Z) list_pages k.
Proof.
  refine {| tables (ps : list Z) (T : gset Z) (n : nat) := (n <= length ps)%nat ∧ NoDup ps ∧
    (∀ p, p ∈ ps → p ∉ T ∧ 0 < p < 2 ^ 44 ∧ mapped k p) ∧ (∀ p, p ∈ T → mapped k p) |}.
  - by intros ps T n p (_&_&_&HT) Hp%HT.
  - intros ps T n (Hn&Hrest). split; [lia|done].
  - intros ps T n m (Hn&Hnd&Hps&HT). destruct ps as [|p ps]; [simpl in Hn; lia|]. apply NoDup_cons in Hnd as [Hp Hnd].
    destruct (Hps p) as (HpT&Hpb&Hpm); [by left|]. eexists p, ps, _. split_and!; [reflexivity|simpl in *; lia|done| | |done|lia|lia| |].
    + intros q Hq. destruct (Hps q) as (?&?&?); [by right|]. split_and!; [|lia|lia|done]. intros [->%elem_of_singleton|?]%elem_of_union; done.
    + intros q [->%elem_of_singleton|Hq]%elem_of_union; [done|by apply HT].
    + intros a Ha. unfold in_page in Ha. cbv beta. by rewrite (proj2 (Z.leb_le _ _)), (proj2 (Z.ltb_lt _ _)) by lia.
    + intros a Ha. unfold in_page in Ha. cbv beta. destruct (Z.leb_spec (p * MMU_PAGE_SIZE) a), (Z.ltb_spec a ((p + 1) * MMU_PAGE_SIZE)); done || lia.
Defined.

#[local] Existing Instances list_pages list_pages_spec.

Definition demo_mmu : mmu := Mmu 3 (2 ^ 30) false.
Definition demo_vm : vm (PS := list Z) := ([2; 3; 4; 5; 6; 7; 8; 9; 10; 11], λ _, 0).
Definition demo_space : vspace := Vspace demo_vm 1 [].

Lemma demo_ok n : (n <= 10)%nat → table_ok demo_mmu demo_vm {[1]} n 1 (replicate 512 Empty).
Proof.
  intros Hn. split.
  - split_and!; [simpl; lia|by apply (bool_decide_unpack _); vm_compute| |].
    + intros p Hp. repeat (apply elem_of_cons in Hp as [->|Hp]; [split_and!; [by intros ?%elem_of_singleton|lia|lia|by vm_compute]|]).
      by apply elem_of_nil in Hp.
    + intros p ->%elem_of_singleton. by vm_compute.
  - by apply empty_repr.
  - intros p [->|Hp]%elem_of_cons; [set_solver|]. rewrite empty_pages in Hp. by apply elem_of_nil in Hp.
  - unfold tab_pages. rewrite empty_pages. apply NoDup_singleton.
Qed.

(** Three writable pages. *)
Lemma memprotect_u_correct_witness : ∃ v', memprotect_u demo_mmu 1 0x201000 0x80005000 0x3000 MEMPROTECT_FLAG_W demo_space = Done (true, v') ∧
  ∀ vpn, canonical demo_mmu vpn → ∃ old, translate demo_mmu 1 demo_vm vpn = Done old ∧ translate demo_mmu 1 (v_vm v') vpn =
    Done (if decide (0x201 <= vpn < 0x204) then Some (0x80005 + (vpn - 0x201), Z.lor MEMPROTECT_FLAG_R MEMPROTECT_FLAG_W) else old).
Proof.
  destruct (memprotect_u_correct demo_mmu 1 0x201000 0x80005000 0x3000 MEMPROTECT_FLAG_W demo_space {[1]} 0) as (v'&E&_&Hv);
    [simpl; lia|lia|lia|lia|lia|by vm_compute| | |].
  - exists (replicate 512 Empty). apply demo_ok. by vm_compute; lia.
  - intros vpn w Hvpn Hw Hf. assert (0x201 <= vpn < 0x204) as Hr by exact Hvpn.
    assert (canonical demo_mmu vpn) as Hc by (left; change (mmu_half_pages demo_mmu) with 0x4000000; lia).
    change (pt_walk demo_mmu 1 vpn demo_vm = Done w) in Hw. rewrite (walk_canonical demo_mmu vpn 1 demo_vm (Nat.lt_0_succ 2) Hc) in Hw.
    destruct (walk_spec demo_mmu demo_vm vpn 2 1 (replicate 512 Empty)) as (w'&E'&_&Hlev&_); [by apply empty_repr| |].
    { intros p [->|Hp]%elem_of_cons; [by vm_compute|]. rewrite empty_pages in Hp. by apply elem_of_nil in Hp. }
    change (walk_loop demo_mmu 3 1 vpn demo_vm = Done w) in Hw. rewrite E' in Hw. injection Hw as <-. rewrite Hlev by done. rewrite (proj2 (empty_view 2 _)). lia.
  - exists v'. split; [exact E|]. intros vpn Hc. exact (proj2 (Hv eq_refl) vpn Hc).
Defined.

(** A second context, which is empty too, does not see them. *)
Lemma memprotect_u_isolated_witness : ∃ v' T', memprotect_u demo_mmu 1 0x201000 0x80005000 0x3000 MEMPROTECT_FLAG_W
    (Vspace ([3; 4; 5; 6; 7; 8; 9; 10; 11], λ _, 0) 1 [2]) = Done (true, v') ∧
  table_ok demo_mmu (v_vm v') T' 0 2 (replicate 512 Empty) ∧
  ∀ vpn, canonical demo_mmu vpn → translate demo_mmu 2 (v_vm v') vpn = translate demo_mmu 2 ([3; 4; 5; 6; 7; 8; 9; 10; 11], λ _, 0) vpn.
Proof.
  assert (∀ root, root = 1 ∨ root = 2 → table_ok demo_mmu ([3; 4; 5; 6; 7; 8; 9; 10; 11], λ _, 0) {[1; 2]} 6 root (replicate 512 Empty)) as Hok.
  { intros root Hroot. split.
    - split_and!; [simpl; lia|by apply (bool_decide_unpack _); vm_compute| |].
      + intros p Hp. repeat (apply elem_of_cons in Hp as [->|Hp]; [split_and!; [set_solver|lia|lia|by vm_compute]|]). by apply elem_of_nil in Hp.
      + intros p [->%elem_of_singleton| ->%elem_of_singleton]%elem_of_union; by vm_compute.
    - by apply empty_repr.
    - intros p [->|Hp]%elem_of_cons; [destruct Hroot as [->| ->]; set_solver|]. rewrite empty_pages in Hp. by apply elem_of_nil in Hp.
    - unfold tab_pages. rewrite empty_pages. apply NoDup_singleton. }
  apply (memprotect_u_isolated demo_mmu 1 0x201000 0x80005000 0x3000 MEMPROTECT_FLAG_W
    (Vspace ([3; 4; 5; 6; 7; 8; 9; 10; 11], λ _, 0) 1 [2]) {[1; 2]} 0 (replicate 512 Empty) 2 (replicate 512 Empty));
    [simpl; lia|lia|lia|lia|lia|by vm_compute|apply Hok; by left| |apply Hok; by right|].
  - intros x _. rewrite (proj2 (empty_view _ x)). lia.
  - intros p [->|Hp]%elem_of_cons; [|rewrite empty_pages in Hp; by apply elem_of_nil in Hp]. split_and!; [set_solver|done|].
    intros j t _ [-> _]%lookup_replicate. by intros ?%elem_of_nil.
Defined.

Lemma memprotect_create_correct_witness : ∃ root v', memprotect_create demo_space = Done (root, v') ∧ ctx_list v' = [root] ∧ root ≠ 1 ∧
  ∀ vpn, canonical demo_mmu vpn → translate demo_mmu root (v_vm v') vpn = translate demo_mmu 1 demo_vm vpn.
Proof.
  destruct (memprotect_create_correct demo_mmu demo_space {[1]} 5 (replicate 512 Empty)) as (root&v'&E&Hl&Hn&_&_&_&Ht).
  - simpl. lia.
  - apply demo_ok. lia.
  - by intros j t _ [-> _]%lookup_replicate.
  - exists root, v'. split; [exact E|]. split; [exact Hl|]. split; [set_solver|]. intros vpn Hc. apply (Ht vpn Hc).
Defined.

(** ** Observations *)

Definition after {A B} (m : outcome (bool * B)) (f : B → outcome A) : outcome A := '(_, v) ← m; f v.

(** A page that was unmapped is still mapped: the walk of [pt_unmap_1] uses the
    index of the lowest level at every level. *)
Example unmap_has_no_effect :
  after (memprotect_u demo_mmu 1 0x201000 0x80005000 0x1000 MEMPROTECT_FLAG_RW demo_space) (λ v,
  after (memprotect_u demo_mmu 1 0x201000 0 0x1000 0 v) (λ v, translate demo_mmu 1 (v_vm v) 0x201)) = Done (Some (0x80005, MEMPROTECT_FLAG_RW)).
Proof. by vm_compute. Qed.

(** Mapping one page inside a page of 1 GiB leaves pages of 2 MiB behind that are
    not aligned, on which the walk panics: [pt_split] counts in pages of 4 KiB. *)
Example split_gigapage_panics :
  after (memprotect_u demo_mmu 1 0x40000000 0x80000000 0x40000000 MEMPROTECT_FLAG_RW demo_space) (λ v,
  after (memprotect_u demo_mmu 1 0x40000000 0x12345000 0x1000 MEMPROTECT_FLAG_RW v) (λ v, translate demo_mmu 1 (v_vm v) 0x40200)) = Panic.
Proof. by vm_compute. Qed.

(** A kernel mapping that needs a new entry in the root table is not visible in
    the contexts that exist: [broadcast_to] is called with its arguments swapped. *)
Example kernel_mapping_not_broadcast :
  ('(root, v) ← memprotect_create demo_space;
   after (memprotect_k demo_mmu (mmu_high_vpn demo_mmu * MMU_PAGE_SIZE) 0x80005000 0x1000 MEMPROTECT_FLAG_RW v) (λ v,
     a ← translate demo_mmu (global_root v) (v_vm v) (mmu_high_vpn demo_mmu);
     b ← translate demo_mmu root (v_vm v) (mmu_high_vpn demo_mmu); Done (a, b))) =
  Done (Some (0x80005, Z.lor MEMPROTECT_FLAG_RW (Z.lor MEMPROTECT_FLAG_GLOBAL MEMPROTECT_FLAG_KERNEL)), None).
Proof. by vm_compute. Qed.
