(* ===== verification/Vmm.v ===== *)
(** * Kernel virtual addresses

    The lists of free and allocated ranges of kernel virtual memory in
    kernel/port/generic/src/memprotect.c, and what allocation and release do to
    the pages they cover.  The arrays are those of [Containers]; the code holds a
    mutex, so an operation is one step. *)

From stdpp Require Import sorting.
From S2P Require Import Prelude Containers PageTable.

Definition MEMMAP_PAGE_SIZE : Z := 0x1000.

Record vmm_info := VmmInfo { vi_vpn : Z; vi_pages : Z }.
Record vmm := Vmm { vmm_used : list vmm_info; vmm_free : list vmm_info }.

(** The comparison with a range that starts at [vpn]. *)
Definition vmm_info_cmp (vpn : Z) (a : vmm_info) : Z := if vpn <? vi_vpn a then 1 else if vi_vpn a <? vpn then -1 else 0.

Section vmm.
Context `{!KArrays} (k : mmu).

Definition set_free (l : list vmm_info) (v : vmm) : vmm := Vmm (vmm_used v) l.
Definition set_used (l : list vmm_info) (v : vmm) : vmm := Vmm l (vmm_free v).
Definition put_free (i : nat) (r : vmm_info) (v : vmm) : vmm := set_free (<[i := r]> (vmm_free v)) v.

(** The upper bound adds a number of bytes to a page number. *)
Definition vmm_mark_reserved (mem_ok : bool) (vpn pages : Z) (v : vmm) : outcome vmm :=
  let '(vpn, pages) := if vpn <? mmu_high_vpn k then (mmu_high_vpn k, u64 (pages - (mmu_high_vpn k - vpn))) else (vpn, pages) in
  let limit := u64 (mmu_high_vpn k + mmu_half_pages k * MMU_PAGE_SIZE) in
  let pages := if limit <? u64 (vpn + pages) then u64 (limit - vpn) else pages in
  let '(found, index) := array_binsearch (vmm_free v) (vmm_info_cmp vpn) in
  _ ← assert_or_panic ((found : bool) || (0 <? index)%nat);
  let index := if found then index else (index - 1)%nat in
  range ← deref (vmm_free v !! index);
  _ ← assert_or_panic (vi_vpn range <=? vpn);
  _ ← assert_or_panic (vpn + pages <=? vi_vpn range + vi_pages range);
  if (vi_vpn range =? vpn) && (vi_pages range =? pages) then
    Done (set_free (array_remove (vmm_free v) index) v)
  else if (vi_vpn range <? vpn) && (vpn + pages <? vi_vpn range + vi_pages range) then
    let '(ok, l) := array_insert mem_ok (vmm_free v) (VmmInfo (vpn + pages) (vi_vpn range + vi_pages range - vpn - pages)) (index + 1) in
    _ ← assert_or_panic ok;
    Done (put_free index (VmmInfo (vi_vpn range) (vpn - vi_vpn range)) (set_free l v))
  else if vi_vpn range <? vpn then Done (put_free index (VmmInfo (vi_vpn range) (vpn - vi_vpn range)) v)
  else Done (put_free index (VmmInfo (vpn + pages) (vi_vpn range + vi_pages range - vpn - pages)) v).

(** The first range that is large enough. *)
Fixpoint find_free (i : nat) (pages : Z) (l : list vmm_info) : option nat :=
  match l with
  | [] => None
  | r :: l => if pages <=? vi_pages r then Some i else find_free (S i) pages l
  end.

Definition vaddr_pages (len : Z) : Z := u64 (len - 1) / MEMMAP_PAGE_SIZE + 3.

Definition memprotect_alloc_vaddr (mem_ok : bool) (len : Z) (v : vmm) : outcome (Z * vmm) :=
  let pages := vaddr_pages len in
  match find_free 0 pages (vmm_free v) with
  | None => Panic
  | Some i =>
      range ← deref (vmm_free v !! i);
      let '(ok, used) := array_sorted_insert mem_ok (vmm_used v) (VmmInfo (vi_vpn range) pages) (vmm_info_cmp (vi_vpn range)) in
      _ ← assert_or_panic ok;
      let v := set_used used v in
      let v := if pages <? vi_pages range then put_free i (VmmInfo (vi_vpn range + pages) (vi_pages range - pages)) v
               else set_free (array_remove (vmm_free v) i) v in
      Done ((vi_vpn range + 1) * MEMMAP_PAGE_SIZE, v)
  end.

(** [vmm_free[res.index]] is read even behind the last range. *)
Definition memprotect_free_vaddr (mem_ok : bool) (vaddr : Z) (v : vmm) : outcome vmm :=
  _ ← assert_or_panic (vaddr mod MEMMAP_PAGE_SIZE =? 0);
  let vpn := vaddr / MEMMAP_PAGE_SIZE - 1 in
  let '(found, index) := array_binsearch (vmm_used v) (vmm_info_cmp vpn) in
  _ ← assert_or_panic found;
  range ← deref (vmm_used v !! index);
  let v := set_used (array_remove (vmm_used v) index) v in
  _ ← assert_or_panic (vi_vpn range =? vpn);
  let '(found, index) := array_binsearch (vmm_free v) (vmm_info_cmp (vi_vpn range)) in
  _ ← assert_or_panic (negb found);
  left ← (if (index =? 0)%nat then Done false
          else l ← deref (vmm_free v !! (index - 1)%nat); Done (vi_vpn l + vi_pages l =? vi_vpn range));
  right ← deref (vmm_free v !! index);
  let joins := vi_vpn range + vi_pages range =? vi_vpn right in
  if left && joins then
    l ← deref (vmm_free v !! (index - 1)%nat);
    let v := put_free (index - 1) (VmmInfo (vi_vpn l) (vi_vpn right + vi_pages right - vi_vpn l)) v in
    Done (set_free (array_remove (vmm_free v) index) v)
  else if (left : bool) then
    l ← deref (vmm_free v !! (index - 1)%nat);
    Done (put_free (index - 1) (VmmInfo (vi_vpn l) (vi_vpn range + vi_pages range - vi_vpn l)) v)
  else if joins then
    Done (put_free index (VmmInfo (vi_vpn range) (vi_pages right + (vi_vpn right - vi_vpn range))) v)
  else
    let '(ok, l) := array_insert mem_ok (vmm_free v) range index in
    _ ← assert_or_panic ok;
    Done (set_free l v).
End vmm.

(** The ranges after memory was initialised: everything but the kernel and the
    map of physical memory. *)
Definition vmm_init `{!KArrays} (k : mmu) (mem_ok : bool) (kernel_vpn kernel_pages hhdm_vpn hhdm_pages : Z) : outcome vmm :=
  let v := Vmm [] [VmmInfo (mmu_high_vpn k) (mmu_half_pages k)] in
  v ← vmm_mark_reserved k mem_ok (kernel_vpn - 1) (kernel_pages + 2) v;
  vmm_mark_reserved k mem_ok (hhdm_vpn - 1) (hhdm_pages + 2) v.

(** ** Ranges *)

Definition covered (r : vmm_info) (x : Z) : Prop := vi_vpn r <= x < vi_vpn r + vi_pages r.
Definition covers (l : list vmm_info) (x : Z) : Prop := ∃ r, r ∈ l ∧ covered r x.

(** Ranges in ascending order that do not overlap. *)
Definition ranges_ok (l : list vmm_info) : Prop :=
  StronglySorted (λ a b, vi_vpn a + vi_pages a <= vi_vpn b) l ∧ Forall (λ r, 0 < vi_pages r) l.

Lemma covers_app l l' x : covers (l ++ l') x ↔ covers l x ∨ covers l' x.
Proof. unfold covers. setoid_rewrite elem_of_app. naive_solver. Qed.

Lemma covers_cons r l x : covers (r :: l) x ↔ covered r x ∨ covers l x.
Proof. unfold covers. setoid_rewrite elem_of_cons. naive_solver. Qed.

Lemma covers_nil x : ¬ covers [] x.
Proof. intros (r&?%elem_of_nil&_). done. Qed.

Lemma ranges_app l l' : ranges_ok (l ++ l') ↔
  ranges_ok l ∧ ranges_ok l' ∧ ∀ a b, a ∈ l → b ∈ l' → vi_vpn a + vi_pages a <= vi_vpn b.
Proof.
  unfold ranges_ok. rewrite Forall_app, StronglySorted_app. naive_solver.
Qed.

Lemma ranges_cons r l : ranges_ok (r :: l) ↔ 0 < vi_pages r ∧ ranges_ok l ∧ ∀ b, b ∈ l → vi_vpn r + vi_pages r <= vi_vpn b.
Proof.
  unfold ranges_ok. rewrite Forall_cons. split.
  - intros [[Hs Hall]%StronglySorted_inv [Hr Hp]]. rewrite Forall_forall in Hall. done.
  - intros (Hr&[Hs Hp]&Hall). split; [constructor; [done|by apply Forall_forall]|done].
Qed.

Lemma ranges_key l : ranges_ok l → key_sorted vi_vpn l.
Proof.
  intros [Hs Hp]. unfold key_sorted. induction Hs as [|r l Hs IH Hall]; simpl; [constructor|]. apply Forall_cons in Hp as [Hr Hp].
  constructor; [by apply IH|]. apply Forall_fmap. eapply Forall_impl; [exact Hall|]. intros b. simpl. lia.
Qed.

Lemma ranges_pos l r : ranges_ok l → r ∈ l → 0 < vi_pages r.
Proof. intros [_ Hp]. rewrite Forall_forall in Hp. apply Hp. Qed.

(** The place of a range that overlaps no other. *)
Lemma ranges_insert l r : ranges_ok l → 0 < vi_pages r → (∀ x, covered r x → ¬ covers l x) →
  ∃ a b, l = a ++ b ∧ Forall (λ x, vi_vpn x < vi_vpn r) a ∧ Forall (λ x, vi_vpn r < vi_vpn x) b ∧ ranges_ok (a ++ r :: b).
Proof.
  intros Hok Hr Hdis. destruct (key_sorted_cut vi_vpn l (vi_vpn r) (ranges_key l Hok)) as (a&b&->&Ha&Hb).
  { intros (x&E&Hx)%list_elem_of_fmap. pose proof (ranges_pos _ _ Hok Hx). apply (Hdis (vi_vpn r)); [unfold covered; lia|]. exists x.
    unfold covered. split; [done|lia]. }
  exists a, b. split_and!; [done|done|done|]. rewrite Forall_forall in Ha, Hb. pose proof Hok as (Hoa&Hob&Hab)%ranges_app.
  apply ranges_app. split_and!; [done| |].
  - apply ranges_cons. split_and!; [done|done|]. intros x Hx. specialize (Hb x Hx). simpl in Hb. pose proof (ranges_pos _ _ Hob Hx).
    destruct (decide (vi_vpn r + vi_pages r <= vi_vpn x)) as [|Hlt]; [done|]. exfalso. apply (Hdis (vi_vpn x)); [unfold covered; lia|].
    exists x. split; [set_solver|unfold covered; lia].
  - intros x y Hx [->|Hy]%elem_of_cons; [|by apply Hab]. specialize (Ha x Hx). simpl in Ha. pose proof (ranges_pos _ _ Hoa Hx).
    destruct (decide (vi_vpn x + vi_pages x <= vi_vpn r)) as [|Hlt]; [done|]. exfalso. apply (Hdis (vi_vpn r)); [unfold covered; lia|].
    exists x. split; [set_solver|unfold covered; lia].
Qed.

(** Two ranges that touch are one. *)
Lemma ranges_merge a x y b : ranges_ok (a ++ x :: y :: b) → vi_vpn x + vi_pages x = vi_vpn y →
  let z := VmmInfo (vi_vpn x) (vi_pages x + vi_pages y) in
  ranges_ok (a ++ z :: b) ∧ ∀ p, covers (a ++ z :: b) p ↔ covers (a ++ x :: y :: b) p.
Proof.
  intros (Ha&(Hx&(Hy&Hb&Hyb)%ranges_cons&Hxb)%ranges_cons&Hab)%ranges_app E z. split.
  - apply ranges_app. split_and!; [done| |].
    + apply ranges_cons. cbn [vi_pages vi_vpn z]. split_and!; [lia|done|]. intros w Hw. specialize (Hyb w Hw). lia.
    + intros v w Hv [->|Hw]%elem_of_cons; [cbn [vi_vpn z]; apply Hab; [done|by left]|]. apply Hab; [done|by right; right].
  - intros p. rewrite !covers_app, !covers_cons. unfold covered. cbn [vi_pages vi_vpn z]. assert (vi_vpn x <= p < vi_vpn x + (vi_pages x + vi_pages y) ↔
      vi_vpn x <= p < vi_vpn x + vi_pages x ∨ vi_vpn y <= p < vi_vpn y + vi_pages y) by lia. naive_solver.
Qed.

Record vmm_ok (v : vmm) : Prop := {
  ok_free : ranges_ok (vmm_free v);
  ok_used : ranges_ok (vmm_used v);
  ok_apart x : covers (vmm_free v) x → ¬ covers (vmm_used v) x;
}.

Lemma cmp_vpn vpn (l : list vmm_info) : cmp_key vi_vpn (vmm_info_cmp vpn) vpn l.
Proof.
  intros x _. unfold vmm_info_cmp. destruct (Z.ltb_spec vpn (vi_vpn x)); [lia|]. destruct (Z.ltb_spec (vi_vpn x) vpn); lia.
Qed.

Lemma insert_middle {A} (a b : list A) x y : <[length a := y]> (a ++ x :: b) = a ++ y :: b.
Proof. induction a as [|z a IH]; [done|]. simpl. by rewrite IH. Qed.

Lemma find_free_Some pages : ∀ l i j, find_free i pages l = Some j → ∃ a r b, l = a ++ r :: b ∧ j = (i + length a)%nat ∧ pages <= vi_pages r.
Proof.
  induction l as [|r l IH]; intros i j; cbn [find_free]; [done|]. destruct (Z.leb_spec pages (vi_pages r)).
  - intros [= <-]. exists [], r, l. split_and!; [done|simpl; lia|done].
  - intros (a&r'&b&->&->&Hp)%IH. exists (r :: a), r', b. split_and!; [done|simpl; lia|done].
Qed.

Lemma find_free_None pages l i : find_free i pages l = None → Forall (λ r, vi_pages r < pages) l.
Proof.
  revert i. induction l as [|r l IH]; intros i; cbn [find_free]; [done|]. destruct (Z.leb_spec pages (vi_pages r)); [done|].
  intros Hn. constructor; [done|by eapply IH].
Qed.

Section correct.
Context `{!KArrays} `{!KArraysSpec}.

Lemma sorted_insert_ranges l r : ranges_ok l → 0 < vi_pages r → (∀ x, covered r x → ¬ covers l x) →
  ∃ l', array_sorted_insert true l r (vmm_info_cmp (vi_vpn r)) = (true, l') ∧ ranges_ok l' ∧ r ∈ l' ∧ ∀ x, covers l' x ↔ covered r x ∨ covers l x.
Proof.
  intros Hok Hr Hdis. destruct (ranges_insert l r Hok Hr Hdis) as (a&b&->&Ha&Hb&Hok').
  assert (cmp_split (vmm_info_cmp (vi_vpn r)) a [] b) as Hs.
  { rewrite Forall_forall in Ha, Hb. split_and!; [|constructor|]; apply Forall_forall; intros x Hx;
      pose proof (cmp_vpn (vi_vpn r) (a ++ b) x ltac:(set_solver)) as Hc; [specialize (Ha x Hx)|specialize (Hb x Hx)]; simpl in *; lia. }
  destruct (array_sorted_insert_spec true a [] b r _ Hs) as [(e1&e2&[-> ->]%eq_sym%app_nil&E)|[? _]]; [|done].
  exists (a ++ r :: b). split_and!; [exact E|done|set_solver|]. intros x. rewrite !covers_app, covers_cons. tauto.
Qed.

(** Taking pages from the front of a range. *)
Lemma ranges_shrink a r b n : ranges_ok (a ++ r :: b) → 0 < n < vi_pages r → let r' := VmmInfo (vi_vpn r + n) (vi_pages r - n) in
  ranges_ok (a ++ r' :: b) ∧ ∀ x, covers (a ++ r' :: b) x ↔ covers (a ++ r :: b) x ∧ ¬ (vi_vpn r <= x < vi_vpn r + n).
Proof.
  intros (Ha&(Hr&Hb&Hrb)%ranges_cons&Hab)%ranges_app Hn r'. split.
  - apply ranges_app. split_and!; [done| |].
    + apply ranges_cons. cbn [vi_pages vi_vpn r']. split_and!; [lia|done|]. intros w Hw. specialize (Hrb w Hw). lia.
    + intros v w Hv [->|Hw]%elem_of_cons; [cbn [vi_vpn r']; specialize (Hab v r Hv ltac:(by left)); lia|]. apply Hab; [done|by right].
  - intros x. rewrite !covers_app, !covers_cons. unfold covered at 1 2. cbn [vi_pages vi_vpn r'].
    assert (covers a x → x < vi_vpn r) as Hax.
    { intros (v&Hv&Hvx). specialize (Hab v r Hv ltac:(by left)). unfold covered in Hvx. lia. }
    assert (covers b x → vi_vpn r + n <= x) as Hbx.
    { intros (v&Hv&Hvx). specialize (Hrb v Hv). unfold covered in Hvx. lia. }
    split.
    + intros [?|[?|?]]; [split; [by left|intros ?; specialize (Hax ltac:(done)); lia]|split; [right; left|]; lia|split; [by right; right|specialize (Hbx ltac:(done)); lia]].
    + intros [[?|[?|?]] ?]; [by left|right; left; lia|by right; right].
Qed.

Lemma ranges_remove a r b : ranges_ok (a ++ r :: b) →
  ranges_ok (a ++ b) ∧ ∀ x, covers (a ++ b) x ↔ covers (a ++ r :: b) x ∧ ¬ covered r x.
Proof.
  intros (Ha&(Hr&Hb&Hrb)%ranges_cons&Hab)%ranges_app. split.
  - apply ranges_app. split_and!; [done|done|]. intros v w Hv Hw. apply Hab; [done|by right].
  - intros x. rewrite !covers_app, !covers_cons.
    assert (covers a x → ¬ covered r x) as Hax.
    { intros (v&Hv&Hvx) Hx. specialize (Hab v r Hv ltac:(by left)). unfold covered in *. lia. }
    assert (covers b x → ¬ covered r x) as Hbx.
    { intros (v&Hv&Hvx) Hx. specialize (Hrb v Hv). unfold covered in *. lia. }
    tauto.
Qed.

(** C26: an allocation of [len] bytes of kernel address space succeeds if some
    free range is large enough; it returns an aligned address of pages that were
    free, with an unused page before and after; the pages, and no others, become
    allocated, and the lists stay sorted, without overlaps, and apart. *)
Theorem alloc_vaddr_correct len v : vmm_ok v → 0 < len < 2 ^ 64 → (∃ r, r ∈ vmm_free v ∧ vaddr_pages len <= vi_pages r) →
  ∃ vaddr v', memprotect_alloc_vaddr true len v = Done (vaddr, v') ∧ vmm_ok v' ∧ vaddr mod MEMMAP_PAGE_SIZE = 0 ∧
    let first := vaddr / MEMMAP_PAGE_SIZE - 1 in let n := vaddr_pages len in
    len + 2 * MEMMAP_PAGE_SIZE <= n * MEMMAP_PAGE_SIZE ∧
    VmmInfo first n ∈ vmm_used v' ∧ (∀ x, first <= x < first + n → covers (vmm_free v) x) ∧
    (∀ x, covers (vmm_free v') x ↔ covers (vmm_free v) x ∧ ¬ (first <= x < first + n)) ∧
    (∀ x, covers (vmm_used v') x ↔ covers (vmm_used v) x ∨ first <= x < first + n).
Proof.
  intros [Hfree Hused Hapart] Hlen (r0&Hr0&Hn0). unfold memprotect_alloc_vaddr. set (n := vaddr_pages len) in *.
  assert (len + 2 * MEMMAP_PAGE_SIZE <= n * MEMMAP_PAGE_SIZE ∧ 0 < n) as [Hguard Hn].
  { unfold n, vaddr_pages, wrap. rewrite Z.mod_small by lia. unfold MEMMAP_PAGE_SIZE. pose proof (Z.div_mod (len - 1) 0x1000). pose proof (Z.mod_pos_bound (len - 1) 0x1000). lia. }
  destruct (find_free 0 n (vmm_free v)) as [i|] eqn:Ef; cycle 1.
  { apply find_free_None in Ef. rewrite Forall_forall in Ef. specialize (Ef r0 Hr0). simpl in Ef. lia. }
  apply find_free_Some in Ef as (a&r&b&El&->&Hr). rewrite El in *. cbn [Nat.add]. rewrite list_lookup_middle by done. cbn [deref mbind outcome_bind].
  assert (∀ x, vi_vpn r <= x < vi_vpn r + n → covers (a ++ r :: b) x) as Hfrom.
  { intros x Hx. rewrite covers_app, covers_cons. right. left. unfold covered. lia. }
  destruct (sorted_insert_ranges (vmm_used v) (VmmInfo (vi_vpn r) n)) as (used&E&Hused'&Hin&Hcov); [done|done| |].
  { intros x Hx. apply Hapart. by apply Hfrom. }
  cbn [vi_vpn] in E. rewrite E. cbn [assert_or_panic mbind outcome_bind]. unfold covered in Hcov. cbn [vi_vpn vi_pages] in Hcov.
  assert (∃ free', (if n <? vi_pages r then put_free (length a) (VmmInfo (vi_vpn r + n) (vi_pages r - n)) (set_used used v)
      else set_free (array_remove (vmm_free (set_used used v)) (length a)) (set_used used v)) = Vmm used free' ∧ ranges_ok free' ∧
    ∀ x, covers free' x ↔ covers (a ++ r :: b) x ∧ ¬ (vi_vpn r <= x < vi_vpn r + n)) as (free'&->&Hfree'&Hcf).
  { destruct (Z.ltb_spec n (vi_pages r)).
    - destruct (ranges_shrink a r b n Hfree ltac:(lia)) as [Hok Hc]. eexists. split; [|by split].
      unfold put_free, set_free. cbn [vmm_used vmm_free set_used]. by rewrite El, insert_middle.
    - destruct (ranges_remove a r b Hfree) as [Hok Hc]. exists (a ++ b). split_and!; [|done|].
      + unfold set_free. cbn [vmm_used vmm_free set_used]. rewrite El, array_remove_spec by (rewrite length_app; simpl; lia). by rewrite delete_middle.
      + intros x. rewrite Hc. unfold covered. replace n with (vi_pages r) by lia. done. }
  eexists _, _. assert ((vi_vpn r + 1) * MEMMAP_PAGE_SIZE / MEMMAP_PAGE_SIZE - 1 = vi_vpn r) as Ev by (rewrite Z.div_mul by done; lia).
  split; [reflexivity|]. rewrite Ev. split_and!; [|by apply Z.mod_mul|done|done|done|done|by intros x; rewrite Hcov; tauto].
  split; [done|done|]. cbn [vmm_free vmm_used]. intros x [Hx Hnx]%Hcf [?|Hu]%Hcov; [done|]. by apply (Hapart x).
Qed.

Lemma rev_case {A} (l : list A) : l = [] ∨ ∃ l' x, l = l' ++ [x].
Proof. destruct l as [|x l _] using rev_ind; [by left|right]. by exists l, x. Qed.

(** The list with a range joined to its neighbours. *)
Lemma join_left a l r b : ranges_ok (a ++ l :: r :: b) → vi_vpn l + vi_pages l = vi_vpn r →
  let l' := VmmInfo (vi_vpn l) (vi_vpn r + vi_pages r - vi_vpn l) in
  ranges_ok (a ++ l' :: b) ∧ ∀ x, covers (a ++ l' :: b) x ↔ covers (a ++ l :: r :: b) x.
Proof.
  intros Hok E l'. replace l' with (VmmInfo (vi_vpn l) (vi_pages l + vi_pages r)) by (unfold l'; f_equal; lia). by apply ranges_merge.
Qed.

Lemma join_right a r y b : ranges_ok (a ++ r :: y :: b) → vi_vpn r + vi_pages r = vi_vpn y →
  let y' := VmmInfo (vi_vpn r) (vi_pages y + (vi_vpn y - vi_vpn r)) in
  ranges_ok (a ++ y' :: b) ∧ ∀ x, covers (a ++ y' :: b) x ↔ covers (a ++ r :: y :: b) x.
Proof.
  intros Hok E y'. replace y' with (VmmInfo (vi_vpn r) (vi_pages r + vi_pages y)) by (unfold y'; f_equal; lia). by apply ranges_merge.
Qed.

Lemma join_both a l r y b : ranges_ok (a ++ l :: r :: y :: b) → vi_vpn l + vi_pages l = vi_vpn r → vi_vpn r + vi_pages r = vi_vpn y →
  let l' := VmmInfo (vi_vpn l) (vi_vpn y + vi_pages y - vi_vpn l) in
  ranges_ok (a ++ l' :: b) ∧ ∀ x, covers (a ++ l' :: b) x ↔ covers (a ++ l :: r :: y :: b) x.
Proof.
  intros Hok E1 E2 l'. destruct (ranges_merge a l r (y :: b) Hok E1) as [Hok1 Hc1].
  destruct (ranges_merge a _ y b Hok1) as [Hok2 Hc2]; [simpl; lia|]. cbn [vi_vpn vi_pages] in *.
  replace l' with (VmmInfo (vi_vpn l) (vi_pages l + vi_pages r + vi_pages y)) by (unfold l'; f_equal; lia).
  split; [done|]. intros x. by rewrite Hc2, Hc1.
Qed.

Lemma binsearch_free a r b vpn : ranges_ok (a ++ r :: b) → vi_vpn r = vpn →
  array_binsearch (a ++ r :: b) (vmm_info_cmp vpn) = (true, length a).
Proof. intros Hok E. apply array_binsearch_found. apply (key_sorted_split vi_vpn _ a r b vpn); [by apply ranges_key|apply cmp_vpn|done]. Qed.

Lemma binsearch_gap a b vpn : Forall (λ x, vi_vpn x < vpn) a → Forall (λ x, vpn < vi_vpn x) b →
  array_binsearch (a ++ b) (vmm_info_cmp vpn) = (false, length a).
Proof.
  intros Ha Hb. apply array_binsearch_absent. rewrite Forall_forall in Ha, Hb. split_and!; [|constructor|]; apply Forall_forall; intros x Hx;
    pose proof (cmp_vpn vpn (a ++ b) x ltac:(set_solver)) as Hc; [specialize (Ha x Hx)|specialize (Hb x Hx)]; simpl in *; lia.
Qed.

(** Releasing an allocated range of kernel addresses, where a free range
    lies above it, returns; it frees exactly its pages, joins them with the free
    ranges that touch them, and keeps the lists sorted, without overlaps, and
    apart. *)
Theorem free_vaddr_correct vaddr r f v : vmm_ok v → vaddr mod MEMMAP_PAGE_SIZE = 0 → r ∈ vmm_used v → vi_vpn r = vaddr / MEMMAP_PAGE_SIZE - 1 →
  f ∈ vmm_free v → vi_vpn r < vi_vpn f →
  ∃ v', memprotect_free_vaddr true vaddr v = Done v' ∧ vmm_ok v' ∧ (∀ x, covers (vmm_free v') x ↔ covers (vmm_free v) x ∨ covered r x) ∧
    (∀ x, covers (vmm_used v') x ↔ covers (vmm_used v) x ∧ ¬ covered r x).
Proof.
  intros [Hfree Hused Hapart] Hal Hr Evpn Hf Hlt. unfold memprotect_free_vaddr. rewrite Hal. cbn [Z.eqb assert_or_panic mbind outcome_bind].
  destruct v as [used free]. cbn [vmm_used vmm_free] in *. apply list_elem_of_split in Hr as (ua&ub&->).
  rewrite (binsearch_free ua r ub) by done. cbn [assert_or_panic mbind outcome_bind]. rewrite list_lookup_middle by done. cbn [deref mbind outcome_bind].
  rewrite (proj2 (Z.eqb_eq _ _)) by done. cbn [assert_or_panic mbind outcome_bind]. rewrite array_remove_spec by (rewrite length_app; simpl; lia).
  rewrite delete_middle. destruct (ranges_remove ua r ub Hused) as [Hused' Hcu].
  assert (0 < vi_pages r) as Hrp by (apply (ranges_pos _ r Hused); set_solver).
  assert (∀ x, covered r x → ¬ covers free x) as Hdis.
  { intros x Hx Hcf. apply (Hapart x Hcf). apply covers_app. right. apply covers_cons. by left. }
  destruct (ranges_insert free r Hfree Hrp Hdis) as (fa&fb&->&Hfa&Hfb&Hins). unfold set_used. cbn [vmm_free].
  rewrite (binsearch_gap fa fb) by done. cbn [negb assert_or_panic mbind outcome_bind].
  assert (∃ y b, fb = y :: b) as (y&b&->).
  { destruct fb as [|y b]; [|by eexists _, _]. rewrite app_nil_r in Hf. rewrite Forall_forall in Hfa. specialize (Hfa f Hf). simpl in Hfa. lia. }
  assert (∀ free', ranges_ok free' → (∀ x, covers free' x ↔ covers (fa ++ r :: y :: b) x) → vmm_ok (Vmm (ua ++ ub) free') ∧
    (∀ x, covers free' x ↔ covers (fa ++ y :: b) x ∨ covered r x) ∧ (∀ x, covers (ua ++ ub) x ↔ covers (ua ++ r :: ub) x ∧ ¬ covered r x)) as Hfin.
  { intros free' Hok' Hc'. assert (∀ x, covers free' x ↔ covers (fa ++ y :: b) x ∨ covered r x) as Hcf.
    { intros x. rewrite Hc', !covers_app, !covers_cons. tauto. }
    split_and!; [|done|done]. split; [done|done|]. cbn [vmm_free vmm_used]. intros x [Hx|Hx]%Hcf [Hu Hn]%Hcu; [by apply (Hapart x)|done]. }
  assert (∃ v', (let '(ok, l) := array_insert true (fa ++ y :: b) r (length fa) in
      _ ← assert_or_panic ok; Done (set_free l (Vmm (ua ++ ub) (fa ++ y :: b)))) = Done v' ∧ vmm_ok v' ∧
    (∀ x, covers (vmm_free v') x ↔ covers (fa ++ y :: b) x ∨ covered r x) ∧
    (∀ x, covers (vmm_used v') x ↔ covers (ua ++ r :: ub) x ∧ ¬ covered r x)) as Hplain.
  { destruct (array_insert_spec true (fa ++ y :: b) r (length fa)) as [->|[? _]]; [rewrite length_app; lia| |done].
    rewrite take_app_length, drop_app_length. cbn [assert_or_panic mbind outcome_bind]. eexists. split; [reflexivity|]. by apply Hfin. }
  assert ((fa ++ y :: b) !! length fa = Some y) as Ey by by apply list_lookup_middle. rewrite Ey. cbn [deref mbind outcome_bind].
  clear Ey. destruct (rev_case fa) as [->|(fa'&l&->)].
  - cbn [length Nat.eqb mbind outcome_bind deref andb]. destruct (Z.eqb_spec (vi_vpn r + vi_pages r) (vi_vpn y)) as [E|_]; [|exact Hplain].
    destruct (join_right [] r y b Hins E) as [Hok' Hc']. eexists. split; [reflexivity|]. by apply Hfin.
  - rewrite length_app, Nat.add_1_r in *. cbn [Nat.eqb Nat.sub]. rewrite Nat.sub_0_r. rewrite <-!app_assoc in *. cbn [app] in *.
    rewrite list_lookup_middle by done. cbn [deref mbind outcome_bind].
    destruct (Z.eqb_spec (vi_vpn l + vi_pages l) (vi_vpn r)) as [E1|_], (Z.eqb_spec (vi_vpn r + vi_pages r) (vi_vpn y)) as [E2|_]; cbn [andb]; [| | |exact Hplain].
    + destruct (join_both fa' l r y b Hins E1 E2) as [Hok' Hc']. unfold put_free, set_free. cbn [vmm_free vmm_used]. rewrite insert_middle.
      rewrite array_remove_spec by (rewrite length_app; simpl; lia). eexists. split; [reflexivity|].
      replace (delete (S (length fa')) _) with (fa' ++ VmmInfo (vi_vpn l) (vi_vpn y + vi_pages y - vi_vpn l) :: b); [by apply Hfin|].
      rewrite (cons_middle _ fa' (y :: b)), app_assoc. replace (S (length fa')) with (length (fa' ++ [VmmInfo (vi_vpn l) (vi_vpn y + vi_pages y - vi_vpn l)])) by (rewrite length_app; simpl; lia).
      by rewrite delete_middle, <-app_assoc.
    + destruct (join_left fa' l r (y :: b) Hins E1) as [Hok' Hc']. unfold put_free, set_free. cbn [vmm_free vmm_used]. rewrite insert_middle.
      eexists. split; [reflexivity|]. by apply Hfin.
    + destruct (join_right (fa' ++ [l]) r y b) as [Hok' Hc']; [by rewrite <-app_assoc|done|]. unfold put_free, set_free. cbn [vmm_free vmm_used].
      eexists. split; [reflexivity|]. cbn [vmm_free vmm_used].
      replace (<[S (length fa') := _]> _) with ((fa' ++ [l]) ++ VmmInfo (vi_vpn r) (vi_pages y + (vi_vpn y - vi_vpn r)) :: b).
      * apply Hfin; [done|]. intros x. by rewrite Hc', <-app_assoc.
      * change (fa' ++ l :: y :: b) with (fa' ++ [l] ++ y :: b). rewrite app_assoc, <-(insert_middle (fa' ++ [l]) b y). f_equal. rewrite length_app. simpl. lia.
Qed.

(** ** Reserving *)

(** What is left of a range without [n] pages from [u]. *)
Definition pieces (r : vmm_info) (u n : Z) : list vmm_info :=
  (if vi_vpn r <? u then [VmmInfo (vi_vpn r) (u - vi_vpn r)] else []) ++
  (if u + n <? vi_vpn r + vi_pages r then [VmmInfo (u + n) (vi_vpn r + vi_pages r - u - n)] else []).

Lemma pieces_spec r u n : vi_vpn r <= u → u + n <= vi_vpn r + vi_pages r → 0 < n →
  ranges_ok (pieces r u n) ∧ (∀ p, p ∈ pieces r u n → vi_vpn r <= vi_vpn p ∧ vi_vpn p + vi_pages p <= vi_vpn r + vi_pages r) ∧
  ∀ x, covers (pieces r u n) x ↔ covered r x ∧ ¬ (u <= x < u + n).
Proof.
  intros Hlo Hhi Hn. unfold pieces. destruct (Z.ltb_spec (vi_vpn r) u), (Z.ltb_spec (u + n) (vi_vpn r + vi_pages r)); cbn [app].
  all: (split_and!; [unfold ranges_ok; split; repeat constructor; simpl; lia| |]).
  all: try (intros p; rewrite ?elem_of_cons, ?elem_of_nil; intros Hp; repeat destruct Hp as [->|Hp]; simpl; try done; lia).
  all: intros x; rewrite ?covers_cons; unfold covered; simpl; pose proof (covers_nil x); intuition lia.
Qed.

Lemma ranges_carve a r b u n : ranges_ok (a ++ r :: b) → vi_vpn r <= u → u + n <= vi_vpn r + vi_pages r → 0 < n →
  ranges_ok (a ++ pieces r u n ++ b) ∧ ∀ x, covers (a ++ pieces r u n ++ b) x ↔ covers (a ++ r :: b) x ∧ ¬ (u <= x < u + n).
Proof.
  intros Hok Hlo Hhi Hn. destruct (pieces_spec r u n Hlo Hhi Hn) as (Hp&Hin&Hc). pose proof Hok as (Ha&(Hr&Hb&Hrb)%ranges_cons&Hab)%ranges_app. split.
  - apply ranges_app. split_and!; [done| |].
    + apply ranges_app. split_and!; [done|done|]. intros p q Hpp Hq. specialize (Hin p Hpp). specialize (Hrb q Hq). lia.
    + intros p q Hpa [Hq|Hq]%elem_of_app; [|apply Hab; [done|by right]]. specialize (Hin q Hq). specialize (Hab p r Hpa ltac:(by left)). lia.
  - intros x. destruct (ranges_remove a r b Hok) as [_ Hrem]. specialize (Hrem x). specialize (Hc x). rewrite !covers_app, !covers_cons in *.
    assert (¬ covered r x → ¬ (u <= x < u + n)) by (unfold covered; lia). tauto.
Qed.

Lemma mark_reserved_spec k vpn pages v a r b : vmm_free v = a ++ r :: b → ranges_ok (vmm_free v) → mmu_high_vpn k <= vpn → 0 < pages →
  vpn + pages <= 2 ^ 52 → 0 < mmu_half_pages k <= 2 ^ 44 → vi_vpn r <= vpn → vpn + pages <= vi_vpn r + vi_pages r →
  vmm_mark_reserved k true vpn pages v = Done (set_free (a ++ pieces r vpn pages ++ b) v).
Proof.
  intros El Hok Hhigh Hp Htop Hh Hlo Hhi. unfold vmm_mark_reserved. rewrite (proj2 (Z.ltb_ge vpn _)) by done.
  assert (u64 (mmu_high_vpn k + mmu_half_pages k * MMU_PAGE_SIZE) = mmu_high_vpn k + mmu_half_pages k * MMU_PAGE_SIZE) as El64.
  { unfold wrap. apply Z.mod_small. unfold mmu_high_vpn, MMU_PAGE_SIZE in *. lia. }
  rewrite El64. assert (0 <= mmu_high_vpn k) as Hh0 by (unfold mmu_high_vpn; lia).
  assert (u64 (vpn + pages) = vpn + pages) as -> by (apply Z.mod_small; lia).
  rewrite (proj2 (Z.ltb_ge (mmu_high_vpn k + mmu_half_pages k * MMU_PAGE_SIZE) _)) by (unfold mmu_high_vpn, MMU_PAGE_SIZE in *; lia).
  rewrite El in *. pose proof (ranges_key _ Hok) as Hkey.
  assert (array_binsearch (a ++ r :: b) (vmm_info_cmp vpn) = (if vi_vpn r =? vpn then (true, length a) else (false, S (length a)))) as ->.
  { destruct (Z.eqb_spec (vi_vpn r) vpn) as [E|Hne]; [by apply binsearch_free|].
    rewrite cons_middle, app_assoc. rewrite (binsearch_gap (a ++ [r]) b); [by rewrite length_app, Nat.add_1_r| |];
      pose proof Hok as (Ha&(Hr&Hb&Hrb)%ranges_cons&Hab)%ranges_app; apply Forall_forall; intros x Hx.
    - apply elem_of_app in Hx as [Hx| ->%list_elem_of_singleton]; [|lia]. specialize (Hab x r Hx ltac:(by left)). pose proof (ranges_pos _ _ Ha Hx). lia.
    - specialize (Hrb x Hx). lia. }
  set (found := vi_vpn r =? vpn).
  assert ((if found then (true, length a) else (false, S (length a))) = (found, if found then length a else S (length a))) as -> by by destruct found.
  cbv iota beta. replace (found || (0 <? (if found then length a else S (length a)))%nat) with true by by destruct found.
  cbn [assert_or_panic mbind outcome_bind].
  replace (if found then if found then length a else S (length a) else ((if found then length a else S (length a)) - 1)%nat) with (length a)
    by (destruct found; [done|simpl; lia]).
  rewrite list_lookup_middle by done. cbn [deref mbind outcome_bind]. rewrite (proj2 (Z.leb_le (vi_vpn r) vpn)) by done.
  rewrite (proj2 (Z.leb_le (vpn + pages) _)) by done. cbn [assert_or_panic mbind outcome_bind]. unfold found. clear found. unfold pieces, put_free.
  rewrite !El. destruct (Z.eqb_spec (vi_vpn r) vpn) as [E|Hne]; cbn [andb].
  - rewrite !(proj2 (Z.ltb_ge (vi_vpn r) vpn)) by lia. cbn [andb app]. destruct (Z.eqb_spec (vi_pages r) pages) as [E'|Hne'].
    + rewrite (proj2 (Z.ltb_ge (vpn + pages) _)) by lia. rewrite array_remove_spec by (rewrite length_app; simpl; lia). by rewrite delete_middle.
    + rewrite (proj2 (Z.ltb_lt (vpn + pages) _)) by lia. by rewrite insert_middle.
  - rewrite !(proj2 (Z.ltb_lt (vi_vpn r) vpn)) by lia. cbn [andb]. destruct (Z.ltb_spec (vpn + pages) (vi_vpn r + vi_pages r)).
    + destruct (array_insert_spec true (a ++ r :: b) (VmmInfo (vpn + pages) (vi_vpn r + vi_pages r - vpn - pages)) (length a + 1)) as [->|[? _]];
        [rewrite length_app; simpl; lia| |done]. cbn [assert_or_panic mbind outcome_bind]. unfold set_free. cbn [vmm_free vmm_used].
      rewrite (cons_middle r), app_assoc. rewrite take_app_length', drop_app_length' by (rewrite length_app; simpl; lia). rewrite <-app_assoc. cbn [app].
      by rewrite insert_middle.
    + rewrite insert_middle. done.
Qed.

(** After initialisation exactly the upper half without the kernel, the map
    of physical memory and one page on each side of both is free. *)
Theorem vmm_init_correct k kernel_vpn kernel_pages hhdm_vpn hhdm_pages : 0 < mmu_half_pages k <= 2 ^ 44 →
  mmu_high_vpn k < kernel_vpn → 0 <= kernel_pages → kernel_vpn + kernel_pages < 2 ^ 52 →
  mmu_high_vpn k < hhdm_vpn → 0 <= hhdm_pages → hhdm_vpn + hhdm_pages < 2 ^ 52 →
  hhdm_vpn + hhdm_pages + 1 < kernel_vpn ∨ kernel_vpn + kernel_pages + 1 < hhdm_vpn →
  ∃ v, vmm_init k true kernel_vpn kernel_pages hhdm_vpn hhdm_pages = Done v ∧ vmm_ok v ∧ vmm_used v = [] ∧
    ∀ x, covers (vmm_free v) x ↔ mmu_high_vpn k <= x < 2 ^ 52 ∧ ¬ (kernel_vpn - 1 <= x <= kernel_vpn + kernel_pages) ∧
      ¬ (hhdm_vpn - 1 <= x <= hhdm_vpn + hhdm_pages).
Proof.
  intros Hh Hk1 Hk2 Hk3 Hp1 Hp2 Hp3 Hapart. unfold vmm_init. set (r := VmmInfo (mmu_high_vpn k) (mmu_half_pages k)).
  assert (mmu_high_vpn k + mmu_half_pages k = 2 ^ 52) as Htop by (unfold mmu_high_vpn; lia).
  assert (ranges_ok [r]) as Hr by (split; repeat constructor; apply Hh).
  rewrite (mark_reserved_spec k (kernel_vpn - 1) (kernel_pages + 2) _ [] r []) by (done || lia || (simpl; lia)). cbn [mbind outcome_bind app].
  destruct (ranges_carve [] r [] (kernel_vpn - 1) (kernel_pages + 2) Hr) as [Hok1 Hc1]; [simpl; lia..|]. cbn [app] in *. rewrite app_nil_r in *.
  assert (∃ a r' b, pieces r (kernel_vpn - 1) (kernel_pages + 2) = a ++ r' :: b ∧ vi_vpn r' <= hhdm_vpn - 1 ∧
    hhdm_vpn - 1 + (hhdm_pages + 2) <= vi_vpn r' + vi_pages r') as (a&r'&b&El&Hlo&Hhi).
  { unfold pieces. cbn [vi_vpn vi_pages r]. destruct Hapart as [Hlt|Hgt].
    - rewrite (proj2 (Z.ltb_lt _ _)) by lia. eexists [], _, _. split; [reflexivity|]. simpl. lia.
    - rewrite (proj2 (Z.ltb_lt (kernel_vpn - 1 + _) _)) by lia. eexists _, _, []. split; [reflexivity|]. simpl. lia. }
  rewrite El in *. rewrite (mark_reserved_spec k (hhdm_vpn - 1) (hhdm_pages + 2) _ a r' b) by (done || lia).
  destruct (ranges_carve a r' b (hhdm_vpn - 1) (hhdm_pages + 2) Hok1 Hlo Hhi ltac:(lia)) as [Hok2 Hc2].
  eexists. split; [reflexivity|]. split_and!; [|done|].
  - split; [done|split; constructor|]. intros x _. apply covers_nil.
  - intros x. cbn [vmm_free set_free]. rewrite Hc2, Hc1, covers_cons. unfold covered. cbn [vi_vpn vi_pages r]. pose proof (covers_nil x). lia || intuition lia.
Qed.
End correct.

(** ** Examples *)

#[local] Existing Instances demo_arrays demo_arrays_spec.

(** A kernel of 256 pages at the top and a map of 1024 pages. *)
Lemma vmm_init_correct_witness : ∃ v, vmm_init (Mmu 3 (2 ^ 30) false) true 0xfffffffff0000 256 0xffffffc000001 1024 = Done v ∧ vmm_ok v.
Proof.
  destruct (vmm_init_correct (Mmu 3 (2 ^ 30) false) 0xfffffffff0000 256 0xffffffc000001 1024) as (v&E&Hok&_);
    [by vm_compute|by vm_compute|lia|by vm_compute|by vm_compute|lia|by vm_compute|left; lia|].
  by exists v.
Defined.

Definition demo_vmm : vmm := Vmm [VmmInfo 200 3] [VmmInfo 100 50; VmmInfo 203 97].

Lemma demo_vmm_ok : vmm_ok demo_vmm.
Proof.
  split; [split; repeat constructor; simpl; lia|split; repeat constructor; simpl; lia|].
  intros x (r&Hr&Hx) (u&Hu&Hux). unfold covered in *. cbn [vmm_free vmm_used demo_vmm] in *. rewrite !elem_of_cons, elem_of_nil in *.
  destruct Hr as [-> |[->|[]]], Hu as [->|[]]; simpl in *; lia.
Qed.

(** Two pages, with one on each side. *)
Lemma alloc_vaddr_correct_witness : ∃ vaddr v', memprotect_alloc_vaddr true 0x1001 demo_vmm = Done (vaddr, v') ∧ vmm_ok v' ∧
  VmmInfo (vaddr / MEMMAP_PAGE_SIZE - 1) 4 ∈ vmm_used v'.
Proof.
  destruct (alloc_vaddr_correct 0x1001 demo_vmm demo_vmm_ok) as (vaddr&v'&E&Hok&_&_&Hin&_).
  - lia.
  - exists (VmmInfo 100 50). split; [by left|by vm_compute].
  - exists vaddr, v'. split; [exact E|]. split; [exact Hok|exact Hin].
Defined.

Lemma free_vaddr_correct_witness : ∃ v', memprotect_free_vaddr true 0xc9000 demo_vmm = Done v' ∧ vmm_ok v' ∧ ¬ covers (vmm_used v') 201.
Proof.
  destruct (free_vaddr_correct 0xc9000 (VmmInfo 200 3) (VmmInfo 203 97) demo_vmm demo_vmm_ok) as (v'&E&Hok&_&Hu).
  - by vm_compute.
  - by left.
  - by vm_compute.
  - by right; left.
  - simpl. lia.
  - exists v'. split; [exact E|]. split; [exact Hok|]. rewrite Hu. intros [_ Hn]. apply Hn. unfold covered. simpl. lia.
Defined.

(** Releasing the highest range, with no free range above it, reads behind the
    end of the list of free ranges. *)
Example free_vaddr_reads_behind : memprotect_free_vaddr true 0xc9000 (Vmm [VmmInfo 200 3] [VmmInfo 100 50]) = Undef.
Proof. by vm_compute. Qed.
