(* ===== verification/StringRoutines.v ===== *)
(** * Memory and string routines

    kernel/src/freestanding/string.c over memory as a function from addresses to
    bytes.  The wide variants of [memmove] and [memset] access 2, 4 or 8 bytes at
    a time; areas do not wrap around the end of the address space. *)

From S2P Require Import Prelude.

(** ** Lengths *)

(** The pointer to the terminator. *)
Fixpoint strlen_loop (fuel : nat) (ptr : Z) (m : memory) : outcome Z :=
  match fuel with
  | O => Fuel
  | S fuel => if m ptr =? 0 then Done ptr else strlen_loop fuel (ptr + 1) m
  end.

Definition strlen (fuel : nat) (string : Z) (m : memory) : outcome Z := ptr ← strlen_loop fuel string m; Done (ptr - string).

Fixpoint strnlen_loop (n : nat) (string i max_len : Z) (m : memory) : Z :=
  match n with
  | O => max_len
  | S n => if m (string + i) =? 0 then i else strnlen_loop n string (i + 1) max_len m
  end.

Definition strnlen (string max_len : Z) (m : memory) : Z := strnlen_loop (Z.to_nat max_len) string 0 max_len m.

(** ** Copying *)

(** [dest_ptr[i] = src_ptr[i]] for elements of [w] bytes. *)
Definition copy_unit (w dest src i : Z) (m : memory) : memory := λ a,
  if (dest + i * w <=? a) && (a <? dest + i * w + w) then m (src + i * w + (a - (dest + i * w))) else m a.

Fixpoint copy_forward (n : nat) (i w dest src : Z) (m : memory) : memory :=
  match n with
  | O => m
  | S n => copy_forward n (i + 1) w dest src (copy_unit w dest src i m)
  end.

Fixpoint copy_backward (n : nat) (w dest src : Z) (m : memory) : memory :=
  match n with
  | O => m
  | S n => copy_backward n w dest src (copy_unit w dest src (Z.of_nat n) m)
  end.

Definition MEM_COPY_IMPL (w dest src size : Z) (m : memory) : memory :=
  let n := Z.to_nat (size / w) in
  if dest <? src then copy_forward n 0 w dest src m
  else if src <? dest then copy_backward n w dest src m
  else m.

(** The width of an access that the alignment of all arguments allows. *)
Definition access_width (align_detector : Z) : Z :=
  if negb (Z.land align_detector 1 =? 0) then 1
  else if negb (Z.land align_detector 2 =? 0) then 2
  else if negb (Z.land align_detector 4 =? 0) then 4
  else 8.

Definition memmove (dest src size : Z) (m : memory) : memory :=
  MEM_COPY_IMPL (access_width (Z.lor (Z.lor dest src) size)) dest src size m.

(** [memcpy] of this file. *)
Definition string_memcpy (dest src size : Z) (m : memory) : memory := memmove dest src size m.

(** ** Filling *)

(** A store of [value] into an element of [w] bytes. *)
Definition set_unit (w dest value i : Z) (m : memory) : memory := λ a,
  if (dest + i * w <=? a) && (a <? dest + i * w + w) then (if a =? dest + i * w then value else 0) else m a.

Fixpoint set_loop (n : nat) (i w dest value : Z) (m : memory) : memory :=
  match n with
  | O => m
  | S n => set_loop n (i + 1) w dest value (set_unit w dest value i m)
  end.

Definition MEM_SET_IMPL (w dest value size : Z) (m : memory) : memory := set_loop (Z.to_nat (size / w)) 0 w dest value m.

Definition memset (dest value size : Z) (m : memory) : memory :=
  MEM_SET_IMPL (access_width (Z.lor dest size)) dest value size m.

(** ** Theorems *)

Lemma in_area lo hi a {A} (x y : A) : (if (lo <=? a) && (a <? hi) then x else y) = if decide (lo <= a < hi) then x else y.
Proof. destruct (Z.leb_spec lo a), (Z.ltb_spec a hi), (decide (lo <= a < hi)); simpl; done || lia. Qed.

Lemma copy_unit_spec w dest src i m a :
  copy_unit w dest src i m a = if decide (dest + i * w <= a < dest + i * w + w) then m (src + (a - dest)) else m a.
Proof. unfold copy_unit. rewrite in_area. destruct (decide _); [f_equal; lia|done]. Qed.

(** When the destination lies below the source, the elements that are still to be
    read are intact. *)
Lemma copy_forward_spec w dest src m0 : 0 < w → dest < src → ∀ n i m, 0 <= i →
  (∀ a, m a = if decide (dest <= a < dest + i * w) then m0 (src + (a - dest)) else m0 a) →
  ∀ a, copy_forward n i w dest src m a = if decide (dest <= a < dest + (i + Z.of_nat n) * w) then m0 (src + (a - dest)) else m0 a.
Proof.
  intros Hw Hlt. induction n as [|n IH]; intros i m Hi Hm a; cbn [copy_forward].
  - rewrite Hm. by replace (i + Z.of_nat 0) with i by lia.
  - replace (i + Z.of_nat (S n)) with (i + 1 + Z.of_nat n) by lia. apply IH; [lia|]. intros x. rewrite copy_unit_spec, !Hm.
    destruct (decide (dest + i * w <= x < dest + i * w + w)).
    + rewrite decide_False by lia. rewrite decide_True by lia. done.
    + destruct (decide (dest <= x < dest + i * w)); [rewrite decide_True by lia|rewrite decide_False by lia]; done.
Qed.

Lemma copy_backward_spec w dest src size m0 : 0 < w → src < dest → ∀ n m, Z.of_nat n * w <= size →
  (∀ a, m a = if decide (dest + Z.of_nat n * w <= a < dest + size) then m0 (src + (a - dest)) else m0 a) →
  ∀ a, copy_backward n w dest src m a = if decide (dest <= a < dest + size) then m0 (src + (a - dest)) else m0 a.
Proof.
  intros Hw Hlt. induction n as [|n IH]; intros m Hn Hm a; cbn [copy_backward].
  - rewrite Hm. by replace (dest + Z.of_nat 0 * w) with dest by lia.
  - apply IH; [lia|]. intros x. rewrite copy_unit_spec, !Hm.
    destruct (decide (dest + Z.of_nat n * w <= x < dest + Z.of_nat n * w + w)).
    + rewrite decide_False by lia. rewrite decide_True by lia. done.
    + destruct (decide (dest + Z.of_nat (S n) * w <= x < dest + size)); [rewrite decide_True by lia|rewrite decide_False by lia]; done.
Qed.

Lemma low_bits d k : 0 <= k → (∀ j, 0 <= j < k → Z.testbit d j = false) → d mod 2 ^ k = 0.
Proof.
  intros Hk Hd. rewrite <-Z.land_ones by done. apply Z.bits_inj'. intros j Hj. rewrite Z.land_spec, Z.testbit_0_l.
  destruct (decide (j < k)); [by rewrite Hd|rewrite Z.ones_spec_high by lia; apply andb_false_r].
Qed.

Lemma land_pow2_zero d j : 0 <= j → Z.land d (2 ^ j) = 0 → Z.testbit d j = false.
Proof. intros Hj E. pose proof (f_equal (λ x, Z.testbit x j) E) as Hb. cbv beta in Hb. rewrite Z.land_spec, Z.pow2_bits_true, andb_true_r, Z.testbit_0_l in Hb by done. done. Qed.

(** The width divides whatever went into the detector. *)
Lemma access_width_spec d : 0 < access_width d ∧ d mod access_width d = 0.
Proof.
  unfold access_width. destruct (Z.eqb_spec (Z.land d 1) 0) as [E0|_]; cbn [negb]; [|split; [lia|apply Z.mod_1_r]].
  destruct (Z.eqb_spec (Z.land d 2) 0) as [E1|_]; cbn [negb]; cycle 1.
  { split; [lia|]. apply (low_bits d 1); [lia|]. intros j Hj. replace j with 0 by lia. by apply land_pow2_zero. }
  destruct (Z.eqb_spec (Z.land d 4) 0) as [E2|_]; cbn [negb]; (split; [lia|]).
  - apply (low_bits d 3); [lia|]. intros j Hj. assert (j = 0 ∨ j = 1 ∨ j = 2) as [->|[->| ->]] by lia; by apply land_pow2_zero.
  - apply (low_bits d 2); [lia|]. intros j Hj. assert (j = 0 ∨ j = 1) as [->| ->] by lia; by apply land_pow2_zero.
Qed.

Lemma mod_lor_r x y w : (w = 1 ∨ w = 2 ∨ w = 4 ∨ w = 8) → (Z.lor x y) mod w = 0 → y mod w = 0.
Proof.
  intros Hw. assert (∃ k, 0 <= k ∧ w = 2 ^ k) as (k&Hk&->) by (destruct Hw as [->|[->|[->| ->]]]; [exists 0|exists 1|exists 2|exists 3]; done).
  rewrite <-!Z.land_ones by done. intros E. apply Z.bits_inj'. intros j Hj. pose proof (f_equal (λ z, Z.testbit z j) E) as Hb. cbv beta in Hb.
  rewrite !Z.land_spec, Z.lor_spec, Z.testbit_0_l in *. by destruct (Z.testbit x j), (Z.testbit y j), (Z.testbit (Z.ones k) j).
Qed.

Lemma width_cases d : access_width d = 1 ∨ access_width d = 2 ∨ access_width d = 4 ∨ access_width d = 8.
Proof. unfold access_width. repeat case_match; lia. Qed.

(** The elements cover the area. *)
Lemma width_covers x size : 0 <= size → let w := access_width (Z.lor x size) in 0 < w ∧ Z.of_nat (Z.to_nat (size / w)) * w = size.
Proof.
  intros Hs w. destruct (access_width_spec (Z.lor x size)) as [Hw Hd]. fold w in Hw, Hd. split; [done|].
  apply mod_lor_r in Hd; [|apply width_cases]. pose proof (Z.div_mod size w). pose proof (Z.div_pos size w). rewrite Z2Nat.id by lia. lia.
Qed.

(** [memmove] copies every byte of the source as it was before the call, for
    every alignment and also when the areas overlap, and changes nothing else. *)
Theorem memmove_correct dest src size m a : 0 <= size → memmove dest src size m a = memcpy dest src size m a.
Proof.
  intros Hs. unfold memmove, MEM_COPY_IMPL, memcpy. destruct (width_covers (Z.lor dest src) size Hs) as [Hw Hn].
  set (w := access_width _) in *. rewrite in_area. destruct (Z.ltb_spec dest src) as [Hlt|Hge]; [|destruct (Z.ltb_spec src dest) as [Hlt|Hge']].
  - rewrite (copy_forward_spec w dest src m) by (done || lia || (intros x; rewrite decide_False by lia; done)). by rewrite Z.add_0_l, Hn.
  - rewrite (copy_backward_spec w dest src size m); [done|done|done|lia|]. intros x. by rewrite decide_False by lia.
  - replace src with dest by lia. destruct (decide _); [f_equal; lia|done].
Qed.

Lemma set_loop_spec w dest value m0 : 0 < w → ∀ n i m, 0 <= i →
  (∀ a, m a = if decide (dest <= a < dest + i * w) then (if decide ((a - dest) mod w = 0) then value else 0) else m0 a) →
  ∀ a, set_loop n i w dest value m a =
    if decide (dest <= a < dest + (i + Z.of_nat n) * w) then (if decide ((a - dest) mod w = 0) then value else 0) else m0 a.
Proof.
  intros Hw. induction n as [|n IH]; intros i m Hi Hm a; cbn [set_loop].
  - rewrite Hm. by replace (i + Z.of_nat 0) with i by lia.
  - replace (i + Z.of_nat (S n)) with (i + 1 + Z.of_nat n) by lia. apply IH; [lia|]. intros x. unfold set_unit. rewrite in_area, Hm.
    destruct (decide (dest + i * w <= x < dest + i * w + w)) as [Hx|Hx].
    + rewrite decide_True by lia. assert ((x - dest) mod w = x - dest - i * w) as ->.
      { symmetry. apply (Z.mod_unique_pos _ _ i); lia. }
      destruct (Z.eqb_spec x (dest + i * w)); [rewrite decide_True by lia|rewrite decide_False by lia]; done.
    + destruct (decide (dest <= x < dest + i * w)); [rewrite (decide_True (P := dest <= x < _)) by lia|rewrite decide_False by lia]; done.
Qed.

(** What [memset] stores: the value into the lowest byte of each element, zero
    into the others. *)
Lemma memset_spec dest value size m a : 0 <= size → let w := access_width (Z.lor dest size) in
  memset dest value size m a = if decide (dest <= a < dest + size) then (if decide ((a - dest) mod w = 0) then value else 0) else m a.
Proof.
  intros Hs w. unfold memset, MEM_SET_IMPL. destruct (width_covers dest size Hs) as [Hw Hn]. fold w in Hw, Hn |- *.
  rewrite (set_loop_spec w dest value m) by (done || lia || (intros x; rewrite decide_False by lia; done)). by rewrite Z.add_0_l, Hn.
Qed.

(** Clearing memory is right for every alignment, other values when an odd
    address or size selects single bytes. *)
Theorem memset_correct dest value size m a : 0 <= size → value = 0 ∨ Z.odd dest = true ∨ Z.odd size = true →
  memset dest value size m a = memfill dest value size m a.
Proof.
  intros Hs Hv. rewrite memset_spec by done. unfold memfill. rewrite in_area. destruct (decide (dest <= a < dest + size)); [|done].
  destruct (decide _) as [|Hm]; [done|]. destruct Hv as [Hv|Hodd]; [done|]. exfalso. apply Hm.
  assert (access_width (Z.lor dest size) = 1) as ->; [|apply Z.mod_1_r]. unfold access_width.
  change 1 with (Z.ones 1) at 1. rewrite Z.land_ones by lia. change (2 ^ 1) with 2. rewrite Zmod_odd.
  rewrite <-!Z.bit0_odd, Z.lor_spec, !Z.bit0_odd in *. by destruct Hodd as [->| ->]; rewrite ?orb_true_r.
Qed.

(** [strnlen] finds the first zero byte below [max_len]. *)
Lemma strnlen_loop_spec string m : ∀ n i max_len, max_len = i + Z.of_nat n → let r := strnlen_loop n string i max_len m in
  i <= r <= max_len ∧ (∀ j, i <= j < r → m (string + j) ≠ 0) ∧ (r < max_len → m (string + r) = 0).
Proof.
  induction n as [|n IH]; intros i max_len E; cbn [strnlen_loop]; [split_and!; intros; lia|].
  destruct (Z.eqb_spec (m (string + i)) 0) as [E0|E0]; [split_and!; intros; lia || done|].
  destruct (IH (i + 1) max_len ltac:(lia)) as (Hr&Hbelow&Hend). split_and!; [lia|lia| |done].
  intros j Hj. destruct (decide (j = i)) as [->|]; [done|]. apply Hbelow. lia.
Qed.

(** [strlen] returns the index of the first zero byte, and returns when there
    is one. *)
Theorem strlen_correct string n m : 0 <= n → m (string + n) = 0 → (∀ j, 0 <= j < n → m (string + j) ≠ 0) →
  strlen (S (Z.to_nat n)) string m = Done n.
Proof.
  intros Hn Hend Hbelow. unfold strlen. assert (∀ k p, string + n = p + Z.of_nat k → string <= p → strlen_loop (S k) p m = Done (string + n)) as Hloop.
  { induction k as [|k IH]; intros p E Hp; cbn [strlen_loop].
    - replace p with (string + n) by lia. by rewrite Hend.
    - rewrite (proj2 (Z.eqb_neq _ _)). { apply IH; lia. }
      replace p with (string + (p - string)) by lia. apply Hbelow. lia. }
  rewrite (Hloop (Z.to_nat n) string) by lia. cbn [mbind outcome_bind]. f_equal. lia.
Qed.

Theorem strnlen_correct string max_len m : 0 <= max_len → let r := strnlen string max_len m in
  0 <= r <= max_len ∧ (∀ j, 0 <= j < r → m (string + j) ≠ 0) ∧ (r < max_len → m (string + r) = 0).
Proof. intros Hm. apply strnlen_loop_spec. lia. Qed.

(** ** Examples *)

(** Overlapping areas, in both directions, with wide accesses. *)
Lemma memmove_correct_witness : ∃ m : memory, (∀ a, memmove 0x1002 0x1000 6 m a = memcpy 0x1002 0x1000 6 m a) ∧
  (∀ a, memmove 0x1000 0x1002 6 m a = memcpy 0x1000 0x1002 6 m a) ∧ memmove 0x1002 0x1000 6 m 0x1004 = 0x1002.
Proof. exists (λ a, a). split_and!; [intros a; apply memmove_correct; lia|intros a; apply memmove_correct; lia|rewrite memmove_correct by lia; by vm_compute]. Defined.

(** Filling an aligned area with 0xff stores 0xff into the first byte only. *)
Example memset_wide_partial : let m := memset 0x1000 0xff 4 (λ _, 0x55) in
  (m 0x1000, m 0x1001, m 0x1002, m 0x1003) = (0xff, 0, 0, 0).
Proof. by vm_compute. Qed.
