(* ===== verification/Housekeeping.v ===== *)
(** * Housekeeping tasks

    The queue of kernel/src/housekeeping.c.  The operations hold the mutex of the
    queue; a task runs while it is held, so a callback cannot change the queue.
    Calls of callbacks are recorded in order and taken to return: one that blocks,
    as the cleaning up of a process does while its threads run, keeps the mutex.
    [hk_thread_func] repeats [hk_pass]. *)

From stdpp Require Import sorting.
From S2P Require Import Prelude Containers Sched.

Definition TIMESTAMP_US_MAX : Z := 2 ^ 63 - 1.

Record taskent := TaskEnt { next_time : Z; interval : Z; taskno : Z; callback : Z; arg : Z }.

(** A call of a callback with the number of the task and its argument. *)
Record hk_call := HkCall { call_fn : Z; call_no : Z; call_arg : Z }.

Record hk := Hk { hk_queue : list taskent; taskno_ctr : Z; hk_mtx : bool; hk_calls : list hk_call }.

(** The comparison with a task at [time]. *)
Definition hk_task_time_cmp (time : Z) (b : taskent) : Z := if next_time b <? time then -1 else if time <? next_time b then 1 else 0.

Section hk.
Context `{!KArrays}.
Implicit Types s : hk.

Definition set_queue q s : hk := Hk q (taskno_ctr s) (hk_mtx s) (hk_calls s).
Definition set_mtx (b : bool) s : hk := Hk (hk_queue s) (taskno_ctr s) b (hk_calls s).
Definition log_call c s : hk := Hk (hk_queue s) (taskno_ctr s) (hk_mtx s) (hk_calls s ++ [c]).

(** The wait for a mutex that no one releases has no end. *)
Definition hk_acquire s : outcome hk := if hk_mtx s then Fuel else Done (set_mtx true s).

(** The tasks that are due at [now].  The task leaves the queue, runs, and
    returns at its next time if it repeats; the array does not grow. *)
Fixpoint hk_run_due (fuel : nat) (now : Z) s : outcome hk :=
  match hk_queue s with
  | [] => Done s
  | task :: _ =>
      if now <? next_time task then Done s else
      match fuel with
      | O => Fuel
      | S fuel =>
          let s := set_queue (array_remove (hk_queue s) 0) s in
          _ ← assert_or_panic (negb (callback task =? 0));
          let s := log_call (HkCall (callback task) (taskno task) (arg task)) s in
          if (0 <? interval task) && (next_time task <=? TIMESTAMP_US_MAX - interval task) then
            let task := TaskEnt (next_time task + interval task) (interval task) (taskno task) (callback task) (arg task) in
            let '(_, q) := array_sorted_insert true (hk_queue s) task (hk_task_time_cmp (next_time task)) in
            hk_run_due fuel now (set_queue q s)
          else hk_run_due fuel now s
      end
  end.

(** One round of the housekeeping thread. *)
Definition hk_pass (fuel : nat) (now : Z) s : outcome hk :=
  s ← hk_acquire s;
  s ← hk_run_due fuel now s;
  Done (set_mtx false s).

(** The counter is an [int]. *)
Definition hk_add_repeated (mem_ok : bool) (time interval task arg : Z) s : outcome (Z * hk) :=
  if task =? 0 then Done (-1, s) else
  s ← hk_acquire s;
  let taskno := taskno_ctr s in
  let ent := TaskEnt time interval taskno task arg in
  let '(ok, q) := if time <=? 0 then array_insert mem_ok (hk_queue s) ent 0
                  else array_sorted_insert mem_ok (hk_queue s) ent (hk_task_time_cmp time) in
  if (ok : bool) && (taskno =? INT_MAX) then Undef else
  Done (taskno, Hk q (taskno + Z.b2z ok) false (hk_calls s)).

Definition hk_add_once (mem_ok : bool) (time task arg : Z) s : outcome (Z * hk) := hk_add_repeated mem_ok time 0 task arg s.

Fixpoint find_task (i : nat) (no : Z) (q : list taskent) : option nat :=
  match q with
  | [] => None
  | t :: q => if taskno t =? no then Some i else find_task (S i) no q
  end.

(** The mutex is still held when a task was found. *)
Definition hk_cancel (no : Z) s : outcome hk :=
  s ← hk_acquire s;
  match find_task 0 no (hk_queue s) with
  | Some i => Done (set_queue (array_remove (hk_queue s) i) s)
  | None => Done (set_mtx false s)
  end.
End hk.

(** ** The runs that are due *)

(** The task after a run. *)
Definition again (t : taskent) : option taskent :=
  if (0 <? interval t) && (next_time t <=? TIMESTAMP_US_MAX - interval t)
  then Some (TaskEnt (next_time t + interval t) (interval t) (taskno t) (callback t) (arg t)) else None.

Definition the_call (t : taskent) : hk_call := HkCall (callback t) (taskno t) (arg t).

(** The runs of one task at times up to [now], with the task that is left. *)
Fixpoint due (fuel : nat) (now : Z) (t : taskent) : list (Z * hk_call) :=
  match fuel with
  | O => []
  | S fuel => if now <? next_time t then [] else
      (next_time t, the_call t) :: match again t with Some t => due fuel now t | None => [] end
  end.

Fixpoint left_over (fuel : nat) (now : Z) (t : taskent) : option taskent :=
  match fuel with
  | O => Some t
  | S fuel => if now <? next_time t then Some t else t ← again t; left_over fuel now t
  end.

(** A bound on the number of runs. *)
Definition turns (now : Z) (t : taskent) : nat := Z.to_nat (now + 1 - next_time t).
Definition all_turns (now : Z) (q : list taskent) : nat := foldr (λ t n, (turns now t + n)%nat) 0%nat q.

Definition due_runs (now : Z) (t : taskent) : list (Z * hk_call) := due (turns now t) now t.
Definition left_task (now : Z) (t : taskent) : option taskent := left_over (turns now t) now t.

Definition by_time (a b : taskent) : Prop := next_time a <= next_time b.
Definition queue_ok (q : list taskent) : Prop := StronglySorted by_time q ∧ Forall (λ t, callback t ≠ 0) q.

Lemma turns_pos now t : next_time t <= now → ∃ n, turns now t = S n.
Proof. intros Ht. exists (Z.to_nat (now - next_time t)). unfold turns. lia. Qed.

Lemma again_Some t t' : again t = Some t' → 0 < interval t ∧ next_time t' = next_time t + interval t ∧ callback t' = callback t.
Proof. unfold again. destruct (Z.ltb_spec 0 (interval t)); [|done]. destruct (_ <=? _); [|done]. by intros [= <-]. Qed.

(** More fuel than the bound makes no difference. *)
Lemma due_fuel now : ∀ fuel t, (turns now t <= fuel)%nat → due fuel now t = due_runs now t ∧ left_over fuel now t = left_task now t.
Proof.
  unfold due_runs, left_task. intros fuel t. revert t. induction (lt_wf fuel) as [fuel _ IH]. intros t Hf.
  destruct (Z.ltb_spec now (next_time t)) as [Hlt|Hge].
  - assert (turns now t = O) as -> by (unfold turns; lia). destruct fuel as [|fuel]; [done|]. cbn [due left_over]. by rewrite (proj2 (Z.ltb_lt _ _)).
  - destruct (turns_pos now t Hge) as [n E]. rewrite E in *. destruct fuel as [|fuel]; [lia|]. cbn [due left_over]. rewrite (proj2 (Z.ltb_ge _ _)) by done.
    destruct (again t) as [t'|] eqn:Ea; [|done]. cbn [mbind option_bind]. apply again_Some in Ea as (Hi&Ht&_).
    assert (turns now t' <= n)%nat by (unfold turns in *; lia).
    destruct (IH fuel ltac:(lia) t' ltac:(lia)) as [-> ->]. by destruct (IH n ltac:(lia) t' ltac:(lia)) as [-> ->].
Qed.

Lemma due_now now t : next_time t <= now →
  due_runs now t = (next_time t, the_call t) :: match again t with Some t => due_runs now t | None => [] end ∧
  left_task now t = (t ← again t; left_task now t).
Proof.
  intros Ht. destruct (turns_pos now t Ht) as [n E]. unfold due_runs, left_task. rewrite E. cbn [due left_over]. rewrite (proj2 (Z.ltb_ge _ _)) by done.
  destruct (again t) as [t'|] eqn:Ea; [|done]. cbn [mbind option_bind]. apply again_Some in Ea as (Hi&Et&_).
  destruct (due_fuel now n t') as [-> ->]; [unfold turns in *; lia|done].
Qed.

Lemma due_later now t : now < next_time t → due_runs now t = [] ∧ left_task now t = Some t.
Proof. intros Ht. unfold due_runs, left_task. assert (turns now t = O) as -> by (unfold turns; lia). done. Qed.

(** The runs of a task are not before its next time. *)
Lemma due_times now t p : p ∈ due_runs now t → next_time t <= p.1 <= now.
Proof.
  remember (turns now t) as n eqn:E. revert t E. induction (lt_wf n) as [n _ IH]. intros t E.
  destruct (decide (now < next_time t)) as [Hlt|Hge]; [by rewrite (proj1 (due_later now t Hlt)); intros ?%elem_of_nil|].
  rewrite (proj1 (due_now now t ltac:(lia))). intros [->|Hp]%elem_of_cons; [simpl; lia|]. destruct (again t) as [t'|] eqn:Ea; [|by apply elem_of_nil in Hp].
  apply again_Some in Ea as (Hi&Et&_). specialize (IH (turns now t') ltac:(unfold turns in *; lia) t' eq_refl Hp). lia.
Qed.

Section correct.
Context `{!KArrays} `{!KArraysSpec}.

Lemma sorted_cut q time : StronglySorted by_time q → ∃ a e b, q = a ++ e ++ b ∧ cmp_split (hk_task_time_cmp time) a e b.
Proof.
  induction q as [|t q IH]; [by exists [], [], []; split_and!; repeat constructor|]. intros [Hs Hall]%StronglySorted_inv.
  destruct (IH Hs) as (a&e&b&->&Ha&He&Hb). unfold by_time in Hall. destruct (decide (next_time t < time)) as [Hlt|Hge].
  - exists (t :: a), e, b. split; [done|]. split_and!; [|done|done]. constructor; [|done]. unfold hk_task_time_cmp. by rewrite (proj2 (Z.ltb_lt _ _)).
  - assert (a = []) as ->.
    { destruct a as [|x a]; [done|]. apply Forall_cons in Ha as [Hx _]. apply Forall_cons in Hall as [Hx' _]. unfold hk_task_time_cmp in Hx.
      rewrite (proj2 (Z.ltb_ge _ _)) in Hx by lia. destruct (_ <? _); lia. }
    destruct (decide (next_time t = time)) as [E|Hne].
    + exists [], (t :: e), b. split; [done|]. split_and!; [done| |done]. constructor; [|done]. unfold hk_task_time_cmp.
      by rewrite !(proj2 (Z.ltb_ge _ _)) by lia.
    + assert (e = []) as ->.
      { destruct e as [|x e]; [done|]. apply Forall_cons in He as [Hx _]. apply Forall_cons in Hall as [Hx' _]. unfold hk_task_time_cmp in Hx.
        rewrite (proj2 (Z.ltb_ge _ _)) in Hx by lia. by rewrite (proj2 (Z.ltb_lt _ _)) in Hx by lia. }
      exists [], [], (t :: b). split; [done|]. split_and!; [done|done|]. constructor; [|done]. unfold hk_task_time_cmp.
      rewrite (proj2 (Z.ltb_ge _ _)) by lia. by rewrite (proj2 (Z.ltb_lt _ _)) by lia.
Qed.

(** Inserting a task keeps the queue sorted. *)
Lemma sorted_insert_ok t q : queue_ok q → callback t ≠ 0 →
  ∃ q', array_sorted_insert true q t (hk_task_time_cmp (next_time t)) = (true, q') ∧ queue_ok q' ∧ q' ≡ₚ t :: q.
Proof.
  intros [Hs Hc] Ht. destruct (sorted_cut q (next_time t) Hs) as (a&e&b&->&Hcmp).
  destruct (array_sorted_insert_spec true a e b t _ Hcmp) as [(e1&e2&->&E)|[? _]]; [|done].
  eexists. split; [exact E|]. assert (a ++ e1 ++ t :: e2 ++ b ≡ₚ t :: a ++ (e1 ++ e2) ++ b) as Hp by (rewrite <-(assoc (++)), !Permutation_middle; done).
  split; [|exact Hp]. split; [|rewrite Hp; by constructor]. destruct Hcmp as (Ha&He&Hb). apply Forall_app in He as [He1 He2].
  assert (∀ x, hk_task_time_cmp (next_time t) x <= 0 → next_time x <= next_time t) as Hle.
  { intros x. unfold hk_task_time_cmp. destruct (Z.ltb_spec (next_time x) (next_time t)), (Z.ltb_spec (next_time t) (next_time x)); lia. }
  assert (∀ x, 0 <= hk_task_time_cmp (next_time t) x → next_time t <= next_time x) as Hge.
  { intros x. unfold hk_task_time_cmp. destruct (Z.ltb_spec (next_time x) (next_time t)), (Z.ltb_spec (next_time t) (next_time x)); lia. }
  replace (a ++ (e1 ++ e2) ++ b) with ((a ++ e1) ++ e2 ++ b) in Hs by by rewrite <-!app_assoc. rewrite app_assoc.
  apply StronglySorted_app in Hs as (Hab&Hs1&Hs2). apply StronglySorted_app. split_and!; [|done|].
  - intros x y Hx [->|Hy]%elem_of_cons; [|by apply Hab]. unfold by_time. apply Hle. rewrite Forall_forall in Ha, He1.
    apply elem_of_app in Hx as [Hx|Hx]; [specialize (Ha x Hx)|specialize (He1 x Hx)]; simpl in *; lia.
  - constructor; [done|]. apply Forall_forall. intros y Hy. unfold by_time. apply Hge. rewrite Forall_forall in He2, Hb.
    apply elem_of_app in Hy as [Hy|Hy]; [specialize (He2 y Hy)|specialize (Hb y Hy)]; simpl in *; lia.
Qed.

Lemma all_turns_perm now q q' : q ≡ₚ q' → all_turns now q = all_turns now q'.
Proof. induction 1; cbn [all_turns foldr] in *; unfold all_turns in *; simpl; lia. Qed.

(** The runs of a queue, and the tasks that are left. *)
Abbreviation runs now q := (concat (map (due_runs now) q)).
Abbreviation rest now q := (omap (left_task now) q).

Lemma runs_perm now q q' : q ≡ₚ q' → runs now q ≡ₚ runs now q'.
Proof. intros E. rewrite <-!flat_map_concat_map. by apply Permutation_flat_map. Qed.

Lemma omap_perm {A B} (f : A → option B) l l' : l ≡ₚ l' → omap f l ≡ₚ omap f l'.
Proof.
  induction 1 as [|x l l' _ IH|x y l|l l' l'' _ IH1 _ IH2]; cbn [omap list_omap]; [done|by destruct (f x); rewrite IH|by destruct (f x), (f y); [apply Permutation_swap|..]|by rewrite IH1].
Qed.

Lemma later_queue now q : Forall (λ t, now < next_time t) q → runs now q = [] ∧ rest now q = q.
Proof.
  induction 1 as [|t q Ht _ [IH1 IH2]]; [done|]. destruct (due_later now t Ht) as [E1 E2]. cbn [map concat omap list_omap]. by rewrite E1, E2, IH1, IH2.
Qed.

Lemma run_due_stop fuel now s : Forall (λ t, now < next_time t) (hk_queue s) → hk_run_due fuel now s = Done s.
Proof.
  intros Hall. destruct fuel; cbn [hk_run_due]; (destruct (hk_queue s) as [|t q]; [done|]); apply Forall_cons in Hall as [Ht _]; by rewrite (proj2 (Z.ltb_lt _ _)).
Qed.

(** Nothing is due, or the first task is. *)
Lemma due_or_not now q : StronglySorted by_time q → Forall (λ t, now < next_time t) q ∨ ∃ t q', q = t :: q' ∧ next_time t <= now.
Proof.
  intros Hs. destruct q as [|t q]; [by left|]. destruct (decide (next_time t <= now)) as [Ht|Ht]; [by right; exists t, q|left].
  apply StronglySorted_inv in Hs as [_ Hs]. constructor; [lia|]. eapply Forall_impl; [exact Hs|]. unfold by_time. simpl. lia.
Qed.

(** The loop runs every run that is due in the order of their times. *)
Lemma run_due_spec now : ∀ fuel s, queue_ok (hk_queue s) → (all_turns now (hk_queue s) <= fuel)%nat →
  ∃ s' evs, hk_run_due fuel now s = Done s' ∧ queue_ok (hk_queue s') ∧ Forall (λ t, now < next_time t) (hk_queue s') ∧
    hk_queue s' ≡ₚ rest now (hk_queue s) ∧ StronglySorted (λ a b, a.1 <= b.1) evs ∧ evs ≡ₚ runs now (hk_queue s) ∧
    hk_calls s' = hk_calls s ++ map snd evs ∧ taskno_ctr s' = taskno_ctr s ∧ hk_mtx s' = hk_mtx s.
Proof.
  induction fuel as [|fuel IH]; intros s Hok Hf; (destruct (due_or_not now (hk_queue s) (proj1 Hok)) as [Hall|(t&q&Eq&Hge)];
    [destruct (later_queue now _ Hall) as [E1 E2]; rewrite E1, E2, run_due_stop by done; exists s, []; rewrite app_nil_r; split_and!; done || constructor|]);
    rewrite Eq in *; destruct Hok as [Hs Hc].
  - destruct (turns_pos now t Hge) as [n E]. cbn [all_turns foldr] in Hf. lia.
  - cbn [hk_run_due]. rewrite Eq, (proj2 (Z.ltb_ge _ _)) by done. rewrite array_remove_spec by (simpl; lia). cbn [delete list_delete]. pose proof Hs as [Hs' Hall]%StronglySorted_inv. apply Forall_cons in Hc as [Hct Hc].
    rewrite (proj2 (Z.eqb_neq _ _)) by done. cbn [negb assert_or_panic mbind outcome_bind log_call set_queue hk_queue hk_calls taskno_ctr hk_mtx].
    destruct (due_now now t Hge) as [Ed El]. set (s1 := log_call _ _).
    assert (∀ q1, queue_ok q1 → q1 ≡ₚ (match again t with Some t' => t' :: q | None => q end) →
      ∃ s' evs, hk_run_due fuel now (set_queue q1 s1) = Done s' ∧ queue_ok (hk_queue s') ∧ Forall (λ t, now < next_time t) (hk_queue s') ∧
      hk_queue s' ≡ₚ rest now (t :: q) ∧ StronglySorted (λ a b, a.1 <= b.1) evs ∧ evs ≡ₚ runs now (t :: q) ∧
      hk_calls s' = hk_calls s ++ map snd evs ∧ taskno_ctr s' = taskno_ctr s ∧ hk_mtx s' = hk_mtx s) as Hgo.
    { intros q1 Hq1 Hp1. destruct (IH (set_queue q1 s1) Hq1) as (s'&evs&E&Hok&Hlater&Hrest&Hsort&Hruns&Hcalls&Hctr&Hmtx).
      { cbn [set_queue hk_queue]. rewrite (all_turns_perm _ _ _ Hp1). cbn [all_turns foldr] in Hf. destruct (turns_pos now t Hge) as [n En].
        destruct (again t) as [t'|] eqn:Ea; [|fold (all_turns now q) in Hf; lia]. apply again_Some in Ea as (Hi&Et&_).
        cbn [all_turns foldr]. unfold turns in *. lia. }
      cbn [set_queue hk_queue s1 log_call hk_calls taskno_ctr hk_mtx] in *. exists s', ((next_time t, the_call t) :: evs).
      split_and!; [done|done|done| | | | |done|done].
      - rewrite Hrest, (omap_perm _ _ _ Hp1). cbn [omap list_omap]. rewrite El. by destruct (again t) as [t'|].
      - constructor; [done|]. apply Forall_forall. intros p Hp. rewrite Hruns, (runs_perm _ _ _ Hp1) in Hp. simpl.
        assert (∀ t0, (t0 ∈ q ∨ again t = Some t0) → ∀ p, p ∈ due_runs now t0 → next_time t <= p.1) as Hdue.
        { intros t0 [Ht0|Ht0] p0 Hp0%due_times.
          - rewrite Forall_forall in Hall. specialize (Hall t0 Ht0). unfold by_time in Hall. lia.
          - apply again_Some in Ht0 as (?&?&_). lia. }
        apply list_elem_of_In, in_concat in Hp as (l&Hl&Hp). apply in_map_iff in Hl as (t0&<-&Ht0). apply list_elem_of_In in Hp, Ht0.
        apply (Hdue t0); [|done]. destruct (again t); [apply elem_of_cons in Ht0 as [->|Ht0]; [by right|by left]|by left].
      - rewrite Hruns, (runs_perm _ _ _ Hp1). cbn [map concat]. rewrite Ed. by destruct (again t).
      - rewrite Hcalls. by rewrite <-(assoc (++)). }
    unfold again in Hgo. destruct (_ && _) eqn:Eagain.
    + set (t' := TaskEnt _ _ _ _ _) in *. destruct (sorted_insert_ok t' q) as (q1&E&Hok1&Hp1); [by split|done|].
      change (hk_queue s1) with q. rewrite E. by apply Hgo.
    + change s1 with (set_queue q s1). apply Hgo; [by split|done].
Qed.

(** C21: when the callbacks return, one round of the housekeeping thread ends; it runs every task as often as
    it came due, in the order of the times, and leaves the tasks that are due
    later, still sorted. *)
Theorem hk_pass_correct now s : queue_ok (hk_queue s) → hk_mtx s = false →
  ∃ s' evs, hk_pass (all_turns now (hk_queue s)) now s = Done s' ∧ queue_ok (hk_queue s') ∧ hk_mtx s' = false ∧
    Forall (λ t, now < next_time t) (hk_queue s') ∧ hk_queue s' ≡ₚ rest now (hk_queue s) ∧
    hk_calls s' = hk_calls s ++ map snd evs ∧ StronglySorted (λ a b, a.1 <= b.1) evs ∧ evs ≡ₚ runs now (hk_queue s).
Proof.
  intros Hok Hm. unfold hk_pass, hk_acquire. rewrite Hm. cbn [mbind outcome_bind].
  destruct (run_due_spec now (all_turns now (hk_queue s)) (set_mtx true s) Hok) as (s'&evs&E&Hok'&Hlater&Hrest&Hsort&Hruns&Hcalls&_&_); [done|].
  rewrite E. cbn [mbind outcome_bind]. by exists (set_mtx false s'), evs.
Qed.

(** What is due of one task. *)
Lemma due_count now t : next_time t <= now → now <= TIMESTAMP_US_MAX - interval t →
  length (due_runs now t) = if decide (0 < interval t) then Z.to_nat ((now - next_time t) / interval t + 1) else 1%nat.
Proof.
  remember (turns now t) as n eqn:E. revert t E. induction (lt_wf n) as [n _ IH]. intros t E Ht Hmax.
  rewrite (proj1 (due_now now t Ht)). cbn [length]. unfold again. destruct (decide (0 < interval t)) as [Hi|Hi].
  - rewrite (proj2 (Z.ltb_lt _ _)), (proj2 (Z.leb_le _ _)) by lia. cbn [andb]. set (t' := TaskEnt _ _ _ _ _).
    destruct (decide (next_time t' <= now)) as [Ht'|Ht'].
    + rewrite (IH (turns now t') ltac:(unfold turns in *; cbn [next_time t'] in *; lia) t' eq_refl Ht' Hmax). cbn [interval t' next_time] in *. rewrite decide_True by done.
      replace (now - next_time t) with (now - (next_time t + interval t) + 1 * interval t) by lia. rewrite Z.div_add by lia.
      pose proof (Z.div_pos (now - (next_time t + interval t)) (interval t)). lia.
    + rewrite (proj1 (due_later now t' ltac:(lia))). cbn [next_time t'] in Ht'. rewrite Z.div_small by lia. done.
  - rewrite (proj2 (Z.ltb_ge _ _)) by lia. done.
Qed.

(** Adding a task returns a fresh number and queues the task at its place;
    without a callback, nothing is added. *)
Theorem hk_add_correct time intv task a s : queue_ok (hk_queue s) → hk_mtx s = false → 0 <= taskno_ctr s < INT_MAX →
  0 <= time → Forall (λ t, 0 <= next_time t) (hk_queue s) →
  ∃ no s', hk_add_repeated true time intv task a s = Done (no, s') ∧ queue_ok (hk_queue s') ∧ hk_mtx s' = false ∧ hk_calls s' = hk_calls s ∧
    if decide (task = 0) then no = -1 ∧ s' = s
    else no = taskno_ctr s ∧ taskno_ctr s' = no + 1 ∧ hk_queue s' ≡ₚ TaskEnt time intv no task a :: hk_queue s.
Proof.
  intros Hok Hm Hctr Ht Hall. unfold hk_add_repeated. destruct (Z.eqb_spec task 0) as [->|Hne]; [by exists (-1), s|].
  unfold hk_acquire. rewrite Hm. cbn [mbind outcome_bind set_mtx hk_queue taskno_ctr hk_calls]. set (ent := TaskEnt _ _ _ _ _).
  assert (∃ q', (if time <=? 0 then array_insert true (hk_queue s) ent 0 else array_sorted_insert true (hk_queue s) ent (hk_task_time_cmp time)) = (true, q') ∧
    queue_ok q' ∧ q' ≡ₚ ent :: hk_queue s) as (q'&->&Hok'&Hp).
  { destruct (Z.leb_spec time 0).
    - destruct (array_insert_spec true (hk_queue s) ent 0) as [->|[? _]]; [lia| |done]. rewrite take_0, drop_0. eexists. split; [reflexivity|].
      split; [|done]. destruct Hok as [Hs Hc]. split; [|by constructor]. constructor; [done|]. eapply Forall_impl; [exact Hall|]. unfold by_time. simpl. lia.
    - by apply (sorted_insert_ok ent). }
  rewrite (proj2 (Z.eqb_neq _ _)) by lia. cbn [andb Z.b2z]. eexists _, _. split; [reflexivity|]. rewrite decide_False by done. by split_and!.
Qed.

Lemma find_task_spec no : ∀ q i, match find_task i no q with
  | Some j => ∃ a t b, q = a ++ t :: b ∧ j = (i + length a)%nat ∧ taskno t = no ∧ Forall (λ t, taskno t ≠ no) a
  | None => Forall (λ t, taskno t ≠ no) q
  end.
Proof.
  induction q as [|t q IH]; intros i; cbn [find_task]; [done|]. destruct (Z.eqb_spec (taskno t) no) as [E|Hne].
  - exists [], t, q. split_and!; [done|simpl; lia|done|done].
  - specialize (IH (S i)). destruct (find_task (S i) no q) as [j|]; [|by constructor]. destruct IH as (a&t'&b&->&->&E&Ha).
    exists (t :: a), t', b. split_and!; [done|simpl; lia|done|by constructor].
Qed.

(** Cancelling removes the first task with the number, and no other. *)
Theorem hk_cancel_correct no s : hk_mtx s = false → ∃ s', hk_cancel no s = Done s' ∧ hk_calls s' = hk_calls s ∧
  ((Forall (λ t, taskno t ≠ no) (hk_queue s) ∧ hk_queue s' = hk_queue s ∧ hk_mtx s' = false) ∨
   ∃ a t b, hk_queue s = a ++ t :: b ∧ taskno t = no ∧ hk_queue s' = a ++ b).
Proof.
  intros Hm. unfold hk_cancel, hk_acquire. rewrite Hm. cbn [mbind outcome_bind set_mtx hk_queue].
  pose proof (find_task_spec no (hk_queue s) 0) as Hf. destruct (find_task 0 no (hk_queue s)) as [j|]; [|by eexists; split; [reflexivity|]; split; [|left]].
  destruct Hf as (a&t&b&Eq&->&E&_). eexists. split; [reflexivity|]. split; [done|]. right. exists a, t, b. split_and!; [done|done|].
  cbn [set_queue hk_queue]. rewrite array_remove_spec, Eq by (rewrite Eq, length_app; simpl; lia). by rewrite Nat.add_0_l, delete_middle.
Qed.
End correct.

(** ** Examples *)

#[local] Existing Instances demo_arrays demo_arrays_spec.

(** A task every 10 us and one at 25. *)
Definition demo_hk : hk := Hk [TaskEnt 5 10 0 0x100 7; TaskEnt 25 0 1 0x200 8] 2 false [].

Lemma demo_queue_ok : queue_ok (hk_queue demo_hk).
Proof. split; repeat constructor; unfold by_time; simpl; lia. Qed.

Lemma hk_pass_correct_witness : ∃ s', hk_pass (all_turns 26 (hk_queue demo_hk)) 26 demo_hk = Done s' ∧ queue_ok (hk_queue s') ∧
  hk_queue s' ≡ₚ [TaskEnt 35 10 0 0x100 7].
Proof.
  destruct (hk_pass_correct 26 demo_hk demo_queue_ok eq_refl) as (s'&evs&E&Hok&_&_&Hrest&_). exists s'. split; [exact E|]. split; [exact Hok|].
  etrans; [exact Hrest|]. by vm_compute.
Defined.

Lemma hk_add_correct_witness : ∃ no s', hk_add_repeated true 12 0 0x300 9 demo_hk = Done (no, s') ∧ no = 2 ∧
  hk_queue s' ≡ₚ TaskEnt 12 0 2 0x300 9 :: hk_queue demo_hk.
Proof.
  destruct (hk_add_correct 12 0 0x300 9 demo_hk demo_queue_ok eq_refl) as (no&s'&E&_&_&_&Hadd); [by vm_compute|lia|by repeat constructor|].
  rewrite decide_False in Hadd by lia. destruct Hadd as (->&_&Hp). by exists 2, s'.
Defined.

(** [hk_cancel] returns with the mutex held when it finds the task, so the next
    round waits forever. *)
Example cancel_keeps_mutex : (s ← hk_cancel 1 demo_hk; hk_pass 100 26 s) = Fuel.
Proof. by vm_compute. Qed.
