(* ===== verification/Timer.v ===== *)
(** * Timer tasks

    kernel/src/time.c on one CPU: the array of tasks, sorted by descending
    timestamp, and the choice of the next timer interrupt.  The array is read and
    written with interrupts off, so each of those sections is one step.  The
    counter of task numbers is not: time_add_async_task takes the spinlock for it
    with interrupts on, and turns them off only afterwards.  Adding a task is
    therefore three steps, [time_add_take], [time_add_release] and
    [time_add_insert], between which anything else may happen; a number that is
    drawn and not yet inserted is in [in_flight].  Everything that takes the
    spinlock while it is held spins forever ([Fuel]): an interrupt handler does
    not return to the holder, and a switch to another thread goes through
    time_set_next_task_switch, which takes the lock itself.  Calls of callbacks and
    requests to switch tasks are recorded. *)

From stdpp Require Import sorting.
From S2P Require Import Prelude Containers Housekeeping.

Record timertask := TimerTask { tt_no : Z; tt_time : Z; tt_fn : Z; tt_cookie : Z }.

(** A task that ran at a time, or a request to switch. *)
Inductive timer_event := Ran (task : timertask) (now : Z) | SwitchRequested.

Record timer := Timer {
  tasks : list timertask;
  taskno_counter : Z;
  preempt_time : Z;
  timer_is_preempt : bool;
  cpu_timer : Z;
  timer_events : list timer_event;
  tasks_locked : bool; (* tasks_spinlock is held with interrupts on *)
  in_flight : list timertask; (* numbered, not in the array yet *)
}.

(** The comparison of [a], with the timestamp [time], to an element [b]; the
    earliest task comes last. *)
Definition timertask_timestamp_cmp (time : Z) (b : timertask) : Z := if tt_time b <? time then 1 else if time <? tt_time b then -1 else 0.

Section timer.
Context `{!KArrays}.
Implicit Types s : timer.

Definition set_tasks l s : timer := Timer l (taskno_counter s) (preempt_time s) (timer_is_preempt s) (cpu_timer s) (timer_events s) (tasks_locked s) (in_flight s).
Definition set_timer (is_preempt : bool) (time : Z) s : timer := Timer (tasks s) (taskno_counter s) (preempt_time s) is_preempt time (timer_events s) (tasks_locked s) (in_flight s).
Definition set_preempt (time : Z) s : timer := Timer (tasks s) (taskno_counter s) time (timer_is_preempt s) (cpu_timer s) (timer_events s) (tasks_locked s) (in_flight s).
Definition log_event e s : timer := Timer (tasks s) (taskno_counter s) (preempt_time s) (timer_is_preempt s) (cpu_timer s) (timer_events s ++ [e]) (tasks_locked s) (in_flight s).
Definition set_counter (no : Z) s : timer := Timer (tasks s) no (preempt_time s) (timer_is_preempt s) (cpu_timer s) (timer_events s) (tasks_locked s) (in_flight s).
Definition set_locked (locked : bool) s : timer := Timer (tasks s) (taskno_counter s) (preempt_time s) (timer_is_preempt s) (cpu_timer s) (timer_events s) locked (in_flight s).
Definition set_in_flight l s : timer := Timer (tasks s) (taskno_counter s) (preempt_time s) (timer_is_preempt s) (cpu_timer s) (timer_events s) (tasks_locked s) l.

(** What takes the spinlock goes on when it is free, and spins otherwise. *)
Definition spinlock_free {A} s (go : outcome A) : outcome A := if tasks_locked s then Fuel else go.

(** The test is on the last task, the timer is set for the first. *)
Definition eval_cpu_timer s : timer :=
  match last (tasks s), head (tasks s) with
  | Some earliest, Some first =>
      if (preempt_time s <=? 0) || (tt_time earliest <? preempt_time s) then set_timer false (tt_time first) s
      else set_timer true (preempt_time s) s
  | _, _ => set_timer true (preempt_time s) s
  end.

Definition time_set_next_task_switch (timestamp : Z) s : timer := eval_cpu_timer (set_preempt timestamp s).

(** [task_ok] and [array_ok] tell whether there is memory for the task and for
    the array. *)
Definition time_add_take (task_ok : bool) (timestamp callback cookie : Z) s : outcome (option timertask * timer) :=
  if negb task_ok then Done (None, s) else
  spinlock_free s (
    let taskno := taskno_counter s in
    if taskno =? TIMESTAMP_US_MAX then Undef else
    Done (Some (TimerTask taskno timestamp callback cookie), set_locked true (set_counter (taskno + 1) s))).

Definition time_add_release s : timer := set_locked false s.

Definition time_add_insert (array_ok : bool) (task : timertask) s : outcome (Z * timer) :=
  spinlock_free s (
    let '(ok, l) := array_sorted_insert array_ok (tasks s) task (timertask_timestamp_cmp (tt_time task)) in
    if (ok : bool) then Done (tt_no task, eval_cpu_timer (set_tasks l s)) else Done (-1, s)).

(** The whole call, when nothing comes in between. *)
Definition time_add_async_task (task_ok array_ok : bool) (timestamp callback cookie : Z) s : outcome (Z * timer) :=
  '(task, s) ← time_add_take task_ok timestamp callback cookie s;
  match task with
  | None => Done (-1, s)
  | Some task => time_add_insert array_ok task (time_add_release s)
  end.

Fixpoint find_timer (i : nat) (no : Z) (l : list timertask) : option nat :=
  match l with
  | [] => None
  | t :: l => if tt_no t =? no then Some i else find_timer (S i) no l
  end.

Definition time_cancel_async_task (no : Z) s : bool * timer :=
  match find_timer 0 no (tasks s) with
  | Some i => (true, eval_cpu_timer (set_tasks (array_remove (tasks s) i) s))
  | None => (false, eval_cpu_timer s)
  end.

Definition time_cpu_timer_isr (now : Z) s : timer :=
  let s := if timer_is_preempt s then log_event SwitchRequested (set_preempt TIMESTAMP_US_MAX s)
           else match last (tasks s) with
                | Some task => if tt_time task <=? now then log_event (Ran task now) (set_tasks (take (length (tasks s) - 1) (tasks s)) s) else s
                | None => s
                end in
  eval_cpu_timer s.

(** ** Runs of the component *)

(** A step of a thread or an interrupt.  [OpInsert k] is the rest of the call that
    is [k]-th in flight. *)
Inductive timer_op :=
  | OpSwitch (timestamp : Z)
  | OpTake (task_ok : bool) (timestamp callback cookie : Z)
  | OpRelease
  | OpInsert (k : nat) (array_ok : bool)
  | OpCancel (no : Z)
  | OpIsr (now : Z).

Definition run_timer (op : timer_op) s : outcome timer :=
  match op with
  | OpSwitch timestamp => spinlock_free s (Done (time_set_next_task_switch timestamp s))
  | OpTake task_ok timestamp fn cookie =>
      '(task, s) ← time_add_take task_ok timestamp fn cookie s;
      Done (match task with Some task => set_in_flight (in_flight s ++ [task]) s | None => s end)
  | OpRelease => Done (time_add_release s)
  | OpInsert k array_ok =>
      match in_flight s !! k with
      | Some task => '(_, s) ← time_add_insert array_ok task s; Done (set_in_flight (delete k (in_flight s)) s)
      | None => Done s (* no thread is at that point *)
      end
  | OpCancel no => spinlock_free s (Done (snd (time_cancel_async_task no s)))
  | OpIsr now => spinlock_free s (Done (time_cpu_timer_isr now s))
  end.

Fixpoint run_timers (ops : list timer_op) s : outcome timer :=
  match ops with
  | [] => Done s
  | op :: ops => s ← run_timer op s; run_timers ops s
  end.

(** A step meets the held spinlock. *)
Definition deadlocks (ops : list timer_op) s : Prop := ∃ pre op post s',
  ops = pre ++ op :: post ∧ run_timers pre s = Done s' ∧ tasks_locked s' = true ∧ run_timer op s' = Fuel.
End timer.

(** No step comes between the take and the release of the spinlock. *)
Fixpoint undisturbed (ops : list timer_op) : bool :=
  match ops with
  | [] => true
  | OpTake _ _ _ _ :: ops => match ops with OpRelease :: ops => undisturbed ops | _ => false end
  | _ :: ops => undisturbed ops
  end.

Definition timer_start : timer := Timer [] 0 0 false 0 [] false [].

(** ** Invariant *)

Definition descending (l : list timertask) : Prop := StronglySorted (λ a b, tt_time b <= tt_time a) l.
Definition ran_no (e : timer_event) : option Z := match e with Ran task _ => Some (tt_no task) | SwitchRequested => None end.

(** The numbers of the tasks that wait or ran, and of those on their way. *)
Definition numbers (s : timer) : list Z := (tt_no <$> tasks s) ++ (tt_no <$> in_flight s) ++ omap ran_no (timer_events s).

Record timer_ok (s : timer) : Prop := {
  timer_sorted : descending (tasks s);
  timer_distinct : NoDup (numbers s);
  timer_numbers : Forall (λ no, 0 <= no < taskno_counter s) (numbers s);
  timer_due : Forall (λ e, match e with Ran task now => tt_time task <= now | SwitchRequested => True end) (timer_events s);
  timer_counter : 0 <= taskno_counter s;
}.

(** The registers of the timer are not in the invariant. *)
Lemma eval_same s : tasks (eval_cpu_timer s) = tasks s ∧ taskno_counter (eval_cpu_timer s) = taskno_counter s ∧
  timer_events (eval_cpu_timer s) = timer_events s ∧ tasks_locked (eval_cpu_timer s) = tasks_locked s ∧ in_flight (eval_cpu_timer s) = in_flight s.
Proof. unfold eval_cpu_timer. by repeat case_match. Qed.

Lemma eval_numbers s : numbers (eval_cpu_timer s) = numbers s.
Proof. unfold numbers. by destruct (eval_same s) as (->&_&->&_&->). Qed.

(** Steps that draw no number: the numbers [k] are dropped. *)
Lemma timer_ok_step k s s' : timer_ok s → descending (tasks s') → numbers s ≡ₚ k ++ numbers s' → taskno_counter s' = taskno_counter s →
  Forall (λ e, match e with Ran task now => tt_time task <= now | SwitchRequested => True end) (timer_events s') → timer_ok s'.
Proof.
  intros [Hs Hd Hn Hdue Hc] Hs' Hp Ec Hdue'. rewrite Hp in Hd, Hn. apply NoDup_app in Hd as (_&_&Hd). apply Forall_app in Hn as [_ Hn].
  split; rewrite ?Ec; done.
Qed.

Lemma eval_ok s : timer_ok s → timer_ok (eval_cpu_timer s).
Proof.
  intros Hok. destruct (eval_same s) as (Et&Ec&Ee&_). apply (timer_ok_step [] s); [done|rewrite Et; apply Hok|by rewrite eval_numbers|done|rewrite Ee; apply Hok].
Qed.

Lemma find_timer_spec no : ∀ l i, match find_timer i no l with
  | Some j => ∃ a t b, l = a ++ t :: b ∧ j = (i + length a)%nat ∧ tt_no t = no
  | None => no ∉ tt_no <$> l
  end.
Proof.
  induction l as [|t l IH]; intros i; cbn [find_timer]; [by intros ?%elem_of_nil|]. destruct (Z.eqb_spec (tt_no t) no) as [E|Hne].
  - exists [], t, l. split_and!; [done|simpl; lia|done].
  - specialize (IH (S i)). destruct (find_timer (S i) no l) as [j|]; [|intros [->|?]%elem_of_cons; done].
    destruct IH as (a&t'&b&->&->&E). exists (t :: a), t', b. split_and!; [done|simpl; lia|done].
Qed.

Lemma descending_app l k : descending (l ++ k) ↔ descending l ∧ descending k ∧ ∀ a b, a ∈ l → b ∈ k → tt_time b <= tt_time a.
Proof. unfold descending. rewrite StronglySorted_app. naive_solver. Qed.

Lemma descending_cons t l : descending (t :: l) ↔ descending l ∧ ∀ b, b ∈ l → tt_time b <= tt_time t.
Proof.
  unfold descending. split; [intros [Hs Hall]%StronglySorted_inv; rewrite Forall_forall in Hall; done|].
  intros [Hs Hall]. constructor; [done|by apply Forall_forall].
Qed.

Lemma descending_cut l time : descending l → ∃ a e b, l = a ++ e ++ b ∧ cmp_split (timertask_timestamp_cmp time) a e b.
Proof.
  assert (∀ t, timertask_timestamp_cmp time t = if tt_time t <? time then 1 else if time <? tt_time t then -1 else 0) as Hcmp by done.
  induction l as [|t l IH]; [by exists [], [], []; split_and!; repeat constructor|]. intros [Hs Hall]%descending_cons.
  destruct (IH Hs) as (a&e&b&->&Ha&He&Hb). destruct (decide (time < tt_time t)) as [Hlt|Hge].
  - exists (t :: a), e, b. split; [done|]. split_and!; [|done|done]. constructor; [|done]. rewrite Hcmp, (proj2 (Z.ltb_ge _ _)) by lia. by rewrite (proj2 (Z.ltb_lt _ _)).
  - assert (a = []) as ->.
    { destruct a as [|x a]; [done|]. apply Forall_cons in Ha as [Hx _]. specialize (Hall x ltac:(by left)). rewrite Hcmp in Hx.
      destruct (_ <? _); [lia|]. rewrite (proj2 (Z.ltb_ge _ _)) in Hx by lia. lia. }
    destruct (decide (tt_time t = time)) as [E|Hne].
    + exists [], (t :: e), b. split; [done|]. split_and!; [done| |done]. constructor; [|done]. by rewrite Hcmp, !(proj2 (Z.ltb_ge _ _)) by lia.
    + assert (e = []) as ->.
      { destruct e as [|x e]; [done|]. apply Forall_cons in He as [Hx _]. specialize (Hall x ltac:(by left)). rewrite Hcmp in Hx.
        by rewrite (proj2 (Z.ltb_lt _ _)) in Hx by lia. }
      exists [], [], (t :: b). split; [done|]. split_and!; [done|done|]. constructor; [|done]. by rewrite Hcmp, (proj2 (Z.ltb_lt _ _)) by lia.
Qed.

Section correct.
Context `{!KArrays} `{!KArraysSpec}.

Lemma timer_insert mem_ok t l : descending l → let '(ok, l') := array_sorted_insert mem_ok l t (timertask_timestamp_cmp (tt_time t)) in
  if ok then descending l' ∧ l' ≡ₚ t :: l else l' = l ∧ mem_ok = false.
Proof.
  intros Hs. destruct (descending_cut l (tt_time t) Hs) as (a&e&b&->&Hcmp).
  destruct (array_sorted_insert_spec mem_ok a e b t _ Hcmp) as [(e1&e2&->&->)|[-> ->]]; [|done].
  split; [|by rewrite <-(assoc (++)), !Permutation_middle]. destruct Hcmp as (Ha&He&Hb). apply Forall_app in He as [He1 He2].
  assert (∀ x, timertask_timestamp_cmp (tt_time t) x <= 0 → tt_time t <= tt_time x) as Hle.
  { intros x. unfold timertask_timestamp_cmp. destruct (Z.ltb_spec (tt_time x) (tt_time t)), (Z.ltb_spec (tt_time t) (tt_time x)); lia. }
  assert (∀ x, 0 <= timertask_timestamp_cmp (tt_time t) x → tt_time x <= tt_time t) as Hge.
  { intros x. unfold timertask_timestamp_cmp. destruct (Z.ltb_spec (tt_time x) (tt_time t)), (Z.ltb_spec (tt_time t) (tt_time x)); lia. }
  replace (a ++ (e1 ++ e2) ++ b) with ((a ++ e1) ++ e2 ++ b) in Hs by by rewrite <-!app_assoc. rewrite app_assoc.
  rewrite Forall_forall in Ha, He1, He2, Hb. apply descending_app in Hs as (Hs1&Hs2&Hab). apply descending_app. split_and!; [done| |].
  - apply descending_cons. split; [done|]. intros y Hy. apply Hge. apply elem_of_app in Hy as [Hy|Hy]; [specialize (He2 y Hy)|specialize (Hb y Hy)]; simpl in *; lia.
  - intros x y Hx [->|Hy]%elem_of_cons; [|by apply Hab]. apply Hle.
    apply elem_of_app in Hx as [Hx|Hx]; [specialize (Ha x Hx)|specialize (He1 x Hx)]; simpl in *; lia.
Qed.

(** The earliest task is the last. *)
Lemma earliest_last l t : descending (l ++ [t]) → ∀ x, x ∈ l ++ [t] → tt_time t <= tt_time x.
Proof. intros (_&_&Hab)%descending_app x [Hx| ->%list_elem_of_singleton]%elem_of_app; [apply Hab; [done|by left]|lia]. Qed.

Lemma take_ok task_ok time fn cookie s : timer_ok s → taskno_counter s < TIMESTAMP_US_MAX → tasks_locked s = false →
  ∃ s', run_timer (OpTake task_ok time fn cookie) s = Done s' ∧ timer_ok s' ∧ taskno_counter s <= taskno_counter s' <= taskno_counter s + 1 ∧
    tasks_locked s' = task_ok ∧ ∀ n, n ∈ numbers s' → n ∈ numbers s ∨ n = taskno_counter s.
Proof.
  intros Hok Hmax Hl. cbn [run_timer]. unfold time_add_take, spinlock_free. destruct task_ok; cbn [negb]; [|exists s; split_and!; [done|done|lia|lia|done|by left]].
  rewrite Hl, (proj2 (Z.eqb_neq _ _)) by lia. cbn [mbind outcome_bind]. eexists. split; [reflexivity|]. set (s' := set_in_flight _ _).
  assert (numbers s' ≡ₚ taskno_counter s :: numbers s) as Hp.
  { unfold numbers, s'. cbn [set_in_flight set_locked set_counter tasks in_flight timer_events]. rewrite fmap_app, <-app_assoc. cbn [fmap list_fmap tt_no app]. by rewrite <-!Permutation_middle. }
  split_and!; [|cbn; lia|cbn; lia|done|intros n; rewrite Hp, elem_of_cons; tauto]. destruct Hok as [Hs Hd Hn Hdue Hc].
  split; rewrite ?Hp; cbn [s' set_in_flight set_locked set_counter tasks timer_events taskno_counter]; [done| | |done|lia].
  - constructor; [|done]. intros Hin. rewrite Forall_forall in Hn. specialize (Hn _ Hin). simpl in Hn. lia.
  - constructor; [lia|]. eapply Forall_impl; [exact Hn|]. simpl. lia.
Qed.

Lemma insert_ok k array_ok task s : timer_ok s → tasks_locked s = false → in_flight s !! k = Some task →
  ∃ no s', time_add_insert array_ok task s = Done (no, s') ∧ let s'' := set_in_flight (delete k (in_flight s')) s' in
    timer_ok s'' ∧ taskno_counter s' = taskno_counter s ∧ tasks_locked s' = false ∧ numbers s'' ⊆+ numbers s ∧ timer_events s' = timer_events s ∧
    in_flight s' = in_flight s ∧ ((no = tt_no task ∧ tasks s' ≡ₚ task :: tasks s) ∨ (no = -1 ∧ tasks s' = tasks s ∧ array_ok = false)).
Proof.
  intros Hok Hl Hk. unfold time_add_insert, spinlock_free. rewrite Hl. pose proof (timer_insert array_ok task (tasks s) (timer_sorted s Hok)) as Hins.
  pose proof (fmap_Permutation tt_no _ _ (delete_Permutation _ _ _ Hk)) as Hf. cbn [fmap list_fmap] in Hf. destruct (array_sorted_insert _ _ _ _) as [[] l].
  - destruct Hins as [Hs' Hp]. eexists _, _. split; [reflexivity|]. set (s1 := set_tasks l s). destruct (eval_same s1) as (Et&Ec&Ee&El&Ef). cbn zeta. rewrite Ec, El, Ef.
    set (s2 := set_in_flight _ _). assert (numbers s ≡ₚ [] ++ numbers s2) as Hnum.
    { unfold numbers, s2. cbn [set_in_flight tasks in_flight timer_events app]. rewrite Et, Ee. cbn [s1 set_tasks tasks timer_events in_flight]. rewrite Hp.
      rewrite Hf. cbn [fmap list_fmap app]. by rewrite <-Permutation_middle. }
    split_and!; [|done|done|by rewrite Hnum|by rewrite Ee|done|left; by rewrite Et].
    apply (timer_ok_step [] s); [done|cbn [s2 set_in_flight tasks]; by rewrite Et|done|done|]. unfold s2. cbn [set_in_flight timer_events]. rewrite Ee. apply Hok.
  - destruct Hins as [-> ->]. eexists _, _. split; [reflexivity|]. cbn zeta. set (s2 := set_in_flight _ _). assert (numbers s ≡ₚ [tt_no task] ++ numbers s2) as Hnum.
    { unfold numbers, s2. cbn [set_in_flight tasks in_flight timer_events app]. rewrite Hf. cbn [app]. by rewrite <-Permutation_middle. }
    split_and!; [|done|done| |done|done|by right]; [apply (timer_ok_step [tt_no task] s); [done|apply Hok|done|done|apply Hok]|].
    rewrite Hnum. by apply submseteq_cons.
Qed.

(** A call that nothing comes in between returns the number of the task that it
    added, or -1 when there was no memory. *)
Lemma add_ok task_ok array_ok time fn cookie s : timer_ok s → taskno_counter s < TIMESTAMP_US_MAX → tasks_locked s = false →
  ∃ no s', time_add_async_task task_ok array_ok time fn cookie s = Done (no, s') ∧ tasks_locked s' = false ∧ timer_events s' = timer_events s ∧
    ((no = -1 ∧ tasks s' = tasks s ∧ (task_ok = false ∨ array_ok = false)) ∨
     (no = taskno_counter s ∧ tasks s' ≡ₚ TimerTask no time fn cookie :: tasks s)).
Proof.
  intros Hok Hmax Hl. unfold time_add_async_task. destruct (take_ok task_ok time fn cookie s Hok Hmax Hl) as (s1&E1&Hok1&_). cbn [run_timer] in E1. unfold time_add_take, spinlock_free in *.
  destruct task_ok; cbn [negb mbind outcome_bind] in *; [|exists (-1), s; split_and!; [done|done|done|left; by auto]].
  rewrite Hl, (proj2 (Z.eqb_neq _ _)) in * by lia. cbn [mbind outcome_bind] in *. injection E1 as <-. set (task := TimerTask _ _ _ _) in *. set (s2 := set_in_flight _ _) in *.
  assert (timer_ok (time_add_release s2)) as Hok2.
  { apply (timer_ok_step [] s2); [done|apply Hok1|done|done|apply Hok1]. }
  destruct (insert_ok (length (in_flight s)) array_ok task (time_add_release s2) Hok2 eq_refl) as (no&s'&E&_&_&_&_&Ee&_&Ht).
  { cbn. by rewrite lookup_app_r, Nat.sub_diag by lia. }
  unfold time_add_insert, spinlock_free in E |- *. cbn in E |- *. destruct (array_sorted_insert _ _ _ _) as [[] l]; injection E as <- <-; eexists _, _; (split; [reflexivity|]).
  - destruct (eval_same (set_tasks l (time_add_release (set_locked true (set_counter (taskno_counter s + 1) s))))) as (Et&_&Ee'&El&_). rewrite El, Ee'. split_and!; [done|done|right; split; [done|]].
    destruct Ht as [[_ Ht]|[? _]]; [|destruct Hok; cbn in *; lia]. rewrite Et. destruct (eval_same (set_tasks l (time_add_release s2))) as (Et2&_). cbn in Et2, Ht |- *. by rewrite Et2 in Ht.
  - split_and!; [done|done|]. left. split_and!; [done|done|]. right. destruct Ht as [[? _]|(_&_&?)]; [destruct Hok; cbn in *; lia|done].
Qed.

Lemma cancel_ok no s : timer_ok s → let '(found, s') := time_cancel_async_task no s in
  timer_ok s' ∧ timer_events s' = timer_events s ∧ taskno_counter s' = taskno_counter s ∧ tasks_locked s' = tasks_locked s ∧ in_flight s' = in_flight s ∧
  found = bool_decide (no ∈ tt_no <$> tasks s) ∧ no ∉ tt_no <$> tasks s' ∧ ∀ t, t ∈ tasks s' ↔ t ∈ tasks s ∧ tt_no t ≠ no.
Proof.
  intros Hok. unfold time_cancel_async_task. pose proof (find_timer_spec no (tasks s) 0) as Hf. destruct (find_timer 0 no (tasks s)) as [j|].
  - destruct Hf as (a&t&b&Eq&->&<-). set (s1 := set_tasks _ s). destruct (eval_same s1) as (Et&Ec&Ee&El&Ef).
    assert (tasks s1 = a ++ b) as E1.
    { unfold s1. cbn [set_tasks tasks]. rewrite Eq, array_remove_spec by (rewrite length_app; simpl; lia). by rewrite Nat.add_0_l, delete_middle. }
    assert (numbers s ≡ₚ [tt_no t] ++ numbers s1) as Hnum.
    { unfold numbers. rewrite Eq, E1. cbn [s1 set_tasks in_flight timer_events app]. rewrite !fmap_app. cbn [fmap list_fmap]. by rewrite <-!Permutation_middle. }
    assert (tt_no t ∉ numbers s1) as Hnot by (pose proof (timer_distinct s Hok) as Hd; rewrite Hnum in Hd; by apply NoDup_cons in Hd as [Hd _]).
    unfold numbers in Hnot. rewrite E1, elem_of_app in Hnot. rewrite Et, Ec, Ee, El, Ef, E1. split_and!; [|done|done|done|done| |tauto|].
    + apply eval_ok, (timer_ok_step [tt_no t] s); [done| |done|done|apply Hok]. rewrite E1. pose proof (timer_sorted s Hok) as Hs. rewrite Eq in Hs.
      apply descending_app in Hs as (Ha&Hb&Hab). apply descending_cons in Hb as [Hb _]. apply descending_app. split_and!; [done|done|].
      intros x y Hx Hy. apply Hab; [done|by right].
    + symmetry. apply bool_decide_eq_true_2. rewrite Eq, fmap_app. set_solver.
    + intros x. rewrite Eq, !elem_of_app, elem_of_cons. split.
      * intros Hx. split; [naive_solver|]. intros E. apply Hnot. left. rewrite <-E. apply list_elem_of_fmap_2. by apply elem_of_app.
      * intros [[?|[->|?]] ?]; [by left|done|by right].
  - destruct (eval_same s) as (Et&Ec&Ee&El&Ef). rewrite Et, Ec, Ee, El, Ef. split_and!; [by apply eval_ok|done..|symmetry; by apply bool_decide_eq_false_2|done|].
    intros t. split; [|by intros [? _]]. intros Ht. split; [done|]. intros <-. apply Hf. by apply list_elem_of_fmap_2.
Qed.

(** What a timer interrupt runs. *)
Lemma isr_ok now s : timer_ok s → timer_ok (time_cpu_timer_isr now s) ∧
  taskno_counter (time_cpu_timer_isr now s) = taskno_counter s ∧ tasks_locked (time_cpu_timer_isr now s) = tasks_locked s ∧
  numbers s ≡ₚ numbers (time_cpu_timer_isr now s).
Proof.
  intros Hok. unfold time_cpu_timer_isr. set (s1 := if timer_is_preempt s then _ else _). destruct (eval_same s1) as (_&Ec&_&El&_). rewrite Ec, El, eval_numbers.
  cut (timer_ok s1 ∧ taskno_counter s1 = taskno_counter s ∧ tasks_locked s1 = tasks_locked s ∧ numbers s ≡ₚ numbers s1); [intros (?&?&?&?); split_and!; [by apply eval_ok|done..]|].
  unfold s1. clear s1 Ec El. destruct (timer_is_preempt s).
  - assert (numbers s ≡ₚ numbers (log_event SwitchRequested (set_preempt TIMESTAMP_US_MAX s))) as En.
    { unfold numbers. cbn [log_event set_preempt tasks timer_events in_flight]. rewrite omap_app. cbn [omap list_omap ran_no]. by rewrite app_nil_r. }
    split_and!; [|done..]. apply (timer_ok_step [] s); [done|apply Hok|done|done|]. apply Forall_app. split; [apply Hok|by repeat constructor].
  - destruct (last (tasks s)) as [task|] eqn:El; [|done]. destruct (Z.leb_spec (tt_time task) now) as [Hle|]; [|done].
    apply last_Some in El as [l Eq]. set (s1 := log_event _ _). assert (tasks s1 = l) as E1.
    { unfold s1. cbn [log_event set_tasks tasks]. rewrite Eq, length_app. cbn [length]. by rewrite Nat.add_sub, take_app_length. }
    assert (numbers s ≡ₚ numbers s1) as En.
    { unfold numbers. rewrite E1, Eq. cbn [s1 log_event set_tasks in_flight timer_events]. rewrite omap_app, fmap_app. cbn [omap list_omap ran_no fmap list_fmap].
      rewrite <-app_assoc. cbn [app]. by rewrite !app_assoc, <-Permutation_cons_append, <-app_assoc, <-Permutation_middle. }
    split_and!; [|done..]. apply (timer_ok_step [] s); [done| |done|done|].
    + rewrite E1. pose proof (timer_sorted s Hok) as Hs. rewrite Eq in Hs. by apply descending_app in Hs as [? _].
    + apply Forall_app. split; [apply Hok|by repeat constructor].
Qed.

(** With the spinlock free every step returns; the only new number is that of a new task. *)
Lemma run_timer_ok op s : timer_ok s → taskno_counter s < TIMESTAMP_US_MAX → tasks_locked s = false →
  ∃ s', run_timer op s = Done s' ∧ timer_ok s' ∧ taskno_counter s <= taskno_counter s' <= taskno_counter s + 1 ∧
    (tasks_locked s' = true → ∃ time fn cookie, op = OpTake true time fn cookie) ∧ ∀ n, n ∈ numbers s' → n ∈ numbers s ∨ n = taskno_counter s.
Proof.
  intros Hok Hmax Hl. destruct op as [time|task_ok time fn cookie| |k array_ok|no|now].
  - cbn [run_timer]. unfold spinlock_free. rewrite Hl. eexists. split; [reflexivity|]. unfold time_set_next_task_switch. rewrite eval_numbers.
    destruct (eval_same (set_preempt time s)) as (_&Ec&_&El&_). rewrite Ec, El. split_and!; [|cbn; lia|cbn; lia|cbn; congruence|by left].
    apply eval_ok, (timer_ok_step [] s); [done|apply Hok|done|done|apply Hok].
  - destruct (take_ok task_ok time fn cookie s Hok Hmax Hl) as (s'&->&?&?&El&?). exists s'. split_and!; [done|done|lia|lia|rewrite El; intros ->; eauto|done].
  - cbn [run_timer]. eexists. split; [reflexivity|]. split_and!; [|cbn; lia|cbn; lia|done|by left]. apply (timer_ok_step [] s); [done|apply Hok|done|done|apply Hok].
  - cbn [run_timer]. destruct (in_flight s !! k) as [task|] eqn:Hk; [|exists s; split_and!; [done|done|lia|lia|congruence|by left]].
    destruct (insert_ok k array_ok task s Hok Hl Hk) as (no&s'&->&Hok'&Hc&Hl'&Hsub&_). cbn [mbind outcome_bind]. eexists. split; [reflexivity|].
    split_and!; [done|cbn; lia|cbn; lia|cbn; congruence|]. intros n Hn. left. by eapply elem_of_submseteq.
  - cbn [run_timer]. unfold spinlock_free. rewrite Hl. pose proof (cancel_ok no s Hok) as Hcan. destruct (time_cancel_async_task no s) as [found s'].
    destruct Hcan as (Hok'&Ee&Hc&Hl'&Hf&_&_&Hin). eexists. split; [reflexivity|].
    split_and!; [done|cbn; lia|cbn; lia|cbn; congruence|]. left. unfold numbers in *. cbn [snd] in *. rewrite Ee, Hf in *. set_solver.
  - cbn [run_timer]. unfold spinlock_free. rewrite Hl. destruct (isr_ok now s Hok) as (Hok'&Hc&Hl'&Hp). eexists. split; [reflexivity|].
    split_and!; [done|lia|lia|congruence|]. intros n Hn. left. by rewrite Hp.
Qed.

(** With the spinlock held the holder goes on, or a call fails before the lock, or
    the step spins. *)
Lemma run_timer_held op s : tasks_locked s = true → run_timer op s = Fuel ∨ run_timer op s = Done s ∨ op = OpRelease.
Proof.
  intros Hl. destruct op as [time|[] time fn cookie| |k array_ok|no|now]; cbn [run_timer]; unfold time_add_take, time_add_insert, spinlock_free; rewrite ?Hl; try by auto.
  destruct (in_flight s !! k); by auto.
Qed.

Lemma run_timers_app ops1 ops2 s : run_timers (ops1 ++ ops2) s = (s ← run_timers ops1 s; run_timers ops2 s).
Proof. revert s. induction ops1 as [|op ops IH]; intros s; cbn [app run_timers]; [done|]. destruct (run_timer op s); cbn [mbind outcome_bind]; [apply IH|done..]. Qed.

Lemma deadlocks_cons op ops s s1 : run_timer op s = Done s1 → deadlocks ops s1 → deadlocks (op :: ops) s.
Proof. intros E (pre&op'&post&s'&->&E'&Hs'). exists (op :: pre), op', post, s'. cbn [app run_timers]. by rewrite E. Qed.

Lemma run_timers_ok : ∀ ops s, timer_ok s → taskno_counter s + Z.of_nat (length ops) < TIMESTAMP_US_MAX →
  deadlocks ops s ∨ ∃ s', run_timers ops s = Done s' ∧ timer_ok s' ∧ ∀ n, n < taskno_counter s → n ∉ numbers s → n ∉ numbers s'.
Proof.
  induction ops as [|op ops IH]; intros s Hok Hlen; cbn [run_timers length] in *; [right; by exists s|].
  assert (∀ s1, run_timer op s = Done s1 → timer_ok s1 → taskno_counter s <= taskno_counter s1 <= taskno_counter s + 1 →
    (∀ n, n ∈ numbers s1 → n ∈ numbers s ∨ n = taskno_counter s) → deadlocks (op :: ops) s ∨
    ∃ s', (s ← run_timer op s; run_timers ops s) = Done s' ∧ timer_ok s' ∧ ∀ n, n < taskno_counter s → n ∉ numbers s → n ∉ numbers s') as Hnext.
  { intros s1 E Hok1 Hc Hn. destruct (IH s1 Hok1 ltac:(lia)) as [Hdead|(s'&E'&Hok'&Hn')]; [left; by eapply deadlocks_cons|right].
    exists s'. rewrite E. cbn [mbind outcome_bind]. split_and!; [done|done|]. intros n ? Hnot. apply Hn'; [lia|]. intros [?| ->]%Hn; [done|lia]. }
  destruct (tasks_locked s) eqn:Hl.
  - destruct (run_timer_held op s Hl) as [E|[E| ->]].
    + left. by exists [], op, ops, s.
    + apply (Hnext s E Hok); [lia|by left].
    + eapply Hnext; [reflexivity| |cbn; lia|by left]. apply (timer_ok_step [] s); [done|apply Hok|done|done|apply Hok].
  - destruct (run_timer_ok op s Hok ltac:(lia) Hl) as (s1&E&Hok1&Hc&_&Hn). by apply (Hnext s1).
Qed.

(** Undisturbed calls leave the spinlock free for every step that takes it. *)
Lemma undisturbed_runs : ∀ n ops s, (length ops <= n)%nat → undisturbed ops = true → timer_ok s → tasks_locked s = false →
  taskno_counter s + Z.of_nat (length ops) < TIMESTAMP_US_MAX → ∃ s', run_timers ops s = Done s'.
Proof.
  induction n as [|n IH]; intros [|op ops] s Hn Hu Hok Hl Hlen; cbn [length] in *; [by exists s|lia|by exists s|].
  destruct (run_timer_ok op s Hok ltac:(lia) Hl) as (s1&E&Hok1&Hc&Hl1&_). cbn [run_timers]. rewrite E. cbn [mbind outcome_bind].
  assert (tasks_locked s1 = false → undisturbed ops = true → ∃ s', run_timers ops s1 = Done s') as Hfree by (intros; apply IH; done || lia).
  destruct op as [time|b time fn cookie| |k array_ok|no|now]; cbn [undisturbed] in Hu;
    try (apply Hfree; [destruct (tasks_locked s1); [by destruct Hl1 as (?&?&?&?)|done]|done]).
  destruct ops as [|[] ops]; try done. cbn [run_timers run_timer mbind outcome_bind length] in *.
  apply IH; [lia|done| |done|cbn; lia]. apply (timer_ok_step [] s1); [done|apply Hok1|done|done|apply Hok1].
Qed.

Lemma timer_start_ok : timer_ok timer_start.
Proof. split; cbn; [constructor|constructor|constructor|constructor|lia]. Qed.

Definition timer_safe (s : timer) : Prop := descending (tasks s) ∧ NoDup (omap ran_no (timer_events s)) ∧
  ∀ task now, Ran task now ∈ timer_events s → tt_time task <= now ∧ tt_no task ∉ (tt_no <$> tasks s) ++ (tt_no <$> in_flight s).

Lemma timer_ok_safe s : timer_ok s → timer_safe s.
Proof.
  intros [Hs Hd Hn Hdue Hc]. unfold numbers in Hd. rewrite app_assoc in Hd. apply NoDup_app in Hd as (_&Hsep&Hd).
  split_and!; [done|done|]. intros task now Hin. rewrite Forall_forall in Hdue. split; [by apply (Hdue _ Hin)|].
  intros Ht. apply (Hsep _ Ht). apply list_elem_of_omap. by exists (Ran task now).
Qed.

(** C36: in every order of the steps of adding, cancelling, switching and
    interrupting, of any number of calls, the run deadlocks or every step returns
    and the array of tasks is sorted, no task ran twice and none before its time.
    A deadlock is a step that meets the spinlock held by a call of
    time_add_async_task that has not disabled interrupts yet; a run where nothing
    comes between the take and the release of that spinlock has none. *)
Theorem timer_tasks_safe ops : Z.of_nat (length ops) < TIMESTAMP_US_MAX →
  (deadlocks ops timer_start ∨ ∃ s, run_timers ops timer_start = Done s ∧ timer_safe s) ∧
  (undisturbed ops = true → ∃ s, run_timers ops timer_start = Done s ∧ timer_safe s).
Proof.
  intros Hlen. destruct (run_timers_ok ops timer_start timer_start_ok Hlen) as [Hdead|(s&E&Hok&_)].
  - split; [by left|]. intros Hu. destruct (undisturbed_runs _ ops timer_start (le_n _) Hu timer_start_ok eq_refl Hlen) as [s E].
    destruct Hdead as (pre&op&post&s'&->&E1&_&E2). rewrite run_timers_app, E1 in E. cbn [mbind outcome_bind run_timers] in E. by rewrite E2 in E.
  - split; [right|intros _]; exists s; split; [done|by apply timer_ok_safe|done|by apply timer_ok_safe].
Qed.

(** A task that is cancelled before it ran does not run later, whatever
    happens. *)
Theorem cancelled_never_runs no ops s : timer_ok s → no < taskno_counter s → no ∉ omap ran_no (timer_events s) → no ∉ tt_no <$> in_flight s →
  taskno_counter s + Z.of_nat (length ops) < TIMESTAMP_US_MAX → let s1 := snd (time_cancel_async_task no s) in
  deadlocks ops s1 ∨ ∃ s', run_timers ops s1 = Done s' ∧ no ∉ omap ran_no (timer_events s').
Proof.
  intros Hok Hno Hran Hfl Hlen. pose proof (cancel_ok no s Hok) as Hcan. destruct (time_cancel_async_task no s) as [found s1].
  destruct Hcan as (Hok1&Ee&Ec&_&Ef&_&Hnot&_). cbn [snd]. destruct (run_timers_ok ops s1 Hok1) as [?|(s'&E&_&Hn')]; [by rewrite Ec|by left|right]. exists s'. split; [done|].
  intros Hin. apply (Hn' no); [by rewrite Ec| |apply elem_of_app; right; apply elem_of_app; by right]. unfold numbers. rewrite Ee, Ef, !elem_of_app. tauto.
Qed.

(** With one task the timer is set for whatever comes first. *)
Theorem single_task_timer t s : tasks s = [t] → 0 < preempt_time s →
  cpu_timer (eval_cpu_timer s) = Z.min (tt_time t) (preempt_time s) ∧
  (timer_is_preempt (eval_cpu_timer s) = true ↔ preempt_time s <= tt_time t).
Proof.
  intros E Hp. unfold eval_cpu_timer. rewrite E. cbn [last head]. rewrite (proj2 (Z.leb_gt _ _)) by lia. cbn [orb].
  destruct (Z.ltb_spec (tt_time t) (preempt_time s)); cbn [set_timer cpu_timer timer_is_preempt]; split; lia || (split; [done|lia]) || done.
Qed.
End correct.

(** ** Examples *)

#[local] Existing Instances demo_arrays demo_arrays_spec.

Definition add_ops (k : nat) (time fn cookie : Z) : list timer_op := [OpTake true time fn cookie; OpRelease; OpInsert k true].
(** Two calls whose steps are interleaved, and an interrupt. *)
Definition demo_ops : list timer_op :=
  [OpTake true 30 0x100 1; OpRelease; OpTake true 10 0x200 2; OpRelease; OpInsert 1 true; OpIsr 5; OpInsert 0 true; OpIsr 15].

Lemma timer_tasks_safe_witness : ∃ s, run_timers demo_ops timer_start = Done s ∧ timer_safe s ∧ tasks s = [TimerTask 0 30 0x100 1] ∧
  timer_events s = [Ran (TimerTask 1 10 0x200 2) 15].
Proof.
  destruct (timer_tasks_safe demo_ops) as [_ Hs]; [by vm_compute|]. destruct Hs as (s&E&Hs); [reflexivity|]. exists s. split; [exact E|]. split; [exact Hs|].
  assert (run_timers demo_ops timer_start = Done s) as E' by exact E. vm_compute in E'. by injection E' as <-.
Defined.

Lemma cancelled_never_runs_witness : let s1 := snd (time_cancel_async_task 0 (Timer [TimerTask 0 30 0x100 1] 1 0 false 30 [] false [])) in
  deadlocks [OpIsr 100; OpIsr 100] s1 ∨ ∃ s', run_timers [OpIsr 100; OpIsr 100] s1 = Done s' ∧ 0 ∉ omap ran_no (timer_events s').
Proof.
  apply (cancelled_never_runs 0 [OpIsr 100; OpIsr 100] (Timer [TimerTask 0 30 0x100 1] 1 0 false 30 [] false [])).
  - split; cbn; [repeat constructor|by apply NoDup_singleton|repeat constructor; lia|constructor|lia].
  - cbn. lia.
  - by intros ?%elem_of_nil.
  - by intros ?%elem_of_nil.
  - by vm_compute.
Defined.

(** With two tasks the timer is set for the later one. *)
Example timer_set_for_latest : (s ← run_timers (add_ops 0 30 0x100 1 ++ add_ops 0 10 0x200 2) timer_start; Done (cpu_timer s)) = Done 30.
Proof. by vm_compute. Qed.

(** A timer interrupt while a number is drawn spins on the lock of the thread that
    it interrupts. *)
Example add_interrupted_deadlocks : run_timers [OpTake true 30 0x100 1; OpIsr 5; OpRelease] timer_start = Fuel ∧
  deadlocks [OpTake true 30 0x100 1; OpIsr 5; OpRelease] timer_start.
Proof. split; [by vm_compute|]. by exists [OpTake true 30 0x100 1], (OpIsr 5), [OpRelease], (Timer [] 1 0 false 0 [] true [TimerTask 0 30 0x100 1]). Qed.
