(* ===== verification/Process.v ===== *)
(** * Processes

    The process table of kernel/src/process/process.c, signals
    (process/sighandler.c) and the process system calls
    (process/syscall_impl.c).  A process is found by its address; a freed process
    leaves the heap, so the use of a stale pointer is undefined.  Operations hold
    the mutexes of the table and of the process, and are single steps; tasks for
    the housekeeping thread wait in a list.  Threads and memory maps are an
    interface here ([ProcServices]): they are the components of [Sched],
    [ProcMemmap] and [PageTable]; the ELF loader is a submodule. *)

From S2P Require Import Prelude Badgelib Containers Sched.

Definition PROC_RUNNING : Z := 0x01.
Definition PROC_EXITED : Z := 0x04.
Definition PROC_PRESTART : Z := 0x10.
Definition PROC_STATECHG : Z := 0x20.

Definition SIGHUP : Z := 1.
Definition SIGILL : Z := 4.
Definition SIGTRAP : Z := 5.
Definition SIGABRT : Z := 6.
Definition SIGKILL : Z := 9.
Definition SIGSEGV : Z := 11.
Definition SIGTERM : Z := 15.
Definition SIGSYS : Z := 31.
Definition SIGCHLD : Z := 17.
Definition SIG_COUNT : nat := 32.
Definition SIG_IGN : Z := 0.
Definition SIG_DFL : Z := 2 ^ 64 - 1.
Definition W_EXITED (ret : Z) : Z := Z.shiftl ret 8.
Definition W_SIGNALLED (sig : Z) : Z := Z.lor (Z.shiftl sig 8) 0x40.
Definition WNOHANG : Z := 0x1.
Definition WUNTRACED : Z := 0x2.
Definition WCONTINUED : Z := 0x8.
Definition WNOWAIT : Z := 0x01000000.
Definition ECHILD : Z := 10.

Definition WIFSTOPPED (status : Z) : bool := has status 0x20.
Definition WIFCONTINUED (status : Z) : bool := has status 0x10.

(** The block of memory of the arguments: its size, the pointers at its start, as
    offsets into the block, and its bytes. *)
Record argv_block := ArgvBlock { av_size : Z; av_ptrs : list (option Z); av_bytes : memory }.

Record proc_fd := ProcFd { virt : Z; real : Z }.

Record process := Process {
  p_parent : option nat;
  p_binary : Z;
  p_argv : argv_block;
  p_fds : list proc_fd;
  p_threads : list Z;
  p_pid : Z;
  p_flags : Z;
  p_sigpending : list Z;
  p_children : list nat;
  p_sighandlers : list Z;
  p_state_code : Z;
}.

Definition set_pflags f p := Process (p_parent p) (p_binary p) (p_argv p) (p_fds p) (p_threads p) (p_pid p) f (p_sigpending p) (p_children p) (p_sighandlers p) (p_state_code p).
Definition set_fds l p := Process (p_parent p) (p_binary p) (p_argv p) l (p_threads p) (p_pid p) (p_flags p) (p_sigpending p) (p_children p) (p_sighandlers p) (p_state_code p).
Definition set_pthreads l p := Process (p_parent p) (p_binary p) (p_argv p) (p_fds p) l (p_pid p) (p_flags p) (p_sigpending p) (p_children p) (p_sighandlers p) (p_state_code p).
Definition set_sigpending l p := Process (p_parent p) (p_binary p) (p_argv p) (p_fds p) (p_threads p) (p_pid p) (p_flags p) l (p_children p) (p_sighandlers p) (p_state_code p).
Definition set_children l p := Process (p_parent p) (p_binary p) (p_argv p) (p_fds p) (p_threads p) (p_pid p) (p_flags p) (p_sigpending p) l (p_sighandlers p) (p_state_code p).
Definition set_sighandlers l p := Process (p_parent p) (p_binary p) (p_argv p) (p_fds p) (p_threads p) (p_pid p) (p_flags p) (p_sigpending p) (p_children p) l (p_state_code p).
Definition set_state_code c p := Process (p_parent p) (p_binary p) (p_argv p) (p_fds p) (p_threads p) (p_pid p) (p_flags p) (p_sigpending p) (p_children p) (p_sighandlers p) c.

(** ** Arguments *)

(** The bytes needed for the strings with their terminators. *)
Fixpoint args_length (argv : list (list Z)) : Z :=
  match argv with [] => 0 | s :: argv => Z.of_nat (length s) + 1 + args_length argv end.

(** A string with its terminator, at an offset. *)
Definition put_cstr (off : Z) (s : list Z) (m : memory) : memory := λ a,
  if decide (off <= a < off + Z.of_nat (length s) + 1) then default 0 (s !! Z.to_nat (a - off)) else m a.

(** The offset advances by the length without the terminator. *)
Fixpoint args_loop (argv : list (list Z)) (off : Z) (ptrs : list (option Z)) (m : memory) : list (option Z) * memory :=
  match argv with
  | [] => (ptrs ++ [None], m)
  | s :: argv => args_loop argv (off + Z.of_nat (length s)) (ptrs ++ [Some off]) (put_cstr off s m)
  end.

(** [mem] is the contents of the block, if there is memory for it. *)
Definition proc_setargs_raw_unsafe (mem : option memory) (argv : list (list Z)) : option argv_block :=
  let off := 8 * (Z.of_nat (length argv) + 1) in
  match mem with
  | None => None
  | Some m => let '(ptrs, m) := args_loop argv off [] m in Some (ArgvBlock (off + args_length argv) ptrs m)
  end.

(** ** File descriptors *)

(** The number for a new descriptor. *)
Fixpoint next_virt (fds : list proc_fd) (v : Z) : Z :=
  match fds with [] => v | fd :: fds => next_virt fds (if v <? virt fd then virt fd + 1 else v) end.

Fixpoint find_virt (i : nat) (v : Z) (fds : list proc_fd) : option nat :=
  match fds with [] => None | fd :: fds => if virt fd =? v then Some i else find_virt (S i) v fds end.

Definition proc_find_fd_raw (p : process) (v : Z) : badge_cause * Z :=
  match find_virt 0 v (p_fds p) with
  | Some i => match p_fds p !! i with Some fd => (ECAUSE_OK, real fd) | None => (ECAUSE_NOTFOUND, -1) end
  | None => (ECAUSE_NOTFOUND, -1)
  end.

(** ** The rest of the kernel *)

(** What the ELF loader made of a binary. *)
Inductive load_result := LoadNoMem | LoadNotFound | LoadBad | Loaded (entry : Z).

Class ProcServices (KS : Type) := {
  svc_memprotect_create : nat → KS → outcome KS;    (* a context for the process at an address *)
  svc_unmap_all : nat → KS → outcome KS;            (* its regions *)
  svc_memprotect_destroy : nat → KS → KS;
  svc_thread_new : nat → Z → KS → outcome (Z * KS); (* 0 when there is no memory *)
  svc_thread_join : Z → KS → outcome KS;
  svc_thread_resume : Z → KS → outcome KS;
  svc_thread_suspend : Z → KS → outcome KS;
  svc_thread_exit : KS → outcome KS;
  svc_load : Z → Z → KS → outcome (load_result * KS);
  svc_unload : Z → KS → KS;
}.

Record ptable (KS : Type) := PTable {
  procs : list nat;
  pheap : gmap nat process;
  pid_counter : Z;
  cleanups : list Z;                   (* the tasks [clean_up_from_housekeeping] *)
  kernel_shutdown : bool;
  services : KS;
}.
Arguments PTable {KS}. Arguments procs {KS}. Arguments pheap {KS}. Arguments pid_counter {KS}. Arguments cleanups {KS}.
Arguments kernel_shutdown {KS}. Arguments services {KS}.

Section process.
Context `{!KArrays} `{!DList} {KS : Type} `{!ProcServices KS}.
Implicit Types s : ptable KS.

Definition set_procs l s : ptable KS := PTable l (pheap s) (pid_counter s) (cleanups s) (kernel_shutdown s) (services s).
Definition set_pheap h s : ptable KS := PTable (procs s) h (pid_counter s) (cleanups s) (kernel_shutdown s) (services s).
Definition set_pid_counter n s : ptable KS := PTable (procs s) (pheap s) n (cleanups s) (kernel_shutdown s) (services s).
Definition set_cleanups l s : ptable KS := PTable (procs s) (pheap s) (pid_counter s) l (kernel_shutdown s) (services s).
Definition set_services k s : ptable KS := PTable (procs s) (pheap s) (pid_counter s) (cleanups s) (kernel_shutdown s) k.

Definition get_proc (a : nat) s : outcome process := deref (pheap s !! a).
Definition put_proc (a : nat) (p : process) s : ptable KS := set_pheap (<[a := p]> (pheap s)) s.

(** ** Looking up *)

(** The comparison of a pointer in the table with the process number [pid]. *)
Definition proc_sort_pid_cmp s (pid : Z) (a : nat) : Z := match pheap s !! a with Some p => p_pid p - pid | None => 0 end.

Definition proc_get_unsafe (pid : Z) s : option nat :=
  let '(found, i) := array_binsearch (procs s) (proc_sort_pid_cmp s pid) in
  if (found : bool) then procs s !! i else None.

Definition proc_getflags (pid : Z) s : outcome (badge_cause * Z) :=
  match proc_get_unsafe pid s with
  | Some a => p ← get_proc a s; Done (ECAUSE_OK, p_flags p)
  | None => Done (ECAUSE_NOTFOUND, 0)
  end.

Definition proc_is_parent (parent child : Z) s : outcome bool :=
  match proc_get_unsafe child s with
  | None => Done false
  | Some a => p ← get_proc a s; Done (bool_decide (p_parent p = proc_get_unsafe parent s))
  end.

Fixpoint noninit_loop (l : list nat) s : outcome bool :=
  match l with
  | [] => Done false
  | a :: l => p ← get_proc a s; if negb (p_pid p =? 1) && has (p_flags p) PROC_RUNNING then Done true else noninit_loop l s
  end.

Definition proc_has_noninit s : outcome bool := noninit_loop (procs s) s.

(** ** Creation *)

(** [handle] is the address of the new process, if there is memory for it. *)
Definition proc_create_raw (handle : option nat) (argmem : option memory) (array_ok : bool) (parentpid binary : Z) (argv : list (list Z)) s
    : outcome (badge_cause * option nat * ptable KS) :=
  let parent := proc_get_unsafe parentpid s in
  _ ← (if pid_counter s =? 1 then assert_or_panic (parentpid <=? 0) else Done tt);
  if negb (pid_counter s =? 1) && bool_decide (parent = None) then Done (ECAUSE_NOTFOUND, None, s) else
  match handle with
  | None => Done (ECAUSE_NOMEM, None, s)
  | Some a =>
      match proc_setargs_raw_unsafe argmem argv with
      | None => Done (ECAUSE_NOMEM, None, s)
      | Some args =>
          let p := Process parent binary args [] [] (pid_counter s) PROC_PRESTART [] [] (replicate SIG_COUNT SIG_DFL) 0 in
          let s1 := put_proc a p s in
          let '(_, i) := array_binsearch (procs s) (proc_sort_pid_cmp s (p_pid p)) in
          let '(ok, l) := array_insert array_ok (procs s) a i in
          if negb (ok : bool) then Done (ECAUSE_NOMEM, None, s) else
          if pid_counter s =? INT_MAX then Undef else
          let s := set_pid_counter (pid_counter s + 1) (set_procs l s1) in
          s ← match parent with
              | None => Done s
              | Some q => pq ← get_proc q s; Done (put_proc q (set_children (dlist_append (p_children pq) a) pq) s)
              end;
          k ← svc_memprotect_create a (services s);
          Done (ECAUSE_OK, Some a, set_services k s)
      end
  end.

(** A new thread; [grow] tells whether there is memory for the list. *)
Definition proc_create_thread_raw (grow : bool) (a : nat) (entry : Z) s : outcome (Z * ptable KS) :=
  if negb grow then Done (0, s) else
  '(tid, k) ← svc_thread_new a entry (services s);
  let s := set_services k s in
  if tid =? 0 then Done (0, s) else
  p ← get_proc a s;
  Done (tid, put_proc a (set_pthreads (p_threads p ++ [tid]) p) s).

Definition proc_start_raw (grow : bool) (a : nat) s : outcome (badge_cause * ptable KS) :=
  p ← get_proc a s;
  let s := put_proc a (set_pflags (Z.ldiff (p_flags p) PROC_PRESTART) p) s in
  if negb (has (p_flags p) PROC_PRESTART) then Done (ECAUSE_STATE, s) else
  '(res, k) ← svc_load (p_pid p) (p_binary p) (services s);
  let s := set_services k s in
  match res with
  | LoadNoMem => Done (ECAUSE_NOMEM, s)
  | LoadNotFound => Done (ECAUSE_NOTFOUND, s)
  | LoadBad => Done (ECAUSE_FORMAT, s)
  | Loaded entry =>
      '(tid, s) ← proc_create_thread_raw grow a entry s;
      if tid =? 0 then Done (ECAUSE_NOMEM, set_services (svc_unload (p_pid p) (services s)) s) else
      p ← get_proc a s;
      let s := put_proc a (set_pflags PROC_RUNNING p) s in
      k ← svc_thread_resume tid (services s);
      Done (ECAUSE_OK, set_services k s)
  end.

Definition proc_start (grow : bool) (pid : Z) s : outcome (badge_cause * ptable KS) :=
  match proc_get_unsafe pid s with
  | Some a => proc_start_raw grow a s
  | None => Done (ECAUSE_NOTFOUND, s)
  end.

(** ** File descriptors *)

Definition proc_add_fd_raw (mem_ok : bool) (a : nat) (real : Z) s : outcome (badge_cause * Z * ptable KS) :=
  p ← get_proc a s;
  let v := next_virt (p_fds p) 0 in
  let '(ok, l) := array_insert mem_ok (p_fds p) (ProcFd v real) (length (p_fds p)) in
  if (ok : bool) then Done (ECAUSE_OK, v, put_proc a (set_fds l p) s) else Done (ECAUSE_NOMEM, -1, s).

Definition proc_remove_fd_raw (a : nat) (v : Z) s : outcome (badge_cause * ptable KS) :=
  p ← get_proc a s;
  match find_virt 0 v (p_fds p) with
  | Some i => Done (ECAUSE_OK, put_proc a (set_fds (array_remove (p_fds p) i) p) s)
  | None => Done (ECAUSE_NOTFOUND, s)
  end.

(** ** Signals *)

(** A task for the housekeeping thread is added at once. *)
Definition add_cleanup (pid : Z) s : ptable KS := set_cleanups (cleanups s ++ [pid]) s.

Definition proc_raise_sigkill_raw (a : nat) s : outcome (ptable KS) :=
  p ← get_proc a s;
  let p := set_state_code (W_SIGNALLED SIGKILL) (set_pflags (Z.lor (p_flags p) PROC_EXITING) p) in
  Done (add_cleanup (p_pid p) (put_proc a p s)).

Definition proc_raise_signal_raw (mem_ok : bool) (a : nat) (signum : Z) s : outcome (ptable KS) :=
  if signum =? SIGKILL then proc_raise_sigkill_raw a s else
  p ← get_proc a s;
  if negb mem_ok then Done s else
  Done (put_proc a (set_pflags (Z.lor (p_flags p) PROC_SIGPEND) (set_sigpending (dlist_append (p_sigpending p) signum) p)) s).

Definition proc_raise_signal (mem_ok : bool) (pid signum : Z) s : outcome (ptable KS) :=
  match proc_get_unsafe pid s with
  | Some a => proc_raise_signal_raw mem_ok a signum s
  | None => Done s
  end.

Fixpoint signal_loop (mem_ok : bool) (signum : Z) (l : list nat) s : outcome (ptable KS) :=
  match l with
  | [] => Done s
  | a :: l =>
      p ← get_proc a s;
      s ← (if p_pid p =? 1 then Done s else proc_raise_signal_raw mem_ok a signum s);
      signal_loop mem_ok signum l s
  end.

Definition proc_signal_all (mem_ok : bool) (signum : Z) s : outcome (ptable KS) := signal_loop mem_ok signum (procs s) s.

Definition proc_signals_pending_raw (p : process) : bool := has (p_flags p) PROC_SIGPEND.

(** The pending signal that [proc_signal_handler] takes, if any. *)
Definition take_signal (a : nat) s : outcome (option Z * ptable KS) :=
  p ← get_proc a s;
  let '(sig, l) := dlist_pop_front (p_sigpending p) in
  Done (sig, put_proc a (set_sigpending l p) s).

(** ** Exit *)

Definition proc_exit_self (a : nat) (code : Z) s : outcome (ptable KS) :=
  p ← get_proc a s;
  let p := set_state_code code (set_pflags (Z.lor (p_flags p) PROC_EXITING) p) in
  let s := add_cleanup (p_pid p) (put_proc a p s) in
  k ← svc_thread_exit (services s);
  Done (set_services k s).

(** What [run_sighandler] does: nothing, exit, or run a user handler. *)
Inductive sig_action := SigIgnored | SigExit (status : Z) | SigEnter (handler return_to signum : Z).

Definition SIG_DFL_KILL_MASK : Z :=
  fold_right Z.lor 0 (map (Z.shiftl 1) [SIGHUP; SIGSEGV; SIGILL; SIGTRAP; SIGTERM; SIGKILL; SIGABRT; SIGSYS]).

Definition run_sighandler (p : process) (signum : Z) : outcome sig_action :=
  h ← deref (p_sighandlers p !! Z.to_nat signum);
  if (signum =? SIGKILL) || (h =? SIG_DFL) then
    Done (if Z.testbit SIG_DFL_KILL_MASK signum then SigExit (W_SIGNALLED signum) else SigIgnored)
  else if negb (h =? 0) then r ← deref (p_sighandlers p !! O); Done (SigEnter h r signum)
  else Done SigIgnored.

(** A fault in a thread that runs a signal handler ends the process. *)
Definition trap_signal_handler (in_handler : bool) (p : process) (signum : Z) : outcome sig_action :=
  if in_handler then Done (SigExit (W_SIGNALLED signum)) else run_sighandler p signum.

Fixpoint suspend_loop (current : Z) (tids : list Z) (k : KS) : outcome KS :=
  match tids with
  | [] => Done k
  | tid :: tids => k ← (if tid =? current then Done k else svc_thread_suspend tid k); suspend_loop current tids k
  end.

Definition proc_suspend (a : nat) (current : Z) s : outcome (ptable KS) :=
  p ← get_proc a s;
  k ← suspend_loop current (p_threads p) (services s);
  Done (set_services k s).

Fixpoint resume_loop (tids : list Z) (k : KS) : outcome KS :=
  match tids with
  | [] => Done k
  | tid :: tids => k ← svc_thread_resume tid k; resume_loop tids k
  end.

Definition proc_resume (a : nat) s : outcome (ptable KS) :=
  p ← get_proc a s;
  k ← resume_loop (p_threads p) (services s);
  Done (set_services k s).

(** ** Deletion *)

Definition allow_proc1_death s : bool := kernel_shutdown s && (length (procs s) =? 1)%nat.

Fixpoint join_loop (tids : list Z) (k : KS) : outcome KS :=
  match tids with
  | [] => Done k
  | tid :: tids => k ← svc_thread_join tid k; join_loop tids k
  end.

(** The children of [a] become children of the first process; their parent
    pointers stay. *)
Definition adopt_children (a : nat) s : outcome (ptable KS) :=
  init ← deref (procs s !! O);
  pi ← get_proc init s;
  _ ← assert_or_panic (p_pid pi =? 1);
  p ← get_proc a s;
  let '(to, from) := dlist_concat (p_children pi) (p_children p) in
  Done (put_proc a (set_children from p) (put_proc init (set_children to pi) s)).

(** [current] is the thread that deletes. *)
Definition proc_delete_runtime_raw (current : Z) (a : nat) s : outcome (ptable KS) :=
  p ← get_proc a s;
  _ ← assert_or_panic (bool_decide (current ∉ p_threads p));
  _ ← assert_or_panic (negb (p_pid p =? 1) || allow_proc1_death s);
  if has (p_flags p) PROC_EXITED then Done s else
  let s := put_proc a (set_pflags (Z.lor (p_flags p) PROC_EXITING) p) s in
  k ← join_loop (p_threads p) (services s);
  p ← get_proc a s;
  let s := set_services k (put_proc a (set_pthreads [] p) s) in
  s ← (if p_pid p =? 1 then Done s else adopt_children a s);
  k ← svc_unmap_all a (services s);
  p ← get_proc a s;
  Done (set_services k (put_proc a (set_pflags (Z.ldiff (Z.lor (p_flags p) PROC_EXITED) (Z.lor PROC_EXITING PROC_RUNNING)) p) s)).

Definition proc_delete_impl (current : Z) (pid : Z) (only_prestart : bool) s : outcome (bool * ptable KS) :=
  let '(found, i) := array_binsearch (procs s) (proc_sort_pid_cmp s pid) in
  if negb (found : bool) then Done (false, s) else
  a ← deref (procs s !! i);
  p ← get_proc a s;
  if only_prestart && negb (has (p_flags p) PROC_PRESTART) then Done (false, s) else
  s ← proc_delete_runtime_raw current a s;
  p ← get_proc a s;
  s ← match p_parent p with
      | None => Done s
      | Some q => pq ← get_proc q s; Done (put_proc q (set_children (dlist_remove (p_children pq) a) pq) s)
      end;
  let s := set_services (svc_memprotect_destroy a (services s)) s in
  Done (true, set_procs (array_remove (procs s) i) (set_pheap (delete a (pheap s)) s)).

Definition proc_delete_prestart (current pid : Z) s : outcome (bool * ptable KS) := proc_delete_impl current pid true s.
Definition proc_delete (current pid : Z) s : outcome (ptable KS) := '(_, s) ← proc_delete_impl current pid false s; Done s.

(** A null pointer is dereferenced when the process is gone. *)
Definition clean_up_from_housekeeping (mem_ok : bool) (current pid : Z) s : outcome (ptable KS) :=
  a ← deref (proc_get_unsafe pid s);
  s ← proc_delete_runtime_raw current a s;
  p ← get_proc a s;
  match p_parent p with
  | None => proc_delete current pid s
  | Some q =>
      pq ← get_proc q s;
      h ← deref (p_sighandlers pq !! Z.to_nat SIGCHLD);
      if h =? SIG_IGN then proc_delete current pid s
      else proc_raise_signal_raw mem_ok q SIGCHLD (put_proc a (set_pflags (Z.lor (p_flags p) PROC_STATECHG) p) s)
  end.

(** The next task of the housekeeping thread. *)
Definition run_cleanup (mem_ok : bool) (current : Z) s : outcome (ptable KS) :=
  match cleanups s with
  | [] => Done s
  | pid :: l => clean_up_from_housekeeping mem_ok current pid (set_cleanups l s)
  end.

(** ** System calls *)

Definition syscall_proc_exit (a : nat) (code : Z) s : outcome (ptable KS) := proc_exit_self a (W_EXITED (Z.land code 255)) s.

Definition syscall_proc_pdestroy (current self child : Z) s : outcome (bool * ptable KS) :=
  is_parent ← proc_is_parent self child s;
  if (is_parent : bool) then proc_delete_prestart current child s else Done (false, s).

Definition syscall_proc_pstart (grow : bool) (self child : Z) s : outcome (bool * ptable KS) :=
  is_parent ← proc_is_parent self child s;
  if (is_parent : bool) then '(ec, s) ← proc_start grow child s; Done (is_ok ec, s) else Done (false, s).

(** [None] is the signal for an invalid system call. *)
Definition syscall_proc_sighandler (a : nat) (signum newhandler : Z) s : outcome (option Z * ptable KS) :=
  if negb ((0 <=? signum) && (signum <? Z.of_nat SIG_COUNT)) then Done (None, s) else
  p ← get_proc a s;
  old ← deref (p_sighandlers p !! Z.to_nat signum);
  Done (Some old, put_proc a (set_sighandlers (<[Z.to_nat signum := newhandler]> (p_sighandlers p)) p) s).

(** What a search of the children finds: a status change, or whether some child
    was eligible. *)
Inductive wait_result := WaitFound (pid status : Z) (exited : bool) | WaitNone (eligible : bool).

(** Whether a child is eligible, and whether it matches the options. *)
Definition wait_match (pid options : Z) (p : process) : bool * bool :=
  let eligible := if (pid =? -1) || (pid =? 0) then true else if 0 <? pid then p_pid p =? pid else false in
  let matches := if WIFCONTINUED (p_state_code p) then has options WCONTINUED
                 else if WIFSTOPPED (p_state_code p) then has options WUNTRACED else eligible in
  (eligible, matches).

Fixpoint wait_scan (pid options : Z) (children : list nat) (eligible : bool) s : outcome (wait_result * ptable KS) :=
  match children with
  | [] => Done (WaitNone eligible, s)
  | c :: children =>
      p ← get_proc c s;
      let '(node_eligible, node_matches) := wait_match pid options p in
      if (node_matches : bool) && has (p_flags p) PROC_STATECHG then
        let p := set_pflags (Z.ldiff (p_flags p) PROC_STATECHG) p in
        Done (WaitFound (p_pid p) (p_state_code p) (has (p_flags p) PROC_EXITED), put_proc c p s)
      else wait_scan pid options children (eligible || node_eligible) s
  end.

(** One round of the loop: the result with the status, or [None] to wait.  The
    loop has no round with [WNOHANG]. *)
Definition syscall_proc_waitpid (current : Z) (a : nat) (pid options : Z) s : outcome (option (Z * option Z) * ptable KS) :=
  if has options WNOHANG then Done (Some (0, None), s) else
  p ← get_proc a s;
  '(res, s) ← wait_scan pid options (p_children p) false s;
  match res with
  | WaitFound child status exited =>
      s ← (if exited && negb (has options WNOWAIT) then proc_delete current child s else Done s);
      Done (Some (child, Some status), s)
  | WaitNone eligible => Done (if (eligible : bool) then None else Some (- ECHILD, None), s)
  end.
End process.
