(* ===== verification/ProcessCorrect.v ===== *)
(** * Processes: correctness

    The process table is a tree that every operation keeps intact, and the exit
    code of a process reaches the parent that waits for it. *)

From S2P Require Import Prelude Badgelib Containers Sched SchedTheory Process.

(** What processes rely on: contexts exist for a set of processes, and every
    service returns. *)
Class ProcServicesSpec (KS : Type) `{!ProcServices KS} (hk_tid : Z) := {
  svc_ok : KS → gset nat → Prop;
  create_law k A a : svc_ok k A → a ∉ A → ∃ k', svc_memprotect_create a k = Done k' ∧ svc_ok k' ({[a]} ∪ A);
  unmap_law k A a : svc_ok k A → a ∈ A → ∃ k', svc_unmap_all a k = Done k' ∧ svc_ok k' A;
  destroy_law k A a : svc_ok k A → a ∈ A → svc_ok (svc_memprotect_destroy a k) (A ∖ {[a]});
  new_law k A a entry : svc_ok k A → a ∈ A → ∃ tid k', svc_thread_new a entry k = Done (tid, k') ∧ svc_ok k' A ∧ tid ≠ hk_tid;
  join_law k A tid : svc_ok k A → ∃ k', svc_thread_join tid k = Done k' ∧ svc_ok k' A;
  resume_law k A tid : svc_ok k A → ∃ k', svc_thread_resume tid k = Done k' ∧ svc_ok k' A;
  exit_law k A : svc_ok k A → ∃ k', svc_thread_exit k = Done k' ∧ svc_ok k' A;
  load_law k A pid binary : svc_ok k A → ∃ res k', svc_load pid binary k = Done (res, k') ∧ svc_ok k' A;
  unload_law k A pid : svc_ok k A → svc_ok (svc_unload pid k) A;
}.

Section correct.
Context `{!KArrays} `{!KArraysSpec} `{!DList} `{!DListSpec} {KS : Type} `{!ProcServices KS} (hk_tid : Z) `{!ProcServicesSpec KS hk_tid}.
Implicit Types (s : ptable KS) (p q : process).

(** ** Invariant *)

Definition pid_of s (a : nat) : Z := match pheap s !! a with Some p => p_pid p | None => 0 end.

(** A process that did not start or has ended has neither threads nor children. *)
Definition idle p : bool := has (p_flags p) PROC_EXITED || has (p_flags p) PROC_PRESTART.

Record proc_ok p : Prop := {
  ok_handlers : length (p_sighandlers p) = SIG_COUNT;
  ok_idle : idle p = true → p_threads p = [] ∧ p_children p = [];
  ok_thread : hk_tid ∉ p_threads p;
  ok_nodup : NoDup (p_children p);
}.

Record ptable_ok s : Prop := {
  pt_sorted : key_sorted (pid_of s) (procs s);
  pt_dom a : a ∈ procs s ↔ is_Some (pheap s !! a);
  pt_pids a p : pheap s !! a = Some p → 0 < p_pid p < pid_counter s;
  pt_init : ∃ i pi l, procs s = i :: l ∧ pheap s !! i = Some pi ∧ p_pid pi = 1 ∧ p_parent pi = None;
  pt_parent a p : pheap s !! a = Some p → p_pid p ≠ 1 → ∃ b q, p_parent p = Some b ∧ pheap s !! b = Some q ∧ a ∈ p_children q;
  pt_children b q a : pheap s !! b = Some q → a ∈ p_children q → ∃ p, pheap s !! a = Some p ∧ p_parent p = Some b;
  pt_procs a p : pheap s !! a = Some p → proc_ok p;
  pt_cleanups : NoDup (cleanups s) ∧ ∀ pid, pid ∈ cleanups s → ∃ a p, pheap s !! a = Some p ∧ p_pid p = pid ∧ pid ≠ 1 ∧ idle p = false;
  pt_services : svc_ok (services s) (dom (pheap s));
}.

(** ** Lookup *)

Lemma pid_of_lookup s a p : pheap s !! a = Some p → pid_of s a = p_pid p.
Proof. intros E. unfold pid_of. by rewrite E. Qed.

Lemma cmp_pid s pid : ptable_ok s → cmp_key (pid_of s) (proc_sort_pid_cmp s pid) pid (procs s).
Proof. intros Hok a Ha. apply (pt_dom s Hok) in Ha as [p Hp]. unfold proc_sort_pid_cmp. by rewrite (pid_of_lookup _ _ _ Hp), Hp. Qed.

Lemma pid_inj s a b p q : ptable_ok s → pheap s !! a = Some p → pheap s !! b = Some q → p_pid p = p_pid q → a = b.
Proof.
  intros Hok Hp Hq E. apply (key_sorted_inj (pid_of s) (procs s)); [apply Hok|apply (pt_dom s Hok); by eexists..|].
  by rewrite (pid_of_lookup _ _ _ Hp), (pid_of_lookup _ _ _ Hq).
Qed.

Lemma binsearch_pid s pid : ptable_ok s → match array_binsearch (procs s) (proc_sort_pid_cmp s pid) with
  | (true, i) => ∃ a p, procs s !! i = Some a ∧ pheap s !! a = Some p ∧ p_pid p = pid
  | (false, i) => (∀ a p, pheap s !! a = Some p → p_pid p ≠ pid) ∧ (i <= length (procs s))%nat ∧
      Forall (λ a, pid_of s a < pid) (take i (procs s)) ∧ Forall (λ a, pid < pid_of s a) (drop i (procs s))
  end.
Proof.
  intros Hok. pose proof (binsearch_lookup (pid_of s) (proc_sort_pid_cmp s pid) (procs s) pid (pt_sorted s Hok) (cmp_pid s pid Hok)) as Hb.
  destruct (array_binsearch _ _) as [[] i].
  - destruct Hb as (a&Ha&E). assert (is_Some (pheap s !! a)) as [p Hp] by (apply (pt_dom s Hok); by eapply list_elem_of_lookup_2).
    exists a, p. by rewrite (pid_of_lookup _ _ _ Hp) in E.
  - destruct Hb as (Hi&Hlo&Hhi). split_and!; [|done|done|done]. intros a p Hp E. assert (a ∈ procs s) as Ha by (apply (pt_dom s Hok); by eexists).
    rewrite <-(take_drop i (procs s)) in Ha. rewrite !Forall_forall in *.
    apply elem_of_app in Ha as [Ha|Ha]; [apply Hlo in Ha|apply Hhi in Ha]; rewrite (pid_of_lookup _ _ _ Hp) in Ha; lia.
Qed.

Lemma get_unsafe_spec s pid : ptable_ok s → match proc_get_unsafe pid s with
  | Some a => ∃ p, pheap s !! a = Some p ∧ p_pid p = pid
  | None => ∀ a p, pheap s !! a = Some p → p_pid p ≠ pid
  end.
Proof.
  intros Hok. unfold proc_get_unsafe. pose proof (binsearch_pid s pid Hok) as Hb. destruct (array_binsearch _ _) as [[] i]; [|by destruct Hb].
  destruct Hb as (a&p&->&Hp&E). by exists p.
Qed.

Lemma get_unsafe_found s a p : ptable_ok s → pheap s !! a = Some p → proc_get_unsafe (p_pid p) s = Some a.
Proof.
  intros Hok Hp. pose proof (get_unsafe_spec s (p_pid p) Hok) as Hg. destruct (proc_get_unsafe (p_pid p) s) as [b|]; [|by destruct (Hg a p)].
  destruct Hg as (q&Hq&E). f_equal. by apply (pid_inj s b a q p).
Qed.

(** ** Updates *)

(** A change of a process that keeps its place in the tree. *)
Lemma put_ok s a p p' : ptable_ok s → pheap s !! a = Some p → p_pid p' = p_pid p → p_parent p' = p_parent p → p_children p' = p_children p →
  proc_ok p' → (p_pid p ∈ cleanups s → idle p' = false) → ptable_ok (put_proc a p' s).
Proof.
  intros [Hs Hd Hpid Hi Hpar Hch Hpr [Hnd Hcl] Hsv] Ha E1 E2 E3 Hp' Hlive.
  assert (∀ b, pid_of (put_proc a p' s) b = pid_of s b) as Epid.
  { intros b. unfold pid_of, put_proc, set_pheap. cbn [pheap]. destruct (decide (b = a)) as [->|Hne]; [by rewrite lookup_insert_eq, Ha|by rewrite lookup_insert_ne]. }
  assert (∀ b q, pheap (put_proc a p' s) !! b = Some q → ∃ q0, pheap s !! b = Some q0 ∧ p_pid q = p_pid q0 ∧ p_parent q = p_parent q0 ∧ p_children q = p_children q0) as Hback.
  { intros b q Hq. cbn [put_proc set_pheap pheap] in Hq. destruct (decide (b = a)) as [->|Hne].
    - rewrite lookup_insert_eq in Hq. injection Hq as <-. by exists p.
    - rewrite lookup_insert_ne in Hq by done. by exists q. }
  assert (∀ b q0, pheap s !! b = Some q0 → ∃ q, pheap (put_proc a p' s) !! b = Some q ∧ p_pid q = p_pid q0 ∧ p_parent q = p_parent q0 ∧ p_children q = p_children q0) as Hfwd.
  { intros b q Hq. cbn [put_proc set_pheap pheap]. destruct (decide (b = a)) as [->|Hne].
    - rewrite lookup_insert_eq. replace q with p by congruence. by exists p'.
    - rewrite lookup_insert_ne by done. by exists q. }
  split.
  - unfold key_sorted in *. cbn [put_proc set_pheap procs]. rewrite (list_fmap_ext _ (pid_of s)) by (intros; apply Epid). done.
  - intros b. cbn [put_proc set_pheap procs pheap]. rewrite Hd. destruct (decide (b = a)) as [->|Hne]; [rewrite lookup_insert_eq, Ha; split; by eexists|by rewrite lookup_insert_ne].
  - intros b q (q0&Hq&->&_)%Hback. by apply (Hpid b).
  - destruct Hi as (i&pi&l&El&Hpi&Ei&Ep). destruct (Hfwd i pi Hpi) as (pi'&Hpi'&E&E'&_). exists i, pi', l. rewrite E, E'. done.
  - intros b q (q0&Hq&E&Ep&Ec)%Hback Hne. rewrite Ep. rewrite E in Hne. destruct (Hpar b q0 Hq Hne) as (c&r&Er&Hr&Hin). destruct (Hfwd c r Hr) as (r'&Hr'&_&_&Ec').
    exists c, r'. by rewrite Ec'.
  - intros b q c (q0&Hq&E&Ep&Ec)%Hback Hin. rewrite Ec in Hin. destruct (Hch b q0 c Hq Hin) as (r&Hr&Er). destruct (Hfwd c r Hr) as (r'&Hr'&_&Ep'&_).
    exists r'. by rewrite Ep'.
  - intros b q Hq. cbn [put_proc set_pheap pheap] in Hq. destruct (decide (b = a)) as [->|Hne]; [rewrite lookup_insert_eq in Hq; by injection Hq as <-|].
    rewrite lookup_insert_ne in Hq by done. by apply (Hpr b).
  - split; [done|]. intros pid Hin. destruct (Hcl pid Hin) as (b&q&Hq&<-&Hne&Hidle). cbn [put_proc set_pheap pheap]. exists b. destruct (decide (b = a)) as [->|Hne'].
    + rewrite Ha in Hq. injection Hq as <-. exists p'. rewrite lookup_insert_eq. split_and!; [done|done|done|]. by apply Hlive.
    + exists q. by rewrite lookup_insert_ne.
  - cbn [put_proc set_pheap pheap services]. by rewrite dom_insert_lookup_L by (by eexists).
Qed.

Lemma services_ok s k : ptable_ok s → svc_ok k (dom (pheap s)) → ptable_ok (set_services k s).
Proof. intros [] Hk. by split. Qed.

Lemma proc_ok_flags p f : proc_ok p → (has f PROC_EXITED || has f PROC_PRESTART = true → idle p = true) → proc_ok (set_pflags f p).
Proof. intros [Hh Hi Ht Hn] Hf. split; [done| |done|done]. intros Hidle. by apply Hi, Hf. Qed.

(** ** Creation *)

Definition new_process (parent : option nat) (binary : Z) (args : argv_block) (pid : Z) : process :=
  Process parent binary args [] [] pid PROC_PRESTART [] [] (replicate SIG_COUNT SIG_DFL) 0.

Lemma new_process_ok parent binary args pid : proc_ok (new_process parent binary args pid).
Proof. split; [done|done|by intros ?%elem_of_nil|constructor]. Qed.

(** The table with a new process [a] below [b]. *)
Lemma add_child_ok s a b p q k : ptable_ok s → pheap s !! a = None → pheap s !! b = Some q → idle q = false → proc_ok p →
  p_pid p = pid_counter s → p_parent p = Some b → p_children p = [] → svc_ok k ({[a]} ∪ dom (pheap s)) →
  ptable_ok (PTable (procs s ++ [a]) (<[b := set_children (p_children q ++ [a]) q]> (<[a := p]> (pheap s))) (pid_counter s + 1) (cleanups s)
    (kernel_shutdown s) k).
Proof.
  intros [Hs Hd Hpid Hi Hpar Hch Hpr [Hnd Hcl] Hsv] Ha Hb Hidle Hp Epid Epar Ech Hk. assert (a ≠ b) as Hab by congruence.
  set (q' := set_children (p_children q ++ [a]) q). set (h := <[b := q']> (<[a := p]> (pheap s))).
  assert (∀ c r, h !! c = Some r → (c = a ∧ r = p) ∨ (c = b ∧ r = q') ∨ (c ≠ a ∧ c ≠ b ∧ pheap s !! c = Some r)) as Hback.
  { intros c r. unfold h. destruct (decide (c = b)) as [->|Hcb]; [rewrite lookup_insert_eq; intros [= <-]; by auto|]. rewrite lookup_insert_ne by done.
    destruct (decide (c = a)) as [->|Hca]; [rewrite lookup_insert_eq; intros [= <-]; by auto|]. rewrite lookup_insert_ne by done. by auto. }
  assert (h !! a = Some p) as Eha by by (unfold h; rewrite lookup_insert_ne, lookup_insert_eq).
  assert (h !! b = Some q') as Ehb by by (unfold h; rewrite lookup_insert_eq).
  assert (∀ c r, pheap s !! c = Some r → c ≠ b → h !! c = Some r) as Hfwd.
  { intros c r Hr Hcb. unfold h. rewrite !lookup_insert_ne by congruence. done. }
  assert (a ∉ p_children q) as Hnew by (intros Hin; destruct (Hch b q a Hb Hin) as (r&Hr&_); congruence).
  assert (∀ c, c ≠ a → match h !! c with Some r => p_pid r | None => 0 end = pid_of s c) as Eold.
  { intros c Hca. unfold h, pid_of. destruct (decide (c = b)) as [->|Hcb]; [by rewrite lookup_insert_eq, Hb|by rewrite !lookup_insert_ne by done]. }
  assert (a ∉ procs s) as Hna by (intros [r Hr]%Hd; congruence).
  split; cbn [procs pheap pid_counter cleanups services].
  - apply key_sorted_snoc.
    + unfold key_sorted in *. rewrite (list_fmap_ext _ (pid_of s)); [done|]. intros j c Hc. apply Eold. intros ->. apply Hna. by eapply list_elem_of_lookup_2.
    + apply Forall_forall. intros c Hc. unfold pid_of. cbn [pheap]. fold q' h. rewrite Eha, Eold by by intros ->. apply Hd in Hc as [r Hr].
      rewrite (pid_of_lookup _ _ _ Hr), Epid. by apply (Hpid c).
  - intros c. rewrite elem_of_app, Hd. unfold h. destruct (decide (c = b)) as [->|Hcb]; [rewrite lookup_insert_eq, Hb; split; [by eexists|left; by eexists]|]. rewrite lookup_insert_ne by done.
    destruct (decide (c = a)) as [->|Hca]; [rewrite lookup_insert_eq; split; [by eexists|right; by left]|]. rewrite lookup_insert_ne by done. set_solver.
  - intros c r [[-> ->]|[[-> ->]|(Hca&Hcb&Hr)]]%Hback; [|specialize (Hpid b q Hb); cbn [q' set_children p_pid]; lia|specialize (Hpid c r Hr); lia]. rewrite Epid.
    specialize (Hpid b q Hb). lia.
  - destruct Hi as (i&pi&l&El&Hpi&Ei&Ep). rewrite El. destruct (decide (i = b)) as [->|Hib].
    + replace pi with q in * by congruence. by exists b, q', (l ++ [a]).
    + exists i, pi, (l ++ [a]). split_and!; [done|by apply Hfwd|done|done].
  - intros c r [[-> ->]|[[-> ->]|(Hca&Hcb&Hr)]]%Hback Hne.
    + exists b, q'. split_and!; [done|done|]. cbn [q' set_children p_children]. set_solver.
    + destruct (Hpar b q Hb Hne) as (c&r&Er&Hr&Hin). destruct (decide (c = b)) as [->|Hcb]; [exists b, q'|exists c, r].
      * split_and!; [done|done|]. replace r with q in Hin by congruence. cbn [q' set_children p_children]. set_solver.
      * split_and!; [done|by apply Hfwd|done].
    + destruct (Hpar c r Hr Hne) as (d&t&Et&Ht&Hin). destruct (decide (d = b)) as [->|Hdb]; [exists b, q'|exists d, t].
      * split_and!; [done|done|]. replace t with q in Hin by congruence. cbn [q' set_children p_children]. set_solver.
      * split_and!; [done|by apply Hfwd|done].
  - assert (∀ c d r, pheap s !! c = Some r → p_parent r = Some d → ∃ r', h !! c = Some r' ∧ p_parent r' = Some d) as Hup.
    { intros c d r Hr Er. destruct (decide (c = b)) as [->|Hcb]; [exists q'; by replace r with q in Er by congruence|exists r; by auto]. }
    intros c r d [[-> ->]|[[-> ->]|(Hca&Hcb&Hr)]]%Hback Hin.
    + rewrite Ech in Hin. by apply elem_of_nil in Hin.
    + cbn [q' set_children p_children] in Hin. apply elem_of_app in Hin as [Hin| ->%list_elem_of_singleton]; [|by exists p].
      destruct (Hch b q d Hb Hin) as (t&Ht&Et). by apply (Hup _ _ t).
    + destruct (Hch c r d Hr Hin) as (t&Ht&Et). by apply (Hup _ _ t).
  - intros c r [[-> ->]|[[-> ->]|(Hca&Hcb&Hr)]]%Hback; [done| |by apply (Hpr c)]. destruct (Hpr b q Hb) as [Hh Hii Ht Hn]. split; [done| |done|].
    + intros Hi'. unfold idle in *. cbn [q' set_children p_flags] in Hi'. congruence.
    + cbn [q' set_children p_children]. apply NoDup_app. split_and!; [done|by intros ? ? ->%list_elem_of_singleton|apply NoDup_singleton].
  - split; [done|]. intros pid Hin. destruct (Hcl pid Hin) as (c&r&Hr&E&Hne&Hid). destruct (decide (c = b)) as [->|Hcb]; [exists b, q'|exists c, r].
    + by replace r with q in * by congruence.
    + split_and!; [by apply Hfwd|done|done|done].
  - unfold h. rewrite dom_insert_lookup_L, dom_insert_L by (rewrite lookup_insert_ne by done; by eexists). done.
Qed.

Definition may_have_child s (pid : Z) : Prop := ∀ b q, pheap s !! b = Some q → p_pid q = pid → idle q = false.

Lemma create_ok handle argmem array_ok parentpid binary argv s : ptable_ok s → (∀ a, handle = Some a → pheap s !! a = None) →
  may_have_child s parentpid → pid_counter s < INT_MAX →
  ∃ ec r s', proc_create_raw handle argmem array_ok parentpid binary argv s = Done (ec, r, s') ∧ ptable_ok s' ∧
    match r with
    | None => s' = s ∧ ec ≠ ECAUSE_OK
    | Some a => handle = Some a ∧ ec = ECAUSE_OK ∧ ∃ p b, pheap s' !! a = Some p ∧ p_pid p = pid_counter s ∧ p_parent p = Some b ∧
        has (p_flags p) PROC_PRESTART = true ∧ pid_of s b = parentpid
    end.
Proof.
  intros Hok Hfresh Hmay Hmax. unfold proc_create_raw. pose proof (get_unsafe_spec s parentpid Hok) as Hget.
  assert (pid_counter s ≠ 1) as Hn1. { destruct (pt_init s Hok) as (i&pi&l&_&Hpi&_). pose proof (pt_pids s Hok i pi Hpi). lia. }
  rewrite (proj2 (Z.eqb_neq _ _)) by done. cbn [mbind outcome_bind negb andb].
  destruct (proc_get_unsafe parentpid s) as [b|]; cbn [bool_decide]; [|by exists ECAUSE_NOTFOUND, None, s]. rewrite bool_decide_eq_false_2 by done.
  destruct handle as [a|]; [|by exists ECAUSE_NOMEM, None, s]. destruct (proc_setargs_raw_unsafe argmem argv) as [args|]; [|by exists ECAUSE_NOMEM, None, s].
  destruct Hget as (q&Hq&Eq). specialize (Hfresh a eq_refl). cbn [p_pid]. pose proof (binsearch_pid s (pid_counter s) Hok) as Hb. destruct (array_binsearch _ _) as [[] i].
  { destruct Hb as (c&p&_&Hp&E). pose proof (pt_pids s Hok c p Hp). lia. }
  destruct Hb as (_&Hi&_&Hhi). assert (drop i (procs s) = []) as Hdrop.
  { destruct (drop i (procs s)) as [|c l] eqn:E; [done|]. apply Forall_cons in Hhi as [Hc _]. assert (c ∈ procs s) as Hin.
    { rewrite <-(take_drop i (procs s)), E. set_solver. }
    apply (pt_dom s Hok) in Hin as [p Hp]. rewrite (pid_of_lookup _ _ _ Hp) in Hc. pose proof (pt_pids s Hok c p Hp). lia. }
  destruct (array_insert_spec array_ok (procs s) a i Hi) as [->|[_ ->]]; [|by exists ECAUSE_NOMEM, None, s]. cbn [negb].
  assert (take i (procs s) = procs s) as Etake by (rewrite <-(take_drop i (procs s)) at 2; by rewrite Hdrop, app_nil_r). rewrite Hdrop, Etake.
  rewrite (proj2 (Z.eqb_neq _ _)) by lia. fold (new_process (Some b) binary args (pid_counter s)). set (p := new_process _ _ _ _).
  unfold get_proc. cbn [set_pid_counter set_procs put_proc set_pheap pheap procs pid_counter cleanups kernel_shutdown services].
  assert (a ≠ b) as Hab by congruence. rewrite lookup_insert_ne, Hq by done. cbn [deref mbind outcome_bind put_proc set_pheap services pheap].
  change (services _) with (services s). destruct (create_law (services s) (dom (pheap s)) a (pt_services s Hok)) as (k&->&Hk); [by apply not_elem_of_dom|]. cbn [mbind outcome_bind].
  eexists _, _, _. split; [reflexivity|]. rewrite dlist_append_spec. split.
  - apply (add_child_ok s a b p q k Hok Hfresh Hq); [by apply (Hmay b q)|apply new_process_ok|done..].
  - split_and!; [done|done|]. exists p, b. rewrite (pid_of_lookup _ _ _ Hq). split_and!; [|done..].
    unfold set_services, put_proc, set_pheap, set_pid_counter, set_procs. cbn [pheap]. by rewrite lookup_insert_ne, lookup_insert_eq.
Qed.

(** ** Deletion *)

(** The table without a process [a] that has no children. *)
Lemma remove_process_ok s a b i p q k : ptable_ok s → pheap s !! a = Some p → p_children p = [] → p_pid p ≠ 1 → p_pid p ∉ cleanups s →
  p_parent p = Some b → pheap s !! b = Some q → procs s !! i = Some a → svc_ok k (dom (pheap s) ∖ {[a]}) →
  ptable_ok (PTable (delete i (procs s)) (delete a (<[b := set_children (dlist_remove (p_children q) a) q]> (pheap s))) (pid_counter s) (cleanups s)
    (kernel_shutdown s) k).
Proof.
  intros Hok Ha Hleaf Hne1 Hcln Epar Hb Hi Hk. pose proof Hok as [Hs Hd Hpid Hini Hpar Hch Hpr [Hnd Hcl] Hsv].
  assert (a ∈ p_children q) as Hin. { destruct (Hpar a p Ha Hne1) as (c&r&Er&Hr&Hin). replace c with b in Hr by congruence. by replace q with r by congruence. }
  assert (a ≠ b) as Hab. { intros ->. replace q with p in Hin by congruence. rewrite Hleaf in Hin. by apply elem_of_nil in Hin. }
  apply list_elem_of_split in Hin as (l1&l2&El). pose proof (ok_nodup q (Hpr b q Hb)) as Hndq. rewrite El in Hndq.
  assert (a ∉ l1 ∧ a ∉ l2) as [Hn1 Hn2].
  { apply NoDup_app in Hndq as (_&Hx&Hy). apply NoDup_cons in Hy as [Hy _]. split; [intros Hin; apply (Hx a Hin); by left|done]. }
  rewrite El, dlist_remove_spec by done. set (q' := set_children (l1 ++ l2) q). set (h := delete a (<[b := q']> (pheap s))).
  assert (∀ c, c ∈ l1 ++ l2 ↔ c ∈ p_children q ∧ c ≠ a) as Hl. { intros c. rewrite El, !elem_of_app, elem_of_cons. split; [intros [?|?]; split; [by auto|by intros ->|by auto|by intros ->]|tauto]. }
  assert (∀ c r, h !! c = Some r → c ≠ a ∧ ((c = b ∧ r = q') ∨ (c ≠ b ∧ pheap s !! c = Some r))) as Hback.
  { intros c r. unfold h. rewrite lookup_delete_Some. intros [Hca Hr]. split; [done|]. destruct (decide (c = b)) as [->|Hcb].
    - rewrite lookup_insert_eq in Hr. injection Hr as <-. by left.
    - rewrite lookup_insert_ne in Hr by done. by right. }
  assert (h !! b = Some q') as Ehb by (unfold h; by rewrite lookup_delete_ne, lookup_insert_eq).
  assert (∀ c r, pheap s !! c = Some r → c ≠ a → c ≠ b → h !! c = Some r) as Hfwd.
  { intros c r Hr Hca Hcb. unfold h. by rewrite lookup_delete_ne, lookup_insert_ne. }
  assert (∀ c, c ≠ a → pid_of (PTable (delete i (procs s)) h (pid_counter s) (cleanups s) (kernel_shutdown s) k) c = pid_of s c) as Epid.
  { intros c Hca. unfold pid_of, h. cbn [pheap]. rewrite lookup_delete_ne by done. destruct (decide (c = b)) as [->|Hcb]; [by rewrite lookup_insert_eq, Hb|by rewrite lookup_insert_ne]. }
  assert (∀ c, c ∈ delete i (procs s) ↔ c ∈ procs s ∧ c ≠ a) as Hdel by (intros c; by apply (key_sorted_elem_delete (pid_of s))).
  split; cbn [procs pheap pid_counter cleanups services]; fold q' h.
  - pose proof (key_sorted_delete (pid_of s) (procs s) i Hs) as Hs'. unfold key_sorted in *. rewrite (list_fmap_ext _ (pid_of s)); [done|].
    intros j c Hc. apply Epid. intros ->. apply list_elem_of_lookup_2, Hdel in Hc as [_ ?]. done.
  - intros c. rewrite Hdel, Hd. unfold h. destruct (decide (c = a)) as [->|Hca]; [rewrite lookup_delete_eq; split; [by intros [_ ?]|by intros [? ?]]|].
    rewrite lookup_delete_ne by done. destruct (decide (c = b)) as [->|Hcb]; [rewrite lookup_insert_eq, Hb; split; [by eexists|by split; [eexists|]]|].
    rewrite lookup_insert_ne by done. tauto.
  - intros c r [Hca [[-> ->]|[Hcb Hr]]]%Hback; [by apply (Hpid b q)|by apply (Hpid c)].
  - destruct Hini as (i0&pi&l&Ep&Hpi&Ei&Epi). assert (i0 ≠ a) as Hia by congruence. destruct i as [|i]; [rewrite Ep in Hi; simpl in Hi; congruence|].
    rewrite Ep. cbn [delete list_delete]. destruct (decide (i0 = b)) as [->|Hib]; [exists b, q', (delete i l)|exists i0, pi, (delete i l)].
    + replace pi with q in * by congruence. done.
    + split_and!; [done|by apply Hfwd|done|done].
  - assert (∀ c r d, pheap s !! c = Some r → p_parent r = Some d → c ≠ a → p_pid r ≠ 1 → ∃ d' t, Some d = Some d' ∧ h !! d' = Some t ∧ c ∈ p_children t) as Hup.
    { intros c r d Hr Er Hca Hr1. destruct (Hpar c r Hr Hr1) as (d'&t&Et&Ht&Hct). replace d' with d in Ht by congruence.
      assert (d ≠ a) as Hda. { intros ->. replace t with p in Hct by congruence. rewrite Hleaf in Hct. by apply elem_of_nil in Hct. }
      destruct (decide (d = b)) as [->|Hdb]; [exists b, q'|exists d, t].
      - replace t with q in Hct by congruence. split_and!; [done|done|]. cbn [q' set_children p_children]. by apply Hl.
      - split_and!; [done|by apply Hfwd|done]. }
    intros c r [Hca [[-> ->]|[Hcb Hr]]]%Hback Hne.
    + destruct (Hpar b q Hb Hne) as (d&t&Et&_). destruct (Hup b q d Hb Et Hca Hne) as (d'&t'&[= <-]&?&?). by exists d, t'.
    + destruct (Hpar c r Hr Hne) as (d&t&Et&_). destruct (Hup c r d Hr Et Hca Hne) as (d'&t'&[= <-]&?&?). by exists d, t'.
  - assert (∀ c d r, pheap s !! c = Some r → c ≠ a → p_parent r = Some d → ∃ r', h !! c = Some r' ∧ p_parent r' = Some d) as Hup.
    { intros c d r Hr Hca Er. destruct (decide (c = b)) as [->|Hcb]; [exists q'; by replace r with q in Er by congruence|exists r; by auto]. }
    intros c r d [Hca [[-> ->]|[Hcb Hr]]]%Hback Hin.
    + cbn [q' set_children p_children] in Hin. apply Hl in Hin as [Hin Hda]. destruct (Hch b q d Hb Hin) as (t&Ht&Et). by apply (Hup _ _ t).
    + destruct (Hch c r d Hr Hin) as (t&Ht&Et). apply (Hup _ _ t); [done| |done]. intros ->. apply Hcb. congruence.
  - intros c r [Hca [[-> ->]|[Hcb Hr]]]%Hback; [|by apply (Hpr c)]. destruct (Hpr b q Hb) as [Hh Hii Ht Hn]. split; [done| |done|].
    + intros Hi'. destruct (Hii Hi') as [? E]. rewrite El in E. by destruct l1.
    + cbn [q' set_children p_children]. rewrite <-Permutation_middle in Hndq. by apply NoDup_cons in Hndq as [_ ?].
  - split; [done|]. intros pid Hin. destruct (Hcl pid Hin) as (c&r&Hr&E&Hne&Hid). assert (c ≠ a) as Hca by (intros ->; apply Hcln; congruence).
    destruct (decide (c = b)) as [->|Hcb]; [exists b, q'|exists c, r].
    + by replace r with q in * by congruence.
    + split_and!; [by apply Hfwd|done|done|done].
  - unfold h. rewrite dom_delete_L, dom_insert_lookup_L by (by eexists). done.
Qed.

Lemma join_loop_ok A : ∀ tids k, svc_ok k A → ∃ k', join_loop tids k = Done k' ∧ svc_ok k' A.
Proof.
  induction tids as [|tid tids IH]; intros k Hk; cbn [join_loop]; [by exists k|]. destruct (join_law k A tid Hk) as (k'&->&Hk'). by apply IH.
Qed.

(** The state of a process that ended. *)
Definition ended_process p : process :=
  set_pflags (Z.ldiff (Z.lor (Z.lor (p_flags p) PROC_EXITING) PROC_EXITED) (Z.lor PROC_EXITING PROC_RUNNING)) (set_children [] (set_pthreads [] p)).

Lemma put_put s a p p' : put_proc a p (put_proc a p' s) = put_proc a p s.
Proof. unfold put_proc, set_pheap. cbn [pheap procs pid_counter cleanups kernel_shutdown services]. by rewrite insert_insert_eq. Qed.

Lemma get_put s a p : get_proc a (put_proc a p s) = Done p.
Proof. unfold get_proc, put_proc, set_pheap. cbn [pheap]. by rewrite lookup_insert_eq. Qed.

Lemma get_put_ne s a b p : a ≠ b → get_proc b (put_proc a p s) = get_proc b s.
Proof. intros Hab. unfold get_proc, put_proc, set_pheap. cbn [pheap]. by rewrite lookup_insert_ne. Qed.

Lemma get_Some s a p : pheap s !! a = Some p → get_proc a s = Done p.
Proof. unfold get_proc. by intros ->. Qed.

Lemma put_same s a p : pheap s !! a = Some p → put_proc a p s = s.
Proof. intros E. unfold put_proc, set_pheap. rewrite insert_id by done. by destruct s. Qed.

(** Ending a process without children. *)
Lemma delete_runtime_ok cur a p s : ptable_ok s → pheap s !! a = Some p → p_pid p ≠ 1 → p_pid p ∉ cleanups s → p_children p = [] → cur ∉ p_threads p →
  ∃ s', proc_delete_runtime_raw cur a s = Done s' ∧ ptable_ok s' ∧ cleanups s' = cleanups s ∧ procs s' = procs s ∧ pid_counter s' = pid_counter s ∧
    pheap s' = <[a := if has (p_flags p) PROC_EXITED then p else ended_process p]> (pheap s).
Proof.
  intros Hok Ha Hne Hcl Hleaf Hcur. unfold proc_delete_runtime_raw. rewrite (get_Some _ _ _ Ha). cbn [mbind outcome_bind]. rewrite bool_decide_eq_true_2 by done.
  cbn [assert_or_panic mbind outcome_bind]. rewrite (proj2 (Z.eqb_neq _ _)) by done. cbn [negb orb assert_or_panic mbind outcome_bind].
  destruct (has (p_flags p) PROC_EXITED) eqn:Hex; [exists s; split_and!; [done..|by rewrite insert_id]|].
  set (p1 := set_pflags _ p). set (s1 := put_proc a p1 s). destruct (join_loop_ok (dom (pheap s)) (p_threads p) (services s) (pt_services s Hok)) as (k&Ek&Hk).
  change (services s1) with (services s). rewrite Ek. cbn [mbind outcome_bind]. assert (get_proc a s1 = Done p1) as -> by apply get_put. cbn [mbind outcome_bind].
  change (p_pid p1) with (p_pid p). rewrite (proj2 (Z.eqb_neq _ _)) by done. set (p2 := set_pthreads [] p1).
  unfold s1. rewrite put_put. set (s2 := set_services k _). destruct (pt_init s Hok) as (i&pi&l&El&Hpi&Ei&Epi).
  assert (i ≠ a) as Hia by congruence. unfold adopt_children. change (procs s2) with (procs s). rewrite El. cbn [lookup list_lookup deref mbind outcome_bind].
  assert (∀ b, get_proc b s2 = get_proc b (put_proc a p2 s)) as Eg by done. rewrite !Eg, get_put, get_put_ne, (get_Some _ _ _ Hpi) by done. cbn [mbind outcome_bind].
  rewrite Ei. cbn [Z.eqb Pos.eqb assert_or_panic mbind outcome_bind]. change (p_children p2) with (p_children p). rewrite Hleaf, dlist_concat_spec, app_nil_r.
  cbn [mbind outcome_bind]. set (s3 := put_proc a _ _). change (services s3) with k.
  destruct (unmap_law k (dom (pheap s)) a Hk) as (k'&->&Hk'); [apply elem_of_dom; by eexists|]. cbn [mbind outcome_bind]. set (p3 := set_children [] p2) in *.
  assert (get_proc a s3 = Done p3) as -> by apply get_put. cbn [mbind outcome_bind]. unfold s3. rewrite put_put. change (p_flags p3) with (Z.lor (p_flags p) PROC_EXITING).
  fold (ended_process p). eexists. split; [reflexivity|]. set (pi' := set_children (p_children pi) pi). assert (pi' = pi) as Epi' by by destruct pi.
  assert (pheap (set_services k' (put_proc a (set_pflags (Z.ldiff (Z.lor (Z.lor (p_flags p) PROC_EXITING) PROC_EXITED) (Z.lor PROC_EXITING PROC_RUNNING)) p3) (put_proc i pi' s2))) =
    <[a := ended_process p]> (pheap s)) as Eh.
  { rewrite Epi'. unfold s2, set_services, put_proc, set_pheap. cbn [pheap]. rewrite (insert_insert_ne _ a i), insert_insert_eq, insert_insert_ne by done.
    rewrite (insert_id (pheap s) i pi) by done. done. }
  rewrite Eh. split_and!; [|done..].
  assert (ptable_ok (put_proc a (ended_process p) s)) as Hok'.
  { apply (put_ok s a p); [done|done|done|done|by cbn; rewrite Hleaf| |done]. destruct (pt_procs s Hok a p Ha) as [Hh Hi Ht Hn]. split; [done|done|by intros ?%elem_of_nil|constructor]. }
  apply (services_ok _ k') in Hok'; [|cbn [put_proc set_pheap pheap]; by rewrite dom_insert_lookup_L by (by eexists)].
  unfold set_services, put_proc, set_pheap in Eh, Hok' |- *. cbn [pheap procs pid_counter cleanups kernel_shutdown services s2] in *. rewrite Eh. exact Hok'.
Qed.

Lemma parent_of s a p : ptable_ok s → pheap s !! a = Some p → p_pid p ≠ 1 → ∃ b q, p_parent p = Some b ∧ pheap s !! b = Some q ∧ a ∈ p_children q.
Proof. intros Hok. by apply (pt_parent s Hok). Qed.

(** Deleting a process without children. *)
Lemma delete_ok cur only_prestart a p s : ptable_ok s → pheap s !! a = Some p → p_pid p ≠ 1 → p_pid p ∉ cleanups s → p_children p = [] →
  cur ∉ p_threads p → only_prestart = false ∨ has (p_flags p) PROC_PRESTART = true →
  ∃ s', proc_delete_impl cur (p_pid p) only_prestart s = Done (true, s') ∧ ptable_ok s' ∧ cleanups s' = cleanups s ∧ pid_counter s' = pid_counter s ∧
    pheap s' !! a = None ∧ ∀ c, c ≠ a → p_parent p ≠ Some c → pheap s' !! c = pheap s !! c.
Proof.
  intros Hok Ha Hne Hcl Hleaf Hcur Hpre. unfold proc_delete_impl. pose proof (binsearch_pid s (p_pid p) Hok) as Hb.
  destruct (array_binsearch _ _) as [[] i]; cbn [negb]; [|by destruct (proj1 Hb a p)]. destruct Hb as (a'&p'&Hi&Ha'&E).
  replace a' with a in * by by apply (pid_inj s a a' p p'). rewrite Hi. cbn [deref mbind outcome_bind]. rewrite (get_Some _ _ _ Ha). cbn [mbind outcome_bind].
  assert (only_prestart && negb (has (p_flags p) PROC_PRESTART) = false) as -> by (destruct Hpre as [->| ->]; [done|by rewrite andb_false_r]).
  destruct (delete_runtime_ok cur a p s Hok Ha Hne Hcl Hleaf Hcur) as (s1&->&Hok1&Ecl&Epr&Ecnt&Eh). cbn [mbind outcome_bind].
  set (p1 := if has (p_flags p) PROC_EXITED then p else ended_process p) in *.
  assert (pheap s1 !! a = Some p1) as Ha1 by (rewrite Eh; by rewrite lookup_insert_eq). rewrite (get_Some _ _ _ Ha1). cbn [mbind outcome_bind].
  assert (p_parent p1 = p_parent p ∧ p_pid p1 = p_pid p ∧ p_children p1 = []) as (Epar&Epid&Ech) by (unfold p1; destruct (has (p_flags p) PROC_EXITED); split_and!; done).
  destruct (parent_of s1 a p1 Hok1 Ha1) as (b&q&Eb&Hq&Hin); [congruence|]. rewrite Eb, (get_Some _ _ _ Hq). cbn [mbind outcome_bind].
  eexists. split; [reflexivity|]. rewrite <-Epr in Hi.
  pose proof (remove_process_ok s1 a b i p1 q (svc_memprotect_destroy a (services s1)) Hok1 Ha1 Ech ltac:(congruence) ltac:(congruence) Eb Hq Hi) as Hrem.
  assert (a ≠ b) as Hab. { intros ->. replace q with p1 in Hin by congruence. rewrite Ech in Hin. by apply elem_of_nil in Hin. }
  unfold set_procs, set_pheap, set_services, put_proc, set_pheap. cbn [pheap procs pid_counter cleanups kernel_shutdown services].
  rewrite array_remove_spec by by eapply lookup_lt_Some. split_and!; [|by rewrite Ecl|by rewrite Ecnt|by rewrite lookup_delete_eq|].
  - apply Hrem. apply destroy_law; [apply Hok1|]. apply elem_of_dom. by eexists.
  - intros c Hca Hcb. rewrite lookup_delete_ne, lookup_insert_ne, Eh, lookup_insert_ne by congruence. done.
Qed.

(** A change of the list of tasks. *)
Lemma cleanups_ok s l : ptable_ok s → NoDup l → (∀ pid, pid ∈ l → ∃ a p, pheap s !! a = Some p ∧ p_pid p = pid ∧ pid ≠ 1 ∧ idle p = false) →
  ptable_ok (set_cleanups l s).
Proof. intros [] Hnd Hl. by split. Qed.

(** The flags that a process gets when it is told to exit. *)
Lemma exiting_ok s a p code : ptable_ok s → pheap s !! a = Some p → p_pid p ≠ 1 → p_pid p ∉ cleanups s → idle p = false →
  ptable_ok (add_cleanup (p_pid p) (put_proc a (set_state_code code (set_pflags (Z.lor (p_flags p) PROC_EXITING) p)) s)).
Proof.
  intros Hok Ha Hne Hcl Hidle. set (p' := set_state_code _ _).
  assert (idle p' = false) as Hidle'. { unfold idle in *. cbn [p' set_state_code set_pflags p_flags]. simpl_flags. by rewrite !orb_false_r. }
  assert (ptable_ok (put_proc a p' s)) as Hok'.
  { apply (put_ok s a p); [done|done|done|done|done| |done]. destruct (pt_procs s Hok a p Ha) as [Hh Hi Ht Hn]. split; [done|by rewrite Hidle'|done|done]. }
  apply cleanups_ok; [done| |].
  - apply NoDup_app. split_and!; [apply Hok|by intros ? ? ->%list_elem_of_singleton|apply NoDup_singleton].
  - intros pid [Hin| ->%list_elem_of_singleton]%elem_of_app; [by apply (pt_cleanups _ Hok')|]. exists a, p'. cbn [put_proc set_pheap pheap]. by rewrite lookup_insert_eq.
Qed.

Lemma exit_ok s a p code : ptable_ok s → pheap s !! a = Some p → p_pid p ≠ 1 → p_pid p ∉ cleanups s → idle p = false →
  ∃ s', proc_exit_self a code s = Done s' ∧ ptable_ok s' ∧ cleanups s' = cleanups s ++ [p_pid p] ∧
    pheap s' = <[a := set_state_code code (set_pflags (Z.lor (p_flags p) PROC_EXITING) p)]> (pheap s) ∧ pid_counter s' = pid_counter s.
Proof.
  intros Hok Ha Hne Hcl Hidle. unfold proc_exit_self. rewrite (get_Some _ _ _ Ha). cbn [mbind outcome_bind]. pose proof (exiting_ok s a p code Hok Ha Hne Hcl Hidle) as Hok'.
  change (p_pid (set_state_code _ _)) with (p_pid p). destruct (exit_law _ _ (pt_services _ Hok')) as (k&->&Hk). cbn [mbind outcome_bind].
  eexists. split; [reflexivity|]. split_and!; [|done..]. by apply services_ok.
Qed.

(** A pending signal. *)
Lemma signal_ok s mem_ok a p signum : ptable_ok s → pheap s !! a = Some p → signum ≠ SIGKILL →
  ∃ s', proc_raise_signal_raw mem_ok a signum s = Done s' ∧ ptable_ok s' ∧ cleanups s' = cleanups s ∧ pid_counter s' = pid_counter s ∧
    pheap s' = if mem_ok then <[a := set_pflags (Z.lor (p_flags p) PROC_SIGPEND) (set_sigpending (p_sigpending p ++ [signum]) p)]> (pheap s) else pheap s.
Proof.
  intros Hok Ha Hn. unfold proc_raise_signal_raw. rewrite (proj2 (Z.eqb_neq _ _)) by done. rewrite (get_Some _ _ _ Ha). cbn [mbind outcome_bind].
  destruct mem_ok; cbn [negb]; [|by exists s]. eexists. split; [reflexivity|]. rewrite dlist_append_spec. split_and!; [|done..].
  set (p' := set_pflags _ _). assert (idle p' = idle p) as Ei by (unfold idle; cbn [p' set_pflags p_flags]; simpl_flags; by rewrite !orb_false_r).
  apply (put_ok s a p); [done|done|done|done|done| |].
  - destruct (pt_procs s Hok a p Ha) as [Hh Hi Ht Hnd]. split; [done|by rewrite Ei|done|done].
  - intros Hin. rewrite Ei. destruct (proj2 (pt_cleanups s Hok) _ Hin) as (b&q&Hq&E&_&Hid). replace q with p in Hid; [done|]. assert (a = b) as <- by by apply (pid_inj s a b p q). congruence.
Qed.

(** The next task of the housekeeping thread. *)
Lemma cleanup_ok s mem_ok pid l a p : ptable_ok s → cleanups s = pid :: l → pheap s !! a = Some p → p_pid p = pid → p_children p = [] →
  ∃ s', run_cleanup mem_ok hk_tid s = Done s' ∧ ptable_ok s' ∧ cleanups s' = l ∧ pid_counter s' = pid_counter s ∧
    ∃ b q h, p_parent p = Some b ∧ pheap s !! b = Some q ∧ a ≠ b ∧ p_sighandlers q !! Z.to_nat SIGCHLD = Some h ∧
    if h =? SIG_IGN then pheap s' !! a = None
    else pheap s' = (if mem_ok then <[b := set_pflags (Z.lor (p_flags q) PROC_SIGPEND) (set_sigpending (p_sigpending q ++ [SIGCHLD]) q)]> else id)
      (<[a := set_pflags (Z.lor (p_flags (ended_process p)) PROC_STATECHG) (ended_process p)]> (pheap s)).
Proof.
  intros Hok Ecl Ha Epid Hleaf. unfold run_cleanup. rewrite Ecl. pose proof (pt_cleanups s Hok) as [Hnd Hcl]. rewrite Ecl in Hnd, Hcl.
  destruct (Hcl pid) as (a'&p'&Ha'&Epid'&Hne&Hidle); [by left|]. assert (a = a') as <- by (apply (pid_inj s a a' p p'); congruence). replace p' with p in * by congruence. clear Ha' Epid' p'.
  apply NoDup_cons in Hnd as [Hnot Hnd]. set (s0 := set_cleanups l s).
  assert (ptable_ok s0) as Hok0 by (apply cleanups_ok; [done|done|intros x Hx; apply Hcl; by right]).
  assert (pheap s0 !! a = Some p) as Ha0 by done. unfold clean_up_from_housekeeping. rewrite <-Epid, (get_unsafe_found s0 a p Hok0 Ha0). cbn [deref mbind outcome_bind].
  destruct (delete_runtime_ok hk_tid a p s0) as (s1&->&Hok1&Ecl1&Epr1&Ecnt1&Eh1); [done|done|congruence|by rewrite Epid|done|by apply (pt_procs s Hok a p Ha)|].
  unfold idle in Hidle. apply orb_false_iff in Hidle as [Hex Hpre]. rewrite Hex in Eh1. cbn [mbind outcome_bind]. set (p1 := ended_process p) in *.
  assert (pheap s1 !! a = Some p1) as Ha1 by (rewrite Eh1; by rewrite lookup_insert_eq). rewrite (get_Some _ _ _ Ha1). cbn [mbind outcome_bind].
  destruct (parent_of s a p Hok Ha) as (b&q&Eb&Hq&Hin); [congruence|]. change (p_parent p1) with (p_parent p). rewrite Eb.
  assert (a ≠ b) as Hab. { intros ->. replace q with p in Hin by congruence. rewrite Hleaf in Hin. by apply elem_of_nil in Hin. }
  assert (pheap s1 !! b = Some q) as Hq1 by (rewrite Eh1; by rewrite lookup_insert_ne). rewrite (get_Some _ _ _ Hq1). cbn [mbind outcome_bind].
  destruct (lookup_lt_is_Some_2 (p_sighandlers q) (Z.to_nat SIGCHLD)) as [h Hh]. { rewrite (ok_handlers _ (pt_procs s Hok b q Hq)). by vm_compute; lia. }
  rewrite Hh. cbn [deref mbind outcome_bind]. destruct (h =? SIG_IGN) eqn:Eign.
  - destruct (delete_ok hk_tid false a p1 s1) as (s2&E2&Hok2&Ecl2&Ecnt2&Hgone&_); [done|done|by rewrite <-Epid in Hne|rewrite Ecl1; by rewrite <-Epid in Hnot|done|by intros ?%elem_of_nil|by left|].
    unfold proc_delete. change (p_pid p) with (p_pid p1). rewrite E2. cbn [mbind outcome_bind]. exists s2. split_and!; [done|done|by rewrite Ecl2, Ecl1|by rewrite Ecnt2, Ecnt1|].
    exists b, q, h. by rewrite Eign.
  - set (p2 := set_pflags _ p1). set (s2 := put_proc a p2 s1).
    assert (ptable_ok s2) as Hok2.
    { apply (put_ok s1 a p1); [done|done|done|done|done| |rewrite Ecl1; by change (p_pid p1) with (p_pid p); rewrite Epid]. split; [by apply (pt_procs s Hok a p Ha)|done|by intros ?%elem_of_nil|constructor]. }
    assert (pheap s2 !! b = Some q) as Hq2 by (unfold s2, put_proc, set_pheap; cbn [pheap]; by rewrite lookup_insert_ne).
    destruct (signal_ok s2 mem_ok b q SIGCHLD Hok2 Hq2 ltac:(done)) as (s3&->&Hok3&Ecl3&Ecnt3&Eh3). exists s3.
    split_and!; [done|done|by rewrite Ecl3; cbn; rewrite Ecl1|by rewrite Ecnt3; cbn; rewrite Ecnt1|]. exists b, q, h. rewrite Eign. split_and!; [done|done|done|done|].
    rewrite Eh3. unfold s2, put_proc, set_pheap. cbn [pheap]. rewrite Eh1, insert_insert_eq. by destruct mem_ok.
Qed.

(** A process with a task of the housekeeping thread is not idle. *)
Lemma cleanup_live s a p : ptable_ok s → pheap s !! a = Some p → p_pid p ∈ cleanups s → idle p = false.
Proof.
  intros Hok Ha Hin. destruct (proj2 (pt_cleanups s Hok) _ Hin) as (b&q&Hq&E&_&Hid). assert (a = b) as <- by by apply (pid_inj s a b p q). congruence.
Qed.

(** ** Starting *)

Lemma start_ok grow a p s : ptable_ok s → pheap s !! a = Some p →
  ∃ ec s', proc_start_raw grow a s = Done (ec, s') ∧ ptable_ok s' ∧ cleanups s' = cleanups s ∧ pid_counter s' = pid_counter s ∧
    (ec = ECAUSE_OK → has (p_flags p) PROC_PRESTART = true ∧ ∃ tid, pheap s' !! a = Some (set_pflags PROC_RUNNING (set_pthreads (p_threads p ++ [tid]) p))) ∧
    (has (p_flags p) PROC_PRESTART = false → ec = ECAUSE_STATE).
Proof.
  intros Hok Ha. unfold proc_start_raw. rewrite (get_Some _ _ _ Ha). cbn [mbind outcome_bind]. set (p1 := set_pflags _ p). set (s1 := put_proc a p1 s).
  pose proof (pt_procs s Hok a p Ha) as [Hh Hi Ht Hn].
  assert (idle p1 = has (p_flags p) PROC_EXITED) as Ei1. { unfold idle. cbn [p1 set_pflags p_flags]. simpl_flags. by rewrite !andb_true_r, andb_false_r, orb_false_r. }
  assert (ptable_ok s1) as Hok1.
  { apply (put_ok s a p); [done|done|done|done|done| |].
    - split; [done| |done|done]. rewrite Ei1. intros E. apply Hi. unfold idle. by rewrite E.
    - intros Hin%(cleanup_live s a p Hok Ha). unfold idle in Hin. apply orb_false_iff in Hin as [E _]. by rewrite Ei1. }
  destruct (has (p_flags p) PROC_PRESTART) eqn:Hpre; cbn [negb]; [|eexists _, s1; by split_and!].
  destruct (load_law (services s1) _ (p_pid p) (p_binary p) (pt_services s1 Hok1)) as (res&k&->&Hk). cbn [mbind outcome_bind].
  pose proof (services_ok s1 k Hok1 Hk) as Hok2. set (s2 := set_services k s1) in *.
  destruct res as [| | |entry]; try (by eexists _, s2; split_and!). unfold proc_create_thread_raw.
  destruct grow; cbn [negb mbind outcome_bind]; cycle 1.
  { cbn [Z.eqb]. eexists _, _. split; [reflexivity|]. split_and!; [|done..]. apply services_ok; [done|]. apply unload_law, Hok2. }
  destruct (new_law (services s2) _ a entry (pt_services s2 Hok2)) as (tid&k'&->&Hk'&Htid).
  { apply elem_of_dom. exists p1. cbn [s2 s1 set_services put_proc set_pheap pheap]. by rewrite lookup_insert_eq. }
  cbn [mbind outcome_bind]. set (s3 := set_services k' s2). assert (∀ b, get_proc b s3 = get_proc b (put_proc a p1 s)) as Eg by done.
  destruct (tid =? 0) eqn:Et0.
  { eexists _, _. cbn [mbind outcome_bind Z.eqb]. split; [reflexivity|]. split_and!; [|done..]. apply services_ok; [by apply services_ok|]. apply unload_law, Hk'. }
  rewrite Eg, get_put. cbn [mbind outcome_bind]. rewrite Et0. rewrite get_put. cbn [mbind outcome_bind]. rewrite put_put. set (p4 := set_pflags PROC_RUNNING _).
  change (services (put_proc a p4 s3)) with k'. destruct (resume_law k' _ tid Hk') as (k4&->&Hk4). cbn [mbind outcome_bind].
  assert (ptable_ok (put_proc a p4 s)) as Hok4.
  { apply (put_ok s a p); [done|done|done|done|done| |done]. split; [done|done| |done]. cbn [p4 set_pflags set_pthreads p_threads p1].
    intros [?|?%list_elem_of_singleton]%elem_of_app; [done|congruence]. }
  assert (set_services k4 (put_proc a p4 s3) = set_services k4 (put_proc a p4 s)) as ->.
  { unfold s3, s2, s1, set_services, put_proc, set_pheap. cbn [pheap procs pid_counter cleanups kernel_shutdown services]. by rewrite insert_insert_eq. }
  eexists _, _. split; [reflexivity|]. split_and!; [|done|done| |done].
  - apply services_ok; [done|]. cbn [s2 s1 set_services put_proc set_pheap pheap] in *. by rewrite dom_insert_lookup_L in * by (by eexists).
  - intros _. split; [done|]. exists tid. cbn [set_services put_proc set_pheap pheap]. by rewrite lookup_insert_eq.
Qed.

(** ** Waiting *)

Definition claims pid options p : bool := snd (wait_match pid options p) && has (p_flags p) PROC_STATECHG.

Lemma wait_scan_spec pid options s : ∀ l eligible, (∀ c, c ∈ l → is_Some (pheap s !! c)) →
  ∃ res s', wait_scan pid options l eligible s = Done (res, s') ∧
    match res with
    | WaitNone _ => s' = s ∧ ∀ c p, c ∈ l → pheap s !! c = Some p → claims pid options p = false
    | WaitFound pid' status ex => ∃ c p, c ∈ l ∧ pheap s !! c = Some p ∧ claims pid options p = true ∧ pid' = p_pid p ∧ status = p_state_code p ∧
        ex = has (p_flags p) PROC_EXITED ∧ s' = put_proc c (set_pflags (Z.ldiff (p_flags p) PROC_STATECHG) p) s
    end.
Proof.
  induction l as [|c l IH]; intros el Hl; cbn [wait_scan]; [eexists _, s; split; [reflexivity|]; split; [done|]; by intros ? ? ?%elem_of_nil|].
  destruct (Hl c) as [p Hp]; [by left|]. rewrite (get_Some _ _ _ Hp). cbn [mbind outcome_bind]. destruct (wait_match pid options p) as [ne nm] eqn:Em.
  destruct (nm && has (p_flags p) PROC_STATECHG) eqn:Ec.
  - eexists _, _. split; [reflexivity|]. exists c, p. split_and!; [by left|done|by unfold claims; rewrite Em|done|done| |done]. cbn [set_pflags p_flags]. simpl_flags. by rewrite andb_true_r.
  - destruct (IH (el || ne)) as (res&s'&E&Hres); [intros ? ?; apply Hl; by right|]. exists res, s'. split; [done|]. destruct res as [pid' st ex|el'].
    + destruct Hres as (c'&p'&Hc'&Hrest). exists c', p'. split; [by right|done].
    + destruct Hres as [-> Hnone]. split; [done|]. intros c' p' [->|Hc']%elem_of_cons Hp'; [|by apply (Hnone c')]. replace p' with p by congruence. unfold claims. by rewrite Em.
Qed.

Lemma child_not_init s a p c q : ptable_ok s → pheap s !! a = Some p → c ∈ p_children p → pheap s !! c = Some q → p_parent q = Some a ∧ p_pid q ≠ 1.
Proof.
  intros Hok Ha Hc Hq. destruct (pt_children s Hok a p c Ha Hc) as (q'&Hq'&Eq). replace q' with q in Eq by congruence. split; [done|]. intros E1.
  destruct (pt_init s Hok) as (i&pi&l&_&Hpi&Ei&Epi). assert (c = i) as -> by (apply (pid_inj s c i q pi); congruence). congruence.
Qed.

Lemma wait_ok cur a p pid options s : ptable_ok s → pheap s !! a = Some p →
  ∃ res s', syscall_proc_waitpid cur a pid options s = Done (res, s') ∧ ptable_ok s' ∧ cleanups s' = cleanups s ∧ pid_counter s' = pid_counter s.
Proof.
  intros Hok Ha. unfold syscall_proc_waitpid. destruct (has options WNOHANG); [by eexists _, s|]. rewrite (get_Some _ _ _ Ha). cbn [mbind outcome_bind].
  destruct (wait_scan_spec pid options s (p_children p) false) as (res&s1&->&Hres).
  { intros c Hc. destruct (pt_children s Hok a p c Ha Hc) as (q&Hq&_). by eexists. }
  cbn [mbind outcome_bind]. destruct res as [pid' status ex|el]; [|destruct Hres as [-> _]; by eexists _, s].
  destruct Hres as (c&q&Hc&Hq&Hcl&->&->&->&->). destruct (child_not_init s a p c q Hok Ha Hc Hq) as [Hpar Hne]. set (q1 := set_pflags _ q).
  assert (idle q1 = idle q) as Ei by (unfold idle; cbn [q1 set_pflags p_flags]; simpl_flags; by rewrite !andb_true_r).
  pose proof (pt_procs s Hok c q Hq) as [Hh Hi Ht Hn].
  assert (ptable_ok (put_proc c q1 s)) as Hok1.
  { apply (put_ok s c q); [done|done|done|done|done| |intros Hin; rewrite Ei; by apply (cleanup_live s c q)]. split; [done|by rewrite Ei|done|done]. }
  destruct (has (p_flags q) PROC_EXITED) eqn:Hex; cbn [andb]; [|eexists _, _; by split_and!]. destruct (has options WNOWAIT); cbn [negb]; [eexists _, _; by split_and!|].
  assert (idle q = true) as Hidle by (unfold idle; by rewrite Hex). destruct (Hi Hidle) as [Eth Ech].
  destruct (delete_ok cur false c q1 (put_proc c q1 s)) as (s2&E2&Hok2&Ecl2&Ecnt2&_); [done|by cbn; rewrite lookup_insert_eq|done| |done|by cbn; rewrite Eth; intros ?%elem_of_nil|by left|].
  { intros Hin%(cleanup_live s c q Hok Hq). congruence. }
  unfold proc_delete. change (p_pid q) with (p_pid q1). rewrite E2. cbn [mbind outcome_bind]. eexists _, s2. by split_and!.
Qed.

(** ** Other system calls *)

Lemma is_parent_ok self child s : ptable_ok s → ∃ r, proc_is_parent self child s = Done r ∧
  (r = true → proc_get_unsafe child s = None ∨ ∃ c q, proc_get_unsafe child s = Some c ∧ pheap s !! c = Some q ∧ p_pid q = child ∧ p_parent q = proc_get_unsafe self s).
Proof.
  intros Hok. unfold proc_is_parent. pose proof (get_unsafe_spec s child Hok) as Hg. destruct (proc_get_unsafe child s) as [c|]; [|by exists false].
  destruct Hg as (q&Hq&E). rewrite (get_Some _ _ _ Hq). cbn [mbind outcome_bind]. eexists. split; [reflexivity|]. intros Eb%bool_decide_eq_true_1. right. by exists c, q.
Qed.

Lemma pdestroy_ok cur self b q child s : ptable_ok s → pheap s !! b = Some q → p_pid q = self →
  ∃ r s', syscall_proc_pdestroy cur self child s = Done (r, s') ∧ ptable_ok s' ∧ pid_counter s' = pid_counter s.
Proof.
  intros Hok Hb Eself. unfold syscall_proc_pdestroy. destruct (is_parent_ok self child s Hok) as (r&->&Hr). cbn [mbind outcome_bind]. destruct r; [|by exists false, s].
  destruct (Hr eq_refl) as [Hnone|(c&p&Hc&Hp&Epid&Epar)]; unfold proc_delete_prestart.
  - pose proof (binsearch_pid s child Hok) as Hbs. unfold proc_get_unsafe in Hnone. unfold proc_delete_impl. destruct (array_binsearch _ _) as [[] i]; [|by exists false, s].
    destruct Hbs as (a&p&Hi&_). congruence.
  - rewrite <-Eself, (get_unsafe_found s b q Hok Hb) in Epar. assert (p_pid p ≠ 1) as Hne.
    { intros E1. destruct (pt_init s Hok) as (i&pi&l&_&Hpi&Ei&Epi). assert (c = i) as -> by (apply (pid_inj s c i p pi); congruence). congruence. }
    destruct (has (p_flags p) PROC_PRESTART) eqn:Hpre.
    + assert (idle p = true) as Hidle by (unfold idle; rewrite Hpre; apply orb_true_r). destruct (ok_idle p (pt_procs s Hok c p Hp) Hidle) as [Eth Ech].
      destruct (delete_ok cur true c p s) as (s'&E&Hok'&_&Ecnt&_); [done|done|done|intros Hin%(cleanup_live s c p Hok Hp); congruence|done|rewrite Eth; by intros ?%elem_of_nil|by right|].
      rewrite <-Epid, E. by exists true, s'.
    + unfold proc_delete_impl. pose proof (binsearch_pid s child Hok) as Hbs. destruct (array_binsearch _ _) as [[] i]; cbn [negb]; [|by exists false, s].
      destruct Hbs as (a&p'&Hi&Hp'&E'). assert (a = c) as -> by (apply (pid_inj s a c p' p); congruence). rewrite Hi. cbn [deref mbind outcome_bind].
      rewrite (get_Some _ _ _ Hp). cbn [mbind outcome_bind]. rewrite Hpre. by exists false, s.
Qed.

Lemma pstart_ok grow self child s : ptable_ok s →
  ∃ r s', syscall_proc_pstart grow self child s = Done (r, s') ∧ ptable_ok s' ∧ pid_counter s' = pid_counter s.
Proof.
  intros Hok. unfold syscall_proc_pstart. destruct (is_parent_ok self child s Hok) as (r&->&_). cbn [mbind outcome_bind]. destruct r; [|by exists false, s].
  unfold proc_start. pose proof (get_unsafe_spec s child Hok) as Hg. destruct (proc_get_unsafe child s) as [a|]; [|by exists false, s].
  destruct Hg as (p&Hp&_). destruct (start_ok grow a p s Hok Hp) as (ec&s'&->&Hok'&_&Ecnt&_). cbn [mbind outcome_bind]. by exists (is_ok ec), s'.
Qed.

(** A change of a field that the tree does not see. *)
Lemma field_ok s a p p' : ptable_ok s → pheap s !! a = Some p → p_pid p' = p_pid p → p_parent p' = p_parent p → p_children p' = p_children p →
  p_flags p' = p_flags p → p_threads p' = p_threads p → length (p_sighandlers p') = SIG_COUNT → ptable_ok (put_proc a p' s).
Proof.
  intros Hok Ha E1 E2 E3 E4 E5 Hh'. assert (idle p' = idle p) as Ei by (unfold idle; by rewrite E4). apply (put_ok s a p); [done..| |].
  - destruct (pt_procs s Hok a p Ha) as [Hh Hi Ht Hn]. split; [done|rewrite Ei, E3, E5; done|by rewrite E5|by rewrite E3].
  - intros Hin. rewrite Ei. by apply (cleanup_live s a p).
Qed.

Lemma sighandler_ok a p signum handler s : ptable_ok s → pheap s !! a = Some p →
  ∃ r s', syscall_proc_sighandler a signum handler s = Done (r, s') ∧ ptable_ok s' ∧ pid_counter s' = pid_counter s.
Proof.
  intros Hok Ha. unfold syscall_proc_sighandler. destruct (Z.leb_spec 0 signum) as [Hlo|]; [|by exists None, s]. destruct (Z.ltb_spec signum (Z.of_nat SIG_COUNT)) as [Hhi|]; [|by exists None, s].
  cbn [andb negb]. rewrite (get_Some _ _ _ Ha). cbn [mbind outcome_bind]. pose proof (ok_handlers _ (pt_procs s Hok a p Ha)) as Hlen.
  destruct (lookup_lt_is_Some_2 (p_sighandlers p) (Z.to_nat signum)) as [h Hh]; [lia|]. rewrite Hh. cbn [deref mbind outcome_bind]. eexists _, _. split; [reflexivity|].
  split; [|done]. apply (field_ok s a p); [done..|]. cbn [set_sighandlers p_sighandlers]. by rewrite length_insert.
Qed.

Lemma add_fd_ok mem_ok a p real s : ptable_ok s → pheap s !! a = Some p →
  ∃ ec v s', proc_add_fd_raw mem_ok a real s = Done (ec, v, s') ∧ ptable_ok s' ∧ pid_counter s' = pid_counter s.
Proof.
  intros Hok Ha. unfold proc_add_fd_raw. rewrite (get_Some _ _ _ Ha). cbn [mbind outcome_bind]. destruct (array_insert _ _ _ _) as [[] l]; eexists _, _, _; (split; [reflexivity|]); [|done].
  split; [|done]. apply (field_ok s a p); [done..|]. by apply (pt_procs s Hok a p Ha).
Qed.

Lemma remove_fd_ok a p v s : ptable_ok s → pheap s !! a = Some p → ∃ ec s', proc_remove_fd_raw a v s = Done (ec, s') ∧ ptable_ok s' ∧ pid_counter s' = pid_counter s.
Proof.
  intros Hok Ha. unfold proc_remove_fd_raw. rewrite (get_Some _ _ _ Ha). cbn [mbind outcome_bind]. destruct (find_virt _ _ _); eexists _, _; (split; [reflexivity|]); [|done].
  split; [|done]. apply (field_ok s a p); [done..|]. by apply (pt_procs s Hok a p Ha).
Qed.

Lemma take_signal_ok a p s : ptable_ok s → pheap s !! a = Some p → ∃ r s', take_signal a s = Done (r, s') ∧ ptable_ok s' ∧ pid_counter s' = pid_counter s.
Proof.
  intros Hok Ha. unfold take_signal. rewrite (get_Some _ _ _ Ha). cbn [mbind outcome_bind]. destruct (dlist_pop_front _) as [sig l]. eexists _, _. split; [reflexivity|].
  split; [|done]. apply (field_ok s a p); [done..|]. by apply (pt_procs s Hok a p Ha).
Qed.

(** ** Runs of the system *)

Inductive proc_op :=
  | OpCreate (handle : option nat) (argmem : option memory) (array_ok : bool) (parent binary : Z) (argv : list (list Z))
  | OpStart (grow : bool) (self child : Z)
  | OpDestroy (cur self child : Z)
  | OpExit (a : nat) (code : Z)
  | OpSignal (mem_ok : bool) (pid signum : Z)
  | OpTakeSignal (a : nat)
  | OpHandler (a : nat) (signum handler : Z)
  | OpCleanup (mem_ok : bool)
  | OpWait (cur : Z) (a : nat) (pid options : Z)
  | OpAddFd (mem_ok : bool) (a : nat) (real : Z)
  | OpRemoveFd (a : nat) (v : Z).

Definition run_op (op : proc_op) s : outcome (ptable KS) :=
  match op with
  | OpCreate handle argmem array_ok parent binary argv => '(_, _, s) ← proc_create_raw handle argmem array_ok parent binary argv s; Done s
  | OpStart grow self child => '(_, s) ← syscall_proc_pstart grow self child s; Done s
  | OpDestroy cur self child => '(_, s) ← syscall_proc_pdestroy cur self child s; Done s
  | OpExit a code => syscall_proc_exit a code s
  | OpSignal mem_ok pid signum => proc_raise_signal mem_ok pid signum s
  | OpTakeSignal a => '(_, s) ← take_signal a s; Done s
  | OpHandler a signum handler => '(_, s) ← syscall_proc_sighandler a signum handler s; Done s
  | OpCleanup mem_ok => run_cleanup mem_ok hk_tid s
  | OpWait cur a pid options => '(_, s) ← syscall_proc_waitpid cur a pid options s; Done s
  | OpAddFd mem_ok a real => '(_, _, s) ← proc_add_fd_raw mem_ok a real s; Done s
  | OpRemoveFd a v => '(_, s) ← proc_remove_fd_raw a v s; Done s
  end.

Definition alive s (a : nat) : Prop := is_Some (pheap s !! a).

(** A process that can be told to end: not the first, started, not ended, and not
    told before. *)
Definition can_end s p : Prop := p_pid p ≠ 1 ∧ p_pid p ∉ cleanups s ∧ idle p = false.

(** When the operations occur: new processes are at fresh addresses and below
    started ones, the caller exists, a process is ended once, and has no children
    when the housekeeping thread ends it. *)
Definition allowed (op : proc_op) s : Prop :=
  match op with
  | OpCreate handle _ _ parent _ _ => (∀ a, handle = Some a → pheap s !! a = None) ∧ may_have_child s parent ∧ pid_counter s < INT_MAX
  | OpStart _ _ _ => True
  | OpDestroy _ self _ => ∃ b q, pheap s !! b = Some q ∧ p_pid q = self
  | OpExit a _ => ∃ p, pheap s !! a = Some p ∧ can_end s p
  | OpSignal _ pid signum => signum = SIGKILL → ∀ a p, pheap s !! a = Some p → p_pid p = pid → can_end s p
  | OpCleanup _ => ∀ pid l a p, cleanups s = pid :: l → pheap s !! a = Some p → p_pid p = pid → p_children p = []
  | OpTakeSignal a | OpHandler a _ _ | OpWait _ a _ _ | OpAddFd _ a _ | OpRemoveFd a _ => alive s a
  end.

Lemma proc_op_ok op s : ptable_ok s → allowed op s → ∃ s', run_op op s = Done s' ∧ ptable_ok s'.
Proof.
  intros Hok Hal. destruct op as [handle argmem array_ok parent binary argv|grow self child|cur self child|a code|mem_ok pid signum|a|a signum handler|mem_ok|cur a pid options|mem_ok a real|a v];
    cbn [run_op allowed] in *.
  - destruct Hal as (Hf&Hm&Hmax). destruct (create_ok handle argmem array_ok parent binary argv s Hok Hf Hm Hmax) as (ec&r&s'&->&Hok'&_). by exists s'.
  - destruct (pstart_ok grow self child s Hok) as (r&s'&->&Hok'&_). by exists s'.
  - destruct Hal as (b&q&Hb&Eq). destruct (pdestroy_ok cur self b q child s Hok Hb Eq) as (r&s'&->&Hok'&_). by exists s'.
  - destruct Hal as (p&Hp&Hne&Hcl&Hid). destruct (exit_ok s a p (W_EXITED (Z.land code 255)) Hok Hp Hne Hcl Hid) as (s'&E&Hok'&_). by exists s'.
  - unfold proc_raise_signal. pose proof (get_unsafe_spec s pid Hok) as Hg. destruct (proc_get_unsafe pid s) as [a|]; [|by exists s]. destruct Hg as (p&Hp&E).
    destruct (decide (signum = SIGKILL)) as [->|Hn].
    + destruct (Hal eq_refl a p Hp E) as (Hne&Hcl&Hid). unfold proc_raise_signal_raw, proc_raise_sigkill_raw. cbn [Z.eqb]. rewrite Z.eqb_refl, (get_Some _ _ _ Hp). cbn [mbind outcome_bind].
      change (p_pid (set_state_code _ _)) with (p_pid p). eexists. split; [reflexivity|]. by apply exiting_ok.
    + destruct (signal_ok s mem_ok a p signum Hok Hp Hn) as (s'&E'&Hok'&_). by exists s'.
  - destruct Hal as [p Hp]. destruct (take_signal_ok a p s Hok Hp) as (r&s'&->&Hok'&_). by exists s'.
  - destruct Hal as [p Hp]. destruct (sighandler_ok a p signum handler s Hok Hp) as (r&s'&->&Hok'&_). by exists s'.
  - destruct (cleanups s) as [|pid l] eqn:Ecl; [unfold run_cleanup; rewrite Ecl; by exists s|].
    destruct (proj2 (pt_cleanups s Hok) pid) as (a&p&Hp&Epid&_); [rewrite Ecl; by left|].
    destruct (cleanup_ok s mem_ok pid l a p Hok Ecl Hp Epid) as (s'&E&Hok'&_); [by apply (Hal pid l a p)|by exists s'].
  - destruct Hal as [p Hp]. destruct (wait_ok cur a p pid options s Hok Hp) as (r&s'&->&Hok'&_). by exists s'.
  - destruct Hal as [p Hp]. destruct (add_fd_ok mem_ok a p real s Hok Hp) as (ec&v&s'&->&Hok'&_). by exists s'.
  - destruct Hal as [p Hp]. destruct (remove_fd_ok a p v s Hok Hp) as (ec&s'&->&Hok'&_). by exists s'.
Qed.

(** ** The first process *)

Definition empty_table (k : KS) : ptable KS := PTable [] ∅ 1 [] false k.

Lemma binsearch_nil {A} (cmp : A → Z) : array_binsearch [] cmp = (false, O).
Proof. apply (array_binsearch_absent [] []). by repeat constructor. Qed.

Lemma boot_ok k a argmem binary argv s : svc_ok k ∅ → proc_create_raw (Some a) argmem true (-1) binary argv (empty_table k) = Done (ECAUSE_OK, Some a, s) → ptable_ok s.
Proof.
  intros Hk. unfold proc_create_raw, proc_get_unsafe. cbn [empty_table procs]. rewrite !binsearch_nil.
  cbn [empty_table pid_counter Z.eqb Pos.eqb mbind outcome_bind assert_or_panic Z.leb Z.compare negb andb]. destruct (proc_setargs_raw_unsafe argmem argv) as [args|]; [|done].
  rewrite ?binsearch_nil. cbn iota. destruct (array_insert_spec true (A := nat) [] a 0 (Nat.le_refl _)) as [->|[? _]]; [|done]. cbn [take drop app negb mbind outcome_bind Z.eqb].
  change (1 =? INT_MAX) with false. cbn iota. change (services _) with k.
  destruct (create_law k ∅ a Hk) as (k'&->&Hk'); [set_solver|]. cbn [mbind outcome_bind]. intros [= <-].
  fold (new_process None binary args 1). set (p := new_process None binary args 1).
  assert (∀ b q, pheap (set_services k' (set_pid_counter 2 (set_procs [a] (put_proc a p (PTable [] ∅ 1 [] false k))))) !! b = Some q → b = a ∧ q = p) as Hback.
  { intros b q. cbn [set_services set_pid_counter set_procs put_proc set_pheap pheap]. rewrite lookup_insert_Some, lookup_empty. naive_solver. }
  split.
  - by repeat constructor.
  - intros b. cbn [set_services set_pid_counter set_procs put_proc set_pheap pheap procs]. rewrite list_elem_of_singleton. split; [intros ->; by rewrite lookup_insert_eq|].
    intros [q [Hb _]%lookup_insert_Some]; [|done] || (intros [q Hq]; by apply (Hback b q)).
  - intros b q [-> ->]%Hback. by vm_compute.
  - exists a, p, []. cbn [set_services set_pid_counter set_procs put_proc set_pheap pheap procs]. by rewrite lookup_insert_eq.
  - by intros b q [-> ->]%Hback.
  - intros b q c [-> ->]%Hback. by intros ?%elem_of_nil.
  - intros b q [-> ->]%Hback. apply new_process_ok.
  - split; [constructor|]. by intros pid ?%elem_of_nil.
  - cbn [set_services set_pid_counter set_procs put_proc set_pheap pheap services]. rewrite dom_insert_L. exact Hk'.
Qed.

(** The states after the first process was created. *)
Inductive proc_reach : ptable KS → Prop :=
  | reach_boot k a argmem binary argv s : svc_ok k ∅ →
      proc_create_raw (Some a) argmem true (-1) binary argv (empty_table k) = Done (ECAUSE_OK, Some a, s) → proc_reach s
  | reach_op op s s' : proc_reach s → allowed op s → run_op op s = Done s' → proc_reach s'.

Lemma reach_ok s : proc_reach s → ptable_ok s.
Proof.
  induction 1 as [k a argmem binary argv s Hk E|op s s' _ IH Hal E]; [by apply (boot_ok k a argmem binary argv)|].
  destruct (proc_op_ok op s IH Hal) as (s''&E'&Hok'). congruence.
Qed.

(** As long as no process ends while it has children ([allowed]), in every
    reachable state the process table is sorted by number, and each process but the
    first is the child of exactly the process its parent pointer names; processes
    that did not start or have ended have no threads; and every allowed operation
    returns, without a stale pointer or a failing assertion.  Without the condition
    the tree breaks: see [orphan_reads_freed_parent]. *)
Theorem proc_reachable_safe s : proc_reach s → key_sorted (pid_of s) (procs s) ∧
  (∀ a p, pheap s !! a = Some p → p_pid p ≠ 1 → ∃ b q, p_parent p = Some b ∧ pheap s !! b = Some q ∧ a ∈ p_children q) ∧
  (∀ b q a, pheap s !! b = Some q → a ∈ p_children q → ∃ p, pheap s !! a = Some p ∧ p_parent p = Some b) ∧
  (∀ a p, pheap s !! a = Some p → idle p = true → p_threads p = []) ∧
  ∀ op, allowed op s → ∃ s', run_op op s = Done s' ∧ proc_reach s'.
Proof.
  intros Hr. pose proof (reach_ok s Hr) as Hok. split_and!; [apply Hok|apply Hok|apply Hok|intros a p Hp Hi; by apply (pt_procs s Hok a p Hp)|].
  intros op Hal. destruct (proc_op_ok op s Hok Hal) as (s'&E&_). exists s'. split; [done|]. by apply (reach_op op s).
Qed.

(** ** Exit and wait *)

Lemma exited_status code : 0 <= code → let st := W_EXITED (Z.land code 255) in WIFCONTINUED st = false ∧ WIFSTOPPED st = false.
Proof.
  intros Hc. unfold W_EXITED, WIFCONTINUED, WIFSTOPPED. change 0x10 with (2 ^ 4). change 0x20 with (2 ^ 5). by rewrite !has_bit, !Z.shiftl_spec_low by lia.
Qed.

(** The only child with a number. *)
Lemma wait_scan_finds pid s c p : ptable_ok s → pheap s !! c = Some p → p_pid p = pid → 0 < pid → claims pid 0 p = true → ∀ l el, c ∈ l →
  (∀ x, x ∈ l → is_Some (pheap s !! x)) →
  wait_scan pid 0 l el s = Done (WaitFound pid (p_state_code p) (has (p_flags p) PROC_EXITED), put_proc c (set_pflags (Z.ldiff (p_flags p) PROC_STATECHG) p) s).
Proof.
  intros Hok Hc Epid Hpos Hcl l el Hin Hl. destruct (wait_scan_spec pid 0 s l el Hl) as (res&s'&E&Hres). rewrite E. destruct res as [pid' st ex|el'].
  - destruct Hres as (d&q&Hd&Hq&Hq1&->&->&->&->). assert (d = c) as ->.
    { apply (pid_inj s d c q p); [done..|]. unfold claims, wait_match in Hq1. apply andb_prop in Hq1 as [Hq1 _]. cbn [snd] in Hq1.
      rewrite (proj2 (Z.eqb_neq pid (-1))), (proj2 (Z.eqb_neq pid 0)), (proj2 (Z.ltb_lt 0 pid)) in Hq1 by lia. cbn [orb] in Hq1.
      destruct (WIFCONTINUED _); [done|]. destruct (WIFSTOPPED _); [done|]. apply Z.eqb_eq in Hq1. congruence. }
    replace q with p by congruence. by rewrite Epid.
  - destruct Hres as [_ Hnone]. specialize (Hnone c p Hin Hc). congruence.
Qed.

(** C20: the exit code of a process reaches its parent: after the exit and one task
    of the housekeeping thread the parent has the signal SIGCHLD pending, its wait
    for the process returns at once with the code, and the process is gone. *)
Theorem exit_code_reported s c p b q h code cur : ptable_ok s → pheap s !! c = Some p → can_end s p → p_children p = [] → cleanups s = [] →
  p_parent p = Some b → pheap s !! b = Some q → p_sighandlers q !! Z.to_nat SIGCHLD = Some h → h ≠ SIG_IGN → 0 <= code →
  ∃ s1 s2 s3, syscall_proc_exit c code s = Done s1 ∧ run_cleanup true hk_tid s1 = Done s2 ∧
    (∃ q', pheap s2 !! b = Some q' ∧ p_sigpending q' = p_sigpending q ++ [SIGCHLD]) ∧
    syscall_proc_waitpid cur b (p_pid p) 0 s2 = Done (Some (p_pid p, Some (W_EXITED (Z.land code 255))), s3) ∧
    ptable_ok s3 ∧ pheap s3 !! c = None ∧ ∀ a, a ≠ c → a ≠ b → pheap s3 !! a = pheap s !! a.
Proof.
  intros Hok Hc (Hne&Hncl&Hidle) Hleaf Hcl0 Epar Hb Hh Hign Hcode. set (st := W_EXITED (Z.land code 255)).
  destruct (exit_ok s c p st Hok Hc Hne Hncl Hidle) as (s1&E1&Hok1&Ecl1&Eh1&_). set (p1 := set_state_code st _) in *. rewrite Hcl0 in Ecl1. cbn [app] in Ecl1.
  assert (pheap s1 !! c = Some p1) as Hc1 by (rewrite Eh1; by rewrite lookup_insert_eq).
  destruct (cleanup_ok s1 true (p_pid p) [] c p1 Hok1 Ecl1 Hc1 eq_refl Hleaf) as (s2&E2&Hok2&Ecl2&_&b'&q'&h'&Eb'&Hb'&Hcb&Hh'&Hif).
  assert (b' = b) as -> by (cbn in Eb'; congruence). assert (q' = q) as -> by (rewrite Eh1, lookup_insert_ne in Hb' by done; congruence).
  assert (h' = h) as -> by congruence. rewrite (proj2 (Z.eqb_neq _ _)) in Hif by done. cbn iota in Hif. set (p2 := set_pflags _ (ended_process p1)) in Hif. set (q2 := set_pflags _ (set_sigpending _ q)) in Hif.
  assert (pheap s2 !! b = Some q2) as Hb2 by (rewrite Hif; by rewrite lookup_insert_eq).
  assert (pheap s2 !! c = Some p2) as Hc2 by (rewrite Hif; by rewrite lookup_insert_ne, lookup_insert_eq by done).
  exists s1, s2. unfold syscall_proc_waitpid. change (has 0 WNOHANG) with false. cbn iota. rewrite (get_Some _ _ _ Hb2). cbn [mbind outcome_bind].
  assert (0 < p_pid p) as Hpos by apply (pt_pids s Hok c p Hc). destruct (exited_status code Hcode) as [Hcont Hstop].
  assert (claims (p_pid p) 0 p2 = true) as Hclaims.
  { unfold claims, wait_match. cbn [snd]. change (p_state_code p2) with st. change (p_pid p2) with (p_pid p). fold st in Hcont, Hstop. rewrite Hcont, Hstop.
    rewrite (proj2 (Z.eqb_neq (p_pid p) (-1))), (proj2 (Z.eqb_neq (p_pid p) 0)), (proj2 (Z.ltb_lt 0 (p_pid p))), Z.eqb_refl by lia. cbn [orb andb p2 set_pflags p_flags]. simpl_flags. by rewrite orb_true_r. }
  assert (has (p_flags p2) PROC_EXITED = true) as Hex.
  { cbn [p2 ended_process set_pflags p_flags]. simpl_flags. by rewrite !orb_true_r. }
  assert (c ∈ p_children q2) as Hin by by (destruct (pt_parent s Hok c p Hc Hne) as (b0&q0&Eb0&Hb0&Hin0); replace b0 with b in Hb0 by congruence; replace q0 with q in Hin0 by congruence).
  rewrite (wait_scan_finds (p_pid p) s2 c p2 Hok2 Hc2 eq_refl Hpos Hclaims (p_children q2) false Hin).
  2: { intros x Hx. destruct (pt_children s2 Hok2 b q2 x Hb2 Hx) as (r&Hr&_). by eexists. }
  cbn [mbind outcome_bind]. rewrite Hex. change (has 0 WNOWAIT) with false. cbn [negb andb]. set (p3 := set_pflags _ p2).
  assert (idle p3 = true) as Hi3. { unfold idle. cbn [p3 set_pflags p_flags]. rewrite (has_ldiff _ _ PROC_EXITED 2) by done. by rewrite Hex. }
  assert (ptable_ok (put_proc c p3 s2)) as Hok3.
  { apply (put_ok s2 c p2); [done|done|done|done|done| |by rewrite Ecl2; intros ?%elem_of_nil]. destruct (pt_procs s2 Hok2 c p2 Hc2) as [? ? ? ?]. split; [done|done|done|done]. }
  destruct (delete_ok cur false c p3 (put_proc c p3 s2)) as (s3&E3&Hok3'&_&_&Hgone&Hsame); [done|by cbn; rewrite lookup_insert_eq|done|by cbn; rewrite Ecl2; intros ?%elem_of_nil|done|by intros ?%elem_of_nil|by left|].
  exists s3. unfold proc_delete. change (p_pid p) with (p_pid p3). rewrite E3. cbn [mbind outcome_bind]. split_and!; [done|done|by exists q2|done|done|done|].
  intros a Hac Hab. rewrite Hsame by (done || by (cbn; rewrite Epar; congruence)). cbn [put_proc set_pheap pheap]. rewrite lookup_insert_ne, Hif, !lookup_insert_ne, Eh1, lookup_insert_ne by done. done.
Qed.
End correct.

(** ** Examples

    Services that hand out thread numbers and load every binary but number 0. *)

Definition demo_services : ProcServices Z := {|
  svc_memprotect_create _ k := Done k;
  svc_unmap_all _ k := Done k;
  svc_memprotect_destroy _ k := k;
  svc_thread_new _ _ k := Done (k, k + 1);
  svc_thread_join _ k := Done k;
  svc_thread_resume _ k := Done k;
  svc_thread_suspend _ k := Done k;
  svc_thread_exit k := Done k;
  svc_load _ binary k := Done (if binary =? 0 then LoadNotFound else Loaded 0x1000, k);
  svc_unload _ k := k;
|}.

Definition demo_services_spec : @ProcServicesSpec Z demo_services 1.
Proof.
  refine {| svc_ok (k : Z) (A : gset nat) := 2 <= k |}; try by eauto.
  intros k A a entry Hk _. exists k, (k + 1). split_and!; [done|lia|lia].
Defined.

#[local] Existing Instances demo_services demo_services_spec demo_arrays demo_arrays_spec demo_dlist demo_dlist_spec.

Definition zeros : memory := λ _, 0.
Definition demo_boot : outcome (ptable Z) := '(_, _, s) ← proc_create_raw (Some 1%nat) (Some zeros) true (-1) 7 [] (empty_table 2); Done s.

Fixpoint demo_run (ops : list proc_op) (s : outcome (ptable Z)) : outcome (ptable Z) :=
  match ops with [] => s | op :: ops => s ← s; demo_run ops (run_op 1 op s) end.

Definition result (m : outcome (ptable Z)) : ptable Z := match m with Done s => s | _ => empty_table 2 end.

(** The first process is started by the kernel itself. *)
Definition demo_started : outcome (ptable Z) := s ← demo_boot; '(_, s) ← proc_start true 1 s; Done s.

Lemma demo_boot_reach : proc_reach 1 (result demo_boot).
Proof. apply (reach_boot 1 2 1%nat (Some zeros) 7 []); [change (2 <= 2); lia|by vm_compute]. Qed.

Lemma demo_started_ok : ptable_ok 1 (result demo_started).
Proof.
  pose proof (reach_ok 1 _ demo_boot_reach) as Hok. destruct (pt_init _ _ Hok) as (i&pi&l&El&Hpi&_). assert (i = 1%nat) as -> by (vm_compute in El; by injection El).
  destruct (start_ok 1 true 1%nat pi (result demo_boot) Hok Hpi) as (ec&s'&E&Hok'&_).
  assert (Done (ec, s') = Done (ECAUSE_OK, result demo_started)) as E'; [|by injection E' as _ <-]. rewrite <-E. by vm_compute.
Qed.

(** A second process below it, started. *)
Definition demo_child : ptable Z := result (demo_run [OpCreate (Some 2%nat) (Some zeros) true 1 8 []; OpStart true 1 2] demo_started).

Lemma demo_child_ok : ptable_ok 1 demo_child.
Proof.
  destruct (proc_op_ok 1 (OpCreate (Some 2%nat) (Some zeros) true 1 8 []) _ demo_started_ok) as (s1&E1&Hok1).
  { split_and!; [intros a [= <-]; by vm_compute| |by vm_compute]. intros b q Hq _. assert (b = 1%nat) as ->.
    { assert (b ∈ procs (result demo_started)) as Hb by (apply (pt_dom _ _ demo_started_ok); by eexists). vm_compute in Hb. by apply list_elem_of_singleton in Hb. }
    vm_compute in Hq. injection Hq as <-. by vm_compute. }
  destruct (proc_op_ok 1 (OpStart true 1 2) s1 Hok1 I) as (s2&E2&Hok2). assert (demo_run [OpCreate (Some 2%nat) (Some zeros) true 1 8 []; OpStart true 1 2] demo_started = Done s2) as E.
  { cbn [demo_run]. change demo_started with (Done (result demo_started)). cbn [mbind outcome_bind]. rewrite E1. cbn [mbind outcome_bind]. exact E2. }
  unfold demo_child. by rewrite E.
Qed.

Lemma proc_reachable_safe_witness : proc_reach 1 (result demo_boot) ∧ key_sorted (pid_of (result demo_boot)) (procs (result demo_boot)) ∧
  ∃ s', run_op 1 (OpSignal true 1 15) (result demo_boot) = Done s' ∧ proc_reach 1 s'.
Proof.
  pose proof (proc_reachable_safe 1 _ demo_boot_reach) as (Hs&_&_&_&Hop). split; [exact demo_boot_reach|]. split; [exact Hs|]. apply Hop. intros E. by vm_compute in E.
Defined.

Lemma exit_code_reported_witness : ∃ s1 s2 s3, syscall_proc_exit 2 42 demo_child = Done s1 ∧ run_cleanup true 1 s1 = Done s2 ∧
  syscall_proc_waitpid 2 1 2 0 s2 = Done (Some (2, Some (W_EXITED 42)), s3) ∧ pheap s3 !! 2%nat = None.
Proof.
  assert (∃ p, pheap demo_child !! 2%nat = Some p ∧ p_pid p = 2 ∧ p_children p = [] ∧ idle p = false ∧ p_parent p = Some 1%nat) as (p&Hp&Epid&Ech&Hid&Epar) by (eexists; by vm_compute).
  assert (∃ q, pheap demo_child !! 1%nat = Some q ∧ p_sighandlers q !! Z.to_nat SIGCHLD = Some SIG_DFL) as (q&Hq&Hh) by (eexists; by vm_compute).
  destruct (exit_code_reported 1 demo_child 2%nat p 1%nat q SIG_DFL 42 2 demo_child_ok Hp) as (s1&s2&s3&E1&E2&_&E3&_&Hgone&_).
  - split_and!; [by rewrite Epid|by intros ?%elem_of_nil|exact Hid].
  - exact Ech.
  - by vm_compute.
  - exact Epar.
  - exact Hq.
  - exact Hh.
  - done.
  - lia.
  - exists s1, s2, s3. rewrite Epid in E3. split; [exact E1|]. split; [exact E2|]. split; [exact E3|exact Hgone].
Defined.

(** ** Observations *)

(** The bytes up to the terminator. *)
Fixpoint read_cstr (fuel : nat) (a : Z) (m : memory) : list Z :=
  match fuel with O => [] | S fuel => if m a =? 0 then [] else m a :: read_cstr fuel (a + 1) m end.

(** The arguments "ab" and "cd" are stored as "abcd" and "cd". *)
Example arguments_run_together : match proc_setargs_raw_unsafe (Some zeros) [[97; 98]; [99; 100]] with
  | Some b => match av_ptrs b with Some x :: Some y :: _ => Some (read_cstr 8 x (av_bytes b), read_cstr 8 y (av_bytes b)) | _ => None end
  | None => None
  end = Some ([97; 98; 99; 100], [99; 100]).
Proof. by vm_compute. Qed.

(** Every file gets descriptor 0, so the second file is not found. *)
Example second_fd_hidden : (s ← demo_started; '(_, v1, s) ← proc_add_fd_raw true 1 11 s; '(_, v2, s) ← proc_add_fd_raw true 1 22 s;
  p ← get_proc 1 s; Done (v1, v2, proc_find_fd_raw p v2)) = Done (0, 0, (ECAUSE_OK, 11)).
Proof. by vm_compute. Qed.

(** A grandchild whose parent ended and was waited for: its own end reads the
    freed parent. *)
Example orphan_reads_freed_parent : (s ← demo_run [OpCreate (Some 3%nat) (Some zeros) true 2 9 []; OpStart true 2 3; OpExit 2 0; OpCleanup true;
  OpWait 2 1 2 0; OpExit 3 0; OpCleanup true] (Done demo_child); Done (length (procs s))) = Undef.
Proof. by vm_compute. Qed.

(** A process that failed to start can be neither started nor destroyed. *)
Example failed_start_is_stuck : (s ← demo_run [OpCreate (Some 3%nat) (Some zeros) true 1 0 []; OpStart true 1 3] (Done demo_child);
  '(started, s) ← syscall_proc_pstart true 1 3 s; '(destroyed, s) ← syscall_proc_pdestroy 2 1 3 s; Done (started, destroyed)) = Done (false, false).
Proof. by vm_compute. Qed.

(** Killing a process that ended but was not waited for: the second task finds no
    process after the wait. *)
Example kill_after_exit_crashes : (s ← demo_run [OpExit 2 0; OpCleanup true; OpSignal true 2 SIGKILL; OpWait 2 1 2 0; OpCleanup true] (Done demo_child); Done (length (procs s))) = Undef.
Proof. by vm_compute. Qed.

(** A wait that must not block never looks at the children. *)
Example nohang_finds_nothing : (s ← demo_run [OpExit 2 42; OpCleanup true] (Done demo_child); '(r, _) ← syscall_proc_waitpid 2 1 2 WNOHANG s; Done r) = Done (Some (0, None)).
Proof. by vm_compute. Qed.

(** The flag for pending signals stays when the last signal was taken. *)
Example sigpend_stays : (s ← demo_run [OpSignal true 2 15; OpTakeSignal 2] (Done demo_child); p ← get_proc 2 s; Done (p_sigpending p, proc_signals_pending_raw p)) = Done ([], true).
Proof. by vm_compute. Qed.
