(* ===== verification/FormatStr.v ===== *)
(** * Format strings

    kernel/src/badgelib/badge_format_str.c in the 64-bit build, where [size] and
    [u64] are [long long] and plain [char] is unsigned.  Text is a list of
    character codes.  The callback takes text and a state, and tells whether to
    go on.  A pointer argument is the memory it points to. *)

From Stdlib Require Import String Ascii.
From S2P Require Import Prelude Badgelib Bitops IntRoutines NumToStr Ramfs Vfs.

Definition text (s : string) : list Z := map (λ a, Z.of_N (N_of_ascii a)) (list_ascii_of_string s).

Inductive format_str_type := FMT_TYPE_CHAR | FMT_TYPE_SHORT | FMT_TYPE_INT | FMT_TYPE_LONG | FMT_TYPE_LLONG.
Inductive format_str_spec := FMT_SPEC_DEC | FMT_SPEC_HEX | FMT_SPEC_OCTAL | FMT_SPEC_CHAR.
Inductive format_str_mult := FMT_MULT_ONE | FMT_MULT_NUL | FMT_MULT_ARR.

#[export] Instance format_str_type_eq_dec : EqDecision format_str_type.
Proof. solve_decision. Defined.
#[export] Instance format_str_spec_eq_dec : EqDecision format_str_spec.
Proof. solve_decision. Defined.
#[export] Instance format_str_mult_eq_dec : EqDecision format_str_mult.
Proof. solve_decision. Defined.

Definition FMT_TYPE_INT8 := FMT_TYPE_CHAR.
Definition FMT_TYPE_INT16 := FMT_TYPE_SHORT.
Definition FMT_TYPE_INT32 := FMT_TYPE_INT.
Definition FMT_TYPE_INT64 := FMT_TYPE_LLONG.
Definition FMT_TYPE_SIZE := FMT_TYPE_INT64.

Definition fmt_type_size (type : format_str_type) : Z :=
  match type with FMT_TYPE_CHAR => 1 | FMT_TYPE_SHORT => 2 | FMT_TYPE_INT => 4 | FMT_TYPE_LONG | FMT_TYPE_LLONG => 8 end.

(** Element [i] of the array of the type; only [char] is unsigned. *)
Definition fmt_type_index (type : format_str_type) (bytes : list Z) (i : nat) : outcome Z :=
  let w := Z.to_nat (fmt_type_size type) in
  let bs := take w (drop (i * w) bytes) in
  if decide (length bs = w) then
    Done (match type with FMT_TYPE_CHAR => of_bytes bs | _ => signed (8 * fmt_type_size type) (of_bytes bs) end)
  else Undef.

Definition lower (x : Z) : Z := Z.lor x 0x20.

(** ** Parsing *)

(** Character [i] of a text. *)
Definition at_ (s : list Z) (i : nat) : Z := default 0 (s !! i).

(** The characters of [s] are those of [t], but for the lowercase bit. *)
Fixpoint lower_is (s t : list Z) : bool :=
  match s, t with
  | [], [] => true
  | x :: s, y :: t => (lower x =? y) && lower_is s t
  | _, _ => false
  end.

Definition is_lower (s : list Z) (t : string) : bool := lower_is s (text t).

(** The text has as many characters as are compared. *)
Definition format_str_parse_type (substr : list Z) : option (format_str_type * bool) :=
  let c := lower (at_ substr 0) in
  let explicit := (c =? 117) || (c =? 105) in
  let digits t := bool_decide (tail substr = text t) in
  if explicit && digits "8"%string then Some (FMT_TYPE_INT8, c =? 105)
  else if explicit && digits "16"%string then Some (FMT_TYPE_INT16, c =? 105)
  else if explicit && digits "32"%string then Some (FMT_TYPE_INT32, c =? 105)
  else if explicit && digits "64"%string then Some (FMT_TYPE_INT64, c =? 105)
  else if is_lower substr "size" then Some (FMT_TYPE_SIZE, false)
  else if is_lower substr "ptrdiff" then Some (FMT_TYPE_SIZE, true)
  else
    let is_signed := negb (c =? 117) in
    let substr := if is_signed then substr else tail substr in
    if is_lower substr "llong" then Some (FMT_TYPE_LLONG, is_signed)
    else if is_lower substr "long" then Some (FMT_TYPE_LONG, is_signed)
    else if is_lower substr "int" then Some (FMT_TYPE_INT, is_signed)
    else if is_lower substr "short" then Some (FMT_TYPE_SHORT, is_signed)
    else if is_lower substr "char" then Some (FMT_TYPE_CHAR, is_signed)
    else None.

(** The comparison of a prefix without regard to case. *)
Class FormatStrings := cstr_prefix_equals_case : list Z → list Z → nat → bool.

Definition to_lower (c : Z) : Z := if (65 <=? c) && (c <=? 90) then c + 32 else c.

Class FormatStringsSpec `{FormatStrings} :=
  cstr_prefix_equals_case_spec a b n : (n <= length a)%nat → (n <= length b)%nat →
    cstr_prefix_equals_case a b n = bool_decide (map to_lower (take n a) = map to_lower (take n b)).

(** The decoded specifier; [None] is a joiner that is null. *)
Record format_spec := FormatSpec {
  fs_type : format_str_type;
  fs_spec : format_str_spec;
  fs_mult : format_str_mult;
  fs_lowercase : bool;
  fs_signed : bool;
  fs_joiner : option (list Z);
}.

(** What [va_arg] yields. *)
Inductive va_value := VaNum (n : Z) | VaPtr (bytes : list Z).

Definition char_percent : Z := 37.
Definition char_open : Z := 123.
Definition char_close : Z := 125.
Definition char_semicolon : Z := 59.

Section format.
Context `{!PathStrings} `{!FormatStrings} (mem_copy : list Z → nat → list Z → nat → nat → list Z).

Definition format_str_parse_mult (substr : list Z) : option format_str_mult :=
  let same t := (length substr =? length (text t))%nat && cstr_prefix_equals_case substr (text t) (length (text t)) in
  if same "array"%string || same "arr"%string then Some FMT_MULT_ARR
  else if same "null"%string || same "nul"%string then Some FMT_MULT_NUL
  else None.

Definition parse_letter (c : Z) : option format_str_spec :=
  let c := lower c in
  if c =? 100 then Some FMT_SPEC_DEC
  else if c =? 120 then Some FMT_SPEC_HEX
  else if (c =? 111) || (c =? 113) then Some FMT_SPEC_OCTAL
  else if c =? 99 then Some FMT_SPEC_CHAR
  else None.

(** The type before the first semicolon, which is not a type when it follows one
    character; and the rest. *)
Definition parse_type_part (substr : list Z) : option (format_str_type * bool * list Z) :=
  match mem_index substr (length substr) char_semicolon with
  | None | Some 1%nat => Some (FMT_TYPE_INT, true, substr)
  | Some delim => match format_str_parse_type (take delim substr) with
                  | Some (type, is_signed) => Some (type, is_signed, drop (delim + 1) substr)
                  | None => None
                  end
  end.

(** The multiple and the joiner behind the format. *)
Definition parse_mult_part (substr : list Z) : option (format_str_mult * option (list Z)) :=
  match mem_index substr (length substr) char_semicolon with
  | None => if (length substr =? 1)%nat then Some (FMT_MULT_ONE, None) else None
  | Some delim =>
      let substr := drop (delim + 1) substr in
      match mem_index substr (length substr) char_semicolon with
      | Some delim => match format_str_parse_mult (take delim substr) with
                      | Some mult => Some (mult, Some (drop (delim + 1) substr))
                      | None => None
                      end
      | None => match format_str_parse_mult substr with Some mult => Some (mult, None) | None => None end
      end
  end.

(** The text between the brackets; [None] is malformed. *)
Definition parse_spec (body : list Z) : option format_spec :=
  if (length body =? 2)%nat && (lower (at_ body 0) =? 99) && (lower (at_ body 1) =? 115) then
    Some (FormatSpec FMT_TYPE_CHAR FMT_SPEC_CHAR FMT_MULT_NUL true false None)
  else if (length body =? 2)%nat && (lower (at_ body 0) =? 108) && (lower (at_ body 1) =? 115) then
    Some (FormatSpec FMT_TYPE_CHAR FMT_SPEC_CHAR FMT_MULT_ARR true false None)
  else
    match parse_type_part body with
    | None => None
    | Some (type, is_signed, substr) =>
        match substr with
        | [] => None
        | c :: _ =>
            match parse_letter c, parse_mult_part substr with
            | Some spec, Some (mult, joiner) => Some (FormatSpec type spec mult (Z.testbit c 5) is_signed joiner)
            | _, _ => None
            end
        end
    end.

(** ** Output *)

Context {C : Type} (callback : list Z → C → bool * C).

Definition hextab (d : Z) : Z := at_ (text "0123456789ABCDEF") (Z.to_nat d).

(** Digits of [bits] bits each, from the last to the first. *)
Fixpoint digit_loop (bits : Z) (char : Z → Z) (n : nat) (value : Z) (buf : list Z) : list Z :=
  match n with
  | O => buf
  | S n => digit_loop bits char n (Z.shiftr value bits) (char (Z.land value (2 ^ bits - 1)) :: buf)
  end.

Definition format_str_output (type : format_str_type) (spec : format_str_spec) (is_signed lowercase : bool) (value : Z) (c : C) : outcome (bool * C) :=
  match spec with
  | FMT_SPEC_CHAR => Done (callback [u8 value] c)
  | FMT_SPEC_HEX => Done (callback (digit_loop 4 (λ d, Z.lor (hextab d) (if lowercase then 0x20 else 0)) (Z.to_nat (fmt_type_size type * 2)) value []) c)
  | FMT_SPEC_OCTAL => Done (callback (digit_loop 3 (Z.lor 48) (Z.to_nat ((fmt_type_size type * 8 - 1) / 3 + 1)) value []) c)
  | FMT_SPEC_DEC =>
      '(buf, n) ← (if is_signed then int_to_cstr_packed mem_copy value (Some (replicate 21 0)) 21
                   else uint_to_cstr_packed mem_copy (u64 value) (Some (replicate 21 0)) 21);
      numbuf ← deref buf;
      Done (callback (take n numbuf) c)
  end.

(** [va_arg] of an integer and of a pointer. *)
Definition va_num (args : list va_value) : outcome (Z * list va_value) :=
  match args with VaNum n :: args => Done (n, args) | _ => Undef end.
Definition va_ptr (args : list va_value) : outcome (list Z * list va_value) :=
  match args with VaPtr b :: args => Done (b, args) | _ => Undef end.

(** The value of one argument after its conversion. *)
Definition va_convert (type : format_str_type) (is_signed : bool) (n : Z) : Z :=
  let w := 8 * fmt_type_size type in
  match type with
  | FMT_TYPE_LONG | FMT_TYPE_LLONG => signed 64 n
  | _ => if is_signed then signed w n else wrap w n
  end.

(** The rest of an array with [n] elements left; a null joiner prints nothing. *)
Fixpoint array_loop (f : format_spec) (bytes : list Z) (n i : nat) (c : C) : outcome (bool * C) :=
  match n with
  | O => Done (true, c)
  | S n =>
      let '(ok, c) := if (i =? 0)%nat then (true, c) else callback (default [] (fs_joiner f)) c in
      if negb ok then Done (false, c) else
      value ← fmt_type_index (fs_type f) bytes i;
      '(ok, c) ← format_str_output (fs_type f) (fs_spec f) (fs_signed f) (fs_lowercase f) value c;
      if negb (ok : bool) then Done (false, c) else array_loop f bytes n (S i) c
  end.

(** An array up to its zero element. *)
Fixpoint nul_loop (fuel : nat) (f : format_spec) (bytes : list Z) (i : nat) (c : C) : outcome (bool * C) :=
  match fuel with
  | O => Fuel
  | S fuel =>
      value ← fmt_type_index (fs_type f) bytes i;
      if value =? 0 then Done (true, c) else
      let '(ok, c) := match fs_joiner f with Some j => if (i =? 0)%nat then (true, c) else callback j c | None => (true, c) end in
      if negb ok then Done (false, c) else
      '(ok, c) ← format_str_output (fs_type f) (fs_spec f) (fs_signed f) (fs_lowercase f) value c;
      if negb (ok : bool) then Done (false, c) else nul_loop fuel f bytes (S i) c
  end.

(** Whether the string can be passed on as it is. *)
Definition is_string (f : format_spec) : bool :=
  match fs_spec f, fs_type f, fs_joiner f with FMT_SPEC_CHAR, FMT_TYPE_CHAR, None => true | _, _, _ => false end.

(** The text before the terminator. *)
Definition cstr_of (bytes : list Z) : outcome (list Z) :=
  match list_find (.= 0) bytes with Some (n, _) => Done (take n bytes) | None => Undef end.

Definition output_spec (f : format_spec) (args : list va_value) (c : C) : outcome (bool * C * list va_value) :=
  match fs_mult f with
  | FMT_MULT_ARR =>
      '(ptr, args) ← va_ptr args;
      '(len, args) ← va_num args;
      let length := Z.to_nat (u64 len) in
      '(ok, c) ← (if is_string f then
                    if decide (length <= List.length ptr)%nat then Done (callback (take length ptr) c) else Undef
                  else array_loop f ptr length 0 c);
      Done (ok, c, args)
  | FMT_MULT_NUL =>
      '(ptr, args) ← va_ptr args;
      '(ok, c) ← (if is_string f then s ← cstr_of ptr; Done (callback s c) else nul_loop (S (length ptr)) f ptr 0 c);
      Done (ok, c, args)
  | FMT_MULT_ONE =>
      '(n, args) ← va_num args;
      '(ok, c) ← format_str_output (fs_type f) (fs_spec f) (fs_signed f) (fs_lowercase f) (va_convert (fs_type f) (fs_signed f) n) c;
      Done (ok, c, args)
  end.

(** [msg] is the text from the current index. *)
Fixpoint format_str_va (fuel : nat) (msg : list Z) (args : list va_value) (c : C) : outcome (bool * C) :=
  match msg with
  | [] => Done (true, c)
  | x :: _ =>
      match fuel with
      | O => Fuel
      | S fuel =>
          if (x =? char_percent) && (1 <? length msg)%nat && (at_ msg 1 =? char_percent) then
            let '(ok, c) := callback [char_percent] c in
            if negb ok then Done (false, c) else format_str_va fuel (drop 2 msg) args c
          else if (x =? char_percent) && (3 <? length msg)%nat then
            match mem_index msg (length msg) char_close with
            | Some fmt_end =>
                if negb (at_ msg 1 =? char_open) then Done (callback msg c) else
                match parse_spec (take (fmt_end - 2) (drop 2 msg)) with
                | None => Done (callback msg c)
                | Some f =>
                    '(ok, c, args) ← output_spec f args c;
                    if negb (ok : bool) then Done (false, c) else format_str_va fuel (drop (fmt_end + 1) msg) args c
                end
            | None => Done (callback msg c)
            end
          else
            let n := match list_find (.= char_percent) msg with Some (n, _) => n | None => length msg end in
            let '(ok, c) := callback (take n msg) c in
            if negb ok then Done (false, c) else format_str_va fuel (drop n msg) args c
      end
  end.
End format.
