(* ===== verification/FormatStrCorrect.v ===== *)
(** * Format strings: correctness

    Every format string of the documented form prints the text that the
    reference below gives for it.  The reference is written from the comment in
    badge_format_str.h and shares no definition with the printing code: a type is
    its width and sign, an argument is a value of the type, an array is the bytes
    of its values. *)

From Stdlib Require Import String Ascii.
From S2P Require Import Prelude Badgelib Bitops IntRoutines NumToStr Ramfs Vfs VfsCorrect FormatStr.

(** ** Reference: values *)

(** [n] digits of [v], the first with the weight [base ^ (n - 1)]. *)
Definition digits_text (base : Z) (char : Z → Z) (n : nat) (v : Z) : list Z :=
  map (λ i, char (v / base ^ Z.of_nat (n - 1 - i) mod base)) (seq 0 n).

Definition upper_digit (d : Z) : Z := if d <? 10 then 48 + d else 55 + d.
Definition lower_digit (d : Z) : Z := if d <? 10 then 48 + d else 87 + d.

(** The shortest decimal text of a number of at most [k] digits. *)
Fixpoint decimal (k : nat) (v : Z) : list Z :=
  match k with
  | O => []
  | S k => if v <? 10 then [48 + v] else decimal k (v / 10) ++ [48 + v mod 10]
  end.

Definition decimal_text (v : Z) : list Z := decimal 20 v.

(** The types of the table in badge_format_str.h: their bits, and whether they are
    signed. *)
Record ctype := CType { ct_width : Z; ct_signed : bool }.
#[export] Instance ctype_eq_dec : EqDecision ctype.
Proof. solve_decision. Defined.

Definition of_type (t : ctype) (v : Z) : Prop :=
  if ct_signed t then - 2 ^ (ct_width t - 1) <= v < 2 ^ (ct_width t - 1) else 0 <= v < 2 ^ ct_width t.

(** A value in the format of the specifier: hexadecimal and octal are unsigned
    and have all the digits of the type. *)
Definition value_text (t : ctype) (spec : format_str_spec) (lowercase : bool) (v : Z) : list Z :=
  match spec with
  | FMT_SPEC_CHAR => [v mod 256]
  | FMT_SPEC_HEX => digits_text 16 (if lowercase then lower_digit else upper_digit) (Z.to_nat (ct_width t / 4)) (v mod 2 ^ ct_width t)
  | FMT_SPEC_OCTAL => digits_text 8 upper_digit (Z.to_nat ((ct_width t + 2) / 3)) (v mod 2 ^ ct_width t)
  | FMT_SPEC_DEC => (if v <? 0 then [45] else []) ++ decimal_text (Z.abs v)
  end.

(** ** Reference: arguments *)

(** What a specifier between brackets asks for. *)
Record request := Request {
  rq_type : ctype;
  rq_spec : format_str_spec;
  rq_mult : format_str_mult;
  rq_lowercase : bool;
  rq_joiner : list Z;
}.

Definition join (j : list Z) (l : list (list Z)) : list Z :=
  match l with [] => [] | x :: l => x ++ concat (map (app j) l) end.

(** The values that are printed as the reference says, by themselves and in
    arrays; the others are shown below.  The least number has no absolute value.
    Octal numbers are printed with the sign of the 64-bit value they are kept in.
    The elements of arrays are read as signed, those of one byte as unsigned. *)
Definition value_ok (spec : format_str_spec) (v : Z) : Prop :=
  match spec with
  | FMT_SPEC_DEC => v ≠ - 2 ^ 63
  | FMT_SPEC_OCTAL => 0 <= v < 2 ^ 63
  | _ => True
  end.

Definition element_ok (t : ctype) (spec : format_str_spec) (v : Z) : Prop :=
  match spec with
  | FMT_SPEC_DEC =>
      v ≠ - 2 ^ 63 ∧
      (ct_width t = 64 ∨ (if decide (ct_width t = 8) then ct_signed t = false ∨ 0 <= v else ct_signed t = true ∨ v < 2 ^ (ct_width t - 1)))
  | FMT_SPEC_OCTAL => 0 <= v ∧ (ct_width t = 8 ∨ v < 2 ^ (ct_width t - 1))
  | _ => True
  end.

(** The elements of an array in memory, least significant byte first. *)
Definition array_bytes (t : ctype) (l : list Z) : list Z := concat (map (λ v, to_bytes (Z.to_nat (ct_width t / 8)) (v mod 2 ^ ct_width t)) l).

Definition elements_text (q : request) (l : list Z) : list Z :=
  join (rq_joiner q) (map (value_text (rq_type q) (rq_spec q) (rq_lowercase q)) l).

(** The text for one specifier and its arguments: a value, which C converts to
    the type; a pointer to an array, and its length; or a pointer to an array that
    ends with a zero.  Anything may be behind an array. *)
Inductive renders (q : request) : list va_value → list Z → list va_value → Prop :=
  | render_one n v args : rq_mult q = FMT_MULT_ONE → of_type (rq_type q) v → n mod 2 ^ ct_width (rq_type q) = v mod 2 ^ ct_width (rq_type q) →
      value_ok (rq_spec q) v → renders q (VaNum n :: args) (value_text (rq_type q) (rq_spec q) (rq_lowercase q) v) args
  | render_arr l rest len args : rq_mult q = FMT_MULT_ARR → Forall (of_type (rq_type q)) l → Forall (element_ok (rq_type q) (rq_spec q)) l →
      len mod 2 ^ 64 = Z.of_nat (length l) → Forall (fits 8) rest →
      renders q (VaPtr (array_bytes (rq_type q) l ++ rest) :: VaNum len :: args) (elements_text q l) args
  | render_nul l rest args : rq_mult q = FMT_MULT_NUL → Forall (of_type (rq_type q)) l → Forall (element_ok (rq_type q) (rq_spec q)) l →
      Forall (λ v, v ≠ 0) l → Forall (fits 8) rest →
      renders q (VaPtr (array_bytes (rq_type q) (l ++ [0]) ++ rest) :: args) (elements_text q l) args.

(** ** Reference: the language *)

Definition type_table : list (string * ctype) :=
  [("ullong", CType 64 false); ("llong", CType 64 true); ("ulong", CType 64 false); ("long", CType 64 true);
   ("uint", CType 32 false); ("int", CType 32 true); ("ushort", CType 16 false); ("short", CType 16 true);
   ("uchar", CType 8 false); ("char", CType 8 true); ("u64", CType 64 false); ("i64", CType 64 true);
   ("u32", CType 32 false); ("i32", CType 32 true); ("u16", CType 16 false); ("i16", CType 16 true);
   ("u8", CType 8 false); ("i8", CType 8 true); ("size", CType 64 false); ("ptrdiff", CType 64 true)]%string.

(** The letter, the format, and whether it is lowercase. *)
Definition letter_table : list (Z * format_str_spec * bool) :=
  [(100, FMT_SPEC_DEC, true); (68, FMT_SPEC_DEC, false); (120, FMT_SPEC_HEX, true); (88, FMT_SPEC_HEX, false); (111, FMT_SPEC_OCTAL, true);
   (79, FMT_SPEC_OCTAL, false); (113, FMT_SPEC_OCTAL, true); (81, FMT_SPEC_OCTAL, false); (99, FMT_SPEC_CHAR, true); (67, FMT_SPEC_CHAR, false)].

Definition mult_table : list (string * format_str_mult) :=
  [("nul", FMT_MULT_NUL); ("null", FMT_MULT_NUL); ("arr", FMT_MULT_ARR); ("array", FMT_MULT_ARR)]%string.

(** A specifier: the aliases, or type, letter, and multiple with a joiner. *)
Inductive directive :=
  | DirCStr
  | DirLStr
  | Dir (type : option (string * ctype)) (letter : Z * format_str_spec * bool) (mult : option (string * format_str_mult * option (list Z))).

Definition directive_ok (d : directive) : Prop :=
  match d with
  | DirCStr | DirLStr => True
  | Dir type letter mult =>
      match type with Some t => t ∈ type_table | None => True end ∧ letter ∈ letter_table ∧
      match mult with Some (name, m, joiner) => (name, m) ∈ mult_table ∧ char_close ∉ default [] joiner | None => True end
  end.

Definition mult_text (mult : option (string * format_str_mult * option (list Z))) : list Z :=
  match mult with
  | None => []
  | Some (name, _, joiner) => char_semicolon :: text name ++ match joiner with Some j => char_semicolon :: j | None => [] end
  end.

Definition type_text (type : option (string * ctype)) : list Z :=
  match type with Some (name, _) => text name ++ [char_semicolon] | None => [] end.

(** What stands between the brackets. *)
Definition body_text (d : directive) : list Z :=
  match d with
  | DirCStr => text "cs"
  | DirLStr => text "ls"
  | Dir type letter mult => type_text type ++ letter.1.1 :: mult_text mult
  end.

(** The aliases stand for "char;c;nul" and "char;c;array"; the default type is
    int. *)
Definition meaning (d : directive) : request :=
  match d with
  | DirCStr => Request (CType 8 true) FMT_SPEC_CHAR FMT_MULT_NUL true []
  | DirLStr => Request (CType 8 true) FMT_SPEC_CHAR FMT_MULT_ARR true []
  | Dir type letter mult =>
      Request (match type with Some (_, t) => t | None => CType 32 true end) letter.1.2
        (match mult with Some (_, m, _) => m | None => FMT_MULT_ONE end) letter.2
        (match mult with Some (_, _, Some j) => j | _ => [] end)
  end.

Inductive segment := SegText (s : list Z) | SegPercent | SegDir (d : directive).

Definition segment_text (g : segment) : list Z :=
  match g with
  | SegText s => s
  | SegPercent => [char_percent; char_percent]
  | SegDir d => char_percent :: char_open :: body_text d ++ [char_close]
  end.

(** Texts are not empty, have no percent sign, and do not follow each other. *)
Fixpoint segments_ok (gs : list segment) : Prop :=
  match gs with
  | [] => True
  | g :: gs =>
      match g with
      | SegText s => s ≠ [] ∧ char_percent ∉ s ∧ match gs with SegText _ :: _ => False | _ => True end
      | SegPercent => True
      | SegDir d => directive_ok d
      end ∧ segments_ok gs
  end.

Inductive prints : list segment → list va_value → list Z → Prop :=
  | prints_nil args : prints [] args []
  | prints_text s gs args out : prints gs args out → prints (SegText s :: gs) args (s ++ out)
  | prints_percent gs args out : prints gs args out → prints (SegPercent :: gs) args (char_percent :: out)
  | prints_dir d gs args args' s out : renders (meaning d) args s args' → prints gs args' out → prints (SegDir d :: gs) args (s ++ out).

(** The callback that collects the text. *)
Definition collect (s out : list Z) : bool * list Z := (true, out ++ s).

(** ** What the code prints *)

(** The text of the 64-bit value [v] that the code holds. *)
Definition emit_value (type : format_str_type) (spec : format_str_spec) (is_signed lowercase : bool) (v : Z) : list Z :=
  match spec with
  | FMT_SPEC_CHAR => [v mod 256]
  | FMT_SPEC_HEX => digits_text 16 (if lowercase then lower_digit else upper_digit) (Z.to_nat (2 * fmt_type_size type)) v
  | FMT_SPEC_OCTAL => digits_text 8 upper_digit (Z.to_nat ((8 * fmt_type_size type + 2) / 3)) v
  | FMT_SPEC_DEC => if is_signed then sign_text v ++ decimal_text (Z.abs v) else decimal_text (v mod 2 ^ 64)
  end.

Definition printable (spec : format_str_spec) (is_signed : bool) (v : Z) : Prop :=
  - 2 ^ 63 <= v < 2 ^ 63 ∧ (spec = FMT_SPEC_DEC → is_signed = true → v ≠ - 2 ^ 63).

(** The elements [i] to [i + n - 1] of an array in memory, as the code reads
    them. *)
Fixpoint elements (type : format_str_type) (bytes : list Z) (i n : nat) : option (list Z) :=
  match n with
  | O => Some []
  | S n => match fmt_type_index type bytes i with
           | Done v => match elements type bytes (S i) n with Some l => Some (v :: l) | None => None end
           | _ => None
           end
  end.

Inductive emits (f : format_spec) : list va_value → list Z → list va_value → Prop :=
  | emit_one n args : fs_mult f = FMT_MULT_ONE → let v := va_convert (fs_type f) (fs_signed f) n in printable (fs_spec f) (fs_signed f) v →
      emits f (VaNum n :: args) (emit_value (fs_type f) (fs_spec f) (fs_signed f) (fs_lowercase f) v) args
  | emit_arr bytes len l args : fs_mult f = FMT_MULT_ARR → elements (fs_type f) bytes 0 (Z.to_nat (u64 len)) = Some l →
      Forall (printable (fs_spec f) (fs_signed f)) l → Forall (fits 8) bytes →
      emits f (VaPtr bytes :: VaNum len :: args)
        (join (default [] (fs_joiner f)) (map (emit_value (fs_type f) (fs_spec f) (fs_signed f) (fs_lowercase f)) l)) args
  | emit_nul bytes n l args : fs_mult f = FMT_MULT_NUL → elements (fs_type f) bytes 0 (S n) = Some (l ++ [0]) → Forall (λ v, v ≠ 0) l →
      Forall (printable (fs_spec f) (fs_signed f)) l → Forall (fits 8) bytes →
      emits f (VaPtr bytes :: args)
        (join (default [] (fs_joiner f)) (map (emit_value (fs_type f) (fs_spec f) (fs_signed f) (fs_lowercase f)) l)) args.

(** ** Values *)

Lemma digit_loop_spec bits char : 0 < bits → ∀ n v buf, digit_loop bits char n v buf = digits_text (2 ^ bits) char n v ++ buf.
Proof.
  intros Hb. induction n as [|n IH]; intros v buf; cbn [digit_loop]; [done|]. rewrite IH. unfold digits_text. rewrite seq_S, map_app. cbn [map].
  rewrite <-app_assoc. cbn [app]. f_equal.
  - apply map_ext_in. intros i [_ Hi]%in_seq. do 2 f_equal. rewrite Z.shiftr_div_pow2 by lia.
    assert (0 < 2 ^ bits) by (apply Z.pow_pos_nonneg; lia). assert (0 < (2 ^ bits) ^ Z.of_nat (n - 1 - i)) by (apply Z.pow_pos_nonneg; lia).
    rewrite Z.div_div by lia. f_equal. rewrite <-Z.pow_succ_r by lia. f_equal. lia.
  - f_equal. f_equal. replace (S n - 1 - (0 + n))%nat with 0%nat by lia. rewrite Z.pow_0_r, Z.div_1_r.
    rewrite Z.sub_1_r, <-Z.ones_equiv, Z.land_ones by lia. done.
Qed.

Lemma digits_text_ext base c c' n v : 0 < base → (∀ d, 0 <= d < base → c d = c' d) → digits_text base c n v = digits_text base c' n v.
Proof. intros Hb E. apply map_ext. intros i. apply E, Z.mod_pos_bound. done. Qed.

Lemma digits_below (f g : Z → Z) (n : nat) : forallb (λ i, f (Z.of_nat i) =? g (Z.of_nat i)) (seq 0 n) = true → ∀ d, 0 <= d < Z.of_nat n → f d = g d.
Proof.
  intros F d Hd. rewrite forallb_forall in F. specialize (F (Z.to_nat d)). rewrite Z2Nat.id in F by lia. apply Z.eqb_eq, F, in_seq. lia.
Qed.

Lemma decimal_spec k : ∀ v d, shown_digits v d → (d <= k)%nat → decimal k v = decimal_string d v.
Proof.
  induction k as [|k IH]; intros v d (n&[Hv Hn]&->) Hk; cbn [decimal].
  { case_decide; lia. }
  destruct (Z.ltb_spec v 10) as [Hlt|Hge].
  - assert (Hd : (if decide (n = 0%nat) then 1%nat else n) = 1%nat).
    { case_decide; [done|]. destruct Hn as [?|Hn]; [done|]. destruct (decide (n = 1%nat)); [done|].
      assert (10 ^ 1 <= 10 ^ Z.of_nat (n - 1)) by (apply Z.pow_le_mono_r; lia). lia. }
    rewrite Hd, decimal_string_snoc, (Z.mod_small v) by lia. done.
  - destruct n as [|[|n]]; [simpl in Hv; lia|simpl in Hv; lia|]. rewrite decide_False in * by lia. destruct Hn as [?|Hn]; [lia|].
    rewrite decimal_string_snoc. f_equal. apply IH; [|lia]. exists (S n). rewrite decide_False by lia. split; [|done]. split.
    + split; [apply Z.div_pos; lia|]. apply Z.div_lt_upper_bound; [lia|]. rewrite <-Z.pow_succ_r by lia. rewrite <-Nat2Z.inj_succ. lia.
    + right. apply Z.div_le_lower_bound; [lia|]. rewrite <-Z.pow_succ_r by lia. rewrite <-Nat2Z.inj_succ. replace (S (S n - 1)) with (S (S n) - 1)%nat by lia. lia.
Qed.

Section output.
Context (mem_copy : list Z → nat → list Z → nat → nat → list Z) (Hm : mem_copy_law mem_copy).

Lemma uint_text v : fits 64 v → ∃ buf n, uint_to_cstr_packed mem_copy v (Some (replicate 21 0)) 21 = Done (Some buf, n) ∧ take n buf = decimal_text v.
Proof.
  intros Hv. destruct (decimal_digits_spec v Hv) as (d&E&Hd&Hle).
  eexists _, _. split; [apply uint_to_cstr_packed_spec; [done|done|rewrite length_replicate; lia|done|done|done]|].
  rewrite Nat.min_l, take_app_length' by (try rewrite decimal_string_length; lia). symmetry. apply decimal_spec; [done|lia].
Qed.

Lemma int_text v : - 2 ^ 63 < v < 2 ^ 63 → ∃ buf n, int_to_cstr_packed mem_copy v (Some (replicate 21 0)) 21 = Done (Some buf, n) ∧
  take n buf = sign_text v ++ decimal_text (Z.abs v).
Proof.
  intros Hv. destruct (decimal_digits_spec (Z.abs v)) as (d&E&Hd&Hle); [unfold fits; lia|].
  assert (Hs : (length (sign_text v) <= 1)%nat) by (unfold sign_text; destruct (v <? 0); simpl; lia).
  eexists _, _. split; [apply int_to_cstr_packed_spec; [done|done|rewrite length_replicate; lia|done|done|done]|].
  rewrite Nat.min_l by lia. rewrite app_assoc, take_app_length' by (rewrite length_app, decimal_string_length; lia).
  f_equal. symmetry. apply decimal_spec; [done|lia].
Qed.

Lemma output_spec_value type spec is_signed lowercase v out : printable spec is_signed v →
  format_str_output mem_copy collect type spec is_signed lowercase v out = Done (true, out ++ emit_value type spec is_signed lowercase v).
Proof.
  intros [Hv Hmin]. destruct spec; cbn [format_str_output emit_value].
  - destruct is_signed.
    + destruct (int_text v) as (buf&n&->&Ht); [specialize (Hmin eq_refl eq_refl); lia|]. simpl. by rewrite Ht.
    + destruct (uint_text (u64 v)) as (buf&n&->&Ht); [apply Z.mod_pos_bound; lia|]. simpl. by rewrite Ht.
  - rewrite digit_loop_spec, app_nil_r by lia. unfold collect. do 3 f_equal. rewrite Z.mul_comm. apply (digits_text_ext (2 ^ 4)); [done|].
    destruct lowercase; apply (digits_below _ _ 16); by vm_compute.
  - rewrite digit_loop_spec, app_nil_r by lia. unfold collect. do 3 f_equal.
    replace ((fmt_type_size type * 8 - 1) / 3 + 1) with ((8 * fmt_type_size type + 2) / 3) by (destruct type; done).
    apply (digits_text_ext (2 ^ 3)); [done|]. apply (digits_below _ _ 8); by vm_compute.
  - done.
Qed.

Notation render f := (emit_value (fs_type f) (fs_spec f) (fs_signed f) (fs_lowercase f)).

(** What follows the elements already printed. *)
Definition join_from (i : nat) (j : list Z) (l : list (list Z)) : list Z :=
  match i with O => join j l | S _ => concat (map (app j) l) end.

Lemma join_from_cons i j x l : join_from i j (x :: l) = (if (i =? 0)%nat then [] else j) ++ x ++ concat (map (app j) l).
Proof. destruct i; cbn; [done|by rewrite app_assoc]. Qed.

Lemma array_loop_spec f bytes n : ∀ i l out, elements (fs_type f) bytes i n = Some l → Forall (printable (fs_spec f) (fs_signed f)) l →
  array_loop mem_copy collect f bytes n i out = Done (true, out ++ join_from i (default [] (fs_joiner f)) (map (render f) l)).
Proof.
  induction n as [|n IH]; intros i l out El Hp; cbn [elements array_loop] in *; simplify_eq/=.
  { destruct i; simpl; by rewrite app_nil_r. }
  destruct (fmt_type_index _ _ _) as [v| | |] eqn:Ev; try done. destruct (elements _ _ (S i) n) as [l'|] eqn:El'; simplify_eq.
  apply Forall_cons in Hp as [Hv Hp]. cbn [map]. rewrite join_from_cons.
  destruct (i =? 0)%nat; cbn; rewrite output_spec_value by done; cbn; rewrite (IH _ _ _ El' Hp); cbn; by rewrite <-?app_assoc.
Qed.

Lemma nul_loop_spec f bytes l : ∀ i fuel out, elements (fs_type f) bytes i (S (length l)) = Some (l ++ [0]) → Forall (λ v, v ≠ 0) l →
  Forall (printable (fs_spec f) (fs_signed f)) l → (length l < fuel)%nat →
  nul_loop mem_copy collect fuel f bytes i out = Done (true, out ++ join_from i (default [] (fs_joiner f)) (map (render f) l)).
Proof.
  induction l as [|v l IH]; intros i fuel out El Hz Hp Hf; (destruct fuel as [|fuel]; [simpl in Hf; lia|]); cbn [nul_loop].
  - cbn in El. destruct (fmt_type_index _ _ _) as [v| | |] eqn:Ev; simplify_eq. simpl. destruct i; simpl; by rewrite app_nil_r.
  - change (elements (fs_type f) bytes i (S (S (length l))) = Some (v :: (l ++ [0]))) in El. cbn [elements] in El.
    destruct (fmt_type_index _ _ i) as [v'| | |] eqn:Ev; try done.
    destruct (elements (fs_type f) bytes (S i) (S (length l))) as [l'|] eqn:El'; cbn [elements] in El'; rewrite El' in El; simplify_eq.
    apply Forall_cons in Hp as [Hv Hp]. apply Forall_cons in Hz as [Hv0 Hz]. cbn [map]. rewrite join_from_cons. cbn [mbind outcome_bind].
    rewrite (proj2 (Z.eqb_neq _ _) Hv0). simpl in Hf.
    destruct (fs_joiner f) as [j|] eqn:Ej; destruct (i =? 0)%nat; cbn; rewrite output_spec_value by done; cbn;
      (rewrite (IH (S i) fuel); [|exact El'|done|done|lia]); cbn; rewrite ?Ej; by rewrite <-?app_assoc.
Qed.

Lemma elements_length type bytes n : ∀ i l, elements type bytes i n = Some l → length l = n ∧ ((0 < n)%nat → (i + n <= length bytes)%nat).
Proof.
  induction n as [|n IH]; intros i l E; cbn in E; simplify_eq; [split; [done|lia]|].
  destruct (fmt_type_index type bytes i) as [v| | |] eqn:Ev; try done. destruct (elements type bytes (S i) n) as [l'|] eqn:E'; simplify_eq.
  apply IH in E' as [<- Hn]. split; [done|]. intros _. unfold fmt_type_index in Ev. case_decide as Hl; [|done].
  rewrite length_take, length_drop in Hl. destruct l'; [|simpl in *; lia]. destruct type; cbn in *; lia.
Qed.

Lemma elements_char bytes n : ∀ i l, elements FMT_TYPE_CHAR bytes i n = Some l → l = take n (drop i bytes) ∧ (n = 0 ∨ i + n <= length bytes)%nat.
Proof.
  induction n as [|n IH]; intros i l E; cbn [elements] in E; simplify_eq; [split; [done|lia]|].
  destruct (fmt_type_index _ bytes i) as [v| | |] eqn:Ev; try done. destruct (elements _ bytes (S i) n) as [l'|] eqn:E'; simplify_eq.
  apply IH in E' as [-> Hn]. unfold fmt_type_index in Ev. cbn in Ev. rewrite Nat.mul_1_r in Ev.
  destruct (drop i bytes) as [|x r] eqn:Ed; [done|]. cbn in Ev. injection Ev as <-. rewrite ?Z.lor_0_r, ?Z.add_0_r.
  assert (drop (S i) bytes = r) as -> by (rewrite <-Nat.add_1_r, <-drop_drop, Ed; done).
  split; [done|]. assert (length (drop i bytes) = S (length r)) as Hl by (by rewrite Ed). rewrite length_drop in Hl. lia.
Qed.

Lemma render_string f l : is_string f = true → Forall (fits 8) l →
  join (default [] (fs_joiner f)) (map (render f) l) = l.
Proof.
  destruct f as [[] [] ? ? ? []]; try done. intros _ Hl. cbn. destruct Hl as [|x l Hx Hl]; [done|]. cbn. rewrite Z.mod_small by exact Hx. f_equal.
  induction Hl as [|y l Hy Hl IH]; [done|]. cbn. by rewrite Z.mod_small, IH by exact Hy.
Qed.

Lemma cstr_of_elements bytes l : elements FMT_TYPE_CHAR bytes 0 (S (length l)) = Some (l ++ [0]) → Forall (λ v, v ≠ 0) l → cstr_of bytes = Done l.
Proof.
  intros [E [?|Hle]]%elements_char Hz; [done|]. rewrite drop_0 in E.
  assert (El : bytes = l ++ 0 :: drop (S (length l)) bytes) by (rewrite <-(take_drop (S (length l)) bytes) at 1; by rewrite <-E, <-app_assoc).
  unfold cstr_of. rewrite El, (proj2 (list_find_Some _ _ (length l) 0)).
  - by rewrite take_app_length.
  - rewrite lookup_app_r, Nat.sub_diag by lia. split_and!; [done|done|]. intros j y Hj Hlt. rewrite lookup_app_l in Hj by done.
    by eapply (Forall_lookup_1 _ _ _ _ Hz).
Qed.

Lemma output_spec_emits f args s args' out : emits f args s args' →
  output_spec mem_copy collect f args out = Done (true, out ++ s, args').
Proof.
  intros R. destruct R as [n args E v Hp|bytes len l args E El Hp Hb|bytes n l args E El Hz Hp Hb]; unfold output_spec; rewrite E; cbn -[nul_loop array_loop format_str_output].
  - by rewrite output_spec_value.
  - destruct (is_string f) eqn:Es.
    + assert (Et : fs_type f = FMT_TYPE_CHAR) by (destruct f as [[] [] ? ? ? []]; done). rewrite Et in El.
      apply elements_char in El as [-> Hl]. rewrite decide_True by lia. rewrite drop_0. cbn. unfold collect. rewrite render_string; [done|done|].
      by apply Forall_take.
    + rewrite (array_loop_spec f bytes _ 0 l out El Hp). done.
  - assert (Hn : n = length l) by (apply elements_length in El as [El _]; rewrite length_app in El; simpl in El; lia). subst n.
    destruct (is_string f) eqn:Es.
    + assert (Et : fs_type f = FMT_TYPE_CHAR) by (destruct f as [[] [] ? ? ? []]; done). rewrite Et in El.
      rewrite (cstr_of_elements _ l El Hz). cbn. unfold collect. rewrite render_string; [done|done|].
      apply elements_char in El as [El _]. assert (Forall (fits 8) (l ++ [0])) as [? _]%Forall_app by (rewrite El; by apply Forall_take). done.
    + rewrite (nul_loop_spec f bytes l 0 _ out El Hz Hp); [done|]. apply elements_length in El as [_ El]. lia.
Qed.
End output.

(** ** The code prints what the reference says *)

Definition implements (f : format_spec) (q : request) : Prop :=
  8 * fmt_type_size (fs_type f) = ct_width (rq_type q) ∧ fs_spec f = rq_spec q ∧ fs_mult f = rq_mult q ∧ fs_lowercase f = rq_lowercase q ∧
  default [] (fs_joiner f) = rq_joiner q ∧ (rq_spec q = FMT_SPEC_CHAR ∨ fs_signed f = ct_signed (rq_type q)).

(** The 64-bit value [x] stands for the value [v] of the type. *)
Definition stands_for (t : ctype) (spec : format_str_spec) (v x : Z) : Prop :=
  - 2 ^ 63 <= x < 2 ^ 63 ∧ x mod 2 ^ ct_width t = v mod 2 ^ ct_width t ∧
  match spec with
  | FMT_SPEC_DEC => if ct_signed t then x = v ∧ v ≠ - 2 ^ 63 else x mod 2 ^ 64 = v
  | FMT_SPEC_OCTAL => x = v mod 2 ^ ct_width t
  | _ => True
  end.

Lemma digits_text_mod b c n v : 0 < b → digits_text (2 ^ b) c n (v mod 2 ^ (b * Z.of_nat n)) = digits_text (2 ^ b) c n v.
Proof.
  intros Hb. apply map_ext_in. intros i [_ Hi]%in_seq. f_equal. assert (0 <= b * Z.of_nat (n - 1 - i) ∧ b * Z.of_nat (n - 1 - i) + b <= b * Z.of_nat n) as Hle by (split; nia).
  rewrite <-!Z.pow_mul_r by lia. rewrite <-!Z.shiftr_div_pow2, <-!Z.land_ones by lia.
  apply Z.bits_inj'. intros k Hk. rewrite !Z.land_spec, !Z.testbit_ones by lia. destruct (decide (k < b)) as [Hlt|]; [|by rewrite (proj2 (Z.ltb_ge _ _)), !andb_false_r by lia].
  f_equal. rewrite !Z.shiftr_spec, Z.land_spec, Z.testbit_ones by lia. rewrite (proj2 (Z.leb_le 0 _)), (proj2 (Z.ltb_lt _ _)) by lia. by rewrite andb_true_r.
Qed.

Lemma emit_value_text f q v x : implements f q → stands_for (rq_type q) (rq_spec q) v x → printable (fs_spec f) (fs_signed f) x ∧
  emit_value (fs_type f) (fs_spec f) (fs_signed f) (fs_lowercase f) x = value_text (rq_type q) (rq_spec q) (rq_lowercase q) v.
Proof.
  intros (Hw&Es&_&El&_&Hs) (Hx&Hmod&Hst). rewrite Es, El. destruct (rq_spec q); cbn [emit_value value_text].
  - destruct Hs as [?| ->]; [done|]. destruct (ct_signed (rq_type q)).
    + destruct Hst as [-> Hne]. by split.
    + rewrite Hst. split; [by split|]. assert (0 <= v) by (rewrite <-Hst; apply Z.mod_pos_bound; lia). by rewrite (proj2 (Z.ltb_ge _ _)), Z.abs_eq by lia.
  - split; [by split|]. rewrite <-Hmod, <-Hw. replace (8 * fmt_type_size (fs_type f) / 4) with (2 * fmt_type_size (fs_type f)) by by destruct (fs_type f).
    replace (8 * fmt_type_size (fs_type f)) with (4 * Z.of_nat (Z.to_nat (2 * fmt_type_size (fs_type f)))) by by destruct (fs_type f).
    symmetry. by apply (digits_text_mod 4).
  - split; [by split|]. by rewrite Hst, Hw.
  - split; [by split|]. f_equal. assert (∀ a, a mod 256 = (a mod 2 ^ ct_width (rq_type q)) mod 256) as E; [|by rewrite E, Hmod, <-E].
    intros a. rewrite <-Hw. apply (Znumtheory.Zmod_div_mod 256); [lia|by destruct (fs_type f)|]. destruct (fs_type f); cbn [fmt_type_size]; apply Z.mod_divide; done.
Qed.

Lemma signed_congruent w x y : 0 < w → x mod 2 ^ w = y mod 2 ^ w → - 2 ^ (w - 1) <= y < 2 ^ (w - 1) → signed w x = y.
Proof. intros Hw E Hy. rewrite <-(signed_range w y Hw Hy) at 1. unfold signed. by rewrite E. Qed.

Lemma signed_mod w x : 0 < w → signed w x mod 2 ^ w = x mod 2 ^ w ∧ - 2 ^ (w - 1) <= signed w x < 2 ^ (w - 1).
Proof.
  intros Hw. unfold signed. assert (2 ^ w = 2 * 2 ^ (w - 1)) as E by (rewrite <-Z.pow_succ_r by lia; f_equal; lia). assert (0 < 2 ^ (w - 1)) by (apply Z.pow_pos_nonneg; lia).
  pose proof (Z.mod_pos_bound x (2 ^ w) ltac:(lia)). cbv zeta. destruct (Z.ltb_spec (x mod 2 ^ w) (2 ^ (w - 1))).
  - rewrite Z.mod_mod by lia. lia.
  - replace (x mod 2 ^ w - 2 ^ w) with (x mod 2 ^ w + (-1) * 2 ^ w) by lia. rewrite Z.mod_add, Z.mod_mod by lia. lia.
Qed.

Lemma type_widths type : 8 * fmt_type_size type = 8 ∨ 8 * fmt_type_size type = 16 ∨ 8 * fmt_type_size type = 32 ∨ 8 * fmt_type_size type = 64.
Proof. destruct type; cbn; tauto. Qed.

(** One argument. *)
Lemma convert_stands f q n v : implements f q → of_type (rq_type q) v → n mod 2 ^ ct_width (rq_type q) = v mod 2 ^ ct_width (rq_type q) →
  value_ok (rq_spec q) v → stands_for (rq_type q) (rq_spec q) v (va_convert (fs_type f) (fs_signed f) n).
Proof.
  intros (Hw&_&_&_&_&Hs) Hv Hn Hok. destruct (rq_type q) as [w sgn]. unfold of_type, stands_for in *. cbn [ct_width ct_signed] in *.
  assert (va_convert (fs_type f) (fs_signed f) n = if fs_signed f || (w =? 64) then signed w n else n mod 2 ^ w) as ->.
  { unfold va_convert. rewrite <-Hw. by destruct (fs_type f), (fs_signed f). }
  assert (0 < w <= 64 ∧ (w < 64 → w <= 32)) as [Hw64 Hw32] by (pose proof (type_widths (fs_type f)); lia). clear Hw.
  destruct (signed_mod w n) as [Hm Hr]; [lia|]. assert (2 ^ (w - 1) <= 2 ^ 63) by (apply Z.pow_le_mono_r; lia).
  assert (w < 64 → 2 ^ w <= 2 ^ 32) by (intros; apply Z.pow_le_mono_r; lia). assert (2 ^ w = 2 * 2 ^ (w - 1)) by (rewrite <-Z.pow_succ_r by lia; f_equal; lia).
  pose proof (Z.mod_pos_bound n (2 ^ w) ltac:(lia)) as Hb. split; [|split].
  - destruct (fs_signed f || (w =? 64)) eqn:E; [lia|]. apply orb_false_elim in E as [_ E%Z.eqb_neq]. lia.
  - destruct (_ || _); [by rewrite Hm|by rewrite Z.mod_mod by lia].
  - destruct (rq_spec q); try done; (destruct Hs as [?| ->]; [done|]); cbn [value_ok] in Hok.
    + destruct sgn; cbn [orb]; [split; [apply signed_congruent; [lia|done|done]|done]|]. rewrite (Z.mod_small v) in Hn by lia.
      destruct (Z.eqb_spec w 64) as [->|Hne]; [by rewrite Hm|]. rewrite Hn. apply Z.mod_small. lia.
    + destruct sgn; cbn [orb]; [rewrite (Z.mod_small v) in * by lia; rewrite (signed_congruent w n v); rewrite ?(Z.mod_small v); lia|].
      destruct (Z.eqb_spec w 64) as [->|Hne]; [|done]. rewrite (Z.mod_small v) in * by lia. apply signed_congruent; rewrite ?(Z.mod_small v); lia.
Qed.

(** An element of an array. *)
Definition read_element (type : format_str_type) (v : Z) : Z :=
  match type with FMT_TYPE_CHAR => v mod 2 ^ 8 | _ => signed (8 * fmt_type_size type) v end.

Lemma element_stands f q v : implements f q → of_type (rq_type q) v → element_ok (rq_type q) (rq_spec q) v →
  stands_for (rq_type q) (rq_spec q) v (read_element (fs_type f) v).
Proof.
  intros (Hw&_&_&_&_&_) Hv Hok. destruct (rq_type q) as [w sgn]. unfold of_type, stands_for, element_ok in *. cbn [ct_width ct_signed] in *.
  assert (read_element (fs_type f) v = if w =? 8 then v mod 2 ^ 8 else signed w v) as ->.
  { unfold read_element. rewrite <-Hw. by destruct (fs_type f). }
  assert (0 < w <= 64) as Hw64 by (pose proof (type_widths (fs_type f)); lia). clear Hw.
  destruct (signed_mod w v) as [Hm Hr]; [lia|]. assert (2 ^ (w - 1) <= 2 ^ 63) by (apply Z.pow_le_mono_r; lia).
  assert (2 ^ w = 2 * 2 ^ (w - 1)) by (rewrite <-Z.pow_succ_r by lia; f_equal; lia). assert (w < 64 → 2 ^ w <= 2 ^ 63) by (intros; apply Z.pow_le_mono_r; lia).
  pose proof (Z.mod_pos_bound v (2 ^ 8) ltac:(lia)) as Hb. destruct (Z.eqb_spec w 8) as [->|Hne].
  - rewrite decide_True in Hok by done. rewrite Z.mod_mod by lia. split_and!; [lia|lia|done|]. destruct (rq_spec q); try done.
    destruct Hok as [Hne [?|Hok]]; [lia|]. destruct sgn; [destruct Hok as [?|Hok]; [done|]|]; by rewrite !(Z.mod_small v) by lia.
  - rewrite decide_False in Hok by done. split_and!; [lia|lia|done|]. destruct (rq_spec q); try done.
    + destruct Hok as [Hmin Hok]. destruct sgn; [split; [by apply signed_range; lia|done]|]. destruct (decide (w = 64)) as [->|Hn64]; [rewrite Hm; by apply Z.mod_small|].
      rewrite signed_range by lia. apply Z.mod_small. lia.
    + destruct Hok as [Hpos [?|Hok]]; [done|]. rewrite signed_range, Z.mod_small by lia. done.
Qed.

Lemma to_bytes_element type (v : Z) (k : nat) (l rest : list Z) (Hk : k = Z.to_nat (fmt_type_size type)) (pre : list Z) (i : nat) : length pre = (i * k)%nat →
  fmt_type_index type (pre ++ to_bytes k (v mod 2 ^ (8 * fmt_type_size type)) ++ rest) i = Done (read_element type v).
Proof.
  intros Hl. unfold fmt_type_index. rewrite <-Hk, <-Hl, drop_app_length. rewrite take_app_length' by by rewrite length_to_bytes.
  rewrite decide_True by by rewrite length_to_bytes. rewrite of_to_bytes.
  - unfold read_element, signed. destruct type; by rewrite ?Z.mod_mod by done.
  - subst k. rewrite Z2Nat.id by by destruct type. apply Z.mod_pos_bound. by destruct type.
Qed.

(** The array that the reference puts in memory, as the code reads it. *)
Lemma elements_array f q rest l : implements f q → ∀ pre i, length pre = (i * Z.to_nat (fmt_type_size (fs_type f)))%nat →
  elements (fs_type f) (pre ++ array_bytes (rq_type q) l ++ rest) i (length l) = Some (map (read_element (fs_type f)) l).
Proof.
  intros (Hw&_). assert (ct_width (rq_type q) / 8 = fmt_type_size (fs_type f)) as E8 by (rewrite <-Hw; by destruct (fs_type f)).
  induction l as [|v l IH]; intros pre i Hl; [done|]. cbn [length elements map]. unfold array_bytes. cbn [map concat]. rewrite E8, <-Hw, <-app_assoc.
  rewrite (to_bytes_element _ v _ l) by done. fold (array_bytes (rq_type q) l). set (b := to_bytes _ _).
  replace (concat _) with (array_bytes (rq_type q) l) by by unfold array_bytes; rewrite E8, <-Hw. rewrite app_assoc, IH; [done|].
  unfold b. rewrite length_app, length_to_bytes. lia.
Qed.

Lemma array_bytes_fit q l rest : Forall (fits 8) rest → Forall (fits 8) (array_bytes (rq_type q) l ++ rest).
Proof. intros Hr. apply Forall_app. split; [|done]. apply Forall_concat, Forall_map, Forall_true. intros v. apply to_bytes_fits. Qed.

(** The whole array. *)
Lemma emit_elements f q l : implements f q → Forall (of_type (rq_type q)) l → Forall (element_ok (rq_type q) (rq_spec q)) l →
  Forall (printable (fs_spec f) (fs_signed f)) (map (read_element (fs_type f)) l) ∧
  join (default [] (fs_joiner f)) (map (emit_value (fs_type f) (fs_spec f) (fs_signed f) (fs_lowercase f)) (map (read_element (fs_type f)) l)) = elements_text q l.
Proof.
  intros Hf Ht Ho. unfold elements_text. destruct Hf as (Hf1&Hf2&Hf3&Hf4&Hj&Hf6). rewrite Hj.
  assert (implements f q) as Hf by done.
  assert (Forall (λ v, printable (fs_spec f) (fs_signed f) (read_element (fs_type f) v) ∧
    emit_value (fs_type f) (fs_spec f) (fs_signed f) (fs_lowercase f) (read_element (fs_type f) v) = value_text (rq_type q) (rq_spec q) (rq_lowercase q) v) l) as Hall.
  { rewrite Forall_forall in *. intros v Hv. apply (emit_value_text f q); [done|]. apply element_stands; auto. }
  split; [rewrite Forall_map; eapply Forall_impl; [exact Hall|]; by intros v [? _]|]. f_equal. rewrite map_map. apply map_ext_in. intros v Hv.
  rewrite Forall_forall in Hall. apply Hall. by apply list_elem_of_In.
Qed.

Lemma read_nonzero f q v : implements f q → of_type (rq_type q) v → v ≠ 0 → read_element (fs_type f) v ≠ 0.
Proof.
  intros (Hw&_) Hv Hne Hz. apply Hne. unfold of_type in Hv. rewrite <-Hw in Hv.
  assert (v mod 2 ^ (8 * fmt_type_size (fs_type f)) = 0) as Hm.
  { destruct (signed_mod (8 * fmt_type_size (fs_type f)) v) as [Hm _]; [by destruct (fs_type f)|]. unfold read_element in Hz.
    destruct (fs_type f); [done|..]; by rewrite Hz, Z.mod_0_l in Hm by done. }
  apply Z.mod_divide in Hm as [k ->]; [|by destruct (fs_type f)]. destruct (fs_type f); cbn in *; destruct (ct_signed (rq_type q)); lia.
Qed.

Lemma renders_emits f q args s args' : implements f q → renders q args s args' → emits f args s args'.
Proof.
  intros Hf R. assert (fs_mult f = rq_mult q) as Em by apply Hf. destruct R as [n v args Eq Hv Hn Hok|l rest len args Eq Hv Hok Hlen Hrest|l rest args Eq Hv Hok Hz Hrest]; rewrite Eq in Em.
  - destruct (emit_value_text f q v _ Hf (convert_stands f q n v Hf Hv Hn Hok)) as [Hp <-]. by apply emit_one.
  - destruct (emit_elements f q l Hf Hv Hok) as [Hp <-]. apply emit_arr; [done| |done|by apply array_bytes_fit].
    unfold wrap. rewrite Hlen, Nat2Z.id. by apply (elements_array f q rest l Hf [] 0).
  - destruct (emit_elements f q l Hf Hv Hok) as [Hp <-]. apply (emit_nul _ _ (length l)); [done| | |done|by apply array_bytes_fit].
    + pose proof (elements_array f q rest (l ++ [0]) Hf [] 0 eq_refl) as E. rewrite length_app, Nat.add_1_r in E. cbn [app] in E. rewrite E, map_app. cbn [map].
      do 3 f_equal. by destruct (fs_type f).
    + rewrite Forall_map. rewrite Forall_forall in *. intros v Hin. apply (read_nonzero f q); auto.
Qed.

(** ** The language *)

Section language.
Context `{!PathStrings, !PathStringsSpec, !FormatStrings, !FormatStringsSpec}.

Lemma mem_index_first a b c : c ∉ a → mem_index (a ++ c :: b) (length (a ++ c :: b)) c = Some (length a).
Proof.
  intros Ha. rewrite mem_index_spec, take_ge by done. rewrite (proj2 (list_find_Some _ _ (length a) c)); [done|].
  rewrite lookup_app_r, Nat.sub_diag by lia. split_and!; [done|done|]. intros j y Hj Hlt ->. rewrite lookup_app_l in Hj by done.
  by apply Ha, list_elem_of_lookup_2 with j.
Qed.

Lemma mem_index_second l b c : l ≠ c → mem_index (l :: c :: b) (length (l :: c :: b)) c = Some 1%nat.
Proof. intros Hl. apply (mem_index_first [l]). rewrite list_elem_of_singleton. congruence. Qed.

Lemma mem_index_none a c : c ∉ a → mem_index a (length a) c = None.
Proof.
  intros Ha. rewrite mem_index_spec, take_ge by done. rewrite (proj2 (list_find_None _ _)); [done|].
  apply Forall_forall. intros y Hy ->. done.
Qed.

Lemma same_name a b : (length a =? length b)%nat && cstr_prefix_equals_case a b (length b) = bool_decide (map to_lower a = map to_lower b).
Proof.
  destruct (Nat.eqb_spec (length a) (length b)) as [El|En]; cbn.
  - rewrite cstr_prefix_equals_case_spec by lia. by rewrite !take_ge by lia.
  - symmetry. apply bool_decide_eq_false. intros E%(f_equal length). rewrite !length_map in E. done.
Qed.

(** What holds of every entry of the tables. *)
Lemma type_entry name t : (name, t) ∈ type_table →
  (∃ ty, format_str_parse_type (text name) = Some (ty, ct_signed t) ∧ 8 * fmt_type_size ty = ct_width t) ∧
  char_semicolon ∉ text name ∧ char_close ∉ text name ∧ (2 <= length (text name))%nat.
Proof.
  assert (F : bool_decide (Forall (λ x, match format_str_parse_type (text x.1) with
    | Some (ty, s) => Bool.eqb s (ct_signed x.2) && (8 * fmt_type_size ty =? ct_width x.2) | None => false end = true ∧ char_semicolon ∉ text x.1 ∧
    char_close ∉ text x.1 ∧ (2 <= length (text x.1))%nat) type_table) = true) by by vm_compute.
  apply bool_decide_eq_true in F. intros Hin. apply (proj1 (Forall_forall _ _) F) in Hin as [Hp Hrest]. split; [|exact Hrest]. cbn [fst snd] in Hp.
  destruct (format_str_parse_type (text name)) as [[ty s]|]; [|done]. apply andb_prop in Hp as [->%Bool.eqb_prop Hw%Z.eqb_eq]. by exists ty.
Qed.

Lemma letter_entry l s b : (l, s, b) ∈ letter_table → parse_letter l = Some s ∧ Z.testbit l 5 = b ∧ l ≠ char_semicolon ∧ l ≠ char_close.
Proof.
  assert (F : bool_decide (Forall (λ x, parse_letter x.1.1 = Some x.1.2 ∧ Z.testbit x.1.1 5 = x.2 ∧ x.1.1 ≠ char_semicolon ∧ x.1.1 ≠ char_close)
    letter_table) = true) by by vm_compute.
  apply bool_decide_eq_true in F. intros Hin. by apply (proj1 (Forall_forall _ _) F) in Hin.
Qed.

Lemma mult_entry name m : (name, m) ∈ mult_table →
  format_str_parse_mult (text name) = Some m ∧ char_semicolon ∉ text name ∧ char_close ∉ text name ∧ (3 <= length (text name))%nat.
Proof.
  pose (p a := let same t := bool_decide (map to_lower a = map to_lower (text t)) in
    if same "array"%string || same "arr"%string then Some FMT_MULT_ARR else if same "null"%string || same "nul"%string then Some FMT_MULT_NUL else None).
  assert (Ep : ∀ a, format_str_parse_mult a = p a) by (intros a; unfold format_str_parse_mult, p; by rewrite !same_name).
  assert (F : bool_decide (Forall (λ x, p (text x.1) = Some x.2 ∧ char_semicolon ∉ text x.1 ∧ char_close ∉ text x.1 ∧
    (3 <= length (text x.1))%nat) mult_table) = true) by by vm_compute.
  apply bool_decide_eq_true in F. intros Hin. rewrite Ep. by apply (proj1 (Forall_forall _ _) F) in Hin.
Qed.

Lemma parse_mult_part_spec letter spec b mult : (letter, spec, b) ∈ letter_table →
  match mult with Some (name, m, joiner) => (name, m) ∈ mult_table ∧ char_close ∉ default [] joiner | None => True end →
  parse_mult_part (letter :: mult_text mult) =
    Some (match mult with Some (_, m, _) => m | None => FMT_MULT_ONE end, match mult with Some (_, _, j) => j | None => None end).
Proof.
  intros (_&_&Hl&_)%letter_entry Hm. unfold parse_mult_part. destruct mult as [[[name m] joiner]|]; cbn [mult_text].
  - destruct Hm as [(Em&Hn&_&_)%mult_entry _]. rewrite mem_index_second by done.
    cbn [length Nat.add drop]. rewrite drop_0. destruct joiner as [j|].
    + rewrite mem_index_first by done. rewrite take_app_length, Em. rewrite <-Nat.add_1_r. change (?x :: j) with ([x] ++ j). rewrite app_assoc.
      rewrite drop_app_length' by (rewrite length_app; simpl; lia). done.
    + rewrite app_nil_r, mem_index_none, Em by done. done.
  - by rewrite mem_index_none by (rewrite list_elem_of_singleton; congruence).
Qed.

Lemma parse_type_part_spec type letter spec b mult : (letter, spec, b) ∈ letter_table →
  match type with Some t => t ∈ type_table | None => True end → let t := match type with Some (_, t) => t | None => CType 32 true end in
  ∃ ty, parse_type_part (type_text type ++ letter :: mult_text mult) = Some (ty, ct_signed t, letter :: mult_text mult) ∧ 8 * fmt_type_size ty = ct_width t.
Proof.
  intros (_&_&Hl&_)%letter_entry Ht. unfold parse_type_part. destruct type as [[name t]|]; cbn [type_text app].
  - apply type_entry in Ht as ((ty&Et&Hw)&Hn&_&Hlen). exists ty. split; [|done]. rewrite <-app_assoc. cbn [app]. rewrite mem_index_first by done.
    rewrite take_app_length, Et. change (char_semicolon :: ?r) with ([char_semicolon] ++ r). rewrite app_assoc.
    rewrite drop_app_length' by (rewrite length_app; simpl; lia). destruct (length (text name)) as [|[|]]; [lia|lia|done].
  - exists FMT_TYPE_INT. split; [|done]. destruct mult as [[[name m] joiner]|]; cbn [mult_text].
    + by rewrite mem_index_second by done.
    + by rewrite mem_index_none by (rewrite list_elem_of_singleton; congruence).
Qed.

Lemma body_length_not_2 type letter mult : directive_ok (Dir type letter mult) → length (body_text (Dir type letter mult)) ≠ 2%nat.
Proof.
  intros (Ht&_&Hm). cbn [body_text]. rewrite length_app. cbn [length]. destruct type as [[name t]|]; cbn [type_text].
  - apply type_entry in Ht as (_&_&_&Hl). rewrite length_app. simpl. lia.
  - destruct mult as [[[name m] joiner]|]; cbn; [|lia]. destruct Hm as [(_&_&_&Hl)%mult_entry _]. rewrite length_app. lia.
Qed.

Lemma parse_spec_body d : directive_ok d → ∃ f, parse_spec (body_text d) = Some f ∧ implements f (meaning d).
Proof.
  destruct d as [| |type [[letter spec] b] mult]; [intros _; (eexists; split; [reflexivity|]; split_and!; try done; by left)..|]. intros Hok. unfold parse_spec.
  rewrite (proj2 (Nat.eqb_neq _ _) (body_length_not_2 _ _ _ Hok)). cbn [andb]. destruct Hok as (Ht&Hl&Hm). cbn [body_text fst snd].
  destruct (parse_type_part_spec _ _ _ _ mult Hl Ht) as (ty&->&Hw). rewrite (parse_mult_part_spec _ _ _ _ Hl Hm). apply letter_entry in Hl as (->&->&_).
  eexists. split; [reflexivity|]. split_and!; [done|done|done|done| |by right]. by destruct mult as [[[? ?] []]|].
Qed.

Lemma body_closed d : directive_ok d → char_close ∉ body_text d.
Proof.
  destruct d as [| |type [[letter spec] b] mult]; [by apply (bool_decide_unpack _); vm_compute..|]. intros (Ht&(_&_&_&Hl)%letter_entry&Hm).
  cbn [body_text fst snd]. rewrite not_elem_of_app, not_elem_of_cons. split_and!.
  - destruct type as [[name t]|]; cbn [type_text]; [|apply not_elem_of_nil]. apply type_entry in Ht as (_&_&Hc&_).
    rewrite not_elem_of_app, list_elem_of_singleton. by split.
  - congruence.
  - destruct mult as [[[name m] joiner]|]; cbn [mult_text]; [|apply not_elem_of_nil]. destruct Hm as [(_&_&Hc&_)%mult_entry Hj].
    rewrite not_elem_of_cons, not_elem_of_app. split_and!; [done|done|]. destruct joiner; [|apply not_elem_of_nil].
    rewrite not_elem_of_cons. by split.
Qed.

Lemma body_nonempty d : (1 <= length (body_text d))%nat.
Proof. destruct d; cbn; [lia|lia|]. rewrite length_app. simpl. lia. Qed.

Lemma concat_texts_start gs : segments_ok gs → match gs with SegText _ :: _ => False | _ => True end →
  concat (map segment_text gs) = [] ∨ ∃ r, concat (map segment_text gs) = char_percent :: r.
Proof. destruct gs as [|[s| |d] gs]; [by left|done|right; by eexists..]. Qed.

Lemma find_percent s r : char_percent ∉ s → r = [] ∨ (∃ r', r = char_percent :: r') →
  match list_find (.= char_percent) (s ++ r) with Some (n, _) => n | None => length (s ++ r) end = length s.
Proof.
  intros Hs [->|[r' ->]].
  - rewrite app_nil_r, (proj2 (list_find_None _ _)); [done|]. apply Forall_forall. by intros y Hy ->.
  - rewrite (proj2 (list_find_Some _ _ (length s) char_percent)); [done|]. rewrite lookup_app_r, Nat.sub_diag by lia. split_and!; [done|done|].
    intros j y Hj Hlt ->. rewrite lookup_app_l in Hj by done. by apply Hs, list_elem_of_lookup_2 with j.
Qed.

Section segments.
Context (mem_copy : list Z → nat → list Z → nat → nat → list Z) (Hm : mem_copy_law mem_copy).

(** One segment of each kind. *)
Lemma va_text fuel s r args out : s ≠ [] → char_percent ∉ s → r = [] ∨ (∃ r', r = char_percent :: r') →
  format_str_va mem_copy collect (S fuel) (s ++ r) args out = format_str_va mem_copy collect fuel r args (out ++ s).
Proof.
  intros Hne Hs Hr. pose proof (find_percent s r Hs Hr) as Hf. destruct s as [|x s]; [done|]. apply not_elem_of_cons in Hs as [Hx _].
  cbn [format_str_va app]. rewrite (proj2 (Z.eqb_neq x char_percent)) by congruence. cbn [andb].
  change (x :: s ++ r) with ((x :: s) ++ r). rewrite Hf. cbn [collect negb]. by rewrite take_app_length, drop_app_length.
Qed.

Lemma va_directive fuel d r args args' s out : directive_ok d → renders (meaning d) args s args' →
  format_str_va mem_copy collect (S fuel) (segment_text (SegDir d) ++ r) args out = format_str_va mem_copy collect fuel r args' (out ++ s).
Proof.
  intros Hd R. pose proof (body_nonempty d). set (msg := segment_text (SegDir d) ++ r).
  assert (Emsg : msg = (char_percent :: char_open :: body_text d) ++ char_close :: r) by (unfold msg; cbn; by rewrite <-app_assoc).
  assert (Hi : mem_index msg (length msg) char_close = Some (2 + length (body_text d))%nat).
  { rewrite Emsg, mem_index_first; [done|]. rewrite !not_elem_of_cons. split_and!; [done|done|by apply body_closed]. }
  assert (Hl : (3 <? length msg)%nat = true) by (apply Nat.ltb_lt; rewrite Emsg, length_app; cbn; lia).
  assert (E1 : at_ msg 1 = char_open) by done.
  assert (Et : take (length (body_text d)) (drop 2 msg) = body_text d) by (rewrite Emsg; cbn [app drop]; by rewrite drop_0, take_app_length).
  assert (Er : drop (2 + length (body_text d) + 1) msg = r).
  { rewrite Emsg. change (char_close :: r) with ([char_close] ++ r). rewrite app_assoc. apply drop_app_length'. rewrite length_app. cbn. lia. }
  clearbody msg. destruct msg as [|x msg]; [done|]. assert (x = char_percent) as -> by (cbn in Emsg; congruence).
  cbn [format_str_va]. rewrite Hl, E1, Hi, andb_false_r. cbn [Z.eqb andb negb]. change (char_open =? char_open) with true. cbn [negb].
  replace (2 + length (body_text d) - 2)%nat with (length (body_text d)) by lia. destruct (parse_spec_body d Hd) as (f&Ep&Hf). rewrite Et, Ep.
  rewrite (output_spec_emits mem_copy Hm f args s args' out (renders_emits f _ _ _ _ Hf R)). cbn [mbind outcome_bind negb]. by rewrite Er.
Qed.

Lemma va_segments gs args s : prints gs args s → segments_ok gs → ∀ fuel out, (length gs <= fuel)%nat →
  format_str_va mem_copy collect fuel (concat (map segment_text gs)) args out = Done (true, out ++ s).
Proof.
  induction 1 as [args|s gs args out P IH|gs args out P IH|d gs args args' s out R P IH]; intros Hok fuel acc Hf.
  { destruct fuel; cbn; by rewrite app_nil_r. }
  all: destruct Hok as [Hg Hok]; (destruct fuel as [|fuel]; [simpl in Hf; lia|]); cbn [length] in Hf; cbn [map concat].
  - destruct Hg as (Hne&Hs&Hnext). cbn [segment_text]. rewrite va_text; [|done|done|by apply concat_texts_start]. rewrite IH by (done || lia). by rewrite <-app_assoc.
  - cbn. rewrite IH by (done || lia). by rewrite <-app_assoc.
  - rewrite (va_directive _ _ _ _ _ _ _ Hg R), IH by (done || lia). by rewrite <-app_assoc.
Qed.
End segments.
End language.

(** ** The theorems *)

(** C17: A format string made of text, doubled percent signs and well-formed
    specifiers of the table in badge_format_str.h (aliases; or type, letter, and
    multiple with a joiner) prints exactly the text that the reference gives,
    within one round for each part: a value that C converted to the type, with the
    digits of its base; the elements of an array of the type, up to its length or
    its zero, with the joiner between them.  Left out by [value_ok] and
    [element_ok], because the code prints something else: in decimal the least
    64-bit number, negative elements of i8 and char arrays, and elements of u16 and
    u32 arrays from the middle of their range on; in octal negative numbers,
    numbers from 2^63 on, and elements from the middle of their range on. *)
Theorem format_str_correct `{!PathStrings, !PathStringsSpec, !FormatStrings, !FormatStringsSpec} mem_copy gs args out fuel :
  mem_copy_law mem_copy → segments_ok gs → prints gs args out → (length gs <= fuel)%nat →
  format_str_va mem_copy collect fuel (concat (map segment_text gs)) args [] = Done (true, out).
Proof. intros Hm Hok P Hf. by apply (va_segments _ Hm _ _ _ P Hok fuel []). Qed.

(** ** Concrete strings *)

#[local] Existing Instance demo_strings.
#[local] Existing Instance demo_paths.
#[local] Existing Instance demo_paths_spec.

Definition demo_format_strings : FormatStrings := λ a b n, bool_decide (map to_lower (take n a) = map to_lower (take n b)).
#[local] Existing Instance demo_format_strings.

Lemma demo_format_strings_spec : FormatStringsSpec.
Proof. done. Qed.
#[local] Existing Instance demo_format_strings_spec.

(** The string "%{cs}: %{u16;x;arr;, } 100%% %{d}". *)
Definition demo_segments : list segment :=
  [SegDir DirCStr; SegText (text ": ");
   SegDir (Dir (Some ("u16"%string, CType 16 false)) (120, FMT_SPEC_HEX, true) (Some ("arr"%string, FMT_MULT_ARR, Some (text ", "))));
   SegText (text " 100"); SegPercent; SegText (text " "); SegDir (Dir None (100, FMT_SPEC_DEC, true) None)].

Definition demo_args : list va_value := [VaPtr (text "page" ++ [0]); VaPtr [0xef; 0xbe; 0x0a; 0]; VaNum 2; VaNum (-42)].

Lemma demo_prints : prints demo_segments demo_args (text "page: beef, 000a 100% -42").
Proof.
  assert (∃ out, prints demo_segments demo_args out ∧ out = text "page: beef, 000a 100% -42") as (out&P&<-); [|exact P].
  eexists. split; [|shelve]. eapply prints_dir.
  { apply (render_nul (meaning DirCStr) (text "page") []); [done|by repeat constructor..]. }
  apply prints_text. eapply prints_dir.
  { apply (render_arr (Request (CType 16 false) FMT_SPEC_HEX FMT_MULT_ARR true (text ", ")) [0xbeef; 0x000a] []); [done|by repeat constructor|by repeat constructor|by vm_compute|constructor]. }
  apply prints_text, prints_percent, prints_text. eapply prints_dir; [|apply prints_nil].
  by apply (render_one _ (-42) (-42)).
  Unshelve. by vm_compute.
Qed.

Lemma format_str_correct_witness :
  concat (map segment_text demo_segments) = text "%{cs}: %{u16;x;arr;, } 100%% %{d}" ∧
  format_str_va demo_copy collect 7 (text "%{cs}: %{u16;x;arr;, } 100%% %{d}") demo_args [] = Done (true, text "page: beef, 000a 100% -42").
Proof.
  split; [by vm_compute|]. apply (format_str_correct demo_copy demo_segments demo_args); [by intros ?| | |simpl; lia].
  - repeat split; try done; apply (bool_decide_unpack _); by vm_compute.
  - exact demo_prints.
Defined.

(** *** Where the code does not do what it means to *)

(** A percent sign at the end of the string is neither text nor a specifier:
    the loop prints nothing and does not advance. *)
Lemma percent_at_end_loops fuel args out :
  format_str_va demo_copy collect fuel [char_percent] args out = Fuel.
Proof. revert out. induction fuel as [|fuel IH]; intros out; [done|]. cbn. apply IH. Qed.

(** The same number printed with the same specifier, as one argument and as the
    element of an array: elements are read as signed. *)
Example unsigned_array_printed_signed :
  format_str_va demo_copy collect 9 (text "%{u32;d}") [VaNum 0xffffffff] [] = Done (true, text "4294967295") ∧
  format_str_va demo_copy collect 9 (text "%{u32;d;arr}") [VaPtr [0xff; 0xff; 0xff; 0xff]; VaNum 1] [] = Done (true, text "18446744073709551615").
Proof. by vm_compute. Qed.

(** Elements of one byte are read as unsigned, also where the type is signed. *)
Example signed_bytes_printed_unsigned :
  format_str_va demo_copy collect 9 (text "%{i8;d}") [VaNum (-1)] [] = Done (true, text "-1") ∧
  format_str_va demo_copy collect 9 (text "%{i8;d;arr}") [VaPtr [0xff]; VaNum 1] [] = Done (true, text "255").
Proof. by vm_compute. Qed.

(** The highest octal digit of a negative number has bits that the type has not:
    -1 of 8 bits is 377 in octal. *)
Example negative_octal_too_large :
  format_str_va demo_copy collect 9 (text "%{i8;o} %{u8;o}") [VaNum (-1); VaNum 255] [] = Done (true, text "777 377").
Proof. by vm_compute. Qed.

(** A malformed specifier ends the formatting: the rest is printed as it is. *)
Example malformed_printed_verbatim :
  format_str_va demo_copy collect 9 (text "a%{z}%{d}") [VaNum 1] [] = Done (true, text "a%{z}%{d}").
Proof. by vm_compute. Qed.
