(* ===== verification/Dtb.v ===== *)
(** * Device trees

    kernel/port/generic/src/dtb.c: the parser of flattened device trees and the
    queries on the result; and kernel/port/generic/src/dtparse.c: the search for
    drivers.  A pointer into the blob is a byte offset from its start.  A sibling
    pointer is an index into the array of the parent, and a pointer to a node is
    the path to it, the last index first; the root is the empty path. *)

From Stdlib Require Import String Ascii.
From S2P Require Import Prelude Badgelib IntRoutines Containers FormatStr.

Definition FDT_HEADER_MAGIC : Z := 0xd00dfeed.
Definition FDT_BEGIN_NODE : Z := 1.
Definition FDT_END_NODE : Z := 2.
Definition FDT_PROP : Z := 3.
Definition FDT_NOP : Z := 4.
Definition FDT_END : Z := 9.

Definition htobe32 (x : Z) : Z := bswap2 4 x.
Definition be32toh (x : Z) : Z := bswap2 4 x.

Record dtb_prop := DtbProp {
  pr_next : option nat;
  pr_prev : option nat;
  pr_parent : option (list nat);
  pr_name : Z;
  pr_depth : Z;
  content_len : Z;
  content : Z;
}.

(** The name of the root is replaced by a literal. *)
Inductive name_ptr := NamePtr (a : Z) | NameRoot.

Inductive dtb_node := DtbNode {
  nd_next : option nat;
  nd_prev : option nat;
  nd_parent : option (list nat);
  nd_name : name_ptr;
  nd_depth : Z;
  nodes : list dtb_node;
  props : list dtb_prop;
  phandle : Z;
  has_phandle : bool;
}.

(** An entry of the phandle table points to a node whose number is already set. *)
Record dtb_handle := DtbHandle {
  blob : list Z;
  struct_blk : Z;
  string_blk : Z;
  root : dtb_node;
  phandles : list (list nat * Z);
}.

(** ** Memory *)

Definition load8 (m : list Z) (a : Z) : outcome Z :=
  if decide (0 <= a) then deref (m !! Z.to_nat a) else Undef.

Definition load32 (m : list Z) (a : Z) : outcome Z :=
  if decide (0 <= a ∧ a + 4 <= Z.of_nat (length m)) then Done (of_bytes (take 4 (drop (Z.to_nat a) m))) else Undef.

(** A C string in the blob. *)
Definition cstr_at (m : list Z) (a : Z) : outcome (list Z) :=
  if decide (0 <= a) then cstr_of (drop (Z.to_nat a) m) else Undef.

Definition struct_word (h : dtb_handle) (i : Z) : outcome Z := load32 (blob h) (struct_blk h + 4 * i).

(** The comparison of the first [n] characters of two strings. *)
Class DtStrings := cstr_prefix_equals : list Z → list Z → nat → bool.

Class DtStringsSpec `{DtStrings} :=
  cstr_prefix_equals_spec a b n : cstr_prefix_equals a b n = bool_decide (take n a = take n b).

(** ** Parsing *)

Fixpoint skip_nops (fuel : nat) (h : dtb_handle) (offset : Z) : outcome Z :=
  match fuel with
  | O => Fuel
  | S fuel => w ← struct_word h offset; if w =? htobe32 FDT_NOP then skip_nops fuel h (u32 (offset + 1)) else Done offset
  end.

Section dtb.
Context `{!KArrays} `{!DtStrings} (mem_ok : bool).

Definition dtb_parse_prop (fuel : nat) (h : dtb_handle) (offset : Z) : outcome (option (dtb_prop * Z)) :=
  offset ← skip_nops fuel h offset;
  w ← struct_word h offset;
  let offset := u32 (offset + 1) in
  if negb (w =? htobe32 FDT_PROP) then Done None else
  len ← struct_word h offset;
  let offset := u32 (offset + 1) in
  name ← struct_word h offset;
  let offset := u32 (offset + 1) in
  let len := be32toh len in
  Done (Some (DtbProp None None None (string_blk h + be32toh name) 0 len (struct_blk h + 4 * offset), u32 (offset + u32 (len + 3) / 4))).

(** The properties of a node; [ps] are those found so far. *)
Fixpoint parse_props (fuel : nat) (h : dtb_handle) (depth offset : Z) (ps : list dtb_prop) : outcome (list dtb_prop * Z) :=
  match fuel with
  | O => Fuel
  | S fuel' =>
      r ← dtb_parse_prop fuel h offset;
      match r with
      | None => Done (ps, offset)
      | Some (p, offset) =>
          let p := DtbProp (pr_next p) (pr_prev p) (pr_parent p) (pr_name p) (u8 (depth + 1)) (content_len p) (content p) in
          let '(ok, ps) := array_insert mem_ok ps p (length ps) in
          if negb ok then Panic else parse_props fuel' h depth offset ps
      end
  end.

(** A node, and the loop over the children; [ns] are those found so far. *)
Fixpoint dtb_parse_node (fuel : nat) (h : dtb_handle) (offset depth : Z) : outcome (option (dtb_node * Z)) :=
  match fuel with
  | O => Fuel
  | S fuel' =>
      offset ← skip_nops fuel h offset;
      w ← struct_word h offset;
      let offset := u32 (offset + 1) in
      if negb (w =? htobe32 FDT_BEGIN_NODE) then Done None else
      let name := struct_blk h + 4 * offset in
      s ← cstr_at (blob h) name;
      let offset := u32 (offset + Z.of_nat (length s) / 4 + 1) in
      '(ps, offset) ← parse_props fuel h depth offset [];
      '(ns, offset) ← parse_nodes fuel' h depth offset [];
      offset ← skip_nops fuel h offset;
      w ← struct_word h offset;
      let offset := u32 (offset + 1) in
      if negb (w =? htobe32 FDT_END_NODE) then Done None else
      Done (Some (DtbNode None None None (NamePtr name) depth ns ps 0 false, offset))
  end
with parse_nodes (fuel : nat) (h : dtb_handle) (depth offset : Z) (ns : list dtb_node) : outcome (list dtb_node * Z) :=
  match fuel with
  | O => Fuel
  | S fuel =>
      r ← dtb_parse_node fuel h offset (u8 (depth + 1));
      match r with
      | None => Done (ns, offset)
      | Some (n, offset) =>
          let '(ok, ns) := array_insert mem_ok ns n (length ns) in
          if negb ok then Panic else parse_nodes fuel h depth offset ns
      end
  end.

(** ** Queries *)

(** The loop of both queries: from the element [i] along the links to the one
    with the name. *)
Fixpoint find_named {A} (name_at : A → outcome (list Z)) (next : A → option nat) (fuel : nat) (l : list A) (i : option nat) (name : list Z) (name_len : nat) : outcome (option nat) :=
  match i with
  | None => Done None
  | Some i =>
      match fuel with
      | O => Fuel
      | S fuel =>
          x ← deref (l !! i);
          s ← name_at x;
          if cstr_prefix_equals s name name_len && (at_ s name_len =? 0) then Done (Some i) else find_named name_at next fuel l (next x) name name_len
      end
  end.

Definition node_name (m : list Z) (n : dtb_node) : outcome (list Z) :=
  match nd_name n with NamePtr a => cstr_at m a | NameRoot => Done (text "/") end.
Definition prop_name (m : list Z) (p : dtb_prop) : outcome (list Z) := cstr_at m (pr_name p).

(** A pointer to an array is null when it was never filled. *)
Definition array_start {A} (l : list A) : option nat := match l with [] => None | _ => Some 0%nat end.

Definition dtb_get_node_l (h : dtb_handle) (parent : dtb_node) (name : list Z) (name_len : nat) : outcome (option nat) :=
  find_named (node_name (blob h)) nd_next (length (nodes parent)) (nodes parent) (array_start (nodes parent)) name name_len.
Definition dtb_get_prop_l (h : dtb_handle) (parent : dtb_node) (name : list Z) (name_len : nat) : outcome (option nat) :=
  find_named (prop_name (blob h)) pr_next (length (props parent)) (props parent) (array_start (props parent)) name name_len.
Definition dtb_get_node (h : dtb_handle) (parent : dtb_node) (name : list Z) : outcome (option nat) := dtb_get_node_l h parent name (length name).
Definition dtb_get_prop (h : dtb_handle) (parent : dtb_node) (name : list Z) : outcome (option nat) := dtb_get_prop_l h parent name (length name).

Fixpoint read_bytes (h : dtb_handle) (n : nat) (a val : Z) : outcome Z :=
  match n with
  | O => Done val
  | S n => b ← load8 (blob h) a; read_bytes h n (a + 1) (Z.lor (u64 (Z.shiftl val 8)) b)
  end.

Definition dtb_prop_read_uint (h : dtb_handle) (prop : dtb_prop) : outcome Z :=
  read_bytes h (Z.to_nat (content_len prop)) (content prop) 0.

Fixpoint read_words (h : dtb_handle) (n : nat) (a val : Z) : outcome Z :=
  match n with
  | O => Done val
  | S n => w ← load32 (blob h) a; read_words h n (a + 4) (Z.lor (u64 (Z.shiftl val 32)) (be32toh w))
  end.

Definition dtb_prop_read_cells (h : dtb_handle) (prop : dtb_prop) (cell_idx cell_count : Z) : outcome Z :=
  read_words h (Z.to_nat cell_count) (content prop + 4 * cell_idx) 0.
Definition dtb_prop_read_cell (h : dtb_handle) (prop : dtb_prop) (cell_idx : Z) : outcome Z :=
  v ← dtb_prop_read_cells h prop cell_idx 1; Done (u32 v).

(** The content and its length. *)
Definition dtb_prop_content (prop : option dtb_prop) : option (Z * Z) :=
  match prop with Some p => Some (content p, content_len p) | None => None end.

(** The property that a query found. *)
Definition prop_value {A} (parent : dtb_node) (dflt : A) (f : dtb_prop → outcome A) (i : option nat) : outcome A :=
  match i with Some i => p ← deref (props parent !! i); f p | None => Done dflt end.

Definition dtb_read_uint_l (h : dtb_handle) (parent : dtb_node) (name : list Z) (name_len : nat) : outcome Z :=
  dtb_get_prop_l h parent name name_len ≫= prop_value parent 0 (dtb_prop_read_uint h).
Definition dtb_read_cell_l (h : dtb_handle) (parent : dtb_node) (name : list Z) (name_len : nat) (cell_idx : Z) : outcome Z :=
  dtb_get_prop_l h parent name name_len ≫= prop_value parent 0 (λ p, dtb_prop_read_cell h p cell_idx).
Definition dtb_read_cells_l (h : dtb_handle) (parent : dtb_node) (name : list Z) (name_len : nat) (cell_idx cell_count : Z) : outcome Z :=
  dtb_get_prop_l h parent name name_len ≫= prop_value parent 0 (λ p, dtb_prop_read_cells h p cell_idx cell_count).
Definition dtb_read_uint (h : dtb_handle) (parent : dtb_node) (name : list Z) : outcome Z := dtb_read_uint_l h parent name (length name).
Definition dtb_read_cell (h : dtb_handle) (parent : dtb_node) (name : list Z) (cell_idx : Z) : outcome Z := dtb_read_cell_l h parent name (length name) cell_idx.
Definition dtb_read_cells (h : dtb_handle) (parent : dtb_node) (name : list Z) (cell_idx cell_count : Z) : outcome Z :=
  dtb_read_cells_l h parent name (length name) cell_idx cell_count.

(** ** References *)

(** The order of phandles: the difference as an [int]. *)
Definition phandle_cmp (b : Z) (a : list nat * Z) : Z := signed 32 (u32 (a.2 - b)).

Definition link_prop (self : list nat) (n i : nat) (p : dtb_prop) : dtb_prop :=
  DtbProp (if (i + 1 <? n)%nat then Some (i + 1)%nat else pr_next p) (if (0 <? i)%nat then Some (i - 1)%nat else pr_prev p) (Some self)
    (pr_name p) (pr_depth p) (content_len p) (content p).
Definition link_node (self : list nat) (n i : nat) (c : dtb_node) : dtb_node :=
  DtbNode (if (i + 1 <? n)%nat then Some (i + 1)%nat else nd_next c) (if (0 <? i)%nat then Some (i - 1)%nat else nd_prev c) (Some self)
    (nd_name c) (nd_depth c) (nodes c) (props c) (phandle c) (has_phandle c).

(** The number of a node, and the entry in the table. *)
Definition set_phandle (h : dtb_handle) (self : list nat) (node : dtb_node) (phs : list (list nat * Z)) : outcome (dtb_node * list (list nat * Z)) :=
  found ← dtb_get_prop h node (text "phandle");
  match found with
  | None => Done (node, phs)
  | Some i =>
      p ← deref (props node !! i);
      v ← dtb_prop_read_uint h p;
      let v := u32 v in
      let '(ok, phs) := array_sorted_insert mem_ok phs (self, v) (phandle_cmp v) in
      if negb ok then Panic else
      Done (DtbNode (nd_next node) (nd_prev node) (nd_parent node) (nd_name node) (nd_depth node) (nodes node) (props node) v true, phs)
  end.

Definition set_nodes (ns : list dtb_node) (node : dtb_node) : dtb_node :=
  DtbNode (nd_next node) (nd_prev node) (nd_parent node) (nd_name node) (nd_depth node) ns (props node) (phandle node) (has_phandle node).
Definition set_props (ps : list dtb_prop) (node : dtb_node) : dtb_node :=
  DtbNode (nd_next node) (nd_prev node) (nd_parent node) (nd_name node) (nd_depth node) (nodes node) ps (phandle node) (has_phandle node).

(** The sibling links of the children are set before the recursion, which does
    not read them. *)
Fixpoint dtb_build_refs (h : dtb_handle) (self : list nat) (node : dtb_node) (phs : list (list nat * Z)) {struct node} : outcome (dtb_node * list (list nat * Z)) :=
  match node with
  | DtbNode next prev parent name depth ns ps ph has =>
      '(node, phs) ← set_phandle h self (DtbNode next prev parent name depth ns (imap (link_prop self (length ps)) ps) ph has) phs;
      '(ns, phs) ← (fix build_nodes (i : nat) (l : list dtb_node) (phs : list (list nat * Z)) : outcome (list dtb_node * list (list nat * Z)) :=
        match l with
        | [] => Done ([], phs)
        | c :: l =>
            '(c, phs) ← dtb_build_refs h (i :: self) c phs;
            '(l, phs) ← build_nodes (S i) l phs;
            Done (link_node self (length ns) i c :: l, phs)
        end) 0%nat ns phs;
      Done (set_nodes ns node, phs)
  end.

(** ** Opening *)

Definition hdr_field (m : list Z) (i : Z) : outcome Z := w ← load32 m (4 * i); Done (be32toh w).

Definition zero_node : dtb_node := DtbNode None None None (NamePtr 0) 0 [] [] 0 false.

Definition rename_root (node : dtb_node) : dtb_node :=
  DtbNode (nd_next node) (nd_prev node) (nd_parent node) NameRoot (nd_depth node) (nodes node) (props node) (phandle node) (has_phandle node).

(** [handle_ok] tells whether there is memory for the handle, which is not
    tested. *)
Definition dtb_open (handle_ok : bool) (m : list Z) : outcome (option dtb_handle) :=
  if negb handle_ok then Undef else
  magic ← hdr_field m 0;
  if negb (magic =? FDT_HEADER_MAGIC) then Done None else
  off_dt_strings ← hdr_field m 3;
  off_dt_struct ← hdr_field m 2;
  let h := DtbHandle m off_dt_struct off_dt_strings zero_node [] in
  let fuel := length m in
  r ← dtb_parse_node fuel h 0 0;
  match r with
  | None => Done None
  | Some (node, offset) =>
      let node := rename_root node in
      offset ← skip_nops fuel h offset;
      w ← struct_word h offset;
      if negb (w =? htobe32 FDT_END) then Done None else
      '(node, phs) ← dtb_build_refs (DtbHandle m off_dt_struct off_dt_strings node []) [] node [];
      Done (Some (DtbHandle m off_dt_struct off_dt_strings node phs))
  end.

Definition dtb_root_node (h : option dtb_handle) : option dtb_node := match h with Some h => Some (root h) | None => None end.

(** The node a pointer leads to. *)
Fixpoint node_at (node : dtb_node) (p : list nat) : option dtb_node :=
  match p with [] => Some node | i :: p => match node_at node p with Some n => nodes n !! i | None => None end end.

Definition dtb_phandle_node (h : dtb_handle) (phandle : Z) : outcome (option (list nat)) :=
  let '(found, i) := array_binsearch (phandles h) (phandle_cmp phandle) in
  if found : bool then e ← deref (phandles h !! i); Done (Some e.1) else Done None.
End dtb.

(** ** Drivers *)

Inductive driver := DriverPci | DriverDtb (dtb_supports : list (list Z)).

Section drivers.
Context `{!BadgeStrings} (start_drivers : list driver).

Definition supports (compat_str : list Z) (d : driver) : bool :=
  match d with DriverPci => false | DriverDtb l => existsb (cstr_equals compat_str) l end.

(** The driver that is initialised for a compatible string. *)
Fixpoint check_drivers (i : nat) (ds : list driver) (compat_str : list Z) : option nat :=
  match ds with [] => None | d :: ds => if supports compat_str d then Some i else check_drivers (S i) ds compat_str end.

(** The options of one device, [compat_len] bytes from [str]. *)
Fixpoint check_options (fuel : nat) (h : dtb_handle) (str compat_len : Z) : outcome (option nat) :=
  match fuel with
  | O => Fuel
  | S fuel =>
      if compat_len =? 0 then Done None else
      s ← cstr_at (blob h) str;
      match check_drivers 0 start_drivers s with
      | Some d => Done (Some d)
      | None => let len := Z.of_nat (length s) in check_options fuel h (str + (len + 1)) (u32 (compat_len - (len + 1)))
      end
  end.

Context `{!KArrays} `{!DtStrings}.

(** The devices from [node] on: each with the driver that was initialised. *)
Fixpoint walk_devices (fuel : nat) (h : dtb_handle) (l : list dtb_node) (node : option nat) : outcome (list (nat * nat)) :=
  match node with
  | None => Done []
  | Some i =>
      match fuel with
      | O => Fuel
      | S fuel =>
          n ← deref (l !! i);
          compatible ← dtb_get_prop h n (text "compatible");
          p ← match compatible with Some k => p ← deref (props n !! k); Done (Some p) | None => Done None end;
          let '(compat_str, compat_len) := default (0, 0) (dtb_prop_content p) in
          d ← check_options (S (length (blob h))) h compat_str compat_len;
          rest ← walk_devices fuel h l (nd_next n);
          Done (match d with Some d => (i, d) :: rest | None => rest end)
      end
  end.

(** The devices that were initialised, and the cells of addresses and sizes that
    their drivers were given. *)
Definition dtparse (mem_ok handle_ok : bool) (m : list Z) : outcome (list (nat * nat) * Z * Z) :=
  r ← dtb_open mem_ok handle_ok m;
  match r with
  | None => Panic
  | Some h =>
      i ← dtb_get_node h (root h) (text "soc");
      i ← deref i;
      soc ← deref (nodes (root h) !! i);
      soc_alen ← dtb_read_uint h soc (text "#address-cells");
      soc_slen ← dtb_read_uint h soc (text "#size-cells");
      l ← walk_devices (length (nodes soc)) h (nodes soc) (array_start (nodes soc));
      Done (l, u32 soc_alen, u32 soc_slen)
  end.
End drivers.
