(* ===== verification/DtbTheory.v ===== *)
(** * Device trees: the flattened format and the parser

    The format of the device-tree specification as a function from trees to
    bytes, and what the parser makes of such bytes. *)

From Stdlib Require Import String Ascii.
From S2P Require Import Prelude Badgelib IntRoutines Containers FormatStr Dtb.

(** ** The format *)

Definition be_bytes (x : Z) : list Z := reverse (to_bytes 4 x).

(** A property with the padding that follows it, and the place of its name in
    the block of strings.  Any number of empty tokens can stand before it. *)
Record fprop := FProp {
  fp_nops : nat;
  fp_name : list Z;
  fp_nameoff : Z;
  fp_content : list Z;
  fp_pad : list Z;
}.

Inductive ftree := FTree {
  ft_nops : nat;
  ft_name : list Z;
  ft_pad : list Z;
  ft_props : list fprop;
  ft_nodes : list ftree;
  ft_end : nat;
}.

Section ftree_ind.
Context (P : ftree → Prop) (step : ∀ n s pad ps l e, Forall P l → P (FTree n s pad ps l e)).

Fixpoint ftree_induction (t : ftree) : P t :=
  match t with
  | FTree n s pad ps l e => step n s pad ps l e ((fix go l : Forall P l :=
      match l with [] => Forall_nil_2 P | t :: l => Forall_cons_2 P t l (ftree_induction t) (go l) end) l)
  end.
End ftree_ind.

Definition nops (n : nat) : list Z := concat (replicate n (be_bytes FDT_NOP)).

Definition enc_prop (p : fprop) : list Z :=
  nops (fp_nops p) ++ be_bytes FDT_PROP ++ be_bytes (Z.of_nat (length (fp_content p))) ++ be_bytes (fp_nameoff p) ++ fp_content p ++ fp_pad p.

Fixpoint enc_tree (t : ftree) : list Z :=
  match t with
  | FTree n s pad ps l e =>
      nops n ++ be_bytes FDT_BEGIN_NODE ++ (s ++ 0 :: pad) ++ concat (map enc_prop ps) ++ concat (map enc_tree l) ++ nops e ++ be_bytes FDT_END_NODE
  end.

Definition prop_ok (p : fprop) : Prop :=
  (length (fp_content p) + length (fp_pad p) = 4 * ((length (fp_content p) + 3) / 4))%nat ∧ fits 32 (fp_nameoff p) ∧
  Forall (fits 8) (fp_content p) ∧ 0 ∉ fp_name p.

Fixpoint tree_ok (t : ftree) : Prop :=
  match t with
  | FTree n s pad ps l e => 0 ∉ s ∧ (length s + 1 + length pad = 4 * (length s / 4 + 1))%nat ∧ Forall prop_ok ps ∧
      (fix go l := match l with [] => True | t :: l => tree_ok t ∧ go l end) l
  end.

Lemma tree_ok_eq n s pad ps l e : tree_ok (FTree n s pad ps l e) ↔
  0 ∉ s ∧ (length s + 1 + length pad = 4 * (length s / 4 + 1))%nat ∧ Forall prop_ok ps ∧ Forall tree_ok l.
Proof.
  cbn [tree_ok]. do 3 apply and_iff_compat_l. induction l as [|t l IH]; [by split|]. rewrite Forall_cons. by rewrite IH.
Qed.

(** ** Bytes in memory *)

Definition here (m : list Z) (a : Z) (bs : list Z) : Prop := 0 <= a ∧ bs `prefix_of` drop (Z.to_nat a) m.

Lemma here_app m a x y : here m a (x ++ y) ↔ here m a x ∧ here m (a + Z.of_nat (length x)) y.
Proof.
  unfold here. split.
  - intros [Ha [r E]]. rewrite <-app_assoc in E. split_and!; [done|by eexists|lia|]. exists r.
    replace (Z.to_nat (a + Z.of_nat (length x))) with (Z.to_nat a + length x)%nat by lia. rewrite <-drop_drop, E. by rewrite drop_app_length.
  - intros [[Ha [r1 E1]] [_ [r2 E2]]]. split; [done|]. exists r2.
    replace (Z.to_nat (a + Z.of_nat (length x))) with (Z.to_nat a + length x)%nat in E2 by lia. rewrite <-drop_drop, E1, drop_app_length in E2.
    by rewrite <-app_assoc, <-E2.
Qed.

Lemma here_length m a bs : here m a bs → bs ≠ [] → a + Z.of_nat (length bs) <= Z.of_nat (length m).
Proof.
  intros [Ha [r E]] Hne. assert (El : length (drop (Z.to_nat a) m) = length (bs ++ r)) by by rewrite E. rewrite length_drop, length_app in El.
  destruct bs; [done|]. simpl in *. lia.
Qed.

Lemma here_take m a bs : here m a bs → take (length bs) (drop (Z.to_nat a) m) = bs.
Proof. intros [_ [r ->]]. by rewrite take_app_length. Qed.

Lemma here_load32 m a x : here m a (be_bytes x) → load32 m a = Done (htobe32 x).
Proof.
  intros Hh. pose proof (here_length _ _ _ Hh ltac:(done)) as Hl. pose proof (here_take _ _ _ Hh) as Ht. destruct Hh as [Ha _].
  unfold load32. rewrite decide_True by (simpl in Hl; lia). change 4%nat with (length (be_bytes x)) at 1. rewrite Ht.
  unfold htobe32. by rewrite bswap2_rev.
Qed.

Lemma here_cstr m a s r : here m a (s ++ 0 :: r) → 0 ∉ s → cstr_at m a = Done s.
Proof.
  intros [Ha [r' E]] Hs. unfold cstr_at. rewrite decide_True by done. unfold cstr_of. rewrite E, <-app_assoc. cbn [app].
  rewrite (proj2 (list_find_Some _ _ (length s) 0)).
  - by rewrite take_app_length.
  - rewrite lookup_app_r, Nat.sub_diag by lia. split_and!; [done|done|]. intros j y Hj Hlt ->. rewrite lookup_app_l in Hj by done.
    by apply Hs, list_elem_of_lookup_2 with j.
Qed.

(** Tokens differ in every byte order. *)
Lemma htobe32_inj x y : fits 32 x → fits 32 y → htobe32 x = htobe32 y → x = y.
Proof.
  intros Hx Hy E. unfold htobe32 in E. rewrite !bswap2_rev in E. apply (f_equal (to_bytes 4)) in E.
  pose proof (to_of_bytes (reverse (to_bytes 4 x))) as Ex. pose proof (to_of_bytes (reverse (to_bytes 4 y))) as Ey.
  rewrite length_reverse, length_to_bytes in Ex, Ey. rewrite Ex, Ey in E by (apply Forall_reverse, to_bytes_fits).
  apply (inj reverse) in E. apply (f_equal of_bytes) in E. rewrite !of_to_bytes in E; done.
Qed.

Lemma be32toh_htobe32 x : fits 32 x → be32toh (htobe32 x) = x.
Proof.
  intros Hx. unfold be32toh, htobe32. rewrite (bswap2_rev 4 (bswap2 4 x)), bswap2_rev.
  pose proof (to_of_bytes (reverse (to_bytes 4 x))) as Ex. rewrite length_reverse, length_to_bytes in Ex.
  rewrite Ex by (apply Forall_reverse, to_bytes_fits). rewrite reverse_involutive. by apply of_to_bytes.
Qed.

Lemma length_nops n : length (nops n) = (4 * n)%nat.
Proof. unfold nops. induction n as [|n IH]; [done|]. cbn [replicate concat]. rewrite length_app, IH. simpl. lia. Qed.

Lemma length_be_bytes x : length (be_bytes x) = 4%nat.
Proof. done. Qed.

Lemma length_enc_prop p : prop_ok p → length (enc_prop p) = (4 * (fp_nops p + 3 + (length (fp_content p) + 3) / 4))%nat.
Proof. intros (Hp&_). unfold enc_prop. rewrite !length_app, length_nops, !length_be_bytes. lia. Qed.

(** ** The parser *)

Section parse.
Context (h : dtb_handle) (Hm : Z.of_nat (length (blob h)) < 2 ^ 32) (Hs : 0 <= struct_blk h).

Notation word_addr o := (struct_blk h + 4 * o).
Notation stands o bs := (here (blob h) (word_addr o) bs).

Lemma stands_app o k x y : Z.of_nat (length x) = 4 * k → stands o (x ++ y) ↔ stands o x ∧ stands (o + k) y.
Proof. intros E. rewrite here_app, E. by replace (word_addr o + 4 * k) with (word_addr (o + k)) by lia. Qed.

Lemma stands_bound o bs : 0 <= o → stands o bs → bs ≠ [] → 0 <= o ∧ 4 * o + Z.of_nat (length bs) < 2 ^ 32.
Proof. intros Ho Hh Hne. pose proof (here_length _ _ _ Hh Hne). lia. Qed.

Lemma next_offset o k : 0 <= o + k < 2 ^ 32 → u32 (o + k) = o + k.
Proof. intros H. apply Z.mod_small. exact H. Qed.

Lemma token_word o t : stands o (be_bytes t) → struct_word h o = Done (htobe32 t).
Proof. intros Hh. by apply here_load32. Qed.

Lemma token_ne t t' : fits 32 t → fits 32 t' → t ≠ t' → (htobe32 t =? htobe32 t') = false.
Proof. intros H1 H2 Hne. apply Z.eqb_neq. intros E. by apply Hne, htobe32_inj. Qed.

Lemma skip_nops_spec n t : fits 32 t → t ≠ FDT_NOP → ∀ o fuel, 0 <= o → stands o (nops n ++ be_bytes t) → (n < fuel)%nat →
  skip_nops fuel h o = Done (o + Z.of_nat n) ∧ stands (o + Z.of_nat n) (be_bytes t).
Proof.
  intros Ht Hne. induction n as [|n IH]; intros o fuel Ho Hh Hf; (destruct fuel as [|fuel]; [lia|]); cbn [skip_nops].
  - rewrite (token_word o t Hh). cbn [mbind outcome_bind]. rewrite token_ne by done. by rewrite Z.add_0_r.
  - change (nops (S n)) with (be_bytes FDT_NOP ++ nops n) in Hh. rewrite <-app_assoc in Hh. pose proof (stands_bound _ _ Ho Hh ltac:(done)) as Hb.
    apply (stands_app o 1) in Hh as [H1 H2]; [|done]. rewrite (token_word _ _ H1). cbn [mbind outcome_bind]. rewrite Z.eqb_refl.
    rewrite !length_app, length_be_bytes in Hb. rewrite next_offset by lia.
    destruct (IH (o + 1) fuel) as [-> H3]; [lia|done|lia|]. replace (o + Z.of_nat (S n)) with (o + 1 + Z.of_nat n) by lia. done.
Qed.

(** What the parser makes of the properties from word [o]. *)
Definition pwords (p : fprop) : Z := Z.of_nat (fp_nops p) + 3 + (Z.of_nat (length (fp_content p)) + 3) / 4.

Definition prop_at (o depth : Z) (p : fprop) : dtb_prop :=
  DtbProp None None None (string_blk h + fp_nameoff p) (u8 (depth + 1)) (Z.of_nat (length (fp_content p))) (word_addr (o + Z.of_nat (fp_nops p) + 3)).

Fixpoint props_at (o depth : Z) (ps : list fprop) : list dtb_prop :=
  match ps with [] => [] | p :: ps => prop_at o depth p :: props_at (o + pwords p) depth ps end.

Lemma pwords_length p : prop_ok p → Z.of_nat (length (enc_prop p)) = 4 * pwords p.
Proof using. clear h Hm Hs. intros Hp. rewrite length_enc_prop by done. unfold pwords. rewrite !Nat2Z.inj_mul, !Nat2Z.inj_add, Nat2Z.inj_div, !Nat2Z.inj_add. lia. Qed.

Fixpoint props_words (ps : list fprop) : Z := match ps with [] => 0 | p :: ps => pwords p + props_words ps end.

Lemma props_words_length ps : Forall prop_ok ps → Z.of_nat (length (concat (map enc_prop ps))) = 4 * props_words ps.
Proof using. clear h Hm Hs.
  induction 1 as [|p ps Hp Hps IH]; [done|]. cbn [map concat props_words]. rewrite length_app, Nat2Z.inj_add, pwords_length, IH by done. lia.
Qed.

Context `{!KArrays, !KArraysSpec}.

Lemma array_push {A} (l : list A) x : array_insert true l x (length l) = (true, l ++ [x]).
Proof. destruct (array_insert_spec true l x (length l)) as [->|[? _]]; [done| |done]. by rewrite take_ge, drop_ge. Qed.

Lemma parse_prop_none o n t fuel : fits 32 t → t ≠ FDT_NOP → t ≠ FDT_PROP → 0 <= o → stands o (nops n ++ be_bytes t) → (n < fuel)%nat →
  dtb_parse_prop fuel h o = Done None.
Proof.
  intros Ht Hn Hp Ho Hh Hf. unfold dtb_parse_prop. destruct (skip_nops_spec n t Ht Hn o fuel Ho Hh Hf) as [-> Hw]. cbn [mbind outcome_bind].
  rewrite (token_word _ _ Hw). cbn [mbind outcome_bind]. by rewrite token_ne.
Qed.

Lemma parse_prop_some o p fuel r : prop_ok p → 0 <= o → stands o (enc_prop p ++ r) → (fp_nops p < fuel)%nat →
  ∃ q, dtb_parse_prop fuel h o = Done (Some (q, o + pwords p)) ∧
  prop_at o 0 p = DtbProp (pr_next q) (pr_prev q) (pr_parent q) (pr_name q) 1 (content_len q) (content q).
Proof.
  intros Hok Ho Hh Hf. pose proof (stands_bound _ _ Ho Hh) as Hb. rewrite length_app, Nat2Z.inj_add, pwords_length in Hb by done.
  destruct Hb as [_ Hb]; [unfold enc_prop; by destruct (fp_nops p)|]. unfold pwords in *.
  set (n := Z.of_nat (fp_nops p)) in *. set (len := Z.of_nat (length (fp_content p))) in *.
  assert (0 <= (len + 3) / 4) by (apply Z.div_pos; lia). assert (len + 3 < 2 ^ 32) by (pose proof (Z.div_mod (len + 3) 4); pose proof (Z.mod_pos_bound (len + 3) 4); lia).
  unfold enc_prop in Hh. fold len in Hh. rewrite <-!app_assoc in Hh. rewrite app_assoc in Hh.
  apply (stands_app o (n + 1)) in Hh as [W1 Hh]; [|rewrite length_app, length_nops, length_be_bytes; lia].
  apply (stands_app _ 1) in Hh as [W2 Hh]; [|done]. apply (stands_app _ 1) in Hh as [W3 _]; [|done].
  unfold dtb_parse_prop. destruct (skip_nops_spec _ FDT_PROP ltac:(done) ltac:(done) o fuel Ho W1 Hf) as [-> Hw]. fold n in Hw |- *. cbn [mbind outcome_bind].
  rewrite (token_word _ _ Hw). cbn [mbind outcome_bind]. rewrite Z.eqb_refl. cbn [negb].
  rewrite (next_offset (o + n) 1) by lia. replace (o + n + 1) with (o + (n + 1)) by lia. rewrite (token_word _ _ W2). cbn [mbind outcome_bind].
  rewrite (next_offset (o + (n + 1)) 1) by lia. rewrite (token_word _ _ W3). cbn [mbind outcome_bind].
  rewrite (next_offset (o + (n + 1) + 1) 1) by lia. destruct Hok as (_&Hno&_&_).
  rewrite !be32toh_htobe32 by (try done; unfold fits; lia). rewrite (next_offset len 3) by lia. rewrite next_offset by lia.
  eexists. split; [do 3 f_equal; lia|]. unfold prop_at. cbn. f_equal. lia.
Qed.

Lemma parse_props_spec depth n t ps : fits 32 t → t ≠ FDT_NOP → t ≠ FDT_PROP → Forall prop_ok ps → ∀ o fuel acc, 0 <= o →
  stands o (concat (map enc_prop ps) ++ nops n ++ be_bytes t) → (length (concat (map enc_prop ps) ++ nops n) < fuel)%nat →
  parse_props true fuel h depth o acc = Done (acc ++ props_at o depth ps, o + props_words ps).
Proof.
  intros Ht Hn Hp. induction 1 as [|p ps Hok Hps IH]; intros o fuel acc Ho Hh Hf; (destruct fuel as [|fuel]; [lia|]); cbn [parse_props map concat] in *.
  - cbn [app] in *. rewrite length_nops in Hf. rewrite (parse_prop_none o n t) by (done || lia). cbn. by rewrite app_nil_r, Z.add_0_r.
  - rewrite <-!app_assoc in Hh. rewrite !length_app, length_nops in Hf. pose proof (length_enc_prop p Hok).
    destruct (parse_prop_some o p (S fuel) _ Hok Ho Hh) as (q&->&Eq); [lia|]. cbn [mbind outcome_bind].
    rewrite array_push. cbn [negb]. apply (stands_app o (pwords p)) in Hh as [_ Hh]; [|by apply pwords_length].
    assert (0 <= pwords p) by (pose proof (pwords_length p Hok); lia).
    rewrite IH; [|lia|done|rewrite length_app, length_nops; lia]. cbn [props_at props_words]. rewrite <-app_assoc. cbn [app].
    rewrite Z.add_assoc. unfold prop_at in *. injection Eq as <- <- <- <- <- <-. done.
Qed.

(** What the parser makes of a tree at word [o]. *)
Fixpoint twords (t : ftree) : Z :=
  match t with
  | FTree n s pad ps l e => Z.of_nat n + 1 + (Z.of_nat (length s) / 4 + 1) + props_words ps + foldr (λ t w, twords t + w) 0 l + Z.of_nat e + 1
  end.

Fixpoint tree_at (o depth : Z) (t : ftree) : dtb_node :=
  match t with
  | FTree n s pad ps l e =>
      let o1 := o + Z.of_nat n + 1 in
      let o2 := o1 + (Z.of_nat (length s) / 4 + 1) in
      DtbNode None None None (NamePtr (word_addr o1)) depth
        ((fix go o l := match l with [] => [] | t :: l => tree_at o (u8 (depth + 1)) t :: go (o + twords t) l end) (o2 + props_words ps) l)
        (props_at o2 depth ps) 0 false
  end.

Fixpoint trees_at (o depth : Z) (l : list ftree) : list dtb_node :=
  match l with [] => [] | t :: l => tree_at o depth t :: trees_at (o + twords t) depth l end.
Definition trees_words (l : list ftree) : Z := foldr (λ t w, twords t + w) 0 l.

Lemma tree_at_eq o depth n s pad ps l e : tree_at o depth (FTree n s pad ps l e) =
  let o1 := o + Z.of_nat n + 1 in
  let o2 := o1 + (Z.of_nat (length s) / 4 + 1) in
  DtbNode None None None (NamePtr (word_addr o1)) depth (trees_at (o2 + props_words ps) (u8 (depth + 1)) l) (props_at o2 depth ps) 0 false.
Proof. cbn [tree_at]. cbv zeta. f_equal. generalize (o + Z.of_nat n + 1 + (Z.of_nat (length s) / 4 + 1) + props_words ps). induction l as [|t l IH]; intros k; [done|]. cbn [trees_at]. by rewrite <-IH. Qed.

Lemma name_words (s pad : list Z) : (length s + 1 + length pad = 4 * (length s / 4 + 1))%nat → Z.of_nat (length (s ++ 0 :: pad)) = 4 * (Z.of_nat (length s) / 4 + 1).
Proof using. clear h Hm Hs. intros E. rewrite length_app. cbn [length]. pose proof (Nat2Z.inj_div (length s) 4). lia. Qed.

Lemma length_enc_tree n s pad ps l e : length (enc_tree (FTree n s pad ps l e)) =
  (4 * n + 4 + length (s ++ 0%Z :: pad) + length (concat (map enc_prop ps)) + length (concat (map enc_tree l)) + 4 * e + 4)%nat.
Proof using. clear h Hm Hs.
  cbn [enc_tree]. rewrite (length_app (nops n)), (length_app (be_bytes _)), (length_app (s ++ _)), !(length_app (concat _)), (length_app (nops e)).
  rewrite !length_nops, !length_be_bytes. lia.
Qed.

Lemma twords_length t : tree_ok t → Z.of_nat (length (enc_tree t)) = 4 * twords t.
Proof using. clear h Hm Hs.
  induction t as [n s pad ps l e IH] using ftree_induction. rewrite tree_ok_eq. intros (Hz&Hpad&Hps&Hl). cbn [twords].
  assert (Z.of_nat (length (concat (map enc_tree l))) = 4 * foldr (λ t w, twords t + w) 0 l).
  { clear -IH Hl. induction IH as [|t l Ht IH IH2]; [done|]. apply Forall_cons in Hl as [Hot Hl]. cbn [map concat foldr].
    rewrite length_app, Nat2Z.inj_add, Ht, IH2 by done. lia. }
  rewrite length_enc_tree.
  pose proof (name_words s pad Hpad). pose proof (props_words_length ps Hps). lia.
Qed.

Lemma trees_words_length l : Forall tree_ok l → Z.of_nat (length (concat (map enc_tree l))) = 4 * trees_words l.
Proof using. clear h Hm Hs. induction 1 as [|t l Ht Hl IH]; [done|]. cbn. rewrite length_app, Nat2Z.inj_add, twords_length by done. fold (trees_words l). lia. Qed.

(** What follows the properties of a node. *)
Lemma rest_head l e : ∃ k t r, concat (map enc_tree l) ++ nops e ++ be_bytes FDT_END_NODE = nops k ++ be_bytes t ++ r ∧
  fits 32 t ∧ t ≠ FDT_NOP ∧ t ≠ FDT_PROP.
Proof using. clear h Hm Hs.
  destruct l as [|[n s pad ps l' e'] l].
  - exists e, FDT_END_NODE, []. by rewrite app_nil_r.
  - exists n, FDT_BEGIN_NODE. cbn [map concat enc_tree]. eexists. rewrite <-!app_assoc. done.
Qed.

Lemma here_prefix m a x y : here m a (x ++ y) → here m a x.
Proof using. clear h Hm Hs. by intros [? _]%here_app. Qed.

Lemma parse_node_none o n t depth fuel : fits 32 t → t ≠ FDT_NOP → t ≠ FDT_BEGIN_NODE → 0 <= o → stands o (nops n ++ be_bytes t) → (n < fuel)%nat →
  dtb_parse_node true fuel h o depth = Done None.
Proof.
  intros Ht Hn Hb Ho Hh Hf. destruct fuel as [|fuel]; [lia|]. cbn [dtb_parse_node]. destruct (skip_nops_spec n t Ht Hn o (S fuel) Ho Hh Hf) as [-> Hw].
  cbn [mbind outcome_bind]. rewrite (token_word _ _ Hw). cbn [mbind outcome_bind]. by rewrite token_ne.
Qed.

Definition tree_parses (t : ftree) : Prop := ∀ o depth fuel r, 0 <= o → stands o (enc_tree t ++ r) → (length (enc_tree t) <= fuel)%nat →
  dtb_parse_node true fuel h o depth = Done (Some (tree_at o depth t, o + twords t)).

Lemma parse_nodes_spec depth e l : Forall tree_ok l → Forall tree_parses l → ∀ o fuel acc, 0 <= o →
  stands o (concat (map enc_tree l) ++ nops e ++ be_bytes FDT_END_NODE) → (length (concat (map enc_tree l) ++ nops e ++ be_bytes FDT_END_NODE) <= fuel)%nat →
  parse_nodes true fuel h depth o acc = Done (acc ++ trees_at o (u8 (depth + 1)) l, o + trees_words l).
Proof.
  intros Hl. induction Hl as [|t l Ht Hl IH]; intros Hp o fuel acc Ho Hh Hf; (destruct fuel as [|fuel]; [rewrite !length_app, length_be_bytes in Hf; lia|]);
    cbn [parse_nodes map concat] in *.
  - cbn [app] in *. rewrite length_app, length_nops, length_be_bytes in Hf.
    rewrite (parse_node_none o e FDT_END_NODE) by (done || lia). cbn. by rewrite app_nil_r, Z.add_0_r.
  - apply Forall_cons in Hp as [Hpt Hp]. rewrite <-!app_assoc in Hh. rewrite !length_app, length_nops, length_be_bytes in Hf. pose proof (twords_length t Ht) as Hw.
    rewrite (Hpt o _ fuel _ Ho Hh) by lia. cbn [mbind outcome_bind]. rewrite array_push. cbn [negb].
    apply (stands_app o (twords t)) in Hh as [_ Hh]; [|done].
    assert (0 < twords t) by (destruct t; rewrite length_enc_tree in Hw; lia).
    rewrite IH; [|done|lia|done|rewrite !length_app, length_nops, length_be_bytes; lia]. cbn [trees_at]. rewrite <-app_assoc. cbn [app].
    change (trees_words (t :: l)) with (twords t + trees_words l). by rewrite Z.add_assoc.
Qed.

Lemma parse_tree_spec t : tree_ok t → tree_parses t.
Proof.
  induction t as [n s pad ps l e IH] using ftree_induction. intros Hok o depth fuel r Ho Hh Hf. pose proof (twords_length _ Hok) as Hw.
  pose proof Hok as (Hz&Hpad&Hps&Hl)%tree_ok_eq.
  assert (Hpl : Forall tree_parses l) by (clear -IH Hl; induction IH as [|t l Ht IH IH2]; [done|]; apply Forall_cons in Hl as [Hot Hl]; constructor; auto). clear IH.
  pose proof (name_words s pad Hpad) as Hnw. pose proof (props_words_length ps Hps) as Hpw. pose proof (trees_words_length l Hl) as Htw.
  pose proof (stands_bound _ _ Ho Hh) as Hb. rewrite length_app, Nat2Z.inj_add, Hw in Hb. destruct Hb as [_ Hb]; [cbn [enc_tree]; by destruct n|].
  rewrite length_enc_tree in Hf. destruct fuel as [|fuel]; [lia|].
  assert (Eh : enc_tree (FTree n s pad ps l e) ++ r = (nops n ++ be_bytes FDT_BEGIN_NODE) ++ (s ++ 0 :: pad) ++ concat (map enc_prop ps) ++
    (concat (map enc_tree l) ++ nops e ++ be_bytes FDT_END_NODE) ++ r) by (cbn [enc_tree]; by rewrite <-!app_assoc). rewrite Eh in Hh. clear Eh.
  cbn [twords] in Hb. fold (trees_words l) in Hb.
  set (ps_w := props_words ps) in *. set (ts_w := trees_words l) in *. set (nm_w := Z.of_nat (length s) / 4 + 1) in *.
  apply (stands_app o (Z.of_nat n + 1)) in Hh as [W1 Hh]; [|rewrite length_app, length_nops, length_be_bytes; lia].
  apply (stands_app _ nm_w) in Hh as [W2 Hh]; [|done].
  assert (W3 := Hh). apply (stands_app _ ps_w) in Hh as [_ Hh]; [|done]. apply here_prefix in Hh as W4.
  assert (W5 := W4). apply (stands_app _ ts_w) in W5 as [_ W5]; [|done].
  destruct (rest_head l e) as (k&tk&r'&Er&Htk&Hn1&Hn2).
  assert (Hk : (length (nops k) <= length (concat (map enc_tree l)) + 4 * e + 4)%nat).
  { apply (f_equal length) in Er. rewrite !length_app, !length_nops, length_be_bytes in Er. rewrite length_nops. lia. }
  rewrite Er in W3. rewrite <-!app_assoc, app_assoc, (app_assoc _ (be_bytes tk)) in W3. apply here_prefix in W3. rewrite <-app_assoc in W3.
  cbn [dtb_parse_node]. destruct (skip_nops_spec n FDT_BEGIN_NODE ltac:(done) ltac:(done) o (S fuel) Ho W1 ltac:(lia)) as [-> Hw1]. cbn [mbind outcome_bind].
  rewrite (token_word _ _ Hw1). cbn [mbind outcome_bind]. rewrite Z.eqb_refl. cbn [negb].
  rewrite (next_offset (o + Z.of_nat n) 1) by lia. replace (o + Z.of_nat n + 1) with (o + (Z.of_nat n + 1)) by lia.
  rewrite (here_cstr _ _ _ _ W2 Hz). cbn [mbind outcome_bind].
  assert (0 <= Z.of_nat (length s) / 4) by (apply Z.div_pos; lia).
  replace (o + (Z.of_nat n + 1) + Z.of_nat (length s) / 4 + 1) with (o + (Z.of_nat n + 1) + nm_w) by (unfold nm_w; lia).
  rewrite (next_offset _ nm_w) by (unfold nm_w in *; lia).
  assert (O2 : 0 <= o + (Z.of_nat n + 1) + nm_w) by (unfold nm_w; lia). assert (O3 : 0 <= o + (Z.of_nat n + 1) + nm_w + ps_w) by lia.
  assert (O4 : 0 <= o + (Z.of_nat n + 1) + nm_w + ps_w + ts_w) by lia.
  rewrite (parse_props_spec depth k tk ps Htk Hn1 Hn2 Hps _ _ [] O2 W3) by (rewrite length_app; lia). cbn [mbind outcome_bind app].
  fold ps_w.
  rewrite (parse_nodes_spec depth e l Hl Hpl _ _ [] O3 W4) by (rewrite !length_app, length_nops, length_be_bytes; lia). cbn [mbind outcome_bind app].
  fold ts_w. destruct (skip_nops_spec e FDT_END_NODE ltac:(done) ltac:(done) _ (S fuel) O4 W5 ltac:(lia)) as [-> Hw2]. cbn [mbind outcome_bind].
  rewrite (token_word _ _ Hw2). cbn [mbind outcome_bind]. rewrite Z.eqb_refl. cbn [negb]. rewrite next_offset by lia.
  rewrite tree_at_eq. cbv zeta. fold nm_w ps_w. cbn [twords]. fold (trees_words l) ts_w ps_w nm_w.
  replace (o + Z.of_nat n + 1) with (o + (Z.of_nat n + 1)) by lia. do 3 f_equal. lia.
Qed.
End parse.
