(* ===== verification/DtbCorrect.v ===== *)
(** * Device trees: correctness

    Opening a flattened device tree yields that tree, and the queries find what
    it holds. *)

From Stdlib Require Import String Ascii.
From S2P Require Import Prelude Badgelib IntRoutines Containers FormatStr Dtb DtbTheory.

(** ** Reference *)

(** The number that bytes denote, the most significant first. *)
Definition be_value (bs : list Z) : Z := foldl (λ v b, 256 * v + b) 0 bs.

Definition named (name : list Z) (p : fprop) : Prop := fp_name p = name.
#[export] Instance named_dec name p : Decision (named name p).
Proof. unfold named. apply _. Defined.

(** The first property with a name, and the number of a node. *)
Definition prop_of (name : list Z) (t : ftree) : option fprop := snd <$> list_find (named name) (ft_props t).
Definition tree_phandle (t : ftree) : option Z := (λ p, be_value (fp_content p) mod 2 ^ 32) <$> prop_of (text "phandle") t.

(** All numbers, with the paths to their nodes. *)
Fixpoint all_phandles (self : list nat) (t : ftree) : list (list nat * Z) :=
  match tree_phandle t with Some v => [(self, v)] | None => [] end ++
  (fix go i l := match l with [] => [] | t :: l => all_phandles (i :: self) t ++ go (S i) l end) 0%nat (ft_nodes t).

(** A predicate on all properties. *)
Fixpoint tree_all (Q : fprop → Prop) (t : ftree) : Prop :=
  Forall Q (ft_props t) ∧ (fix go l := match l with [] => True | t :: l => tree_all Q t ∧ go l end) (ft_nodes t).

(** A blob that holds the tree, with [n] empty tokens before the end; the numbers
    of nodes are distinct. *)
Record flattened (m : list Z) (off_struct off_strings : Z) (n : nat) (t : ftree) : Prop := Flattened {
  fl_magic : here m 0 (be_bytes FDT_HEADER_MAGIC);
  fl_struct : fits 32 off_struct ∧ here m 8 (be_bytes off_struct);
  fl_strings : fits 32 off_strings ∧ here m 12 (be_bytes off_strings);
  fl_tree : here m off_struct (enc_tree t ++ nops n ++ be_bytes FDT_END);
  fl_names : tree_all (λ p, here m (off_strings + fp_nameoff p) (fp_name p ++ [0])) t;
  fl_size : Z.of_nat (length m) < 2 ^ 32;
  fl_ok : tree_ok t;
  fl_distinct : NoDup (all_phandles [] t).*2;
  fl_bounded : Forall (λ e, e.2 < 2 ^ 31) (all_phandles [] t);
}.

(** A driver knows a compatible string; the first driver that knows one, for the
    first string that any knows. *)
Definition knows (s : list Z) (d : driver) : Prop := match d with DriverPci => False | DriverDtb l => s ∈ l end.
#[export] Instance knows_dec s d : Decision (knows s d).
Proof. destruct d; unfold knows; apply _. Defined.

Definition choose (ds : list driver) (strs : list (list Z)) : option nat := head (omap (λ s, fst <$> list_find (knows s) ds) strs).

(** The compatible strings of a device. *)
Definition compatible_strings (t : ftree) (strs : list (list Z)) : Prop :=
  match prop_of (text "compatible") t with
  | None => strs = []
  | Some p => fp_content p = concat (map (λ s, s ++ [0]) strs) ∧ Forall (λ s, 0 ∉ s) strs
  end.

Fixpoint devices (ds : list driver) (i : nat) (css : list (list (list Z))) : list (nat * nat) :=
  match css with [] => [] | strs :: css => match choose ds strs with Some d => [(i, d)] | None => [] end ++ devices ds (S i) css end.

Definition uint_prop (name : list Z) (t : ftree) : Z := match prop_of name t with Some p => be_value (fp_content p) | None => 0 end.

(** ** What a parsed tree shows *)

Definition prop_shows (m : list Z) (p : dtb_prop) (f : fprop) : Prop :=
  prop_name m p = Done (fp_name f) ∧ content_len p = Z.of_nat (length (fp_content f)) ∧ here m (content p) (fp_content f).

(** The links of an element of an array of length [n]. *)
Definition next_of (n i : nat) : option nat := if (i + 1 <? n)%nat then Some (i + 1)%nat else None.
Definition prev_of (i : nat) : option nat := if (0 <? i)%nat then Some (i - 1)%nat else None.
Definition linked_props (self : list nat) (l : list dtb_prop) : Prop := ∀ i p, l !! i = Some p →
  pr_next p = next_of (length l) i ∧ pr_prev p = prev_of i ∧ pr_parent p = Some self.
Definition linked_nodes (self : list nat) (l : list dtb_node) : Prop := ∀ i c, l !! i = Some c →
  nd_next c = next_of (length l) i ∧ nd_prev c = prev_of i ∧ nd_parent c = Some self.

Inductive shows (m : list Z) : list nat → Z → dtb_node → ftree → Prop :=
  | shows_node self depth nd t :
      nd_depth nd = depth →
      Forall2 (prop_shows m) (props nd) (ft_props t) → linked_props self (props nd) →
      length (nodes nd) = length (ft_nodes t) → linked_nodes self (nodes nd) →
      phandle nd = default 0 (tree_phandle t) → has_phandle nd = bool_decide (is_Some (tree_phandle t)) →
      (∀ i c ct, nodes nd !! i = Some c → ft_nodes t !! i = Some ct →
        node_name m c = Done (ft_name ct) ∧ shows m (i :: self) (u8 (depth + 1)) c ct) →
      shows m self depth nd t.

(** ** Numbers *)

Lemma shift_in v b k : 0 <= k <= 64 → 0 <= b < 2 ^ k → Z.lor (u64 (Z.shiftl v k)) b = (2 ^ k * v + b) mod 2 ^ 64.
Proof.
  intros Hk Hb. rewrite Z.shiftl_mul_pow2 by lia. unfold wrap.
  assert (E64 : 2 ^ 64 = 2 ^ (64 - k) * 2 ^ k) by (rewrite <-Z.pow_add_r by lia; f_equal; lia).
  assert (0 < 2 ^ k) by lia. assert (0 < 2 ^ (64 - k)) by (apply Z.pow_pos_nonneg; lia).
  rewrite E64, Z.mul_mod_distr_r by lia. pose proof (Z.mod_pos_bound v (2 ^ (64 - k)) ltac:(lia)) as Hv.
  rewrite <-Z.shiftl_mul_pow2, Z.lor_comm, lor_shiftl_add by lia.
  pose proof (Z.div_mod v (2 ^ (64 - k)) ltac:(lia)) as Hd. apply Z.mod_unique_pos with (v / 2 ^ (64 - k)); nia.
Qed.

Lemma u32_u64 x : u32 (x mod 2 ^ 64) = x mod 2 ^ 32.
Proof. symmetry. apply Znumtheory.Zmod_div_mod; [lia|lia|by exists (2 ^ 32)]. Qed.

Lemma here_cons m a b bs : here m a (b :: bs) → load8 m a = Done b ∧ here m (a + 1) bs.
Proof.
  change (b :: bs) with ([b] ++ bs). intros [[Ha [r E]] Hbs]%here_app. split; [|exact Hbs]. unfold load8. rewrite decide_True by done.
  assert (m !! Z.to_nat a = Some b) as ->; [|done]. rewrite <-(Nat.add_0_r (Z.to_nat a)), <-lookup_drop, E. done.
Qed.

Lemma read_bytes_spec h bs : Forall (fits 8) bs → ∀ a v, here (blob h) a bs →
  read_bytes h (length bs) a (v mod 2 ^ 64) = Done (foldl (λ v b, 256 * v + b) v bs mod 2 ^ 64).
Proof.
  induction 1 as [|b bs Hb Hbs IH]; intros a v Hh; cbn [read_bytes length foldl]; [done|]. apply here_cons in Hh as [-> Hh]. cbn [mbind outcome_bind].
  rewrite shift_in by (unfold fits in Hb; lia). rewrite <-Zplus_mod_idemp_l, Zmult_mod_idemp_r, Zplus_mod_idemp_l. by apply IH.
Qed.

Lemma read_words_spec h ws : Forall (fits 32) ws → ∀ a v, here (blob h) a (concat (map be_bytes ws)) →
  read_words h (length ws) a (v mod 2 ^ 64) = Done (foldl (λ v w, 2 ^ 32 * v + w) v ws mod 2 ^ 64).
Proof.
  induction 1 as [|w ws Hw Hws IH]; intros a v Hh; cbn [read_words length foldl]; [done|]. cbn [map concat] in Hh. apply here_app in Hh as [W Hh].
  rewrite (here_load32 _ _ _ W). cbn [mbind outcome_bind]. rewrite be32toh_htobe32 by done.
  rewrite shift_in by (unfold fits in Hw; lia). rewrite <-Zplus_mod_idemp_l, Zmult_mod_idemp_r, Zplus_mod_idemp_l. by apply IH.
Qed.

(** ** Queries *)

Section queries.
Context `{!DtStrings, !DtStringsSpec} (h : dtb_handle).

Lemma name_match s name : 0 ∉ s → cstr_prefix_equals s name (length name) && (at_ s (length name) =? 0) = bool_decide (s = name).
Proof.
  intros Hs. rewrite cstr_prefix_equals_spec. rewrite (take_ge name) by done. destruct (decide (s = name)) as [->|Hne].
  - rewrite !bool_decide_eq_true_2 by (try rewrite take_ge; done). unfold at_. by rewrite lookup_ge_None_2.
  - rewrite (bool_decide_eq_false_2 (s = name)) by done. apply andb_false_iff. destruct (decide (take (length name) s = name)) as [E|E];
      [|left; by apply bool_decide_eq_false_2]. right. apply Z.eqb_neq. unfold at_. destruct (s !! length name) as [c|] eqn:Ec; cbn.
    + intros ->. by apply Hs, list_elem_of_lookup_2 with (length name).
    + apply lookup_ge_None_1 in Ec. by rewrite take_ge in E.
Qed.

(** The loop finds the first element with the name. *)
Lemma find_named_spec {A} (name_at : A → outcome (list Z)) next (l : list A) (names : list (list Z)) name :
  Forall2 (λ x s, name_at x = Done s) l names → Forall (λ s, 0 ∉ s) names → (∀ i x, l !! i = Some x → next x = next_of (length l) i) →
  ∀ k i, (i + k = length l)%nat →
  find_named name_at next k l (if (i <? length l)%nat then Some i else None) name (length name) =
    Done ((λ j, i + j)%nat <$> (fst <$> list_find (.= name) (drop i names))).
Proof.
  intros Hn Hz Hl. pose proof (Forall2_length _ _ _ Hn) as Hlen. induction k as [|k IH]; intros i Hi.
  - rewrite (proj2 (Nat.ltb_ge _ _)) by lia. rewrite drop_ge by lia. done.
  - rewrite (proj2 (Nat.ltb_lt _ _)) by lia. cbn [find_named]. destruct (lookup_lt_is_Some_2 l i) as [x Hx]; [lia|].
    destruct (Forall2_lookup_l _ _ _ _ _ Hn Hx) as (s&Es&Hname). rewrite Hx. cbn [deref mbind outcome_bind]. rewrite Hname. cbn [mbind outcome_bind].
    rewrite name_match by (eapply (Forall_lookup_1 _ _ _ _ Hz Es)). rewrite (drop_S names s i Es). cbn [list_find].
    destruct (decide (s = name)) as [->|Hne].
    + rewrite bool_decide_eq_true_2 by done. cbn. by rewrite Nat.add_0_r.
    + rewrite bool_decide_eq_false_2 by done. rewrite (Hl i x Hx). unfold next_of.
      replace (i + 1)%nat with (S i) by lia. rewrite IH by lia.
      destruct (list_find (.= name) (drop (S i) names)) as [[j y]|]; cbn; [|done]. do 2 f_equal. lia.
Qed.

(** The search in an array whose elements show the entries of [ts]. *)
Lemma find_in_array {A B} (name_at : A → outcome (list Z)) (nm : B → list Z) next (l : list A) (ts : list B) name :
  Forall2 (λ x t, name_at x = Done (nm t)) l ts → Forall (λ t, 0 ∉ nm t) ts → (∀ i x, l !! i = Some x → next x = next_of (length l) i) →
  find_named name_at next (length l) l (array_start l) name (length name) = Done (fst <$> list_find (λ t, nm t = name) ts).
Proof.
  intros Hn Hz Hl. assert (E : array_start l = if (0 <? length l)%nat then Some 0%nat else None) by by destruct l. rewrite E.
  rewrite (find_named_spec name_at next l (map nm ts) name); [|by apply Forall2_fmap_r|by apply Forall_fmap|done|done].
  rewrite drop_0. change (map nm ts) with (nm <$> ts). rewrite list_find_fmap.
  change ((.= name) ∘ nm) with (λ t, nm t = name). destruct (list_find _ ts) as [[j y]|]; done.
Qed.
End queries.

(** ** References *)

(** A node as the parser leaves it. *)
Inductive raw (m : list Z) : Z → dtb_node → ftree → Prop :=
  | raw_node depth nd t :
      nd_depth nd = depth → phandle nd = 0 → has_phandle nd = false → nd_next nd = None → nd_prev nd = None →
      Forall2 (prop_shows m) (props nd) (ft_props t) → Forall (λ p, pr_next p = None ∧ pr_prev p = None) (props nd) →
      length (nodes nd) = length (ft_nodes t) →
      (∀ i c ct, nodes nd !! i = Some c → ft_nodes t !! i = Some ct → node_name m c = Done (ft_name ct) ∧ raw m (u8 (depth + 1)) c ct) →
      raw m depth nd t.

Section raw.
Context (h : dtb_handle).
Notation stands o bs := (here (blob h) (struct_blk h + 4 * o) bs).

Lemma props_at_raw depth ps : Forall prop_ok ps → Forall (λ p, here (blob h) (string_blk h + fp_nameoff p) (fp_name p ++ [0])) ps →
  ∀ o r, stands o (concat (map enc_prop ps) ++ r) →
  Forall2 (prop_shows (blob h)) (props_at h o depth ps) ps ∧ Forall (λ p, pr_next p = None ∧ pr_prev p = None) (props_at h o depth ps).
Proof.
  induction 1 as [|p ps Hp Hps IH]; intros Hn o r Hh; cbn [props_at]; [done|]. apply Forall_cons in Hn as [Hn Hns].
  cbn [map concat] in Hh. rewrite <-app_assoc in Hh. apply (stands_app h o (pwords p)) in Hh as [W Hh]; [|by apply pwords_length].
  destruct (IH Hns _ _ Hh) as [I1 I2]. split; (constructor; [|done]); [|done]. split_and!; [|done|].
  - apply (here_cstr _ _ _ []); [done|]. by destruct Hp as (_&_&_&?).
  - unfold enc_prop in W. apply (stands_app h o (Z.of_nat (fp_nops p))) in W as [_ W]; [|rewrite length_nops; lia].
    do 3 (apply (stands_app h _ 1) in W as [_ W]; [|done]). apply here_prefix in W. cbn [content prop_at].
    replace (o + Z.of_nat (fp_nops p) + 3) with (o + Z.of_nat (fp_nops p) + 1 + 1 + 1) by lia. done.
Qed.

Lemma tree_all_eq Q t : tree_all Q t ↔ Forall Q (ft_props t) ∧ Forall (tree_all Q) (ft_nodes t).
Proof. destruct t as [n s pad ps l e]. cbn [tree_all ft_props ft_nodes]. apply and_iff_compat_l. induction l as [|t l IH]; [by split|]. by rewrite Forall_cons, IH. Qed.

Lemma tree_at_raw t : tree_ok t → tree_all (λ p, here (blob h) (string_blk h + fp_nameoff p) (fp_name p ++ [0])) t → ∀ o depth r, stands o (enc_tree t ++ r) →
  node_name (blob h) (tree_at h o depth t) = Done (ft_name t) ∧ raw (blob h) depth (tree_at h o depth t) t.
Proof.
  induction t as [n s pad ps l e IH] using ftree_induction. intros (Hz&Hpad&Hps&Hl)%tree_ok_eq [Hn1 Hn2]%tree_all_eq o depth r Hh.
  cbn [ft_props ft_nodes] in Hn1, Hn2. rewrite tree_at_eq. cbv zeta. cbn [enc_tree] in Hh. apply here_prefix in Hh.
  rewrite app_assoc in Hh. apply (stands_app h o (Z.of_nat n + 1)) in Hh as [_ Hh]; [|rewrite length_app, length_nops, length_be_bytes; lia].
  replace (o + Z.of_nat n + 1) with (o + (Z.of_nat n + 1)) by lia.
  apply (stands_app h _ (Z.of_nat (length s) / 4 + 1)) in Hh as [W1 Hh]; [|by apply name_words].
  assert (Hh2 := Hh). apply (stands_app h _ (props_words ps)) in Hh2 as [_ Hh2]; [|by apply props_words_length].
  split; [by apply (here_cstr _ _ _ _ W1)|]. destruct (props_at_raw depth ps Hps Hn1 _ _ Hh) as [P1 P2]. apply raw_node; [reflexivity..|exact P1|exact P2| |]; cbn [nodes ft_nodes].
  - generalize (o + (Z.of_nat n + 1) + (Z.of_nat (length s) / 4 + 1) + props_words ps). clear. induction l as [|t l IH]; intros k; [done|]. cbn. by rewrite IH.
  - revert Hh2. generalize (o + (Z.of_nat n + 1) + (Z.of_nat (length s) / 4 + 1) + props_words ps). generalize (nops e ++ be_bytes FDT_END_NODE).
    clear -IH Hl Hn2. induction l as [|t l IHl]; intros r k Hh i c ct; [done|]. apply Forall_cons in IH as [It IH]. apply Forall_cons in Hl as [Ht Hl].
    apply Forall_cons in Hn2 as [Hn Hn2]. cbn [map concat] in Hh. rewrite <-app_assoc in Hh. destruct i as [|i]; cbn [trees_at lookup list_lookup].
    + intros [= <-] [= <-]. by apply (It Ht Hn _ _ _ Hh).
    + apply (stands_app h k (twords t)) in Hh as [_ Hh]; [|by apply twords_length]. by apply (IHl IH Hl Hn2 r).
Qed.
End raw.

Definition own_phandle (self : list nat) (t : ftree) : list (list nat * Z) := match tree_phandle t with Some v => [(self, v)] | None => [] end.
Fixpoint forest_phandles (self : list nat) (i : nat) (l : list ftree) : list (list nat * Z) :=
  match l with [] => [] | t :: l => all_phandles (i :: self) t ++ forest_phandles self (S i) l end.

Lemma all_phandles_eq self t : all_phandles self t = own_phandle self t ++ forest_phandles self 0 (ft_nodes t).
Proof.
  destruct t as [n s pad ps l e]. cbn [all_phandles ft_nodes]. unfold own_phandle. f_equal. generalize 0%nat. induction l as [|t l IH]; intros i; [done|].
  cbn [forest_phandles]. by rewrite IH.
Qed.

Definition table_ok (phs : list (list nat * Z)) : Prop := key_sorted snd phs ∧ Forall (λ e, 0 <= e.2 < 2 ^ 31) phs.

Lemma phandle_cmp_small v e : 0 <= v < 2 ^ 31 → 0 <= e.2 < 2 ^ 31 → phandle_cmp v e = e.2 - v.
Proof.
  intros Hv He. unfold phandle_cmp, wrap, signed. rewrite Zmod_mod. destruct (decide (0 <= e.2 - v)).
  - rewrite Z.mod_small by lia. destruct (Z.ltb_spec (e.2 - v) (2 ^ (32 - 1))); lia.
  - replace (e.2 - v) with (e.2 - v + 2 ^ 32 + (- 1) * 2 ^ 32) by lia. rewrite Z.mod_add, Z.mod_small by lia.
    destruct (Z.ltb_spec (e.2 - v + 2 ^ 32) (2 ^ (32 - 1))); lia.
Qed.

Section build.
Context `{!KArrays, !KArraysSpec, !DtStrings, !DtStringsSpec} (h : dtb_handle).

Lemma table_insert self v phs : table_ok phs → 0 <= v < 2 ^ 31 → v ∉ phs.*2 →
  ∃ phs', array_sorted_insert true phs (self, v) (phandle_cmp v) = (true, phs') ∧ table_ok phs' ∧ phs' ≡ₚ phs ++ [(self, v)].
Proof.
  intros [Hs Hr] Hv Hn. destruct (key_sorted_cut snd phs v Hs Hn) as (a&b&->&Ha&Hb). apply Forall_app in Hr as [Ra Rb].
  assert (Hc : cmp_split (phandle_cmp v) a [] b).
  { split_and!; [|constructor|]; apply Forall_forall; intros e He; rewrite phandle_cmp_small; try lia;
      try (by apply (proj1 (Forall_forall _ _) Ra)); try (by apply (proj1 (Forall_forall _ _) Rb)).
    - apply (proj1 (Forall_forall _ _) Ha) in He. simpl in He. lia.
    - apply (proj1 (Forall_forall _ _) Hb) in He. simpl in He. lia. }
  destruct (array_sorted_insert_spec true a [] b (self, v) _ Hc) as [(e1&e2&[-> ->]%eq_sym%app_nil&E)|[? _]]; [|done].
  cbn [app] in E. rewrite E. eexists. split_and!; [done| |]; [split|].
  - apply key_sorted_app in Hs as (Sa&Sb&Sab). apply key_sorted_app. split_and!; [done| |].
    + unfold key_sorted. cbn. constructor; [done|]. by apply Forall_fmap.
    + intros x y Hx [->|Hy]%elem_of_cons; [by apply (proj1 (Forall_forall _ _) Ha) in Hx|by apply Sab].
  - apply Forall_app. split; [done|]. by constructor.
  - rewrite <-app_assoc. apply Permutation_app_head. rewrite Permutation_app_comm. done.
Qed.

Lemma prop_query nd self t name : Forall2 (prop_shows (blob h)) (props nd) (ft_props t) → linked_props self (props nd) → Forall prop_ok (ft_props t) →
  dtb_get_prop h nd name = Done (fst <$> list_find (named name) (ft_props t)).
Proof.
  intros F2 Hl Hok. apply (find_in_array (prop_name (blob h)) fp_name pr_next (props nd) (ft_props t) name).
  - eapply Forall2_impl; [exact F2|]. by intros p f [? _].
  - eapply Forall_impl; [exact Hok|]. by intros f (_&_&_&?).
  - intros i p Hp. by apply Hl.
Qed.

(** The property that a query finds. *)
Lemma prop_found nd t name i f : Forall2 (prop_shows (blob h)) (props nd) (ft_props t) → list_find (named name) (ft_props t) = Some (i, f) →
  ∃ p, props nd !! i = Some p ∧ prop_shows (blob h) p f.
Proof. intros F2 (Hf&_)%list_find_Some. destruct (Forall2_lookup_r _ _ _ _ _ F2 Hf) as (p&Hp&Hs). by exists p. Qed.

Lemma read_uint_shows p f : prop_shows (blob h) p f → Forall (fits 8) (fp_content f) → dtb_prop_read_uint h p = Done (be_value (fp_content f) mod 2 ^ 64).
Proof.
  intros (_&El&Hh) Hf. unfold dtb_prop_read_uint. rewrite El, Nat2Z.id. by apply (read_bytes_spec h (fp_content f) Hf _ 0).
Qed.

Lemma set_phandle_spec self nd t phs : Forall2 (prop_shows (blob h)) (props nd) (ft_props t) → linked_props self (props nd) → Forall prop_ok (ft_props t) →
  phandle nd = 0 → has_phandle nd = false → table_ok phs → NoDup (phs ++ own_phandle self t).*2 → Forall (λ e, e.2 < 2 ^ 31) (own_phandle self t) →
  ∃ phs', set_phandle true h self nd phs =
    Done (DtbNode (nd_next nd) (nd_prev nd) (nd_parent nd) (nd_name nd) (nd_depth nd) (nodes nd) (props nd) (default 0 (tree_phandle t)) (bool_decide (is_Some (tree_phandle t))), phs') ∧
  table_ok phs' ∧ phs' ≡ₚ phs ++ own_phandle self t.
Proof.
  intros F2 Hl Hok E0 E1 Ht Hnd Hlt. unfold set_phandle. rewrite (prop_query nd self t) by done. cbn [mbind outcome_bind].
  unfold own_phandle, tree_phandle, prop_of in *. destruct (list_find (named (text "phandle")) (ft_props t)) as [[i f]|] eqn:Ef; cbn [fmap option_fmap option_map fst snd default] in *.
  - destruct (prop_found nd t _ i f F2 Ef) as (p&Hp&Hs). rewrite Hp. cbn [deref mbind outcome_bind].
    assert (Hf : Forall (fits 8) (fp_content f)) by (apply list_find_Some in Ef as (Ef&_); by apply (Forall_lookup_1 _ _ _ _ Hok) in Ef as (_&_&?&_)).
    rewrite (read_uint_shows p f Hs Hf). cbn [mbind outcome_bind].
    rewrite u32_u64. set (v := be_value (fp_content f) mod 2 ^ 32) in *. apply Forall_cons in Hlt as [Hlt _]. cbn in Hlt.
    rewrite fmap_app in Hnd. apply NoDup_app in Hnd as (_&Hnd&_).
    destruct (table_insert self v phs Ht) as (phs'&->&Ht'&Hp'); [split; [apply Z.mod_pos_bound; lia|lia]|intros Hin; by apply (Hnd v Hin), list_elem_of_singleton|].
    exists phs'. split_and!; [|done|done]. cbn [negb]. by rewrite bool_decide_eq_true_2 by by eexists.
  - exists phs. rewrite app_nil_r, bool_decide_eq_false_2 by (by intros [? ?]). split_and!; [|done|done]. destruct nd; cbn in *. by subst.
Qed.

Fixpoint build_nodes (self : list nat) (n i : nat) (l : list dtb_node) (phs : list (list nat * Z)) : outcome (list dtb_node * list (list nat * Z)) :=
  match l with
  | [] => Done ([], phs)
  | c :: l =>
      '(c, phs) ← dtb_build_refs true h (i :: self) c phs;
      '(l, phs) ← build_nodes self n (S i) l phs;
      Done (link_node self n i c :: l, phs)
  end.

Lemma dtb_build_refs_eq self nd phs : dtb_build_refs true h self nd phs =
  '(nd', phs) ← set_phandle true h self (set_props (imap (link_prop self (length (props nd))) (props nd)) nd) phs;
  '(ns, phs) ← build_nodes self (length (nodes nd)) 0 (nodes nd) phs;
  Done (set_nodes ns nd', phs).
Proof.
  destruct nd as [next prev parent name depth ns ps ph has]. cbn [dtb_build_refs props nodes set_props]. destruct (set_phandle _ _ _ _ _) as [[nd' phs']| | |]; try done.
  cbn [mbind outcome_bind]. assert (E : ∀ n l i phs, (fix build_nodes (i : nat) (l : list dtb_node) (phs : list (list nat * Z)) :=
    match l with
    | [] => Done ([], phs)
    | c :: l => '(c, phs) ← dtb_build_refs true h (i :: self) c phs; '(l, phs) ← build_nodes (S i) l phs; Done (link_node self n i c :: l, phs)
    end) i l phs = build_nodes self n i l phs).
  { intros n. induction l as [|c l IH]; intros i phs2; [done|]. cbn [build_nodes]. destruct (dtb_build_refs _ _ _ c _) as [[c' phs3]| | |]; try done.
    cbn [mbind outcome_bind]. by rewrite IH. }
  by rewrite E.
Qed.

Lemma linked_imap self ps : Forall (λ p, pr_next p = None ∧ pr_prev p = None) ps → linked_props self (imap (link_prop self (length ps)) ps).
Proof.
  intros Hn i p. rewrite length_imap, list_lookup_imap. destruct (ps !! i) as [q|] eqn:Eq; [|done]. intros [= <-].
  apply (Forall_lookup_1 _ _ _ _ Hn) in Eq as [E1 E2]. unfold next_of, prev_of. cbn. by rewrite E1, E2.
Qed.

Lemma shown_imap self ps fs : Forall2 (prop_shows (blob h)) ps fs → Forall2 (prop_shows (blob h)) (imap (link_prop self (length ps)) ps) fs.
Proof.
  intros F2. apply Forall2_same_length_lookup_2; [rewrite length_imap; by eapply Forall2_length|]. intros i p f Hp Hf.
  rewrite list_lookup_imap in Hp. destruct (ps !! i) as [q|] eqn:Eq; [|done]. injection Hp as <-. exact (Forall2_lookup_lr _ _ _ _ _ _ F2 Eq Hf).
Qed.

Lemma shows_link self self' d n i c t : shows (blob h) self d c t → shows (blob h) self d (link_node self' n i c) t.
Proof. intros S. destruct S. by apply shows_node. Qed.

Definition builds (t : ftree) : Prop := ∀ self depth nd phs, raw (blob h) depth nd t → table_ok phs → NoDup (phs ++ all_phandles self t).*2 →
  Forall (λ e, e.2 < 2 ^ 31) (all_phandles self t) →
  ∃ nd' phs', dtb_build_refs true h self nd phs = Done (nd', phs') ∧ shows (blob h) self depth nd' t ∧ nd_name nd' = nd_name nd ∧
    nd_next nd' = None ∧ nd_prev nd' = None ∧ table_ok phs' ∧ phs' ≡ₚ phs ++ all_phandles self t.

Lemma build_nodes_spec self depth n ts : Forall builds ts → ∀ i l phs, length l = length ts →
  (∀ j c ct, l !! j = Some c → ts !! j = Some ct → node_name (blob h) c = Done (ft_name ct) ∧ raw (blob h) depth c ct) →
  table_ok phs → NoDup (phs ++ forest_phandles self i ts).*2 → Forall (λ e, e.2 < 2 ^ 31) (forest_phandles self i ts) →
  ∃ l' phs', build_nodes self n i l phs = Done (l', phs') ∧ length l' = length ts ∧ table_ok phs' ∧ phs' ≡ₚ phs ++ forest_phandles self i ts ∧
  ∀ j c ct, l' !! j = Some c → ts !! j = Some ct →
    (nd_next c = next_of n (i + j) ∧ nd_prev c = prev_of (i + j) ∧ nd_parent c = Some self) ∧
    node_name (blob h) c = Done (ft_name ct) ∧ shows (blob h) ((i + j)%nat :: self) depth c ct.
Proof.
  induction 1 as [|t ts Ht Hts IH]; intros i l phs Hl Hraw Htab Hnd Hlt; (destruct l as [|c l]; [|]); try done; cbn [build_nodes forest_phandles] in *.
  { exists [], phs. by rewrite app_nil_r. }
  apply Forall_app in Hlt as [Hlt1 Hlt2]. rewrite app_assoc in Hnd. destruct (Hraw 0%nat c t eq_refl eq_refl) as [Hname Hr].
  assert (Hnd1 := Hnd). rewrite fmap_app in Hnd1. apply NoDup_app in Hnd1 as (Hnd1&_&_).
  destruct (Ht (i :: self) depth c phs Hr Htab Hnd1 Hlt1) as (c'&phs1&->&Hsh&En&N1&N2&Htab1&Hp1). cbn [mbind outcome_bind].
  destruct (IH (S i) l phs1) as (l'&phs2&->&Hl'&Htab2&Hp2&Hel); [by injection Hl|intros j; apply (Hraw (S j))|done|by rewrite Hp1|done|].
  cbn [mbind outcome_bind]. eexists _, _. split_and!; [done|cbn; lia|done|by rewrite Hp2, Hp1, <-app_assoc|].
  intros [|j] d ct; cbn [lookup list_lookup].
  - intros [= <-] [= <-]. rewrite Nat.add_0_r. split_and!.
    + unfold next_of. cbn. by rewrite N1.
    + unfold prev_of. cbn. by rewrite N2.
    + done.
    + unfold node_name in *. cbn [link_node nd_name]. by rewrite En.
    + by apply shows_link.
  - intros Hd Hct. replace (i + S j)%nat with (S i + j)%nat by lia. by apply Hel.
Qed.

Lemma build_refs_spec t : tree_ok t → builds t.
Proof.
  induction t as [n s pad ps l e IH] using ftree_induction. intros (_&_&Hps&Hl)%tree_ok_eq self depth nd phs Hraw Htab Hnd Hlt.
  assert (Hb : Forall builds l) by (clear -IH Hl; induction IH as [|t l Ht IH IH2]; [done|]; apply Forall_cons in Hl as [? ?]; constructor; auto). clear IH.
  set (t := FTree n s pad ps l e) in *. rewrite all_phandles_eq in Hnd, Hlt |- *. change (ft_nodes t) with l in *.
  inversion Hraw as [? ? ? Ed E0 E1 N1 N2 F2 Hun Hlen Hch]; subst. change (ft_nodes t) with l in *.
  apply Forall_app in Hlt as [Hlt1 Hlt2]. rewrite app_assoc in Hnd. assert (Hnd1 := Hnd). rewrite fmap_app in Hnd1. apply NoDup_app in Hnd1 as (Hnd1&_&_).
  rewrite dtb_build_refs_eq.
  destruct (set_phandle_spec self (set_props (imap (link_prop self (length (props nd))) (props nd)) nd) t phs) as (phs1&->&Htab1&Hp1); try done.
  { by apply shown_imap. }
  { by apply linked_imap. }
  cbn [mbind outcome_bind].
  destruct (build_nodes_spec self (u8 (nd_depth nd + 1)) (length (nodes nd)) l Hb 0 (nodes nd) phs1) as (l'&phs2&->&Hl'&Htab2&Hp2&Hel); [done|done|done|by rewrite Hp1|done|].
  cbn [mbind outcome_bind]. eexists _, _. split_and!; [done| |done|done|done|done|by rewrite Hp2, Hp1, <-app_assoc].
  apply shows_node; cbn [set_nodes nodes props nd_depth phandle has_phandle set_props]; [reflexivity|by apply shown_imap|by apply linked_imap|exact Hl'| |reflexivity|reflexivity|].
  - intros i c Hc. destruct (lookup_lt_is_Some_2 l i) as [ct Hct]; [rewrite <-Hl'; by eapply lookup_lt_Some|].
    destruct (Hel i c ct Hc Hct) as [Hlink _]. by rewrite Hl', <-Hlen.
  - intros i c ct Hc Hct. by apply (Hel i c ct).
Qed.
End build.

(** ** The theorems *)

Section theorems.
Context `{!KArrays, !KArraysSpec, !DtStrings, !DtStringsSpec}.

Lemma hdr_field_spec m i x : fits 32 x → here m (4 * i) (be_bytes x) → hdr_field m i = Done x.
Proof. intros Hx Hh. unfold hdr_field. rewrite (here_load32 _ _ _ Hh). cbn [mbind outcome_bind]. by rewrite be32toh_htobe32. Qed.

Lemma raw_rename m depth nd t : raw m depth nd t → raw m depth (rename_root nd) t.
Proof. intros R. destruct R. by apply raw_node. Qed.

(** The lookup in a sorted table. *)
Lemma phandle_lookup h l v : table_ok (phandles h) → phandles h ≡ₚ l → NoDup l.*2 → 0 <= v < 2 ^ 31 →
  dtb_phandle_node h v = Done (fst <$> (snd <$> list_find (λ e, e.2 = v) l)).
Proof.
  intros [Hs Hr] Hp Hnd Hv. unfold dtb_phandle_node.
  assert (Hc : cmp_key snd (phandle_cmp v) v (phandles h)).
  { intros e He. rewrite phandle_cmp_small; [done|done|]. by apply (proj1 (Forall_forall _ _) Hr). }
  pose proof (binsearch_lookup snd (phandle_cmp v) (phandles h) v Hs Hc) as Hb. destruct (array_binsearch _ _) as [[|] i].
  - destruct Hb as (e&He&Ev). rewrite He. cbn [deref mbind outcome_bind]. assert (Hin : e ∈ l) by (rewrite <-Hp; by eapply list_elem_of_lookup_2).
    apply list_elem_of_lookup in Hin as [j Hj]. rewrite (proj2 (list_find_Some _ _ j e)); [done|]. split_and!; [done|done|].
    intros k y Hk Hlt Ey. apply (NoDup_lookup _ k j v) in Hnd; [lia| |]; rewrite list_lookup_fmap; [by rewrite Hk, <-Ey|by rewrite Hj, <-Ev].
  - destruct Hb as (_&H1'&H2'). rewrite (proj2 (list_find_None _ _)); [done|]. apply Forall_forall. intros e He Ee. rewrite <-Hp in He.
    rewrite <-(take_drop i (phandles h)) in He. apply elem_of_app in He as [He|He].
    + apply (proj1 (Forall_forall _ _) H1') in He. simpl in He. lia.
    + apply (proj1 (Forall_forall _ _) H2') in He. simpl in He. lia.
Qed.

Lemma dtb_opens m off_struct off_strings n t : flattened m off_struct off_strings n t →
  ∃ h, dtb_open true true m = Done (Some h) ∧ blob h = m ∧ shows m [] 0 (root h) t ∧ node_name m (root h) = Done (text "/") ∧
  ∀ v, 0 <= v < 2 ^ 31 → dtb_phandle_node h v = Done (fst <$> (snd <$> list_find (λ e, e.2 = v) (all_phandles [] t))).
Proof.
  intros [Hmagic [Hst Hst'] [Hsg Hsg'] Htree Hnames Hsize Hok Hnd Hlt]. unfold dtb_open. cbn [negb].
  rewrite (hdr_field_spec m 0 FDT_HEADER_MAGIC) by done. cbn [mbind outcome_bind]. rewrite Z.eqb_refl. cbn [negb].
  rewrite (hdr_field_spec m 3 off_strings) by done. cbn [mbind outcome_bind]. rewrite (hdr_field_spec m 2 off_struct) by done. cbn [mbind outcome_bind].
  set (h := DtbHandle m off_struct off_strings zero_node []).
  assert (Hh : here (blob h) (struct_blk h + 4 * 0) (enc_tree t ++ nops n ++ be_bytes FDT_END)) by (cbn [h blob struct_blk]; by rewrite Z.add_0_r).
  assert (Hne : enc_tree t ++ nops n ++ be_bytes FDT_END ≠ []) by (destruct t as [[] ? ? ? ? ?]; done).
  pose proof (here_length _ _ _ Hh Hne) as Hlen. cbn [h blob struct_blk] in Hlen. rewrite !length_app, length_nops, length_be_bytes in Hlen. unfold fits in Hst.
  rewrite (parse_tree_spec h Hsize (proj1 Hst) t Hok 0 0 (length m) _ ltac:(lia) Hh ltac:(lia)). cbn [mbind outcome_bind].
  destruct (tree_at_raw h t Hok Hnames 0 0 _ Hh) as [_ Hraw].
  apply (stands_app h 0 (twords t)) in Hh as [_ Hh]; [|by apply twords_length].
  pose proof (twords_length t Hok) as Htw.
  destruct (skip_nops_spec h Hsize (proj1 Hst) n FDT_END ltac:(done) ltac:(done) (0 + twords t) (length m) ltac:(lia) Hh ltac:(lia)) as [-> Hw]. cbn [mbind outcome_bind].
  rewrite (token_word h _ _ Hw). cbn [mbind outcome_bind]. rewrite Z.eqb_refl. cbn [negb].
  set (nd := rename_root _) in *. set (h1 := DtbHandle m off_struct off_strings nd []).
  destruct (build_refs_spec h1 t Hok [] 0 nd []) as (nd'&phs'&->&Hsh&En&_&_&Htab&Hp); [by apply raw_rename|split; [constructor|done]|done|done|].
  cbn [mbind outcome_bind]. eexists. split_and!; [done|done|exact Hsh| |].
  - unfold node_name. cbn [root]. by rewrite En.
  - intros v Hv. by apply phandle_lookup.
Qed.

Section drivers.
Context `{!BadgeStrings, !BadgeStringsSpec} (ds : list driver) (h : dtb_handle) (Hsize : Z.of_nat (length (blob h)) < 2 ^ 32).

Lemma check_drivers_spec s : ∀ i l, check_drivers i l s = (λ j, i + j)%nat <$> (fst <$> list_find (knows s) l).
Proof.
  intros i l. revert i. induction l as [|d l IH]; intros i; [done|]. cbn [check_drivers list_find].
  assert (E : supports s d = bool_decide (knows s d)).
  { destruct d as [|l']; [done|]. cbn [supports]. clear IH. induction l' as [|x l' IH]; [done|]. cbn [existsb]. rewrite cstr_equals_spec, IH. cbn [knows].
    destruct (decide (s = x)) as [->|Hne]; [rewrite (bool_decide_eq_true_2 (x = x)) by done; cbn; symmetry; apply bool_decide_eq_true_2; by left|].
    rewrite (bool_decide_eq_false_2 (s = x)) by done. cbn. apply bool_decide_ext. cbn [knows]. rewrite elem_of_cons. naive_solver. }
  rewrite E. destruct (decide (knows s d)) as [Hk|Hk].
  - rewrite bool_decide_eq_true_2 by done. cbn. f_equal. lia.
  - rewrite bool_decide_eq_false_2, IH by done. destruct (list_find (knows s) l) as [[j y]|]; cbn; [|done]. f_equal. lia.
Qed.

Lemma check_options_spec strs : Forall (λ s, 0 ∉ s) strs → ∀ str fuel, here (blob h) str (concat (map (λ s, s ++ [0]) strs)) → (length strs < fuel)%nat →
  check_options ds fuel h str (Z.of_nat (length (concat (map (λ s, s ++ [0]) strs)))) = Done (choose ds strs).
Proof.
  induction 1 as [|s strs Hs Hstrs IH]; intros str fuel Hh Hf; (destruct fuel as [|fuel]; [cbn in Hf; lia|]); cbn [check_options map concat] in *; [done|].
  assert (Hb := here_length _ _ _ Hh). cbn [length] in Hf. rewrite length_app, length_app in *. cbn [length] in *.
  assert (str + Z.of_nat (length s + 1 + length (concat (map (λ s, s ++ [0]) strs))) <= Z.of_nat (length (blob h))) by (apply Hb; by destruct s).
  pose proof (proj1 Hh). rewrite (proj2 (Z.eqb_neq _ _)) by lia. apply here_app in Hh as [W Hh].
  rewrite (here_cstr _ _ s [] W Hs). cbn [mbind outcome_bind]. rewrite check_drivers_spec. unfold choose. cbn [omap list_omap].
  rewrite length_app in Hh. cbn [length] in Hh.
  destruct (list_find (knows s) ds) as [[j y]|]; cbn [fmap option_fmap option_map fst head]; [done|].
  assert (E1 : str + (Z.of_nat (length s) + 1) = str + Z.of_nat (length s + 1)) by lia. rewrite E1.
  assert (E2 : ∀ k, Z.of_nat (length s + 1 + k) - (Z.of_nat (length s) + 1) = Z.of_nat k) by (intros; lia). rewrite E2.
  unfold wrap. rewrite Z.mod_small by lia. apply IH; [done|lia].
Qed.

Lemma options_count (strs : list (list Z)) : (length strs <= length (concat (map (λ s, s ++ [0%Z]) strs)))%nat.
Proof. induction strs as [|s strs IH]; [done|]. cbn. rewrite !length_app. cbn. lia. Qed.

Lemma device_spec self depth nd t strs : shows (blob h) self depth nd t → tree_ok t → compatible_strings t strs →
  ∃ found p, dtb_get_prop h nd (text "compatible") = Done found ∧
    (match found with Some k => p ← deref (props nd !! k); Done (Some p) | None => Done None end) = Done p ∧
    let '(str, len) := default (0, 0) (dtb_prop_content p) in check_options ds (S (length (blob h))) h str len = Done (choose ds strs).
Proof.
  intros Hsh Hok Hc. assert (Hps : Forall prop_ok (ft_props t)) by (destruct t; by apply tree_ok_eq in Hok as (_&_&?&_)).
  inversion Hsh as [? ? ? ? Ed F2 Hlp _ _ _ _ _]; subst. rewrite (prop_query h nd self t (text "compatible") F2 Hlp Hps).
  unfold compatible_strings, prop_of in Hc. destruct (list_find (named (text "compatible")) (ft_props t)) as [[k f]|] eqn:Ef.
  - destruct (prop_found h nd t _ k f F2 Ef) as (p&Hp&_&El&Hh). exists (Some k), (Some p). rewrite Hp. split_and!; [done|done|]. cbn in Hc. cbn -[check_options]. destruct Hc as [Hc Hz].
    rewrite El. rewrite Hc in Hh |- *. apply check_options_spec; [done|done|]. pose proof (options_count strs).
    destruct (concat (map (λ s, s ++ [0]) strs)) as [|x r] eqn:Er; [simpl in *; lia|]. pose proof (here_length _ _ _ Hh ltac:(done)). pose proof (proj1 Hh). lia.
  - exists None, None. cbn in Hc. by subst.
Qed.

Lemma walk_devices_spec self depth l ts css : length l = length ts →
  (∀ i c ct, l !! i = Some c → ts !! i = Some ct → shows (blob h) (i :: self) depth c ct) → linked_nodes self l → Forall tree_ok ts →
  Forall2 compatible_strings ts css → ∀ k i, (i + k = length l)%nat →
  walk_devices ds k h l (if (i <? length l)%nat then Some i else None) = Done (devices ds i (drop i css)).
Proof.
  intros Hlen Hsh Hlk Hok Hcs. pose proof (Forall2_length _ _ _ Hcs) as Hcl. induction k as [|k IH]; intros i Hi.
  - rewrite (proj2 (Nat.ltb_ge _ _)) by lia. by rewrite drop_ge by lia.
  - rewrite (proj2 (Nat.ltb_lt _ _)) by lia. cbn [walk_devices]. destruct (lookup_lt_is_Some_2 l i) as [c Hc]; [lia|].
    destruct (lookup_lt_is_Some_2 ts i) as [ct Hct]; [lia|]. destruct (Forall2_lookup_l _ _ _ _ _ Hcs Hct) as (strs&Hstrs&Hcomp).
    rewrite Hc. cbn [deref mbind outcome_bind].
    destruct (device_spec (i :: self) depth c ct strs (Hsh i c ct Hc Hct) (Forall_lookup_1 _ _ _ _ Hok Hct) Hcomp) as (found&p&->&Ep&Eo).
    cbn [mbind outcome_bind] in Ep |- *. rewrite Ep. cbn [mbind outcome_bind]. destruct (default (0, 0) (dtb_prop_content p)) as [str len]. rewrite Eo. cbn [mbind outcome_bind].
    destruct (Hlk i c Hc) as (->&_&_). unfold next_of. replace (i + 1)%nat with (S i) by lia. rewrite IH by lia. cbn [mbind outcome_bind].
    rewrite (drop_S css strs i Hstrs). cbn [devices]. by destruct (choose ds strs).
Qed.
End drivers.

(** C16: Opening a blob that holds a flattened device tree, with empty tokens and
    padding anywhere the format allows them, gives back that tree: every node
    has the name, depth, properties, children and number of the original, the
    links lead to the siblings and the parent, and a node is found by its
    number.  The numbers of the nodes are distinct and below 2^31: beyond, the order
    that they are sorted by wraps around (see [phandle_order_wraps]). *)
Theorem dtb_open_correct m off_struct off_strings n t : flattened m off_struct off_strings n t →
  ∃ h, dtb_open true true m = Done (Some h) ∧ blob h = m ∧ shows m [] 0 (root h) t ∧ node_name m (root h) = Done (text "/") ∧
  ∀ v, 0 <= v < 2 ^ 31 → dtb_phandle_node h v = Done (fst <$> (snd <$> list_find (λ e, e.2 = v) (all_phandles [] t))).
Proof. apply dtb_opens. Qed.

Lemma dtb_queries h self depth nd t name : shows (blob h) self depth nd t → tree_ok t →
  dtb_get_node h nd name = Done (fst <$> list_find (λ c, ft_name c = name) (ft_nodes t)) ∧
  dtb_get_prop h nd name = Done (fst <$> list_find (named name) (ft_props t)) ∧
  dtb_read_uint h nd name = Done (match prop_of name t with Some p => be_value (fp_content p) mod 2 ^ 64 | None => 0 end) ∧
  ∀ p pre ws post, prop_of name t = Some p → Forall (fits 32) ws → fp_content p = concat (map be_bytes (pre ++ ws ++ post)) →
    dtb_read_cells h nd name (Z.of_nat (length pre)) (Z.of_nat (length ws)) = Done (foldl (λ v w, 2 ^ 32 * v + w) 0 ws mod 2 ^ 64).
Proof.
  intros Hsh Hok. assert (Hps : Forall prop_ok (ft_props t)) by (destruct t; by apply tree_ok_eq in Hok as (_&_&?&_)).
  assert (Hl : Forall tree_ok (ft_nodes t)) by (destruct t; by apply tree_ok_eq in Hok as (_&_&_&?)).
  inversion Hsh as [? ? ? ? Ed F2 Hlp Hlen Hln _ _ Hch]; subst. pose proof (prop_query h nd self t name F2 Hlp Hps) as Hq.
  split_and!; [|done| |].
  - apply (find_in_array (node_name (blob h)) ft_name nd_next (nodes nd) (ft_nodes t) name).
    + apply Forall2_same_length_lookup_2; [done|]. intros i c ct Hc Hct. by apply (Hch i c ct).
    + eapply Forall_impl; [exact Hl|]. intros c Hc. destruct c. by apply tree_ok_eq in Hc as (?&_).
    + intros i c Hc. by apply Hln.
  - unfold dtb_read_uint, dtb_read_uint_l. change (dtb_get_prop_l h nd name (length name)) with (dtb_get_prop h nd name). rewrite Hq. unfold prop_of.
    destruct (list_find (named name) (ft_props t)) as [[i f]|] eqn:Ef; [|done]. destruct (prop_found h nd t name i f F2 Ef) as (p&Hp&Hs).
    cbn [mbind outcome_bind fmap option_fmap option_map fst snd prop_value]. rewrite Hp. cbn [deref mbind outcome_bind]. apply read_uint_shows; [done|].
    apply list_find_Some in Ef as (Ef&_). by apply (Forall_lookup_1 _ _ _ _ Hps) in Ef as (_&_&?&_).
  - intros f pre ws post Hf Hws Hc. unfold dtb_read_cells, dtb_read_cells_l. change (dtb_get_prop_l h nd name (length name)) with (dtb_get_prop h nd name). rewrite Hq.
    unfold prop_of in Hf. destruct (list_find (named name) (ft_props t)) as [[i f']|] eqn:Ef; [|done]. injection Hf as ->.
    destruct (prop_found h nd t name i f F2 Ef) as (p&Hp&_&_&Hh).
    cbn [mbind outcome_bind fmap option_fmap option_map fst snd prop_value]. rewrite Hp. cbn [deref mbind outcome_bind]. unfold dtb_prop_read_cells.
    rewrite Nat2Z.id. apply (read_words_spec h ws Hws _ 0). rewrite Hc, !map_app, !concat_app in Hh. apply here_app in Hh as [_ Hh]. apply here_prefix in Hh.
    assert (El : ∀ l, Z.of_nat (length (concat (map be_bytes l))) = 4 * Z.of_nat (length l)) by (clear; induction l as [|x l IH]; [done|]; cbn [map concat]; rewrite length_app, length_be_bytes; cbn [length]; lia).
    by rewrite El in Hh.
Qed.

(** On a node of an opened tree a query by name finds the first child or
    property with that name, and reading a property gives its bytes as a
    big-endian number of 64 bits, or its cells; a property that is absent reads
    as zero. *)
Theorem dtb_queries_correct h self depth nd t name : shows (blob h) self depth nd t → tree_ok t →
  dtb_get_node h nd name = Done (fst <$> list_find (λ c, ft_name c = name) (ft_nodes t)) ∧
  dtb_get_prop h nd name = Done (fst <$> list_find (named name) (ft_props t)) ∧
  dtb_read_uint h nd name = Done (match prop_of name t with Some p => be_value (fp_content p) mod 2 ^ 64 | None => 0 end) ∧
  ∀ p pre ws post, prop_of name t = Some p → Forall (fits 32) ws → fp_content p = concat (map be_bytes (pre ++ ws ++ post)) →
    dtb_read_cells h nd name (Z.of_nat (length pre)) (Z.of_nat (length ws)) = Done (foldl (λ v w, 2 ^ 32 * v + w) 0 ws mod 2 ^ 64).
Proof. apply dtb_queries. Qed.

(** C37: The search for drivers looks at every device under the node "soc", in
    order, and initialises for each the first driver that knows the first of its
    compatible strings that any driver knows. *)
Theorem dtparse_correct `{!BadgeStrings, !BadgeStringsSpec} ds m off_struct off_strings n t i soc css : flattened m off_struct off_strings n t →
  list_find (λ c, ft_name c = text "soc") (ft_nodes t) = Some (i, soc) → Forall2 compatible_strings (ft_nodes soc) css →
  dtparse ds true true m = Done (devices ds 0 css, uint_prop (text "#address-cells") soc mod 2 ^ 32, uint_prop (text "#size-cells") soc mod 2 ^ 32).
Proof.
  intros Hf Hsoc Hcs. assert (Hok := fl_ok _ _ _ _ _ Hf). assert (Hsize := fl_size _ _ _ _ _ Hf).
  destruct (dtb_opens m off_struct off_strings n t Hf) as (h&E&Hb&Hsh&_&_). subst m. unfold dtparse. rewrite E. cbn [mbind outcome_bind].
  destruct (dtb_queries h [] 0 (root h) t (text "soc") Hsh Hok) as (->&_). rewrite Hsoc. cbn [fmap option_fmap option_map fst deref mbind outcome_bind].
  apply list_find_Some in Hsoc as (Hi&_&_). inversion Hsh as [? ? ? ? _ _ _ Hlen _ _ _ Hch]; subst.
  destruct (lookup_lt_is_Some_2 (nodes (root h)) i) as [nd Hnd]; [rewrite Hlen; by eapply lookup_lt_Some|]. rewrite Hnd. cbn [deref mbind outcome_bind].
  destruct (Hch i nd soc Hnd Hi) as [_ Hsh2].
  assert (Hok2 : tree_ok soc) by (destruct t; apply tree_ok_eq in Hok as (_&_&_&Hl); by apply (Forall_lookup_1 _ _ _ _ Hl Hi)).
  destruct (dtb_queries h _ _ nd soc (text "#address-cells") Hsh2 Hok2) as (_&_&->&_). cbn [mbind outcome_bind].
  destruct (dtb_queries h _ _ nd soc (text "#size-cells") Hsh2 Hok2) as (_&_&->&_). cbn [mbind outcome_bind].
  inversion Hsh2 as [? ? ? ? _ _ _ Hlen2 Hln2 _ _ Hch2]; subst.
  assert (Es : array_start (nodes nd) = if (0 <? length (nodes nd))%nat then Some 0%nat else None) by by destruct (nodes nd). rewrite Es.
  rewrite (walk_devices_spec ds h Hsize [i] (u8 (u8 (0 + 1) + 1)) (nodes nd) (ft_nodes soc) css); [|done| |done| |done|done].
  - cbn [mbind outcome_bind]. rewrite drop_0. unfold uint_prop. by destruct (prop_of (text "#address-cells") soc), (prop_of (text "#size-cells") soc); rewrite ?u32_u64.
  - intros j c ct Hc Hct. by apply (Hch2 j c ct).
  - destruct soc. by apply tree_ok_eq in Hok2 as (_&_&_&?).
Qed.
End theorems.

(** ** A concrete tree

    A root with the node "soc", whose only device is known by its second
    compatible string and has the number 5. *)

#[local] Existing Instance demo_strings.
#[local] Existing Instance demo_strings_spec.
#[local] Existing Instance demo_arrays.
#[local] Existing Instance demo_arrays_spec.

Definition demo_dt_strings : DtStrings := λ a b n, bool_decide (take n a = take n b).
#[local] Existing Instance demo_dt_strings.
Lemma demo_dt_strings_spec : DtStringsSpec.
Proof. done. Qed.
#[local] Existing Instance demo_dt_strings_spec.

(** The block of strings: "#address-cells", "phandle", "compatible". *)
Definition demo_names : list Z := text "#address-cells" ++ 0 :: text "phandle" ++ 0 :: text "compatible" ++ [0].

Definition demo_uart : ftree :=
  FTree 1 (text "uart") [0; 0; 0]
    [FProp 0 (text "compatible") 23 (text "ns16550a" ++ 0 :: text "uart" ++ [0]) [0; 0]; FProp 2 (text "phandle") 15 (be_bytes 5) []] [] 1.
Definition demo_tree : ftree :=
  FTree 0 [] [0; 0; 0] [] [FTree 0 (text "soc") [] [FProp 0 (text "#address-cells") 0 (be_bytes 2) []] [demo_uart] 0] 1.

Definition demo_struct : list Z := enc_tree demo_tree ++ nops 1 ++ be_bytes FDT_END.
Definition demo_blob : list Z := Eval vm_compute in
  concat (map be_bytes [FDT_HEADER_MAGIC; 0; 40; 40 + Z.of_nat (length demo_struct); 0; 17; 16; 0; Z.of_nat (length demo_names); Z.of_nat (length demo_struct)]) ++
  demo_struct ++ demo_names.

Definition demo_strings_off : Z := Eval vm_compute in 40 + Z.of_nat (length demo_struct).

Lemma demo_flattened : flattened demo_blob 40 demo_strings_off 1 demo_tree.
Proof.
  split; try (apply (bool_decide_unpack _); by vm_compute).
  - repeat first [apply (bool_decide_unpack _); by vm_compute | apply tree_all_eq; split; cbn [ft_props ft_nodes demo_tree demo_uart] | apply Forall_cons; split | apply Forall_nil_2].
  - repeat first [apply (bool_decide_unpack _); by vm_compute | apply tree_ok_eq; split_and! | apply Forall_cons; split | apply Forall_nil_2].
Qed.

Definition demo_drivers : list driver := [DriverPci; DriverDtb [text "virtio"]; DriverDtb [text "gpio"; text "uart"]].

Lemma dtb_open_correct_witness : ∃ h, dtb_open true true demo_blob = Done (Some h) ∧ shows demo_blob [] 0 (root h) demo_tree ∧
  dtb_phandle_node h 5 = Done (Some [0; 0]%nat).
Proof.
  destruct (dtb_open_correct demo_blob 40 demo_strings_off 1 demo_tree demo_flattened) as (h&E&_&Hs&_&Hp). exists h. split_and!; [exact E|exact Hs|]. rewrite Hp by lia. by vm_compute.
Defined.

Lemma dtb_queries_correct_witness : ∃ h soc, dtb_open true true demo_blob = Done (Some h) ∧ dtb_get_node h (root h) (text "soc") = Done (Some 0%nat) ∧
  nodes (root h) !! 0%nat = Some soc ∧ dtb_read_uint h soc (text "#address-cells") = Done 2 ∧ dtb_read_cells h soc (text "#address-cells") 0 1 = Done 2.
Proof.
  destruct (dtb_opens demo_blob 40 demo_strings_off 1 demo_tree demo_flattened) as (h&E&Hb&Hs&_&_). assert (Hok := fl_ok _ _ _ _ _ demo_flattened).
  rewrite <-Hb in Hs. destruct (dtb_queries_correct h [] 0 (root h) demo_tree (text "soc") Hs Hok) as (Q&_).
  inversion Hs as [? ? ? ? _ _ _ Hlen _ _ _ Hch]; subst. destruct (nodes (root h)) as [|soc l] eqn:En; [done|].
  destruct (Hch 0%nat soc _ eq_refl eq_refl) as [_ Hs2].
  destruct (dtb_queries_correct h _ _ soc _ (text "#address-cells") Hs2) as (_&_&R&C); [by apply tree_ok_eq in Hok as (_&_&_&[? _]%Forall_cons)|].
  exists h, soc. split_and!; [exact E|rewrite Q; by vm_compute|by rewrite En|rewrite R; by vm_compute|].
  apply (C (FProp 0 (text "#address-cells") 0 (be_bytes 2) []) [] [2] []); [by vm_compute|by repeat constructor|by vm_compute].
Defined.

Lemma dtparse_correct_witness : dtparse demo_drivers true true demo_blob = Done ([(0, 2)]%nat, 2, 0).
Proof.
  rewrite (dtparse_correct demo_drivers demo_blob 40 demo_strings_off 1 demo_tree 0 (default demo_tree (ft_nodes demo_tree !! 0%nat)) [[text "ns16550a"; text "uart"]] demo_flattened);
    [by vm_compute|by vm_compute|].
  constructor; [|constructor]. split; [by vm_compute|]. apply (bool_decide_unpack _); by vm_compute.
Defined.

(** *** Where the code does not do what it means to *)

(** A cell behind the end of a property: the tokens that follow are read. *)
Example cells_read_past_end : ∃ h soc, dtb_open true true demo_blob = Done (Some h) ∧ nodes (root h) !! 0%nat = Some soc ∧
  dtb_read_cell h soc (text "#address-cells") 1 = Done FDT_NOP.
Proof.
  destruct (dtb_open true true demo_blob) as [[h|]| | |] eqn:E; try (vm_compute in E; discriminate).
  assert (Eh : h = match dtb_open true true demo_blob with Done (Some h) => h | _ => h end) by by rewrite E. exists h. rewrite Eh. eexists. split_and!; [done|by vm_compute|by vm_compute].
Qed.

(** A blob that ends within the tree: the parser reads behind it, whatever the
    size in the header. *)
Example truncated_blob_read_past : dtb_open true true (take 100 demo_blob) = Undef.
Proof. by vm_compute. Qed.

(** The order of numbers of nodes wraps around: 2^31 comes before 0. *)
Example phandle_order_wraps : phandle_cmp 0 ([], 2 ^ 31) < 0.
Proof. by vm_compute. Qed.

(** The search for drivers needs a node "soc". *)
Example no_soc_crashes : dtparse demo_drivers true true
  (concat (map be_bytes [FDT_HEADER_MAGIC; 0; 40; 60; 0; 17; 16; 0; 0; 16; FDT_BEGIN_NODE; 0; FDT_END_NODE; FDT_END])) = Undef.
Proof. by vm_compute. Qed.
