(* ===== verification/VfsPath.v ===== *)
(** * The virtual file system: paths and opening

    The functions of kernel/src/filesystem/filesystem.c that take a path.  A path
    is the text before its terminator.  [mem] tells of the memory requests that
    an operation makes, in order, whether they succeed.  A pointer to a handle
    is an index into the table, and dangles when the table is moved. *)

From S2P Require Import Prelude Badgelib IntRoutines Ramfs Vfs.

Definition OFLAGS_READWRITE : Z := 0x03.
Definition OFLAGS_APPEND : Z := 0x04.
Definition OFLAGS_TRUNCATE : Z := 0x08.
Definition OFLAGS_CLOEXEC : Z := 0x40.
Definition VALID_OFLAGS_FILE : Z :=
  Z.lor (Z.lor (Z.lor (Z.lor (Z.lor OFLAGS_READWRITE OFLAGS_APPEND) OFLAGS_TRUNCATE) OFLAGS_CREATE) OFLAGS_EXCLUSIVE) OFLAGS_CLOEXEC.
Definition VALID_OFLAGS_DIRECTORY : Z :=
  Z.lor (Z.lor (Z.lor (Z.lor OFLAGS_DIRECTORY OFLAGS_CREATE) OFLAGS_EXCLUSIVE) OFLAGS_READONLY) OFLAGS_CLOEXEC.
Definition FILESYSTEM_PATH_MAX : nat := 511.
Definition FILE_NONE : Z := -1.

(** ** More string functions of badgelib *)

Class PathCopies := {
  cstr_copy : nat → list Z → nat * list Z;              (* into a buffer of the size: the characters copied, and the copy *)
  cstr_move : list Z → nat → nat → list Z;              (* within one buffer, to the first index from the second *)
  cstr_index_from : list Z → Z → nat → option nat;
}.

Class PathCopiesSpec `{PathCopies} := {
  cstr_copy_spec size s : (0 < size)%nat → cstr_copy size s = (Nat.min (size - 1) (length s), take (size - 1) s);
  cstr_move_spec s d k : (d <= k <= length s)%nat → cstr_move s d k = take d s ++ drop k s;
  cstr_index_from_spec s c k : (k <= length s)%nat → cstr_index_from s c k = (λ i, k + i)%nat <$> (fst <$> list_find (.= c) (drop k s));
}.

Section path.
Context `{!BadgeStrings} `{!KernelHeap HS} `{!PathStrings} `{!PathCopies}.
Implicit Types (st : vfs_state HS) (ec : badge_cause).

(** ** Walking *)

(** Removes a slash that follows a slash. *)
Fixpoint dedup_slashes (fuel : nat) (path : list Z) (i : nat) : outcome (list Z) :=
  match fuel with
  | O => Fuel
  | S fuel =>
      if (i <? length path)%nat then
        if (char_at path i =? char_slash) && (char_at path (i + 1) =? char_slash) then dedup_slashes fuel (cstr_move path (i + 1) (i + 2)) i
        else dedup_slashes fuel path (i + 1)
      else Done path
  end.

Fixpoint strip_slashes (fuel : nat) (path : list Z) : list Z :=
  match fuel with
  | O => path
  | S fuel =>
      if (1 <? length path)%nat && (char_at path (length path - 1) =? char_slash) then strip_slashes fuel (take (length path - 1) path) else path
  end.

(** [ent->inode = 0]. *)
Definition clear_inode (ent : list Z) : list Z := take 8 ent ++ replicate 8 0 ++ drop 16 ent.

(** The loop over the names of the path.  The result is -1 or the index of the
    last name, and whether the loop ran to its end. *)
Fixpoint walk_names (fuel : nat) (mem : nat → bool) ec (dir : nat) (path : list Z) (begin : nat) (ent : list Z) st
    : outcome (badge_cause * Z * bool * list Z * vfs_state HS) :=
  match fuel with
  | O => Fuel
  | S fuel =>
      if (length path <=? begin)%nat then Done (ec, Z.of_nat begin, true, ent, st) else
      h ← deref (handle_list st !! dir);
      if char_at path begin =? char_slash then
        if negb (is_dir h) then Done (ECAUSE_IS_FILE, -1, false, clear_inode ent, st) else
        walk_names fuel mem ec dir path (begin + 1) ent st
      else
        let end_ := default (length path) (cstr_index_from path char_slash begin) in
        '(found, ent) ← vfs_dir_find_ent (h_shared h) ent (take (end_ - begin) (drop begin path)) st;
        let is_int := (char_at path end_ =? char_slash) && negb (char_at path (end_ + 1) =? 0) in
        if negb found && is_int then Done (ECAUSE_NOTFOUND, -1, true, ent, st)
        else if negb is_int then Done (ECAUSE_OK, Z.of_nat begin, true, if found : bool then ent else clear_inode ent, st)
        else
          name ← cstr (de_name ent);
          '(ec, st) ← dir_reopen ec (mem 0%nat) (mem 1%nat) (mem 2%nat) (mem 3%nat) dir (de_inode ent) name st;
          if negb (is_ok ec) then Done (ec, -1, true, ent, st) else
          walk_names fuel (λ k, mem (k + 4)%nat) ec dir path end_ ent st
  end.

(** The index of the file name, -2 for the root directory, or -1. *)
Definition walk (mem : nat → bool) ec (dir : nat) (path : list Z) (ent : list Z) st : outcome (badge_cause * Z * list Z * list Z * vfs_state HS) :=
  path ← dedup_slashes (S (length path)) path 0;
  let absolute := char_at path 0 =? char_slash in
  '(ec, st) ← (if absolute then root_reopen (mem 0%nat) (mem 1%nat) (mem 2%nat) (mem 3%nat) dir st else Done (ec, st));
  if absolute && negb (is_ok ec) then Done (ec, -1, path, clear_inode ent, st) else
  if absolute && (length path =? 1)%nat then Done (ec, -2, path, ent, st) else
  '(ec, ret, whole, ent, st) ← walk_names (S (length path)) (λ k, mem (k + 4)%nat) ec dir path 0 ent st;
  Done (ec, ret, if whole : bool then strip_slashes (length path) path else path, ent, st).

(** ** Opening *)

(** Destroys the handle of the parent directory. *)
Definition open_error (mem : nat → bool) (parent : nat) ec st : outcome (Z * badge_cause * vfs_state HS) :=
  h ← deref (handle_list st !! parent);
  i ← deref (vfs_file_by_handle (fileno h) st);
  st ← vfs_file_destroy_handle (mem 0%nat) (mem 1%nat) i st;
  Done (FILE_NONE, ec, st).

(** The file name and the flags are settled; [moved] tells whether the table of
    handles was moved, so that the pointer to the parent dangles. *)
Definition open_handle (mem : nat → bool) ec (parent : nat) (filename : list Z) (oflags : Z) (dir : bool) (existing : option nat) st
    : outcome (Z * badge_cause * vfs_state HS) :=
  h ← deref (handle_list st !! parent);
  '(handle, st') ← vfs_file_create_handle (mem 0%nat) (mem 1%nat) (mem 2%nat) existing st;
  match handle with
  | None => open_error (λ k, mem (k + 3)%nat) parent ECAUSE_NOMEM st'
  | Some i =>
      let moved := negb (bool_decide (handle_cap st' = handle_cap st)) in
      p ← deref (handle_list st' !! i);
      let st := put_handle i (VfsHandle (offset p) (has_flag oflags OFLAGS_WRITEONLY) (has_flag oflags OFLAGS_READONLY) dir (dir_cache_size p) (dir_cache p) (h_shared p) (fileno p)) st' in
      if bool_decide (existing = None) then
        if moved then Undef else
        '(ec, st) ← vfs_file_open ec (h_shared h) (h_shared p) filename oflags st;
        if negb (is_ok ec) then
          st' ← vfs_file_destroy_handle (mem 3%nat) (mem 4%nat) i st;
          if negb (bool_decide (handle_cap st' = handle_cap st)) then Undef else
          open_error (λ k, mem (k + 5)%nat) parent ec st'
        else
          s ← deref (shared_mem st !! h_shared p);
          Done (fileno p, ec, put_shared (h_shared p) (set_refcount 1 s) st)
      else Done (fileno p, ec, st)
  end.

Definition DIRENT_SIZE : nat := 288.

Definition open_flags_ok (oflags : Z) : bool :=
  negb (has_flag oflags OFLAGS_DIRECTORY && has_flag oflags (Z.lnot VALID_OFLAGS_DIRECTORY)) &&
  negb (negb (has_flag oflags OFLAGS_DIRECTORY) && has_flag oflags (Z.lnot VALID_OFLAGS_FILE)) &&
  has_flag oflags OFLAGS_READWRITE.

Definition fs_open (mem : nat → bool) ec (path : list Z) (oflags : Z) st : outcome (Z * badge_cause * vfs_state HS) :=
  if negb (open_flags_ok oflags) then Done (FILE_NONE, ECAUSE_PARAM, st) else
  let '(copied, canon_path) := cstr_copy (FILESYSTEM_PATH_MAX + 1) path in
  if negb (char_at path copied =? 0) then Done (FILE_NONE, ECAUSE_TOOLONG, st) else
  '(ec, parent, st) ← root_open ec (mem 0%nat) (mem 1%nat) (mem 2%nat) (mem 3%nat) (mem 4%nat) st;
  if negb (is_ok ec) then Done (FILE_NONE, ec, st) else
  parent ← deref parent;
  '(ec, slash, canon_path, ent, st) ← walk (λ k, mem (k + 5)%nat) ec parent canon_path (replicate DIRENT_SIZE 0) st;
  if negb (is_ok ec) then Done (FILE_NONE, ec, st) else
  let found := negb (de_inode ent =? 0) in
  let filename := if slash =? -2 then [char_dot] else if slash =? -1 then canon_path else drop (Z.to_nat slash) canon_path in
  let mem k := mem (k + 5 + 4 * S (length canon_path))%nat in
  let wants_dir := has_flag oflags OFLAGS_DIRECTORY in
  if found && de_is_dir ent && negb wants_dir then open_error mem parent ECAUSE_IS_DIR st
  else if found && negb (de_is_dir ent) && wants_dir then open_error mem parent ECAUSE_IS_FILE st
  else
    existing ← (if found then
                  h ← deref (handle_list st !! parent);
                  s ← deref (shared_mem st !! h_shared h);
                  v ← deref (s_vfs s);
                  Done (vfs_shared_by_inode v (de_inode ent) st)
                else Done None);
    open_handle mem ec parent filename oflags (if found then de_is_dir ent else wants_dir) existing st.

Definition fs_dir_open (mem : nat → bool) ec (path : list Z) (oflags : Z) st : outcome (Z * badge_cause * vfs_state HS) :=
  fs_open mem ec path (Z.lor (Z.lor oflags OFLAGS_DIRECTORY) OFLAGS_READONLY) st.

(** [ec] is not null. *)
Definition fs_dir_create (mem : nat → bool) ec (path : list Z) st : outcome (bool * badge_cause * vfs_state HS) :=
  '(fd, ec, st) ← fs_open (λ k, mem (k + 2)%nat) ec path (Z.lor (Z.lor OFLAGS_DIRECTORY OFLAGS_READONLY) OFLAGS_CREATE) st;
  if 0 <=? fd then '(ec, st) ← fs_close (mem 0%nat) (mem 1%nat) fd st; Done (true, ec, st)
  else Done (false, if is_ok ec then ECAUSE_IS_FILE else ec, st).
End path.
