(* ===== verification/VfsPathCorrect.v ===== *)
(** * The virtual file system: paths and opening, correctness

    How a path is cleaned, and what opening a file of the root directory does. *)

From Stdlib Require Import String Ascii.
From S2P Require Import Prelude Badgelib IntRoutines Ramfs RamfsTheory RamfsCorrect Vfs VfsCorrect VfsDir VfsPath FormatStr.

(** ** Reference *)

(** The path with every run of slashes replaced by one. *)
Fixpoint squeeze (path : list Z) : list Z :=
  match path with
  | [] => []
  | x :: r => if bool_decide (x = char_slash ∧ head r = Some char_slash) then squeeze r else x :: squeeze r
  end.

(** The names of a path. *)
Fixpoint names_from (acc path : list Z) : list (list Z) :=
  match path with
  | [] => match acc with [] => [] | _ => [acc] end
  | x :: r => if bool_decide (x = char_slash) then match acc with [] => [] | _ => [acc] end ++ names_from [] r else names_from (acc ++ [x]) r
  end.
Definition names (path : list Z) : list (list Z) := names_from [] path.

(** Two slashes next to each other. *)
Definition has_double (path : list Z) : Prop := ∃ i, path !! i = Some char_slash ∧ path !! S i = Some char_slash.

Lemma squeeze_slash r : names_from [] (squeeze r) = names_from [] r → ∀ x acc, names_from acc (squeeze (x :: r)) = names_from acc (x :: squeeze r).
Proof.
  intros IH x acc. cbn [squeeze]. case_bool_decide as Hd; [|done]. destruct Hd as [-> Hr]. destruct r as [|y r]; [done|]. cbn in Hr. simplify_eq.
  cbn [names_from]. rewrite bool_decide_eq_true_2 by done.
  assert (E : ∀ r, ∃ r', squeeze (char_slash :: r) = char_slash :: r').
  { clear. induction r as [|y r IH]; [by eexists|]. cbn [squeeze]. case_bool_decide as Hd; [|by eexists]. destruct Hd as [_ Hy]. cbn in Hy. simplify_eq. exact IH. }
  destruct (E r) as [r' ->]. cbn [names_from]. rewrite bool_decide_eq_true_2 by done. done.
Qed.

Lemma squeeze_names path : ∀ acc, names_from acc (squeeze path) = names_from acc path.
Proof.
  induction path as [|x r IH]; intros acc; [done|]. rewrite squeeze_slash by apply IH. cbn [names_from]. case_bool_decide; by rewrite IH.
Qed.

Lemma squeeze_head x r : head (squeeze (x :: r)) = Some x.
Proof.
  revert x. induction r as [|y r IH]; intros x; [cbn [squeeze]; case_bool_decide as Hd; [by destruct Hd|done]|]. cbn [squeeze]. case_bool_decide as Hd; [|done]. destruct Hd as [-> Hy].
  cbn in Hy. simplify_eq. apply IH.
Qed.

Lemma squeeze_single path : ¬ has_double (squeeze path).
Proof.
  induction path as [|x r IH]; [by intros (i&?&_)|]. cbn [squeeze]. case_bool_decide as Hd; [done|]. intros (i&H1&H2). destruct i as [|i]; [|apply IH; by exists i].
  cbn in H1, H2. simplify_eq. apply Hd. split; [done|]. destruct r as [|y r]; [done|]. pose proof (squeeze_head y r) as Hh.
  destruct (squeeze (y :: r)); [done|]. cbn in *. congruence.
Qed.

Section walk.
Context `{!PathCopies, !PathCopiesSpec}.

Lemma dedup_spec fuel : ∀ path i, (i <= length path)%nat → (length path - i < fuel)%nat → dedup_slashes fuel path i = Done (take i path ++ squeeze (drop i path)).
Proof.
  induction fuel as [|fuel IH]; intros path i Hi Hf; [lia|]. cbn [dedup_slashes]. destruct (Nat.ltb_spec i (length path)) as [Hlt|Hge].
  - destruct (lookup_lt_is_Some_2 path i Hlt) as [x Hx]. rewrite (drop_S path x i Hx). cbn [squeeze].
    assert (E0 : char_at path i = x) by (unfold char_at; by rewrite Hx). rewrite E0.
    assert (E1 : head (drop (S i) path) = path !! S i) by (destruct (drop (S i) path) eqn:Ed; [|]; rewrite <-(Nat.add_0_r (S i)), <-lookup_drop, Ed; done).
    rewrite E1, Nat.add_1_r. case_bool_decide as Hd.
    + destruct Hd as [-> Hs]. unfold char_at at 1. rewrite Hs. change ((char_slash =? char_slash) && (default 0 (Some char_slash) =? char_slash)) with true. cbv iota.
      pose proof (lookup_lt_Some _ _ _ Hs). replace (i + 2)%nat with (S (S i)) by lia. rewrite cstr_move_spec by lia.
      rewrite IH; [|rewrite length_app, length_take, length_drop; lia|rewrite length_app, length_take, length_drop; lia].
      rewrite take_app_le, take_take, Nat.min_l by (rewrite ?length_take; lia). do 2 f_equal.
      rewrite drop_app_le by (rewrite length_take; lia). rewrite (take_S_r path i char_slash Hx), drop_app_length' by (rewrite length_take; lia).
      rewrite (drop_S path char_slash (S i) Hs). done.
    + assert ((x =? char_slash) && (char_at path (S i) =? char_slash) = false) as ->.
      { apply andb_false_iff. destruct (Z.eqb_spec x char_slash) as [->|]; [|by left]. right. apply Z.eqb_neq. intros E. apply Hd. split; [done|].
        unfold char_at in E. destruct (path !! S i); cbn in E; [by subst|done]. }
      rewrite IH by lia. rewrite (take_S_r path i x Hx), <-app_assoc. done.
  - rewrite take_ge, drop_ge by lia. cbn. by rewrite app_nil_r.
Qed.

(** C38: The cleaning of a path ends, leaves no two slashes next to each other and
    keeps the names of the path. *)
Theorem dedup_slashes_correct path : ∃ path', dedup_slashes (S (length path)) path 0 = Done path' ∧ ¬ has_double path' ∧ names path' = names path.
Proof.
  exists (squeeze path). rewrite dedup_spec by lia. rewrite take_0, drop_0. split_and!; [done|apply squeeze_single|apply squeeze_names].
Qed.
End walk.

(** ** Opening a file of the root directory *)

Section open.
Context `{!BadgeStrings, !BadgeStringsSpec} `{!KernelHeap HS} `{!KernelHeapSpec HS} `{!PathStrings, !PathStringsSpec, !PathCopies, !PathCopiesSpec}.
Implicit Types (st : vfs_state HS) (fs : ramfs HS).

Notation all_ok := (λ _ : nat, true).

(** A shared handle of the root directory, with references that can be counted. *)
Definition root_shared (v : nat) (s : vfs_file_shared) : Prop :=
  s_vfs s = Some v ∧ ramfs_file (s_file s) = Some VFS_RAMFS_INODE_ROOT ∧ f_inode (s_file s) = root_inode ∧ 1 <= refcount (s_file s) < 2 ^ 64 - 1.

(** The root directory is not open, or open as it should. *)
Definition root_state_ok (v : nat) st : Prop :=
  ∀ sh, vfs_shared_by_inode v root_inode st = Some sh → ∃ p s, shared_list st !! sh = Some p ∧ shared_mem st !! p = Some s ∧ root_shared v s.

(** The same file system but for the numbers of links. *)
Definition relinked fs fs' : Prop := ∀ i, set_links 0 <$> inode_list fs' !! i = set_links 0 <$> inode_list fs !! i.

Lemma relinked_lookup fs fs' i ino : relinked fs fs' → inode_list fs !! i = Some ino → ∃ n, inode_list fs' !! i = Some (set_links n ino).
Proof.
  intros R Hi. specialize (R i). rewrite Hi in R. destruct (inode_list fs' !! i) as [ino'|]; [|done]. exists (links ino').
  injection R as E1 E2 E3 E4 E5. destruct ino, ino'. cbn in *. by subst.
Qed.

Lemma relinked_put fs i ino n : inode_list fs !! i = Some ino → relinked fs (put_inode i (set_links n ino) fs).
Proof.
  intros Hi j. cbn [put_inode inode_list]. destruct (decide (j = i)) as [->|Hne].
  - rewrite list_lookup_insert_eq by (by eapply lookup_lt_Some). rewrite Hi. done.
  - by rewrite list_lookup_insert_ne.
Qed.

Lemma relinked_dir fs fs' d ino es : relinked fs fs' → dir_at fs d ino es → ∃ n, dir_at fs' d (set_links n ino) es.
Proof. intros R (Hd&Hi&HD&Hl). destruct (relinked_lookup _ _ _ _ R Hd) as [n Hd']. by exists n. Qed.

(** What opening the root directory adds. *)
Definition root_opened (v : nat) st (p : nat) (s : vfs_file_shared) fs1 st1 : Prop :=
  handle_list st1 = handle_list st ++ [VfsHandle 0 false true true 0 [] p (vfs_handle_no st)] ∧
  expand true (handle_cap st) (length (handle_list st)) = Some (handle_cap st1) ∧
  vfs_handle_no st1 = signed 32 (vfs_handle_no st + 1) ∧ vfs_root_index st1 = Some v ∧ mounts st1 = <[v := fs1]> (mounts st) ∧
  shared_mem st1 !! p = Some s ∧ root_shared v s ∧ (∃ sh, vfs_shared_by_inode v root_inode st1 = Some sh ∧ shared_list st1 !! sh = Some p) ∧
  shared_mem st ⊆ shared_mem st1 ∧
  ∀ i, i ≠ root_inode → vfs_shared_by_inode v i st = None → vfs_shared_by_inode v i st1 = None.

Lemma fresh_shared st : shared_mem st !! fresh (dom (shared_mem st)) = None.
Proof. apply not_elem_of_dom, is_fresh. Qed.

Lemma by_inode_snoc v i st st' p s : shared_list st' = shared_list st ++ [p] → shared_mem st !! p = None → shared_mem st' = <[p := s]> (shared_mem st) →
  (∀ q, q ∈ shared_list st → is_Some (shared_mem st !! q)) → vfs_shared_by_inode v i st = None →
  vfs_shared_by_inode v i st' = if bool_decide (s_vfs s = Some v) && (f_inode (s_file s) =? i) then Some (length (shared_list st)) else None.
Proof.
  intros El Hp Em Hin Hn. unfold vfs_shared_by_inode in *. rewrite El.
  assert (E : ∀ l k, (∀ q, q ∈ l → is_Some (shared_mem st !! q)) → (∀ x, x ∈ l → has_inode st v i x = false) → 
    find_index (has_inode st' v i) k (l ++ [p]) = if has_inode st' v i p then Some (k + length l)%nat else None).
  { induction l as [|q l IH]; intros k Hl Hf; cbn [find_index app length]; [by rewrite Nat.add_0_r|].
    assert (has_inode st' v i q = has_inode st v i q) as ->.
    { unfold has_inode. rewrite Em, lookup_insert_ne; [done|]. intros ->. destruct (Hl q ltac:(set_solver)) as [? E]. congruence. }
    rewrite (Hf q) by set_solver. rewrite IH by set_solver. by replace (S k + length l)%nat with (k + S (length l))%nat by lia. }
  rewrite E; [|done|by apply (proj1 (find_index_None _ _ _) Hn)]. unfold has_inode. rewrite Em, lookup_insert_eq. done.
Qed.

Lemma insert_last {A} (l : list A) x y : <[length l := x]> (l ++ [y]) = l ++ [x].
Proof. rewrite <-(Nat.add_0_r (length l)), insert_app_r. done. Qed.

Definition shared_alive st : Prop := ∀ q, q ∈ shared_list st → is_Some (shared_mem st !! q).

Lemma expand_true c n : ∃ k, expand true c n = Some k.
Proof. unfold expand. case_decide; by eexists. Qed.

(** A new handle on a new shared handle. *)
Definition created (c1 c2 : nat) st : vfs_state HS :=
  let p := fresh (dom (shared_mem st)) in
  VfsState (shared_list st ++ [p]) c2 (<[p := VfsShared (FileShared 0 0 None 0) (length (shared_list st)) None]> (shared_mem st))
    (handle_list st ++ [VfsHandle 0 false false false 0 [] p (vfs_handle_no st)]) c1 (signed 32 (vfs_handle_no st + 1)) (mounts st) (vfs_root_index st).

Lemma create_handle_new st : ∃ c1 c2, expand true (handle_cap st) (length (handle_list st)) = Some c1 ∧
  vfs_file_create_handle true true true None st = Done (Some (length (handle_list st)), created c1 c2 st).
Proof.
  destruct (expand_true (handle_cap st) (length (handle_list st))) as [c1 E1]. destruct (expand_true (shared_cap st) (length (shared_list st))) as [c2 E2].
  exists c1, c2. split; [done|]. unfold vfs_file_create_handle, vfs_file_create_shared. rewrite E2.
  cbn [set_shared_table put_shared shared_list shared_cap shared_mem handle_list handle_cap]. rewrite E1. rewrite list_lookup_middle by done. done.
Qed.

Lemma root_open_spec v fs rino st : vfs_root_index st = Some v → mounts st !! v = Some fs → inode_list fs !! VFS_RAMFS_INODE_ROOT = Some rino →
  root_state_ok v st → shared_alive st →
  ∃ p s fs1 st1, root_open ECAUSE_OK true true true true true st = Done (ECAUSE_OK, Some (length (handle_list st)), st1) ∧
    root_opened v st p s fs1 st1 ∧ relinked fs fs1 ∧ shared_alive st1.
Proof.
  intros Hv Hfs Hr Hroot Hal. unfold root_open. rewrite Hv. cbn [deref mbind outcome_bind]. rewrite Hfs. cbn [deref mbind outcome_bind].
  destruct (vfs_shared_by_inode v root_inode st) as [sh|] eqn:Esh.
  - unfold vfs_file_create_handle. destruct (expand_true (handle_cap st) (length (handle_list st))) as [c1 Ec1].
    destruct (Hroot sh Esh) as (p&s&Hp&Hs&Hrs). rewrite Ec1, Hp. cbn [deref mbind outcome_bind next_fileno set_handle_table handle_list handle_cap shared_list].
    rewrite list_lookup_middle by done. cbn [deref mbind outcome_bind]. rewrite bool_decide_eq_false_2 by done. cbn [andb mbind outcome_bind fileno h_shared].
    eexists p, s, fs, _. split; [done|]. split; [|split; [by intros i|done]].
    unfold root_opened. cbn [put_handle set_handle_table handle_list handle_cap vfs_handle_no vfs_root_index mounts shared_mem shared_list].
    rewrite insert_last. split_and!; try done; [by rewrite insert_id|by exists sh].
  - destruct (create_handle_new st) as (c1&c2&Ec1&->). cbn [deref mbind outcome_bind].
    assert (Eh : handle_list (created c1 c2 st) !! length (handle_list st) = Some (VfsHandle 0 false false false 0 [] (fresh (dom (shared_mem st))) (vfs_handle_no st))) by (by apply list_lookup_middle).
    rewrite Eh. cbn [deref mbind outcome_bind h_shared fileno]. rewrite bool_decide_eq_true_2 by done. cbn [andb].
    set (p := fresh (dom (shared_mem st))). unfold vfs_root_open. cbn [created shared_mem vfs_root_index mounts]. fold p. rewrite lookup_insert_eq. cbn [deref mbind outcome_bind].
    rewrite Hv. cbn [deref mbind outcome_bind]. rewrite Hfs. cbn [deref mbind outcome_bind]. unfold vfs_ramfs_root_open. rewrite Hr. cbn [deref mbind outcome_bind is_ok negb andb].
    eexists p, _, _, _. split; [done|]. pose proof (fresh_shared st) as Hp. fold p in Hp.
    split; [|split; [by apply relinked_put|]].
    + unfold root_opened. cbn [put_handle put_shared put_mount set_handle_table created handle_list handle_cap vfs_handle_no vfs_root_index mounts shared_mem shared_list]. fold p.
      rewrite insert_last, insert_insert_eq. split_and!; try done; [by rewrite lookup_insert_eq|by split_and!| | |].
      * eexists (length (shared_list st)). split; [|by apply list_lookup_middle].
        erewrite (by_inode_snoc v root_inode st _ p); [|reflexivity|exact Hp|cbn [put_handle put_shared put_mount set_handle_table created shared_mem]; fold p; apply insert_insert_eq|exact Hal|exact Esh]. cbn [s_vfs s_file f_inode]. by rewrite bool_decide_eq_true_2.
      * by apply insert_subseteq.
      * intros i Hi Hn. erewrite (by_inode_snoc v i st _ p); [|reflexivity|exact Hp|cbn [put_handle put_shared put_mount set_handle_table created shared_mem]; fold p; apply insert_insert_eq|exact Hal|exact Hn]. cbn [s_vfs s_file f_inode]. fold root_inode.
        rewrite (proj2 (Z.eqb_neq _ _)) by done. by rewrite andb_false_r.
    + intros q. cbn [put_handle put_shared put_mount set_handle_table created shared_mem shared_list]. fold p. rewrite elem_of_app, list_elem_of_singleton, insert_insert_eq.
      intros [Hq| ->]; [|rewrite lookup_insert_eq; by eexists]. rewrite lookup_insert_ne; [by apply Hal|]. intros <-. destruct (Hal p Hq). congruence.
Qed.

(** Moving the new handle to the root directory leaves it where it is. *)
Lemma root_reopen_same v st p s fs1 st1 : root_opened v st p s fs1 st1 →
  root_reopen true true true true (length (handle_list st)) st1 = Done (ECAUSE_OK, st1).
Proof.
  intros (Hh&_&_&Hv&Hmo&Hs&(_&_&_&Hc)&(sh&Hsh&Hp)&_&_). unfold root_reopen. rewrite Hv. cbn [deref mbind outcome_bind]. rewrite Hmo, lookup_insert_eq. cbn [deref mbind outcome_bind].
  rewrite Hsh, Hp. cbn [deref mbind outcome_bind]. unfold switch_shared. rewrite Hh, list_lookup_middle by done. cbn [deref mbind outcome_bind].
  cbn [offset h_write h_read is_dir dir_cache_size dir_cache fileno h_shared put_handle set_handle_table put_shared shared_mem].
  rewrite Hs. cbn [deref mbind outcome_bind]. rewrite lookup_insert_eq. cbn [deref mbind outcome_bind]. cbn [set_refcount set_file s_file refcount size ramfs_file f_inode s_index s_vfs].
  assert (E : u64 (u64 (refcount (s_file s) + 1) - 1) = refcount (s_file s)) by (unfold wrap; rewrite (Z.mod_small (_ + 1)), Z.mod_small by lia; lia).
  rewrite E. rewrite (proj2 (Z.eqb_neq _ _)) by lia. do 2 f_equal. unfold put_shared, put_handle, set_handle_table. cbn [shared_list shared_cap shared_mem handle_list handle_cap vfs_handle_no mounts vfs_root_index].
  cbn [set_refcount set_file s_file refcount size ramfs_file f_inode s_index s_vfs]. rewrite ?E, insert_insert_eq.
  assert (set_refcount (refcount (s_file s)) (set_refcount (u64 (refcount (s_file s) + 1)) s) = s) as -> by by destruct s as [[] ? ?].
  rewrite insert_id by done. rewrite Hh, insert_last, <-Hh. by destruct st1.
Qed.

(** Entries of a directory and what a search reports. *)
Lemma find_ent_spec fs d dino es1 e es2 ino : dir_at fs d dino (es1 ++ e :: es2) → Forall (λ e', fst e' ≠ fst e) es1 → inode_list fs !! Z.to_nat (snd e) = Some ino →
  ∃ gap rest, length gap = 6%nat ∧ entry_ok e ∧ vfs_ramfs_dir_find_ent d (fst e) (replicate DIRENT_SIZE 0) fs = Done (true, header ino e gap ++ rest).
Proof.
  intros Hd Hes Hi. destruct (find_dirent_present _ _ _ _ _ _ Hd Hes) as [E _]. unfold vfs_ramfs_dir_find_ent. rewrite E. cbn [mbind outcome_bind].
  destruct Hd as (Hd&_&HD&_). rewrite Hd. cbn [deref mbind outcome_bind]. destruct (dir_data_split _ _ _ _ _ HD) as (Eb&_&He).
  pose proof (dirent_len_max e (proj1 He)). pose proof (dirent_len_bounds e (proj1 He)).
  assert (Hmax : (dirent_len e <= DIRENT_SIZE)%nat).
  { destruct He as [[_ Hl] _]. unfold dirent_len, VFS_RAMFS_NAME_MAX in *. unfold DIRENT_SIZE. destruct (pad_size_spec (OFFSETOF_DIRENT_NAME + length (fst e) + 1)) as [Hb [k Hk]]; unfold OFFSETOF_DIRENT_NAME in *; [lia|]. lia. }
  destruct (convert_dirent_spec fs (records es1) (records es2 ++ drop (len dino) (buf dino)) [] (replicate (dirent_len e) 0) (replicate (DIRENT_SIZE - dirent_len e) 0) e ino He Hi) as (gap&pad&Hg&_&E2);
    [by rewrite length_replicate|].
  cbn [app length] in E2. rewrite <-Eb, <-replicate_add in E2. replace (dirent_len e + (DIRENT_SIZE - dirent_len e))%nat with DIRENT_SIZE in E2 by lia.
  rewrite E2. cbn [mbind outcome_bind]. rewrite user_dirent_header, <-!app_assoc. eexists gap, _. done.
Qed.

(** Slashes behind the name of a file in the root directory. *)
Definition root_path (name q : list Z) : Prop := q = char_slash :: name ∨ q = char_slash :: name ++ [char_slash].
Definition plain (name : list Z) : Prop := name ≠ [] ∧ char_slash ∉ name ∧ 0 ∉ name.

Lemma strip_plain name fuel : plain name → strip_slashes fuel (char_slash :: name) = char_slash :: name.
Proof.
  intros (Hne&Hs&_). destruct fuel as [|fuel]; [done|]. cbn [strip_slashes]. destruct (exists_last Hne) as (l&x&->). rewrite app_comm_cons.
  assert (char_at ((char_slash :: l) ++ [x]) (length ((char_slash :: l) ++ [x]) - 1) = x) as ->.
  { unfold char_at. rewrite length_app. cbn [length]. rewrite Nat.add_sub. change (S (length l)) with (length (char_slash :: l)). by rewrite list_lookup_middle. }
  rewrite (proj2 (Z.eqb_neq x char_slash)) by set_solver. by rewrite andb_false_r.
Qed.

Lemma strip_snoc l fuel : l ≠ [] → strip_slashes (S fuel) (l ++ [char_slash]) = strip_slashes fuel l.
Proof.
  intros Hl. cbn [strip_slashes]. assert (char_at (l ++ [char_slash]) (length (l ++ [char_slash]) - 1) = char_slash) as ->.
  { unfold char_at. rewrite length_app, Nat.add_sub. by rewrite list_lookup_middle. }
  rewrite Z.eqb_refl, (proj2 (Nat.ltb_lt _ _)) by (rewrite length_app; destruct l; [done|]; cbn; lia). cbn [andb].
  by rewrite length_app, Nat.add_sub, take_app_length.
Qed.

Lemma strip_root_path name q : plain name → root_path name q → strip_slashes (length q) q = char_slash :: name.
Proof.
  intros Hn [->| ->]; [by apply strip_plain|]. destruct (length (char_slash :: name ++ [char_slash])) eqn:El; [done|].
  change (char_slash :: name ++ [char_slash]) with ((char_slash :: name) ++ [char_slash]). rewrite strip_snoc by done. by apply strip_plain.
Qed.

(** Where the name ends, and that it is the last one. *)
Lemma last_name name q : plain name → root_path name q →
  let end_ := default (length q) (cstr_index_from q char_slash 1) in
  take (end_ - 1) (drop 1 q) = name ∧ (char_at q end_ =? char_slash) && negb (char_at q (end_ + 1) =? 0) = false.
Proof.
  intros (Hne&Hs&_) Hq. rewrite cstr_index_from_spec by (destruct Hq as [->| ->]; cbn; lia).
  destruct Hq as [->| ->]; cbn [drop]; rewrite drop_0.
  - rewrite (proj2 (list_find_None _ _)) by (apply Forall_forall; by intros y Hy ->). cbn -[char_at]. rewrite Nat.sub_0_r, take_ge by done. split; [done|].
    unfold char_at. rewrite lookup_ge_None_2 by (cbn; lia). done.
  - rewrite (proj2 (list_find_Some _ _ (length name) char_slash)).
    + cbn -[char_at]. rewrite Nat.sub_0_r, take_app_length. split; [done|]. apply andb_false_iff. right. unfold char_at. rewrite lookup_ge_None_2; [done|]. cbn. rewrite length_app. cbn. lia.
    + split_and!; [by apply list_lookup_middle|done|]. intros j y Hj Hlt ->. rewrite lookup_app_l in Hj by done. by apply Hs, list_elem_of_lookup_2 with j.
Qed.

Lemma walk_root_file v st p s fs1 st1 dino es1 e es2 ino path : root_opened v st p s fs1 st1 →
  dir_at fs1 VFS_RAMFS_INODE_ROOT dino (es1 ++ e :: es2) → Forall (λ e', fst e' ≠ fst e) es1 → inode_list fs1 !! Z.to_nat (snd e) = Some ino →
  plain (fst e) → root_path (fst e) (squeeze path) →
  ∃ gap rest, length gap = 6%nat ∧ entry_ok e ∧
  walk all_ok ECAUSE_OK (length (handle_list st)) path (replicate DIRENT_SIZE 0) st1 = Done (ECAUSE_OK, 1, char_slash :: fst e, header ino e gap ++ rest, st1).
Proof.
  intros Hro Hd Hes Hi Hpl Hq. destruct (find_ent_spec fs1 _ dino es1 e es2 ino Hd Hes Hi) as (gap&rest&Hg&He&Ef). exists gap, rest. split_and!; [done|done|].
  unfold walk. rewrite dedup_spec by lia. rewrite take_0, drop_0. cbn [app mbind outcome_bind]. set (q := squeeze path) in *.
  assert (E0 : char_at q 0 = char_slash) by by destruct Hq as [->| ->]. rewrite E0, Z.eqb_refl.
  rewrite (root_reopen_same v st p s fs1 st1 Hro). cbn [mbind outcome_bind is_ok negb andb].
  assert (Hl : (2 <= length q)%nat) by (destruct Hpl as (Hne&_&_); destruct (fst e); [done|]; destruct Hq as [->| ->]; cbn; lia).
  rewrite (proj2 (Nat.eqb_neq _ _)) by lia. destruct (length q) as [|[|n]] eqn:El; [lia|lia|]. 
  destruct Hro as (Hh&_&_&Hv&Hmo&Hs&(Hsv&Hsf&_&_)&_&_&_). cbn [walk_names]. rewrite El. cbn [Nat.leb].
  rewrite Hh, list_lookup_middle by done. cbn [deref mbind outcome_bind is_dir h_shared]. rewrite E0, Z.eqb_refl. cbn [negb Nat.add].
  destruct (last_name (fst e) q Hpl Hq) as [En Eint]. cbn zeta in En, Eint. rewrite El in En, Eint.
  assert (E1 : (char_at q 1 =? char_slash) = false).
  { apply Z.eqb_neq. destruct Hpl as (Hne&Hsl&_). destruct (fst e) as [|x l]; [done|]. destruct Hq as [->| ->]; cbn; set_solver. }
  rewrite E1, En. unfold vfs_dir_find_ent. rewrite Hs. cbn [deref mbind outcome_bind]. unfold vfs_of. rewrite Hsv. cbn [deref mbind outcome_bind]. rewrite Hmo, lookup_insert_eq. cbn [deref mbind outcome_bind].
  unfold inode_ptr. rewrite Hsf. cbn [deref mbind outcome_bind]. rewrite Ef. cbn [mbind outcome_bind]. rewrite Eint. cbn [negb andb mbind outcome_bind].
  rewrite <-El, (strip_root_path (fst e) q) by done. done.
Qed.

(** The shared handle [file] is opened on an entry of the directory [dir]. *)
Lemma vfs_file_open_spec dir file s t v fs d dino es1 e es2 ino oflags st : has_flag oflags (Z.lor OFLAGS_EXCLUSIVE OFLAGS_CREATE) = false →
  shared_mem st !! dir = Some s → s_vfs s = Some v → ramfs_file (s_file s) = Some d → mounts st !! v = Some fs → shared_mem st !! file = Some t →
  dir_at fs d dino (es1 ++ e :: es2) → Forall (λ e', fst e' ≠ fst e) es1 → inode_list fs !! Z.to_nat (snd e) = Some ino →
  ∃ n, vfs_file_open ECAUSE_OK dir file (fst e) oflags st = Done (ECAUSE_OK,
    put_shared file (VfsShared (FileShared 1 (Z.of_nat (len ino)) (Some (Z.to_nat (snd e))) (inode ino)) (s_index t) (Some v)) (put_mount v (put_inode (Z.to_nat (snd e)) (set_links n ino) fs) st)).
Proof.
  intros Hf Hs Hv Hd Hm Ht HD Hes Hi. destruct (find_dirent_present _ _ _ _ _ _ HD Hes) as [E1 E2]. unfold vfs_file_open. rewrite Hf.
  rewrite Hs. cbn [deref mbind outcome_bind]. unfold vfs_of, inode_ptr. rewrite Hv. cbn [deref mbind outcome_bind]. rewrite Hm. cbn [deref mbind outcome_bind].
  rewrite Hd. cbn [deref mbind outcome_bind]. rewrite Ht. cbn [deref mbind outcome_bind]. unfold vfs_ramfs_file_open. rewrite E1. cbn [mbind outcome_bind].
  destruct HD as (HD&_). rewrite HD. cbn [deref mbind outcome_bind]. rewrite E2. cbn [mbind outcome_bind]. rewrite Hi. cbn [deref mbind outcome_bind is_ok]. by eexists.
Qed.

Lemma expand_room c n : (n < c)%nat → expand true c n = Some c.
Proof. intros Hn. unfold expand. by rewrite decide_False by lia. Qed.

(** A new handle on a file that is not open yet, in a table with room for it. *)
Lemma open_handle_new parent h s v fs d dino es1 e es2 ino oflags st : has_flag oflags (Z.lor OFLAGS_EXCLUSIVE OFLAGS_CREATE) = false →
  handle_list st !! parent = Some h → shared_mem st !! h_shared h = Some s → s_vfs s = Some v → ramfs_file (s_file s) = Some d → mounts st !! v = Some fs →
  dir_at fs d dino (es1 ++ e :: es2) → Forall (λ e', fst e' ≠ fst e) es1 → inode_list fs !! Z.to_nat (snd e) = Some ino → (length (handle_list st) < handle_cap st)%nat →
  ∃ n k st', let p := fresh (dom (shared_mem st)) in
    open_handle all_ok ECAUSE_OK parent (fst e) oflags false None st = Done (vfs_handle_no st, ECAUSE_OK, st') ∧
    handle_list st' = handle_list st ++ [VfsHandle 0 (has_flag oflags OFLAGS_WRITEONLY) (has_flag oflags OFLAGS_READONLY) false 0 [] p (vfs_handle_no st)] ∧
    shared_mem st' = <[p := VfsShared (FileShared 1 (Z.of_nat (len ino)) (Some (Z.to_nat (snd e))) (inode ino)) k (Some v)]> (shared_mem st) ∧
    mounts st' = <[v := put_inode (Z.to_nat (snd e)) (set_links n ino) fs]> (mounts st).
Proof.
  intros Hf Hh Hs Hv Hd Hm HD Hes Hi Hroom. unfold open_handle. rewrite Hh. cbn [deref mbind outcome_bind].
  destruct (create_handle_new st) as (c1&c2&Ec1&->). rewrite expand_room in Ec1 by done. injection Ec1 as <-. cbn [mbind outcome_bind].
  assert (Eh : handle_list (created (handle_cap st) c2 st) !! length (handle_list st) = Some (VfsHandle 0 false false false 0 [] (fresh (dom (shared_mem st))) (vfs_handle_no st))) by (by apply list_lookup_middle).
  rewrite Eh. cbn [deref mbind outcome_bind offset h_write h_read is_dir dir_cache_size dir_cache h_shared fileno]. rewrite !bool_decide_eq_true_2 by done. cbn [negb].
  set (p := fresh (dom (shared_mem st))). set (st2 := put_handle _ _ _). pose proof (fresh_shared st) as Hp. fold p in Hp.
  assert (Em : shared_mem st2 = <[p := VfsShared (FileShared 0 0 None 0) (length (shared_list st)) None]> (shared_mem st)) by done.
  destruct (vfs_file_open_spec (h_shared h) p s (VfsShared (FileShared 0 0 None 0) (length (shared_list st)) None) v fs d dino es1 e es2 ino oflags st2 Hf) as [n ->]; try done.
  { rewrite Em, lookup_insert_ne; [done|]. intros E. fold p in E. congruence. }
  { by rewrite Em, lookup_insert_eq. }
  cbn [mbind outcome_bind is_ok negb put_shared shared_mem]. rewrite lookup_insert_eq. cbn [deref mbind outcome_bind].
  eexists n, _, _. split_and!; [done| | |].
  - cbn [put_mount put_shared handle_list st2 put_handle set_handle_table created]. apply insert_last.
  - cbn [put_shared put_mount shared_mem]. rewrite Em, !insert_insert_eq. done.
  - done.
Qed.

Lemma by_handle_last l h st : handle_list st = l ++ [h] → Forall (λ h', fileno h' ≠ fileno h) l → lookup_handle (fileno h) st = Some h.
Proof.
  intros El Hl. unfold lookup_handle, vfs_file_by_handle. rewrite El.
  assert (E : ∀ k, find_index (λ h', fileno h' =? fileno h) k (l ++ [h]) = Some (k + length l)%nat).
  { clear El. induction Hl as [|x l Hx Hl IH]; intros k; cbn [find_index app length]; [by rewrite Z.eqb_refl, Nat.add_0_r|].
    rewrite (proj2 (Z.eqb_neq _ _)), IH by done. f_equal. lia. }
  rewrite E. cbn. by apply list_lookup_middle.
Qed.

Lemma fs_open_file v fs dino es1 e es2 i ino path oflags st :
  vfs_root_index st = Some v → mounts st !! v = Some fs → dir_at fs VFS_RAMFS_INODE_ROOT dino (es1 ++ e :: es2) → Forall (λ e', fst e' ≠ fst e) es1 →
  snd e = Z.of_nat i → (VFS_RAMFS_INODE_ROOT < i)%nat → Z.of_nat i < 2 ^ 63 → inode_list fs !! i = Some ino → inode ino = Z.of_nat i → is_directory ino = false → inode_ok ino → Z.of_nat (len ino) < 2 ^ 62 →
  plain (fst e) → root_path (fst e) (squeeze path) → (length path <= FILESYSTEM_PATH_MAX)%nat →
  open_flags_ok oflags = true → has_flag oflags OFLAGS_DIRECTORY = false → has_flag oflags (Z.lor OFLAGS_EXCLUSIVE OFLAGS_CREATE) = false →
  root_state_ok v st → shared_alive st → vfs_shared_by_inode v (Z.of_nat i) st = None →
  (∀ c, expand true (handle_cap st) (length (handle_list st)) = Some c → (length (handle_list st) + 1 < c)%nat) →
  0 <= vfs_handle_no st < 2 ^ 31 - 2 → Forall (λ h, fileno h < vfs_handle_no st) (handle_list st) →
  ∃ h st', fs_open all_ok ECAUSE_OK path oflags st = Done (vfs_handle_no st + 1, ECAUSE_OK, st') ∧
    file_view st' (vfs_handle_no st + 1) h v i (contents ino) ∧ offset h = 0 ∧
    h_read h = has_flag oflags OFLAGS_READONLY ∧ h_write h = has_flag oflags OFLAGS_WRITEONLY ∧
    handle_list st `prefix_of` handle_list st' ∧ shared_mem st ⊆ shared_mem st'.
Proof.
  intros Hv Hfs HD Hes Ei Hi1 Hi2 Hi Hino Hdir Hiok Hlen Hpl Hq Hpath Hfl Hnd Hnc Hroot Hal Hno Hroom Hnum Hold.
  unfold fs_open. rewrite Hfl. cbn [negb]. rewrite cstr_copy_spec by lia. rewrite Nat.add_sub, Nat.min_r, take_ge by done.
  assert (Ec : char_at path (length path) = 0) by (unfold char_at; by rewrite lookup_ge_None_2). rewrite Ec. cbn [Z.eqb negb].
  destruct (root_open_spec v fs dino st Hv Hfs (proj1 HD) Hroot Hal) as (p&s&fs1&st1&->&Hro&Hrl&Hal1). cbn [mbind outcome_bind is_ok negb deref].
  destruct (relinked_dir _ _ _ _ _ Hrl HD) as [n1 HD1]. destruct (relinked_lookup _ _ _ _ Hrl Hi) as [n2 Hi'].
  assert (Hie : inode_list fs1 !! Z.to_nat (snd e) = Some (set_links n2 ino)) by by rewrite Ei, Nat2Z.id.
  destruct (walk_root_file v st p s fs1 st1 _ es1 e es2 _ path Hro HD1 Hes Hie Hpl Hq) as (gap&rest&Hg&He&->). cbn [mbind outcome_bind is_ok negb].
  destruct (header_fields (set_links n2 ino) e gap rest He Hg) as (_&Eino&Edir&_&_). rewrite Eino, Edir, Ei, signed_range by lia.
  rewrite (proj2 (Z.eqb_neq _ _)) by (unfold VFS_RAMFS_INODE_ROOT in Hi1; lia). cbn [negb andb]. change (is_directory (set_links n2 ino)) with (is_directory ino). rewrite Hdir. cbn [negb andb]. rewrite Hnd. cbn [andb].
  destruct Hro as (Hh&Hcap&Hn1&Hv1&Hmo&Hs&(Hsv&Hsf&_&_)&_&Hsub&Hby). rewrite Hh, list_lookup_middle by done. cbn [deref mbind outcome_bind h_shared]. rewrite Hs. cbn [deref mbind outcome_bind]. rewrite Hsv. cbn [deref mbind outcome_bind].
  rewrite Hby by (try done; unfold root_inode; lia). change (1 =? -2) with false. change (1 =? -1) with false. cbv iota. change (drop (Z.to_nat 1) (char_slash :: fst e)) with (drop 0 (fst e)). rewrite drop_0.
  assert (Hroom1 : (length (handle_list st1) < handle_cap st1)%nat) by (rewrite Hh, length_app; cbn; specialize (Hroom _ Hcap); lia).
  destruct (open_handle_new (length (handle_list st)) (VfsHandle 0 false true true 0 [] p (vfs_handle_no st)) s v fs1 VFS_RAMFS_INODE_ROOT (set_links n1 dino) es1 e es2 (set_links n2 ino) oflags st1 Hnc) as (n3&k&st'&->&Eh'&Em'&Ev');
    [by rewrite Hh, list_lookup_middle|done|done|exact Hsf|by rewrite Hmo, lookup_insert_eq|exact HD1|done|exact Hie|done|].
  assert (En : vfs_handle_no st1 = vfs_handle_no st + 1) by (rewrite Hn1; apply signed_range; lia). rewrite En in *.
  set (hn := VfsHandle 0 (has_flag oflags OFLAGS_WRITEONLY) (has_flag oflags OFLAGS_READONLY) false 0 [] (fresh (dom (shared_mem st1))) (vfs_handle_no st + 1)) in *.
  exists hn, st'. split_and!; [done| |done|done|done| |].
  - split_and!; [|done| |cbn; lia|cbn; lia].
    + change (vfs_handle_no st + 1) with (fileno hn). eapply by_handle_last; [exact Eh'|]. rewrite Hh. apply Forall_app. split; [|repeat constructor; cbn; lia].
      eapply Forall_impl; [exact Hold|]. cbn. lia.
    + eexists _, _, (set_links n3 (set_links n2 ino)). rewrite Em', Ev'. cbn [h_shared hn]. rewrite !lookup_insert_eq. split_and!; [done|done|done| |done|done].
      rewrite Ei, Nat2Z.id. split_and!; [done| |done|done]. cbn [put_inode inode_list]. apply list_lookup_insert_eq. by eapply lookup_lt_Some.
  - rewrite Eh', Hh, <-app_assoc. by eexists.
  - rewrite Em'. etrans; [exact Hsub|]. apply insert_subseteq, fresh_shared.
Qed.

(** The path leads to the file with inode [ino], number [i], in the root directory;
    the file is not open, and the table has room for two handles without a move.
    The flags ask for an access and nothing else: a flag that creates the file,
    seeks to its end or truncates it is not set. *)
Record openable (st : vfs_state HS) (path : list Z) (oflags : Z) (v i : nat) (ino : ramfs_inode) : Prop := Openable {
  op_root : vfs_root_index st = Some v;
  op_dir : ∃ fs dino es1 e es2, mounts st !! v = Some fs ∧ dir_at fs VFS_RAMFS_INODE_ROOT dino (es1 ++ e :: es2) ∧ Forall (λ e', fst e' ≠ fst e) es1 ∧
    snd e = Z.of_nat i ∧ inode_list fs !! i = Some ino ∧ plain (fst e) ∧ root_path (fst e) (squeeze path);
  op_number : (VFS_RAMFS_INODE_ROOT < i)%nat ∧ Z.of_nat i < 2 ^ 63 ∧ inode ino = Z.of_nat i;
  op_file : is_directory ino = false ∧ inode_ok ino ∧ Z.of_nat (len ino) < 2 ^ 62;
  op_path : (length path <= FILESYSTEM_PATH_MAX)%nat;
  op_flags : open_flags_ok oflags = true ∧ has_flag oflags OFLAGS_DIRECTORY = false ∧ has_flag oflags (Z.lor OFLAGS_EXCLUSIVE OFLAGS_CREATE) = false;
  op_ignored : has_flag oflags (Z.lor OFLAGS_APPEND OFLAGS_TRUNCATE) = false;
  op_shared : root_state_ok v st ∧ shared_alive st ∧ vfs_shared_by_inode v (Z.of_nat i) st = None;
  op_room : ∀ c, expand true (handle_cap st) (length (handle_list st)) = Some c → (length (handle_list st) + 1 < c)%nat;
  op_numbers : 0 <= vfs_handle_no st < 2 ^ 31 - 2 ∧ Forall (λ h, fileno h < vfs_handle_no st) (handle_list st);
}.

(** C18: Opening a file that is in the root directory and not open yet by its path,
    with any number of slashes before and behind the name, for reading, writing or
    both, and without the flags CREATE, EXCLUSIVE, APPEND and TRUNCATE, in a table
    with room for two more handles, gives a new handle at the start of that file
    with the access that was asked for; reading through it gives the contents of the
    file; handles and files that were open before stay as they are.  The handle of
    the root directory that is made on the way stays open as well. *)
Theorem fs_open_correct st path oflags v i ino : openable st path oflags v i ino →
  ∃ h st', fs_open all_ok ECAUSE_OK path oflags st = Done (vfs_handle_no st + 1, ECAUSE_OK, st') ∧
    file_view st' (vfs_handle_no st + 1) h v i (contents ino) ∧ offset h = 0 ∧
    h_read h = has_flag oflags OFLAGS_READONLY ∧ h_write h = has_flag oflags OFLAGS_WRITEONLY ∧
    handle_list st `prefix_of` handle_list st' ∧ shared_mem st ⊆ shared_mem st' ∧
    (has_flag oflags OFLAGS_READONLY = true → ∀ ec rb, length rb = length (contents ino) →
      ∃ st'', fs_read ec (vfs_handle_no st + 1) rb (Z.of_nat (length rb)) st' = Done (Z.of_nat (length rb), ECAUSE_OK, contents ino, st'')).
Proof.
  intros [Hv (fs&dino&es1&e&es2&Hfs&HD&Hes&Ei&Hi&Hpl&Hq) (Hi1&Hi2&Hino) (Hdir&Hiok&Hlen) Hpath (Hfl&Hnd&Hnc) _ (Hroot&Hal&Hno) Hroom (Hnum&Hold)].
  destruct (fs_open_file v fs dino es1 e es2 i ino path oflags st) as (h&st'&E&Hview&Ho&Hr&Hw&Hpre&Hsub); try done.
  exists h, st'. split_and!; try done. intros Hread ec rb Hrb. rewrite Hread in Hr. pose proof (contents_length ino Hiok) as Hcl.
  destruct (fs_read_spec ec _ h v i _ rb (Z.of_nat (length rb)) (Z.of_nat (length rb)) st' Hview Hr) as (k&_&_&E2); [lia|lia|lia|].
  rewrite Ho, Nat2Z.id, drop_0, take_ge, drop_ge, app_nil_r in E2 by lia. by eexists.
Qed.

(** Flags that exclude each other, and a path that is too long, are rejected
    before anything is changed. *)
Theorem fs_open_rejects mem ec path oflags st :
  (open_flags_ok oflags = false → fs_open mem ec path oflags st = Done (FILE_NONE, ECAUSE_PARAM, st)) ∧
  (open_flags_ok oflags = true → (FILESYSTEM_PATH_MAX < length path)%nat → 0 ∉ path → fs_open mem ec path oflags st = Done (FILE_NONE, ECAUSE_TOOLONG, st)).
Proof.
  unfold fs_open. split; [by intros ->|]. intros -> Hlen H0'. cbn [negb]. rewrite cstr_copy_spec by lia. rewrite Nat.add_sub, Nat.min_l by lia.
  destruct (lookup_lt_is_Some_2 path FILESYSTEM_PATH_MAX Hlen) as [c Hc]. unfold char_at. rewrite Hc. cbn [default from_option id].
  rewrite (proj2 (Z.eqb_neq _ _)); [done|]. intros ->. by apply H0', list_elem_of_lookup_2 with FILESYSTEM_PATH_MAX.
Qed.
End open.

(** ** Concrete paths *)

#[local] Existing Instance demo_strings.
#[local] Existing Instance demo_strings_spec.
#[local] Existing Instance RamfsCorrect.demo_heap.
#[local] Existing Instance demo_heap_spec.
#[local] Existing Instance demo_paths.
#[local] Existing Instance demo_paths_spec.

Definition demo_copies : PathCopies := {|
  cstr_copy size s := (Nat.min (size - 1) (length s), take (size - 1) s);
  cstr_move s d k := take d s ++ drop k s;
  cstr_index_from s c k := (λ i, k + i)%nat <$> (fst <$> list_find (.= c) (drop k s));
|}.
#[local] Existing Instance demo_copies.

Lemma demo_copies_spec : PathCopiesSpec.
Proof. by split. Qed.
#[local] Existing Instance demo_copies_spec.

Lemma dedup_slashes_correct_witness : ∃ path', dedup_slashes 9 (text "//a///b/") 0 = Done path' ∧ names path' = [text "a"; text "b"].
Proof. destruct (dedup_slashes_correct (text "//a///b/")) as (path'&E&_&En). exists path'. split; [exact E|]. rewrite En. by vm_compute. Defined.

(** The file system with the file "f" of ten bytes, and nothing open. *)
Definition closed_state : vfs_state unit := VfsState [] 0 ∅ [] 0 0 {[0%nat := sized]} (Some 0%nat).

Lemma fs_open_correct_witness : ∃ st' st'', fs_open (λ _, true) ECAUSE_OK (text "//f/") OFLAGS_READWRITE closed_state = Done (1, ECAUSE_OK, st') ∧
  fs_read ECAUSE_OK 1 (replicate 10 7) 10 st' = Done (10, ECAUSE_OK, replicate 10 0, st'').
Proof.
  destruct (fs_open_correct closed_state (text "//f/") OFLAGS_READWRITE 0 2 (inode_of sized 2)) as (h&st'&E&_&_&_&_&_&_&Hr).
  - split; [done| | | |cbn; unfold FILESYSTEM_PATH_MAX; lia| |done|split_and!; [by intros sh|by intros q ?%elem_of_nil|done]| |by split_and!].
    + exists sized, (inode_of sized 1), [(dot, 1); (dotdot, 1)], ([102], 2), []. split_and!; [done|solve_dir_at|by repeat constructor|done|done| |by right].
      split_and!; [done| |]; apply (bool_decide_unpack _); by vm_compute.
    + by split_and!; [unfold VFS_RAMFS_INODE_ROOT; lia| |].
    + split_and!; [done| |done]. split; [done|]. apply (bool_decide_unpack _). by vm_compute.
    + by split_and!.
    + intros c [= <-]. cbn. lia.
  - destruct (Hr eq_refl ECAUSE_OK (replicate 10 7) eq_refl) as [st'' E2]. exists st', st''. split; [exact E|exact E2].
Defined.

Lemma fs_open_rejects_witness : fs_open (λ _, true) ECAUSE_OK (text "/f") 0 closed_state = Done (FILE_NONE, ECAUSE_PARAM, closed_state) ∧
  fs_open (λ _, true) ECAUSE_OK (replicate 512 97) OFLAGS_READONLY closed_state = Done (FILE_NONE, ECAUSE_TOOLONG, closed_state).
Proof.
  split; [by apply fs_open_rejects|]. apply (fs_open_rejects (λ _, true) ECAUSE_OK (replicate 512 97) OFLAGS_READONLY closed_state); [by vm_compute| |].
  - rewrite length_replicate. unfold FILESYSTEM_PATH_MAX. lia.
  - intros Hin. apply elem_of_replicate in Hin as [? _]. lia.
Defined.

(** ** Where opening goes wrong *)

(** An empty file system, and a table with room for [n] handles. *)
Definition empty_state (n : nat) : vfs_state unit := VfsState [] 0 ∅ [] n 0 {[0%nat := mounted]} (Some 0%nat).
Definition open_text (path : string) (oflags : Z) (st : vfs_state unit) := fs_open (λ _, true) ECAUSE_OK (text path) oflags st.
Definition create_f : outcome (Z * badge_cause * vfs_state unit) := open_text "/f" (Z.lor OFLAGS_READWRITE OFLAGS_CREATE) (empty_state 8).

(** The numbers of the open handles, and the files that their shared handles have. *)
Definition open_files (st : vfs_state unit) : list (Z * option nat) := (λ h, (fileno h, s ← shared_mem st !! h_shared h; ramfs_file (s_file s))) <$> handle_list st.

(** The handle of the parent directory stays open after a success, and after a
    path that does not lead to a directory. *)
Example parent_leaked : ('(fd, ec, st) ← create_f; Done (fd, ec, open_files st)) = Done (1, ECAUSE_OK, [(0, Some 1%nat); (1, Some 2%nat)]) ∧
  ('(fd, ec, st) ← open_text "/a/b" OFLAGS_READONLY (empty_state 8); Done (fd, ec, open_files st)) = Done (FILE_NONE, ECAUSE_NOTFOUND, [(0, Some 1%nat)]).
Proof. by vm_compute. Qed.

(** A second handle on an open file is not counted: closing it closes the file
    under the first one, which is then read through a null pointer. *)
Example reopened_file_lost : ('(_, _, st) ← create_f; '(fd, ec, st) ← open_text "/f" OFLAGS_READWRITE st; Done (fd, ec, open_files st)) =
    Done (3, ECAUSE_OK, [(0, Some 1%nat); (1, Some 2%nat); (2, Some 1%nat); (3, Some 2%nat)]) ∧
  ('(_, _, st) ← create_f; '(fd, _, st) ← open_text "/f" OFLAGS_READWRITE st; '(ec, st) ← fs_close true true fd st; Done (ec, open_files st)) =
    Done (ECAUSE_OK, [(0, Some 1%nat); (1, None); (2, Some 1%nat)]) ∧
  ('(_, _, st) ← create_f; '(fd, _, st) ← open_text "/f" OFLAGS_READWRITE st; '(_, st) ← fs_close true true fd st; fs_read ECAUSE_OK 1 [0] 1 st) = Undef.
Proof. by vm_compute. Qed.

(** The pointer to the parent is used after the table of handles was moved. *)
Example parent_dangles : ('(_, _, st) ← open_text "/f" (Z.lor OFLAGS_READWRITE OFLAGS_CREATE) (empty_state 0); '(_, st) ← fs_close true true 1 st; open_text "/f" OFLAGS_READWRITE st) = Undef ∧
  open_text "/none" OFLAGS_READONLY (empty_state 8) = Undef.
Proof. by vm_compute. Qed.

(** A failed open leaves the shared handle that it made, with a count below zero. *)
Example shared_leaked : ('(fd, ec, st) ← open_text "/none" OFLAGS_READONLY (empty_state 2); Done (fd, ec, open_files st, (λ s, refcount (s_file s)) <$> (shared_list st !! 0%nat ≫= λ p, shared_mem st !! p))) =
  Done (FILE_NONE, ECAUSE_NOTFOUND, [], Some (2 ^ 64 - 1)).
Proof. by vm_compute. Qed.

(** The root directory opens as a file. *)
Example root_opens_as_file : ('(fd, ec, st) ← open_text "/" OFLAGS_READONLY (empty_state 8); Done (fd, ec, open_files st, is_dir <$> (handle_list st !! 1%nat))) =
  Done (1, ECAUSE_OK, [(0, Some 1%nat); (1, Some 1%nat)], Some false).
Proof. by vm_compute. Qed.

(** A directory of the path that is a file is not noticed: the handle is still
    marked as a directory. *)
Example file_as_directory : ('(_, _, st) ← open_text "/f" (Z.lor OFLAGS_READWRITE OFLAGS_CREATE) (empty_state 4); '(fd, ec, _) ← open_text "/f/g" OFLAGS_READONLY st; Done (fd, ec)) = Done (FILE_NONE, ECAUSE_NOTFOUND).
Proof. by vm_compute. Qed.

(** The flags that should seek to the end or truncate the file change nothing: the
    handle starts at the beginning of the ten bytes. *)
Example append_truncate_ignored :
  ('(fd, ec, st) ← open_text "/f" (Z.lor OFLAGS_READWRITE OFLAGS_APPEND) closed_state; '(pos, _) ← fs_tell ec fd st; Done (ec, pos)) = Done (ECAUSE_OK, 0) ∧
  ('(fd, ec, st) ← open_text "/f" (Z.lor OFLAGS_READWRITE OFLAGS_TRUNCATE) closed_state; '(n, _, _, _) ← fs_read ec fd (replicate 10 7) 10 st; Done (ec, n)) = Done (ECAUSE_OK, 10).
Proof. by vm_compute. Qed.
