(* ===== verification/Fat.v ===== *)
(** * The FAT file system

    kernel/src/filesystem/vfs_fat.c with the structures of vfs_fat_types.h:
    detecting and mounting a FAT file system on a block device, which is all
    that the driver has so far.  A structure that is read from the device is
    the bytes of a local variable; when the read fails it holds what was on the
    stack.  [clock] gives the times that the reads see. *)

From S2P Require Import Prelude Badgelib IntRoutines Blockdev BlkdevRam.

Record fat_bpb := FatBpb {
  jumpboot : list Z;
  oem_name : list Z;
  bytes_per_sector : Z;
  sectors_per_cluster : Z;
  reserved_sector_count : Z;
  fat_count : Z;
  root_entry_count : Z;
  sector_count_16 : Z;
  media_type : Z;
  sectors_per_fat_16 : Z;
  sectors_per_track : Z;
  head_count : Z;
  hidden_sector_count : Z;
  sector_count_32 : Z;
}.

(** The geometry of a mounted file system. *)
Record vfs_fat := VfsFat {
  vf_bytes_per_sector : Z;
  vf_sectors_per_cluster : Z;
  data_sector : Z;
  fat_sector : Z;
  cluster_count : Z;
}.

(** Bytes as a little-endian number. *)
Fixpoint le_value (l : list Z) : Z := match l with [] => 0 | x :: l => x + 256 * le_value l end.
Definition field (off w : nat) (buf : list Z) : Z := le_value (take w (drop off buf)).

Definition bpb_of (buf : list Z) : fat_bpb :=
  FatBpb (take 3 buf) (take 8 (drop 3 buf)) (field 11 2 buf) (field 13 1 buf) (field 14 2 buf) (field 16 1 buf) (field 17 2 buf)
    (field 19 2 buf) (field 21 1 buf) (field 22 2 buf) (field 24 2 buf) (field 26 2 buf) (field 28 4 buf) (field 32 4 buf).

Definition SIZEOF_BPB : nat := 36.
Definition SIZEOF_FAT16_HEADER : nat := 26.
Definition SIZEOF_FAT32_HEADER : nat := 28.

Definition sectors_per_fat_32 (header : list Z) : Z := field 0 4 header.

(** Division in C. *)
Definition divide (a b : Z) : outcome Z := if b =? 0 then Undef else Done (Z.quot a b).

Section fat.
Context `{!BadgeStrings} `{!BlockDriver D}.

Definition read_boot (clock : nat → Z) (k off : nat) (buf : list Z) (dev : option (blkdev D)) : outcome (badge_cause * list Z * option (blkdev D)) :=
  blkdev_read_partial (clock (2 * k)%nat) (clock (2 * k + 1)%nat) 0 off buf (length buf) dev.

(** The part that depends on the type: the sectors of the root directory and of a
    table, and the sectors for data.  The cause is that of the read. *)
Definition fat_layout (clock : nat → Z) (stack : list Z) (bpb : fat_bpb) (media : option (blkdev D))
    : outcome (badge_cause * Z * Z * Z * option (blkdev D)) :=
  if root_entry_count bpb =? 0 then
    '(ec, header, media) ← read_boot clock 1 36 (take SIZEOF_FAT32_HEADER (drop SIZEOF_BPB stack)) media;
    let sectors_per_fat := sectors_per_fat_32 header in
    Done (ec, 0, sectors_per_fat, u32 (sector_count_32 bpb - u32 (reserved_sector_count bpb + u32 (fat_count bpb * sectors_per_fat))), media)
  else
    root_dir_sectors ← divide (root_entry_count bpb * 32 + (bytes_per_sector bpb - 1)) (bytes_per_sector bpb);
    '(ec, _, media) ← read_boot clock 1 36 (take SIZEOF_FAT16_HEADER (drop SIZEOF_BPB stack)) media;
    let sectors_per_fat := sectors_per_fat_16 bpb in
    Done (ec, root_dir_sectors, sectors_per_fat,
      u32 (sector_count_16 bpb - u32 (u32 (reserved_sector_count bpb + u32 (fat_count bpb * sectors_per_fat)) + root_dir_sectors)), media).

(** [stack] has room for both structures. *)
Definition vfs_fat_mount (clock : nat → Z) (stack : list Z) (media : option (blkdev D)) : outcome (badge_cause * vfs_fat * option (blkdev D)) :=
  '(_, buf, media) ← read_boot clock 0 0 (take SIZEOF_BPB stack) media;
  let bpb := bpb_of buf in
  '(ec, root_dir_sectors, sectors_per_fat, data_sector_cnt, media) ← fat_layout clock stack bpb media;
  cluster_count ← divide data_sector_cnt (sectors_per_cluster bpb);
  let first_data_sector := u32 (u32 (reserved_sector_count bpb + u32 (fat_count bpb * sectors_per_fat)) + root_dir_sectors) in
  Done (ec, VfsFat (bytes_per_sector bpb) (sectors_per_cluster bpb) first_data_sector (reserved_sector_count bpb) cluster_count, media).

Definition vfs_fat_detect (clock : nat → Z) (stack : list Z) (dev : option (blkdev D)) : outcome (badge_cause * bool * option (blkdev D)) :=
  '(ec, buf, dev) ← read_boot clock 0 0 (take SIZEOF_BPB stack) dev;
  if negb (is_ok ec) then Done (ec, false, dev) else
  let bps := bytes_per_sector (bpb_of buf) in
  if (bps <? 512) || (4096 <? bps) then Done (ec, false, dev) else
  if negb (Z.land bps (bps - 1) =? 0) then Done (ec, false, dev) else
  '(ec, tmp, dev) ← read_boot clock 1 510 (take 2 (drop SIZEOF_BPB stack)) dev;
  if negb (is_ok ec) then Done (ec, false, dev) else
  if negb (bool_decide (tmp !! 0%nat = Some 0x55)) || negb (bool_decide (tmp !! 1%nat = Some 0xAA)) then Done (ec, false, dev) else
  Done (ec, true, dev).
End fat.

(** ** The format *)

(** [w] bytes of a number. *)
Fixpoint le_bytes (w : nat) (x : Z) : list Z := match w with O => [] | S w => x mod 256 :: le_bytes w (x / 256) end.

Lemma le_bytes_length w x : length (le_bytes w x) = w.
Proof. revert x. induction w as [|w IH]; intros x; [done|]. cbn. by rewrite IH. Qed.

Lemma le_roundtrip w x : 0 <= x < 256 ^ Z.of_nat w → le_value (le_bytes w x) = x.
Proof.
  revert x. induction w as [|w IH]; intros x Hx; [cbn in *; lia|]. cbn [le_bytes le_value]. rewrite IH; [pose proof (Z.div_mod x 256); lia|].
  rewrite Nat2Z.inj_succ, Z.pow_succ_r in Hx by lia. split; [apply Z.div_pos; lia|apply Z.div_lt_upper_bound; lia].
Qed.

Definition bpb_bytes (b : fat_bpb) : list Z :=
  jumpboot b ++ oem_name b ++ le_bytes 2 (bytes_per_sector b) ++ le_bytes 1 (sectors_per_cluster b) ++ le_bytes 2 (reserved_sector_count b) ++ le_bytes 1 (fat_count b) ++
  le_bytes 2 (root_entry_count b) ++ le_bytes 2 (sector_count_16 b) ++ le_bytes 1 (media_type b) ++ le_bytes 2 (sectors_per_fat_16 b) ++ le_bytes 2 (sectors_per_track b) ++
  le_bytes 2 (head_count b) ++ le_bytes 4 (hidden_sector_count b) ++ le_bytes 4 (sector_count_32 b).

Definition byte (x : Z) : Prop := 0 <= x < 2 ^ 8.
Definition half (x : Z) : Prop := 0 <= x < 2 ^ 16.
Definition word (x : Z) : Prop := 0 <= x < 2 ^ 32.

(** Every field fits its width. *)
Record bpb_ok (b : fat_bpb) : Prop := BpbOk {
  bo_jump : length (jumpboot b) = 3%nat;
  bo_oem : length (oem_name b) = 8%nat;
  bo_bps : half (bytes_per_sector b);
  bo_spc : byte (sectors_per_cluster b);
  bo_res : half (reserved_sector_count b);
  bo_fats : byte (fat_count b);
  bo_root : half (root_entry_count b);
  bo_sc16 : half (sector_count_16 b);
  bo_media : byte (media_type b);
  bo_spf : half (sectors_per_fat_16 b);
  bo_track : half (sectors_per_track b);
  bo_head : half (head_count b);
  bo_hidden : word (hidden_sector_count b);
  bo_sc32 : word (sector_count_32 b);
}.

Lemma bpb_bytes_length b : bpb_ok b → length (bpb_bytes b) = SIZEOF_BPB.
Proof. intros [Hj Ho]. unfold bpb_bytes. rewrite !length_app, !le_bytes_length, Hj, Ho. done. Qed.

Lemma bpb_roundtrip b : bpb_ok b → bpb_of (bpb_bytes b) = b.
Proof.
  intros [Hj Ho H1 H2 H3 H4 H5 H6 H7 H8 H9 H10 H11 H12]. destruct b as [j o bps spc res fats root sc16 med spf tr hd hid sc32]. unfold byte, half, word in *. cbn [jumpboot oem_name] in *.
  do 4 (destruct j as [|? j]; try done). do 9 (destruct o as [|? o]; try done).
  unfold bpb_of; f_equal; try done; [exact (le_roundtrip 2 bps H1)|exact (le_roundtrip 1 spc H2)|exact (le_roundtrip 2 res H3)|exact (le_roundtrip 1 fats H4)|exact (le_roundtrip 2 root H5)|exact (le_roundtrip 2 sc16 H6)
    |exact (le_roundtrip 1 med H7)|exact (le_roundtrip 2 spf H8)|exact (le_roundtrip 2 tr H9)|exact (le_roundtrip 2 hd H10)|exact (le_roundtrip 4 hid H11)|exact (le_roundtrip 4 sc32 H12)].
Qed.

(** ** What the driver relies on

    The first block of the device can be read, and is [sector]. *)

Class BootSector (D : Type) `{!BadgeStrings} `{!BlockDriver D} (sector : list Z) := {
  boot_dev : blkdev D → Prop;
  boot_read dev now now' off buf : boot_dev dev → (0 < length buf)%nat → (off + length buf <= length sector)%nat →
    ∃ dev', blkdev_read_partial now now' 0 off buf (length buf) (Some dev) = Done (ECAUSE_OK, take (length buf) (drop off sector), Some dev') ∧ boot_dev dev';
}.

(** A RAM device without cached blocks provides it. *)
Section ram.
Context `{!BadgeStrings, !BadgeStringsSpec} (sector : list Z).
#[local] Existing Instance blkdev_ram_vtable.

Definition uncached_ram (dev : blkdev (list Z)) : Prop :=
  cache dev = Some (BlkdevCache [] []) ∧ block_size dev = length sector ∧ 0 < blocks dev ∧ length (cookie dev) = (Z.to_nat (blocks dev) * length sector)%nat ∧ take (length sector) (cookie dev) = sector.

Lemma uncached_ram_read dev now now' off buf : uncached_ram dev → (0 < length buf)%nat → (off + length buf <= length sector)%nat →
  ∃ dev', blkdev_read_partial now now' 0 off buf (length buf) (Some dev) = Done (ECAUSE_OK, take (length buf) (drop off sector), Some dev') ∧ uncached_ram dev'.
Proof.
  intros (Hc&Hb&Hn&Hl&Hs) Hpos Ho. exists dev. split; [|done]. unfold blkdev_read_partial, partial_range. rewrite (proj2 (Z.leb_gt _ _)), Hb by done.
  rewrite (proj2 (Nat.leb_gt _ _)), (proj2 (Nat.ltb_ge _ (length buf))), (proj2 (Nat.ltb_ge _ (off + length buf))), (proj2 (Nat.eqb_neq _ _)) by lia. cbn [orb].
  unfold read_through, blkdev_alloc_cache. rewrite Hc. cbn [deref mbind outcome_bind block_flags alloc_scan].
  destruct (vt_read_partial (length sector) 0 off buf (length buf) (cookie dev)) as [e buf'] eqn:E.
  assert (e = ECAUSE_OK) as -> by (cbn in E; by injection E).
  destruct (ram_read_partial_spec (length sector) (blocks dev) 0 off buf (length buf) (cookie dev) ECAUSE_OK buf') as [_ Hok]; [done|lia|done|done|exact E|].
  cbn [mbind outcome_bind]. rewrite Hok by done. unfold ram_content. cbn [Z.to_nat Nat.mul]. by rewrite drop_0, Hs.
Qed.

Definition uncached_ram_boot : BootSector (list Z) sector := Build_BootSector (list Z) _ _ sector uncached_ram uncached_ram_read.
End ram.

(** ** Correctness *)

(** The sector size is a power of two from 512 to 4096, and the signature is there. *)
Definition fat_sector_ok (sector : list Z) : Prop :=
  field 11 2 sector ∈ [512; 1024; 2048; 4096] ∧ sector !! 510%nat = Some 0x55 ∧ sector !! 511%nat = Some 0xAA.

#[global] Instance fat_sector_ok_dec sector : Decision (fat_sector_ok sector).
Proof. unfold fat_sector_ok. apply _. Defined.

(** The sizes that pass both tests. *)
Lemma power_range x : 512 <= x <= 4096 → (Z.land x (x - 1) =? 0) = bool_decide (x ∈ [512; 1024; 2048; 4096]).
Proof.
  intros Hx. assert (Hall : forallb (λ k, let x := 512 + Z.of_nat k in eqb (Z.land x (x - 1) =? 0) (bool_decide (x ∈ [512; 1024; 2048; 4096]))) (seq 0 3585) = true) by (by vm_compute).
  rewrite forallb_forall in Hall. specialize (Hall (Z.to_nat (x - 512))). cbv zeta in Hall. replace (512 + Z.of_nat (Z.to_nat (x - 512))) with x in Hall by lia.
  apply eqb_prop, Hall, in_seq. lia.
Qed.

Lemma field_prefix off w n (l : list Z) : (off + w <= n)%nat → field off w (take n l) = field off w l.
Proof. intros Hn. unfold field. rewrite skipn_firstn_comm, take_take. do 2 f_equal. lia. Qed.

Lemma bpb_prefix l : bpb_of (take SIZEOF_BPB l) = bpb_of l.
Proof.
  unfold bpb_of. rewrite !field_prefix, skipn_firstn_comm, !take_take by (unfold SIZEOF_BPB; lia). done.
Qed.

Section correct.
Context `{!BadgeStrings} `{!BlockDriver D} (sector : list Z) `{!BootSector D sector}.
Implicit Types (dev : blkdev D) (clock : nat → Z) (stack : list Z).

Lemma read_boot_spec clock k off n stack dev : boot_dev dev → (0 < n)%nat → (n <= length stack)%nat → (off + n <= length sector)%nat →
  ∃ dev', read_boot clock k off (take n stack) (Some dev) = Done (ECAUSE_OK, take n (drop off sector), Some dev') ∧ boot_dev dev'.
Proof.
  intros Hd Hpos Hn Ho. assert (El : length (take n stack) = n) by (rewrite length_take; lia). unfold read_boot.
  destruct (boot_read dev (clock (2 * k)%nat) (clock (2 * k + 1)%nat) off (take n stack)) as (dev'&E&Hd'); [done|lia|lia|]. rewrite E, El. by exists dev'.
Qed.

(** A device with a first block of at least 512 bytes is taken for a FAT file
    system exactly if the sector size in it is 512, 1024, 2048 or 4096 and the
    signature is at its place. *)
Lemma vfs_fat_detect_spec clock stack dev : boot_dev dev → (512 <= length sector)%nat → (64 <= length stack)%nat →
  ∃ dev', vfs_fat_detect clock stack (Some dev) = Done (ECAUSE_OK, bool_decide (fat_sector_ok sector), Some dev') ∧ boot_dev dev'.
Proof.
  intros Hd Hs Hst. unfold vfs_fat_detect. destruct (read_boot_spec clock 0 0 SIZEOF_BPB stack dev Hd) as (dev1&->&Hd1); [unfold SIZEOF_BPB; lia..|].
  cbn [mbind outcome_bind is_ok negb]. rewrite drop_0, bpb_prefix. cbn [bytes_per_sector bpb_of]. set (bps := field 11 2 sector).
  destruct ((bps <? 512) || (4096 <? bps)) eqn:Er.
  { exists dev1. split; [|done]. rewrite bool_decide_eq_false_2; [done|]. intros [Hb _]. fold bps in Hb. apply orb_true_iff in Er. rewrite !elem_of_cons in Hb.
    destruct Hb as [Hb|[Hb|[Hb|[Hb|Hb%elem_of_nil]]]]; lia. }
  apply orb_false_iff in Er. rewrite power_range by lia. case_bool_decide as Hb; cbn [negb].
  2:{ exists dev1. split; [|done]. rewrite bool_decide_eq_false_2; [done|]. by intros [? _]. }
  destruct (read_boot_spec clock 1 510 2 (drop SIZEOF_BPB stack) dev1 Hd1) as (dev2&->&Hd2); [lia|rewrite length_drop; unfold SIZEOF_BPB; lia|lia|].
  cbn [mbind outcome_bind is_ok negb]. exists dev2. split; [|done].
  rewrite !lookup_take_lt, !lookup_drop by lia. cbn [Nat.add]. unfold fat_sector_ok. fold bps.
  repeat case_bool_decide; cbn [negb orb]; try done; exfalso; naive_solver.
Qed.

(** The sectors before the data, and the sectors of a file system. *)
Definition fat_overhead (b : fat_bpb) (spf : Z) : Z :=
  reserved_sector_count b + fat_count b * spf + (if root_entry_count b =? 0 then 0 else (root_entry_count b * 32 + bytes_per_sector b - 1) / bytes_per_sector b).
Definition fat_size (b : fat_bpb) (spf32 : Z) : Z := if root_entry_count b =? 0 then spf32 else sectors_per_fat_16 b.
Definition total_sectors (b : fat_bpb) : Z := if root_entry_count b =? 0 then sector_count_32 b else sector_count_16 b.

(** The geometry that the boot sector describes is sound: the sizes are not zero,
    and the sectors before the data are not more than there are. *)
Definition geometry_ok (b : fat_bpb) (spf32 : Z) : Prop :=
  bpb_ok b ∧ word spf32 ∧ 0 < bytes_per_sector b ∧ 0 < sectors_per_cluster b ∧ fat_overhead b (fat_size b spf32) <= total_sectors b.

(** The geometry of a mounted file system is that of its boot sector. *)
Definition has_geometry (b : fat_bpb) (spf32 : Z) (fat : vfs_fat) : Prop :=
  vf_bytes_per_sector fat = bytes_per_sector b ∧ vf_sectors_per_cluster fat = sectors_per_cluster b ∧ fat_sector fat = reserved_sector_count b ∧
  data_sector fat = fat_overhead b (fat_size b spf32) ∧ 0 <= cluster_count fat ∧
  data_sector fat + cluster_count fat * sectors_per_cluster b <= total_sectors b < data_sector fat + (cluster_count fat + 1) * sectors_per_cluster b.

(** The count of clusters. *)
Lemma clusters_fit t o spc : 0 <= o <= t → 0 < spc → 0 <= Z.quot (t - o) spc ∧ o + Z.quot (t - o) spc * spc <= t < o + (Z.quot (t - o) spc + 1) * spc.
Proof. intros Ho Hs. rewrite Z.quot_div_nonneg by lia. pose proof (Z.div_mod (t - o) spc). pose proof (Z.mod_pos_bound (t - o) spc). pose proof (Z.div_pos (t - o) spc). lia. Qed.

Lemma divide_nonzero a b : b ≠ 0 → divide a b = Done (Z.quot a b).
Proof. intros Hb. unfold divide. by rewrite (proj2 (Z.eqb_neq _ _)). Qed.

(** The sectors of the root directory. *)
Definition root_sectors (b : fat_bpb) : Z := if root_entry_count b =? 0 then 0 else Z.quot (root_entry_count b * 32 + (bytes_per_sector b - 1)) (bytes_per_sector b).

Lemma overhead_parts b spf : bpb_ok b → 0 <= spf → 0 < bytes_per_sector b → fat_overhead b spf <= total_sectors b →
  0 <= root_sectors b ∧ 0 <= fat_count b * spf ∧ 0 <= reserved_sector_count b ∧ fat_overhead b spf = reserved_sector_count b + fat_count b * spf + root_sectors b ∧ total_sectors b < 2 ^ 32.
Proof.
  intros [_ _ H1 H2 H3 H4 H5 H6 _ _ _ _ _ H7] Hs Hb Ho. unfold byte, half, word in *. unfold fat_overhead, total_sectors, root_sectors in *. rewrite Z.add_sub_assoc.
  assert (0 <= fat_count b * spf) by (apply Z.mul_nonneg_nonneg; lia).
  destruct (root_entry_count b =? 0); [lia|]. rewrite Z.quot_div_nonneg by lia. assert (0 <= (root_entry_count b * 32 + bytes_per_sector b - 1) / bytes_per_sector b) by (apply Z.div_pos; lia). lia.
Qed.

(** No sum of the parts wraps around. *)
Lemma overhead_wraps b spf : bpb_ok b → 0 <= spf → 0 < bytes_per_sector b → fat_overhead b spf <= total_sectors b →
  u32 (u32 (reserved_sector_count b + u32 (fat_count b * spf)) + root_sectors b) = fat_overhead b spf ∧ u32 (total_sectors b - fat_overhead b spf) = total_sectors b - fat_overhead b spf.
Proof.
  intros Hok Hs Hb Ho. destruct (overhead_parts b spf Hok Hs Hb Ho) as (Hr&Hf&Hres&E&Ht). rewrite E in *. rewrite (wrap_small 32 (fat_count b * spf)) by (split; lia).
  rewrite (wrap_small 32 (reserved_sector_count b + _)) by (split; lia). rewrite !wrap_small by (split; lia). done.
Qed.

Lemma fat_layout_spec clock stack dev b spf32 : boot_dev dev → (64 <= length sector)%nat → (64 <= length stack)%nat → field 36 4 sector = spf32 → geometry_ok b spf32 →
  ∃ dev', fat_layout clock stack b (Some dev) = Done (ECAUSE_OK, root_sectors b, fat_size b spf32, total_sectors b - fat_overhead b (fat_size b spf32), Some dev') ∧ boot_dev dev'.
Proof.
  intros Hd Hlen Hst Ef (Hok&Hspf&Hbps&Hspc&Hov). assert (Hnn : 0 <= fat_size b spf32) by (destruct Hok; unfold fat_size, word, half in *; case_match; lia).
  destruct (overhead_wraps b _ Hok Hnn Hbps Hov) as [E1 E2]. unfold fat_layout, root_sectors, fat_size, total_sectors in *. destruct (root_entry_count b =? 0).
  - destruct (read_boot_spec clock 1 36 SIZEOF_FAT32_HEADER (drop SIZEOF_BPB stack) dev Hd) as (dev'&->&Hd'); [unfold SIZEOF_FAT32_HEADER; lia|rewrite length_drop; unfold SIZEOF_BPB, SIZEOF_FAT32_HEADER; lia|unfold SIZEOF_FAT32_HEADER; lia|].
    cbn [mbind outcome_bind]. exists dev'. split; [|done]. unfold sectors_per_fat_32. rewrite field_prefix by (unfold SIZEOF_FAT32_HEADER; lia).
    assert (field 0 4 (drop 36 sector) = spf32) as -> by done. rewrite Z.add_0_r, (wrap_small 32 (u32 _)) in E1 by (apply wrap_fits; lia). by rewrite E1, E2.
  - rewrite divide_nonzero by lia. cbn [mbind outcome_bind].
    destruct (read_boot_spec clock 1 36 SIZEOF_FAT16_HEADER (drop SIZEOF_BPB stack) dev Hd) as (dev'&->&Hd'); [unfold SIZEOF_FAT16_HEADER; lia|rewrite length_drop; unfold SIZEOF_BPB, SIZEOF_FAT16_HEADER; lia|unfold SIZEOF_FAT16_HEADER; lia|].
    cbn [mbind outcome_bind]. exists dev'. split; [|done]. by rewrite E1, E2.
Qed.

(** Mounting a FAT file system with a sound boot sector finds the first data
    sector behind the reserved sectors, the tables and the root directory, and
    counts the whole clusters that fit behind it; no number wraps around. *)
Lemma vfs_fat_mount_spec clock stack dev b spf32 rest : boot_dev dev → sector = bpb_bytes b ++ le_bytes 4 spf32 ++ rest → geometry_ok b spf32 →
  (24 <= length rest)%nat → (64 <= length stack)%nat →
  ∃ fat dev', vfs_fat_mount clock stack (Some dev) = Done (ECAUSE_OK, fat, Some dev') ∧ boot_dev dev' ∧ has_geometry b spf32 fat.
Proof.
  intros Hd Es Hg Hrest Hst. pose proof Hg as (Hok&Hspf&Hbps&Hspc&Hov). pose proof (bpb_bytes_length b Hok) as Hbl.
  assert (Hlen : (64 <= length sector)%nat) by (rewrite Es, !length_app, Hbl, le_bytes_length; unfold SIZEOF_BPB; lia).
  assert (Eb : bpb_of (take SIZEOF_BPB sector) = b) by (rewrite Es, take_app_length' by done; by apply bpb_roundtrip).
  assert (Ef : field 36 4 sector = spf32).
  { rewrite Es. unfold field. rewrite drop_app_length' by done. rewrite take_app_length' by (symmetry; apply le_bytes_length). by apply le_roundtrip. }
  unfold vfs_fat_mount. destruct (read_boot_spec clock 0 0 SIZEOF_BPB stack dev Hd) as (dev1&->&Hd1); [unfold SIZEOF_BPB; lia..|].
  cbn [mbind outcome_bind]. rewrite drop_0, Eb. destruct (fat_layout_spec clock stack dev1 b spf32 Hd1 Hlen Hst Ef Hg) as (dev2&->&Hd2). cbn [mbind outcome_bind].
  rewrite divide_nonzero by lia. cbn [mbind outcome_bind].
  assert (Hnn : 0 <= fat_size b spf32) by (destruct Hok; unfold fat_size, word, half in *; case_match; lia).
  destruct (overhead_wraps b _ Hok Hnn Hbps Hov) as [-> _]. destruct (overhead_parts b _ Hok Hnn Hbps Hov) as (?&?&?&E&_).
  eexists _, dev2. unfold has_geometry. split_and!; [done..| | |]; cbn [data_sector cluster_count]; apply clusters_fit; lia.
Qed.
End correct.

(** ** A concrete device *)

#[local] Existing Instance demo_strings.
#[local] Existing Instance demo_strings_spec.
#[local] Existing Instance blkdev_ram_vtable.

Definition demo_bpb (spc sc16 sc32 : Z) : fat_bpb := FatBpb (replicate 3 0) (replicate 8 32) 512 spc 1 2 512 sc16 0xF8 20 0 0 0 sc32.
Definition boot_rest : list Z := replicate 470 0 ++ [0x55; 0xAA].
Definition boot_block (b : fat_bpb) : list Z := bpb_bytes b ++ le_bytes 4 0 ++ boot_rest.
Definition fat_dev (b : fat_bpb) : blkdev (list Z) := Blkdev 512 1 false false (Some (BlkdevCache [] [])) (boot_block b).
Definition junk : list Z := replicate 64 7.

Lemma fat_dev_boot spc sc16 sc32 : uncached_ram (boot_block (demo_bpb spc sc16 sc32)) (fat_dev (demo_bpb spc sc16 sc32)).
Proof. by split_and!. Qed.

(** Before FAT32 a file system of more than 65535 sectors has its size in the
    field of 32 bits, which is not looked at: the count of clusters wraps around. *)
Example large_fat16_wraps : ('(ec, fat, _) ← vfs_fat_mount (λ _, 0) junk (Some (fat_dev (demo_bpb 4 0 100000))); Done (ec, cluster_count fat)) = Done (ECAUSE_OK, (2 ^ 32 - 73) / 4).
Proof. by vm_compute. Qed.

(** A cluster of no sectors is detected as a file system, and divided by. *)
Example empty_cluster_divides : ('(_, found, _) ← vfs_fat_detect (λ _, 0) junk (Some (fat_dev (demo_bpb 0 20000 0))); Done found) = Done true ∧
  vfs_fat_mount (λ _, 0) junk (Some (fat_dev (demo_bpb 0 20000 0))) = Undef.
Proof. by vm_compute. Qed.
