(* ===== verification/VfsMount.v ===== *)
(** * The virtual file system: mounting

    The functions of kernel/src/filesystem/filesystem.c that detect, mount and
    unmount file systems.  The table of mounted file systems holds a mount point
    for each slot in use; the contents of a mounted RAM file system are in the
    state of the open files.  [ec] is not null.  The mutex, and its double release
    when there is neither a type nor a medium, are not modelled. *)

From Stdlib Require Import String Ascii.
From S2P Require Import Prelude Badgelib IntRoutines Blockdev BlkdevRam Fat Ramfs RamfsTheory RamfsCorrect Vfs VfsCorrect VfsPath VfsPathCorrect FormatStr.

Definition FILESYSTEM_MOUNT_MAX : nat := 8.

Inductive fs_type := FS_TYPE_UNKNOWN | FS_TYPE_FAT | FS_TYPE_RAMFS.

Record mount_entry := MountEntry {
  mountpoint : list Z;
  m_readonly : bool;
  m_type : fs_type;
  m_fat : option vfs_fat;
}.

Definition MOUNTFLAGS_READONLY : Z := 1.

Section mount.
Context `{!BadgeStrings} `{!KernelHeap HS} `{!PathStrings} `{!PathCopies} `{!BlockDriver D}.
Implicit Types (st : vfs_state HS) (ec : badge_cause) (media : option (blkdev D)) (table : list (option mount_entry)).

Definition set_root_index (v : nat) st : vfs_state HS :=
  VfsState (shared_list st) (shared_cap st) (shared_mem st) (handle_list st) (handle_cap st) (vfs_handle_no st) (mounts st) (Some v).
Definition remove_mount (v : nat) st : vfs_state HS :=
  VfsState (shared_list st) (shared_cap st) (shared_mem st) (handle_list st) (handle_cap st) (vfs_handle_no st) (delete v (mounts st)) (vfs_root_index st).

Definition slot_uses (copy : list Z) (m : option mount_entry) : bool := match m with Some m => cstr_equals (mountpoint m) copy | None => false end.

(** A copy of a valid mount point.  The test for a slash at the end looks at the
    terminator, so the copy is the path. *)
Definition check_mountpoint (mem : nat → bool) ec (raw : list Z) table st : outcome (badge_cause * option (list Z) * vfs_state HS) :=
  if negb (char_at raw 0 =? char_slash) then Done (ECAUSE_PARAM, None, st) else
  if (FILESYSTEM_PATH_MAX <? length raw)%nat then Done (ECAUSE_PARAM, None, st) else
  canonical ← fs_is_canonical_path raw;
  if negb canonical then Done (ECAUSE_PARAM, None, st) else
  if negb (mem 0%nat) then Done (ECAUSE_NOMEM, None, st) else
  let copy := if (1 <? length raw)%nat && (char_at raw (length raw) =? char_slash) then take (length raw) raw else raw in
  if existsb (slot_uses copy) table then Done (ECAUSE_INUSE, None, st) else
  if cstr_equals copy [char_slash] then Done (ec, Some copy, st) else
  '(dir, ec, st) ← fs_dir_open (λ k, mem (k + 3)%nat) ec copy 0 st;
  if dir =? FILE_NONE then Done (ec, None, st) else
  '(_, st) ← fs_dir_close (mem 1%nat) (mem 2%nat) dir st;
  Done (ec, Some copy, st).

(** The first free slot. *)
Definition free_slot table : option nat := find_index (λ m, bool_decide (m = None)) 0 table.

Definition fs_detect (clock : nat → Z) (stack : list Z) media : outcome (badge_cause * fs_type * option (blkdev D)) :=
  '(ec, is_fat, media) ← vfs_fat_detect clock stack media;
  if is_fat : bool then Done (ec, FS_TYPE_FAT, media) else Done (ECAUSE_OK, FS_TYPE_UNKNOWN, media).

(** What the file system gets from outside: the stack and the times that the FAT
    driver sees, and for the RAM file system whether there is memory for the inodes
    and the usage map, the contents of the map, and the heap. *)
Record mount_env := MountEnv {
  me_clock : nat → Z;
  me_stack : list Z;
  me_list_ok : bool;
  me_usage_ok : bool;
  me_usage : list bool;
  me_heap : HS;
}.

(** Mounting by the file system, in the slot [v]. *)
Definition mount_type (env : mount_env) ec (type : fs_type) media : outcome (badge_cause * option (ramfs HS) * option vfs_fat * option (blkdev D)) :=
  match type with
  | FS_TYPE_FAT => '(ec, fat, media) ← vfs_fat_mount (λ k, me_clock env (k + 4)%nat) (me_stack env) media; Done (ec, None, Some fat, media)
  | FS_TYPE_RAMFS => '(ec, fs) ← vfs_ramfs_mount ec (bool_decide (is_Some media)) (me_list_ok env) (me_usage_ok env) (me_usage env) (me_heap env); Done (ec, fs, None, media)
  | FS_TYPE_UNKNOWN => Done (ECAUSE_PARAM, None, None, media)
  end.

(** The type is settled. *)
Definition mount_at (mem : nat → bool) (env : mount_env) ec (type : fs_type) media (raw : list Z) (flags : Z) table st
    : outcome (badge_cause * option (blkdev D) * list (option mount_entry) * vfs_state HS) :=
  '(ec, copy, st) ← check_mountpoint mem ec raw table st;
  if negb (is_ok ec) then Done (ec, media, table, st) else
  match free_slot table with
  | None => Done (ECAUSE_UNAVAIL, media, table, st)
  | Some v =>
      if negb (has_flag flags MOUNTFLAGS_READONLY) && match media with Some dev => blkdev_is_readonly dev | None => false end then
        Done (ECAUSE_READONLY, media, <[v := None]> table, st) else
      copy ← deref copy;
      '(ec, fs, fat, media) ← mount_type env ec type media;
      if negb (is_ok ec) then Done (ec, media, <[v := None]> table, st) else
      let st := match fs with Some fs => put_mount v fs st | None => st end in
      Done (ec, media, <[v := Some (MountEntry copy (has_flag flags MOUNTFLAGS_READONLY) type fat)]> table, if cstr_equals raw [char_slash] then set_root_index v st else st)
  end.

Definition fs_mount (mem : nat → bool) (env : mount_env) ec (type : fs_type) media (raw : list Z) (flags : Z) table st
    : outcome (badge_cause * option (blkdev D) * list (option mount_entry) * vfs_state HS) :=
  match type, media with
  | FS_TYPE_UNKNOWN, None => mount_at mem env ECAUSE_PARAM type media raw flags table st
  | FS_TYPE_UNKNOWN, Some _ =>
      '(ec, type, media) ← fs_detect (me_clock env) (me_stack env) media;
      if negb (is_ok ec) then Done (ec, media, table, st) else
      match type with
      | FS_TYPE_UNKNOWN => Done (ECAUSE_UNAVAIL, media, table, st)
      | _ => mount_at mem env ec type media raw flags table st
      end
  | _, _ => mount_at mem env ec type media raw flags table st
  end.

(** The mount point of a free slot is null, and compared. *)
Fixpoint find_mount (i : nat) (raw : list Z) table : outcome (option nat) :=
  match table with
  | [] => Done None
  | None :: _ => Undef
  | Some m :: table => if cstr_equals (mountpoint m) raw then Done (Some i) else find_mount (S i) raw table
  end.

(** Closes the handles from [i] on; the last handle moves into the place of one
    that is closed, and is not looked at. *)
Fixpoint close_handles (fuel : nat) (mem : nat → bool) (v i : nat) st : outcome (vfs_state HS) :=
  match fuel with
  | O => Fuel
  | S fuel =>
      if (length (handle_list st) <=? i)%nat then Done st else
      h ← deref (handle_list st !! i);
      s ← deref (shared_mem st !! h_shared h);
      st ← (if bool_decide (s_vfs s = Some v) then '(_, st) ← fs_close (mem 0%nat) (mem 1%nat) (fileno h) st; Done st else Done st);
      close_handles fuel (λ k, mem (k + 2)%nat) v (S i) st
  end.

Definition fs_umount (mem : nat → bool) ec (raw : list Z) table st : outcome (badge_cause * list (option mount_entry) * vfs_state HS) :=
  found ← find_mount 0 raw table;
  match found with
  | None => Done (ECAUSE_NOTFOUND, table, st)
  | Some v =>
      st ← close_handles (S (length (handle_list st))) mem v 0 st;
      m ← deref (table !! v);
      m ← deref m;
      st ← match m_type m with FS_TYPE_RAMFS => Done (remove_mount v st) | FS_TYPE_FAT => Done st | FS_TYPE_UNKNOWN => Undef end;
      Done (ec, <[v := None]> table, st)
  end.
End mount.

(** ** Correctness *)

Section correct.
Context `{!BadgeStrings, !BadgeStringsSpec} `{!KernelHeap HS} `{!KernelHeapSpec HS} `{!PathStrings, !PathStringsSpec, !PathCopies, !PathCopiesSpec} `{!BlockDriver D}.
Implicit Types (st : vfs_state HS) (table : list (option mount_entry)).

(** There is memory for the tables of a RAM file system. *)
Definition tables_ok (env : mount_env (HS := HS)) : Prop := me_list_ok env = true ∧ me_usage_ok env = true.

Definition root_entries : list entry := [(dot, 1); (dotdot, 1)].

(** One insertion into the root directory, whether there is memory for it or not. *)
Lemma insert_root_entry fs dino es e l : dir_at fs VFS_RAMFS_INODE_ROOT dino es → es `sublist_of` l → entry_ok e → Z.of_nat (len dino) < 1000 →
  ∃ ok fs' dino' es', insert_dirent ECAUSE_OK VFS_RAMFS_INODE_ROOT (dirent_of e) fs = Done (ok, ECAUSE_OK, fs') ∧
    dir_at fs' VFS_RAMFS_INODE_ROOT dino' es' ∧ es' `sublist_of` (l ++ [e]) ∧ (len dino' <= len dino + 288)%nat.
Proof.
  intros (Hd&Hok&HD&Hlen) Hsub He Hsmall. destruct (insert_dirent_spec ECAUSE_OK VFS_RAMFS_INODE_ROOT e fs dino es Hd Hok HD He) as (ok&ec&fs'&E&_&Hec&Hr); [lia|].
  assert (ec = ECAUSE_OK) as -> by (by destruct Hec). exists ok, fs'. pose proof (record_size_bounds (fst e) (proj2 (proj1 He))) as Hsz. unfold SIZEOF_DIRENT, OFFSETOF_NAME, VFS_RAMFS_NAME_MAX in Hsz. destruct ok.
  - destruct Hr as (ino'&Hl&Hok'&_&HD'&Hlen'). exists ino', (es ++ [e]). split_and!; [done| |by apply sublist_app|lia].
    split_and!; [|done|done|lia]. rewrite Hl. apply list_lookup_insert_eq. by eapply lookup_lt_Some.
  - exists dino, es. split_and!; [done| |by apply sublist_inserts_r|lia]. split_and!; [by rewrite Hr|done|done|done].
Qed.

Lemma ramfs_mount_spec usage (heap : HS) : ∃ fs dino es, vfs_ramfs_mount ECAUSE_OK false true true usage heap = Done (ECAUSE_OK, Some fs) ∧
  dir_at fs VFS_RAMFS_INODE_ROOT dino es ∧ es `sublist_of` root_entries.
Proof.
  unfold vfs_ramfs_mount. cbn [is_ok negb andb]. set (root := RamfsInode _ _ _ _ _ _). set (fs0 := Ramfs _ _ _).
  assert (H0' : dir_at fs0 VFS_RAMFS_INODE_ROOT root []) by (split_and!; [done|by split|split_and!; [constructor|done|done]|done]).
  rewrite (dot_dirent_spec dot), (dot_dirent_spec dotdot) by (first [by left|by right]). change (Z.of_nat VFS_RAMFS_INODE_ROOT) with 1.
  destruct (insert_root_entry fs0 root [] (dot, 1) [] H0' (sublist_nil_l _)) as (ok1&fs1&d1&es1&->&H1'&S1&L1); [by split; [split; [repeat constructor; cbn; lia|cbn; unfold VFS_RAMFS_NAME_MAX; lia]|]|done|].
  cbn [mbind outcome_bind].
  destruct (insert_root_entry fs1 d1 es1 (dotdot, 1) _ H1' S1) as (ok2&fs2&d2&es2&->&H2'&S2&L2); [by split; [split; [repeat constructor; cbn; lia|cbn; unfold VFS_RAMFS_NAME_MAX; lia]|]|cbn in L1; lia|].
  cbn [mbind outcome_bind]. by exists fs2, d2, es2.
Qed.

(** The first free slot has only used ones before it. *)
Lemma free_slot_Some table v : free_slot table = Some v → table !! v = Some None ∧ ∀ i, (i < v)%nat → ∃ m, table !! i = Some (Some m).
Proof.
  unfold free_slot. intros (Hv&x&Hx&Hf&Hb)%find_index_Some. rewrite Nat.sub_0_r in *. apply bool_decide_eq_true in Hf as ->. split; [done|].
  intros i Hi. destruct (lookup_lt_is_Some_2 table i) as [m Hm]; [apply lookup_lt_Some in Hx; lia|].
  destruct m as [m|]; [by exists m|]. by specialize (Hb i None Hi Hm).
Qed.

(** [raw] is a path that can be mounted on, with memory for its copy. *)
Definition mountable (mem : nat → bool) (raw : list Z) : Prop :=
  (length raw <= FILESYSTEM_PATH_MAX)%nat ∧ fs_is_canonical_path raw = Done true ∧ mem 0%nat = true.

Lemma canonical_absolute raw : fs_is_canonical_path raw = Done true → (char_at raw 0 =? char_slash) = true.
Proof. unfold fs_is_canonical_path. by destruct (char_at raw 0 =? char_slash). Qed.

Lemma root_canonical : fs_is_canonical_path [char_slash] = Done true.
Proof. unfold fs_is_canonical_path. cbn -[cstr_index]. by rewrite cstr_index_spec. Qed.

Lemma check_mountpoint_copy mem ec raw table st : mountable mem raw → check_mountpoint mem ec raw table st =
  (if existsb (slot_uses raw) table then Done (ECAUSE_INUSE, None, st) else
   if bool_decide (raw = [char_slash]) then Done (ec, Some raw, st) else
   '(dir, ec, st) ← fs_dir_open (λ k, mem (k + 3)%nat) ec raw 0 st;
   if dir =? FILE_NONE then Done (ec, None, st) else
   '(_, st) ← fs_dir_close (mem 1%nat) (mem 2%nat) dir st;
   Done (ec, Some raw, st)).
Proof.
  intros (Hlen&Hc&Hm). unfold check_mountpoint. rewrite (canonical_absolute _ Hc), (proj2 (Nat.ltb_ge _ _)), Hc, Hm by done. cbn [negb mbind outcome_bind].
  assert (E : char_at raw (length raw) = 0) by (unfold char_at; by rewrite lookup_ge_None_2). rewrite E, andb_false_r, cstr_equals_spec. done.
Qed.

Lemma root_mountable mem : mem 0%nat = true → mountable mem [char_slash].
Proof. intros Hm. split_and!; [unfold FILESYSTEM_PATH_MAX; cbn; lia|apply root_canonical|done]. Qed.

Lemma fs_mount_root mem (env : mount_env) flags table st v : mem 0%nat = true → tables_ok env → existsb (slot_uses [char_slash]) table = false → free_slot table = Some v →
  ∃ fs dino es, fs_mount mem env ECAUSE_OK FS_TYPE_RAMFS None [char_slash] flags table st =
    Done (ECAUSE_OK, @None (blkdev D), <[v := Some (MountEntry [char_slash] (has_flag flags MOUNTFLAGS_READONLY) FS_TYPE_RAMFS None)]> table, set_root_index v (put_mount v fs st)) ∧
    dir_at fs VFS_RAMFS_INODE_ROOT dino es ∧ es `sublist_of` root_entries.
Proof.
  intros Hm [Hto1 Hto2] Hu Hv. destruct (ramfs_mount_spec (me_usage env) (me_heap env)) as (fs&dino&es&E&HD&Hes). exists fs, dino, es. split; [|done].
  unfold fs_mount, mount_at. rewrite check_mountpoint_copy by by apply root_mountable. rewrite Hu, bool_decide_eq_true_2 by done. cbn [mbind outcome_bind is_ok negb]. rewrite Hv, andb_false_r. cbn [deref mbind outcome_bind mount_type].
  rewrite bool_decide_eq_false_2 by by intros [? ?]. rewrite Hto1, Hto2, E. cbn [mbind outcome_bind is_ok negb deref]. by rewrite cstr_equals_spec, bool_decide_eq_true_2.
Qed.

(** A RAM file system mounted on "/" takes the first free slot of the table,
    leaves the others alone, becomes the root, and has an empty root directory:
    there is no name in it but "." and "..". *)
Theorem fs_mount_root_correct mem (env : mount_env) flags table st v : mem 0%nat = true → tables_ok env → existsb (slot_uses [char_slash]) table = false → free_slot table = Some v →
  ∃ table' st' fs dino es, fs_mount mem env ECAUSE_OK FS_TYPE_RAMFS None [char_slash] flags table st = Done (ECAUSE_OK, @None (blkdev D), table', st') ∧
    (∃ m, table' !! v = Some (Some m) ∧ mountpoint m = [char_slash] ∧ m_readonly m = has_flag flags MOUNTFLAGS_READONLY) ∧
    (∀ i, (i < v)%nat → ∃ m, table !! i = Some (Some m)) ∧ (∀ i, i ≠ v → table' !! i = table !! i) ∧
    vfs_root_index st' = Some v ∧ mounts st' = <[v := fs]> (mounts st) ∧ handle_list st' = handle_list st ∧ shared_mem st' = shared_mem st ∧
    dir_at fs VFS_RAMFS_INODE_ROOT dino es ∧ ∀ e, e ∈ es → fst e = dot ∨ fst e = dotdot.
Proof.
  intros Hm Hto Hu Hv. destruct (fs_mount_root mem env flags table st v Hm Hto Hu Hv) as (fs&dino&es&E&HD&Hes). destruct (free_slot_Some _ _ Hv) as [Hn Hbefore].
  eexists _, _, fs, dino, es. split_and!; [exact E| |done|by intros; apply list_lookup_insert_ne|done|done|done|done|done|].
  - eexists. split; [by apply list_lookup_insert_eq, (lookup_lt_Some _ _ _ Hn)|done].
  - intros e He. apply sublist_submseteq in Hes. pose proof (elem_of_submseteq _ _ _ He Hes) as He'. apply list_elem_of_In in He' as [<-|[<-|[]]]; auto.
Qed.

(** ** Errors *)

(** The mount point passes its test, which leaves the state [st'] behind: the
    directory that it names is opened and closed again, unless it is "/". *)
Definition accepted (mem : nat → bool) (raw : list Z) table st st' : Prop :=
  check_mountpoint mem ECAUSE_OK raw table st = Done (ECAUSE_OK, Some raw, st').

Lemma root_accepted mem table st : mem 0%nat = true → existsb (slot_uses [char_slash]) table = false → accepted mem [char_slash] table st st.
Proof. intros Hm Hu. unfold accepted. rewrite check_mountpoint_copy by by apply root_mountable. by rewrite Hu, bool_decide_eq_true_2. Qed.

(** C40: With a known type of file system, a mount point that is not an absolute
    path, is too long, or fails the test of the code for canonical paths is
    rejected with PARAM; one without memory for its copy with NOMEM; one in use with
    INUSE.  A mount point that is accepted, "/" or the path of a directory, is
    rejected with UNAVAIL when all slots are in use, and with READONLY when the
    medium cannot be written and writing is asked for.  The table of mounted file
    systems is as before; so is the state of the open files, but for the directory
    that was opened and closed to accept the mount point. *)
Theorem fs_mount_rejects mem (env : mount_env) type media raw flags table st : type ≠ FS_TYPE_UNKNOWN →
  let mount := fs_mount mem env ECAUSE_OK type media raw flags table st in
  (char_at raw 0 ≠ char_slash ∨ (FILESYSTEM_PATH_MAX < length raw)%nat ∨ fs_is_canonical_path raw = Done false → mount = Done (ECAUSE_PARAM, media, table, st)) ∧
  ((length raw <= FILESYSTEM_PATH_MAX)%nat → fs_is_canonical_path raw = Done true → mem 0%nat = false → mount = Done (ECAUSE_NOMEM, media, table, st)) ∧
  (mountable mem raw → (∃ m, Some m ∈ table ∧ mountpoint m = raw) → mount = Done (ECAUSE_INUSE, media, table, st)) ∧
  (∀ st', accepted mem raw table st st' →
    (Forall is_Some table → mount = Done (ECAUSE_UNAVAIL, media, table, st')) ∧
    (is_Some (free_slot table) → has_flag flags MOUNTFLAGS_READONLY = false → (∃ dev, media = Some dev ∧ readonly dev = true) →
      mount = Done (ECAUSE_READONLY, media, table, st'))).
Proof.
  intros Ht mount. assert (Em : mount = mount_at mem env ECAUSE_OK type media raw flags table st) by (intros; unfold mount, fs_mount; by destruct type). rewrite !Em. clear mount Em. unfold mount_at, accepted. split_and!.
  - intros Hr. unfold check_mountpoint. destruct (Z.eqb_spec (char_at raw 0) char_slash) as [E|E]; cbn [negb]; [|done].
    destruct (Nat.ltb_spec FILESYSTEM_PATH_MAX (length raw)) as [|Hle]; [done|]. destruct Hr as [?|[?| ->]]; [done|lia|done].
  - intros Hlen Hc Hm. unfold check_mountpoint. by rewrite (canonical_absolute _ Hc), (proj2 (Nat.ltb_ge _ _)), Hc, Hm by done.
  - intros Hok (m&Hin&Hp). rewrite check_mountpoint_copy by done. assert (existsb (slot_uses raw) table = true) as ->; [|done].
    apply existsb_exists. exists (Some m). split; [by apply list_elem_of_In|]. cbn. by rewrite cstr_equals_spec, bool_decide_eq_true_2.
  - intros st' ->. cbn [mbind outcome_bind is_ok negb]. split.
    + intros Hfull. destruct (free_slot table) as [v|] eqn:Hv; [|done]. apply free_slot_Some in Hv as [Hv _]. rewrite Forall_lookup in Hfull. by destruct (Hfull _ _ Hv).
    + intros [v Hv] Hf (dev&->&Hro). rewrite Hv, Hf. unfold blkdev_is_readonly. rewrite Hro. cbn [negb andb]. apply free_slot_Some in Hv as [Hv _]. by rewrite list_insert_id.
Qed.

(** ** Detection *)

Section detected.
Context (sector : list Z) `{!BootSector D sector}.

(** C19: With a medium and no type, a medium whose boot sector is not one of a FAT
    file system is refused; one with a sound FAT boot sector is mounted on "/" in
    the first free slot with the geometry that the boot sector describes, and the
    medium can still be read. *)
Theorem fs_mount_detects mem (env : mount_env) dev flags table st v : boot_dev dev → (512 <= length sector)%nat → (64 <= length (me_stack env))%nat →
  mem 0%nat = true → existsb (slot_uses [char_slash]) table = false → free_slot table = Some v → has_flag flags MOUNTFLAGS_READONLY = true ∨ (∀ dev', boot_dev dev' → readonly dev' = false) →
  ∃ dev', boot_dev dev' ∧
  (¬ fat_sector_ok sector → fs_mount mem env ECAUSE_OK FS_TYPE_UNKNOWN (Some dev) [char_slash] flags table st = Done (ECAUSE_UNAVAIL, Some dev', table, st)) ∧
  (∀ b spf32 rest, fat_sector_ok sector → sector = bpb_bytes b ++ le_bytes 4 spf32 ++ rest → geometry_ok b spf32 →
    ∃ fat dev'', fs_mount mem env ECAUSE_OK FS_TYPE_UNKNOWN (Some dev) [char_slash] flags table st =
      Done (ECAUSE_OK, Some dev'', <[v := Some (MountEntry [char_slash] (has_flag flags MOUNTFLAGS_READONLY) FS_TYPE_FAT (Some fat))]> table, set_root_index v st) ∧
      boot_dev dev'' ∧ has_geometry b spf32 fat).
Proof.
  intros Hd Hlen Hst Hm Hu Hv Hro. destruct (vfs_fat_detect_spec sector (me_clock env) (me_stack env) dev Hd Hlen Hst) as (dev'&E&Hd'). exists dev'. unfold fs_mount, fs_detect. rewrite E. cbn [mbind outcome_bind]. split_and!; [done| |].
  - intros Hno. by rewrite bool_decide_eq_false_2.
  - intros b spf32 rest Hyes Es Hg. rewrite bool_decide_eq_true_2 by done. cbn [mbind outcome_bind is_ok negb]. unfold mount_at.
    rewrite check_mountpoint_copy by by apply root_mountable. rewrite Hu, bool_decide_eq_true_2 by done. cbn [mbind outcome_bind is_ok negb]. rewrite Hv. unfold blkdev_is_readonly.
    assert (negb (has_flag flags MOUNTFLAGS_READONLY) && readonly dev' = false) as -> by (destruct Hro as [->|Hro]; [done|by rewrite (Hro dev' Hd'), andb_false_r]). cbn [deref mbind outcome_bind mount_type].
    destruct (vfs_fat_mount_spec sector (λ k, me_clock env (k + 4)%nat) (me_stack env) dev' b spf32 rest Hd' Es Hg) as (fat&dev''&->&Hd''&Hdesc); [|done|].
    { pose proof (bpb_bytes_length b (proj1 Hg)) as Hbl. rewrite Es, !length_app, Hbl, le_bytes_length in Hlen. unfold SIZEOF_BPB in Hlen. lia. }
    cbn [mbind outcome_bind is_ok negb]. rewrite cstr_equals_spec, bool_decide_eq_true_2 by done. by eexists fat, dev''.
Qed.
End detected.

(** ** Unmounting *)

Lemma find_mount_spec raw table : ∀ i v m, table !! v = Some (Some m) → mountpoint m = raw → (∀ j, (j < v)%nat → ∃ m', table !! j = Some (Some m') ∧ mountpoint m' ≠ raw) →
  find_mount i raw table = Done (Some (i + v)%nat).
Proof.
  induction table as [|x table IH]; intros i v m Hv Hm Hb; [done|]. destruct v as [|v]; cbn in Hv; simplify_eq; cbn [find_mount].
  - by rewrite cstr_equals_spec, bool_decide_eq_true_2, Nat.add_0_r.
  - destruct (Hb 0%nat) as (m'&[= ->]&Hne); [lia|]. rewrite cstr_equals_spec, bool_decide_eq_false_2 by done. rewrite (IH (S i) v m Hv eq_refl); [f_equal; f_equal; lia|].
    intros j Hj. apply (Hb (S j)). lia.
Qed.

(** No handle is open on the slot [v]. *)
Definition quiet (v : nat) st : Prop := ∀ h, h ∈ handle_list st → ∃ s, shared_mem st !! h_shared h = Some s ∧ s_vfs s ≠ Some v.

Lemma close_handles_quiet v st : quiet v st → ∀ fuel mem i, (length (handle_list st) - i < fuel)%nat → close_handles fuel mem v i st = Done st.
Proof.
  intros Hq fuel. induction fuel as [|fuel IH]; intros mem i Hf; cbn [close_handles]; [lia|].
  destruct (Nat.leb_spec (length (handle_list st)) i) as [|Hlt]; [done|]. destruct (lookup_lt_is_Some_2 _ _ Hlt) as [h Hh]. rewrite Hh. cbn [deref mbind outcome_bind].
  destruct (Hq h) as (s&Hs&Hne); [by eapply list_elem_of_lookup_2|]. rewrite Hs. cbn [deref mbind outcome_bind]. rewrite bool_decide_eq_false_2 by done. cbn [mbind outcome_bind]. apply IH. lia.
Qed.

(** C39: Mounting a RAM file system on "/" and unmounting it gives back the table
    and the mounted file systems as they were, when no handle is open on the
    slot and there is memory. *)
Theorem mount_umount_roundtrip mem mem' (env : mount_env) flags table st v :
  mem 0%nat = true → tables_ok env → existsb (slot_uses [char_slash]) table = false → free_slot table = Some v → quiet v st → mounts st !! v = None →
  ∃ table' st' st'', fs_mount mem env ECAUSE_OK FS_TYPE_RAMFS None [char_slash] flags table st = Done (ECAUSE_OK, @None (blkdev D), table', st') ∧
    fs_umount mem' ECAUSE_OK [char_slash] table' st' = Done (ECAUSE_OK, table, st'') ∧
    mounts st'' = mounts st ∧ handle_list st'' = handle_list st ∧ shared_mem st'' = shared_mem st.
Proof.
  intros Hm Hto Hu Hv Hq Hnone. destruct (fs_mount_root mem env flags table st v Hm Hto Hu Hv) as (fs&dino&es&E&_&_). destruct (free_slot_Some _ _ Hv) as [Hn Hbefore].
  pose proof (lookup_lt_Some _ _ _ Hn) as Hlt. set (m := MountEntry _ _ _ _) in E. set (st' := set_root_index _ _) in E. eexists _, st', (remove_mount v st'). split; [exact E|]. unfold fs_umount.
  rewrite (find_mount_spec _ _ 0 v m); [|by apply list_lookup_insert_eq|done|].
  - cbn [mbind outcome_bind Nat.add]. rewrite close_handles_quiet by (try exact Hq; cbn; lia). cbn [mbind outcome_bind]. rewrite list_lookup_insert_eq by done. cbn [deref mbind outcome_bind m_type m].
    rewrite list_insert_insert_eq, list_insert_id by done. split_and!; [done| |done|done]. cbn. by rewrite delete_insert_id.
  - intros j Hj. destruct (Hbefore j Hj) as [m' Hm']. exists m'. rewrite list_lookup_insert_ne by lia. split; [done|]. intros Hp.
    apply not_true_iff_false in Hu. apply Hu, existsb_exists. exists (Some m'). split; [by apply list_elem_of_In, list_elem_of_lookup_2 with j|]. cbn. by rewrite cstr_equals_spec, bool_decide_eq_true_2.
Qed.
End correct.

(** ** Concrete mounts *)

#[local] Existing Instance demo_strings.
#[local] Existing Instance demo_strings_spec.
#[local] Existing Instance RamfsCorrect.demo_heap.
#[local] Existing Instance demo_heap_spec.
#[local] Existing Instance demo_paths.
#[local] Existing Instance demo_paths_spec.
#[local] Existing Instance demo_copies.
#[local] Existing Instance blkdev_ram_vtable.

Definition no_mounts : list (option mount_entry) := replicate FILESYSTEM_MOUNT_MAX None.
Definition idle_state : vfs_state unit := VfsState [] 0 ∅ [] 0 0 ∅ None.
Definition demo_env : mount_env := MountEnv (HS := unit) (λ _, 0) junk true true (replicate 32 false) tt.

Lemma fs_mount_root_correct_witness : ∃ table' st', fs_mount (λ _, true) demo_env ECAUSE_OK FS_TYPE_RAMFS None (text "/") 0 no_mounts idle_state = Done (ECAUSE_OK, None, table', st') ∧
  vfs_root_index st' = Some 0%nat ∧ table' !! 1%nat = Some None.
Proof.
  destruct (fs_mount_root_correct (λ _, true) demo_env 0 no_mounts idle_state 0) as (table'&st'&fs&dino&es&E&_&_&Ho&Hr&_); [done|done|by vm_compute|by vm_compute|].
  exists table', st'. split_and!; [exact E|exact Hr|]. by rewrite Ho.
Defined.

Lemma mount_umount_roundtrip_witness : ∃ table' st' st'', fs_mount (λ _, true) demo_env ECAUSE_OK FS_TYPE_RAMFS None (text "/") 0 no_mounts idle_state = Done (ECAUSE_OK, None, table', st') ∧
  fs_umount (λ _, true) ECAUSE_OK (text "/") table' st' = Done (ECAUSE_OK, no_mounts, st'') ∧ mounts st'' = ∅.
Proof.
  destruct (mount_umount_roundtrip (λ _, true) (λ _, true) demo_env 0 no_mounts idle_state 0) as (table'&st'&st''&E&E2&Hm&_); [done|done|by vm_compute|by vm_compute|by intros h ?%elem_of_nil|done|].
  exists table', st', st''. split_and!; [exact E|exact E2|exact Hm].
Defined.

(** A root file system with the directory "/d"; seven slots of the table are in
    use, and the last one where [last] is. *)
Definition with_dir : vfs_state unit := Eval vm_compute in
  match ('(_, _, _, st) ← fs_mount (λ _, true) demo_env ECAUSE_OK FS_TYPE_RAMFS None (text "/") 0 no_mounts (VfsState [] 8 ∅ [] 8 0 ∅ None);
         '(_, _, st) ← fs_dir_create (λ _, true) ECAUSE_OK (text "/d") st; Done st) with Done st => st | _ => idle_state end.
Definition busy_table (last : option mount_entry) : list (option mount_entry) := Some (MountEntry (text "/") false FS_TYPE_RAMFS None) ::
  replicate 6 (Some (MountEntry (text "/mnt") false FS_TYPE_FAT None)) ++ [last].
Definition readonly_dev : blkdev (list Z) := Blkdev 512 1 true false None [].

Lemma dir_accepted last : last = None ∨ last = Some (MountEntry (text "/mnt") false FS_TYPE_FAT None) →
  ∃ st', accepted (λ _, true) (text "/d") (busy_table last) with_dir st'.
Proof. intros [->| ->]; eexists; vm_compute; reflexivity. Qed.

Lemma fs_mount_rejects_witness :
  (let mount mem := λ raw, fs_mount mem demo_env ECAUSE_OK FS_TYPE_RAMFS None raw 0 (busy_table None) with_dir in let rejected ec := Done (ec, None, busy_table None, with_dir) in
    mount (λ _, true) (text "mnt") = rejected ECAUSE_PARAM ∧ mount (λ _, true) (text "//d") = rejected ECAUSE_PARAM ∧
    mount (λ _, false) (text "/d") = rejected ECAUSE_NOMEM ∧ mount (λ _, true) (text "/mnt") = rejected ECAUSE_INUSE) ∧
  (∃ st', fs_mount (λ _, true) demo_env ECAUSE_OK FS_TYPE_RAMFS None (text "/d") 0 (busy_table (Some (MountEntry (text "/mnt") false FS_TYPE_FAT None))) with_dir =
    Done (ECAUSE_UNAVAIL, None, busy_table (Some (MountEntry (text "/mnt") false FS_TYPE_FAT None)), st')) ∧
  (∃ st', fs_mount (λ _, true) demo_env ECAUSE_OK FS_TYPE_FAT (Some readonly_dev) (text "/d") 0 (busy_table None) with_dir = Done (ECAUSE_READONLY, Some readonly_dev, busy_table None, st')).
Proof.
  cbv zeta beta. split_and!.
  - apply fs_mount_rejects; [done|]. left. by vm_compute.
  - apply fs_mount_rejects; [done|]. right; right. by vm_compute.
  - apply fs_mount_rejects; [done|cbn; unfold FILESYSTEM_PATH_MAX; lia|by vm_compute|done].
  - apply fs_mount_rejects; [done|by split_and!; [cbn; unfold FILESYSTEM_PATH_MAX; lia|vm_compute|]|]. exists (MountEntry (text "/mnt") false FS_TYPE_FAT None). split; [by right; left|done].
  - destruct (dir_accepted (Some (MountEntry (text "/mnt") false FS_TYPE_FAT None)) (or_intror eq_refl)) as [st' Hst']. exists st'.
    apply (fs_mount_rejects (λ _, true) demo_env FS_TYPE_RAMFS None (text "/d") 0 _ with_dir); [done|exact Hst'|]. repeat constructor; by eexists.
  - destruct (dir_accepted None (or_introl eq_refl)) as [st' Hst']. exists st'.
    apply (fs_mount_rejects (λ _, true) demo_env FS_TYPE_FAT (Some readonly_dev) (text "/d") 0 _ with_dir); [done|exact Hst'|by vm_compute; eexists|by vm_compute|by exists readonly_dev].
Defined.

Lemma fs_mount_detects_witness : ∃ fat dev', fs_mount (λ _, true) demo_env ECAUSE_OK FS_TYPE_UNKNOWN (Some (fat_dev (demo_bpb 4 20000 0))) (text "/") MOUNTFLAGS_READONLY no_mounts idle_state =
    Done (ECAUSE_OK, Some dev', <[0%nat := Some (MountEntry (text "/") true FS_TYPE_FAT (Some fat))]> no_mounts, set_root_index 0 idle_state) ∧ data_sector fat = 73 ∧ cluster_count fat = 4981.
Proof.
  destruct (fs_mount_detects (boot_block (demo_bpb 4 20000 0)) (BootSector0 := uncached_ram_boot _) (λ _, true) demo_env (fat_dev (demo_bpb 4 20000 0)) MOUNTFLAGS_READONLY no_mounts idle_state 0)
    as (dev'&_&_&Hyes); [apply fat_dev_boot|cbn; lia|cbn; lia|done|by vm_compute|by vm_compute|by left|].
  destruct (Hyes (demo_bpb 4 20000 0) 0 boot_rest) as (fat&dev''&E&_&Hdesc); [apply (bool_decide_unpack _); by vm_compute|done|split_and!; [by split|done|done|done|by vm_compute]|].
  exists fat, dev''. split; [exact E|]. destruct Hdesc as (_&_&_&Hd&_&Hc).
  assert (fat_overhead (demo_bpb 4 20000 0) (fat_size (demo_bpb 4 20000 0) 0) = 73) as E1 by (by vm_compute).
  change (sectors_per_cluster (demo_bpb 4 20000 0)) with 4 in Hc. change (total_sectors (demo_bpb 4 20000 0)) with 20000 in Hc. lia.
Defined.

(** A file system that is not mounted cannot be unmounted: the mount point of a
    free slot is a null pointer, and it is compared. *)
Example umount_reads_null : fs_umount (λ _, true) ECAUSE_OK (text "/") no_mounts idle_state = Undef.
Proof. by vm_compute. Qed.

(** The index of the root is not cleared when it is unmounted. *)
Example umount_keeps_root :
  ('(_, _, table, st) ← fs_mount (λ _, true) demo_env ECAUSE_OK FS_TYPE_RAMFS None (text "/") 0 no_mounts idle_state;
   '(_, _, st) ← fs_umount (λ _, true) ECAUSE_OK (text "/") table st; Done (vfs_root_index st, mounts st !! 0%nat)) = Done (Some 0%nat, None).
Proof. by vm_compute. Qed.

(** From an empty table to the contents of a file. *)
Example mount_create_write_read :
  ('(_, _, _, st) ← fs_mount (λ _, true) demo_env ECAUSE_OK FS_TYPE_RAMFS None (text "/") 0 no_mounts idle_state;
   '(fd, _, st) ← fs_open (λ _, true) ECAUSE_OK (text "/hello") (Z.lor OFLAGS_READWRITE OFLAGS_CREATE) st;
   '(n, _, st) ← fs_write ECAUSE_OK fd (text "abc") 3 st;
   '(_, _, st) ← fs_seek fd 1 SEEK_ABS st;
   '(r, ec, data, _) ← fs_read ECAUSE_OK fd [0; 0] 2 st;
   Done (fd, n, r, ec, data)) = Done (1, 3, 2, ECAUSE_OK, text "bc").
Proof. by vm_compute. Qed.
